(* ===== verification/_CoqProject ===== *)
-Q . S2P
Prelude.v
DexOpcodes.v
DexInstruction.v
Floats.v
ShadowFrame.v
InterpreterBase.v
Interpreter.v
VerifierStatic.v
VerifierProps.v
VerifierTargets.v
InterpreterSafety.v
VerifiedExecution.v
InterpreterTheorems.v
Leb128.v
DexCode.v
ExceptionDispatch.v
LockWord.v
Monitor.v
MonitorProofs.v
MonitorTheorems.v
ClassHierarchy.v
RegTypes.v
RegTypeProofs.v
RegTypeTheorems.v
RegisterLine.v
RegisterLineProofs.v
RegisterLineTheorems.v
CodeFlowState.v
CodeFlowChecks.v
CodeFlow.v
CodeFlowMono.v
FrameTypes.v
PlainExec.v
CodeFlowStep.v
CodeFlowPlain.v
CodeFlowInstruction.v
CodeFlowEdges.v
CodeFlowInvariant.v
CodeFlowRound.v
CodeFlowSound.v
CodeFlowEntry.v
CodeFlowTheorems.v
TypedExecution.v
LoopBounds.v
TrivialLoopEvaluator.v
TrivialLoopTheorems.v
ParallelMove.v
ParallelMoveMachine.v
ParallelMoveGraph.v
ParallelMoveSwap.v
ParallelMoveTheorems.v
ParallelMoveScratch.v
ParallelMoveScratchProofs.v
ParallelMoveScratchTheorems.v
ParallelMoveArm64.v
IndirectReferenceTable.v
LocalReferences.v
IndirectReferenceProofs.v
LocalReferenceTheorems.v
