(* ===== verification/Prelude.v ===== *)
(** * A verification of the core of the Android Runtime (art-extension)

    The program is the Android Runtime with Intel's compiler extensions.  A method arrives as
    Dex code; the verifier checks it, the interpreter executes it, and the optimizing compiler,
    with the extension passes, compiles it.  This development models the path from code units to
    execution (decoding, both passes of the verifier, interpretation, monitors, the local
    references of native methods) and, from the
    compiler, the analysis that bounds counted loops, the pass that evaluates them at compile
    time and the resolver of the register allocator's parallel moves.  Paths below are relative
    to src/art-extension.

    ** Files

    - [Prelude]: fixed-width integers ([wrapu], [wraps] and the [u8] .. [s64] conversions), bit
      operations as arithmetic, word arrays, little-endian memory, tactics, hint databases.
    - [DexOpcodes]: runtime/dex_instruction_list.h and the tables and predicates of
      runtime/dex_instruction.h and .cc: one row per opcode, as in the macro list.
    - [DexInstruction]: the accessors of runtime/dex_instruction.h, -inl.h and .cc.  An
      [Instruction*] is the memory of code units and an index into it.
    - [Floats]: IEEE arithmetic on bit patterns over the standard library's [SpecFloat], and
      [art_float_to_integral] of runtime/entrypoints/entrypoint_utils-inl.h.
    - [ShadowFrame]: the interpreter's frame of runtime/stack.h (raw registers and their
      reference copies in one array) and [JValue] of runtime/jvalue.h.
    - [InterpreterBase]: state, arrays, outcomes, the class [RuntimeServices] of what the
      interpreter asks of the rest of the runtime, and the helpers of
      runtime/interpreter/interpreter_common.h, safe_math.h, mirror/array-inl.h and
      entrypoints/entrypoint_utils.cc (division, switches, bounds checks, [FillArrayData]).
    - [Interpreter]: runtime/interpreter/interpreter_switch_impl.cc, one definition per group
      of cases of the switch, [iterate] for one turn of the loop with its exception path, [run]
      and [ExecuteSwitchImpl] with fuel, [steps] as the relation of runs.
    - [VerifierStatic]: the static pass of runtime/verifier/method_verifier.cc (from
      [ComputeWidthsAndCountOps] to [CheckVarArgRangeRegs]) over the flags of
      instruction_flags.h, in a state monad whose failure is an access outside the flags.
    - [VerifierProps]: what acceptance by that pass means: the marks are the boundaries of the
      linear sweep, operands and targets are in range, and the pass never fails.
    - [VerifierTargets]: what that pass leaves for the next one: the positions control can jump
      to are flagged as branch targets, the instructions of try blocks as such, and nothing as
      visited or changed.
    - [InterpreterSafety]: the class [ServicesSafe] of laws the services promise, and the
      safety of every group of the switch on verified code, proved against that interface.
    - [VerifiedExecution]: the theorems that join the verifier and the interpreter, with a
      sample method and a sample runtime on which the hypotheses hold.
    - [InterpreterTheorems]: functional correctness of switches, arithmetic, array accesses,
      [fill-array-data] and single stepping.
    - [Leb128]: runtime/leb128.h, over a memory of bytes.
    - [DexCode]: code items, try items and catch handlers in the bytes of a dex file
      (runtime/dex_file.h, -inl.h and .cc: [FindTryItem], [CatchHandlerIterator]) and the
      checks runtime/dex_file_verifier.cc makes on them ([CheckIntraCodeItem]).
    - [ExceptionDispatch]: loading a code item for the method verifier, [FindCatchBlock] of
      runtime/art_method.cc and the interpreter's entry to it, over the class [TypeServices] of
      class resolution, and the theorems that join both verifiers and the interpreter.
    - [LockWord], [Monitor]: the lock word of runtime/lock_word.h and, from runtime/monitor.cc,
      entering, leaving, inflating, deflating, waiting, notifying and hashing, as steps of
      threads over one object's lock word and its monitors: a step per access to shared memory.
    - [MonitorProofs], [MonitorTheorems]: the invariant of these steps and the theorems on
      schedules, with an executable scheduler for the witnesses.
    - [ClassHierarchy]: the queries of runtime/mirror/class.h, -inl.h and .cc on superclasses,
      interfaces and arrays, and [ClassJoin] of runtime/verifier/reg_type.cc.
    - [RegTypes]: register types, their cache, assignability and merge, from
      runtime/verifier/reg_type.h, -inl.h, .cc and reg_type_cache.h, -inl.h, .cc.
    - [RegTypeProofs], [RegTypeTheorems]: the invariant of the cache, the meaning of a type as
      a set of register values, and soundness of merge and assignability.
    - [RegisterLine], [RegisterLineProofs], [RegisterLineTheorems]: the types of the registers
      before an instruction, the stack of entered monitors and the registers that alias them
      (runtime/verifier/register_line.h, -inl.h, .cc), with the errors of each operation in order;
      soundness of the merge of lines, and of the checks of structured locking.
    - [CodeFlowState], [CodeFlowChecks], [CodeFlow]: the code-flow pass of
      runtime/verifier/method_verifier.cc: its state and [Fail], resolution of types, checks of
      arrays, fields and invocations, the switch on the opcode, the successors, [UpdateRegisters],
      the work list and the signature.  What it asks of the class linker and the dex file is the
      class [VerifierServices].
    - [CodeFlowMono]: in every step of the pass the cache grows, failures are only added and the
      static flags stay (the classes [LMono] and [Mono]).
    - [FrameTypes]: when a frame of the interpreter has the types of a line; stores and merges
      keep this.  [PlainExec]: what the interpreter does on plain instructions (moves, constants,
      arithmetic, comparisons, conversions, branches, switches, returns), against the interface
      [PlainServices].
    - [CodeFlowStep], [CodeFlowPlain], [CodeFlowInstruction]: the switch of the pass on a plain
      instruction describes the step of the interpreter.
    - [CodeFlowEdges], [CodeFlowInvariant], [CodeFlowRound], [CodeFlowSound], [CodeFlowEntry]:
      the merge into the table along an edge, the invariant of the work list (a map from positions
      to lines that every step respects, up to the positions still marked as changed), one
      instruction with its successors and handlers, the rounds, and the signature.
    - [CodeFlowTheorems]: a sample of classes and methods, and the confusion after [instance-of].
      [TypedExecution]: type soundness of both passes against the interpreter.
    - [LoopBounds]: [ComputeBoundInformation], [FillFloatingPointBound] and [GetNumIterations]
      of compiler/optimizing/extensions/infrastructure/loop_information.cc with ext_utility.cc,
      induction_variable.h and bound_information.h, against a reference semantics of loops.
    - [TrivialLoopEvaluator]: the visitor, the evaluation loop and the gate of
      compiler/optimizing/extensions/passes/trivial_loop_evaluator.cc.
    - [TrivialLoopTheorems]: the evaluator against the language's arithmetic and against the
      bound analysis.
    - [ParallelMove]: locations (compiler/optimizing/locations.h), move operands (nodes.h) and
      [ParallelMoveResolverWithSwap] of compiler/optimizing/parallel_move_resolver.cc; its result
      is the sequence of moves and swaps it asks the code generator for.
    - [ParallelMoveMachine]: what such a sequence does to a machine of 32-bit cells.
      [ParallelMoveGraph], [ParallelMoveSwap]: the invariant of [PerformMove] on the graph of the
      moves, and the recursion.  [ParallelMoveTheorems]: the resolver is the parallel assignment.
    - [ParallelMoveScratch]: [ParallelMoveResolverNoSwap] of the same file; the functions a code
      generator implements are the class [ScratchBackend], the unit tests' resolver an instance.
      [ParallelMoveScratchProofs]: the interface [BackendLaws] between resolver and code
      generator, the invariant and the recursion, proved against it.
      [ParallelMoveScratchTheorems]: the loops and the theorem; the tests' resolver keeps the
      laws.  [ParallelMoveArm64]: [ParallelMoveResolverARM64] of code_generator_arm64.cc, VIXL's
      pool of temporaries a parameter ([Vixl], [VixlLaws]), and its proof of [BackendLaws].
    - [IndirectReferenceTable]: runtime/indirect_reference_table.h, -inl.h and .cc.
      [LocalReferences]: the frames of JNI local references over such a table (jni_env_ext.cc,
      the frame functions of jni_internal.cc, [DecodeJObject], entry to and exit from native
      methods).  [IndirectReferenceProofs]: the count of holes and the operations of the table.
      [LocalReferenceTheorems]: the refinement of a stack of finite maps.

    ** What the theorems show

    - Verification to execution: on a method the static pass accepts, every iteration of the
      interpreter keeps the frame consistent and stays on instruction boundaries, for all 256
      opcodes; the pass itself terminates without an access out of range.
    - Type soundness: when both passes accept a method of plain instructions without a failure,
      every register holds a value of the type recorded for it in every state the interpreter
      reaches, and execution never reaches a table or the end of the code and never gets stuck.
    - Register lines: a merge that reports no error describes the frames and held monitors of both
      lines; moves and monitor instructions the line accepts exit the monitor entered last.
    - From the file to the handler: LEB128 round trips; the iterator yields the encoded
      handlers and, for a position, those of the covering try item; a code item the dex file
      verifier accepts keeps the method verifier inside its flags, and the search for a catch
      block discharges what the interpreter's safety assumes of exception dispatch.
    - Interpreter: packed and sparse switches select the right case on verified tables; int
      and long arithmetic is the language's, literal and two-address forms included; array
      accesses throw exactly when they must and change one element; single stepping is the full
      loop.
    - Monitors: from any schedule of the threads, the thin and fat locks refine one recursive
      Java monitor; at most one thread owns it; an identity hash, once read, stays; a thread
      that waits for a free lock can finish.
    - Register types: the cache's operations keep it well formed; a merge covers every value of
      both arguments; assignability is inclusion of values; the join of classes is the least
      class above both.
    - Decoding: operands determine the code units; argument lists are those of the instruction.
    - Compiler: accepted integral loops run exactly the reported number of times; the loop
      evaluator computes what the interpreter would, updates phis in parallel, and on accepted
      counted loops ends after the reported number of visits with the right value.
    - Parallel moves: the resolver with swaps ends, passes its checks and emits code that carries
      out all moves at once, for moves of one width each whose wide sources are not shared beside
      narrow destinations; a run shows that the last condition is needed.  The resolver with scratch
      locations does the same for operands that coincide or are disjoint, over every code
      generator that keeps the laws; on arm64 it never exhausts VIXL's temporaries; with pairs
      beside single registers a run loses a move.
    - Local references: for every client that respects JNI's rules, local frames, native methods,
      collections and trims included, the segmented table with holes behaves as a stack of
      finite maps; a stale reference is recognised until its entry has been used again
      [kIRTPrevCount] times.
    - Divergences found: reads past the end of the file and empty code items between the two
      verifiers, the size check of [fill-array-data], the overflow of the distance of
      [long] loops, loops that test the phi after the increment, the direction and rounding of
      floating-point bounds, the tolerance of floating-point comparisons in the evaluator, merges
      of lines that drop an alias without reporting a change, and the type the code-flow pass
      gives the result of [instance-of] are stated as theorems too.

    ** Bounds and fuel

    Machine integers are [Z] with the conversions of the code written out. The verifier's passes
    recurse with as much fuel as the method has code units, and every instruction is at least
    one unit long ([VerifyStatic_defined] shows this is enough). The binary search of a sparse
    switch has the table's size as fuel, the search of a try item their number, and the
    iteration over handlers the remaining count plus two. LEB128 loops take at most five turns.
    The superclass loops have two more than the number of classes as fuel, which bounds every
    chain of a well-formed hierarchy; the merge of register types recurses at most twice; the
    cache is assumed to hold no more than 2^16 entries, as its 16-bit identifiers require; array
    types have at most 255 dimensions; the work list has its fuel as argument, and the theorems
    hold for every fuel with which the pass ends.  [kIsDebugBuild] is false, as in a release
    build, but for the reference table, where it is a parameter.  The steps of monitors interleave with sequentially consistent memory.
    [run] and [EvaluateLoop] may run for ever; their fuel is an argument, running out is a
    separate result, and the theorems give the fuel that is enough or quantify over runs with
    the relation [steps].  [PerformMove] has n * (n + 3) steps for n moves, which bounds its
    recursion and the restarts of its loop; that of the resolver without swaps recurses at most n
    deep, and its loops run at most once more than there are pending moves or scratch locations.
    The debug checks of the two resolvers and of the reference table are part of their models,
    as failures.  A client of local references makes at most 512 calls, as many as the table has
    entries; the loops of the table are bounded by its top.

    ** What is not modelled

    The assembly interpreter, field access, invocation, allocation, class resolution and the
    collector (services with laws; the interpreter reaches monitors through the same services),
    the dex file outside code items, instrumentation, the JIT and on-stack replacement,
    transactions, the other compiler passes, register allocation but for its moves, code
    generation, and the tools.  Moves whose single location holds 64 bits are outside the theorem
    on swaps.  Of the code-flow
    pass, messages and statistics.  In the loop analyses the queries on the graph are records of
    answers.  Type soundness covers the plain instructions; on the others the pass is modelled
    and the interpreter's steps are safe, but the two are not related.

    ** Plan

    Further work: type soundness for arrays, objects and invocations (with the layout of the
    heap), the end of the work list in bounded time, field access and invocation in the
    interpreter, then the other loop passes of the extensions. *)

From Stdlib Require Export ZArith Lia Bool.
From stdpp Require Export base decidable numbers list option gmap.

Declare Scope art_scope.
Delimit Scope art_scope with art.
#[global] Open Scope Z_scope.

(** * Fixed-width integers *)

(** Conversion of a mathematical integer to [uint<w>_t]. *)
Definition wrapu (w z : Z) : Z := z mod 2 ^ w.

(** Conversion of a mathematical integer to [int<w>_t] (two's complement). *)
Definition wraps (w z : Z) : Z := (z + 2 ^ (w - 1)) mod 2 ^ w - 2 ^ (w - 1).

(** The values representable in [uint<w>_t] and in [int<w>_t]. *)
Definition in_u (w z : Z) : Prop := 0 <= z < 2 ^ w.
Definition in_s (w z : Z) : Prop := - 2 ^ (w - 1) <= z < 2 ^ (w - 1).

#[global] Instance in_u_dec w z : Decision (in_u w z).
Proof. unfold in_u. apply _. Defined.
#[global] Instance in_s_dec w z : Decision (in_s w z).
Proof. unfold in_s. apply _. Defined.

Abbreviation u4 := (wrapu 4).
Abbreviation u8 := (wrapu 8).
Abbreviation u16 := (wrapu 16).
Abbreviation u32 := (wrapu 32).
Abbreviation u64 := (wrapu 64).
Abbreviation s4 := (wraps 4).
Abbreviation s8 := (wraps 8).
Abbreviation s16 := (wraps 16).
Abbreviation s32 := (wraps 32).
Abbreviation s64 := (wraps 64).

Notation "x <<[ w ] k" := (wraps w (Z.shiftl x k))
  (at level 32, left associativity, format "x  <<[ w ]  k") : art_scope.
Notation "x >>u[ w ] k" := (Z.shiftr (wrapu w x) k)
  (at level 32, left associativity, format "x  >>u[ w ]  k") : art_scope.
#[global] Open Scope art_scope.

Definition INT32_MIN : Z := - 2 ^ 31.
Definition INT32_MAX : Z := 2 ^ 31 - 1.
Definition INT64_MIN : Z := - 2 ^ 63.
Definition INT64_MAX : Z := 2 ^ 63 - 1.

(** Case analysis on the boolean tests of the code. *)
Ltac case_bool :=
  repeat match goal with
  | |- context [ ?a =? ?b ] => destruct (Z.eqb_spec a b)
  | |- context [ ?a <? ?b ] => destruct (Z.ltb_spec a b)
  | |- context [ ?a <=? ?b ] => destruct (Z.leb_spec a b)
  | |- context [ ?a >? ?b ] => rewrite (Z.gtb_ltb a b)
  | |- context [ ?a >=? ?b ] => rewrite (Z.geb_leb a b)
  end.

Create HintDb art discriminated.

Section Pow.
Context (w : Z) (Hw : 0 < w).

Lemma pow2_split : 2 ^ w = 2 * 2 ^ (w - 1).
Proof. replace w with (1 + (w - 1)) at 1 by lia. rewrite Z.pow_add_r by lia. lia. Qed.

Lemma pow2_half_pos : 0 < 2 ^ (w - 1).
Proof. apply Z.pow_pos_nonneg; lia. Qed.

Lemma pow2_pos : 0 < 2 ^ w.
Proof. apply Z.pow_pos_nonneg; lia. Qed.

Lemma wrapu_range z : in_u w (wrapu w z).
Proof. apply Z.mod_pos_bound, pow2_pos. Qed.

Lemma wraps_range z : in_s w (wraps w z).
Proof.
  unfold in_s, wraps. pose proof pow2_half_pos. pose proof pow2_split.
  pose proof (Z.mod_pos_bound (z + 2 ^ (w - 1)) (2 ^ w) pow2_pos). lia.
Qed.

Lemma wrapu_small z : in_u w z -> wrapu w z = z.
Proof. apply Z.mod_small. Qed.

Lemma wraps_small z : in_s w z -> wraps w z = z.
Proof.
  unfold in_s, wraps. pose proof pow2_half_pos. pose proof pow2_split.
  intros ?. rewrite Z.mod_small by lia. lia.
Qed.

(** [wraps w z] and [wrapu w z] are the representatives of [z] modulo [2^w]. *)
Lemma wraps_mod z : wraps w z mod 2 ^ w = z mod 2 ^ w.
Proof.
  unfold wraps. rewrite Zminus_mod_idemp_l. f_equal. lia.
Qed.

Lemma wrapu_mod z : wrapu w z mod 2 ^ w = z mod 2 ^ w.
Proof. apply Z.mod_mod. pose proof pow2_pos. lia. Qed.

Lemma wraps_eq_iff a b : wraps w a = wraps w b <-> a mod 2 ^ w = b mod 2 ^ w.
Proof.
  split; intros H.
  - rewrite <- (wraps_mod a), <- (wraps_mod b). by rewrite H.
  - unfold wraps. by rewrite <- (Zplus_mod_idemp_l a), H, Zplus_mod_idemp_l.
Qed.

Lemma wraps_cong a b : a mod 2 ^ w = b mod 2 ^ w -> wraps w a = wraps w b.
Proof. apply wraps_eq_iff. Qed.

Lemma wraps_wrapu z : wraps w (wrapu w z) = wraps w z.
Proof. apply wraps_cong, wrapu_mod. Qed.

Lemma wrapu_wraps z : wrapu w (wraps w z) = wrapu w z.
Proof. apply wraps_mod. Qed.

Lemma wraps_wraps z : wraps w (wraps w z) = wraps w z.
Proof. apply wraps_cong, wraps_mod. Qed.

Lemma wraps_add_l a b : wraps w (wraps w a + b) = wraps w (a + b).
Proof. apply wraps_cong. by rewrite <- Zplus_mod_idemp_l, wraps_mod, Zplus_mod_idemp_l. Qed.
Lemma wraps_add_r a b : wraps w (a + wraps w b) = wraps w (a + b).
Proof. by rewrite (Z.add_comm a), wraps_add_l, Z.add_comm. Qed.
Lemma wraps_sub_l a b : wraps w (wraps w a - b) = wraps w (a - b).
Proof. apply wraps_cong. by rewrite <- Zminus_mod_idemp_l, wraps_mod, Zminus_mod_idemp_l. Qed.
Lemma wraps_sub_r a b : wraps w (a - wraps w b) = wraps w (a - b).
Proof. apply wraps_cong. by rewrite <- Zminus_mod_idemp_r, wraps_mod, Zminus_mod_idemp_r. Qed.
Lemma wraps_mul_l a b : wraps w (wraps w a * b) = wraps w (a * b).
Proof. apply wraps_cong. by rewrite <- Zmult_mod_idemp_l, wraps_mod, Zmult_mod_idemp_l. Qed.
Lemma wraps_mul_r a b : wraps w (a * wraps w b) = wraps w (a * b).
Proof. by rewrite (Z.mul_comm a), wraps_mul_l, Z.mul_comm. Qed.

(** The unsigned view of a signed value. *)
Lemma wrapu_signed z : in_s w z -> wrapu w z = if z <? 0 then z + 2 ^ w else z.
Proof.
  unfold in_s, wrapu. pose proof pow2_half_pos. pose proof pow2_split. intros ?.
  destruct (Z.ltb_spec z 0).
  - rewrite <- (Z.mod_add z 1) by lia. rewrite Z.mod_small; lia.
  - apply Z.mod_small. lia.
Qed.

(** The signed view of an unsigned value. *)
Lemma wraps_unsigned z :
  in_u w z -> wraps w z = if z <? 2 ^ (w - 1) then z else z - 2 ^ w.
Proof.
  unfold in_u. pose proof pow2_half_pos. pose proof pow2_split. intros ?.
  destruct (Z.ltb_spec z (2 ^ (w - 1))).
  - apply wraps_small. unfold in_s. lia.
  - transitivity (wraps w (z - 2 ^ w)).
    + apply wraps_cong. replace (z - 2 ^ w) with (z + (-1) * 2 ^ w) by lia.
      by rewrite Z.mod_add by lia.
    + apply wraps_small. unfold in_s. lia.
Qed.

Lemma wraps_inj_u a b : in_u w a -> in_u w b -> wraps w a = wraps w b -> a = b.
Proof.
  intros Ha Hb H%wraps_eq_iff. rewrite !Z.mod_small in H; auto.
Qed.

Lemma wrapu_inj_s a b : in_s w a -> in_s w b -> wrapu w a = wrapu w b -> a = b.
Proof.
  intros Ha Hb H. rewrite <- (wraps_small a Ha), <- (wraps_small b Hb).
  by apply wraps_cong.
Qed.
End Pow.

(** ** Bit operations as arithmetic *)

Lemma land_0xf z : Z.land z 0x0f = z mod 16.
Proof. exact (Z.land_ones z 4 ltac:(lia)). Qed.
Lemma land_0x1f z : Z.land z 0x1f = z mod 32.
Proof. exact (Z.land_ones z 5 ltac:(lia)). Qed.
Lemma land_0x3f z : Z.land z 0x3f = z mod 64.
Proof. exact (Z.land_ones z 6 ltac:(lia)). Qed.
Lemma land_0x7f z : Z.land z 0x7f = z mod 128.
Proof. exact (Z.land_ones z 7 ltac:(lia)). Qed.
Lemma land_0xff z : Z.land z 0xff = z mod 256.
Proof. exact (Z.land_ones z 8 ltac:(lia)). Qed.

(** [a | (b << n)] is an addition when [a] has no bits at or above [n]. *)
Lemma lor_shiftl_add a b n :
  0 <= n -> 0 <= a < 2 ^ n -> Z.lor a (Z.shiftl b n) = a + b * 2 ^ n.
Proof.
  intros Hn Ha. rewrite <- Z.shiftl_mul_pow2 by lia.
  assert (Z.land a (Z.shiftl b n) = 0) as Hdis.
  { apply Z.bits_inj'. intros i Hi. rewrite Z.land_spec, Z.bits_0, Z.shiftl_spec by lia.
    destruct (Z.lt_ge_cases i n).
    - by rewrite (Z.testbit_neg_r b), andb_false_r by lia.
    - rewrite <- (Z.mod_small a (2 ^ n)) by lia. by rewrite Z.mod_pow2_bits_high by lia. }
  rewrite <- Z.lxor_lor by done. by rewrite <- Z.add_nocarry_lxor.
Qed.

Ltac bits_to_arith :=
  rewrite ?land_0xf, ?land_0x1f, ?land_0x3f, ?land_0x7f, ?land_0xff;
  rewrite ?Z.shiftr_div_pow2, ?Z.shiftl_mul_pow2 by lia.

Ltac unfold_width := unfold in_u, in_s, wrapu, wraps in *.

(** Arithmetic with division and modulo by constants. *)
Ltac dlia := Z.to_euclidean_division_equations; lia.

(** ** Closure of the signed range under the bit operations *)
Lemma in_s_shiftr w z : 0 < w -> in_s w z <-> Z.shiftr z (w - 1) = 0 \/ Z.shiftr z (w - 1) = -1.
Proof.
  intros Hw. unfold in_s. rewrite Z.shiftr_div_pow2 by lia.
  pose proof (pow2_half_pos w Hw).
  pose proof (Z.div_mod z (2 ^ (w - 1)) ltac:(lia)).
  pose proof (Z.mod_pos_bound z (2 ^ (w - 1)) ltac:(lia)). split.
  - intros ?. assert (-1 <= z / 2 ^ (w - 1) < 1); [|lia].
    split; [apply Z.div_le_lower_bound; lia|apply Z.div_lt_upper_bound; lia].
  - intros [E|E]; rewrite E in *; lia.
Qed.

Section SignedBits.
Context (w : Z) (Hw : 0 < w).

Lemma in_s_land a b : in_s w a -> in_s w b -> in_s w (Z.land a b).
Proof.
  rewrite !in_s_shiftr by done. rewrite Z.shiftr_land.
  intros [->| ->] [->| ->]; by vm_compute; auto.
Qed.
Lemma in_s_lor a b : in_s w a -> in_s w b -> in_s w (Z.lor a b).
Proof.
  rewrite !in_s_shiftr by done. rewrite Z.shiftr_lor.
  intros [->| ->] [->| ->]; by vm_compute; auto.
Qed.
Lemma in_s_lxor a b : in_s w a -> in_s w b -> in_s w (Z.lxor a b).
Proof.
  rewrite !in_s_shiftr by done. rewrite Z.shiftr_lxor.
  intros [->| ->] [->| ->]; by vm_compute; auto.
Qed.
Lemma in_s_lnot a : in_s w a -> in_s w (Z.lnot a).
Proof. unfold in_s, Z.lnot. lia. Qed.
Lemma in_s_shr a k : 0 <= k -> in_s w a -> in_s w (Z.shiftr a k).
Proof.
  intros Hk Ha. unfold in_s in *. rewrite Z.shiftr_div_pow2 by lia.
  pose proof (pow2_half_pos w Hw). pose proof (Z.pow_pos_nonneg 2 k ltac:(lia) Hk).
  split; [apply Z.div_le_lower_bound; nia|apply Z.div_lt_upper_bound; nia].
Qed.
End SignedBits.

#[export] Hint Resolve in_s_land in_s_lor in_s_lxor in_s_lnot in_s_shr
  wraps_range wrapu_range : art.
#[export] Hint Extern 1 (0 < _) => lia : art.

(** * Computations with state that may fail

    [None] is an access out of range or a failed [CHECK].  [runs] is total correctness: the
    computation has a result, which satisfies the postcondition. *)
Definition SM (S A : Type) : Type := S -> option (A * S).

Section StateMonad.
Context {S : Type}.
Definition sret {A} (a : A) : SM S A := fun s => Some (a, s).
Definition sbind {A B} (m : SM S A) (k : A -> SM S B) : SM S B :=
  fun s => match m s with Some (a, s') => k a s' | None => None end.
Definition sfail {A} : SM S A := fun _ => None.
Definition sget {A} (f : S -> A) : SM S A := fun s => Some (f s, s).
Definition smod (f : S -> S) : SM S unit := fun s => Some (tt, f s).

Definition runs {A} (m : SM S A) (s : S) (Q : A -> S -> Prop) : Prop :=
  match m s with Some (a, s') => Q a s' | None => False end.

Lemma runs_ret {A} (a : A) s (Q : A -> S -> Prop) : Q a s -> runs (sret a) s Q.
Proof. done. Qed.
Lemma runs_bind {A B} (m : SM S A) (k : A -> SM S B) s Q :
  runs m s (fun a s' => runs (k a) s' Q) -> runs (sbind m k) s Q.
Proof. unfold runs, sbind. by destruct (m s) as [[a s']|]. Qed.
Lemma runs_mono {A} (m : SM S A) s (P Q : A -> S -> Prop) :
  runs m s P -> (forall a s', P a s' -> Q a s') -> runs m s Q.
Proof. unfold runs. destruct (m s) as [[a s']|]; auto. Qed.
Lemma runs_get {A} (f : S -> A) s (Q : A -> S -> Prop) : Q (f s) s -> runs (sget f) s Q.
Proof. done. Qed.
Lemma runs_mod (f : S -> S) s (Q : unit -> S -> Prop) : Q tt (f s) -> runs (smod f) s Q.
Proof. done. Qed.
Lemma runs_inv {A} (m : SM S A) s Q : runs m s Q -> exists a s', m s = Some (a, s') /\ Q a s'.
Proof. unfold runs. destruct (m s) as [[a s']|]; [eauto|done]. Qed.
Lemma runs_intro {A} (m : SM S A) s a s' (Q : A -> S -> Prop) : m s = Some (a, s') -> Q a s' -> runs m s Q.
Proof. unfold runs. by intros ->. Qed.
End StateMonad.

Declare Scope sm_scope.
Delimit Scope sm_scope with sm.
Notation "'do' x <- m ; k" := (sbind m (fun x => k))
  (at level 10, x name, m at level 100, k at level 200) : sm_scope.
Notation "m ;; k" := (sbind m (fun _ => k)) (at level 100, right associativity) : sm_scope.

(** * Arrays of words

    A C array read and written by index.  The code never checks an index: the theorems
    that rely on an access carry the bound as a hypothesis. *)
Definition rd (l : list Z) (i : Z) : Z := nth (Z.to_nat i) l 0.
Definition wr (l : list Z) (i v : Z) : list Z := <[Z.to_nat i := v]> l.

Arguments rd : simpl never.
Arguments wr : simpl never.

Lemma length_wr l i v : length (wr l i v) = length l.
Proof. apply length_insert. Qed.

Lemma rd_lookup l i : rd l i = default 0 (l !! Z.to_nat i).
Proof. unfold rd. by rewrite <- nth_lookup. Qed.

Lemma rd_wr l i j v :
  0 <= i < Z.of_nat (length l) -> 0 <= j ->
  rd (wr l i v) j = if i =? j then v else rd l j.
Proof.
  intros Hi Hj. rewrite !rd_lookup. unfold wr. destruct (Z.eqb_spec i j) as [->|Hne].
  - by rewrite list_lookup_insert_eq by lia.
  - by rewrite list_lookup_insert_ne by lia.
Qed.

Lemma rd_wr_eq l i v : 0 <= i < Z.of_nat (length l) -> rd (wr l i v) i = v.
Proof. intros. rewrite rd_wr by lia. by rewrite Z.eqb_refl. Qed.

Lemma rd_wr_ne l i j v :
  0 <= i < Z.of_nat (length l) -> 0 <= j -> i <> j -> rd (wr l i v) j = rd l j.
Proof. intros. rewrite rd_wr by lia. by rewrite (proj2 (Z.eqb_neq i j)). Qed.

(** All words of the array are [uint<w>_t]. *)
Definition words_ok (w : Z) (l : list Z) : Prop := Forall (in_u w) l.

Lemma words_ok_wr w l i v : words_ok w l -> in_u w v -> words_ok w (wr l i v).
Proof. intros. by apply Forall_insert. Qed.

Lemma words_ok_rd w l i : 0 <= w -> words_ok w l -> in_u w (rd l i).
Proof.
  intros Hw H. rewrite rd_lookup. destruct (l !! Z.to_nat i) as [v|] eqn:E; cbn.
  - by apply (Forall_lookup_1 _ _ _ _ H E).
  - unfold in_u. pose proof (Z.pow_pos_nonneg 2 w). lia.
Qed.

(** * Little-endian memory *)

(** The value of [n] bytes at offset [off], and the store of one. *)
Fixpoint le_read (l : list Z) (off : Z) (n : nat) : Z :=
  match n with
  | O => 0
  | S n => rd l off + 256 * le_read l (off + 1) n
  end.

Fixpoint le_write (l : list Z) (off : Z) (n : nat) (v : Z) : list Z :=
  match n with
  | O => l
  | S n => le_write (wr l off (u8 v)) (off + 1) n (Z.shiftr v 8)
  end.

Lemma length_le_write n : forall l off v, length (le_write l off n v) = length l.
Proof. induction n as [|n IH]; intros; cbn; [done|]. by rewrite IH, length_wr. Qed.

Lemma rd_le_write_before n : forall l off v j,
  0 <= j < off -> off + Z.of_nat n <= Z.of_nat (length l) ->
  rd (le_write l off n v) j = rd l j.
Proof.
  induction n as [|n IH]; intros l off v j Hj Hl; cbn [le_write]; [done|].
  rewrite IH by (rewrite ?length_wr; lia). by rewrite rd_wr_ne by lia.
Qed.

Lemma rd_le_write_after n : forall l off v j,
  0 <= off -> off + Z.of_nat n <= j -> off + Z.of_nat n <= Z.of_nat (length l) ->
  rd (le_write l off n v) j = rd l j.
Proof.
  induction n as [|n IH]; intros l off v j Ho Hj Hl; cbn [le_write]; [done|].
  rewrite IH by (rewrite ?length_wr; lia). by rewrite rd_wr_ne by lia.
Qed.

Lemma le_read_write n : forall l off v,
  0 <= off -> off + Z.of_nat n <= Z.of_nat (length l) ->
  le_read (le_write l off n v) off n = v mod 256 ^ Z.of_nat n.
Proof.
  induction n as [|n IH]; intros l off v Ho Hl.
  - cbn. by rewrite Z.mod_1_r.
  - cbn [le_read le_write]. rewrite IH by (rewrite ?length_wr; lia).
    rewrite rd_le_write_before, rd_wr_eq by (rewrite ?length_wr; lia).
    rewrite Nat2Z.inj_succ, Z.pow_succ_r by lia.
    bits_to_arith. change (2 ^ 8) with 256. unfold wrapu.
    rewrite (Z.rem_mul_r v) by (try apply Z.pow_nonzero; lia). done.
Qed.
