(* ===== verification/DexOpcodes.v ===== *)
(** * The Dex opcode table

    The X-macro table [DEX_INSTRUCTION_LIST] of runtime/dex_instruction_list.h and what
    runtime/dex_instruction.h and runtime/dex_instruction.cc derive from it: the enumeration
    [Code], the tables [kInstructionFormats], [kInstructionIndexTypes], [kInstructionFlags],
    [kInstructionVerifyFlags] and [kInstructionSizeInCodeUnits], and the predicates that
    read them. *)

From S2P Require Import Prelude.

(** The enumeration [Instruction::Code]. *)
Inductive Code : Set :=
| NOP | MOVE | MOVE_FROM16 | MOVE_16 | MOVE_WIDE | MOVE_WIDE_FROM16 | MOVE_WIDE_16
| MOVE_OBJECT | MOVE_OBJECT_FROM16 | MOVE_OBJECT_16 | MOVE_RESULT | MOVE_RESULT_WIDE
| MOVE_RESULT_OBJECT | MOVE_EXCEPTION | RETURN_VOID | RETURN | RETURN_WIDE
| RETURN_OBJECT | CONST_4 | CONST_16 | CONST | CONST_HIGH16 | CONST_WIDE_16
| CONST_WIDE_32 | CONST_WIDE | CONST_WIDE_HIGH16 | CONST_STRING | CONST_STRING_JUMBO
| CONST_CLASS | MONITOR_ENTER | MONITOR_EXIT | CHECK_CAST | INSTANCE_OF | ARRAY_LENGTH
| NEW_INSTANCE | NEW_ARRAY | FILLED_NEW_ARRAY | FILLED_NEW_ARRAY_RANGE | FILL_ARRAY_DATA
| THROW | GOTO | GOTO_16 | GOTO_32 | PACKED_SWITCH | SPARSE_SWITCH | CMPL_FLOAT
| CMPG_FLOAT | CMPL_DOUBLE | CMPG_DOUBLE | CMP_LONG | IF_EQ | IF_NE | IF_LT | IF_GE
| IF_GT | IF_LE | IF_EQZ | IF_NEZ | IF_LTZ | IF_GEZ | IF_GTZ | IF_LEZ | UNUSED_3E
| UNUSED_3F | UNUSED_40 | UNUSED_41 | UNUSED_42 | UNUSED_43 | AGET | AGET_WIDE
| AGET_OBJECT | AGET_BOOLEAN | AGET_BYTE | AGET_CHAR | AGET_SHORT | APUT | APUT_WIDE
| APUT_OBJECT | APUT_BOOLEAN | APUT_BYTE | APUT_CHAR | APUT_SHORT | IGET | IGET_WIDE
| IGET_OBJECT | IGET_BOOLEAN | IGET_BYTE | IGET_CHAR | IGET_SHORT | IPUT | IPUT_WIDE
| IPUT_OBJECT | IPUT_BOOLEAN | IPUT_BYTE | IPUT_CHAR | IPUT_SHORT | SGET | SGET_WIDE
| SGET_OBJECT | SGET_BOOLEAN | SGET_BYTE | SGET_CHAR | SGET_SHORT | SPUT | SPUT_WIDE
| SPUT_OBJECT | SPUT_BOOLEAN | SPUT_BYTE | SPUT_CHAR | SPUT_SHORT | INVOKE_VIRTUAL
| INVOKE_SUPER | INVOKE_DIRECT | INVOKE_STATIC | INVOKE_INTERFACE
| RETURN_VOID_NO_BARRIER | INVOKE_VIRTUAL_RANGE | INVOKE_SUPER_RANGE
| INVOKE_DIRECT_RANGE | INVOKE_STATIC_RANGE | INVOKE_INTERFACE_RANGE | UNUSED_79
| UNUSED_7A | NEG_INT | NOT_INT | NEG_LONG | NOT_LONG | NEG_FLOAT | NEG_DOUBLE
| INT_TO_LONG | INT_TO_FLOAT | INT_TO_DOUBLE | LONG_TO_INT | LONG_TO_FLOAT
| LONG_TO_DOUBLE | FLOAT_TO_INT | FLOAT_TO_LONG | FLOAT_TO_DOUBLE | DOUBLE_TO_INT
| DOUBLE_TO_LONG | DOUBLE_TO_FLOAT | INT_TO_BYTE | INT_TO_CHAR | INT_TO_SHORT | ADD_INT
| SUB_INT | MUL_INT | DIV_INT | REM_INT | AND_INT | OR_INT | XOR_INT | SHL_INT | SHR_INT
| USHR_INT | ADD_LONG | SUB_LONG | MUL_LONG | DIV_LONG | REM_LONG | AND_LONG | OR_LONG
| XOR_LONG | SHL_LONG | SHR_LONG | USHR_LONG | ADD_FLOAT | SUB_FLOAT | MUL_FLOAT
| DIV_FLOAT | REM_FLOAT | ADD_DOUBLE | SUB_DOUBLE | MUL_DOUBLE | DIV_DOUBLE | REM_DOUBLE
| ADD_INT_2ADDR | SUB_INT_2ADDR | MUL_INT_2ADDR | DIV_INT_2ADDR | REM_INT_2ADDR
| AND_INT_2ADDR | OR_INT_2ADDR | XOR_INT_2ADDR | SHL_INT_2ADDR | SHR_INT_2ADDR
| USHR_INT_2ADDR | ADD_LONG_2ADDR | SUB_LONG_2ADDR | MUL_LONG_2ADDR | DIV_LONG_2ADDR
| REM_LONG_2ADDR | AND_LONG_2ADDR | OR_LONG_2ADDR | XOR_LONG_2ADDR | SHL_LONG_2ADDR
| SHR_LONG_2ADDR | USHR_LONG_2ADDR | ADD_FLOAT_2ADDR | SUB_FLOAT_2ADDR | MUL_FLOAT_2ADDR
| DIV_FLOAT_2ADDR | REM_FLOAT_2ADDR | ADD_DOUBLE_2ADDR | SUB_DOUBLE_2ADDR
| MUL_DOUBLE_2ADDR | DIV_DOUBLE_2ADDR | REM_DOUBLE_2ADDR | ADD_INT_LIT16 | RSUB_INT
| MUL_INT_LIT16 | DIV_INT_LIT16 | REM_INT_LIT16 | AND_INT_LIT16 | OR_INT_LIT16
| XOR_INT_LIT16 | ADD_INT_LIT8 | RSUB_INT_LIT8 | MUL_INT_LIT8 | DIV_INT_LIT8
| REM_INT_LIT8 | AND_INT_LIT8 | OR_INT_LIT8 | XOR_INT_LIT8 | SHL_INT_LIT8 | SHR_INT_LIT8
| USHR_INT_LIT8 | IGET_QUICK | IGET_WIDE_QUICK | IGET_OBJECT_QUICK | IPUT_QUICK
| IPUT_WIDE_QUICK | IPUT_OBJECT_QUICK | INVOKE_VIRTUAL_QUICK | INVOKE_VIRTUAL_RANGE_QUICK
| IPUT_BOOLEAN_QUICK | IPUT_BYTE_QUICK | IPUT_CHAR_QUICK | IPUT_SHORT_QUICK
| IGET_BOOLEAN_QUICK | IGET_BYTE_QUICK | IGET_CHAR_QUICK | IGET_SHORT_QUICK
| INVOKE_LAMBDA | UNUSED_F4 | CAPTURE_VARIABLE | CREATE_LAMBDA | LIBERATE_VARIABLE
| BOX_LAMBDA | UNBOX_LAMBDA | UNUSED_FA | UNUSED_FB | UNUSED_FC | UNUSED_FD | UNUSED_FE
| UNUSED_FF.

(** The value of an enumerator ([cname = opcode] in the enumeration). *)
Definition Code_value (c : Code) : Z :=
  match c with
  | NOP => 0x00 | MOVE => 0x01 | MOVE_FROM16 => 0x02 | MOVE_16 => 0x03 | MOVE_WIDE => 0x04
  | MOVE_WIDE_FROM16 => 0x05 | MOVE_WIDE_16 => 0x06 | MOVE_OBJECT => 0x07
  | MOVE_OBJECT_FROM16 => 0x08 | MOVE_OBJECT_16 => 0x09 | MOVE_RESULT => 0x0A
  | MOVE_RESULT_WIDE => 0x0B | MOVE_RESULT_OBJECT => 0x0C | MOVE_EXCEPTION => 0x0D
  | RETURN_VOID => 0x0E | RETURN => 0x0F | RETURN_WIDE => 0x10 | RETURN_OBJECT => 0x11
  | CONST_4 => 0x12 | CONST_16 => 0x13 | CONST => 0x14 | CONST_HIGH16 => 0x15
  | CONST_WIDE_16 => 0x16 | CONST_WIDE_32 => 0x17 | CONST_WIDE => 0x18
  | CONST_WIDE_HIGH16 => 0x19 | CONST_STRING => 0x1A | CONST_STRING_JUMBO => 0x1B
  | CONST_CLASS => 0x1C | MONITOR_ENTER => 0x1D | MONITOR_EXIT => 0x1E | CHECK_CAST => 0x1F
  | INSTANCE_OF => 0x20 | ARRAY_LENGTH => 0x21 | NEW_INSTANCE => 0x22 | NEW_ARRAY => 0x23
  | FILLED_NEW_ARRAY => 0x24 | FILLED_NEW_ARRAY_RANGE => 0x25 | FILL_ARRAY_DATA => 0x26
  | THROW => 0x27 | GOTO => 0x28 | GOTO_16 => 0x29 | GOTO_32 => 0x2A
  | PACKED_SWITCH => 0x2B | SPARSE_SWITCH => 0x2C | CMPL_FLOAT => 0x2D | CMPG_FLOAT => 0x2E
  | CMPL_DOUBLE => 0x2F | CMPG_DOUBLE => 0x30 | CMP_LONG => 0x31 | IF_EQ => 0x32
  | IF_NE => 0x33 | IF_LT => 0x34 | IF_GE => 0x35 | IF_GT => 0x36 | IF_LE => 0x37
  | IF_EQZ => 0x38 | IF_NEZ => 0x39 | IF_LTZ => 0x3A | IF_GEZ => 0x3B | IF_GTZ => 0x3C
  | IF_LEZ => 0x3D | UNUSED_3E => 0x3E | UNUSED_3F => 0x3F | UNUSED_40 => 0x40
  | UNUSED_41 => 0x41 | UNUSED_42 => 0x42 | UNUSED_43 => 0x43 | AGET => 0x44
  | AGET_WIDE => 0x45 | AGET_OBJECT => 0x46 | AGET_BOOLEAN => 0x47 | AGET_BYTE => 0x48
  | AGET_CHAR => 0x49 | AGET_SHORT => 0x4A | APUT => 0x4B | APUT_WIDE => 0x4C
  | APUT_OBJECT => 0x4D | APUT_BOOLEAN => 0x4E | APUT_BYTE => 0x4F | APUT_CHAR => 0x50
  | APUT_SHORT => 0x51 | IGET => 0x52 | IGET_WIDE => 0x53 | IGET_OBJECT => 0x54
  | IGET_BOOLEAN => 0x55 | IGET_BYTE => 0x56 | IGET_CHAR => 0x57 | IGET_SHORT => 0x58
  | IPUT => 0x59 | IPUT_WIDE => 0x5A | IPUT_OBJECT => 0x5B | IPUT_BOOLEAN => 0x5C
  | IPUT_BYTE => 0x5D | IPUT_CHAR => 0x5E | IPUT_SHORT => 0x5F | SGET => 0x60
  | SGET_WIDE => 0x61 | SGET_OBJECT => 0x62 | SGET_BOOLEAN => 0x63 | SGET_BYTE => 0x64
  | SGET_CHAR => 0x65 | SGET_SHORT => 0x66 | SPUT => 0x67 | SPUT_WIDE => 0x68
  | SPUT_OBJECT => 0x69 | SPUT_BOOLEAN => 0x6A | SPUT_BYTE => 0x6B | SPUT_CHAR => 0x6C
  | SPUT_SHORT => 0x6D | INVOKE_VIRTUAL => 0x6E | INVOKE_SUPER => 0x6F
  | INVOKE_DIRECT => 0x70 | INVOKE_STATIC => 0x71 | INVOKE_INTERFACE => 0x72
  | RETURN_VOID_NO_BARRIER => 0x73 | INVOKE_VIRTUAL_RANGE => 0x74
  | INVOKE_SUPER_RANGE => 0x75 | INVOKE_DIRECT_RANGE => 0x76 | INVOKE_STATIC_RANGE => 0x77
  | INVOKE_INTERFACE_RANGE => 0x78 | UNUSED_79 => 0x79 | UNUSED_7A => 0x7A
  | NEG_INT => 0x7B | NOT_INT => 0x7C | NEG_LONG => 0x7D | NOT_LONG => 0x7E
  | NEG_FLOAT => 0x7F | NEG_DOUBLE => 0x80 | INT_TO_LONG => 0x81 | INT_TO_FLOAT => 0x82
  | INT_TO_DOUBLE => 0x83 | LONG_TO_INT => 0x84 | LONG_TO_FLOAT => 0x85
  | LONG_TO_DOUBLE => 0x86 | FLOAT_TO_INT => 0x87 | FLOAT_TO_LONG => 0x88
  | FLOAT_TO_DOUBLE => 0x89 | DOUBLE_TO_INT => 0x8A | DOUBLE_TO_LONG => 0x8B
  | DOUBLE_TO_FLOAT => 0x8C | INT_TO_BYTE => 0x8D | INT_TO_CHAR => 0x8E
  | INT_TO_SHORT => 0x8F | ADD_INT => 0x90 | SUB_INT => 0x91 | MUL_INT => 0x92
  | DIV_INT => 0x93 | REM_INT => 0x94 | AND_INT => 0x95 | OR_INT => 0x96 | XOR_INT => 0x97
  | SHL_INT => 0x98 | SHR_INT => 0x99 | USHR_INT => 0x9A | ADD_LONG => 0x9B
  | SUB_LONG => 0x9C | MUL_LONG => 0x9D | DIV_LONG => 0x9E | REM_LONG => 0x9F
  | AND_LONG => 0xA0 | OR_LONG => 0xA1 | XOR_LONG => 0xA2 | SHL_LONG => 0xA3
  | SHR_LONG => 0xA4 | USHR_LONG => 0xA5 | ADD_FLOAT => 0xA6 | SUB_FLOAT => 0xA7
  | MUL_FLOAT => 0xA8 | DIV_FLOAT => 0xA9 | REM_FLOAT => 0xAA | ADD_DOUBLE => 0xAB
  | SUB_DOUBLE => 0xAC | MUL_DOUBLE => 0xAD | DIV_DOUBLE => 0xAE | REM_DOUBLE => 0xAF
  | ADD_INT_2ADDR => 0xB0 | SUB_INT_2ADDR => 0xB1 | MUL_INT_2ADDR => 0xB2
  | DIV_INT_2ADDR => 0xB3 | REM_INT_2ADDR => 0xB4 | AND_INT_2ADDR => 0xB5
  | OR_INT_2ADDR => 0xB6 | XOR_INT_2ADDR => 0xB7 | SHL_INT_2ADDR => 0xB8
  | SHR_INT_2ADDR => 0xB9 | USHR_INT_2ADDR => 0xBA | ADD_LONG_2ADDR => 0xBB
  | SUB_LONG_2ADDR => 0xBC | MUL_LONG_2ADDR => 0xBD | DIV_LONG_2ADDR => 0xBE
  | REM_LONG_2ADDR => 0xBF | AND_LONG_2ADDR => 0xC0 | OR_LONG_2ADDR => 0xC1
  | XOR_LONG_2ADDR => 0xC2 | SHL_LONG_2ADDR => 0xC3 | SHR_LONG_2ADDR => 0xC4
  | USHR_LONG_2ADDR => 0xC5 | ADD_FLOAT_2ADDR => 0xC6 | SUB_FLOAT_2ADDR => 0xC7
  | MUL_FLOAT_2ADDR => 0xC8 | DIV_FLOAT_2ADDR => 0xC9 | REM_FLOAT_2ADDR => 0xCA
  | ADD_DOUBLE_2ADDR => 0xCB | SUB_DOUBLE_2ADDR => 0xCC | MUL_DOUBLE_2ADDR => 0xCD
  | DIV_DOUBLE_2ADDR => 0xCE | REM_DOUBLE_2ADDR => 0xCF | ADD_INT_LIT16 => 0xD0
  | RSUB_INT => 0xD1 | MUL_INT_LIT16 => 0xD2 | DIV_INT_LIT16 => 0xD3
  | REM_INT_LIT16 => 0xD4 | AND_INT_LIT16 => 0xD5 | OR_INT_LIT16 => 0xD6
  | XOR_INT_LIT16 => 0xD7 | ADD_INT_LIT8 => 0xD8 | RSUB_INT_LIT8 => 0xD9
  | MUL_INT_LIT8 => 0xDA | DIV_INT_LIT8 => 0xDB | REM_INT_LIT8 => 0xDC
  | AND_INT_LIT8 => 0xDD | OR_INT_LIT8 => 0xDE | XOR_INT_LIT8 => 0xDF
  | SHL_INT_LIT8 => 0xE0 | SHR_INT_LIT8 => 0xE1 | USHR_INT_LIT8 => 0xE2
  | IGET_QUICK => 0xE3 | IGET_WIDE_QUICK => 0xE4 | IGET_OBJECT_QUICK => 0xE5
  | IPUT_QUICK => 0xE6 | IPUT_WIDE_QUICK => 0xE7 | IPUT_OBJECT_QUICK => 0xE8
  | INVOKE_VIRTUAL_QUICK => 0xE9 | INVOKE_VIRTUAL_RANGE_QUICK => 0xEA
  | IPUT_BOOLEAN_QUICK => 0xEB | IPUT_BYTE_QUICK => 0xEC | IPUT_CHAR_QUICK => 0xED
  | IPUT_SHORT_QUICK => 0xEE | IGET_BOOLEAN_QUICK => 0xEF | IGET_BYTE_QUICK => 0xF0
  | IGET_CHAR_QUICK => 0xF1 | IGET_SHORT_QUICK => 0xF2 | INVOKE_LAMBDA => 0xF3
  | UNUSED_F4 => 0xF4 | CAPTURE_VARIABLE => 0xF5 | CREATE_LAMBDA => 0xF6
  | LIBERATE_VARIABLE => 0xF7 | BOX_LAMBDA => 0xF8 | UNBOX_LAMBDA => 0xF9
  | UNUSED_FA => 0xFA | UNUSED_FB => 0xFB | UNUSED_FC => 0xFC | UNUSED_FD => 0xFD
  | UNUSED_FE => 0xFE | UNUSED_FF => 0xFF
  end.

(** The enumeration [Instruction::Format], in the order of its enumerators. *)
Inductive Format : Set :=
| k10x | k12x | k11n | k11x | k10t | k20t | k22x | k21t | k21s | k21h | k21c | k23x | k22b
| k22t | k22s | k22c | k25x | k32x | k30t | k31t | k31i | k31c | k35c | k3rc | k51l.

#[global] Instance Format_eq_dec : EqDecision Format.
Proof. solve_decision. Defined.

Definition Format_value (f : Format) : Z :=
  match f with
  | k10x => 0 | k12x => 1 | k11n => 2 | k11x => 3 | k10t => 4 | k20t => 5 | k22x => 6
  | k21t => 7 | k21s => 8 | k21h => 9 | k21c => 10 | k23x => 11 | k22b => 12 | k22t => 13
  | k22s => 14 | k22c => 15 | k25x => 16 | k32x => 17 | k30t => 18 | k31t => 19 | k31i => 20
  | k31c => 21 | k35c => 22 | k3rc => 23 | k51l => 24
  end.

(** The enumeration [Instruction::IndexType]. *)
Inductive IndexType : Set :=
| kIndexUnknown | kIndexNone | kIndexTypeRef | kIndexStringRef | kIndexMethodRef
| kIndexFieldRef | kIndexFieldOffset | kIndexVtableOffset.

#[global] Instance IndexType_eq_dec : EqDecision IndexType.
Proof. solve_decision. Defined.

(** The enumeration [Instruction::Flags]. *)
Definition kBranch : Z := 0x0000001.
Definition kContinue : Z := 0x0000002.
Definition kSwitch : Z := 0x0000004.
Definition kThrow : Z := 0x0000008.
Definition kReturn : Z := 0x0000010.
Definition kInvoke : Z := 0x0000020.
Definition kUnconditional : Z := 0x0000040.
Definition kAdd : Z := 0x0000080.
Definition kSubtract : Z := 0x0000100.
Definition kMultiply : Z := 0x0000200.
Definition kDivide : Z := 0x0000400.
Definition kRemainder : Z := 0x0000800.
Definition kAnd : Z := 0x0001000.
Definition kOr : Z := 0x0002000.
Definition kXor : Z := 0x0004000.
Definition kShl : Z := 0x0008000.
Definition kShr : Z := 0x0010000.
Definition kUshr : Z := 0x0020000.
Definition kCast : Z := 0x0040000.
Definition kStore : Z := 0x0080000.
Definition kLoad : Z := 0x0100000.
Definition kClobber : Z := 0x0200000.
Definition kRegCFieldOrConstant : Z := 0x0400000.
Definition kRegBFieldOrConstant : Z := 0x0800000.
Definition kExperimental : Z := 0x1000000.

(** The enumeration [Instruction::VerifyFlag]. *)
Definition kVerifyNone : Z := 0x000000.
Definition kVerifyRegA : Z := 0x000001.
Definition kVerifyRegAWide : Z := 0x000002.
Definition kVerifyRegB : Z := 0x000004.
Definition kVerifyRegBField : Z := 0x000008.
Definition kVerifyRegBMethod : Z := 0x000010.
Definition kVerifyRegBNewInstance : Z := 0x000020.
Definition kVerifyRegBString : Z := 0x000040.
Definition kVerifyRegBType : Z := 0x000080.
Definition kVerifyRegBWide : Z := 0x000100.
Definition kVerifyRegC : Z := 0x000200.
Definition kVerifyRegCField : Z := 0x000400.
Definition kVerifyRegCNewArray : Z := 0x000800.
Definition kVerifyRegCType : Z := 0x001000.
Definition kVerifyRegCWide : Z := 0x002000.
Definition kVerifyArrayData : Z := 0x004000.
Definition kVerifyBranchTarget : Z := 0x008000.
Definition kVerifySwitchTargets : Z := 0x010000.
Definition kVerifyVarArg : Z := 0x020000.
Definition kVerifyVarArgNonZero : Z := 0x040000.
Definition kVerifyVarArgRange : Z := 0x080000.
Definition kVerifyVarArgRangeNonZero : Z := 0x100000.
Definition kVerifyRuntimeOnly : Z := 0x200000.
Definition kVerifyError : Z := 0x400000.
Definition kVerifyRegCString : Z := 0x800000.

Notation "a .| b" := (Z.lor a b) (at level 50, left associativity) : art_scope.

(** One line of the X-macro: opcode, enumerator, format, index type, flags, verify flags.
    (The printed name and the unused boolean column carry no behaviour.) *)
Record InstructionRow := V {
  row_opcode : Z;
  row_code : Code;
  row_format : Format;
  row_index : IndexType;
  row_flags : Z;
  row_verify : Z
}.

(** Lines 0x00 to 0x7F of the table. *)
Definition DEX_INSTRUCTION_LIST_lo : list InstructionRow :=
  [ V 0x00 NOP k10x kIndexNone (kContinue) (kVerifyNone);
    V 0x01 MOVE k12x kIndexNone (kContinue) (kVerifyRegA .| kVerifyRegB);
    V 0x02 MOVE_FROM16 k22x kIndexNone (kContinue) (kVerifyRegA .| kVerifyRegB);
    V 0x03 MOVE_16 k32x kIndexNone (kContinue) (kVerifyRegA .| kVerifyRegB);
    V 0x04 MOVE_WIDE k12x kIndexNone (kContinue) (kVerifyRegAWide .| kVerifyRegBWide);
    V 0x05 MOVE_WIDE_FROM16 k22x kIndexNone (kContinue) (kVerifyRegAWide .| kVerifyRegBWide);
    V 0x06 MOVE_WIDE_16 k32x kIndexNone (kContinue) (kVerifyRegAWide .| kVerifyRegBWide);
    V 0x07 MOVE_OBJECT k12x kIndexNone (kContinue) (kVerifyRegA .| kVerifyRegB);
    V 0x08 MOVE_OBJECT_FROM16 k22x kIndexNone (kContinue) (kVerifyRegA .| kVerifyRegB);
    V 0x09 MOVE_OBJECT_16 k32x kIndexNone (kContinue) (kVerifyRegA .| kVerifyRegB);
    V 0x0A MOVE_RESULT k11x kIndexNone (kContinue) (kVerifyRegA);
    V 0x0B MOVE_RESULT_WIDE k11x kIndexNone (kContinue) (kVerifyRegAWide);
    V 0x0C MOVE_RESULT_OBJECT k11x kIndexNone (kContinue) (kVerifyRegA);
    V 0x0D MOVE_EXCEPTION k11x kIndexNone (kContinue) (kVerifyRegA);
    V 0x0E RETURN_VOID k10x kIndexNone (kReturn) (kVerifyNone);
    V 0x0F RETURN k11x kIndexNone (kReturn) (kVerifyRegA);
    V 0x10 RETURN_WIDE k11x kIndexNone (kReturn) (kVerifyRegAWide);
    V 0x11 RETURN_OBJECT k11x kIndexNone (kReturn) (kVerifyRegA);
    V 0x12 CONST_4 k11n kIndexNone (kContinue .| kRegBFieldOrConstant) (kVerifyRegA);
    V 0x13 CONST_16 k21s kIndexNone (kContinue .| kRegBFieldOrConstant) (kVerifyRegA);
    V 0x14 CONST k31i kIndexNone (kContinue .| kRegBFieldOrConstant) (kVerifyRegA);
    V 0x15 CONST_HIGH16 k21h kIndexNone (kContinue .| kRegBFieldOrConstant) (kVerifyRegA);
    V 0x16 CONST_WIDE_16 k21s kIndexNone (kContinue .| kRegBFieldOrConstant) (kVerifyRegAWide);
    V 0x17 CONST_WIDE_32 k31i kIndexNone (kContinue .| kRegBFieldOrConstant) (kVerifyRegAWide);
    V 0x18 CONST_WIDE k51l kIndexNone (kContinue .| kRegBFieldOrConstant) (kVerifyRegAWide);
    V 0x19 CONST_WIDE_HIGH16 k21h kIndexNone (kContinue .| kRegBFieldOrConstant) (kVerifyRegAWide);
    V 0x1A CONST_STRING k21c kIndexStringRef (kContinue .| kThrow) (kVerifyRegA .| kVerifyRegBString);
    V 0x1B CONST_STRING_JUMBO k31c kIndexStringRef (kContinue .| kThrow) (kVerifyRegA .| kVerifyRegBString);
    V 0x1C CONST_CLASS k21c kIndexTypeRef (kContinue .| kThrow) (kVerifyRegA .| kVerifyRegBType);
    V 0x1D MONITOR_ENTER k11x kIndexNone (kContinue .| kThrow .| kClobber) (kVerifyRegA);
    V 0x1E MONITOR_EXIT k11x kIndexNone (kContinue .| kThrow .| kClobber) (kVerifyRegA);
    V 0x1F CHECK_CAST k21c kIndexTypeRef (kContinue .| kThrow) (kVerifyRegA .| kVerifyRegBType);
    V 0x20 INSTANCE_OF k22c kIndexTypeRef (kContinue .| kThrow) (kVerifyRegA .| kVerifyRegB .| kVerifyRegCType);
    V 0x21 ARRAY_LENGTH k12x kIndexNone (kContinue .| kThrow) (kVerifyRegA .| kVerifyRegB);
    V 0x22 NEW_INSTANCE k21c kIndexTypeRef (kContinue .| kThrow .| kClobber) (kVerifyRegA .| kVerifyRegBNewInstance);
    V 0x23 NEW_ARRAY k22c kIndexTypeRef (kContinue .| kThrow .| kClobber) (kVerifyRegA .| kVerifyRegB .| kVerifyRegCNewArray);
    V 0x24 FILLED_NEW_ARRAY k35c kIndexTypeRef (kContinue .| kThrow .| kClobber) (kVerifyRegBType .| kVerifyVarArg);
    V 0x25 FILLED_NEW_ARRAY_RANGE k3rc kIndexTypeRef (kContinue .| kThrow .| kClobber) (kVerifyRegBType .| kVerifyVarArgRange);
    V 0x26 FILL_ARRAY_DATA k31t kIndexNone (kContinue .| kThrow .| kClobber) (kVerifyRegA .| kVerifyArrayData);
    V 0x27 THROW k11x kIndexNone (kThrow) (kVerifyRegA);
    V 0x28 GOTO k10t kIndexNone (kBranch .| kUnconditional) (kVerifyBranchTarget);
    V 0x29 GOTO_16 k20t kIndexNone (kBranch .| kUnconditional) (kVerifyBranchTarget);
    V 0x2A GOTO_32 k30t kIndexNone (kBranch .| kUnconditional) (kVerifyBranchTarget);
    V 0x2B PACKED_SWITCH k31t kIndexNone (kContinue .| kSwitch) (kVerifyRegA .| kVerifySwitchTargets);
    V 0x2C SPARSE_SWITCH k31t kIndexNone (kContinue .| kSwitch) (kVerifyRegA .| kVerifySwitchTargets);
    V 0x2D CMPL_FLOAT k23x kIndexNone (kContinue) (kVerifyRegA .| kVerifyRegB .| kVerifyRegC);
    V 0x2E CMPG_FLOAT k23x kIndexNone (kContinue) (kVerifyRegA .| kVerifyRegB .| kVerifyRegC);
    V 0x2F CMPL_DOUBLE k23x kIndexNone (kContinue) (kVerifyRegA .| kVerifyRegBWide .| kVerifyRegCWide);
    V 0x30 CMPG_DOUBLE k23x kIndexNone (kContinue) (kVerifyRegA .| kVerifyRegBWide .| kVerifyRegCWide);
    V 0x31 CMP_LONG k23x kIndexNone (kContinue) (kVerifyRegA .| kVerifyRegBWide .| kVerifyRegCWide);
    V 0x32 IF_EQ k22t kIndexNone (kContinue .| kBranch) (kVerifyRegA .| kVerifyRegB .| kVerifyBranchTarget);
    V 0x33 IF_NE k22t kIndexNone (kContinue .| kBranch) (kVerifyRegA .| kVerifyRegB .| kVerifyBranchTarget);
    V 0x34 IF_LT k22t kIndexNone (kContinue .| kBranch) (kVerifyRegA .| kVerifyRegB .| kVerifyBranchTarget);
    V 0x35 IF_GE k22t kIndexNone (kContinue .| kBranch) (kVerifyRegA .| kVerifyRegB .| kVerifyBranchTarget);
    V 0x36 IF_GT k22t kIndexNone (kContinue .| kBranch) (kVerifyRegA .| kVerifyRegB .| kVerifyBranchTarget);
    V 0x37 IF_LE k22t kIndexNone (kContinue .| kBranch) (kVerifyRegA .| kVerifyRegB .| kVerifyBranchTarget);
    V 0x38 IF_EQZ k21t kIndexNone (kContinue .| kBranch) (kVerifyRegA .| kVerifyBranchTarget);
    V 0x39 IF_NEZ k21t kIndexNone (kContinue .| kBranch) (kVerifyRegA .| kVerifyBranchTarget);
    V 0x3A IF_LTZ k21t kIndexNone (kContinue .| kBranch) (kVerifyRegA .| kVerifyBranchTarget);
    V 0x3B IF_GEZ k21t kIndexNone (kContinue .| kBranch) (kVerifyRegA .| kVerifyBranchTarget);
    V 0x3C IF_GTZ k21t kIndexNone (kContinue .| kBranch) (kVerifyRegA .| kVerifyBranchTarget);
    V 0x3D IF_LEZ k21t kIndexNone (kContinue .| kBranch) (kVerifyRegA .| kVerifyBranchTarget);
    V 0x3E UNUSED_3E k10x kIndexUnknown (0) (kVerifyError);
    V 0x3F UNUSED_3F k10x kIndexUnknown (0) (kVerifyError);
    V 0x40 UNUSED_40 k10x kIndexUnknown (0) (kVerifyError);
    V 0x41 UNUSED_41 k10x kIndexUnknown (0) (kVerifyError);
    V 0x42 UNUSED_42 k10x kIndexUnknown (0) (kVerifyError);
    V 0x43 UNUSED_43 k10x kIndexUnknown (0) (kVerifyError);
    V 0x44 AGET k23x kIndexNone (kContinue .| kThrow .| kLoad) (kVerifyRegA .| kVerifyRegB .| kVerifyRegC);
    V 0x45 AGET_WIDE k23x kIndexNone (kContinue .| kThrow .| kLoad) (kVerifyRegAWide .| kVerifyRegB .| kVerifyRegC);
    V 0x46 AGET_OBJECT k23x kIndexNone (kContinue .| kThrow .| kLoad) (kVerifyRegA .| kVerifyRegB .| kVerifyRegC);
    V 0x47 AGET_BOOLEAN k23x kIndexNone (kContinue .| kThrow .| kLoad) (kVerifyRegA .| kVerifyRegB .| kVerifyRegC);
    V 0x48 AGET_BYTE k23x kIndexNone (kContinue .| kThrow .| kLoad) (kVerifyRegA .| kVerifyRegB .| kVerifyRegC);
    V 0x49 AGET_CHAR k23x kIndexNone (kContinue .| kThrow .| kLoad) (kVerifyRegA .| kVerifyRegB .| kVerifyRegC);
    V 0x4A AGET_SHORT k23x kIndexNone (kContinue .| kThrow .| kLoad) (kVerifyRegA .| kVerifyRegB .| kVerifyRegC);
    V 0x4B APUT k23x kIndexNone (kContinue .| kThrow .| kStore) (kVerifyRegA .| kVerifyRegB .| kVerifyRegC);
    V 0x4C APUT_WIDE k23x kIndexNone (kContinue .| kThrow .| kStore) (kVerifyRegAWide .| kVerifyRegB .| kVerifyRegC);
    V 0x4D APUT_OBJECT k23x kIndexNone (kContinue .| kThrow .| kStore) (kVerifyRegA .| kVerifyRegB .| kVerifyRegC);
    V 0x4E APUT_BOOLEAN k23x kIndexNone (kContinue .| kThrow .| kStore) (kVerifyRegA .| kVerifyRegB .| kVerifyRegC);
    V 0x4F APUT_BYTE k23x kIndexNone (kContinue .| kThrow .| kStore) (kVerifyRegA .| kVerifyRegB .| kVerifyRegC);
    V 0x50 APUT_CHAR k23x kIndexNone (kContinue .| kThrow .| kStore) (kVerifyRegA .| kVerifyRegB .| kVerifyRegC);
    V 0x51 APUT_SHORT k23x kIndexNone (kContinue .| kThrow .| kStore) (kVerifyRegA .| kVerifyRegB .| kVerifyRegC);
    V 0x52 IGET k22c kIndexFieldRef (kContinue .| kThrow .| kLoad .| kRegCFieldOrConstant) (kVerifyRegA .| kVerifyRegB .| kVerifyRegCField);
    V 0x53 IGET_WIDE k22c kIndexFieldRef (kContinue .| kThrow .| kLoad .| kRegCFieldOrConstant) (kVerifyRegAWide .| kVerifyRegB .| kVerifyRegCField);
    V 0x54 IGET_OBJECT k22c kIndexFieldRef (kContinue .| kThrow .| kLoad .| kRegCFieldOrConstant) (kVerifyRegA .| kVerifyRegB .| kVerifyRegCField);
    V 0x55 IGET_BOOLEAN k22c kIndexFieldRef (kContinue .| kThrow .| kLoad .| kRegCFieldOrConstant) (kVerifyRegA .| kVerifyRegB .| kVerifyRegCField);
    V 0x56 IGET_BYTE k22c kIndexFieldRef (kContinue .| kThrow .| kLoad .| kRegCFieldOrConstant) (kVerifyRegA .| kVerifyRegB .| kVerifyRegCField);
    V 0x57 IGET_CHAR k22c kIndexFieldRef (kContinue .| kThrow .| kLoad .| kRegCFieldOrConstant) (kVerifyRegA .| kVerifyRegB .| kVerifyRegCField);
    V 0x58 IGET_SHORT k22c kIndexFieldRef (kContinue .| kThrow .| kLoad .| kRegCFieldOrConstant) (kVerifyRegA .| kVerifyRegB .| kVerifyRegCField);
    V 0x59 IPUT k22c kIndexFieldRef (kContinue .| kThrow .| kStore .| kRegCFieldOrConstant) (kVerifyRegA .| kVerifyRegB .| kVerifyRegCField);
    V 0x5A IPUT_WIDE k22c kIndexFieldRef (kContinue .| kThrow .| kStore .| kRegCFieldOrConstant) (kVerifyRegAWide .| kVerifyRegB .| kVerifyRegCField);
    V 0x5B IPUT_OBJECT k22c kIndexFieldRef (kContinue .| kThrow .| kStore .| kRegCFieldOrConstant) (kVerifyRegA .| kVerifyRegB .| kVerifyRegCField);
    V 0x5C IPUT_BOOLEAN k22c kIndexFieldRef (kContinue .| kThrow .| kStore .| kRegCFieldOrConstant) (kVerifyRegA .| kVerifyRegB .| kVerifyRegCField);
    V 0x5D IPUT_BYTE k22c kIndexFieldRef (kContinue .| kThrow .| kStore .| kRegCFieldOrConstant) (kVerifyRegA .| kVerifyRegB .| kVerifyRegCField);
    V 0x5E IPUT_CHAR k22c kIndexFieldRef (kContinue .| kThrow .| kStore .| kRegCFieldOrConstant) (kVerifyRegA .| kVerifyRegB .| kVerifyRegCField);
    V 0x5F IPUT_SHORT k22c kIndexFieldRef (kContinue .| kThrow .| kStore .| kRegCFieldOrConstant) (kVerifyRegA .| kVerifyRegB .| kVerifyRegCField);
    V 0x60 SGET k21c kIndexFieldRef (kContinue .| kThrow .| kLoad .| kRegBFieldOrConstant) (kVerifyRegA .| kVerifyRegBField);
    V 0x61 SGET_WIDE k21c kIndexFieldRef (kContinue .| kThrow .| kLoad .| kRegBFieldOrConstant) (kVerifyRegAWide .| kVerifyRegBField);
    V 0x62 SGET_OBJECT k21c kIndexFieldRef (kContinue .| kThrow .| kLoad .| kRegBFieldOrConstant) (kVerifyRegA .| kVerifyRegBField);
    V 0x63 SGET_BOOLEAN k21c kIndexFieldRef (kContinue .| kThrow .| kLoad .| kRegBFieldOrConstant) (kVerifyRegA .| kVerifyRegBField);
    V 0x64 SGET_BYTE k21c kIndexFieldRef (kContinue .| kThrow .| kLoad .| kRegBFieldOrConstant) (kVerifyRegA .| kVerifyRegBField);
    V 0x65 SGET_CHAR k21c kIndexFieldRef (kContinue .| kThrow .| kLoad .| kRegBFieldOrConstant) (kVerifyRegA .| kVerifyRegBField);
    V 0x66 SGET_SHORT k21c kIndexFieldRef (kContinue .| kThrow .| kLoad .| kRegBFieldOrConstant) (kVerifyRegA .| kVerifyRegBField);
    V 0x67 SPUT k21c kIndexFieldRef (kContinue .| kThrow .| kStore .| kRegBFieldOrConstant) (kVerifyRegA .| kVerifyRegBField);
    V 0x68 SPUT_WIDE k21c kIndexFieldRef (kContinue .| kThrow .| kStore .| kRegBFieldOrConstant) (kVerifyRegAWide .| kVerifyRegBField);
    V 0x69 SPUT_OBJECT k21c kIndexFieldRef (kContinue .| kThrow .| kStore .| kRegBFieldOrConstant) (kVerifyRegA .| kVerifyRegBField);
    V 0x6A SPUT_BOOLEAN k21c kIndexFieldRef (kContinue .| kThrow .| kStore .| kRegBFieldOrConstant) (kVerifyRegA .| kVerifyRegBField);
    V 0x6B SPUT_BYTE k21c kIndexFieldRef (kContinue .| kThrow .| kStore .| kRegBFieldOrConstant) (kVerifyRegA .| kVerifyRegBField);
    V 0x6C SPUT_CHAR k21c kIndexFieldRef (kContinue .| kThrow .| kStore .| kRegBFieldOrConstant) (kVerifyRegA .| kVerifyRegBField);
    V 0x6D SPUT_SHORT k21c kIndexFieldRef (kContinue .| kThrow .| kStore .| kRegBFieldOrConstant) (kVerifyRegA .| kVerifyRegBField);
    V 0x6E INVOKE_VIRTUAL k35c kIndexMethodRef (kContinue .| kThrow .| kInvoke) (kVerifyRegBMethod .| kVerifyVarArgNonZero);
    V 0x6F INVOKE_SUPER k35c kIndexMethodRef (kContinue .| kThrow .| kInvoke) (kVerifyRegBMethod .| kVerifyVarArgNonZero);
    V 0x70 INVOKE_DIRECT k35c kIndexMethodRef (kContinue .| kThrow .| kInvoke) (kVerifyRegBMethod .| kVerifyVarArgNonZero);
    V 0x71 INVOKE_STATIC k35c kIndexMethodRef (kContinue .| kThrow .| kInvoke) (kVerifyRegBMethod .| kVerifyVarArg);
    V 0x72 INVOKE_INTERFACE k35c kIndexMethodRef (kContinue .| kThrow .| kInvoke) (kVerifyRegBMethod .| kVerifyVarArgNonZero);
    V 0x73 RETURN_VOID_NO_BARRIER k10x kIndexNone (kReturn) (kVerifyNone);
    V 0x74 INVOKE_VIRTUAL_RANGE k3rc kIndexMethodRef (kContinue .| kThrow .| kInvoke) (kVerifyRegBMethod .| kVerifyVarArgRangeNonZero);
    V 0x75 INVOKE_SUPER_RANGE k3rc kIndexMethodRef (kContinue .| kThrow .| kInvoke) (kVerifyRegBMethod .| kVerifyVarArgRangeNonZero);
    V 0x76 INVOKE_DIRECT_RANGE k3rc kIndexMethodRef (kContinue .| kThrow .| kInvoke) (kVerifyRegBMethod .| kVerifyVarArgRangeNonZero);
    V 0x77 INVOKE_STATIC_RANGE k3rc kIndexMethodRef (kContinue .| kThrow .| kInvoke) (kVerifyRegBMethod .| kVerifyVarArgRange);
    V 0x78 INVOKE_INTERFACE_RANGE k3rc kIndexMethodRef (kContinue .| kThrow .| kInvoke) (kVerifyRegBMethod .| kVerifyVarArgRangeNonZero);
    V 0x79 UNUSED_79 k10x kIndexUnknown (0) (kVerifyError);
    V 0x7A UNUSED_7A k10x kIndexUnknown (0) (kVerifyError);
    V 0x7B NEG_INT k12x kIndexNone (kContinue) (kVerifyRegA .| kVerifyRegB);
    V 0x7C NOT_INT k12x kIndexNone (kContinue) (kVerifyRegA .| kVerifyRegB);
    V 0x7D NEG_LONG k12x kIndexNone (kContinue) (kVerifyRegAWide .| kVerifyRegBWide);
    V 0x7E NOT_LONG k12x kIndexNone (kContinue) (kVerifyRegAWide .| kVerifyRegBWide);
    V 0x7F NEG_FLOAT k12x kIndexNone (kContinue) (kVerifyRegA .| kVerifyRegB) ].

(** Lines 0x80 to 0xFF of the table. *)
Definition DEX_INSTRUCTION_LIST_hi : list InstructionRow :=
  [ V 0x80 NEG_DOUBLE k12x kIndexNone (kContinue) (kVerifyRegAWide .| kVerifyRegBWide);
    V 0x81 INT_TO_LONG k12x kIndexNone (kContinue .| kCast) (kVerifyRegAWide .| kVerifyRegB);
    V 0x82 INT_TO_FLOAT k12x kIndexNone (kContinue .| kCast) (kVerifyRegA .| kVerifyRegB);
    V 0x83 INT_TO_DOUBLE k12x kIndexNone (kContinue .| kCast) (kVerifyRegAWide .| kVerifyRegB);
    V 0x84 LONG_TO_INT k12x kIndexNone (kContinue .| kCast) (kVerifyRegA .| kVerifyRegBWide);
    V 0x85 LONG_TO_FLOAT k12x kIndexNone (kContinue .| kCast) (kVerifyRegA .| kVerifyRegBWide);
    V 0x86 LONG_TO_DOUBLE k12x kIndexNone (kContinue .| kCast) (kVerifyRegAWide .| kVerifyRegBWide);
    V 0x87 FLOAT_TO_INT k12x kIndexNone (kContinue .| kCast) (kVerifyRegA .| kVerifyRegB);
    V 0x88 FLOAT_TO_LONG k12x kIndexNone (kContinue .| kCast) (kVerifyRegAWide .| kVerifyRegB);
    V 0x89 FLOAT_TO_DOUBLE k12x kIndexNone (kContinue .| kCast) (kVerifyRegAWide .| kVerifyRegB);
    V 0x8A DOUBLE_TO_INT k12x kIndexNone (kContinue .| kCast) (kVerifyRegA .| kVerifyRegBWide);
    V 0x8B DOUBLE_TO_LONG k12x kIndexNone (kContinue .| kCast) (kVerifyRegAWide .| kVerifyRegBWide);
    V 0x8C DOUBLE_TO_FLOAT k12x kIndexNone (kContinue .| kCast) (kVerifyRegA .| kVerifyRegBWide);
    V 0x8D INT_TO_BYTE k12x kIndexNone (kContinue .| kCast) (kVerifyRegA .| kVerifyRegB);
    V 0x8E INT_TO_CHAR k12x kIndexNone (kContinue .| kCast) (kVerifyRegA .| kVerifyRegB);
    V 0x8F INT_TO_SHORT k12x kIndexNone (kContinue .| kCast) (kVerifyRegA .| kVerifyRegB);
    V 0x90 ADD_INT k23x kIndexNone (kContinue .| kAdd) (kVerifyRegA .| kVerifyRegB .| kVerifyRegC);
    V 0x91 SUB_INT k23x kIndexNone (kContinue .| kSubtract) (kVerifyRegA .| kVerifyRegB .| kVerifyRegC);
    V 0x92 MUL_INT k23x kIndexNone (kContinue .| kMultiply) (kVerifyRegA .| kVerifyRegB .| kVerifyRegC);
    V 0x93 DIV_INT k23x kIndexNone (kContinue .| kThrow .| kDivide) (kVerifyRegA .| kVerifyRegB .| kVerifyRegC);
    V 0x94 REM_INT k23x kIndexNone (kContinue .| kThrow .| kRemainder) (kVerifyRegA .| kVerifyRegB .| kVerifyRegC);
    V 0x95 AND_INT k23x kIndexNone (kContinue .| kAnd) (kVerifyRegA .| kVerifyRegB .| kVerifyRegC);
    V 0x96 OR_INT k23x kIndexNone (kContinue .| kOr) (kVerifyRegA .| kVerifyRegB .| kVerifyRegC);
    V 0x97 XOR_INT k23x kIndexNone (kContinue .| kXor) (kVerifyRegA .| kVerifyRegB .| kVerifyRegC);
    V 0x98 SHL_INT k23x kIndexNone (kContinue .| kShl) (kVerifyRegA .| kVerifyRegB .| kVerifyRegC);
    V 0x99 SHR_INT k23x kIndexNone (kContinue .| kShr) (kVerifyRegA .| kVerifyRegB .| kVerifyRegC);
    V 0x9A USHR_INT k23x kIndexNone (kContinue .| kUshr) (kVerifyRegA .| kVerifyRegB .| kVerifyRegC);
    V 0x9B ADD_LONG k23x kIndexNone (kContinue .| kAdd) (kVerifyRegAWide .| kVerifyRegBWide .| kVerifyRegCWide);
    V 0x9C SUB_LONG k23x kIndexNone (kContinue .| kSubtract) (kVerifyRegAWide .| kVerifyRegBWide .| kVerifyRegCWide);
    V 0x9D MUL_LONG k23x kIndexNone (kContinue .| kMultiply) (kVerifyRegAWide .| kVerifyRegBWide .| kVerifyRegCWide);
    V 0x9E DIV_LONG k23x kIndexNone (kContinue .| kThrow .| kDivide) (kVerifyRegAWide .| kVerifyRegBWide .| kVerifyRegCWide);
    V 0x9F REM_LONG k23x kIndexNone (kContinue .| kThrow .| kRemainder) (kVerifyRegAWide .| kVerifyRegBWide .| kVerifyRegCWide);
    V 0xA0 AND_LONG k23x kIndexNone (kContinue .| kAnd) (kVerifyRegAWide .| kVerifyRegBWide .| kVerifyRegCWide);
    V 0xA1 OR_LONG k23x kIndexNone (kContinue .| kOr) (kVerifyRegAWide .| kVerifyRegBWide .| kVerifyRegCWide);
    V 0xA2 XOR_LONG k23x kIndexNone (kContinue .| kXor) (kVerifyRegAWide .| kVerifyRegBWide .| kVerifyRegCWide);
    V 0xA3 SHL_LONG k23x kIndexNone (kContinue .| kShl) (kVerifyRegAWide .| kVerifyRegBWide .| kVerifyRegC);
    V 0xA4 SHR_LONG k23x kIndexNone (kContinue .| kShr) (kVerifyRegAWide .| kVerifyRegBWide .| kVerifyRegC);
    V 0xA5 USHR_LONG k23x kIndexNone (kContinue .| kUshr) (kVerifyRegAWide .| kVerifyRegBWide .| kVerifyRegC);
    V 0xA6 ADD_FLOAT k23x kIndexNone (kContinue .| kAdd) (kVerifyRegA .| kVerifyRegB .| kVerifyRegC);
    V 0xA7 SUB_FLOAT k23x kIndexNone (kContinue .| kSubtract) (kVerifyRegA .| kVerifyRegB .| kVerifyRegC);
    V 0xA8 MUL_FLOAT k23x kIndexNone (kContinue .| kMultiply) (kVerifyRegA .| kVerifyRegB .| kVerifyRegC);
    V 0xA9 DIV_FLOAT k23x kIndexNone (kContinue .| kDivide) (kVerifyRegA .| kVerifyRegB .| kVerifyRegC);
    V 0xAA REM_FLOAT k23x kIndexNone (kContinue .| kRemainder) (kVerifyRegA .| kVerifyRegB .| kVerifyRegC);
    V 0xAB ADD_DOUBLE k23x kIndexNone (kContinue .| kAdd) (kVerifyRegAWide .| kVerifyRegBWide .| kVerifyRegCWide);
    V 0xAC SUB_DOUBLE k23x kIndexNone (kContinue .| kSubtract) (kVerifyRegAWide .| kVerifyRegBWide .| kVerifyRegCWide);
    V 0xAD MUL_DOUBLE k23x kIndexNone (kContinue .| kMultiply) (kVerifyRegAWide .| kVerifyRegBWide .| kVerifyRegCWide);
    V 0xAE DIV_DOUBLE k23x kIndexNone (kContinue .| kDivide) (kVerifyRegAWide .| kVerifyRegBWide .| kVerifyRegCWide);
    V 0xAF REM_DOUBLE k23x kIndexNone (kContinue .| kRemainder) (kVerifyRegAWide .| kVerifyRegBWide .| kVerifyRegCWide);
    V 0xB0 ADD_INT_2ADDR k12x kIndexNone (kContinue .| kAdd) (kVerifyRegA .| kVerifyRegB);
    V 0xB1 SUB_INT_2ADDR k12x kIndexNone (kContinue .| kSubtract) (kVerifyRegA .| kVerifyRegB);
    V 0xB2 MUL_INT_2ADDR k12x kIndexNone (kContinue .| kMultiply) (kVerifyRegA .| kVerifyRegB);
    V 0xB3 DIV_INT_2ADDR k12x kIndexNone (kContinue .| kThrow .| kDivide) (kVerifyRegA .| kVerifyRegB);
    V 0xB4 REM_INT_2ADDR k12x kIndexNone (kContinue .| kThrow .| kRemainder) (kVerifyRegA .| kVerifyRegB);
    V 0xB5 AND_INT_2ADDR k12x kIndexNone (kContinue .| kAnd) (kVerifyRegA .| kVerifyRegB);
    V 0xB6 OR_INT_2ADDR k12x kIndexNone (kContinue .| kOr) (kVerifyRegA .| kVerifyRegB);
    V 0xB7 XOR_INT_2ADDR k12x kIndexNone (kContinue .| kXor) (kVerifyRegA .| kVerifyRegB);
    V 0xB8 SHL_INT_2ADDR k12x kIndexNone (kContinue .| kShl) (kVerifyRegA .| kVerifyRegB);
    V 0xB9 SHR_INT_2ADDR k12x kIndexNone (kContinue .| kShr) (kVerifyRegA .| kVerifyRegB);
    V 0xBA USHR_INT_2ADDR k12x kIndexNone (kContinue .| kUshr) (kVerifyRegA .| kVerifyRegB);
    V 0xBB ADD_LONG_2ADDR k12x kIndexNone (kContinue .| kAdd) (kVerifyRegAWide .| kVerifyRegBWide);
    V 0xBC SUB_LONG_2ADDR k12x kIndexNone (kContinue .| kSubtract) (kVerifyRegAWide .| kVerifyRegBWide);
    V 0xBD MUL_LONG_2ADDR k12x kIndexNone (kContinue .| kMultiply) (kVerifyRegAWide .| kVerifyRegBWide);
    V 0xBE DIV_LONG_2ADDR k12x kIndexNone (kContinue .| kThrow .| kDivide) (kVerifyRegAWide .| kVerifyRegBWide);
    V 0xBF REM_LONG_2ADDR k12x kIndexNone (kContinue .| kThrow .| kRemainder) (kVerifyRegAWide .| kVerifyRegBWide);
    V 0xC0 AND_LONG_2ADDR k12x kIndexNone (kContinue .| kAnd) (kVerifyRegAWide .| kVerifyRegBWide);
    V 0xC1 OR_LONG_2ADDR k12x kIndexNone (kContinue .| kOr) (kVerifyRegAWide .| kVerifyRegBWide);
    V 0xC2 XOR_LONG_2ADDR k12x kIndexNone (kContinue .| kXor) (kVerifyRegAWide .| kVerifyRegBWide);
    V 0xC3 SHL_LONG_2ADDR k12x kIndexNone (kContinue .| kShl) (kVerifyRegAWide .| kVerifyRegB);
    V 0xC4 SHR_LONG_2ADDR k12x kIndexNone (kContinue .| kShr) (kVerifyRegAWide .| kVerifyRegB);
    V 0xC5 USHR_LONG_2ADDR k12x kIndexNone (kContinue .| kUshr) (kVerifyRegAWide .| kVerifyRegB);
    V 0xC6 ADD_FLOAT_2ADDR k12x kIndexNone (kContinue .| kAdd) (kVerifyRegA .| kVerifyRegB);
    V 0xC7 SUB_FLOAT_2ADDR k12x kIndexNone (kContinue .| kSubtract) (kVerifyRegA .| kVerifyRegB);
    V 0xC8 MUL_FLOAT_2ADDR k12x kIndexNone (kContinue .| kMultiply) (kVerifyRegA .| kVerifyRegB);
    V 0xC9 DIV_FLOAT_2ADDR k12x kIndexNone (kContinue .| kDivide) (kVerifyRegA .| kVerifyRegB);
    V 0xCA REM_FLOAT_2ADDR k12x kIndexNone (kContinue .| kRemainder) (kVerifyRegA .| kVerifyRegB);
    V 0xCB ADD_DOUBLE_2ADDR k12x kIndexNone (kContinue .| kAdd) (kVerifyRegAWide .| kVerifyRegBWide);
    V 0xCC SUB_DOUBLE_2ADDR k12x kIndexNone (kContinue .| kSubtract) (kVerifyRegAWide .| kVerifyRegBWide);
    V 0xCD MUL_DOUBLE_2ADDR k12x kIndexNone (kContinue .| kMultiply) (kVerifyRegAWide .| kVerifyRegBWide);
    V 0xCE DIV_DOUBLE_2ADDR k12x kIndexNone (kContinue .| kDivide) (kVerifyRegAWide .| kVerifyRegBWide);
    V 0xCF REM_DOUBLE_2ADDR k12x kIndexNone (kContinue .| kRemainder) (kVerifyRegAWide .| kVerifyRegBWide);
    V 0xD0 ADD_INT_LIT16 k22s kIndexNone (kContinue .| kAdd .| kRegCFieldOrConstant) (kVerifyRegA .| kVerifyRegB);
    V 0xD1 RSUB_INT k22s kIndexNone (kContinue .| kSubtract .| kRegCFieldOrConstant) (kVerifyRegA .| kVerifyRegB);
    V 0xD2 MUL_INT_LIT16 k22s kIndexNone (kContinue .| kMultiply .| kRegCFieldOrConstant) (kVerifyRegA .| kVerifyRegB);
    V 0xD3 DIV_INT_LIT16 k22s kIndexNone (kContinue .| kThrow .| kDivide .| kRegCFieldOrConstant) (kVerifyRegA .| kVerifyRegB);
    V 0xD4 REM_INT_LIT16 k22s kIndexNone (kContinue .| kThrow .| kRemainder .| kRegCFieldOrConstant) (kVerifyRegA .| kVerifyRegB);
    V 0xD5 AND_INT_LIT16 k22s kIndexNone (kContinue .| kAnd .| kRegCFieldOrConstant) (kVerifyRegA .| kVerifyRegB);
    V 0xD6 OR_INT_LIT16 k22s kIndexNone (kContinue .| kOr .| kRegCFieldOrConstant) (kVerifyRegA .| kVerifyRegB);
    V 0xD7 XOR_INT_LIT16 k22s kIndexNone (kContinue .| kXor .| kRegCFieldOrConstant) (kVerifyRegA .| kVerifyRegB);
    V 0xD8 ADD_INT_LIT8 k22b kIndexNone (kContinue .| kAdd .| kRegCFieldOrConstant) (kVerifyRegA .| kVerifyRegB);
    V 0xD9 RSUB_INT_LIT8 k22b kIndexNone (kContinue .| kSubtract .| kRegCFieldOrConstant) (kVerifyRegA .| kVerifyRegB);
    V 0xDA MUL_INT_LIT8 k22b kIndexNone (kContinue .| kMultiply .| kRegCFieldOrConstant) (kVerifyRegA .| kVerifyRegB);
    V 0xDB DIV_INT_LIT8 k22b kIndexNone (kContinue .| kThrow .| kDivide .| kRegCFieldOrConstant) (kVerifyRegA .| kVerifyRegB);
    V 0xDC REM_INT_LIT8 k22b kIndexNone (kContinue .| kThrow .| kRemainder .| kRegCFieldOrConstant) (kVerifyRegA .| kVerifyRegB);
    V 0xDD AND_INT_LIT8 k22b kIndexNone (kContinue .| kAnd .| kRegCFieldOrConstant) (kVerifyRegA .| kVerifyRegB);
    V 0xDE OR_INT_LIT8 k22b kIndexNone (kContinue .| kOr .| kRegCFieldOrConstant) (kVerifyRegA .| kVerifyRegB);
    V 0xDF XOR_INT_LIT8 k22b kIndexNone (kContinue .| kXor .| kRegCFieldOrConstant) (kVerifyRegA .| kVerifyRegB);
    V 0xE0 SHL_INT_LIT8 k22b kIndexNone (kContinue .| kShl .| kRegCFieldOrConstant) (kVerifyRegA .| kVerifyRegB);
    V 0xE1 SHR_INT_LIT8 k22b kIndexNone (kContinue .| kShr .| kRegCFieldOrConstant) (kVerifyRegA .| kVerifyRegB);
    V 0xE2 USHR_INT_LIT8 k22b kIndexNone (kContinue .| kUshr .| kRegCFieldOrConstant) (kVerifyRegA .| kVerifyRegB);
    V 0xE3 IGET_QUICK k22c kIndexFieldOffset (kContinue .| kThrow .| kLoad .| kRegCFieldOrConstant) (kVerifyRegA .| kVerifyRegB .| kVerifyRuntimeOnly);
    V 0xE4 IGET_WIDE_QUICK k22c kIndexFieldOffset (kContinue .| kThrow .| kLoad .| kRegCFieldOrConstant) (kVerifyRegAWide .| kVerifyRegB .| kVerifyRuntimeOnly);
    V 0xE5 IGET_OBJECT_QUICK k22c kIndexFieldOffset (kContinue .| kThrow .| kLoad .| kRegCFieldOrConstant) (kVerifyRegA .| kVerifyRegB .| kVerifyRuntimeOnly);
    V 0xE6 IPUT_QUICK k22c kIndexFieldOffset (kContinue .| kThrow .| kStore .| kRegCFieldOrConstant) (kVerifyRegA .| kVerifyRegB .| kVerifyRuntimeOnly);
    V 0xE7 IPUT_WIDE_QUICK k22c kIndexFieldOffset (kContinue .| kThrow .| kStore .| kRegCFieldOrConstant) (kVerifyRegAWide .| kVerifyRegB .| kVerifyRuntimeOnly);
    V 0xE8 IPUT_OBJECT_QUICK k22c kIndexFieldOffset (kContinue .| kThrow .| kStore .| kRegCFieldOrConstant) (kVerifyRegA .| kVerifyRegB .| kVerifyRuntimeOnly);
    V 0xE9 INVOKE_VIRTUAL_QUICK k35c kIndexVtableOffset (kContinue .| kThrow .| kInvoke) (kVerifyVarArgNonZero .| kVerifyRuntimeOnly);
    V 0xEA INVOKE_VIRTUAL_RANGE_QUICK k3rc kIndexVtableOffset (kContinue .| kThrow .| kInvoke) (kVerifyVarArgRangeNonZero .| kVerifyRuntimeOnly);
    V 0xEB IPUT_BOOLEAN_QUICK k22c kIndexFieldOffset (kContinue .| kThrow .| kStore .| kRegCFieldOrConstant) (kVerifyRegA .| kVerifyRegB .| kVerifyRuntimeOnly);
    V 0xEC IPUT_BYTE_QUICK k22c kIndexFieldOffset (kContinue .| kThrow .| kStore .| kRegCFieldOrConstant) (kVerifyRegA .| kVerifyRegB .| kVerifyRuntimeOnly);
    V 0xED IPUT_CHAR_QUICK k22c kIndexFieldOffset (kContinue .| kThrow .| kStore .| kRegCFieldOrConstant) (kVerifyRegA .| kVerifyRegB .| kVerifyRuntimeOnly);
    V 0xEE IPUT_SHORT_QUICK k22c kIndexFieldOffset (kContinue .| kThrow .| kStore .| kRegCFieldOrConstant) (kVerifyRegA .| kVerifyRegB .| kVerifyRuntimeOnly);
    V 0xEF IGET_BOOLEAN_QUICK k22c kIndexFieldOffset (kContinue .| kThrow .| kLoad .| kRegCFieldOrConstant) (kVerifyRegA .| kVerifyRegB .| kVerifyRuntimeOnly);
    V 0xF0 IGET_BYTE_QUICK k22c kIndexFieldOffset (kContinue .| kThrow .| kLoad .| kRegCFieldOrConstant) (kVerifyRegA .| kVerifyRegB .| kVerifyRuntimeOnly);
    V 0xF1 IGET_CHAR_QUICK k22c kIndexFieldOffset (kContinue .| kThrow .| kLoad .| kRegCFieldOrConstant) (kVerifyRegA .| kVerifyRegB .| kVerifyRuntimeOnly);
    V 0xF2 IGET_SHORT_QUICK k22c kIndexFieldOffset (kContinue .| kThrow .| kLoad .| kRegCFieldOrConstant) (kVerifyRegA .| kVerifyRegB .| kVerifyRuntimeOnly);
    V 0xF3 INVOKE_LAMBDA k25x kIndexNone (kContinue .| kThrow .| kInvoke .| kExperimental) (kVerifyRegC);
    V 0xF4 UNUSED_F4 k10x kIndexUnknown (0) (kVerifyError);
    V 0xF5 CAPTURE_VARIABLE k21c kIndexStringRef (kExperimental) (kVerifyRegA .| kVerifyRegBString);
    V 0xF6 CREATE_LAMBDA k21c kIndexMethodRef (kContinue .| kThrow .| kExperimental) (kVerifyRegA .| kVerifyRegBMethod);
    V 0xF7 LIBERATE_VARIABLE k22c kIndexStringRef (kExperimental) (kVerifyRegA .| kVerifyRegB .| kVerifyRegCString);
    V 0xF8 BOX_LAMBDA k22x kIndexNone (kContinue .| kExperimental) (kVerifyRegA .| kVerifyRegB);
    V 0xF9 UNBOX_LAMBDA k22c kIndexTypeRef (kContinue .| kThrow .| kExperimental) (kVerifyRegA .| kVerifyRegB .| kVerifyRegCType);
    V 0xFA UNUSED_FA k10x kIndexUnknown (0) (kVerifyError);
    V 0xFB UNUSED_FB k10x kIndexUnknown (0) (kVerifyError);
    V 0xFC UNUSED_FC k10x kIndexUnknown (0) (kVerifyError);
    V 0xFD UNUSED_FD k10x kIndexUnknown (0) (kVerifyError);
    V 0xFE UNUSED_FE k10x kIndexUnknown (0) (kVerifyError);
    V 0xFF UNUSED_FF k10x kIndexUnknown (0) (kVerifyError) ].

Definition DEX_INSTRUCTION_LIST : list InstructionRow :=
  DEX_INSTRUCTION_LIST_lo ++ DEX_INSTRUCTION_LIST_hi.

(** The row read at an array index; the arrays have an entry for each of the 256 values of the
    opcode byte, so the default is never used by the code. *)
Definition default_row : InstructionRow := V 0x00 NOP k10x kIndexNone kContinue kVerifyNone.

Definition row_at (i : Z) : InstructionRow :=
  nth (Z.to_nat i) DEX_INSTRUCTION_LIST default_row.

(** The conversion of the opcode byte to the enumeration, [static_cast<Code>(i)]. *)
Definition Code_of (i : Z) : Code := row_code (row_at i).

Definition kInstructionFormats (i : Z) : Format := row_format (row_at i).
Definition kInstructionIndexTypes (i : Z) : IndexType := row_index (row_at i).
Definition kInstructionFlags (i : Z) : Z := row_flags (row_at i).
Definition kInstructionVerifyFlags (i : Z) : Z := row_verify (row_at i).

(** [INSTRUCTION_SIZE]: the size in code units the format gives; -1 for [NOP], whose payload
    encodings are variable length. *)
Definition INSTRUCTION_SIZE (opcode : Z) (format : Format) : Z :=
  let f := Format_value format in
  if opcode =? Code_value NOP then -1
  else if (Format_value k10x <=? f) && (f <=? Format_value k10t) then 1
  else if (Format_value k20t <=? f) && (f <=? Format_value k25x) then 2
  else if (Format_value k32x <=? f) && (f <=? Format_value k3rc) then 3
  else if f =? Format_value k51l then 5 else -1.

Definition kInstructionSizeInCodeUnits (i : Z) : Z :=
  INSTRUCTION_SIZE (row_opcode (row_at i)) (row_format (row_at i)).

Definition FormatOf (c : Code) : Format := kInstructionFormats (Code_value c).
Definition IndexTypeOf (c : Code) : IndexType := kInstructionIndexTypes (Code_value c).
Definition FlagsOf (c : Code) : Z := kInstructionFlags (Code_value c).
Definition VerifyFlagsOf (c : Code) : Z := kInstructionVerifyFlags (Code_value c).

Definition has_flag (flags mask : Z) : bool := negb (Z.land flags mask =? 0).

Definition IsBranch (c : Code) : bool := has_flag (FlagsOf c) kBranch.
Definition IsUnconditional (c : Code) : bool := has_flag (FlagsOf c) kUnconditional.
Definition IsSwitch (c : Code) : bool := has_flag (FlagsOf c) kSwitch.
Definition IsThrow (c : Code) : bool := has_flag (FlagsOf c) kThrow.
Definition IsReturn (c : Code) : bool := has_flag (FlagsOf c) kReturn.
Definition IsInvoke (c : Code) : bool := has_flag (FlagsOf c) kInvoke.
Definition IsExperimental (c : Code) : bool := has_flag (FlagsOf c) kExperimental.
Definition CanFlowThrough (c : Code) : bool := has_flag (FlagsOf c) kContinue.

Definition IsQuickened (c : Code) : bool :=
  bool_decide (IndexTypeOf c = kIndexFieldOffset)
  || bool_decide (IndexTypeOf c = kIndexVtableOffset).

Definition GetVerifyTypeArgumentA (c : Code) : Z :=
  Z.land (VerifyFlagsOf c) (kVerifyRegA .| kVerifyRegAWide).

Definition GetVerifyTypeArgumentB (c : Code) : Z :=
  Z.land (VerifyFlagsOf c)
    (kVerifyRegB .| kVerifyRegBField .| kVerifyRegBMethod .| kVerifyRegBNewInstance
     .| kVerifyRegBString .| kVerifyRegBType .| kVerifyRegBWide).

Definition GetVerifyTypeArgumentC (c : Code) : Z :=
  Z.land (VerifyFlagsOf c)
    (kVerifyRegC .| kVerifyRegCField .| kVerifyRegCNewArray .| kVerifyRegCType
     .| kVerifyRegCWide .| kVerifyRegCString).

Definition GetVerifyExtraFlags (c : Code) : Z :=
  Z.land (VerifyFlagsOf c)
    (kVerifyArrayData .| kVerifyBranchTarget .| kVerifySwitchTargets .| kVerifyVarArg
     .| kVerifyVarArgNonZero .| kVerifyVarArgRange .| kVerifyVarArgRangeNonZero
     .| kVerifyError).

Definition GetVerifyIsRuntimeOnly (c : Code) : bool :=
  has_flag (VerifyFlagsOf c) kVerifyRuntimeOnly.

(** ** Facts about the table *)

Lemma Code_of_value c : Code_of (Code_value c) = c.
Proof. destruct c; reflexivity. Qed.

Lemma Code_value_inj c1 c2 : Code_value c1 = Code_value c2 -> c1 = c2.
Proof. intros H. by rewrite <- (Code_of_value c1), H, Code_of_value. Qed.

Lemma Code_value_range c : in_u 8 (Code_value c).
Proof. destruct c; by vm_compute. Qed.

#[global] Instance Code_eq_dec : EqDecision Code.
Proof.
  refine (fun c1 c2 => match decide (Code_value c1 = Code_value c2) with
                       | left H => left (Code_value_inj _ _ H)
                       | right H => right (fun E => H (f_equal _ E))
                       end).
Defined.

(** Every index of a table of [n] rows, for checks by computation. *)
Definition indices (n : nat) : list Z := map Z.of_nat (seq 0 n).

Lemma indices_all n (P : Z -> Prop) :
  Forall P (indices n) <-> (forall i, 0 <= i < Z.of_nat n -> P i).
Proof.
  unfold indices. rewrite Forall_map, Forall_seq. split.
  - intros H i Hi. specialize (H (Z.to_nat i)). rewrite Z2Nat.id in H by lia. apply H; lia.
  - intros H j Hj. apply H. lia.
Qed.

Lemma Code_value_of i : in_u 8 i -> Code_value (Code_of i) = i.
Proof.
  revert i. apply (indices_all 256 (fun i => Code_value (Code_of i) = i)).
  apply Forall_forall. intros x Hx.
  assert (Forall (fun i => (Code_value (Code_of i) =? i) = true) (indices 256)) as H
    by (repeat constructor).
  rewrite Forall_forall in H. by apply Z.eqb_eq, H.
Qed.
