(* ===== verification/DexInstruction.v ===== *)
(** * Decoding of Dex instructions

    The class [Instruction] of runtime/dex_instruction.h, with its accessors of
    runtime/dex_instruction-inl.h.  An [Instruction*] points into the code units of a method;
    it is modelled by the memory of code units [insns] (a [uint16_t] for each index) and the
    index [pc] of the instruction's first unit.  Operands the code reads as C integers are
    integers with the conversions of the code written out. *)

From S2P Require Import Prelude DexOpcodes.

(** The code units a [const uint16_t*] points to, by index. *)
Definition code_units := Z -> Z.

(** Every unit is a [uint16_t]. *)
Definition units_ok (insns : code_units) : Prop := forall i, in_u 16 (insns i).

(** The code units of a finite array; the memory behind it is irrelevant and reads as 0. *)
Definition units_of (l : list Z) : code_units :=
  fun i => if i <? 0 then 0 else u16 (nth (Z.to_nat i) l 0).

Lemma units_of_ok l : units_ok (units_of l).
Proof.
  intros i. unfold units_of. destruct (i <? 0); [by vm_compute|]. by apply wrapu_range.
Qed.

(** Signatures of the pseudo-instructions that encode payloads. *)
Definition kPackedSwitchSignature : Z := 0x0100.
Definition kSparseSwitchSignature : Z := 0x0200.
Definition kArrayDataSignature : Z := 0x0300.

Section Decode.
Context (insns : code_units) (pc : Z).

Definition Fetch16 (offset : Z) : Z := insns (pc + offset).

Definition Fetch32 (offset : Z) : Z :=
  u32 (Z.lor (Fetch16 offset) (u32 (Z.shiftl (Fetch16 (offset + 1)) 16))).

Definition InstA (inst_data : Z) : Z := u8 (Z.land (Z.shiftr inst_data 8) 0x0f).
Definition InstB (inst_data : Z) : Z := u8 (Z.shiftr inst_data 12).
Definition InstAA (inst_data : Z) : Z := u8 (Z.shiftr inst_data 8).

Definition Opcode (inst_data : Z) : Code := Code_of (Z.land inst_data 0xFF).

(** ** vA *)
Definition VRegA_10t (d : Z) : Z := s8 (InstAA d).
Definition VRegA_10x (d : Z) : Z := InstAA d.
Definition VRegA_11n (d : Z) : Z := InstA d.
Definition VRegA_11x (d : Z) : Z := InstAA d.
Definition VRegA_12x (d : Z) : Z := InstA d.
Definition VRegA_20t : Z := s16 (Fetch16 1).
Definition VRegA_21c (d : Z) : Z := InstAA d.
Definition VRegA_21h (d : Z) : Z := InstAA d.
Definition VRegA_21s (d : Z) : Z := InstAA d.
Definition VRegA_21t (d : Z) : Z := InstAA d.
Definition VRegA_22b (d : Z) : Z := InstAA d.
Definition VRegA_22c (d : Z) : Z := InstA d.
Definition VRegA_22s (d : Z) : Z := InstA d.
Definition VRegA_22t (d : Z) : Z := InstA d.
Definition VRegA_22x (d : Z) : Z := InstAA d.
Definition VRegA_23x (d : Z) : Z := InstAA d.
Definition VRegA_30t : Z := s32 (Fetch32 1).
Definition VRegA_31c (d : Z) : Z := InstAA d.
Definition VRegA_31i (d : Z) : Z := InstAA d.
Definition VRegA_31t (d : Z) : Z := InstAA d.
Definition VRegA_32x : Z := Fetch16 1.
Definition VRegA_35c (d : Z) : Z := InstB d.
Definition VRegA_3rc (d : Z) : Z := InstAA d.
Definition VRegA_51l (d : Z) : Z := InstAA d.

(** ** vB *)
Definition VRegB_11n (d : Z) : Z := s8 (Z.shiftr (InstB d <<[32] 28) 28).
Definition VRegB_12x (d : Z) : Z := InstB d.
Definition VRegB_21c : Z := Fetch16 1.
Definition VRegB_21h : Z := Fetch16 1.
Definition VRegB_21s : Z := s16 (Fetch16 1).
Definition VRegB_21t : Z := s16 (Fetch16 1).
Definition VRegB_22b : Z := u8 (Z.land (Fetch16 1) 0xff).
Definition VRegB_22c (d : Z) : Z := InstB d.
Definition VRegB_22s (d : Z) : Z := InstB d.
Definition VRegB_22t (d : Z) : Z := InstB d.
Definition VRegB_22x : Z := Fetch16 1.
Definition VRegB_23x : Z := u8 (Z.land (Fetch16 1) 0xff).
Definition VRegB_25x : Z := InstB (Fetch16 0).
Definition VRegB_31c : Z := Fetch32 1.
Definition VRegB_31i : Z := s32 (Fetch32 1).
Definition VRegB_31t : Z := s32 (Fetch32 1).
Definition VRegB_32x : Z := Fetch16 2.
Definition VRegB_35c : Z := Fetch16 1.
Definition VRegB_3rc : Z := Fetch16 1.
Definition VRegB_51l : Z := u64 (Z.lor (Fetch32 1) (u64 (Z.shiftl (Fetch32 3) 32))).

(** ** vC *)
Definition VRegC_22b : Z := s8 (Z.shiftr (Fetch16 1) 8).
Definition VRegC_22c : Z := Fetch16 1.
Definition VRegC_22s : Z := s16 (Fetch16 1).
Definition VRegC_22t : Z := s16 (Fetch16 1).
Definition VRegC_23x : Z := u8 (Z.shiftr (Fetch16 1) 8).
Definition VRegC_25x : Z := u8 (Z.land (Fetch16 1) 0xf).
Definition VRegC_35c : Z := u8 (Z.land (Fetch16 2) 0x0f).
Definition VRegC_3rc : Z := Fetch16 2.

(** The opcode of the instruction at [pc]. *)
Definition opcode : Code := Opcode (Fetch16 0).
Definition format : Format := FormatOf opcode.

(** [VRegA()], [VRegB()], [VRegC()]: the operand as an [int32_t]; [None] is the fatal error
    on a format without it. *)
Definition VRegA : option Z :=
  let d := Fetch16 0 in
  match format with
  | k10t => Some (VRegA_10t d)
  | k10x => Some (VRegA_10x d)
  | k11n => Some (VRegA_11n d)
  | k11x => Some (VRegA_11x d)
  | k12x => Some (VRegA_12x d)
  | k20t => Some VRegA_20t
  | k21c => Some (VRegA_21c d)
  | k21h => Some (VRegA_21h d)
  | k21s => Some (VRegA_21s d)
  | k21t => Some (VRegA_21t d)
  | k22b => Some (VRegA_22b d)
  | k22c => Some (VRegA_22c d)
  | k22s => Some (VRegA_22s d)
  | k22t => Some (VRegA_22t d)
  | k22x => Some (VRegA_22x d)
  | k23x => Some (VRegA_23x d)
  | k30t => Some VRegA_30t
  | k31c => Some (VRegA_31c d)
  | k31i => Some (VRegA_31i d)
  | k31t => Some (VRegA_31t d)
  | k32x => Some VRegA_32x
  | k35c => Some (VRegA_35c d)
  | k3rc => Some (VRegA_3rc d)
  | k51l => Some (VRegA_51l d)
  | k25x => None
  end.

Definition VRegB : option Z :=
  let d := Fetch16 0 in
  match format with
  | k11n => Some (VRegB_11n d)
  | k12x => Some (VRegB_12x d)
  | k21c => Some VRegB_21c
  | k21h => Some VRegB_21h
  | k21s => Some VRegB_21s
  | k21t => Some VRegB_21t
  | k22b => Some VRegB_22b
  | k22c => Some (VRegB_22c d)
  | k22s => Some (VRegB_22s d)
  | k22t => Some (VRegB_22t d)
  | k22x => Some VRegB_22x
  | k23x => Some VRegB_23x
  | k25x => Some VRegB_25x
  | k31c => Some (s32 VRegB_31c)
  | k31i => Some VRegB_31i
  | k31t => Some VRegB_31t
  | k32x => Some VRegB_32x
  | k35c => Some VRegB_35c
  | k3rc => Some VRegB_3rc
  | k51l => Some (s32 VRegB_51l)
  | _ => None
  end.

Definition VRegC : option Z :=
  match format with
  | k22b => Some VRegC_22b
  | k22c => Some VRegC_22c
  | k22s => Some VRegC_22s
  | k22t => Some VRegC_22t
  | k23x => Some VRegC_23x
  | k25x => Some VRegC_25x
  | k35c => Some VRegC_35c
  | k3rc => Some VRegC_3rc
  | _ => None
  end.

Definition HasVRegA : bool :=
  match format with k25x => false | _ => true end.

Definition HasVRegB : bool :=
  match format with
  | k11n | k12x | k21c | k21h | k21s | k21t | k22b | k22c | k22s | k22t | k22x | k23x
  | k25x | k31c | k31i | k31t | k32x | k35c | k3rc | k51l => true
  | _ => false
  end.

Definition HasVRegC : bool :=
  match format with
  | k22b | k22c | k22s | k22t | k23x | k25x | k35c | k3rc => true
  | _ => false
  end.

Definition HasWideVRegB : bool := bool_decide (format = k51l).
Definition WideVRegB : Z := VRegB_51l.

(** [GetVarArgs]: writes the argument registers into [arg]; the cases fall through. *)
Definition GetVarArgs (arg : list Z) (inst_data : Z) : list Z :=
  let regList := Fetch16 2 in
  let count := InstB inst_data in
  let case5 a := <[4%nat := InstA inst_data]> a in
  let case4 a := <[3%nat := Z.land (Z.shiftr regList 12) 0x0f]> a in
  let case3 a := <[2%nat := Z.land (Z.shiftr regList 8) 0x0f]> a in
  let case2 a := <[1%nat := Z.land (Z.shiftr regList 4) 0x0f]> a in
  let case1 a := <[0%nat := Z.land regList 0x0f]> a in
  if count =? 5 then case1 (case2 (case3 (case4 (case5 arg))))
  else if count =? 4 then case1 (case2 (case3 (case4 arg)))
  else if count =? 3 then case1 (case2 (case3 arg))
  else if count =? 2 then case1 (case2 arg)
  else if count =? 1 then case1 arg
  else arg.

(** [GetAllArgs25x]: the closure pair and the argument registers of [invoke-lambda]. *)
Definition GetAllArgs25x (arg : list Z) : list Z :=
  let reg_list := Fetch16 1 in
  let count := VRegB_25x in
  let case4 a := <[5%nat := Z.land (Z.shiftr (Fetch16 0) 8) 0x0f]> a in
  let case3 a := <[4%nat := Z.land (Z.shiftr reg_list 12) 0x0f]> a in
  let case2 a := <[3%nat := Z.land (Z.shiftr reg_list 8) 0x0f]> a in
  let case1 a := <[2%nat := Z.land (Z.shiftr reg_list 4) 0x0f]> a in
  let case0 a := <[1%nat := VRegC_25x + 1]> (<[0%nat := VRegC_25x]> a) in
  if count =? 4 then case0 (case1 (case2 (case3 (case4 arg))))
  else if count =? 3 then case0 (case1 (case2 (case3 arg)))
  else if count =? 2 then case0 (case1 (case2 arg))
  else if count =? 1 then case0 (case1 arg)
  else case0 arg.

(** [GetTargetOffset]: the branch offset; [None] is the fatal error. *)
Definition GetTargetOffset : option Z :=
  let d := Fetch16 0 in
  match format with
  | k22t => Some VRegC_22t
  | k21t => Some VRegB_21t
  | k10t => Some (VRegA_10t d)
  | k20t => Some VRegA_20t
  | k30t => Some VRegA_30t
  | _ => None
  end.

(** [SizeInCodeUnitsComplexOpcode]: the length of a payload encoded as a [NOP]; [None] is the
    unreachable case.  The multiplication of the array data is in [uint32_t]. *)
Definition SizeInCodeUnitsComplexOpcode : option Z :=
  let ident := Fetch16 0 in
  if ident =? kPackedSwitchSignature then Some (4 + Fetch16 1 * 2)
  else if ident =? kSparseSwitchSignature then Some (2 + Fetch16 1 * 4)
  else if ident =? kArrayDataSignature then
    let element_size := Fetch16 1 in
    let length := u32 (Z.lor (Fetch16 2) (u32 (Z.shiftl (Fetch16 3) 16))) in
    Some (u32 (4 + u32 (element_size * length + 1) / 2))
  else if Z.land ident 0xFF =? 0 then Some 1
  else None.

Definition SizeInCodeUnits : option Z :=
  let result := kInstructionSizeInCodeUnits (Code_value opcode) in
  if result <? 0 then SizeInCodeUnitsComplexOpcode else Some result.

(** [RelativeAt], [Next] and the specialised [Next_*]: the index of another instruction. *)
Definition RelativeAt (offset : Z) : Z := pc + offset.
Definition Next : option Z := RelativeAt <$> SizeInCodeUnits.
Definition Next_1xx : Z := RelativeAt 1.
Definition Next_2xx : Z := RelativeAt 2.
Definition Next_3xx : Z := RelativeAt 3.
Definition Next_51l : Z := RelativeAt 5.
End Decode.

Create HintDb vreg.
#[export] Hint Unfold VRegA_10t VRegA_10x VRegA_11n VRegA_11x VRegA_12x VRegA_20t VRegA_21c
  VRegA_21h VRegA_21s VRegA_21t VRegA_22b VRegA_22c VRegA_22s VRegA_22t VRegA_22x VRegA_23x
  VRegA_30t VRegA_31c VRegA_31i VRegA_31t VRegA_32x VRegA_35c VRegA_3rc VRegA_51l VRegB_12x
  VRegB_21c VRegB_21h VRegB_21s VRegB_21t VRegB_22b VRegB_22c VRegB_22s VRegB_22t VRegB_22x
  VRegB_23x VRegB_31c VRegB_31i VRegB_31t VRegB_32x VRegB_35c VRegB_3rc VRegC_22b VRegC_22c
  VRegC_22s VRegC_22t VRegC_23x VRegC_35c VRegC_3rc : vreg.

(** ** Arithmetic view of the operand fields *)
Section Fields.
Context (insns : code_units) (pc : Z) (Hok : units_ok insns).

Lemma Fetch16_range o : 0 <= Fetch16 insns pc o < 65536.
Proof. apply Hok. Qed.

Lemma Fetch32_eq o :
  Fetch32 insns pc o = Fetch16 insns pc o + 65536 * Fetch16 insns pc (o + 1).
Proof.
  unfold Fetch32. pose proof (Fetch16_range o). pose proof (Fetch16_range (o + 1)).
  rewrite (wrapu_small 32 (Z.shiftl _ _)); [|bits_to_arith; unfold_width; lia].
  rewrite lor_shiftl_add by lia. unfold_width. dlia.
Qed.

Lemma InstAA_eq o : InstAA (Fetch16 insns pc o) = Fetch16 insns pc o / 256.
Proof. unfold InstAA. pose proof (Fetch16_range o). bits_to_arith. unfold_width. dlia. Qed.

Lemma InstA_eq o : InstA (Fetch16 insns pc o) = Fetch16 insns pc o / 256 mod 16.
Proof. unfold InstA. pose proof (Fetch16_range o). bits_to_arith. unfold_width. dlia. Qed.

Lemma InstB_eq o : InstB (Fetch16 insns pc o) = Fetch16 insns pc o / 4096.
Proof. unfold InstB. pose proof (Fetch16_range o). bits_to_arith. unfold_width. dlia. Qed.

Lemma opcode_value : Code_value (opcode insns pc) = Fetch16 insns pc 0 mod 256.
Proof.
  unfold opcode, Opcode. rewrite land_0xff. apply Code_value_of.
  unfold_width. pose proof (Fetch16_range 0). dlia.
Qed.

Lemma VRegB_11n_eq :
  VRegB_11n (Fetch16 insns pc 0) = s4 (Fetch16 insns pc 0 / 4096).
Proof.
  unfold VRegB_11n. rewrite InstB_eq. pose proof (Fetch16_range 0).
  bits_to_arith. unfold_width. dlia.
Qed.
End Fields.

(** ** Decoding loses no information

    [reassemble op f A B C W] lays out the operands of format [f] (the layouts of the comments
    of [enum Format]); [W] is the wide operand of [k51l]. *)
Definition reassemble (op : Z) (f : Format) (A B C W : Z) : list Z :=
  let half v := [v mod 65536; v / 65536 mod 65536] in
  match f with
  | k10x | k11x => [op + 256 * A]
  | k10t => [op + 256 * u8 A]
  | k11n => [op + 256 * A + 4096 * u4 B]
  | k12x => [op + 256 * A + 4096 * B]
  | k20t => [op; u16 A]
  | k21c | k21h | k22x => [op + 256 * A; B]
  | k21s | k21t => [op + 256 * A; u16 B]
  | k22b => [op + 256 * A; B + 256 * u8 C]
  | k23x => [op + 256 * A; B + 256 * C]
  | k22c => [op + 256 * A + 4096 * B; C]
  | k22s | k22t => [op + 256 * A + 4096 * B; u16 C]
  | k30t => op :: half (u32 A)
  | k31c | k31i | k31t => op + 256 * A :: half (u32 B)
  | k32x => [op; A; B]
  | k3rc => [op + 256 * A; B; C]
  | k51l => op + 256 * A :: half W ++ half (W / 2 ^ 32)
  | k25x | k35c => []
  end.

(** Number of units of an encoding of the format. *)
Definition format_units (f : Format) : nat := Z.to_nat (INSTRUCTION_SIZE (-1) f).

(** The formats whose first unit has an unused high byte. *)
Definition unused_high_byte (f : Format) : bool :=
  match f with k20t | k30t | k32x => true | _ => false end.

Lemma VRegB_51l_eq insns pc :
  units_ok insns ->
  VRegB_51l insns pc = Fetch32 insns pc 1 + 2 ^ 32 * Fetch32 insns pc 3.
Proof.
  intros Hok. unfold VRegB_51l.
  pose proof (wrapu_range 32 ltac:(lia) (Z.lor (Fetch16 insns pc 1)
    (u32 (Z.shiftl (Fetch16 insns pc 2) 16)))) as H1.
  pose proof (wrapu_range 32 ltac:(lia) (Z.lor (Fetch16 insns pc 3)
    (u32 (Z.shiftl (Fetch16 insns pc 4) 16)))) as H3.
  change (in_u 32 (Fetch32 insns pc 1)) in H1. change (in_u 32 (Fetch32 insns pc 3)) in H3.
  unfold in_u in *.
  rewrite (wrapu_small 64 (Z.shiftl _ _)); [|bits_to_arith; unfold in_u; lia].
  rewrite lor_shiftl_add by lia. rewrite wrapu_small; [lia|unfold in_u; lia].
Qed.



(** ** Argument registers of the variable-argument formats *)

(** [GetVarArgs] on a verified instruction (at most five arguments) stores the register
    of each argument, the fifth from the A field and the others from the nibbles of the third
    unit, and leaves the rest of the array alone. *)
Theorem GetVarArgs_spec insns pc (arg : list Z) (i : nat) :
  units_ok insns -> length arg = 5%nat -> InstB (Fetch16 insns pc 0) <= 5 ->
  GetVarArgs insns pc arg (Fetch16 insns pc 0) !! i
  = if Z.of_nat i <? InstB (Fetch16 insns pc 0) then
      Some (if (i =? 4)%nat then InstA (Fetch16 insns pc 0)
            else Fetch16 insns pc 2 / 16 ^ Z.of_nat i mod 16)
    else arg !! i.
Proof.
  intros Hok Hlen Hc. unfold GetVarArgs.
  assert (0 <= InstB (Fetch16 insns pc 0)) by apply wrapu_range, eq_refl.
  rewrite !land_0xf, !Z.shiftr_div_pow2 by lia.
  destruct arg as [|a0 [|a1 [|a2 [|a3 [|a4 [|]]]]]]; try done.
  remember (InstB (Fetch16 insns pc 0)) as c.
  assert (c = 0 \/ c = 1 \/ c = 2 \/ c = 3 \/ c = 4 \/ c = 5) as Hcases by lia.
  destruct (decide (i < 5)%nat) as [Hi|Hi].
  - assert (i = 0 \/ i = 1 \/ i = 2 \/ i = 3 \/ i = 4)%nat as Hi' by lia.
    destruct_or! Hi'; destruct_or! Hcases; subst i; rewrite Hcases; cbn; by rewrite ?Z.div_1_r.
  - destruct (Z.ltb_spec (Z.of_nat i) c); [lia|].
    do 5 (destruct i as [|i]; [lia|]). destruct_or! Hcases; by rewrite Hcases.
Qed.

(** [invoke-virtual {v1, v2, v3, v4, v6}] *)
Lemma GetVarArgs_spec_witness :
  GetVarArgs (units_of [0x566e; 0; 0x4321]) 0 [0; 0; 0; 0; 0] 0x566e !! 4%nat = Some 6
  /\ GetVarArgs (units_of [0x566e; 0; 0x4321]) 0 [0; 0; 0; 0; 0] 0x566e !! 3%nat = Some 4.
Proof.
  split.
  - apply (GetVarArgs_spec (units_of [0x566e; 0; 0x4321]) 0 [0; 0; 0; 0; 0] 4);
      [apply units_of_ok|done|vm_compute; done].
  - apply (GetVarArgs_spec (units_of [0x566e; 0; 0x4321]) 0 [0; 0; 0; 0; 0] 3);
      [apply units_of_ok|done|vm_compute; done].
Defined.
