(* ===== verification/Floats.v ===== *)
(** * The C types [float] and [double]

    A floating-point register holds a bit pattern.  This file decodes bit patterns to the
    IEEE 754 specification floats of the standard library ([SpecFloat], round to nearest even)
    and encodes results back, for binary32 and binary64, and models what the interpreter and
    the optimizing compiler use of the language: arithmetic, comparison, [fmod]/[fmodf] and the
    conversions.  The payload and the sign of a NaN that an arithmetic operation produces are
    not specified by the language; the encoder returns the quiet NaN. *)

From Stdlib Require Import SpecFloat.
From S2P Require Import Prelude.

(** A binary interchange format: precision, largest exponent, width of the exponent field. *)
Record fformat := mkFormat { prec : Z; emax : Z; ebits : Z }.

Definition binary32 : fformat := mkFormat 24 128 8.
Definition binary64 : fformat := mkFormat 53 1024 11.

Section Format.
Context (F : fformat).

Definition mbits : Z := prec F - 1.
Definition femin : Z := SpecFloat.emin (prec F) (emax F).
Definition sign_bit (b : Z) : bool := Z.testbit b (mbits + ebits F).
Definition exp_field (b : Z) : Z := Z.land (Z.shiftr b mbits) (Z.ones (ebits F)).
Definition man_field (b : Z) : Z := Z.land b (Z.ones mbits).

(** The value of a bit pattern. *)
Definition decode (b : Z) : spec_float :=
  let s := sign_bit b in
  let e := exp_field b in
  let m := man_field b in
  if e =? Z.ones (ebits F) then (if m =? 0 then S754_infinity s else S754_nan)
  else if e =? 0 then
    match m with Zpos p => S754_finite s p femin | _ => S754_zero s end
  else
    match m + 2 ^ mbits with Zpos p => S754_finite s p (femin + e - 1) | _ => S754_nan end.

Definition pack (s : bool) (e m : Z) : Z :=
  Z.b2z s * 2 ^ (mbits + ebits F) + e * 2 ^ mbits + m.

(** The bit pattern of a value. *)
Definition encode (x : spec_float) : Z :=
  match x with
  | S754_zero s => pack s 0 0
  | S754_infinity s => pack s (Z.ones (ebits F)) 0
  | S754_nan => pack false (Z.ones (ebits F)) (2 ^ (mbits - 1))
  | S754_finite s m e =>
      if Zpos m <? 2 ^ mbits then pack s 0 (Zpos m)
      else pack s (e - femin + 1) (Zpos m - 2 ^ mbits)
  end.

(** Arithmetic on bit patterns. *)
Definition fadd (a b : Z) : Z := encode (SFadd (prec F) (emax F) (decode a) (decode b)).
Definition fsub (a b : Z) : Z := encode (SFsub (prec F) (emax F) (decode a) (decode b)).
Definition fmul (a b : Z) : Z := encode (SFmul (prec F) (emax F) (decode a) (decode b)).
Definition fdiv (a b : Z) : Z := encode (SFdiv (prec F) (emax F) (decode a) (decode b)).

(** Unary minus flips the sign bit. *)
Definition fneg (a : Z) : Z := Z.lxor a (2 ^ (mbits + ebits F)).

(** [fmod]: the exact remainder of the truncated quotient, with the sign of [x]. *)
Definition SFmod (x y : spec_float) : spec_float :=
  match x, y with
  | S754_nan, _ | _, S754_nan | S754_infinity _, _ | _, S754_zero _ => S754_nan
  | _, S754_infinity _ => x
  | S754_zero _, _ => x
  | S754_finite sx mx ex, S754_finite _ my ey =>
      let e := Z.min ex ey in
      let r := (Zpos mx * 2 ^ (ex - e)) mod (Zpos my * 2 ^ (ey - e)) in
      if r =? 0 then S754_zero sx
      else binary_normalize (prec F) (emax F) (if sx then - r else r) e sx
  end.
Definition frem (a b : Z) : Z := encode (SFmod (decode a) (decode b)).

(** Comparisons; all are false on a NaN. *)
Definition flt (a b : Z) : bool := SFltb (decode a) (decode b).
Definition fgt (a b : Z) : bool := SFltb (decode b) (decode a).
Definition feq (a b : Z) : bool := SFeqb (decode a) (decode b).

Definition is_nan (x : spec_float) : bool :=
  match x with S754_nan => true | _ => false end.

(** Conversion of an integer, correctly rounded. *)
Definition SFofZ (z : Z) : spec_float := binary_normalize (prec F) (emax F) z 0 false.
Definition fofZ (z : Z) : Z := encode (SFofZ z).

(** Truncation towards zero of a finite value. *)
Definition SFtrunc (x : spec_float) : Z :=
  match x with
  | S754_finite s m e =>
      let v := if 0 <=? e then Zpos m * 2 ^ e else Zpos m / 2 ^ (- e) in
      if s then - v else v
  | _ => 0
  end.
End Format.

(** Conversion between the two formats. *)
Definition SFconvert (G : fformat) (x : spec_float) : spec_float :=
  match x with
  | S754_finite s m e => binary_normalize (prec G) (emax G) (if s then Zneg m else Zpos m) e s
  | _ => x
  end.
Definition fconvert (F G : fformat) (a : Z) : Z := encode G (SFconvert G (decode F a)).

(** [art_float_to_integral] of runtime/entrypoints/entrypoint_utils-inl.h, to [int<w>_t].  The
    cast in the inner branch is in range there (see [art_float_to_integral_java]). *)
Definition art_float_to_integral (F : fformat) (w : Z) (f : Z) : Z :=
  let kMaxInt := 2 ^ (w - 1) - 1 in
  let kMinInt := - 2 ^ (w - 1) in
  let kMaxIntAsFloat := SFofZ F kMaxInt in
  let kMinIntAsFloat := SFofZ F kMinInt in
  let v := decode F f in
  if SFltb kMinIntAsFloat v then
    if SFltb v kMaxIntAsFloat then SFtrunc v else kMaxInt
  else if negb (SFeqb v v) then 0 else kMinInt.

(** 1.5f + 2.25f = 3.75f, 7.5 rem 2 = 1.5, (float)16777217 rounds to even. *)
Example fadd_ex : fadd binary32 0x3fc00000 0x40100000 = 0x40700000.
Proof. vm_compute. reflexivity. Qed.
Example frem_ex : frem binary64 0x401e000000000000 0x4000000000000000 = 0x3ff8000000000000.
Proof. vm_compute. reflexivity. Qed.
Example fofZ_ex : fofZ binary32 16777217 = 0x4b800000.
Proof. vm_compute. reflexivity. Qed.
Example ftoi_ex : art_float_to_integral binary32 32 0xc0600000 = -3.
Proof. vm_compute. reflexivity. Qed.
Example ftoi_sat : art_float_to_integral binary32 32 0x7f800000 = INT32_MAX.
Proof. vm_compute. reflexivity. Qed.

(** ** Order of canonical values *)
Section Canonical.
Context (F : fformat) (Hprec : 1 < prec F) (Hebits : 0 < ebits F).

(** Canonical values: what [decode] returns. *)
Definition canonical (x : spec_float) : Prop :=
  match x with
  | S754_finite _ m e =>
      Zpos m < 2 ^ prec F /\ femin F <= e /\ (e = femin F \/ 2 ^ (prec F - 1) <= Zpos m)
  | _ => True
  end.

Definition is_finite (x : spec_float) : bool :=
  match x with S754_finite _ _ _ | S754_zero _ => true | _ => false end.

(** The value of a finite float in units of the smallest subnormal. *)
Definition scaled (x : spec_float) : Z :=
  match x with
  | S754_finite s m e => cond_Zopp s (Zpos m * 2 ^ (e - femin F))
  | _ => 0
  end.

Lemma prec_split : 2 ^ prec F = 2 * 2 ^ (prec F - 1).
Proof. apply pow2_split. lia. Qed.

Lemma decode_canonical b : canonical (decode F b).
Proof.
  unfold decode. set (e := exp_field F b).
  assert (0 <= man_field F b < 2 ^ mbits F) as Hm.
  { unfold man_field. rewrite Z.land_ones by (unfold mbits; lia).
    apply Z.mod_pos_bound, Z.pow_pos_nonneg; unfold mbits; lia. }
  assert (0 <= e) as He.
  { apply Z.land_nonneg. right. rewrite Z.ones_equiv.
    pose proof (Z.pow_pos_nonneg 2 (ebits F)). lia. }
  unfold mbits in *. pose proof prec_split.
  destruct (e =? Z.ones (ebits F)); [by destruct (man_field F b =? 0)|].
  destruct (Z.eqb_spec e 0) as [|He0].
  - destruct (man_field F b) eqn:E; cbn; [done| |done]. split; [lia|]. split; [lia|by left].
  - destruct (man_field F b + 2 ^ (prec F - 1)) as [|p|p] eqn:E; cbn; try done.
    split; [lia|]. split; [lia|]. right. lia.
Qed.

(** Comparison of magnitudes by exponent then mantissa. *)
Definition mag_compare (m1 : positive) (e1 : Z) (m2 : positive) (e2 : Z) : comparison :=
  match e1 ?= e2 with Lt => Lt | Gt => Gt | Eq => (m1 ?= m2)%positive end.

Lemma mag_lt s1 s2 m1 e1 m2 e2 :
  canonical (S754_finite s1 m1 e1) -> canonical (S754_finite s2 m2 e2) -> e1 < e2 ->
  Zpos m1 * 2 ^ (e1 - femin F) < Zpos m2 * 2 ^ (e2 - femin F).
Proof.
  intros (Hm1 & He1 & _) (_ & He2 & Hn2) Hlt. cbn in *.
  pose proof prec_split.
  assert (2 ^ (prec F - 1) <= Zpos m2) as Hm2 by (destruct Hn2; lia).
  replace (e2 - femin F) with ((e1 - femin F) + 1 + (e2 - e1 - 1)) by lia.
  rewrite !Z.pow_add_r by lia.
  pose proof (Z.pow_pos_nonneg 2 (e1 - femin F) ltac:(lia) ltac:(lia)).
  pose proof (Z.pow_pos_nonneg 2 (e2 - e1 - 1) ltac:(lia) ltac:(lia)).
  change (2 ^ 1) with 2. set (A := 2 ^ (e1 - femin F)) in *. set (C := 2 ^ (e2 - e1 - 1)) in *.
  assert (Zpos m1 < Zpos m2 * 2 * C) by nia.
  replace (Zpos m2 * (A * 2 * C)) with (Zpos m2 * 2 * C * A) by ring.
  by apply Z.mul_lt_mono_pos_r.
Qed.

Lemma mag_compare_scaled s1 s2 m1 e1 m2 e2 :
  canonical (S754_finite s1 m1 e1) -> canonical (S754_finite s2 m2 e2) ->
  mag_compare m1 e1 m2 e2 = (Zpos m1 * 2 ^ (e1 - femin F) ?= Zpos m2 * 2 ^ (e2 - femin F)).
Proof.
  intros H1 H2. unfold mag_compare. destruct (Z.compare_spec e1 e2) as [->|Hlt|Hgt].
  - assert (0 < 2 ^ (e2 - femin F)) as Hp
      by (apply Z.pow_pos_nonneg; cbn in H1; lia).
    rewrite <- (Zmult_compare_compat_r (Zpos m1) (Zpos m2)) by lia. done.
  - symmetry. apply Z.compare_lt_iff. by eapply mag_lt.
  - symmetry. apply Z.compare_gt_iff. by eapply mag_lt.
Qed.

Lemma scaled_pos m e : canonical (S754_finite false m e) -> 0 < Zpos m * 2 ^ (e - femin F).
Proof. cbn. intros. apply Z.mul_pos_pos, Z.pow_pos_nonneg; lia. Qed.

Lemma SFcompare_scaled x y :
  canonical x -> canonical y -> is_finite x = true -> is_finite y = true ->
  SFcompare x y = Some (scaled x ?= scaled y).
Proof.
  intros Hx Hy Fx Fy.
  destruct x as [s1| | |s1 m1 e1], y as [s2| | |s2 m2 e2]; try done;
    cbn [SFcompare scaled cond_Zopp];
    [pose proof (scaled_pos m2 e2 Hy)|pose proof (scaled_pos m1 e1 Hx)|
     pose proof (scaled_pos m1 e1 Hx); pose proof (scaled_pos m2 e2 Hy)].
  - f_equal. symmetry. destruct s2; cbn [cond_Zopp]; [apply Z.compare_gt_iff|apply Z.compare_lt_iff]; lia.
  - f_equal. symmetry. destruct s1; cbn [cond_Zopp]; [apply Z.compare_lt_iff|apply Z.compare_gt_iff]; lia.
  - f_equal. pose proof (mag_compare_scaled s1 s2 m1 e1 m2 e2 Hx Hy) as Hmag.
    unfold mag_compare, Pos.compare in Hmag.
    destruct s1, s2; cbn [cond_Zopp].
    + rewrite Z.compare_opp.
      rewrite (Z.compare_antisym (Zpos m1 * 2 ^ (e1 - femin F))), <- Hmag.
      by destruct (e1 ?= e2).
    + symmetry. apply Z.compare_lt_iff. lia.
    + symmetry. apply Z.compare_gt_iff. lia.
    + done.
Qed.

Lemma SFltb_scaled x y :
  canonical x -> canonical y -> is_finite x = true -> is_finite y = true ->
  SFltb x y = (scaled x <? scaled y).
Proof.
  intros. unfold SFltb, Z.ltb. rewrite SFcompare_scaled by done. by destruct (_ ?= _).
Qed.

Lemma SFtrunc_scaled x :
  canonical x -> femin F <= 0 -> SFtrunc x = Z.quot (scaled x) (2 ^ (- femin F)).
Proof.
  intros Hx Hmin. destruct x as [| | |s m e]; try (cbn; by rewrite Z.quot_0_l by lia).
  cbn in Hx |- *.
  assert (0 < 2 ^ (- femin F)) by (apply Z.pow_pos_nonneg; lia).
  assert ((if 0 <=? e then Z.pos m * 2 ^ e else Z.pos m / 2 ^ (- e))
          = Z.quot (Zpos m * 2 ^ (e - femin F)) (2 ^ (- femin F))) as ->.
  { rewrite Z.quot_div_nonneg by (try apply Z.mul_nonneg_nonneg; try apply Z.pow_nonneg; lia).
    destruct (Z.leb_spec 0 e).
    - replace (e - femin F) with (e + - femin F) by lia.
      rewrite Z.pow_add_r by lia. by rewrite Z.mul_assoc, Z.div_mul by lia.
    - replace (- femin F) with ((e - femin F) + - e) by lia.
      rewrite Z.pow_add_r by lia.
      rewrite (Z.mul_comm (2 ^ (e - femin F))), Z.div_mul_cancel_r; [done| |];
        apply Z.pow_nonzero; lia. }
  destruct s; cbn [cond_Zopp]; [|done]. by rewrite Z.quot_opp_l by lia.
Qed.
End Canonical.

(** ** Saturating conversion to integers *)

(** The conversion the Java language specifies: NaN is 0, anything else is truncated towards
    zero and clamped to the target range. *)
Definition java_float_to_int (w : Z) (x : spec_float) : Z :=
  let kMaxInt := 2 ^ (w - 1) - 1 in
  let kMinInt := - 2 ^ (w - 1) in
  match x with
  | S754_nan => 0
  | S754_infinity s => if s then kMinInt else kMaxInt
  | _ => Z.max kMinInt (Z.min kMaxInt (SFtrunc x))
  end.

Section Clamp.
Context (F : fformat) (Hprec : 1 < prec F) (Hebits : 0 < ebits F) (Hmin : femin F <= 0).
Context (kmin kmax : spec_float) (w K : Z) (Hw : 0 < w).
Let S : Z := 2 ^ (- femin F).
Let kMaxInt : Z := 2 ^ (w - 1) - 1.
Let kMinInt : Z := - 2 ^ (w - 1).
Context (Hkmin : canonical F kmin /\ is_finite kmin = true /\ scaled F kmin = kMinInt * S).
Context (Hkmax : canonical F kmax /\ is_finite kmax = true /\ scaled F kmax = K * S).
Context (HK : kMaxInt <= K <= kMaxInt + 1).

Lemma clamp_generic v :
  canonical F v ->
  (if SFltb kmin v then if SFltb v kmax then SFtrunc v else kMaxInt
   else if negb (SFeqb v v) then 0 else kMinInt) = java_float_to_int w v.
Proof.
  intros Hv. destruct Hkmin as (Cmin & Fmin & Smin), Hkmax as (Cmax & Fmax & Smax).
  assert (0 < S) as HS by (apply Z.pow_pos_nonneg; lia).
  pose proof (pow2_half_pos w Hw) as Hhalf.
  destruct (is_finite v) eqn:Fv.
  - rewrite !(SFltb_scaled F) by done.
    assert (SFeqb v v = true) as ->.
    { unfold SFeqb. by rewrite (SFcompare_scaled F), Z.compare_refl by done. }
    assert (java_float_to_int w v = Z.max kMinInt (Z.min kMaxInt (SFtrunc v))) as ->
      by (by destruct v).
    rewrite (SFtrunc_scaled F) by done. rewrite Smin, Smax. fold S.
    subst kMaxInt kMinInt. set (q := Z.quot (scaled F v) S).
    pose proof (Z.quot_rem (scaled F v) S ltac:(lia)) as Hdm. fold q in Hdm.
    assert (- S < Z.rem (scaled F v) S < S) as Hr
      by (pose proof (Z.rem_bound_abs (scaled F v) S); lia).
    assert (0 <= scaled F v -> 0 <= q) by (intros; apply Z.quot_pos; lia).
    assert (scaled F v <= 0 -> q <= 0)
      by (intros; subst q; rewrite <- (Z.opp_involutive (scaled F v)), Z.quot_opp_l by lia;
          apply Z.opp_nonpos_nonneg, Z.quot_pos; lia).
    assert (0 <= scaled F v -> 0 <= Z.rem (scaled F v) S) by (intros; apply Z.rem_nonneg; lia).
    assert (scaled F v <= 0 -> Z.rem (scaled F v) S <= 0) by (intros; apply Z.rem_nonpos; lia).
    case_bool; cbn [negb]; nia.
  - destruct v as [|[]| |]; try done; destruct kmin, kmax; done.
Qed.
End Clamp.

Ltac clamp_side := first [by apply decode_canonical | vm_compute; intuition congruence].

Lemma art_float_to_integral_java F w f :
  (F = binary32 \/ F = binary64) -> (w = 32 \/ w = 64) ->
  art_float_to_integral F w f = java_float_to_int w (decode F f).
Proof.
  intros [-> | ->] [-> | ->]; unfold art_float_to_integral.
  - apply (clamp_generic binary32) with (K := 2 ^ 31); clamp_side.
  - apply (clamp_generic binary32) with (K := 2 ^ 63); clamp_side.
  - apply (clamp_generic binary64) with (K := 2 ^ 31 - 1); clamp_side.
  - apply (clamp_generic binary64) with (K := 2 ^ 63); clamp_side.
Qed.

(** C27. The saturating conversions of the runtime ([float-to-int], [float-to-long],
    [double-to-int], [double-to-long]) compute what the language specifies for every bit
    pattern: 0 for a NaN, otherwise the value truncated towards zero and clamped to the target
    range, although the upper limit is not representable in three of the four cases. *)
Theorem float_to_integral_clamp F w f :
  (F = binary32 \/ F = binary64) -> (w = 32 \/ w = 64) ->
  art_float_to_integral F w f = java_float_to_int w (decode F f).
Proof. apply art_float_to_integral_java. Qed.
Lemma float_to_integral_clamp_witness :
  art_float_to_integral binary32 64 0x5f000000
  = java_float_to_int 64 (decode binary32 0x5f000000)
  /\ java_float_to_int 64 (decode binary32 0x5f000000) = 2 ^ 63 - 1.
Proof.
  split; [|vm_compute; reflexivity].
  apply (float_to_integral_clamp binary32 64 0x5f000000); auto.
Defined.
