(* ===== verification/ShadowFrame.v ===== *)
(** * Interpreter frames

    The class [ShadowFrame] of runtime/stack.h and the union [JValue] of runtime/jvalue.h.

    [vregs_] is the two-part array of the class: words [0..N) are the raw virtual registers,
    words [N..2N) the copies of the registers that hold references ([References()]).  Both
    parts live in one array, as in the code, so an access past the last register reaches the
    reference part.  A reference is its 32-bit compressed word, null is 0; a [float] or
    [double] register is its bit pattern. *)

From S2P Require Import Prelude.

Record ShadowFrame := mkShadowFrame {
  number_of_vregs_ : Z;
  vregs_ : list Z;
  dex_pc_ : Z;
  (** [dex_pc_ptr_] as an index into the method's code units. *)
  dex_pc_ptr_ : option Z
}.

(** [CreateShadowFrameImpl]: the constructor clears both parts of the array. *)
Definition CreateShadowFrameImpl (num_vregs dex_pc : Z) : ShadowFrame :=
  mkShadowFrame num_vregs (replicate (Z.to_nat (2 * num_vregs)) 0) dex_pc None.

Definition set_words (f : ShadowFrame) (l : list Z) : ShadowFrame :=
  mkShadowFrame (number_of_vregs_ f) l (dex_pc_ f) (dex_pc_ptr_ f).

Definition GetDexPC (f : ShadowFrame) : Z :=
  match dex_pc_ptr_ f with None => dex_pc_ f | Some p => u32 p end.

Definition SetDexPC (f : ShadowFrame) (dex_pc : Z) : ShadowFrame :=
  mkShadowFrame (number_of_vregs_ f) (vregs_ f) (u32 dex_pc) None.

(** A word of the array, and the index of the reference slot of a register. *)
Definition word (f : ShadowFrame) (i : Z) : Z := rd (vregs_ f) i.
Definition ref_slot (f : ShadowFrame) (i : Z) : Z := number_of_vregs_ f + i.

Definition GetVReg (f : ShadowFrame) (i : Z) : Z := s32 (word f i).

(** The bit pattern of the [float] in register [i]. *)
Definition GetVRegFloat (f : ShadowFrame) (i : Z) : Z := word f i.

(** The 64-bit value read through a pointer to register [i] (little endian). *)
Definition pair_word (f : ShadowFrame) (i : Z) : Z := word f i + 2 ^ 32 * word f (i + 1).

Definition GetVRegLong (f : ShadowFrame) (i : Z) : Z := s64 (pair_word f i).

(** The bit pattern of the [double] in registers [i], [i + 1]. *)
Definition GetVRegDouble (f : ShadowFrame) (i : Z) : Z := pair_word f i.

Definition GetVRegReference (f : ShadowFrame) (i : Z) : Z := word f (ref_slot f i).

(** [SetVReg]: with a moving collector the reference copy is cleared. *)
Definition SetVReg (f : ShadowFrame) (i val : Z) : ShadowFrame :=
  set_words f (wr (wr (vregs_ f) i (u32 val)) (ref_slot f i) 0).

Definition SetVRegFloat (f : ShadowFrame) (i bits : Z) : ShadowFrame :=
  set_words f (wr (wr (vregs_ f) i (u32 bits)) (ref_slot f i) 0).

(** A 64-bit store through a pointer to register [i]. *)
Definition wr_pair (l : list Z) (i val : Z) : list Z :=
  wr (wr l i (u32 val)) (i + 1) (u32 (Z.shiftr val 32)).

Definition SetVRegLong (f : ShadowFrame) (i val : Z) : ShadowFrame :=
  set_words f (wr (wr (wr_pair (vregs_ f) i val) (ref_slot f i) 0) (ref_slot f (i + 1)) 0).

Definition SetVRegDouble (f : ShadowFrame) (i bits : Z) : ShadowFrame :=
  set_words f (wr (wr (wr_pair (vregs_ f) i bits) (ref_slot f i) 0) (ref_slot f (i + 1)) 0).

Definition SetVRegReference (f : ShadowFrame) (i val : Z) : ShadowFrame :=
  set_words f (wr (wr (vregs_ f) i (u32 val)) (ref_slot f i) (u32 val)).

(** ** JValue: a 64-bit union *)
Module JValue.
Definition t := Z.
Definition zero : t := 0.
Definition GetI (v : t) : Z := s32 v.
Definition GetJ (v : t) : Z := s64 v.
Definition GetL (v : t) : Z := u32 v.
Definition SetI (v : t) (i : Z) : t := u64 (Z.shiftr (i <<[64] 32) 32).
Definition SetJ (v : t) (j : Z) : t := u64 j.
(** Stores a reference into a value whose upper half is 0. *)
Definition SetL (v : t) (l : Z) : t := u32 l.
End JValue.

(** ** Well-formed frames *)

(** The array has its two parts and holds 32-bit words. *)
Record frame_ok (f : ShadowFrame) : Prop := {
  ok_count : 0 <= number_of_vregs_ f;
  ok_length : Z.of_nat (length (vregs_ f)) = 2 * number_of_vregs_ f;
  ok_words : words_ok 32 (vregs_ f)
}.

(** The invariant documented at [vregs_]: the reference slot of a register is null or a copy
    of the register. *)
Definition refs_ok (f : ShadowFrame) : Prop :=
  forall i, 0 <= i < number_of_vregs_ f ->
    GetVRegReference f i = 0 \/ GetVRegReference f i = word f i.

Definition vreg_in (f : ShadowFrame) (i : Z) : Prop := 0 <= i < number_of_vregs_ f.
Definition vreg_pair_in (f : ShadowFrame) (i : Z) : Prop := 0 <= i /\ i + 1 < number_of_vregs_ f.

#[global] Instance vreg_in_dec f i : Decision (vreg_in f i).
Proof. unfold vreg_in. apply _. Defined.
#[global] Instance vreg_pair_in_dec f i : Decision (vreg_pair_in f i).
Proof. unfold vreg_pair_in. apply _. Defined.

Section Frame.
Context (f : ShadowFrame) (Hok : frame_ok f).

Let Hlen := ok_length f Hok.
Let Hcnt := ok_count f Hok.

Ltac frame_solve :=
  unfold set_words, GetVRegReference, word, ref_slot, wr_pair, vreg_in, vreg_pair_in in *;
  cbn [vregs_ number_of_vregs_] in *;
  rewrite ?length_wr, ?rd_wr by (rewrite ?length_wr; lia); case_bool; lia || auto.

(** *** Reading back the raw words *)
Lemma word_SetVReg i j v :
  vreg_in f i -> vreg_in f j ->
  word (SetVReg f i v) j = if i =? j then u32 v else word f j.
Proof. intros. unfold SetVReg. frame_solve. Qed.

Lemma word_SetVRegReference i j v :
  vreg_in f i -> vreg_in f j ->
  word (SetVRegReference f i v) j = if i =? j then u32 v else word f j.
Proof. intros. unfold SetVRegReference. frame_solve. Qed.

Lemma word_SetVRegLong i j v :
  vreg_pair_in f i -> vreg_in f j ->
  word (SetVRegLong f i v) j
  = if i =? j then u32 v else if i + 1 =? j then u32 (Z.shiftr v 32) else word f j.
Proof. intros. unfold SetVRegLong. frame_solve. Qed.

(** *** Reading back the reference part *)
Lemma ref_SetVReg i j v :
  vreg_in f i -> vreg_in f j ->
  GetVRegReference (SetVReg f i v) j = if i =? j then 0 else GetVRegReference f j.
Proof. intros. unfold SetVReg. frame_solve. Qed.

Lemma ref_SetVRegReference i j v :
  vreg_in f i -> vreg_in f j ->
  GetVRegReference (SetVRegReference f i v) j = if i =? j then u32 v else GetVRegReference f j.
Proof. intros. unfold SetVRegReference. frame_solve. Qed.

Lemma ref_SetVRegLong i j v :
  vreg_pair_in f i -> vreg_in f j ->
  GetVRegReference (SetVRegLong f i v) j
  = if (i =? j) || (i + 1 =? j) then 0 else GetVRegReference f j.
Proof. intros. unfold SetVRegLong. frame_solve. Qed.

(** *** Well-formedness is preserved *)
Lemma frame_ok_set l :
  length l = length (vregs_ f) -> words_ok 32 l -> frame_ok (set_words f l).
Proof. intros Hl Hw. split; cbn; [done|lia|done]. Qed.

Lemma SetVReg_ok i v : frame_ok (SetVReg f i v).
Proof.
  apply frame_ok_set; [by rewrite !length_wr|].
  repeat apply words_ok_wr; [apply Hok| |]; [by apply wrapu_range|by vm_compute].
Qed.

Lemma SetVRegReference_ok i v : frame_ok (SetVRegReference f i v).
Proof.
  apply frame_ok_set; [by rewrite !length_wr|].
  repeat apply words_ok_wr; [apply Hok| |]; by apply wrapu_range.
Qed.

Lemma SetVRegLong_ok i v : frame_ok (SetVRegLong f i v).
Proof.
  unfold SetVRegLong, wr_pair. apply frame_ok_set; [by rewrite !length_wr|].
  repeat apply words_ok_wr; [apply Hok| | | |];
    first [by apply wrapu_range | by vm_compute].
Qed.
End Frame.

#[export] Hint Resolve SetVReg_ok SetVRegReference_ok SetVRegLong_ok : art.

(** *** Values read back *)
Lemma s64_pair v : s64 (u32 v + 2 ^ 32 * u32 (Z.shiftr v 32)) = s64 v.
Proof.
  apply wraps_cong. bits_to_arith. unfold wrapu. rewrite <- (Z.rem_mul_r v) by lia.
  by rewrite Z.mod_mod.
Qed.

Section ReadBack.
Context (f : ShadowFrame) (Hok : frame_ok f).

Lemma GetVReg_SetVReg i j v :
  vreg_in f i -> vreg_in f j ->
  GetVReg (SetVReg f i v) j = if i =? j then s32 v else GetVReg f j.
Proof.
  intros. unfold GetVReg. rewrite word_SetVReg by done.
  destruct (i =? j); [|done]. by apply wraps_wrapu.
Qed.

Lemma GetVRegLong_SetVRegLong i v :
  vreg_pair_in f i -> GetVRegLong (SetVRegLong f i v) i = s64 v.
Proof.
  intros Hi. unfold GetVRegLong, pair_word. unfold vreg_pair_in in Hi.
  rewrite !word_SetVRegLong by (unfold vreg_pair_in, vreg_in; lia || done).
  rewrite !Z.eqb_refl. destruct (Z.eqb_spec i (i + 1)); [lia|]. apply s64_pair.
Qed.

(** A wide store leaves the registers outside the pair alone. *)
Lemma GetVReg_SetVRegLong_ne i j v :
  vreg_pair_in f i -> vreg_in f j -> j <> i -> j <> i + 1 ->
  GetVReg (SetVRegLong f i v) j = GetVReg f j.
Proof.
  intros. unfold GetVReg. rewrite word_SetVRegLong by done.
  destruct (Z.eqb_spec i j); [lia|]. destruct (Z.eqb_spec (i + 1) j); [lia|done].
Qed.
End ReadBack.

(** *** The reference copies stay consistent *)
Lemma refs_ok_create n pc : 0 <= n -> refs_ok (CreateShadowFrameImpl n pc).
Proof.
  intros Hn i Hi. left. unfold GetVRegReference, word. rewrite rd_lookup.
  cbn [CreateShadowFrameImpl vregs_]. by destruct (replicate _ _ !! _) eqn:E; [apply lookup_replicate in E as [-> _]|].
Qed.

Lemma frame_ok_create n pc : 0 <= n -> frame_ok (CreateShadowFrameImpl n pc).
Proof.
  intros Hn. split; cbn; [done| |].
  - rewrite length_replicate. lia.
  - by apply Forall_replicate.
Qed.

Section Refs.
Context (f : ShadowFrame) (Hok : frame_ok f) (Href : refs_ok f).

Lemma SetVReg_refs i v : vreg_in f i -> refs_ok (SetVReg f i v).
Proof.
  intros Hi j Hj. change (vreg_in f j) in Hj. rewrite ref_SetVReg, word_SetVReg by done.
  destruct (i =? j); [by left|by apply Href].
Qed.

Lemma SetVRegReference_refs i v : vreg_in f i -> refs_ok (SetVRegReference f i v).
Proof.
  intros Hi j Hj. change (vreg_in f j) in Hj.
  rewrite ref_SetVRegReference, word_SetVRegReference by done.
  destruct (i =? j); [by right|by apply Href].
Qed.

Lemma SetVRegLong_refs i v : vreg_pair_in f i -> refs_ok (SetVRegLong f i v).
Proof.
  intros Hi j Hj. change (vreg_in f j) in Hj.
  rewrite ref_SetVRegLong, word_SetVRegLong by done.
  destruct (i =? j), (i + 1 =? j); cbn; auto.
Qed.
End Refs.

#[export] Hint Resolve SetVReg_refs SetVRegReference_refs SetVRegLong_refs : art.

(** The wide store at the last register: the second word lands in the reference slot of
    register 0, which then is neither null nor a copy. *)
Example wide_store_past_the_end :
  GetVRegReference (SetVRegLong (CreateShadowFrameImpl 2 0) 1 (7 * 2 ^ 32)) 0 = 7.
Proof. reflexivity. Qed.
