(* ===== verification/InterpreterBase.v ===== *)
(** * State and helpers of the interpreter

    The state [ExecuteSwitchImpl] works on, the runtime services it calls (an interface: their
    bodies are not modelled), and the arithmetic, division, switch and array helpers of
    runtime/interpreter/safe_math.h, runtime/interpreter/interpreter_common.h,
    runtime/mirror/array-inl.h and runtime/entrypoints/entrypoint_utils.cc. *)

From S2P Require Import Prelude DexOpcodes DexInstruction ShadowFrame.

(** ** Heap *)

(** Primitive types of array components ([kPrimNot] is a reference). *)
Inductive Primitive : Set :=
| kPrimNot | kPrimBoolean | kPrimByte | kPrimChar | kPrimShort | kPrimInt | kPrimLong
| kPrimFloat | kPrimDouble | kPrimVoid.

#[global] Instance Primitive_eq_dec : EqDecision Primitive.
Proof. solve_decision. Defined.

(** [Primitive::ComponentSize]. *)
Definition ComponentSize (t : Primitive) : Z :=
  match t with
  | kPrimVoid => 0
  | kPrimBoolean | kPrimByte => 1
  | kPrimChar | kPrimShort => 2
  | kPrimInt | kPrimFloat => 4
  | kPrimLong | kPrimDouble => 8
  | kPrimNot => 4
  end.

(** An array object: its component type, [length_] and the bytes of its elements. *)
Record array_obj := mkArray { a_component : Primitive; a_length : Z; a_data : list Z }.

Inductive heap_obj := HArray (a : array_obj) | HOther.

(** Objects by their (non-zero) compressed reference. *)
Abbreviation heap := (gmap Z heap_obj).

Definition array_ok (a : array_obj) : Prop :=
  in_s 32 (a_length a) /\ 0 <= a_length a
  /\ Z.of_nat (length (a_data a)) = a_length a * ComponentSize (a_component a).

(** [GetWithoutChecks] / [SetWithoutChecks] on the raw data. *)
Definition array_get (a : array_obj) (i : Z) : Z :=
  le_read (a_data a) (i * ComponentSize (a_component a)) (Z.to_nat (ComponentSize (a_component a))).
Definition array_set (a : array_obj) (i v : Z) : array_obj :=
  mkArray (a_component a) (a_length a)
    (le_write (a_data a) (i * ComponentSize (a_component a))
       (Z.to_nat (ComponentSize (a_component a))) v).

(** [Array::CheckIsValidIndex]: one unsigned comparison. *)
Definition CheckIsValidIndex (a : array_obj) (index : Z) : bool :=
  negb (u32 (a_length a) <=? u32 index).

(** ** Interpreter state *)
Record state := mkState {
  frame : ShadowFrame;
  result_register : JValue.t;
  (** The pending exception of the thread; 0 is none. *)
  exception : Z;
  objects : heap
}.

Definition set_frame (st : state) (f : ShadowFrame) : state :=
  mkState f (result_register st) (exception st) (objects st).
Definition set_exception (st : state) (e : Z) : state :=
  mkState (frame st) (result_register st) e (objects st).
Definition set_objects (st : state) (h : heap) : state :=
  mkState (frame st) (result_register st) (exception st) h.

Definition IsExceptionPending (st : state) : bool := negb (exception st =? 0).

(** How one instruction ends. *)
Inductive outcome :=
| Continue (st : state) (pc : Z)           (** [inst] moved, the loop goes on *)
| Exit (st : state) (result : JValue.t)    (** the method returns *)
| Pending (st : state)                     (** [HANDLE_PENDING_EXCEPTION] *)
| Unexpected                               (** [UnexpectedOpcode]: the runtime aborts *)
| Undefined.                               (** an access the code does not define *)

(** [POSSIBLY_HANDLE_PENDING_EXCEPTION]. *)
Definition possibly (st : state) (is_exception_pending : bool) (next : Z) : outcome :=
  if is_exception_pending then Pending st else Continue st next.

(** The exceptions the interpreter itself throws. *)
Inductive exception_kind :=
| NullPointerExceptionFromInterpreter
| NullPointerException
| ArithmeticExceptionDivideByZero
| ArrayIndexOutOfBoundsException (index length : Z)
| ArrayStoreException
| ClassCastException.

Inductive InvokeType := kStatic | kDirect | kVirtual | kSuper | kInterface.
Inductive FindFieldType :=
| InstanceObjectRead | InstanceObjectWrite | InstancePrimitiveRead | InstancePrimitiveWrite
| StaticObjectRead | StaticObjectWrite | StaticPrimitiveRead | StaticPrimitiveWrite.

(** The runtime services the interpreter calls.  A service returns its result and the state it
    leaves; a [bool] result is the success flag. *)
Class RuntimeServices := {
  (** Allocates an exception and makes it pending. *)
  Throw : exception_kind -> state -> state;
  (** The safepoint poll: the collector may run and move objects. *)
  AllowThreadSuspension : state -> state;
  ResolveString : state -> Z -> Z * state;
  ResolveVerifyAndClinit : state -> Z -> Z * state;
  InstanceOf : state -> Z -> Z -> bool;
  MonitorEnter : state -> Z -> state;
  MonitorExit : state -> Z -> state;
  AllocObject : state -> Z -> Z -> Z * state;
  AllocArrayFromCode : state -> Z -> Z -> Z * state;
  DoFilledNewArray : bool -> state -> Z -> bool * state;
  (** [CheckAssignable]: whether the reference can be stored in the array. *)
  Assignable : state -> Z -> Z -> bool;
  DoFieldGet : FindFieldType -> Primitive -> state -> Z -> bool * state;
  DoIGetQuick : Primitive -> state -> Z -> bool * state;
  DoFieldPut : FindFieldType -> Primitive -> state -> Z -> bool * state;
  DoIPutQuick : Primitive -> state -> Z -> bool * state;
  DoInvoke : InvokeType -> bool -> state -> Z -> bool * state;
  DoInvokeVirtualQuick : bool -> state -> Z -> bool * state;
  (** The experimental lambda instructions, when enabled. *)
  lambdas_enabled : bool;
  DoLambda : Code -> state -> Z -> bool * state;
  (** [FindNextInstructionFollowingException]: the handler's address, if there is one. *)
  FindHandler : state -> Z -> option Z * state
}.

(** ** Arithmetic with defined wrapping *)
Definition SafeMath (op : Z -> Z -> Z) (w a b : Z) : Z :=
  wraps w (wrapu w (op (wrapu w a) (wrapu w b))).
Definition SafeAdd : Z -> Z -> Z -> Z := SafeMath Z.add.
Definition SafeSub : Z -> Z -> Z -> Z := SafeMath Z.sub.
Definition SafeMul : Z -> Z -> Z -> Z := SafeMath Z.mul.

Lemma SafeAdd_wraps w a b : 0 < w -> SafeAdd w a b = wraps w (a + b).
Proof.
  intros. unfold SafeAdd, SafeMath. rewrite wraps_wrapu by done. apply wraps_cong.
  unfold wrapu. by rewrite <- Z.add_mod by (apply Z.pow_nonzero; lia).
Qed.
Lemma SafeSub_wraps w a b : 0 < w -> SafeSub w a b = wraps w (a - b).
Proof.
  intros. unfold SafeSub, SafeMath. rewrite wraps_wrapu by done. apply wraps_cong.
  unfold wrapu. by rewrite <- Zminus_mod.
Qed.
Lemma SafeMul_wraps w a b : 0 < w -> SafeMul w a b = wraps w (a * b).
Proof.
  intros. unfold SafeMul, SafeMath. rewrite wraps_wrapu by done. apply wraps_cong.
  unfold wrapu. by rewrite <- Zmult_mod.
Qed.

(** ** Division: the success flag and the state *)
Section Services.
Context {RS : RuntimeServices}.

Definition DoIntDivide (st : state) (result_reg dividend divisor : Z) : bool * state :=
  if divisor =? 0 then (false, Throw ArithmeticExceptionDivideByZero st)
  else if (dividend =? INT32_MIN) && (divisor =? -1) then
    (true, set_frame st (SetVReg (frame st) result_reg INT32_MIN))
  else (true, set_frame st (SetVReg (frame st) result_reg (Z.quot dividend divisor))).

Definition DoIntRemainder (st : state) (result_reg dividend divisor : Z) : bool * state :=
  if divisor =? 0 then (false, Throw ArithmeticExceptionDivideByZero st)
  else if (dividend =? INT32_MIN) && (divisor =? -1) then
    (true, set_frame st (SetVReg (frame st) result_reg 0))
  else (true, set_frame st (SetVReg (frame st) result_reg (Z.rem dividend divisor))).

Definition DoLongDivide (st : state) (result_reg dividend divisor : Z) : bool * state :=
  if divisor =? 0 then (false, Throw ArithmeticExceptionDivideByZero st)
  else if (dividend =? INT64_MIN) && (divisor =? -1) then
    (true, set_frame st (SetVRegLong (frame st) result_reg INT64_MIN))
  else (true, set_frame st (SetVRegLong (frame st) result_reg (Z.quot dividend divisor))).

Definition DoLongRemainder (st : state) (result_reg dividend divisor : Z) : bool * state :=
  if divisor =? 0 then (false, Throw ArithmeticExceptionDivideByZero st)
  else if (dividend =? INT64_MIN) && (divisor =? -1) then
    (true, set_frame st (SetVRegLong (frame st) result_reg 0))
  else (true, set_frame st (SetVRegLong (frame st) result_reg (Z.rem dividend divisor))).

(** The element type an [ArrayDataPayload] describes, read at index [p]. *)
Definition payload_width (insns : code_units) (p : Z) : Z := insns (p + 1).
Definition payload_count (insns : code_units) (p : Z) : Z :=
  u32 (Z.lor (insns (p + 2)) (u32 (Z.shiftl (insns (p + 3)) 16))).
(** Byte [k] of [payload->data]. *)
Definition payload_byte (insns : code_units) (p k : Z) : Z :=
  let u := insns (p + 4 + k / 2) in
  if k mod 2 =? 0 then Z.land u 0xff else Z.shiftr u 8.

(** [size_in_bytes]: the 32-bit product. *)
Definition fill_size_in_bytes (insns : code_units) (p : Z) : Z :=
  u32 (payload_count insns p * payload_width insns p).

(** The bytes [memcpy] stores; [None] when the copy leaves the array's data. *)
Definition memcpy_payload (insns : code_units) (p : Z) (data : list Z) (n : Z)
  : option (list Z) :=
  if n <=? Z.of_nat (length data) then
    Some (map (fun k => payload_byte insns p (Z.of_nat k)) (seq 0 (Z.to_nat n))
          ++ drop (Z.to_nat n) data)
  else None.

(** [FillArrayData] on the payload at [p]; the result [None] is a copy past the end. *)
Definition FillArrayData (st : state) (obj : Z) (insns : code_units) (p : Z)
  : option (bool * state) :=
  if obj =? 0 then Some (false, Throw NullPointerException st)
  else match objects st !! obj with
  | Some (HArray array) =>
      if a_length array <? s32 (payload_count insns p) then
        Some (false, Throw (ArrayIndexOutOfBoundsException (payload_count insns p)
                              (a_length array)) st)
      else
        match memcpy_payload insns p (a_data array) (fill_size_in_bytes insns p) with
        | Some data =>
            Some (true, set_objects st
              (<[obj := HArray (mkArray (a_component array) (a_length array) data)]>
                 (objects st)))
        | None => None
        end
  | _ => None
  end.
End Services.

(** ** Switches *)

(** The [int32_t] at code unit [p]. *)
Definition read_int32 (insns : code_units) (p : Z) : Z :=
  s32 (insns p + 65536 * insns (p + 1)).

(** [DoPackedSwitch]: the subtraction wraps to [int32_t]. *)
Definition DoPackedSwitch (insns : code_units) (pc : Z) (f : ShadowFrame) (inst_data : Z) : Z :=
  let switch_data := pc + VRegB_31t insns pc in
  let test_val := GetVReg f (VRegA_31t inst_data) in
  let size := insns (switch_data + 1) in
  if size =? 0 then 3
  else
    let first_key := read_int32 insns (switch_data + 2) in
    let index := s32 (test_val - first_key) in
    if (0 <=? index) && (index <? size)
    then read_int32 insns (switch_data + 4 + 2 * index)
    else 3.

(** The binary search loop; [None] when the fuel runs out. *)
Fixpoint sparse_search (fuel : nat) (key : Z -> Z) (test_val lo hi : Z) : option (option Z) :=
  match fuel with
  | O => None
  | S fuel =>
      if lo <=? hi then
        let mid := Z.quot (lo + hi) 2 in
        let foundVal := key mid in
        if test_val <? foundVal then sparse_search fuel key test_val lo (mid - 1)
        else if foundVal <? test_val then sparse_search fuel key test_val (mid + 1) hi
        else Some (Some mid)
      else Some None
  end.

Definition DoSparseSwitch (insns : code_units) (pc : Z) (f : ShadowFrame) (inst_data : Z) : Z :=
  let switch_data := pc + VRegB_31t insns pc in
  let test_val := GetVReg f (VRegA_31t inst_data) in
  let size := insns (switch_data + 1) in
  if size =? 0 then 3
  else
    let key i := read_int32 insns (switch_data + 2 + 2 * i) in
    let entry i := read_int32 insns (switch_data + 2 + 2 * size + 2 * i) in
    match sparse_search (Z.to_nat size + 1) key test_val 0 (size - 1) with
    | Some (Some mid) => entry mid
    | _ => 3
    end.

Definition IsBackwardBranch (branch_offset : Z) : bool := branch_offset <=? 0.
