(* ===== verification/Interpreter.v ===== *)
(** * The switch interpreter

    [ExecuteSwitchImpl<do_access_check = false, transaction_active = false>] of
    runtime/interpreter/interpreter_switch_impl.cc, without instrumentation listeners and
    without a JIT (so [PREAMBLE], [BRANCH_INSTRUMENTATION] and [HOTNESS_UPDATE] do nothing, and
    [DoMonitorCheckOnExit<false>] is true).  The cases of the [switch] are grouped as they
    follow each other in the source; [None] means the opcode belongs to another group. *)

From S2P Require Import Prelude DexOpcodes DexInstruction Floats ShadowFrame InterpreterBase.

Section Exec.
Context {RS : RuntimeServices}.
Context (insns : code_units) (pc : Z) (st : state).

Let f : ShadowFrame := frame st.
Let d : Z := Fetch16 insns pc 0.

(** The frame after the instruction, at the next instruction of a 1xx, 2xx, ... format. *)
Definition next1 (f' : ShadowFrame) : option outcome :=
  Some (Continue (set_frame st f') (Next_1xx pc)).
Definition next2 (f' : ShadowFrame) : option outcome :=
  Some (Continue (set_frame st f') (Next_2xx pc)).
Definition next3 (f' : ShadowFrame) : option outcome :=
  Some (Continue (set_frame st f') (Next_3xx pc)).

(** The end of a case with a success flag. *)
Definition ending (r : bool * state) (next : Z) : option outcome :=
  Some (possibly (snd r) (negb (fst r)) next).

Definition exec_move (c : Code) : option outcome :=
  match c with
  | NOP => Some (Continue st (Next_1xx pc))
  | MOVE => next1 (SetVReg f (VRegA_12x d) (GetVReg f (VRegB_12x d)))
  | MOVE_FROM16 => next2 (SetVReg f (VRegA_22x d) (GetVReg f (VRegB_22x insns pc)))
  | MOVE_16 => next3 (SetVReg f (VRegA_32x insns pc) (GetVReg f (VRegB_32x insns pc)))
  | MOVE_WIDE => next1 (SetVRegLong f (VRegA_12x d) (GetVRegLong f (VRegB_12x d)))
  | MOVE_WIDE_FROM16 =>
      next2 (SetVRegLong f (VRegA_22x d) (GetVRegLong f (VRegB_22x insns pc)))
  | MOVE_WIDE_16 =>
      next3 (SetVRegLong f (VRegA_32x insns pc) (GetVRegLong f (VRegB_32x insns pc)))
  | MOVE_OBJECT => next1 (SetVRegReference f (VRegA_12x d) (GetVRegReference f (VRegB_12x d)))
  | MOVE_OBJECT_FROM16 =>
      next2 (SetVRegReference f (VRegA_22x d) (GetVRegReference f (VRegB_22x insns pc)))
  | MOVE_OBJECT_16 =>
      next3 (SetVRegReference f (VRegA_32x insns pc) (GetVRegReference f (VRegB_32x insns pc)))
  | MOVE_RESULT => next1 (SetVReg f (VRegA_11x d) (JValue.GetI (result_register st)))
  | MOVE_RESULT_WIDE => next1 (SetVRegLong f (VRegA_11x d) (JValue.GetJ (result_register st)))
  | MOVE_RESULT_OBJECT =>
      next1 (SetVRegReference f (VRegA_11x d) (JValue.GetL (result_register st)))
  | MOVE_EXCEPTION =>
      Some (Continue
        (set_exception (set_frame st (SetVRegReference f (VRegA_11x d) (exception st))) 0)
        (Next_1xx pc))
  | _ => None
  end.

(** [AllowThreadSuspension] runs between reading a primitive result and returning it; a
    reference result is read after it. *)
Definition exec_return (c : Code) : option outcome :=
  let st' := AllowThreadSuspension st in
  match c with
  | RETURN_VOID_NO_BARRIER | RETURN_VOID => Some (Exit st' JValue.zero)
  | RETURN => Some (Exit st' (JValue.SetI (JValue.SetJ JValue.zero 0)
                                (GetVReg f (VRegA_11x d))))
  | RETURN_WIDE => Some (Exit st' (JValue.SetJ JValue.zero (GetVRegLong f (VRegA_11x d))))
  | RETURN_OBJECT =>
      Some (Exit st' (JValue.SetL JValue.zero (GetVRegReference (frame st') (VRegA_11x d))))
  | _ => None
  end.

(** A 32-bit constant; 0 is also the null reference. *)
Definition set_const (dst val : Z) : ShadowFrame :=
  let f1 := SetVReg f dst val in
  if val =? 0 then SetVRegReference f1 dst 0 else f1.

Definition exec_const (c : Code) : option outcome :=
  match c with
  | CONST_4 => next1 (set_const (VRegA_11n d) (VRegB_11n d))
  | CONST_16 => next2 (set_const (VRegA_21s d) (VRegB_21s insns pc))
  | CONST => next3 (set_const (VRegA_31i d) (VRegB_31i insns pc))
  | CONST_HIGH16 => next2 (set_const (VRegA_21h d) (VRegB_21h insns pc <<[32] 16))
  | CONST_WIDE_16 => next2 (SetVRegLong f (VRegA_21s d) (VRegB_21s insns pc))
  | CONST_WIDE_32 => next3 (SetVRegLong f (VRegA_31i d) (VRegB_31i insns pc))
  | CONST_WIDE =>
      Some (Continue (set_frame st (SetVRegLong f (VRegA_51l d) (s64 (VRegB_51l insns pc))))
              (Next_51l pc))
  | CONST_WIDE_HIGH16 =>
      next2 (SetVRegLong f (VRegA_21h d) (VRegB_21h insns pc <<[64] 48))
  | _ => None
  end.

(** The end of a case that stores a fresh reference; null means a pending exception. *)
Definition store_ref (r : Z * state) (dst next : Z) : option outcome :=
  let '(ref, st1) := r in
  if ref =? 0 then Some (Pending st1)
  else Some (Continue (set_frame st1 (SetVRegReference (frame st1) dst ref)) next).

Definition exec_resolve (c : Code) : option outcome :=
  match c with
  | CONST_STRING => store_ref (ResolveString st (VRegB_21c insns pc)) (VRegA_21c d) (Next_2xx pc)
  | CONST_STRING_JUMBO =>
      store_ref (ResolveString st (VRegB_31c insns pc)) (VRegA_31c d) (Next_3xx pc)
  | CONST_CLASS =>
      store_ref (ResolveVerifyAndClinit st (VRegB_21c insns pc)) (VRegA_21c d) (Next_2xx pc)
  | MONITOR_ENTER =>
      let obj := GetVRegReference f (VRegA_11x d) in
      if obj =? 0 then Some (Pending (Throw NullPointerExceptionFromInterpreter st))
      else let st1 := MonitorEnter st obj in
           Some (possibly st1 (IsExceptionPending st1) (Next_1xx pc))
  | MONITOR_EXIT =>
      let obj := GetVRegReference f (VRegA_11x d) in
      if obj =? 0 then Some (Pending (Throw NullPointerExceptionFromInterpreter st))
      else let st1 := MonitorExit st obj in
           Some (possibly st1 (IsExceptionPending st1) (Next_1xx pc))
  | CHECK_CAST =>
      let '(c, st1) := ResolveVerifyAndClinit st (VRegB_21c insns pc) in
      if c =? 0 then Some (Pending st1)
      else
        let obj := GetVRegReference (frame st1) (VRegA_21c d) in
        if negb (obj =? 0) && negb (InstanceOf st1 obj c)
        then Some (Pending (Throw ClassCastException st1))
        else Some (Continue st1 (Next_2xx pc))
  | INSTANCE_OF =>
      let '(c, st1) := ResolveVerifyAndClinit st (VRegC_22c insns pc) in
      if c =? 0 then Some (Pending st1)
      else
        let obj := GetVRegReference (frame st1) (VRegB_22c d) in
        Some (Continue
          (set_frame st1 (SetVReg (frame st1) (VRegA_22c d)
             (if negb (obj =? 0) && InstanceOf st1 obj c then 1 else 0)))
          (Next_2xx pc))
  | _ => None
  end.

Definition exec_object (c : Code) : option outcome :=
  match c with
  | ARRAY_LENGTH =>
      let array := GetVRegReference f (VRegB_12x d) in
      if array =? 0 then Some (Pending (Throw NullPointerExceptionFromInterpreter st))
      else match objects st !! array with
      | Some (HArray a) => next1 (SetVReg f (VRegA_12x d) (a_length a))
      | _ => Some Undefined
      end
  | NEW_INSTANCE =>
      let '(c, st1) := ResolveVerifyAndClinit st (VRegB_21c insns pc) in
      if c =? 0 then Some (Pending st1)
      else store_ref (AllocObject st1 c (VRegB_21c insns pc)) (VRegA_21c d) (Next_2xx pc)
  | NEW_ARRAY =>
      store_ref (AllocArrayFromCode st (VRegC_22c insns pc) (GetVReg f (VRegB_22c d)))
        (VRegA_22c d) (Next_2xx pc)
  | FILLED_NEW_ARRAY => ending (DoFilledNewArray false st pc) (Next_3xx pc)
  | FILLED_NEW_ARRAY_RANGE => ending (DoFilledNewArray true st pc) (Next_3xx pc)
  | FILL_ARRAY_DATA =>
      let obj := GetVRegReference f (VRegA_31t d) in
      match FillArrayData st obj insns (pc + VRegB_31t insns pc) with
      | Some r => ending r (Next_3xx pc)
      | None => Some Undefined
      end
  | THROW =>
      let exception := GetVRegReference f (VRegA_11x d) in
      if exception =? 0 then Some (Pending (Throw NullPointerException st))
      else Some (Pending (set_exception st exception))
  | _ => None
  end.

(** A taken branch; a backward one polls for suspension. *)
Definition branch (offset : Z) : option outcome :=
  Some (Continue (if IsBackwardBranch offset then AllowThreadSuspension st else st)
          (RelativeAt pc offset)).

Definition exec_goto (c : Code) : option outcome :=
  match c with
  | GOTO => branch (VRegA_10t d)
  | GOTO_16 => branch (VRegA_20t insns pc)
  | GOTO_32 => branch (VRegA_30t insns pc)
  | PACKED_SWITCH => branch (DoPackedSwitch insns pc f d)
  | SPARSE_SWITCH => branch (DoSparseSwitch insns pc f d)
  | _ => None
  end.

(** Three-way comparison of floating-point registers; [cmpl] answers -1 and [cmpg] 1 when an
    operand is a NaN. *)
Definition cmpl (F : fformat) (val1 val2 : Z) : Z :=
  if fgt F val1 val2 then 1 else if feq F val1 val2 then 0 else -1.
Definition cmpg (F : fformat) (val1 val2 : Z) : Z :=
  if flt F val1 val2 then -1 else if feq F val1 val2 then 0 else 1.
Definition cmp_long (val1 val2 : Z) : Z :=
  if val2 <? val1 then 1 else if val1 =? val2 then 0 else -1.

Definition exec_cmp (c : Code) : option outcome :=
  let B := VRegB_23x insns pc in
  let C := VRegC_23x insns pc in
  let set v := next2 (SetVReg f (VRegA_23x d) v) in
  match c with
  | CMPL_FLOAT => set (cmpl binary32 (GetVRegFloat f B) (GetVRegFloat f C))
  | CMPG_FLOAT => set (cmpg binary32 (GetVRegFloat f B) (GetVRegFloat f C))
  | CMPL_DOUBLE => set (cmpl binary64 (GetVRegDouble f B) (GetVRegDouble f C))
  | CMPG_DOUBLE => set (cmpg binary64 (GetVRegDouble f B) (GetVRegDouble f C))
  | CMP_LONG => set (cmp_long (GetVRegLong f B) (GetVRegLong f C))
  | _ => None
  end.

Definition cond_branch (taken : bool) (offset : Z) : option outcome :=
  if taken then branch offset else Some (Continue st (Next_2xx pc)).

Definition exec_if (c : Code) : option outcome :=
  let a := GetVReg f (VRegA_22t d) in
  let b := GetVReg f (VRegB_22t d) in
  let off := VRegC_22t insns pc in
  match c with
  | IF_EQ => cond_branch (a =? b) off
  | IF_NE => cond_branch (negb (a =? b)) off
  | IF_LT => cond_branch (a <? b) off
  | IF_GE => cond_branch (b <=? a) off
  | IF_GT => cond_branch (b <? a) off
  | IF_LE => cond_branch (a <=? b) off
  | _ => None
  end.

Definition exec_ifz (c : Code) : option outcome :=
  let a := GetVReg f (VRegA_21t d) in
  let off := VRegB_21t insns pc in
  match c with
  | IF_EQZ => cond_branch (a =? 0) off
  | IF_NEZ => cond_branch (negb (a =? 0)) off
  | IF_LTZ => cond_branch (a <? 0) off
  | IF_GEZ => cond_branch (0 <=? a) off
  | IF_GTZ => cond_branch (0 <? a) off
  | IF_LEZ => cond_branch (a <=? 0) off
  | _ => None
  end.

(** The common part of the array accesses: null check, then the bounds check of an array
    whose component type is one of [types]. *)
Definition with_element (types : list Primitive) (k : array_obj -> Z -> Z -> option outcome)
  : option outcome :=
  let a := GetVRegReference f (VRegB_23x insns pc) in
  if a =? 0 then Some (Pending (Throw NullPointerExceptionFromInterpreter st))
  else
    let index := GetVReg f (VRegC_23x insns pc) in
    match objects st !! a with
    | Some (HArray array) =>
        if bool_decide (a_component array ∈ types) then
          if CheckIsValidIndex array index then k array a index
          else Some (Pending (Throw (ArrayIndexOutOfBoundsException index (a_length array)) st))
        else Some Undefined
    | _ => Some Undefined
    end.

Definition exec_aget (c : Code) : option outcome :=
  let A := VRegA_23x d in
  match c with
  | AGET_BOOLEAN => with_element [kPrimBoolean] (fun a _ i => next2 (SetVReg f A (array_get a i)))
  | AGET_BYTE => with_element [kPrimByte] (fun a _ i => next2 (SetVReg f A (s8 (array_get a i))))
  | AGET_CHAR => with_element [kPrimChar] (fun a _ i => next2 (SetVReg f A (array_get a i)))
  | AGET_SHORT =>
      with_element [kPrimShort] (fun a _ i => next2 (SetVReg f A (s16 (array_get a i))))
  | AGET =>
      with_element [kPrimInt; kPrimFloat]
        (fun a _ i => next2 (SetVReg f A (s32 (array_get a i))))
  | AGET_WIDE =>
      with_element [kPrimLong; kPrimDouble]
        (fun a _ i => next2 (SetVRegLong f A (s64 (array_get a i))))
  | AGET_OBJECT =>
      with_element [kPrimNot] (fun a _ i => next2 (SetVRegReference f A (array_get a i)))
  | _ => None
  end.

(** A store into element [i] of the array [a] at [ref]. *)
Definition put_element (v : Z) (a : array_obj) (ref i : Z) : option outcome :=
  Some (Continue (set_objects st (<[ref := HArray (array_set a i v)]> (objects st)))
          (Next_2xx pc)).

Definition exec_aput (c : Code) : option outcome :=
  let A := VRegA_23x d in
  match c with
  | APUT_BOOLEAN => with_element [kPrimBoolean] (put_element (u8 (GetVReg f A)))
  | APUT_BYTE => with_element [kPrimByte] (put_element (s8 (GetVReg f A)))
  | APUT_CHAR => with_element [kPrimChar] (put_element (u16 (GetVReg f A)))
  | APUT_SHORT => with_element [kPrimShort] (put_element (s16 (GetVReg f A)))
  | APUT => with_element [kPrimInt; kPrimFloat] (put_element (GetVReg f A))
  | APUT_WIDE => with_element [kPrimLong; kPrimDouble] (put_element (GetVRegLong f A))
  | APUT_OBJECT =>
      let val := GetVRegReference f A in
      with_element [kPrimNot] (fun a ref i =>
        if Assignable st ref val then put_element val a ref i
        else Some (Pending (Throw ArrayStoreException st)))
  | _ => None
  end.

Definition exec_iget (c : Code) : option outcome :=
  let get t := ending (DoFieldGet InstancePrimitiveRead t st pc) (Next_2xx pc) in
  let quick t := ending (DoIGetQuick t st pc) (Next_2xx pc) in
  match c with
  | IGET_BOOLEAN => get kPrimBoolean
  | IGET_BYTE => get kPrimByte
  | IGET_CHAR => get kPrimChar
  | IGET_SHORT => get kPrimShort
  | IGET => get kPrimInt
  | IGET_WIDE => get kPrimLong
  | IGET_OBJECT => ending (DoFieldGet InstanceObjectRead kPrimNot st pc) (Next_2xx pc)
  | IGET_QUICK => quick kPrimInt
  | IGET_WIDE_QUICK => quick kPrimLong
  | IGET_OBJECT_QUICK => quick kPrimNot
  | IGET_BOOLEAN_QUICK => quick kPrimBoolean
  | IGET_BYTE_QUICK => quick kPrimByte
  | IGET_CHAR_QUICK => quick kPrimChar
  | IGET_SHORT_QUICK => quick kPrimShort
  | _ => None
  end.

Definition exec_sget (c : Code) : option outcome :=
  let get t := ending (DoFieldGet StaticPrimitiveRead t st pc) (Next_2xx pc) in
  match c with
  | SGET_BOOLEAN => get kPrimBoolean
  | SGET_BYTE => get kPrimByte
  | SGET_CHAR => get kPrimChar
  | SGET_SHORT => get kPrimShort
  | SGET => get kPrimInt
  | SGET_WIDE => get kPrimLong
  | SGET_OBJECT => ending (DoFieldGet StaticObjectRead kPrimNot st pc) (Next_2xx pc)
  | _ => None
  end.

Definition exec_iput (c : Code) : option outcome :=
  let put t := ending (DoFieldPut InstancePrimitiveWrite t st pc) (Next_2xx pc) in
  let quick t := ending (DoIPutQuick t st pc) (Next_2xx pc) in
  match c with
  | IPUT_BOOLEAN => put kPrimBoolean
  | IPUT_BYTE => put kPrimByte
  | IPUT_CHAR => put kPrimChar
  | IPUT_SHORT => put kPrimShort
  | IPUT => put kPrimInt
  | IPUT_WIDE => put kPrimLong
  | IPUT_OBJECT => ending (DoFieldPut InstanceObjectWrite kPrimNot st pc) (Next_2xx pc)
  | IPUT_QUICK => quick kPrimInt
  | IPUT_BOOLEAN_QUICK => quick kPrimBoolean
  | IPUT_BYTE_QUICK => quick kPrimByte
  | IPUT_CHAR_QUICK => quick kPrimChar
  | IPUT_SHORT_QUICK => quick kPrimShort
  | IPUT_WIDE_QUICK => quick kPrimLong
  | IPUT_OBJECT_QUICK => quick kPrimNot
  | _ => None
  end.

Definition exec_sput (c : Code) : option outcome :=
  let put t := ending (DoFieldPut StaticPrimitiveWrite t st pc) (Next_2xx pc) in
  match c with
  | SPUT_BOOLEAN => put kPrimBoolean
  | SPUT_BYTE => put kPrimByte
  | SPUT_CHAR => put kPrimChar
  | SPUT_SHORT => put kPrimShort
  | SPUT => put kPrimInt
  | SPUT_WIDE => put kPrimLong
  | SPUT_OBJECT => ending (DoFieldPut StaticObjectWrite kPrimNot st pc) (Next_2xx pc)
  | _ => None
  end.

Definition exec_invoke (c : Code) : option outcome :=
  let invoke type is_range := ending (DoInvoke type is_range st pc) (Next_3xx pc) in
  match c with
  | INVOKE_VIRTUAL => invoke kVirtual false
  | INVOKE_VIRTUAL_RANGE => invoke kVirtual true
  | INVOKE_SUPER => invoke kSuper false
  | INVOKE_SUPER_RANGE => invoke kSuper true
  | INVOKE_DIRECT => invoke kDirect false
  | INVOKE_DIRECT_RANGE => invoke kDirect true
  | INVOKE_INTERFACE => invoke kInterface false
  | INVOKE_INTERFACE_RANGE => invoke kInterface true
  | INVOKE_STATIC => invoke kStatic false
  | INVOKE_STATIC_RANGE => invoke kStatic true
  | INVOKE_VIRTUAL_QUICK => ending (DoInvokeVirtualQuick false st pc) (Next_3xx pc)
  | INVOKE_VIRTUAL_RANGE_QUICK => ending (DoInvokeVirtualQuick true st pc) (Next_3xx pc)
  | _ => None
  end.

(** Negation, complement and the conversions.  [-x] on the smallest integer and [<<] wrap
    (two's complement). *)
Definition exec_unary (c : Code) : option outcome :=
  let A := VRegA_12x d in
  let B := VRegB_12x d in
  match c with
  | NEG_INT => next1 (SetVReg f A (s32 (- GetVReg f B)))
  | NOT_INT => next1 (SetVReg f A (Z.lnot (GetVReg f B)))
  | NEG_LONG => next1 (SetVRegLong f A (s64 (- GetVRegLong f B)))
  | NOT_LONG => next1 (SetVRegLong f A (Z.lnot (GetVRegLong f B)))
  | NEG_FLOAT => next1 (SetVRegFloat f A (fneg binary32 (GetVRegFloat f B)))
  | NEG_DOUBLE => next1 (SetVRegDouble f A (fneg binary64 (GetVRegDouble f B)))
  | INT_TO_LONG => next1 (SetVRegLong f A (GetVReg f B))
  | INT_TO_FLOAT => next1 (SetVRegFloat f A (fofZ binary32 (GetVReg f B)))
  | INT_TO_DOUBLE => next1 (SetVRegDouble f A (fofZ binary64 (GetVReg f B)))
  | LONG_TO_INT => next1 (SetVReg f A (s32 (GetVRegLong f B)))
  | LONG_TO_FLOAT => next1 (SetVRegFloat f A (fofZ binary32 (GetVRegLong f B)))
  | LONG_TO_DOUBLE => next1 (SetVRegDouble f A (fofZ binary64 (GetVRegLong f B)))
  | FLOAT_TO_INT => next1 (SetVReg f A (art_float_to_integral binary32 32 (GetVRegFloat f B)))
  | FLOAT_TO_LONG =>
      next1 (SetVRegLong f A (art_float_to_integral binary32 64 (GetVRegFloat f B)))
  | FLOAT_TO_DOUBLE => next1 (SetVRegDouble f A (fconvert binary32 binary64 (GetVRegFloat f B)))
  | DOUBLE_TO_INT => next1 (SetVReg f A (art_float_to_integral binary64 32 (GetVRegDouble f B)))
  | DOUBLE_TO_LONG =>
      next1 (SetVRegLong f A (art_float_to_integral binary64 64 (GetVRegDouble f B)))
  | DOUBLE_TO_FLOAT => next1 (SetVRegFloat f A (fconvert binary64 binary32 (GetVRegDouble f B)))
  | INT_TO_BYTE => next1 (SetVReg f A (s8 (GetVReg f B)))
  | INT_TO_CHAR => next1 (SetVReg f A (u16 (GetVReg f B)))
  | INT_TO_SHORT => next1 (SetVReg f A (s16 (GetVReg f B)))
  | _ => None
  end.

(** The end of a case that tests the thread's pending exception. *)
Definition ending_pending (r : bool * state) (next : Z) : option outcome :=
  Some (possibly (snd r) (IsExceptionPending (snd r)) next).

(** The three shifts; the distance is masked. *)
Definition shl_int (a b : Z) : Z := s32 (a <<[32] Z.land b 0x1f).
Definition shr_int (a b : Z) : Z := Z.shiftr a (Z.land b 0x1f).
Definition ushr_int (a b : Z) : Z := Z.shiftr (u32 a) (Z.land b 0x1f).
Definition shl_long (a b : Z) : Z := s64 (a <<[64] Z.land b 0x3f).
Definition shr_long (a b : Z) : Z := Z.shiftr a (Z.land b 0x3f).
Definition ushr_long (a b : Z) : Z := Z.shiftr (u64 a) (Z.land b 0x3f).

Definition exec_int (c : Code) : option outcome :=
  let A := VRegA_23x d in
  let x := GetVReg f (VRegB_23x insns pc) in
  let y := GetVReg f (VRegC_23x insns pc) in
  let set v := next2 (SetVReg f A v) in
  match c with
  | ADD_INT => set (SafeAdd 32 x y)
  | SUB_INT => set (SafeSub 32 x y)
  | MUL_INT => set (SafeMul 32 x y)
  | DIV_INT => ending (DoIntDivide st A x y) (Next_2xx pc)
  | REM_INT => ending (DoIntRemainder st A x y) (Next_2xx pc)
  | SHL_INT => set (shl_int x y)
  | SHR_INT => set (shr_int x y)
  | USHR_INT => set (ushr_int x y)
  | AND_INT => set (Z.land x y)
  | OR_INT => set (Z.lor x y)
  | XOR_INT => set (Z.lxor x y)
  | _ => None
  end.

(** The distance of a long shift is a 32-bit register. *)
Definition exec_long (c : Code) : option outcome :=
  let A := VRegA_23x d in
  let x := GetVRegLong f (VRegB_23x insns pc) in
  let y := GetVRegLong f (VRegC_23x insns pc) in
  let n := GetVReg f (VRegC_23x insns pc) in
  let set v := next2 (SetVRegLong f A v) in
  match c with
  | ADD_LONG => set (SafeAdd 64 x y)
  | SUB_LONG => set (SafeSub 64 x y)
  | MUL_LONG => set (SafeMul 64 x y)
  | DIV_LONG => ending_pending (DoLongDivide st A x y) (Next_2xx pc)
  | REM_LONG => ending_pending (DoLongRemainder st A x y) (Next_2xx pc)
  | AND_LONG => set (Z.land x y)
  | OR_LONG => set (Z.lor x y)
  | XOR_LONG => set (Z.lxor x y)
  | SHL_LONG => set (shl_long x n)
  | SHR_LONG => set (shr_long x n)
  | USHR_LONG => set (ushr_long x n)
  | _ => None
  end.

Definition exec_floating (c : Code) : option outcome :=
  let A := VRegA_23x d in
  let B := VRegB_23x insns pc in
  let C := VRegC_23x insns pc in
  let setF op := next2 (SetVRegFloat f A (op binary32 (GetVRegFloat f B) (GetVRegFloat f C))) in
  let setD op :=
    next2 (SetVRegDouble f A (op binary64 (GetVRegDouble f B) (GetVRegDouble f C))) in
  match c with
  | ADD_FLOAT => setF fadd
  | SUB_FLOAT => setF fsub
  | MUL_FLOAT => setF fmul
  | DIV_FLOAT => setF fdiv
  | REM_FLOAT => setF frem
  | ADD_DOUBLE => setD fadd
  | SUB_DOUBLE => setD fsub
  | MUL_DOUBLE => setD fmul
  | DIV_DOUBLE => setD fdiv
  | REM_DOUBLE => setD frem
  | _ => None
  end.

Definition exec_int_2addr (c : Code) : option outcome :=
  let vregA := VRegA_12x d in
  let x := GetVReg f vregA in
  let y := GetVReg f (VRegB_12x d) in
  let set v := next1 (SetVReg f vregA v) in
  match c with
  | ADD_INT_2ADDR => set (SafeAdd 32 x y)
  | SUB_INT_2ADDR => set (SafeSub 32 x y)
  | MUL_INT_2ADDR => set (SafeMul 32 x y)
  | DIV_INT_2ADDR => ending (DoIntDivide st vregA x y) (Next_1xx pc)
  | REM_INT_2ADDR => ending (DoIntRemainder st vregA x y) (Next_1xx pc)
  | SHL_INT_2ADDR => set (shl_int x y)
  | SHR_INT_2ADDR => set (shr_int x y)
  | USHR_INT_2ADDR => set (ushr_int x y)
  | AND_INT_2ADDR => set (Z.land x y)
  | OR_INT_2ADDR => set (Z.lor x y)
  | XOR_INT_2ADDR => set (Z.lxor x y)
  | _ => None
  end.

Definition exec_long_2addr (c : Code) : option outcome :=
  let vregA := VRegA_12x d in
  let x := GetVRegLong f vregA in
  let y := GetVRegLong f (VRegB_12x d) in
  let n := GetVReg f (VRegB_12x d) in
  let set v := next1 (SetVRegLong f vregA v) in
  match c with
  | ADD_LONG_2ADDR => set (SafeAdd 64 x y)
  | SUB_LONG_2ADDR => set (SafeSub 64 x y)
  | MUL_LONG_2ADDR => set (SafeMul 64 x y)
  | DIV_LONG_2ADDR => ending_pending (DoLongDivide st vregA x y) (Next_1xx pc)
  | REM_LONG_2ADDR => ending_pending (DoLongRemainder st vregA x y) (Next_1xx pc)
  | AND_LONG_2ADDR => set (Z.land x y)
  | OR_LONG_2ADDR => set (Z.lor x y)
  | XOR_LONG_2ADDR => set (Z.lxor x y)
  | SHL_LONG_2ADDR => set (shl_long x n)
  | SHR_LONG_2ADDR => set (shr_long x n)
  | USHR_LONG_2ADDR => set (ushr_long x n)
  | _ => None
  end.

Definition exec_floating_2addr (c : Code) : option outcome :=
  let vregA := VRegA_12x d in
  let B := VRegB_12x d in
  let setF op :=
    next1 (SetVRegFloat f vregA (op binary32 (GetVRegFloat f vregA) (GetVRegFloat f B))) in
  let setD op :=
    next1 (SetVRegDouble f vregA (op binary64 (GetVRegDouble f vregA) (GetVRegDouble f B))) in
  match c with
  | ADD_FLOAT_2ADDR => setF fadd
  | SUB_FLOAT_2ADDR => setF fsub
  | MUL_FLOAT_2ADDR => setF fmul
  | DIV_FLOAT_2ADDR => setF fdiv
  | REM_FLOAT_2ADDR => setF frem
  | ADD_DOUBLE_2ADDR => setD fadd
  | SUB_DOUBLE_2ADDR => setD fsub
  | MUL_DOUBLE_2ADDR => setD fmul
  | DIV_DOUBLE_2ADDR => setD fdiv
  | REM_DOUBLE_2ADDR => setD frem
  | _ => None
  end.

(** [RSUB_INT] is [RSUB_INT_LIT16]. *)
Definition exec_lit16 (c : Code) : option outcome :=
  let A := VRegA_22s d in
  let x := GetVReg f (VRegB_22s d) in
  let y := VRegC_22s insns pc in
  let set v := next2 (SetVReg f A v) in
  match c with
  | ADD_INT_LIT16 => set (SafeAdd 32 x y)
  | RSUB_INT => set (SafeSub 32 y x)
  | MUL_INT_LIT16 => set (SafeMul 32 x y)
  | DIV_INT_LIT16 => ending (DoIntDivide st A x y) (Next_2xx pc)
  | REM_INT_LIT16 => ending (DoIntRemainder st A x y) (Next_2xx pc)
  | AND_INT_LIT16 => set (Z.land x y)
  | OR_INT_LIT16 => set (Z.lor x y)
  | XOR_INT_LIT16 => set (Z.lxor x y)
  | _ => None
  end.

Definition exec_lit8 (c : Code) : option outcome :=
  let A := VRegA_22b d in
  let x := GetVReg f (VRegB_22b insns pc) in
  let y := VRegC_22b insns pc in
  let set v := next2 (SetVReg f A v) in
  match c with
  | ADD_INT_LIT8 => set (SafeAdd 32 x y)
  | RSUB_INT_LIT8 => set (SafeSub 32 y x)
  | MUL_INT_LIT8 => set (SafeMul 32 x y)
  | DIV_INT_LIT8 => ending (DoIntDivide st A x y) (Next_2xx pc)
  | REM_INT_LIT8 => ending (DoIntRemainder st A x y) (Next_2xx pc)
  | AND_INT_LIT8 => set (Z.land x y)
  | OR_INT_LIT8 => set (Z.lor x y)
  | XOR_INT_LIT8 => set (Z.lxor x y)
  | SHL_INT_LIT8 => set (shl_int x y)
  | SHR_INT_LIT8 => set (shr_int x y)
  | USHR_INT_LIT8 => set (ushr_int x y)
  | _ => None
  end.

(** The experimental instructions; the closure they build up belongs to the service. *)
Definition exec_lambda (c : Code) : option outcome :=
  match c with
  | INVOKE_LAMBDA | CAPTURE_VARIABLE | CREATE_LAMBDA | LIBERATE_VARIABLE | BOX_LAMBDA
  | UNBOX_LAMBDA =>
      if lambdas_enabled then ending (DoLambda c st pc) (Next_2xx pc) else Some Unexpected
  | _ => None
  end.

Definition exec_unused (c : Code) : option outcome :=
  match c with
  | UNUSED_3E | UNUSED_3F | UNUSED_40 | UNUSED_41 | UNUSED_42 | UNUSED_43 | UNUSED_79
  | UNUSED_7A | UNUSED_F4 | UNUSED_FA | UNUSED_FB | UNUSED_FC | UNUSED_FD | UNUSED_FE
  | UNUSED_FF => Some Unexpected
  | _ => None
  end.

Definition groups : list (Code -> option outcome) :=
  [ exec_move; exec_return; exec_const; exec_resolve; exec_object; exec_goto; exec_cmp;
    exec_if; exec_ifz; exec_aget; exec_aput; exec_iget; exec_sget; exec_iput; exec_sput;
    exec_invoke; exec_unary; exec_int; exec_long; exec_floating; exec_int_2addr;
    exec_long_2addr; exec_floating_2addr; exec_lit16; exec_lit8; exec_lambda; exec_unused ].

Fixpoint first_group (l : list (Code -> option outcome)) (c : Code) : outcome :=
  match l with
  | [] => Undefined
  | g :: l => match g c with Some o => o | None => first_group l c end
  end.

(** The body of the [switch] on the instruction at [pc]. *)
Definition exec : outcome := first_group groups (opcode insns pc).
End Exec.

(** ** The dispatch loop *)

Section Loop.
Context {RS : RuntimeServices} (insns : code_units).

Definition kDexNoIndex : Z := 0xFFFFFFFF.

(** One iteration: record the pc, run the instruction, and on a pending exception poll for
    suspension and go to the handler, or leave the method with a zero value. *)
Definition iterate (st : state) (pc : Z) : outcome :=
  match exec insns pc (set_frame st (SetDexPC (frame st) pc)) with
  | Pending st1 =>
      match FindHandler (AllowThreadSuspension st1) pc with
      | (None, st2) => Exit st2 JValue.zero
      | (Some found, st2) => Continue st2 (RelativeAt pc (s32 (s32 found - s32 pc)))
      end
  | o => o
  end.

Inductive run_result :=
| Returned (st : state) (result : JValue.t)
| Aborted
| Stuck
| OutOfFuel.

(** [ExecuteSwitchImpl].  With [interpret_one_instruction] the loop runs once: a method that
    ended leaves [kDexNoIndex] in the frame, otherwise the frame records where it stopped. *)
Fixpoint run (fuel : nat) (interpret_one_instruction : bool) (st : state) (pc : Z)
  : run_result :=
  match fuel with
  | O => OutOfFuel
  | S fuel =>
      match iterate st pc with
      | Continue st1 pc1 =>
          if interpret_one_instruction
          then Returned (set_frame st1 (SetDexPC (frame st1) pc1)) (result_register st1)
          else run fuel interpret_one_instruction st1 pc1
      | Exit st1 v =>
          Returned
            (if interpret_one_instruction
             then set_frame st1 (SetDexPC (frame st1) kDexNoIndex) else st1) v
      | Pending _ => Stuck
      | Unexpected => Aborted
      | Undefined => Stuck
      end
  end.

Definition ExecuteSwitchImpl (fuel : nat) (interpret_one_instruction : bool) (st : state)
  : run_result :=
  run fuel interpret_one_instruction st (GetDexPC (frame st)).

(** Reachability of the dispatch loop. *)
Inductive steps : state * Z -> state * Z -> Prop :=
| steps_refl s : steps s s
| steps_next st pc st1 pc1 s :
    iterate st pc = Continue st1 pc1 -> steps (st1, pc1) s -> steps (st, pc) s.
End Loop.
