(* ===== verification/VerifierStatic.v ===== *)
(** * Static checks of the method verifier

    The passes of [MethodVerifier] (runtime/verifier/method_verifier.cc) that run before the
    data-flow analysis: [ComputeWidthsAndCountOps], [ScanTryCatchBlocks] and
    [VerifyInstructions] with [VerifyInstruction] and the checks it dispatches to, over the
    [InstructionFlags] of runtime/verifier/instruction_flags.h.

    The verifier object is explicit state in a small monad.  A computation that reads or writes
    [insn_flags_] outside its bounds has no value ([None]); so has a loop that runs out of
    fuel.  Failure messages and the resolution of exception types are not modelled. *)

From S2P Require Import Prelude DexOpcodes DexInstruction.

(** ** [InstructionFlags] *)
Module InstructionFlags.
Definition kVisited : Z := 0.
Definition kChanged : Z := 1.
Definition kOpcode : Z := 2.
Definition kInTry : Z := 3.
Definition kBranchTarget : Z := 4.
Definition kCompileTimeInfoPoint : Z := 5.
Definition kReturn : Z := 6.

(** [flags_ |= 1 << b], [flags_ &= ~(1 << b)] and [(flags_ & (1 << b)) != 0] on [uint8_t]. *)
Definition set_bit (b flags_ : Z) : Z := u8 (Z.lor flags_ (Z.shiftl 1 b)).
Definition clear_bit (b flags_ : Z) : Z := u8 (Z.land flags_ (Z.lnot (Z.shiftl 1 b))).
Definition is_bit (b flags_ : Z) : bool := negb (Z.land flags_ (Z.shiftl 1 b) =? 0).

Definition SetIsOpcode : Z -> Z := set_bit kOpcode.
Definition SetInTry : Z -> Z := set_bit kInTry.
Definition SetBranchTarget : Z -> Z := set_bit kBranchTarget.
Definition SetCompileTimeInfoPoint : Z -> Z := set_bit kCompileTimeInfoPoint.
Definition SetReturn : Z -> Z := set_bit kReturn.
Definition SetCompileTimeInfoPointAndReturn (f : Z) : Z := SetReturn (SetCompileTimeInfoPoint f).
Definition SetVisited : Z -> Z := set_bit kVisited.
Definition SetChanged : Z -> Z := set_bit kChanged.
Definition ClearChanged : Z -> Z := clear_bit kChanged.
Definition IsOpcode : Z -> bool := is_bit kOpcode.
Definition IsInTry : Z -> bool := is_bit kInTry.
Definition IsBranchTarget : Z -> bool := is_bit kBranchTarget.
Definition IsCompileTimeInfoPoint : Z -> bool := is_bit kCompileTimeInfoPoint.
Definition IsReturnFlag : Z -> bool := is_bit kReturn.
Definition IsChanged : Z -> bool := is_bit kChanged.
Definition IsVisited : Z -> bool := is_bit kVisited.
Definition IsVisitedOrChanged (f : Z) : bool := IsVisited f || IsChanged f.

(** Reading a bit after setting one. *)
Lemma is_bit_testbit b f : 0 <= b -> is_bit b f = Z.testbit f b.
Proof.
  intros Hb. unfold is_bit. rewrite Z.shiftl_1_l.
  destruct (Z.testbit f b) eqn:E.
  - destruct (Z.eqb_spec (Z.land f (2 ^ b)) 0) as [H|]; [|done].
    apply (f_equal (fun z => Z.testbit z b)) in H.
    by rewrite Z.land_spec, Z.bits_0, E, Z.pow2_bits_true in H by lia.
  - rewrite (proj2 (Z.eqb_eq _ _)); [done|]. apply Z.bits_inj'. intros n Hn.
    rewrite Z.land_spec, Z.bits_0, Z.pow2_bits_eqb by lia.
    destruct (Z.eqb_spec b n) as [<-|]; [by rewrite E|apply andb_false_r].
Qed.

Lemma is_bit_set_bit b c f :
  0 <= b < 8 -> 0 <= c < 8 -> is_bit b (set_bit c f) = (b =? c) || is_bit b f.
Proof.
  intros Hb Hc. rewrite !is_bit_testbit by lia. unfold set_bit, wrapu.
  rewrite Z.mod_pow2_bits_low, Z.lor_spec, Z.shiftl_1_l, Z.pow2_bits_eqb by lia.
  rewrite (Z.eqb_sym c b). apply orb_comm.
Qed.
End InstructionFlags.
Import InstructionFlags.

(** ** The method's code *)
Record TryItem := mkTry { start_addr_ : Z; insn_count_ : Z }.

Record CodeItem := mkCodeItem {
  registers_size_ : Z;
  ins_size_ : Z;
  insns_size_in_code_units_ : Z;
  insns_ : code_units;
  (** The address of [insns_], for the alignment checks. *)
  insns_address : Z;
  tries_ : list TryItem;
  (** The addresses [CatchHandlerIterator] yields over all handler lists. *)
  handler_addresses : list Z
}.

Record code_item_ok (c : CodeItem) : Prop := {
  ci_units : units_ok (insns_ c);
  ci_regs : in_u 16 (registers_size_ c);
  ci_size : 0 < insns_size_in_code_units_ c < 2 ^ 31
}.

(** What the checks read of the dex file. *)
Record DexFile := mkDexFile {
  string_ids_size_ : Z;
  type_ids_size_ : Z;
  field_ids_size_ : Z;
  method_ids_size_ : Z;
  (** Bytes of the descriptor, without the terminating zero. *)
  StringByTypeIdx : Z -> list Z
}.

(** ** The verifier object *)
Inductive VerifyError :=
| VERIFY_ERROR_BAD_CLASS_HARD | VERIFY_ERROR_BAD_CLASS_SOFT
| VERIFY_ERROR_NO_CLASS | VERIFY_ERROR_NO_FIELD | VERIFY_ERROR_NO_METHOD
| VERIFY_ERROR_ACCESS_CLASS | VERIFY_ERROR_ACCESS_FIELD | VERIFY_ERROR_ACCESS_METHOD
| VERIFY_ERROR_CLASS_CHANGE | VERIFY_ERROR_INSTANTIATION | VERIFY_ERROR_FORCE_INTERPRETER
| VERIFY_ERROR_LOCKING.
#[global] Instance VerifyError_eq_dec : EqDecision VerifyError.
Proof. solve_decision. Defined.

Record Verifier := mkVerifier {
  insn_flags_ : list Z;
  failures_ : list VerifyError;
  have_pending_hard_failure_ : bool;
  have_pending_runtime_throw_failure_ : bool;
  have_pending_experimental_failure_ : bool;
  has_check_casts_ : bool;
  has_virtual_or_interface_invokes_ : bool;
  new_instance_count_ : Z;
  monitor_enter_count_ : Z
}.

Definition set_flags (v : Verifier) (l : list Z) : Verifier :=
  mkVerifier l (failures_ v) (have_pending_hard_failure_ v)
    (have_pending_runtime_throw_failure_ v) (have_pending_experimental_failure_ v)
    (has_check_casts_ v) (has_virtual_or_interface_invokes_ v) (new_instance_count_ v)
    (monitor_enter_count_ v).

Definition set_features (v : Verifier) (casts invokes : bool) : Verifier :=
  mkVerifier (insn_flags_ v) (failures_ v) (have_pending_hard_failure_ v)
    (have_pending_runtime_throw_failure_ v) (have_pending_experimental_failure_ v)
    casts invokes (new_instance_count_ v) (monitor_enter_count_ v).

Definition set_counts (v : Verifier) (new_instances monitor_enters : Z) : Verifier :=
  mkVerifier (insn_flags_ v) (failures_ v) (have_pending_hard_failure_ v)
    (have_pending_runtime_throw_failure_ v) (have_pending_experimental_failure_ v)
    (has_check_casts_ v) (has_virtual_or_interface_invokes_ v) new_instances monitor_enters.

Definition set_failure (v : Verifier) (e : VerifyError) (hard throw experimental : bool)
  : Verifier :=
  mkVerifier (insn_flags_ v) (failures_ v ++ [e]) hard throw experimental
    (has_check_casts_ v) (has_virtual_or_interface_invokes_ v) (new_instance_count_ v)
    (monitor_enter_count_ v).

(** The state and failure monad of the passes. *)
Definition VM (A : Type) : Type := Verifier -> option (A * Verifier).
Definition ret {A} (a : A) : VM A := fun v => Some (a, v).
Definition bind {A B} (m : VM A) (k : A -> VM B) : VM B :=
  fun v => match m v with Some (a, v') => k a v' | None => None end.
Declare Scope vm_scope.
Delimit Scope vm_scope with vm.
Notation "'do' x <- m ; k" := (bind m (fun x => k))
  (at level 10, x name, m at level 100, k at level 200) : vm_scope.
Notation "m ;; k" := (bind m (fun _ => k)) (at level 100, right associativity) : vm_scope.
#[local] Open Scope vm_scope.

(** [GetInstructionFlags(i)], read and updated. *)
Definition GetInstructionFlags (i : Z) : VM Z :=
  fun v => if (0 <=? i) && (i <? Z.of_nat (length (insn_flags_ v)))
           then Some (rd (insn_flags_ v) i, v) else None.
Definition UpdateInstructionFlags (i : Z) (g : Z -> Z) : VM unit :=
  fun v => if (0 <=? i) && (i <? Z.of_nat (length (insn_flags_ v)))
           then Some (tt, set_flags v (wr (insn_flags_ v) i (g (rd (insn_flags_ v) i))))
           else None.

(** What the verifier knows of its environment. *)
Section Checks.
Context (code_item_ : CodeItem) (dex_file_ : DexFile).
Context (IsAotCompiler can_load_classes_ allow_soft_failures_ verify_to_dump_ : bool).

(** [Fail]; the copy of the register line is part of the data-flow analysis. *)
Definition Fail_ (error : VerifyError) : VM unit := fun v =>
  let hard := have_pending_hard_failure_ v in
  let throw := have_pending_runtime_throw_failure_ v in
  let exp := have_pending_experimental_failure_ v in
  match error with
  | VERIFY_ERROR_NO_CLASS | VERIFY_ERROR_NO_FIELD | VERIFY_ERROR_NO_METHOD
  | VERIFY_ERROR_ACCESS_CLASS | VERIFY_ERROR_ACCESS_FIELD | VERIFY_ERROR_ACCESS_METHOD
  | VERIFY_ERROR_INSTANTIATION | VERIFY_ERROR_CLASS_CHANGE | VERIFY_ERROR_FORCE_INTERPRETER
  | VERIFY_ERROR_LOCKING =>
      if IsAotCompiler || negb can_load_classes_
      then Some (tt, set_failure v VERIFY_ERROR_BAD_CLASS_SOFT hard throw exp)
      else Some (tt, set_failure v error hard true exp)
  | VERIFY_ERROR_BAD_CLASS_SOFT =>
      Some (tt, set_failure v error (hard || negb allow_soft_failures_) throw exp)
  | VERIFY_ERROR_BAD_CLASS_HARD => Some (tt, set_failure v error true throw exp)
  end.

Definition set_experimental : VM unit := fun v =>
  Some (tt, mkVerifier (insn_flags_ v) (failures_ v) (have_pending_hard_failure_ v)
              (have_pending_runtime_throw_failure_ v) true (has_check_casts_ v)
              (has_virtual_or_interface_invokes_ v) (new_instance_count_ v)
              (monitor_enter_count_ v)).

(** A check that fails hard when [bad]. *)
Definition check (bad : bool) : VM bool :=
  if bad then Fail_ VERIFY_ERROR_BAD_CLASS_HARD ;; ret false else ret true.

Definition CheckRegisterIndex (idx : Z) : VM bool := check (registers_size_ code_item_ <=? idx).
Definition CheckWideRegisterIndex (idx : Z) : VM bool :=
  check (registers_size_ code_item_ <=? u32 (idx + 1)).
Definition CheckFieldIndex (idx : Z) : VM bool := check (field_ids_size_ dex_file_ <=? idx).
Definition CheckMethodIndex (idx : Z) : VM bool := check (method_ids_size_ dex_file_ <=? idx).
Definition CheckStringIndex (idx : Z) : VM bool := check (string_ids_size_ dex_file_ <=? idx).
Definition CheckTypeIndex (idx : Z) : VM bool := check (type_ids_size_ dex_file_ <=? idx).

Definition CheckNewInstance (idx : Z) : VM bool :=
  if type_ids_size_ dex_file_ <=? idx then check true
  else check (negb (hd 0 (StringByTypeIdx dex_file_ idx) =? 0x4c)).

(** The number of leading ['[']. *)
Fixpoint bracket_count (cp : list Z) : Z :=
  match cp with
  | c :: cp => if c =? 0x5b then 1 + bracket_count cp else 0
  | [] => 0
  end.

Definition CheckNewArray (idx : Z) : VM bool :=
  if type_ids_size_ dex_file_ <=? idx then check true
  else
    let n := bracket_count (StringByTypeIdx dex_file_ idx) in
    check ((n =? 0) || (255 <? n)).

(** [IsAligned<4>] of the address of unit [i]. *)
Definition unit_aligned (i : Z) : bool := (insns_address code_item_ + 2 * i) mod 4 =? 0.

Let insns := insns_ code_item_.
Let insn_count := insns_size_in_code_units_ code_item_.

Definition CheckArrayData (cur_offset : Z) : VM bool :=
  let array_data_offset := s32 (Fetch32 insns cur_offset 1) in
  if (s32 (s32 cur_offset + array_data_offset) <? 0)
     || (insn_count <=? u32 (cur_offset + array_data_offset + 2))
  then check true
  else
    let array_data := cur_offset + array_data_offset in
    if negb (unit_aligned array_data) then check true
    else
      do flags <- GetInstructionFlags (u32 (cur_offset + array_data_offset)) ;
      if negb (IsOpcode flags) then check true
      else
        let value_width := insns (array_data + 1) in
        let value_count := insns (array_data + 2) + 65536 * insns (array_data + 3) in
        let table_size := u32 (4 + u32 (value_width * value_count + 1) / 2) in
        check (insn_count <? u32 (cur_offset + array_data_offset + table_size)).

(** [GetBranchOffset]: the offset, whether the branch is conditional and whether it may
    branch to itself. *)
Definition GetBranchOffset (cur_offset : Z) : option (Z * bool * bool) :=
  let u0 := insns cur_offset in
  match Code_of (Z.land u0 0xff) with
  | GOTO => Some (Z.shiftr (s16 u0) 8, false, false)
  | GOTO_32 => Some (s32 (Fetch32 insns cur_offset 1), false, true)
  | GOTO_16 => Some (s16 (insns (cur_offset + 1)), false, false)
  | IF_EQ | IF_NE | IF_LT | IF_GE | IF_GT | IF_LE | IF_EQZ | IF_NEZ | IF_LTZ | IF_GEZ
  | IF_GTZ | IF_LEZ => Some (s16 (insns (cur_offset + 1)), true, false)
  | _ => None
  end.

Definition CheckBranchTarget (cur_offset : Z) : VM bool :=
  match GetBranchOffset cur_offset with
  | None => ret false
  | Some (offset, _, selfOkay) =>
      if negb selfOkay && (offset =? 0) then check true
      else if negb (cur_offset + offset =? u32 (cur_offset + offset)) then check true
      else
        let abs_offset := s32 (cur_offset + offset) in
        if (abs_offset <? 0) || (insn_count <=? u32 abs_offset) then check true
        else
          do flags <- GetInstructionFlags abs_offset ;
          if negb (IsOpcode flags) then check true
          else UpdateInstructionFlags abs_offset SetBranchTarget ;; ret true
  end.

(** The [int32_t] the switch checks assemble from units [p] and [p + 1]. *)
Definition table_int32 (p : Z) : Z := s32 (Fetch32 insns p 0).

(** The loop over the keys of a sparse switch, from the key after [last_key]. *)
Fixpoint check_ascending (n : nat) (switch_insns targ last_key : Z) : VM bool :=
  match n with
  | O => ret true
  | S n =>
      let key := table_int32 (switch_insns + 2 + targ * 2) in
      if key <=? last_key then check true
      else check_ascending n switch_insns (targ + 1) key
  end.

(** The loop over the targets. *)
Fixpoint check_targets (n : nat) (cur_offset targets targ : Z) : VM bool :=
  match n with
  | O => ret true
  | S n =>
      let offset := table_int32 (targets + targ * 2) in
      let abs_offset := s32 (cur_offset + offset) in
      if (abs_offset <? 0) || (s32 insn_count <=? abs_offset) then check true
      else
        do flags <- GetInstructionFlags abs_offset ;
        if negb (IsOpcode flags) then check true
        else UpdateInstructionFlags abs_offset SetBranchTarget ;;
             check_targets n cur_offset targets (targ + 1)
  end.

Definition CheckSwitchTargets (cur_offset : Z) : VM bool :=
  let switch_offset := s32 (Fetch32 insns cur_offset 1) in
  if (s32 (s32 cur_offset + switch_offset) <? 0)
     || (insn_count <? u32 (cur_offset + switch_offset + 2))
  then check true
  else
    let switch_insns := cur_offset + switch_offset in
    if negb (unit_aligned switch_insns) then check true
    else
      do flags <- GetInstructionFlags (u32 (cur_offset + switch_offset)) ;
      if negb (IsOpcode flags) then check true
      else
        let is_packed_switch := Z.land (insns cur_offset) 0xff =? Code_value PACKED_SWITCH in
        let switch_count := insns (switch_insns + 1) in
        let targets_offset := if is_packed_switch then 4 else 2 + 2 * switch_count in
        let expected_signature :=
          if is_packed_switch then kPackedSwitchSignature else kSparseSwitchSignature in
        let table_size := u32 (targets_offset + switch_count * 2) in
        if negb (insns switch_insns =? expected_signature) then check true
        else if insn_count <? u32 (cur_offset + switch_offset + table_size) then check true
        else
          do keys_ok <-
            (if 1 <? switch_count then
               let first_key := table_int32 (switch_insns + 2) in
               if is_packed_switch then
                 let max_first_key := INT32_MAX - (s32 switch_count - 1) in
                 check (max_first_key <? first_key)
               else check_ascending (Z.to_nat (switch_count - 1)) switch_insns 1 first_key
             else ret true) ;
          if keys_ok then
            check_targets (Z.to_nat switch_count) cur_offset (switch_insns + targets_offset) 0
          else ret false.

(** The first [vA] registers of [arg] are in range. *)
Definition CheckVarArgRegs (vA : Z) (arg : list Z) : VM bool :=
  check (existsb (fun r => registers_size_ code_item_ <=? r) (take (Z.to_nat vA) arg)).

Definition CheckVarArgRangeRegs (vA vC : Z) : VM bool :=
  check (registers_size_ code_item_ <? u32 (vA + vC)).

Definition kMaxVarArgRegs : Z := 5.

(** [result && m]. *)
Definition and_then (result : bool) (m : VM bool) : VM bool :=
  if result then m else ret false.

(** The operands of the instruction as [uint32_t] arguments of the checks. *)
Definition argA (pc : Z) : Z := u32 (default 0 (VRegA insns pc)).
Definition argB (pc : Z) : Z := u32 (default 0 (VRegB insns pc)).
Definition argC (pc : Z) : Z := u32 (default 0 (VRegC insns pc)).

Definition VerifyArgumentA (pc : Z) (c : Code) (result : bool) : VM bool :=
  let t := GetVerifyTypeArgumentA c in
  if t =? kVerifyRegA then and_then result (CheckRegisterIndex (argA pc))
  else if t =? kVerifyRegAWide then and_then result (CheckWideRegisterIndex (argA pc))
  else ret result.

Definition VerifyArgumentB (pc : Z) (c : Code) (result : bool) : VM bool :=
  let t := GetVerifyTypeArgumentB c in
  if t =? kVerifyRegB then and_then result (CheckRegisterIndex (argB pc))
  else if t =? kVerifyRegBField then and_then result (CheckFieldIndex (argB pc))
  else if t =? kVerifyRegBMethod then and_then result (CheckMethodIndex (argB pc))
  else if t =? kVerifyRegBNewInstance then and_then result (CheckNewInstance (argB pc))
  else if t =? kVerifyRegBString then and_then result (CheckStringIndex (argB pc))
  else if t =? kVerifyRegBType then and_then result (CheckTypeIndex (argB pc))
  else if t =? kVerifyRegBWide then and_then result (CheckWideRegisterIndex (argB pc))
  else ret result.

Definition VerifyArgumentC (pc : Z) (c : Code) (result : bool) : VM bool :=
  let t := GetVerifyTypeArgumentC c in
  if t =? kVerifyRegC then and_then result (CheckRegisterIndex (argC pc))
  else if t =? kVerifyRegCField then and_then result (CheckFieldIndex (argC pc))
  else if t =? kVerifyRegCNewArray then and_then result (CheckNewArray (argC pc))
  else if t =? kVerifyRegCType then and_then result (CheckTypeIndex (argC pc))
  else if t =? kVerifyRegCWide then and_then result (CheckWideRegisterIndex (argC pc))
  else if t =? kVerifyRegCString then and_then result (CheckStringIndex (argC pc))
  else ret result.

(** The switch on the extra flags; the argument counts return early, so the second component
    tells whether [VerifyInstruction] goes on. *)
Definition VerifyExtra (pc : Z) (c : Code) (result : bool) : VM (bool * bool) :=
  let t := GetVerifyExtraFlags c in
  let on (m : VM bool) : VM (bool * bool) := do r <- and_then result m ; ret (r, true) in
  if t =? kVerifyArrayData then on (CheckArrayData pc)
  else if t =? kVerifyBranchTarget then on (CheckBranchTarget pc)
  else if t =? kVerifySwitchTargets then on (CheckSwitchTargets pc)
  else if (t =? kVerifyVarArgNonZero) || (t =? kVerifyVarArg) then
    let v_a := argA pc in
    if ((t =? kVerifyVarArgNonZero) && (v_a =? 0)) || (kMaxVarArgRegs <? v_a) then
      do r <- check true ; ret (r, false)
    else
      on (CheckVarArgRegs v_a (GetVarArgs insns pc (replicate 5 0) (Fetch16 insns pc 0)))
  else if (t =? kVerifyVarArgRangeNonZero) || (t =? kVerifyVarArgRange) then
    if (t =? kVerifyVarArgRangeNonZero) && (default 0 (VRegA insns pc) <=? 0) then
      do r <- check true ; ret (r, false)
    else on (CheckVarArgRangeRegs (argA pc) (argC pc))
  else if t =? kVerifyError then do r <- check true ; ret (r, true)
  else ret (result, true).

Definition VerifyInstruction (code_offset : Z) : VM bool :=
  let c := opcode insns code_offset in
  if IsExperimental c then
    Fail_ VERIFY_ERROR_FORCE_INTERPRETER ;; set_experimental ;; ret false
  else
    do a <- VerifyArgumentA code_offset c true ;
    do b <- VerifyArgumentB code_offset c a ;
    do r <- VerifyArgumentC code_offset c b ;
    do e <- VerifyExtra code_offset c r ;
    if snd e then
      if GetVerifyIsRuntimeOnly c && IsAotCompiler && negb verify_to_dump_ then check true
      else ret (fst e)
    else ret (fst e).

(** ** The passes *)

Definition SizeOf (pc : Z) : VM Z :=
  fun v => match SizeInCodeUnits insns pc with Some n => Some (n, v) | None => None end.

(** The features [ComputeWidthsAndCountOps] records. *)
Definition note_features (c : Code) : VM unit := fun v =>
  match c with
  | APUT_OBJECT | CHECK_CAST =>
      Some (tt, set_features v true (has_virtual_or_interface_invokes_ v))
  | INVOKE_VIRTUAL | INVOKE_VIRTUAL_RANGE | INVOKE_INTERFACE | INVOKE_INTERFACE_RANGE =>
      Some (tt, set_features v (has_check_casts_ v) true)
  | _ => Some (tt, v)
  end.

Definition count_if (c c' : Code) (n : Z) : Z := if bool_decide (c = c') then n + 1 else n.

(** The [while] loop: the final [dex_pc] and the two counters. *)
Fixpoint widths_loop (fuel : nat) (dex_pc new_instance_count monitor_enter_count : Z)
  : VM (Z * Z * Z) :=
  if dex_pc <? insn_count then
    match fuel with
    | O => fun _ => None
    | S fuel =>
        let c := opcode insns dex_pc in
        note_features c ;;
        do inst_size <- SizeOf dex_pc ;
        UpdateInstructionFlags dex_pc SetIsOpcode ;;
        widths_loop fuel (dex_pc + inst_size)
          (count_if c NEW_INSTANCE new_instance_count)
          (count_if c MONITOR_ENTER monitor_enter_count)
    end
  else ret (dex_pc, new_instance_count, monitor_enter_count).

(** A loop that advances by at least one unit runs at most [insn_count] times. *)
Definition pass_fuel : nat := Z.to_nat insn_count.

Definition ComputeWidthsAndCountOps : VM bool :=
  do r <- widths_loop pass_fuel 0 0 0 ;
  if negb (fst (fst r) =? insn_count) then check true
  else fun v => Some (true, set_counts v (snd (fst r)) (snd r)).

(** The instructions of a try block. *)
Fixpoint in_try_loop (fuel : nat) (dex_pc end_ : Z) : VM unit :=
  if dex_pc <? end_ then
    match fuel with
    | O => fun _ => None
    | S fuel =>
        UpdateInstructionFlags dex_pc SetInTry ;;
        do insn_size <- SizeOf dex_pc ;
        in_try_loop fuel (u32 (dex_pc + insn_size)) end_
    end
  else ret tt.

Fixpoint scan_tries (tries : list TryItem) : VM bool :=
  match tries with
  | [] => ret true
  | t :: tries =>
      let start := start_addr_ t in
      let end_ := u32 (start + insn_count_ t) in
      if (end_ <=? start) || (insn_count <=? start) || (insn_count <? end_) then check true
      else
        do flags <- GetInstructionFlags start ;
        if negb (IsOpcode flags) then check true
        else in_try_loop pass_fuel start end_ ;; scan_tries tries
  end.

Definition CheckNotMoveResult (insn_idx : Z) : VM bool :=
  let o := Z.land (insns insn_idx) 0xff in
  check ((Code_value MOVE_RESULT <=? o) && (o <=? Code_value MOVE_RESULT_OBJECT)).

Definition CheckNotMoveException (insn_idx : Z) : VM bool :=
  check (Z.land (insns insn_idx) 0xff =? Code_value MOVE_EXCEPTION).

Fixpoint scan_handlers (handlers : list Z) : VM bool :=
  match handlers with
  | [] => ret true
  | dex_pc :: handlers =>
      do flags <- GetInstructionFlags dex_pc ;
      if negb (IsOpcode flags) then check true
      else
        do ok <- CheckNotMoveResult dex_pc ;
        if negb ok then check true
        else UpdateInstructionFlags dex_pc SetBranchTarget ;; scan_handlers handlers
  end.

Definition ScanTryCatchBlocks : VM bool :=
  if (length (tries_ code_item_) =? 0)%nat then ret true
  else
    do ok <- scan_tries (tries_ code_item_) ;
    if ok then scan_handlers (handler_addresses code_item_) else ret false.

(** The flags [VerifyInstructions] sets after an accepted instruction. *)
Definition mark_instruction (dex_pc : Z) : VM unit :=
  let c := opcode insns dex_pc in
  if IsBranch c then
    let offset := match GetBranchOffset dex_pc with Some (o, _, _) => o | None => 0 end in
    UpdateInstructionFlags dex_pc SetCompileTimeInfoPoint ;;
    UpdateInstructionFlags (u32 (dex_pc + offset)) SetCompileTimeInfoPoint
  else if IsSwitch c || IsThrow c then UpdateInstructionFlags dex_pc SetCompileTimeInfoPoint
  else if IsReturn c then UpdateInstructionFlags dex_pc SetCompileTimeInfoPointAndReturn
  else ret tt.

(** [inst] points to unit [dex_pc]: the sweep that ran before ends at [insn_count], so
    [dex_pc] does not wrap. *)
Fixpoint verify_loop (fuel : nat) (dex_pc : Z) : VM bool :=
  if dex_pc <? insn_count then
    match fuel with
    | O => fun _ => None
    | S fuel =>
        do ok <- VerifyInstruction dex_pc ;
        if negb ok then ret false
        else
          mark_instruction dex_pc ;;
          do n <- SizeOf dex_pc ;
          verify_loop fuel (u32 (dex_pc + n))
    end
  else ret true.

Definition VerifyInstructions : VM bool :=
  UpdateInstructionFlags 0 SetBranchTarget ;;
  UpdateInstructionFlags 0 SetCompileTimeInfoPoint ;;
  verify_loop pass_fuel 0.

(** The end of [Verify], without the code-flow analysis: the register counts, the fresh
    [insn_flags_], then the three passes. *)
Definition alloc_insn_flags : VM unit :=
  fun v => Some (tt, set_flags v (replicate (Z.to_nat insn_count) 0)).

Definition VerifyStatic : VM bool :=
  if registers_size_ code_item_ <? ins_size_ code_item_ then check true
  else
    alloc_insn_flags ;;
    do widths <- ComputeWidthsAndCountOps ;
    do tries <- and_then widths ScanTryCatchBlocks ;
    and_then tries VerifyInstructions.
End Checks.
