(* ===== verification/VerifierProps.v ===== *)
(** * What the static checks of the verifier establish

    The sweep marks exactly the instruction boundaries; the passes never index outside
    [insn_flags_]; an accepted instruction has its registers, branch targets, switch tables and
    array data in range. *)

From S2P Require Import Prelude DexOpcodes DexInstruction VerifierStatic.
Import InstructionFlags.
#[local] Open Scope vm_scope.

(** ** Opcode marks *)

(** Position [i] is marked as the start of an instruction. *)
Definition marked (v : Verifier) (i : Z) : bool :=
  (0 <=? i) && (i <? Z.of_nat (length (insn_flags_ v))) && IsOpcode (rd (insn_flags_ v) i).

(** The states differ at most in flags other than [kOpcode]. *)
Definition same_marks (v v' : Verifier) : Prop :=
  length (insn_flags_ v') = length (insn_flags_ v) /\ forall i, marked v' i = marked v i.

#[global] Instance same_marks_preorder : PreOrder same_marks.
Proof.
  split; [by split|]. intros v1 v2 v3 [L1 H1] [L2 H2]. split; [congruence|].
  intros i. by rewrite H2.
Qed.

#[global] Instance marked_proper : Proper (same_marks ==> eq ==> eq) marked.
Proof. intros v v' [_ H] i i' <-. done. Qed.

(** A preorder on states that holds across every step of the checks: steps that leave the flags,
    and steps that set one of the flags other than [kVisited], [kChanged] and [kOpcode]. *)
Class StepRel (R : relation Verifier) : Prop := {
  sr_pre :: PreOrder R;
  sr_flags v v' : insn_flags_ v' = insn_flags_ v -> R v v';
  sr_bit v i b : 0 <= i < Z.of_nat (length (insn_flags_ v)) -> 3 <= b < 7 ->
    R v (set_flags v (wr (insn_flags_ v) i (set_bit b (rd (insn_flags_ v) i))))
}.

(** Computations whose steps stay within the relation. *)
Class Within (R : relation Verifier) {A} (m : VM A) : Prop :=
  within : forall v a v', m v = Some (a, v') -> R v v'.

Lemma update_some i g v a v' :
  UpdateInstructionFlags i g v = Some (a, v') ->
  0 <= i < Z.of_nat (length (insn_flags_ v))
  /\ v' = set_flags v (wr (insn_flags_ v) i (g (rd (insn_flags_ v) i))).
Proof.
  unfold UpdateInstructionFlags. case_match eqn:E; [|done]. intros [= <- <-].
  split; [lia|done].
Qed.

Section WithinBasics.
Context {R : relation Verifier} {SR : StepRel R}.

#[global] Instance within_ret {A} (a : A) : Within R (ret a).
Proof. intros v b v' [= <- <-]. reflexivity. Qed.
#[global] Instance within_bind {A B} (m : VM A) (k : A -> VM B) :
  Within R m -> (forall a, Within R (k a)) -> Within R (bind m k).
Proof.
  intros Hm Hk v b v'. unfold bind. destruct (m v) as [[a w]|] eqn:E; [|done].
  intros H. etrans; [by eapply Hm|by eapply Hk].
Qed.
#[global] Instance within_if {A} (b : bool) (m1 m2 : VM A) :
  Within R m1 -> Within R m2 -> Within R (if b then m1 else m2).
Proof. by destruct b. Qed.

(** A computation that does not touch the flags. *)
Lemma within_flags {A} (m : VM A) :
  (forall v a v', m v = Some (a, v') -> insn_flags_ v' = insn_flags_ v) -> Within R m.
Proof. intros H v a v' E. by eapply sr_flags, H. Qed.

#[global] Instance within_Fail b1 b2 b3 e : Within R (Fail_ b1 b2 b3 e).
Proof.
  apply within_flags. intros v a v'. unfold Fail_.
  destruct e, (b1 || negb b2); intros [= <- <-]; done.
Qed.
#[global] Instance within_check b1 b2 b3 b : Within R (check b1 b2 b3 b).
Proof. unfold check. apply _. Qed.
#[global] Instance within_experimental : Within R set_experimental.
Proof. apply within_flags. by intros v a v' [= <- <-]. Qed.
#[global] Instance within_get i : Within R (GetInstructionFlags i).
Proof.
  apply within_flags. intros v a v'. unfold GetInstructionFlags. case_match; [|done].
  by intros [= <- <-].
Qed.
#[global] Instance within_size c pc : Within R (SizeOf c pc).
Proof.
  apply within_flags. intros v a v'. unfold SizeOf. case_match; [|done]. by intros [= <- <-].
Qed.

Lemma within_update_bit i b : 3 <= b < 7 -> Within R (UpdateInstructionFlags i (set_bit b)).
Proof. intros Hb v a v' H. apply update_some in H as [Hi ->]. by apply sr_bit. Qed.
#[global] Instance within_branch_target i : Within R (UpdateInstructionFlags i SetBranchTarget).
Proof. by apply within_update_bit. Qed.
#[global] Instance within_in_try i : Within R (UpdateInstructionFlags i SetInTry).
Proof. by apply within_update_bit. Qed.
#[global] Instance within_info_point i :
  Within R (UpdateInstructionFlags i SetCompileTimeInfoPoint).
Proof. by apply within_update_bit. Qed.
End WithinBasics.

Lemma marked_update v i j g :
  0 <= i < Z.of_nat (length (insn_flags_ v)) ->
  marked (set_flags v (wr (insn_flags_ v) i (g (rd (insn_flags_ v) i)))) j
  = if j =? i then IsOpcode (g (rd (insn_flags_ v) i)) else marked v j.
Proof.
  intros Hi. unfold marked. cbn [insn_flags_ set_flags]. rewrite length_wr.
  destruct (Z.leb_spec 0 j); [|by destruct (Z.eqb_spec j i); [lia|]].
  rewrite rd_wr, Z.eqb_sym by lia. destruct (Z.eqb_spec j i) as [->|]; [|done].
  by rewrite (proj2 (Z.ltb_lt i _)) by lia.
Qed.

#[global] Instance same_marks_steps : StepRel same_marks.
Proof.
  split; [apply _| |].
  - intros v v' E. unfold same_marks, marked. by rewrite E.
  - intros v i b Hi Hb. split; [cbn; by rewrite length_wr|]. intros j. rewrite marked_update by done.
    destruct (Z.eqb_spec j i) as [->|]; [|done].
    unfold IsOpcode. rewrite is_bit_set_bit by (unfold kOpcode; lia).
    rewrite (proj2 (Z.eqb_neq kOpcode b)) by (unfold kOpcode; lia). unfold marked.
    rewrite (proj2 (Z.leb_le 0 i)), (proj2 (Z.ltb_lt i _)) by lia. done.
Qed.

(** Every check keeps the marks. *)
Lemma keeps {A} {m : VM A} `{!Within same_marks m} v a v' : m v = Some (a, v') -> same_marks v v'.
Proof. apply within. Qed.

(** ** Instruction boundaries *)
Lemma SizeInCodeUnits_positive insns pc :
  units_ok insns -> exists n, SizeInCodeUnits insns pc = Some n /\ 0 < n.
Proof.
  intros Hok. unfold SizeInCodeUnits.
  destruct (Z.ltb_spec (kInstructionSizeInCodeUnits (Code_value (opcode insns pc))) 0) as [Hneg|Hpos].
  - assert (opcode insns pc = NOP) as Hnop.
    { revert Hneg. destruct (opcode insns pc); try done; vm_compute; done. }
    assert ((Z.land (Fetch16 insns pc 0) 0xFF =? 0) = true) as Hz.
    { rewrite land_0xff. pose proof (opcode_value insns pc Hok) as Hv. rewrite Hnop in Hv.
      change (2 ^ 8) with 256. by rewrite <- Hv. }
    unfold SizeInCodeUnitsComplexOpcode. pose proof (Fetch16_range insns pc Hok 1).
    case_match; [eexists; split; [done|lia]|].
    case_match; [eexists; split; [done|lia]|].
    case_match; [|rewrite Hz; eexists; split; [done|lia]].
    eexists; split; [done|].
    assert (forall x, in_u 32 x -> 0 < u32 (4 + x / 2)) as Hu.
    { intros x Hx. unfold_width. dlia. }
    apply Hu, wrapu_range. lia.
  - eexists; split; [done|]. revert Hpos. destruct (opcode insns pc); vm_compute; done.
Qed.

Section Boundaries.
Context (ci : CodeItem) (Hci : code_item_ok ci).
#[local] Abbreviation insns := (insns_ ci).
#[local] Abbreviation n_units := (insns_size_in_code_units_ ci).

(** The positions the linear sweep visits, and the one it ends at. *)
Inductive boundary : Z -> Prop :=
| boundary_0 : boundary 0
| boundary_next p n :
    boundary p -> p < n_units -> SizeInCodeUnits insns p = Some n -> boundary (p + n).

Lemma size_positive p n : SizeInCodeUnits insns p = Some n -> 0 < n.
Proof.
  intros H. destruct (SizeInCodeUnits_positive insns p (ci_units _ Hci)) as (m & Hm & ?).
  congruence.
Qed.

Lemma boundary_nonneg p : boundary p -> 0 <= p.
Proof. induction 1 as [|p n _ ? _ Hn]; [lia|]. apply size_positive in Hn. lia. Qed.

(** No boundary lies inside an instruction. *)
Lemma boundary_gap p q n :
  boundary p -> boundary q -> SizeInCodeUnits insns p = Some n -> p < q -> p + n <= q.
Proof.
  intros Hp Hq. remember (p + q) as k eqn:Ek.
  assert (0 <= k) as Hk by (pose proof (boundary_nonneg _ Hp);
    pose proof (boundary_nonneg _ Hq); lia).
  revert p q n Hp Hq Ek. pattern k. apply Z_lt_induction; [|done]. clear k Hk.
  intros k IH p q n Hp Hq -> Hn Hlt.
  destruct Hq as [|q m Hq Hq' Hm]; [pose proof (boundary_nonneg _ Hp); lia|].
  pose proof (size_positive _ _ Hm). pose proof (boundary_nonneg _ Hp).
  pose proof (boundary_nonneg _ Hq). destruct (Z.lt_trichotomy p q) as [|[->|]].
  - enough (p + n <= q) by lia. apply (IH (p + q) ltac:(lia) p q); done.
  - rewrite Hm in Hn. injection Hn as ->. lia.
  - enough (q + m <= p) by lia. apply (IH (q + p) ltac:(lia) q p); done.
Qed.

(** The marks of [v] are the boundaries below [p]. *)
Definition marks_below (v : Verifier) (p : Z) : Prop :=
  Z.of_nat (length (insn_flags_ v)) = n_units
  /\ forall i, marked v i = true <-> boundary i /\ i < p /\ i < n_units.

Lemma note_features_flags c v a v' :
  note_features c v = Some (a, v') -> insn_flags_ v' = insn_flags_ v.
Proof. unfold note_features. by destruct c; intros [= <- <-]. Qed.

Lemma marks_below_step v p n :
  marks_below v p -> boundary p -> p < n_units -> SizeInCodeUnits insns p = Some n ->
  marks_below (set_flags v (wr (insn_flags_ v) p (SetIsOpcode (rd (insn_flags_ v) p)))) (p + n).
Proof.
  intros [Hl Hm] Hp Hlt Hn. pose proof (boundary_nonneg _ Hp). pose proof (size_positive _ _ Hn).
  split; [cbn; by rewrite length_wr|]. intros i. rewrite marked_update by lia.
  unfold IsOpcode, SetIsOpcode. rewrite is_bit_set_bit by done. cbn [Z.eqb kOpcode Pos.eqb orb].
  destruct (Z.eqb_spec i p) as [->|Hne].
  - split; [|done]. intros _. split; [done|lia].
  - rewrite Hm. split; intros (Hb & ? & ?); (split; [done|]); [lia|].
    destruct (Z.lt_trichotomy i p) as [|[|]]; [lia|lia|].
    pose proof (boundary_gap p i n Hp Hb Hn ltac:(lia)). lia.
Qed.

Lemma widths_loop_spec fuel p a b v :
  boundary p -> marks_below v p -> n_units <= p + Z.of_nat fuel ->
  exists q a' b' v', widths_loop ci fuel p a b v = Some ((q, a', b'), v')
    /\ boundary q /\ n_units <= q /\ marks_below v' q.
Proof.
  revert p a b v. induction fuel as [|fuel IH]; intros p a b v Hp Hm Hf; cbn [widths_loop];
    pose proof (boundary_nonneg _ Hp).
  - destruct (Z.ltb_spec p n_units); [lia|]. do 4 eexists. split; [done|]. auto with lia.
  - destruct (Z.ltb_spec p n_units) as [Hlt|]; [|do 4 eexists; split; [done|]; auto with lia].
    unfold bind at 1. destruct (note_features (opcode insns p) v) as [[[] v1]|] eqn:E1.
    2: { exfalso. revert E1. unfold note_features. by destruct (opcode insns p). }
    apply note_features_flags in E1.
    destruct (SizeInCodeUnits_positive insns p (ci_units _ Hci)) as (n & Hn & Hpos).
    unfold bind at 1, SizeOf. rewrite Hn.
    unfold bind at 1, UpdateInstructionFlags. destruct Hm as [Hl Hm].
    rewrite E1, Hl, (proj2 (Z.leb_le 0 p)), (proj2 (Z.ltb_lt p _)) by lia. cbn [andb].
    rewrite <- E1. apply IH; [by econstructor| |lia].
    assert (marks_below v1 p) as Hm1.
    { split; [by rewrite E1|]. intros i. rewrite <- Hm. unfold marked. by rewrite E1. }
    by apply marks_below_step.
Qed.
End Boundaries.

(** ** The steps of the checks *)
Section WithinChecks.
Context (ci : CodeItem) (df : DexFile) (aot load soft dump : bool).
Context {R : relation Verifier} {SR : StepRel R}.

#[global] Instance within_CheckArrayData pc : Within R (CheckArrayData ci aot load soft pc).
Proof. unfold CheckArrayData. apply _. Qed.
#[global] Instance within_CheckBranchTarget pc : Within R (CheckBranchTarget ci aot load soft pc).
Proof.
  unfold CheckBranchTarget. destruct (GetBranchOffset ci pc) as [[[o c] s]|]; apply _.
Qed.
#[global] Instance within_check_ascending n s t k :
  Within R (check_ascending ci aot load soft n s t k).
Proof. revert t k. induction n; intros t k; cbn; apply _. Qed.
#[global] Instance within_check_targets n pc s t :
  Within R (check_targets ci aot load soft n pc s t).
Proof. revert t. induction n; intros t; cbn; apply _. Qed.
#[global] Instance within_CheckSwitchTargets pc : Within R (CheckSwitchTargets ci aot load soft pc).
Proof. unfold CheckSwitchTargets. apply _. Qed.
#[global] Instance within_and_then b m : Within R m -> Within R (and_then b m).
Proof. unfold and_then. apply _. Qed.
#[global] Instance within_CheckNewInstance i : Within R (CheckNewInstance df aot load soft i).
Proof. unfold CheckNewInstance. apply _. Qed.
#[global] Instance within_CheckNewArray i : Within R (CheckNewArray df aot load soft i).
Proof. unfold CheckNewArray. apply _. Qed.

#[global] Instance within_VerifyArgumentA pc c b :
  Within R (VerifyArgumentA ci aot load soft pc c b).
Proof. unfold VerifyArgumentA. apply _. Qed.
#[global] Instance within_VerifyArgumentB pc c b :
  Within R (VerifyArgumentB ci df aot load soft pc c b).
Proof. unfold VerifyArgumentB. apply _. Qed.
#[global] Instance within_VerifyArgumentC pc c b :
  Within R (VerifyArgumentC ci df aot load soft pc c b).
Proof. unfold VerifyArgumentC. apply _. Qed.
#[global] Instance within_VerifyExtra pc c b : Within R (VerifyExtra ci aot load soft pc c b).
Proof. unfold VerifyExtra. apply _. Qed.
#[global] Instance within_VerifyInstruction pc :
  Within R (VerifyInstruction ci df aot load soft dump pc).
Proof. unfold VerifyInstruction. apply _. Qed.

#[global] Instance within_return_point i :
  Within R (UpdateInstructionFlags i SetCompileTimeInfoPointAndReturn).
Proof.
  intros v a v' H. apply update_some in H as [Hi ->].
  etrans; [exact (sr_bit v i kCompileTimeInfoPoint Hi ltac:(by split))|].
  set (w := set_flags _ _). assert (Z.of_nat (length (insn_flags_ w)) = Z.of_nat (length (insn_flags_ v))) as El.
  { cbn. by rewrite length_wr. }
  pose proof (sr_bit w i kReturn ltac:(by rewrite El) ltac:(by split)) as Hr.
  subst w. cbn in Hr. rewrite rd_wr_eq in Hr by done. unfold wr in Hr. rewrite list_insert_insert_eq in Hr. exact Hr.
Qed.
#[global] Instance within_mark_instruction pc : Within R (mark_instruction ci pc).
Proof. unfold mark_instruction. apply _. Qed.

#[global] Instance within_in_try_loop fuel p e : Within R (in_try_loop ci fuel p e).
Proof.
  revert p. induction fuel; intros p; cbn; [|apply _].
  apply within_if; [by intros v a v'|apply _].
Qed.
#[global] Instance within_scan_tries l : Within R (scan_tries ci aot load soft l).
Proof. induction l; cbn; apply _. Qed.
#[global] Instance within_scan_handlers l : Within R (scan_handlers ci aot load soft l).
Proof. induction l; cbn; unfold CheckNotMoveResult; apply _. Qed.
#[global] Instance within_ScanTryCatchBlocks : Within R (ScanTryCatchBlocks ci aot load soft).
Proof. unfold ScanTryCatchBlocks. apply _. Qed.
End WithinChecks.

(** ** Inversion of successful computations *)
Lemma bind_some {A B} (m : VM A) (k : A -> VM B) v b v' :
  bind m k v = Some (b, v') <-> exists a w, m v = Some (a, w) /\ k a w = Some (b, v').
Proof.
  unfold bind. destruct (m v) as [[a w]|]; split; [eauto| |done|].
  - by intros (? & ? & [= <- <-] & H).
  - by intros (? & ? & [=] & _).
Qed.

Lemma ret_some {A} (a b : A) v v' : ret a v = Some (b, v') <-> a = b /\ v = v'.
Proof. unfold ret. naive_solver. Qed.

Lemma check_true aot load soft b v v' :
  check aot load soft b v = Some (true, v') -> b = false /\ v' = v.
Proof.
  unfold check. destruct b; [|intros H%ret_some; naive_solver].
  intros (? & ? & _ & [? _]%ret_some)%bind_some. done.
Qed.

Lemma and_then_true b m v v' :
  and_then b m v = Some (true, v') -> b = true /\ m v = Some (true, v').
Proof. unfold and_then. destruct b; [done|]. by intros [? _]%ret_some. Qed.

Lemma get_flags_marked i v f v' :
  GetInstructionFlags i v = Some (f, v') -> v' = v /\ IsOpcode f = marked v i.
Proof.
  unfold GetInstructionFlags, marked. destruct (_ && _) eqn:E; [|done]. by intros [= <- <-].
Qed.

(** A sum of an offset and a position that is non-negative as an [int32_t] does not wrap. *)
Lemma no_wrap_sum a b :
  0 <= a < 2 ^ 31 -> in_s 32 b -> 0 <= s32 (a + b) -> 0 <= a + b < 2 ^ 31 /\ s32 (a + b) = a + b.
Proof. intros Ha Hb. unfold_width. intros Hs. dlia. Qed.

(** One step of inversion of a check that ended in [true]. *)
Ltac inv_check :=
  repeat match goal with
  | H : bind _ _ _ = Some _ |- _ => apply bind_some in H as (? & ? & ? & ?)
  | H : ret _ _ = Some _ |- _ => apply ret_some in H as [? ?]; subst
  | H : check _ _ _ _ _ = Some (true, _) |- _ => apply check_true in H as [? ?]; subst
  | H : (if negb ?b then _ else _) _ = Some (true, _) |- _ => destruct b eqn:?; cbn [negb] in H
  | H : (if ?b then check _ _ _ true else _) _ = Some (true, _) |- _ => destruct b eqn:?
  | H : GetInstructionFlags _ _ = Some _ |- _ => apply get_flags_marked in H as [? ?]; subst
  | H : true = false |- _ => discriminate H
  end.

(** ** What an accepted instruction satisfies *)
Section Accepted.
Context (ci : CodeItem) (Hci : code_item_ok ci) (df : DexFile) (aot load soft dump : bool).
#[local] Abbreviation insns := (insns_ ci).
#[local] Abbreviation n_units := (insns_size_in_code_units_ ci).
#[local] Abbreviation n_regs := (registers_size_ ci).

Definition branch_accepted (v : Verifier) (pc : Z) : Prop :=
  exists off cond self, GetBranchOffset ci pc = Some (off, cond, self)
    /\ marked v (pc + off) = true /\ (self = false -> off <> 0).

(** The table of a switch: its kind, position, number of entries and targets. *)
Definition sw_packed (pc : Z) : bool := bool_decide (opcode insns pc = PACKED_SWITCH).
Definition sw_pos (pc : Z) : Z := pc + s32 (Fetch32 insns pc 1).
Definition sw_count (pc : Z) : Z := insns (sw_pos pc + 1).
Definition sw_targets (pc : Z) : Z :=
  sw_pos pc + (if sw_packed pc then 4 else 2 + 2 * sw_count pc).

(** Keys as the interpreter's searches need them, and targets that are instructions. *)
Record switch_accepted (v : Verifier) (pc : Z) : Prop := {
  sw_start : 0 <= sw_pos pc;
  sw_end : sw_targets pc + sw_count pc * 2 <= n_units;
  sw_signature : insns (sw_pos pc)
                 = if sw_packed pc then kPackedSwitchSignature else kSparseSwitchSignature;
  sw_first : sw_packed pc = true -> 1 < sw_count pc ->
             table_int32 ci (sw_pos pc + 2) + (sw_count pc - 1) <= INT32_MAX;
  sw_keys : sw_packed pc = false -> forall i, 0 < i < sw_count pc ->
            table_int32 ci (sw_pos pc + 2 + 2 * (i - 1))
            < table_int32 ci (sw_pos pc + 2 + 2 * i);
  sw_target : forall i, 0 <= i < sw_count pc ->
              marked v (pc + table_int32 ci (sw_targets pc + 2 * i)) = true
}.

(** The end of the table is the 32-bit sum the check computes. *)
Record array_data_accepted (v : Verifier) (pc : Z) : Prop := {
  ad_start : 0 <= sw_pos pc /\ sw_pos pc + 2 < n_units;
  ad_marked : marked v (sw_pos pc) = true;
  ad_end : u32 (sw_pos pc + u32 (4 + u32 (insns (sw_pos pc + 1)
            * (insns (sw_pos pc + 2) + 65536 * insns (sw_pos pc + 3)) + 1) / 2)) <= n_units
}.

Record accepted (v : Verifier) (pc : Z) : Prop := {
  acc_plain : IsExperimental (opcode insns pc) = false;
  acc_A : GetVerifyTypeArgumentA (opcode insns pc) = kVerifyRegA -> argA ci pc < n_regs;
  acc_A_wide : GetVerifyTypeArgumentA (opcode insns pc) = kVerifyRegAWide ->
               u32 (argA ci pc + 1) < n_regs;
  acc_B : GetVerifyTypeArgumentB (opcode insns pc) = kVerifyRegB -> argB ci pc < n_regs;
  acc_B_wide : GetVerifyTypeArgumentB (opcode insns pc) = kVerifyRegBWide ->
               u32 (argB ci pc + 1) < n_regs;
  acc_C : GetVerifyTypeArgumentC (opcode insns pc) = kVerifyRegC -> argC ci pc < n_regs;
  acc_C_wide : GetVerifyTypeArgumentC (opcode insns pc) = kVerifyRegCWide ->
               u32 (argC ci pc + 1) < n_regs;
  acc_known : GetVerifyExtraFlags (opcode insns pc) <> kVerifyError;
  acc_branch : GetVerifyExtraFlags (opcode insns pc) = kVerifyBranchTarget ->
               branch_accepted v pc;
  acc_switch : GetVerifyExtraFlags (opcode insns pc) = kVerifySwitchTargets ->
               switch_accepted v pc;
  acc_array : GetVerifyExtraFlags (opcode insns pc) = kVerifyArrayData ->
              array_data_accepted v pc
}.

Lemma GetBranchOffset_range pc off cond self :
  GetBranchOffset ci pc = Some (off, cond, self) -> in_s 32 off.
Proof.
  unfold GetBranchOffset. intros H.
  assert (forall z, in_s 32 (s16 z)) by (intros; unfold_width; dlia).
  assert (in_s 32 (Z.shiftr (s16 (insns_ ci pc)) 8)).
  { rewrite Z.shiftr_div_pow2 by lia. unfold_width. dlia. }
  repeat case_match; simplify_eq; try done. by apply wraps_range.
Qed.

Lemma CheckBranchTarget_accepted v v' pc :
  0 <= pc < n_units -> CheckBranchTarget ci aot load soft pc v = Some (true, v') ->
  branch_accepted v pc.
Proof.
  intros Hpc H. unfold CheckBranchTarget in H.
  destruct (GetBranchOffset ci pc) as [[[off cond] self]|] eqn:E; inv_check; [|done].
  pose proof (ci_size _ Hci). apply GetBranchOffset_range in E as Hoff.
  destruct (no_wrap_sum pc off) as [? Heq]; [lia|done|lia|]. rewrite Heq in *.
  exists off, cond, self. split; [done|]. split; [congruence|].
  intros -> ->. done.
Qed.

(** Lists of keys and targets, by the loops' counters. *)
Lemma check_ascending_true n sw t k v v' :
  check_ascending ci aot load soft n sw t k v = Some (true, v') ->
  v' = v /\ forall i, t <= i < t + Z.of_nat n ->
    (if i =? t then k else table_int32 ci (sw + 2 + 2 * (i - 1)))
    < table_int32 ci (sw + 2 + 2 * i).
Proof.
  revert t k. induction n as [|n IH]; intros t k H; cbn [check_ascending] in H.
  - inv_check. split; [done|lia].
  - inv_check. apply IH in H as [-> H]. split; [done|]. intros i Hi.
    destruct (Z.eqb_spec i t) as [->|Hne].
    + rewrite (Z.mul_comm 2 t). lia.
    + specialize (H i ltac:(lia)). destruct (Z.eqb_spec i (t + 1)) as [E|]; [|done].
      by replace (2 * (i - 1)) with (t * 2) by lia.
Qed.

Lemma check_targets_true n pc targets t v v' :
  0 <= pc < 2 ^ 31 ->
  check_targets ci aot load soft n pc targets t v = Some (true, v') ->
  forall i, t <= i < t + Z.of_nat n ->
    marked v (pc + table_int32 ci (targets + 2 * i)) = true.
Proof.
  intros Hpc. revert t v. induction n as [|n IH]; intros t v H; cbn [check_targets] in H; [lia|].
  inv_check. intros i Hi.
  match goal with Hr : check_targets _ _ _ _ _ _ _ _ _ = _ |- _ => pose proof (IH _ _ Hr) as Hrest end.
  match goal with Hu : UpdateInstructionFlags _ _ _ = _ |- _ => apply keeps in Hu as Hk end.
  destruct (no_wrap_sum pc (table_int32 ci (targets + t * 2))) as [? Heq];
    [done|by apply wraps_range|lia|]. rewrite Heq in *.
  destruct (Z.eqb_spec i t) as [->|].
  - rewrite (Z.mul_comm 2 t). congruence.
  - rewrite <- (proj2 Hk). apply Hrest. lia.
Qed.

Lemma CheckArrayData_accepted v v' pc :
  0 <= pc < n_units -> CheckArrayData ci aot load soft pc v = Some (true, v') ->
  array_data_accepted v pc.
Proof.
  intros Hpc H. unfold CheckArrayData in H. inv_check.
  pose proof (ci_size _ Hci). apply orb_false_elim in Heqb as [Hs Hu].
  rewrite (wraps_small 32 ltac:(lia) pc) in Hs by (unfold_width; lia).
  destruct (no_wrap_sum pc (s32 (Fetch32 insns pc 1))) as [? Heq];
    [lia|by apply wraps_range|lia|].
  rewrite (wrapu_small 32 (pc + _ + 2)) in Hu by (unfold_width; lia).
  rewrite (wrapu_small 32 (pc + _)) in H1 by (unfold_width; lia).
  split; unfold sw_pos; [lia|congruence|lia].
Qed.

Lemma opcode_packed pc :
  (Z.land (insns pc) 0xff =? Code_value PACKED_SWITCH)
  = bool_decide (opcode insns pc = PACKED_SWITCH).
Proof.
  pose proof (opcode_value insns pc (ci_units _ Hci)) as Hv.
  rewrite land_0xff. unfold Fetch16 in Hv. rewrite Z.add_0_r in Hv.
  change (2 ^ 8) with 256. rewrite <- Hv. case_bool_decide as E.
  - by rewrite E.
  - apply Z.eqb_neq. intros Heq. by apply E, Code_value_inj.
Qed.

Lemma CheckSwitchTargets_accepted v v' pc :
  0 <= pc < n_units -> CheckSwitchTargets ci aot load soft pc v = Some (true, v') ->
  switch_accepted v pc.
Proof.
  intros Hpc H. unfold CheckSwitchTargets in H. rewrite opcode_packed in *.
  destruct ((_ <? 0) || _) eqn:Hstart in H; [inv_check; done|].
  inv_check. rename H0 into Hkeys, H1 into Htargets.
  destruct x1; [|by apply ret_some in Htargets as [? _]].
  pose proof (ci_size _ Hci). apply orb_false_elim in Hstart as [Hs Hu].
  rewrite (wraps_small 32 ltac:(lia) pc) in Hs by (unfold_width; lia).
  destruct (no_wrap_sum pc (s32 (Fetch32 insns pc 1))) as [? Heq];
    [lia|by apply wraps_range|lia|].
  pose proof (ci_units _ Hci (pc + s32 (Fetch32 insns pc 1) + 1)) as Hc.
  set (sw := pc + s32 (Fetch32 insns pc 1)) in *.
  set (count := insns (sw + 1)) in *.
  set (packed := bool_decide (opcode insns pc = PACKED_SWITCH)) in *.
  assert (0 <= count < 65536) by exact Hc.
  assert (x2 = v /\ (1 < count -> if packed then table_int32 ci (sw + 2) + (count - 1) <= INT32_MAX
    else forall i, 0 < i < count ->
      table_int32 ci (sw + 2 + 2 * (i - 1)) < table_int32 ci (sw + 2 + 2 * i))) as [-> Hk].
  { destruct (Z.ltb_spec 1 count); [|inv_check; split; [done|lia]].
    destruct packed.
    - apply check_true in Hkeys as [Hmax ->]. split; [done|]. intros _.
      rewrite wraps_small in Hmax by (unfold_width; lia). lia.
    - apply check_ascending_true in Hkeys as [-> Ha]. split; [done|]. intros _ i Hi.
      specialize (Ha i ltac:(lia)). destruct (Z.eqb_spec i 1) as [E|]; [|done].
      by rewrite E, Z.add_0_r in *. }
  pose proof (check_targets_true _ pc _ _ _ _ ltac:(lia) Htargets) as Ht.
  split; unfold sw_targets, sw_count, sw_packed, sw_pos; fold sw; fold count packed.
  - lia.
  - destruct packed; rewrite (wrapu_small 32 (_ + count * 2)) in * by (unfold_width; lia);
      rewrite wrapu_small in * by (unfold_width; lia); lia.
  - by apply Z.eqb_eq.
  - intros Hp ?. rewrite Hp in Hk. lia.
  - intros Hp i Hi. rewrite Hp in Hk. apply Hk; lia.
  - intros i Hi. apply Ht. lia.
Qed.

Ltac inv_argument :=
  repeat match goal with
  | H : and_then _ _ _ = Some (true, _) |- _ => apply and_then_true in H as [-> H]
  | H : (if ?t =? ?k then _ else _) _ = Some (true, _) |- _ => destruct (Z.eqb_spec t k)
  end;
  inv_check.

Lemma CheckNewInstance_true i v v' :
  CheckNewInstance df aot load soft i v = Some (true, v') -> v' = v.
Proof. unfold CheckNewInstance. case_match; by intros [_ ->]%check_true. Qed.
Lemma CheckNewArray_true i v v' :
  CheckNewArray df aot load soft i v = Some (true, v') -> v' = v.
Proof. unfold CheckNewArray. case_match; by intros [_ ->]%check_true. Qed.

Lemma VerifyArgumentA_true pc c r v v' :
  VerifyArgumentA ci aot load soft pc c r v = Some (true, v') ->
  r = true /\ v' = v
  /\ (GetVerifyTypeArgumentA c = kVerifyRegA -> argA ci pc < n_regs)
  /\ (GetVerifyTypeArgumentA c = kVerifyRegAWide -> u32 (argA ci pc + 1) < n_regs).
Proof.
  unfold VerifyArgumentA, CheckRegisterIndex, CheckWideRegisterIndex. intros H. inv_argument.
  - repeat split; [lia|]. rewrite e. done.
  - repeat split; [done|lia].
  - repeat split; done.
Qed.

Lemma VerifyArgumentB_true pc c r v v' :
  VerifyArgumentB ci df aot load soft pc c r v = Some (true, v') ->
  r = true /\ v' = v
  /\ (GetVerifyTypeArgumentB c = kVerifyRegB -> argB ci pc < n_regs)
  /\ (GetVerifyTypeArgumentB c = kVerifyRegBWide -> u32 (argB ci pc + 1) < n_regs).
Proof.
  unfold VerifyArgumentB, CheckRegisterIndex, CheckWideRegisterIndex, CheckFieldIndex,
    CheckMethodIndex, CheckStringIndex, CheckTypeIndex. intros H. inv_argument.
  all: repeat match goal with
       | H : CheckNewInstance _ _ _ _ _ _ = _ |- _ => apply CheckNewInstance_true in H; subst
       | H : GetVerifyTypeArgumentB _ = _ |- _ => rewrite H in *; clear H
       end; repeat split; (done || lia).
Qed.

Lemma VerifyArgumentC_true pc c r v v' :
  VerifyArgumentC ci df aot load soft pc c r v = Some (true, v') ->
  r = true /\ v' = v
  /\ (GetVerifyTypeArgumentC c = kVerifyRegC -> argC ci pc < n_regs)
  /\ (GetVerifyTypeArgumentC c = kVerifyRegCWide -> u32 (argC ci pc + 1) < n_regs).
Proof.
  unfold VerifyArgumentC, CheckRegisterIndex, CheckWideRegisterIndex, CheckFieldIndex,
    CheckStringIndex, CheckTypeIndex. intros H. inv_argument.
  all: repeat match goal with
       | H : CheckNewArray _ _ _ _ _ _ = _ |- _ => apply CheckNewArray_true in H; subst
       | H : GetVerifyTypeArgumentC _ = _ |- _ => rewrite H in *; clear H
       end; repeat split; (done || lia).
Qed.

Lemma VerifyExtra_true pc c r v v' b :
  VerifyExtra ci aot load soft pc c r v = Some ((true, b), v') ->
  0 <= pc < n_units ->
  r = true /\ GetVerifyExtraFlags c <> kVerifyError
  /\ (GetVerifyExtraFlags c = kVerifyBranchTarget -> branch_accepted v pc)
  /\ (GetVerifyExtraFlags c = kVerifySwitchTargets -> switch_accepted v pc)
  /\ (GetVerifyExtraFlags c = kVerifyArrayData -> array_data_accepted v pc).
Proof.
  unfold VerifyExtra. intros H Hpc. remember (GetVerifyExtraFlags c) as t eqn:Et.
  repeat match goal with
  | H : (if ?t =? ?k then _ else _) _ = Some _ |- _ => destruct (Z.eqb_spec t k)
  | H : (if (?t =? ?k) || (?t =? ?k') then _ else _) _ = Some _ |- _ =>
      destruct (Z.eqb_spec t k); cbn [orb andb] in H
  | H : (if ?b then _ else _) _ = Some _ |- _ => destruct b eqn:?
  | H : bind _ _ _ = Some _ |- _ => apply bind_some in H as (? & ? & ? & ?)
  | H : ret _ _ = Some _ |- _ => apply ret_some in H as [[= -> ?] ?]; subst
  | H : and_then _ _ _ = Some (true, _) |- _ => apply and_then_true in H as [-> H]
  | H : check _ _ _ true _ = Some (true, _) |- _ => by apply check_true in H as [? _]
  end.
  all: split_and!; try done; try congruence.
  all: try match goal with E : GetVerifyExtraFlags _ = _ |- _ => rewrite E; by intros [=] end.
  - intros _. by eapply CheckArrayData_accepted.
  - intros _. by eapply CheckBranchTarget_accepted.
  - intros _. by eapply CheckSwitchTargets_accepted.
Qed.

Lemma VerifyInstruction_accepted v v' pc :
  0 <= pc < n_units -> VerifyInstruction ci df aot load soft dump pc v = Some (true, v') ->
  accepted v pc.
Proof.
  intros Hpc H. unfold VerifyInstruction in H.
  destruct (IsExperimental (opcode insns pc)) eqn:Hexp; [inv_check; done|].
  apply bind_some in H as (a & v1 & HA & H). apply bind_some in H as (b & v2 & HB & H).
  apply bind_some in H as (r & v3 & HC & H). apply bind_some in H as ([e g] & v4 & HE & H).
  assert (e = true) as ->.
  { cbn [fst snd] in H. destruct g; [|inv_check; done].
    destruct (_ && _ && _); [by apply check_true in H as [? _]|inv_check; done]. }
  apply VerifyExtra_true in HE as (-> & Hx & Hb & Hs & Hd); [|done].
  apply VerifyArgumentC_true in HC as (-> & -> & Hc & Hcw).
  apply VerifyArgumentB_true in HB as (-> & -> & Hb' & Hbw).
  apply VerifyArgumentA_true in HA as (_ & -> & Ha & Haw).
  by constructor.
Qed.

Lemma accepted_marks v v' pc : same_marks v v' -> accepted v pc -> accepted v' pc.
Proof.
  intros [_ Hm] H. destruct H as [? ? ? ? ? ? ? ? Hb Hs Hd]. constructor; try done.
  - intros E. destruct (Hb E) as (o & c & s & ? & ? & ?). exists o, c, s. by rewrite Hm.
  - intros E. destruct (Hs E). constructor; try done. intros i Hi. rewrite Hm. auto.
  - intros E. destruct (Hd E). constructor; try done. by rewrite Hm.
Qed.

Lemma verify_loop_true fuel p v v' :
  marks_below ci v n_units -> boundary ci n_units -> boundary ci p ->
  verify_loop ci df aot load soft dump fuel p v = Some (true, v') ->
  same_marks v v' /\ forall q, boundary ci q -> p <= q < n_units -> accepted v q.
Proof.
  intros Hm Hend Hp. revert p v Hp Hm. induction fuel as [|fuel IH]; intros p v Hp Hm H;
    cbn [verify_loop] in H; destruct (Z.ltb_spec p n_units) as [Hlt|Hge]; try done.
  1, 3: inv_check; split; [done|lia].
  pose proof (boundary_nonneg ci Hci p Hp).
  apply bind_some in H as (ok & v1 & Hok & H). destruct ok; [|inv_check; done].
  cbn [negb] in H. apply bind_some in H as (u & v2 & Hmark & H).
  apply bind_some in H as (n & v3 & Hn & H).
  assert (same_marks v v3) as Hsame.
  { transitivity v1; [exact (keeps _ _ _ Hok)|].
    transitivity v2; [exact (keeps _ _ _ Hmark)|exact (keeps _ _ _ Hn)]. }
  unfold SizeOf in Hn. destruct (SizeInCodeUnits insns p) as [n'|] eqn:En; [|done].
  injection Hn as -> ->. assert (boundary ci (p + n)) as Hpn by by econstructor.
  pose proof (boundary_gap ci Hci p n_units n Hp Hend En Hlt).
  pose proof (ci_size _ Hci). pose proof (size_positive ci Hci _ _ En).
  rewrite wrapu_small in H by (unfold_width; lia).
  apply IH in H as [Hs2 Hrest]; [|done|].
  2: { destruct Hm as [Hl Hm]. split; [by rewrite (proj1 Hsame)|].
       intros i. by rewrite (proj2 Hsame), Hm. }
  split; [by etrans|]. intros q Hq Hrange. destruct (Z.eqb_spec q p) as [->|].
  - eapply VerifyInstruction_accepted; [lia|done].
  - pose proof (boundary_gap ci Hci p q n Hp Hq En ltac:(lia)).
    apply Hrest in Hq; [|lia]. destruct Hsame as [Hl Hi].
    eapply accepted_marks; [|done]. split; [done|by intros].
Qed.

Lemma scan_handlers_true l v v' :
  scan_handlers ci aot load soft l v = Some (true, v') -> Forall (fun h => marked v h = true) l.
Proof.
  revert v. induction l as [|h l IH]; intros v H; cbn [scan_handlers] in H; [done|].
  inv_check. constructor; [congruence|].
  match goal with Hu : UpdateInstructionFlags _ _ _ = _ |- _ => apply keeps in Hu as Hk end.
  match goal with Hr : scan_handlers _ _ _ _ _ _ = _ |- _ => apply IH in Hr as Hrest end.
  eapply Forall_impl; [done|]. cbn. intros i Hi.
  match goal with Hc : CheckNotMoveResult _ _ _ _ _ _ = _ |- _ =>
    apply check_true in Hc as [_ ->] end.
  by rewrite <- (proj2 Hk).
Qed.

Lemma marks_below_same v v' p : same_marks v v' -> marks_below ci v p -> marks_below ci v' p.
Proof.
  intros [Hl Hi] [Hl' Hm]. split; [congruence|]. intros i. by rewrite Hi, Hm.
Qed.

(** The state with fresh flags satisfies the sweep's invariant at 0. *)
Lemma marks_below_fresh v :
  marks_below ci (set_flags v (replicate (Z.to_nat n_units) 0)) 0.
Proof.
  pose proof (ci_size _ Hci). split; [cbn; rewrite length_replicate; lia|].
  intros i. split; [|by intros (?%boundary_nonneg & ? & _); [lia|]].
  unfold marked. cbn [insn_flags_ set_flags]. intros [_ Ho]%andb_prop. exfalso.
  revert Ho. rewrite rd_lookup. unfold default.
  destruct (replicate (Z.to_nat n_units) 0 !! Z.to_nat i) as [x|] eqn:E; [|done].
  by apply lookup_replicate in E as [-> _].
Qed.

(** The sweep, run on fresh flags. *)
Lemma ComputeWidths_spec v :
  marks_below ci v 0 ->
  exists r v', ComputeWidthsAndCountOps ci aot load soft v = Some (r, v')
    /\ marks_below ci v' n_units
    /\ (r = true -> boundary ci n_units).
Proof.
  intros Hm. pose proof (ci_size _ Hci). unfold ComputeWidthsAndCountOps, pass_fuel.
  destruct (widths_loop_spec ci Hci (Z.to_nat n_units) 0 0 0 v) as (q & a & b & v1 & E & Hq & Hge & Hm1);
    [constructor|done|lia|].
  assert (marks_below ci v1 n_units) as Hn.
  { destruct Hm1 as [? Hi]. split; [done|]. intros i. rewrite Hi.
    split; intros (? & ? & ?); split_and!; (done || lia). }
  unfold bind. rewrite E. cbn [fst snd]. destruct (Z.eqb_spec q n_units) as [->|]; cbn [negb].
  - do 2 eexists. split; [done|]. split; [|done]. by eapply marks_below_same; [|exact Hn].
  - unfold check, bind, Fail_. do 2 eexists. split; [done|]. split; [|done].
    by eapply marks_below_same; [|exact Hn].
Qed.

(** What a method that passed the static checks satisfies. *)
Record statically_verified (v : Verifier) : Prop := {
  sv_regs : ins_size_ ci <= n_regs;
  sv_marks : forall i, marked v i = true <-> boundary ci i /\ i < n_units;
  sv_end : boundary ci n_units;
  sv_accepted : forall i, marked v i = true -> accepted v i;
  sv_handlers : tries_ ci <> [] -> Forall (fun h => marked v h = true) (handler_addresses ci)
}.

Lemma VerifyStatic_sound v v' :
  VerifyStatic ci df aot load soft dump v = Some (true, v') -> statically_verified v'.
Proof.
  unfold VerifyStatic. destruct (Z.ltb_spec n_regs (ins_size_ ci)) as [Hr|Hr]; intros H;
    [by apply check_true in H as [? _]|].
  apply bind_some in H as ([] & v0 & Ha & H). injection Ha as <-.
  apply bind_some in H as (w & v1 & Hw & H). apply bind_some in H as (t & v2 & Ht & H).
  apply and_then_true in H as [-> H]. apply and_then_true in Ht as [-> Ht].
  destruct (ComputeWidths_spec _ (marks_below_fresh v)) as (r & v1' & Hw' & Hm1 & Hend).
  rewrite Hw in Hw'. injection Hw' as <- <-. specialize (Hend eq_refl).
  assert (tries_ ci <> [] -> Forall (fun h => marked v2 h = true) (handler_addresses ci)) as Hh.
  { intros Hne. unfold ScanTryCatchBlocks in Ht.
    destruct (tries_ ci) as [|t l] eqn:El; [done|]. cbn [length Nat.eqb] in Ht.
    apply bind_some in Ht as (ok & v1' & Ht1 & Ht2). destruct ok; [|inv_check; done].
    pose proof (keeps _ _ _ Ht2) as [_ Hk]. apply scan_handlers_true in Ht2.
    eapply Forall_impl; [done|]. intros i Hi. cbn in Hi. by rewrite Hk. }
  pose proof (keeps _ _ _ Ht) as K2.
  pose proof (marks_below_same _ _ _ K2 Hm1) as Hm2.
  unfold VerifyInstructions in H. apply bind_some in H as (u1 & v3 & H3 & H).
  apply bind_some in H as (u2 & v4 & H4 & H).
  assert (same_marks v2 v4) as K4.
  { transitivity v3; [exact (keeps _ _ _ H3)|exact (keeps _ _ _ H4)]. }
  pose proof (marks_below_same _ _ _ K4 Hm2) as Hm4.
  apply verify_loop_true in H as [K5 Hacc]; [|done|done|constructor].
  assert (forall i, marked v' i = marked v2 i) as Hi.
  { intros i. by rewrite (proj2 K5), (proj2 K4). }
  assert (forall i, marked v' i = true <-> boundary ci i /\ i < n_units) as Hmarks.
  { intros i. rewrite (proj2 K5). destruct Hm4 as [_ ->]. naive_solver. }
  split; try done.
  - intros i Hmi. apply Hmarks in Hmi as [Hb ?]. eapply accepted_marks; [exact K5|].
    apply Hacc; [done|]. pose proof (boundary_nonneg ci Hci i Hb). lia.
  - intros Hne. eapply Forall_impl; [by apply Hh|]. cbn. intros i. by rewrite Hi.
Qed.
End Accepted.

(** ** The passes stay inside [insn_flags_] and terminate *)
Section Total.
Context (ci : CodeItem) (Hci : code_item_ok ci) (df : DexFile) (aot load soft dump : bool).
#[local] Abbreviation insns := (insns_ ci).
#[local] Abbreviation n_units := (insns_size_in_code_units_ ci).

(** Defined on every state whose flags cover the method. *)
Class Safe {A} (m : VM A) : Prop :=
  safe : forall v, Z.of_nat (length (insn_flags_ v)) = n_units -> is_Some (m v).

#[local] Instance safe_ret {A} (a : A) : Safe (ret a).
Proof. intros v _. by eexists. Qed.
#[local] Instance safe_bind {A B} (m : VM A) (k : A -> VM B) :
  Safe m -> Within same_marks m -> (forall a, Safe (k a)) -> Safe (bind m k).
Proof.
  intros Hm Kp Hk v Hl. destruct (Hm v Hl) as [[a w] E]. unfold bind. rewrite E.
  apply Hk. apply Kp in E as [-> _]. done.
Qed.
#[local] Instance safe_if {A} (b : bool) (m1 m2 : VM A) :
  (b = true -> Safe m1) -> (b = false -> Safe m2) -> Safe (if b then m1 else m2).
Proof. destruct b; auto. Qed.
#[local] Instance safe_Fail e : Safe (Fail_ aot load soft e).
Proof. intros v _. unfold Fail_. destruct e; try case_match; by eexists. Qed.
#[local] Instance safe_check b : Safe (check aot load soft b).
Proof. unfold check. apply _. Qed.
#[local] Instance safe_size pc : Safe (SizeOf ci pc).
Proof.
  intros v _. unfold SizeOf.
  destruct (SizeInCodeUnits_positive insns pc (ci_units _ Hci)) as (n & -> & _). by eexists.
Qed.
#[local] Instance safe_experimental : Safe set_experimental.
Proof. intros v _. by eexists. Qed.

Lemma safe_get i : 0 <= i < n_units -> Safe (GetInstructionFlags i).
Proof.
  intros Hi v Hl. unfold GetInstructionFlags.
  rewrite Hl, (proj2 (Z.leb_le 0 i)), (proj2 (Z.ltb_lt i _)) by lia. by eexists.
Qed.
Lemma safe_update i g : 0 <= i < n_units -> Safe (UpdateInstructionFlags i g).
Proof.
  intros Hi v Hl. unfold UpdateInstructionFlags.
  rewrite Hl, (proj2 (Z.leb_le 0 i)), (proj2 (Z.ltb_lt i _)) by lia. by eexists.
Qed.

(** Splits a computation down to its flag accesses, keeping the conditions passed. *)
Ltac safe_step :=
  repeat first
    [ apply safe_check | apply safe_ret | apply safe_Fail | apply safe_size | apply safe_get
    | apply safe_update
    | apply safe_bind; [| apply _ | intros ?]
    | apply safe_if; intros ? ].

#[local] Instance safe_CheckArrayData pc :
  0 <= pc < n_units -> Safe (CheckArrayData ci aot load soft pc).
Proof.
  intros Hpc. pose proof (ci_size _ Hci). unfold CheckArrayData. safe_step.
  destruct (no_wrap_sum pc (s32 (Fetch32 insns pc 1))) as [? _]; [lia|by apply wraps_range| |].
  { rewrite (wraps_small 32 ltac:(lia) pc) in H0 by (unfold_width; lia). lia. }
  apply orb_false_elim in H0 as [_ Hu].
  rewrite !wrapu_small in * by (unfold_width; lia). lia.
Qed.

#[local] Instance safe_CheckBranchTarget pc :
  0 <= pc < n_units -> Safe (CheckBranchTarget ci aot load soft pc).
Proof.
  intros Hpc. pose proof (ci_size _ Hci). unfold CheckBranchTarget.
  destruct (GetBranchOffset ci pc) as [[[off cond] self]|] eqn:E; [|apply _].
  apply GetBranchOffset_range in E. safe_step.
  all: destruct (no_wrap_sum pc off) as [? Heq]; [lia|done|lia|]; rewrite Heq in *.
  all: rewrite wrapu_small in * by (unfold_width; lia); lia.
Qed.

#[local] Instance safe_check_ascending n sw t k :
  Safe (check_ascending ci aot load soft n sw t k).
Proof. revert t k. induction n; intros t k; cbn; safe_step. apply IHn. Qed.

Lemma safe_check_targets n pc targets t :
  0 <= pc < n_units -> Safe (check_targets ci aot load soft n pc targets t).
Proof.
  intros Hpc. pose proof (ci_size _ Hci). revert t. induction n; intros t; cbn; safe_step.
  3: apply IHn.
  all: rewrite (wraps_small 32 ltac:(lia) n_units) in * by (unfold_width; lia); lia.
Qed.

#[local] Instance safe_CheckSwitchTargets pc :
  0 <= pc < n_units -> Safe (CheckSwitchTargets ci aot load soft pc).
Proof.
  intros Hpc. pose proof (ci_size _ Hci). unfold CheckSwitchTargets. safe_step.
  - destruct (no_wrap_sum pc (s32 (Fetch32 insns pc 1))) as [? _]; [lia|by apply wraps_range| |].
    { rewrite (wraps_small 32 ltac:(lia) pc) in H0 by (unfold_width; lia). lia. }
    apply orb_false_elim in H0 as [_ Hu].
    rewrite !wrapu_small in * by (unfold_width; lia). lia.
  - apply safe_check_ascending.
  - by apply safe_check_targets.
Qed.

#[local] Instance safe_and_then b m : Safe m -> Safe (and_then b m).
Proof. unfold and_then. destruct b; [done|]. intros _. apply _. Qed.

Lemma safe_VerifyInstruction pc :
  0 <= pc < n_units -> Safe (VerifyInstruction ci df aot load soft dump pc).
Proof.
  intros Hpc. unfold VerifyInstruction, VerifyArgumentA, VerifyArgumentB, VerifyArgumentC,
    VerifyExtra, CheckNewInstance, CheckNewArray.
  repeat first [ apply safe_check | apply safe_ret | apply safe_Fail | apply safe_experimental
    | by apply safe_CheckArrayData | by apply safe_CheckBranchTarget
    | by apply safe_CheckSwitchTargets | apply safe_and_then
    | apply safe_bind; [| apply _ | intros ?] | apply safe_if; intros ? ].
Qed.

Lemma accepted_branch_target v pc off cond self :
  Z.of_nat (length (insn_flags_ v)) = n_units -> accepted ci v pc ->
  IsBranch (opcode insns pc) = true -> GetBranchOffset ci pc = Some (off, cond, self) ->
  0 <= pc + off < n_units.
Proof.
  intros Hl Hacc Hbr Hoff.
  assert (GetVerifyExtraFlags (opcode insns pc) = kVerifyBranchTarget) as Hx.
  { revert Hbr. destruct (opcode insns pc); vm_compute; done. }
  destruct (acc_branch _ _ _ Hacc Hx) as (o & c & s & Ho & Hm & _). simplify_eq.
  unfold marked in Hm. lia.
Qed.

Lemma mark_instruction_defined v pc :
  Z.of_nat (length (insn_flags_ v)) = n_units -> 0 <= pc < n_units -> accepted ci v pc ->
  is_Some (mark_instruction ci pc v).
Proof.
  intros Hl Hpc Hacc. pose proof (ci_size _ Hci).
  assert (0 <= u32 (pc + match GetBranchOffset ci pc with Some (o, _, _) => o | None => 0 end)
          < n_units \/ IsBranch (opcode insns pc) = false) as Hb.
  { destruct (IsBranch _) eqn:Hbr; [left|by right].
    destruct (GetBranchOffset ci pc) as [[[o c] s]|] eqn:E.
    - pose proof (accepted_branch_target _ _ _ _ _ Hl Hacc Hbr E).
      rewrite wrapu_small by (unfold_width; lia). lia.
    - rewrite Z.add_0_r, wrapu_small by (unfold_width; lia). lia. }
  assert (Safe (mark_instruction ci pc)) as Hs; [|by apply Hs].
  unfold mark_instruction. destruct Hb as [Hb|Hb].
  - safe_step; (done || lia).
  - rewrite Hb. safe_step; (done || lia).
Qed.

Lemma verify_loop_defined fuel p v :
  marks_below ci v n_units -> boundary ci n_units -> boundary ci p ->
  n_units <= p + Z.of_nat fuel ->
  is_Some (verify_loop ci df aot load soft dump fuel p v).
Proof.
  intros Hm Hend Hp. revert p v Hp Hm. induction fuel as [|fuel IH]; intros p v Hp Hm Hf;
    cbn [verify_loop]; destruct (Z.ltb_spec p n_units) as [Hlt|Hge]; try (by eexists); [lia|].
  pose proof (boundary_nonneg ci Hci p Hp).
  destruct (safe_VerifyInstruction p ltac:(lia) v (proj1 Hm)) as [[ok v1] E1].
  unfold bind at 1. rewrite E1. destruct ok; cbn [negb]; [|by eexists].
  pose proof (keeps _ _ _ E1) as K1. pose proof (marks_below_same _ _ _ _ K1 Hm) as Hm1.
  destruct (mark_instruction_defined v1 p) as [[u v2] E2]; [apply Hm1|lia| |].
  { eapply accepted_marks; [exact K1|]. eapply VerifyInstruction_accepted; [done|lia|done]. }
  unfold bind at 1. rewrite E2.
  pose proof (marks_below_same _ _ _ _ (keeps _ _ _ E2) Hm1) as Hm2.
  unfold bind at 1, SizeOf.
  destruct (SizeInCodeUnits_positive insns p (ci_units _ Hci)) as (n & En & ?). rewrite En.
  pose proof (boundary_gap ci Hci p n_units n Hp Hend En Hlt). pose proof (ci_size _ Hci).
  rewrite wrapu_small by (unfold_width; lia). apply IH; [by econstructor|done|lia].
Qed.

Lemma in_try_loop_defined fuel p e v :
  marks_below ci v n_units -> boundary ci n_units -> boundary ci p -> e <= n_units ->
  n_units <= p + Z.of_nat fuel -> is_Some (in_try_loop ci fuel p e v).
Proof.
  intros Hm Hend Hp He. revert p v Hp Hm. induction fuel as [|fuel IH]; intros p v Hp Hm Hf;
    cbn [in_try_loop]; destruct (Z.ltb_spec p e) as [Hlt|Hge]; try (by eexists); [lia|].
  pose proof (boundary_nonneg ci Hci p Hp).
  destruct (safe_update p SetInTry ltac:(lia) v (proj1 Hm)) as [[u v1] E1].
  unfold bind at 1. rewrite E1.
  pose proof (marks_below_same _ _ _ _ (keeps _ _ _ E1) Hm) as Hm1.
  unfold bind at 1, SizeOf.
  destruct (SizeInCodeUnits_positive insns p (ci_units _ Hci)) as (n & En & ?). rewrite En.
  pose proof (boundary_gap ci Hci p n_units n Hp Hend En ltac:(lia)). pose proof (ci_size _ Hci).
  rewrite wrapu_small by (unfold_width; lia).
  apply IH; [econstructor; [done|lia|done]|done|lia].
Qed.

Lemma scan_tries_defined l v :
  marks_below ci v n_units -> boundary ci n_units ->
  Forall (fun t => 0 <= start_addr_ t) l ->
  is_Some (scan_tries ci aot load soft l v).
Proof.
  intros Hm Hend Hl. revert v Hm. induction Hl as [|t l Ht Hl IH]; intros v Hm;
    cbn [scan_tries]; [by eexists|].
  destruct ((_ <=? start_addr_ t) || _ || _) eqn:Hc; [by eexists|].
  apply orb_false_elim in Hc as [Hc He]. apply orb_false_elim in Hc as [_ Hs].
  destruct (safe_get (start_addr_ t) ltac:(lia) v (proj1 Hm)) as [[f v1] E1].
  unfold bind at 1. rewrite E1. apply get_flags_marked in E1 as [-> Hf].
  destruct (IsOpcode f); cbn [negb]; [|by eexists].
  assert (boundary ci (start_addr_ t)) as Hb by (by apply (proj2 Hm)).
  destruct (in_try_loop_defined (pass_fuel ci) (start_addr_ t)
    (u32 (start_addr_ t + insn_count_ t)) v) as [[u v1] E2]; try done; try lia.
  { unfold pass_fuel. lia. }
  unfold bind at 1. rewrite E2. apply IH.
  by eapply marks_below_same; [exact (keeps _ _ _ E2)|].
Qed.

Lemma scan_handlers_safe l :
  Forall (fun h => 0 <= h < n_units) l -> Safe (scan_handlers ci aot load soft l).
Proof.
  induction 1 as [|h l Hh Hl IH]; cbn [scan_handlers]; unfold CheckNotMoveResult; safe_step; done.
Qed.

(** The try items hold unsigned addresses, and the dex file verifier has checked that the
    handler addresses lie in the code. *)
Definition tries_in_range : Prop :=
  Forall (fun t => 0 <= start_addr_ t) (tries_ ci)
  /\ Forall (fun h => 0 <= h < n_units) (handler_addresses ci).

Lemma VerifyStatic_defined v :
  tries_in_range -> is_Some (VerifyStatic ci df aot load soft dump v).
Proof.
  intros [Ht Hh]. unfold VerifyStatic. case_match; [by eexists|].
  unfold bind at 1, alloc_insn_flags.
  destruct (ComputeWidths_spec ci Hci aot load soft _ (marks_below_fresh ci Hci v))
    as (r & v1 & E1 & Hm1 & Hend).
  unfold bind at 1. rewrite E1. destruct r; cbn [and_then]; [|by eexists].
  specialize (Hend eq_refl).
  assert (is_Some (ScanTryCatchBlocks ci aot load soft v1)) as [[t v2] E2].
  { unfold ScanTryCatchBlocks. case_match; [by eexists|].
    destruct (scan_tries_defined (tries_ ci) v1) as [[ok v2] E2]; try done.
    unfold bind at 1. rewrite E2. pose proof (keeps _ _ _ E2) as K.
    destruct ok; [|by eexists]. apply scan_handlers_safe; [done|].
    by rewrite (proj1 K), (proj1 Hm1). }
  unfold bind at 1. rewrite E2. destruct t; cbn [and_then]; [|by eexists].
  pose proof (marks_below_same _ _ _ _ (keeps _ _ _ E2) Hm1) as Hm2.
  unfold VerifyInstructions. pose proof (ci_size _ Hci).
  destruct (safe_update 0 SetBranchTarget ltac:(lia) v2 (proj1 Hm2)) as [[u v3] E3].
  unfold bind at 1. rewrite E3.
  pose proof (marks_below_same _ _ _ _ (keeps _ _ _ E3) Hm2) as Hm3.
  destruct (safe_update 0 SetCompileTimeInfoPoint ltac:(lia) v3 (proj1 Hm3)) as [[u' v4] E4].
  unfold bind at 1. rewrite E4.
  pose proof (marks_below_same _ _ _ _ (keeps _ _ _ E4) Hm3) as Hm4.
  apply verify_loop_defined; [done|done|constructor|unfold pass_fuel; lia].
Qed.
End Total.
