(* ===== verification/VerifierTargets.v ===== *)
(** * The targets the static checks record

    After the static checks of an accepted method, every position control can jump to (the first
    instruction, branch targets, switch targets, catch handlers) is flagged as a branch target, and
    no instruction is flagged as visited or changed.  The code-flow pass relies on both: it loads
    the line of an instruction from its table only where the instruction is a branch target. *)

From S2P Require Import Prelude DexOpcodes DexInstruction VerifierStatic VerifierProps.
Import InstructionFlags.
#[local] Open Scope vm_scope.

Definition flag (v : Verifier) (b i : Z) : bool := is_bit b (rd (insn_flags_ v) i).

(** Flags are only set, and [kVisited] and [kChanged] stay as they are. *)
Record flags_grow (v v' : Verifier) : Prop := {
  fg_length : length (insn_flags_ v') = length (insn_flags_ v);
  fg_grow : forall b i, 0 <= b < 8 -> 0 <= i -> flag v b i = true -> flag v' b i = true;
  fg_fresh : forall b i, 0 <= b < 2 -> 0 <= i -> flag v' b i = flag v b i
}.

Lemma flag_update v i b c j :
  0 <= i < Z.of_nat (length (insn_flags_ v)) -> 0 <= b < 8 -> 0 <= c < 8 -> 0 <= j ->
  flag (set_flags v (wr (insn_flags_ v) i (set_bit b (rd (insn_flags_ v) i)))) c j
  = ((j =? i) && (c =? b)) || flag v c j.
Proof.
  intros Hi Hb Hc Hj. unfold flag. cbn [insn_flags_ set_flags]. rewrite rd_wr, Z.eqb_sym by lia.
  destruct (Z.eqb_spec j i) as [->|]; [|done]. by rewrite is_bit_set_bit.
Qed.
Lemma grow_bit v i b :
  0 <= i < Z.of_nat (length (insn_flags_ v)) -> 2 <= b < 8 ->
  flags_grow v (set_flags v (wr (insn_flags_ v) i (set_bit b (rd (insn_flags_ v) i)))).
Proof.
  intros Hi Hb. split; [cbn; by rewrite length_wr| |]; intros c j Hc Hj; rewrite flag_update by lia.
  - intros ->. apply orb_true_r.
  - rewrite (proj2 (Z.eqb_neq c b)) by lia. by rewrite andb_false_r.
Qed.

#[global] Instance flags_grow_steps : StepRel flags_grow.
Proof.
  split.
  - split; [by intros v; split|]. intros u v w [L1 G1 F1] [L2 G2 F2]. split; [congruence|auto|].
    intros b i Hb Hi. by rewrite F2, F1.
  - intros v v' E. unfold flag. split; unfold flag; by rewrite E.
  - intros v i b Hi Hb. apply grow_bit; [done|lia].
Qed.

Lemma grows {A} {m : VM A} `{!Within flags_grow m} v a v' : m v = Some (a, v') -> flags_grow v v'.
Proof. apply within. Qed.
Lemma flag_grows {A} {m : VM A} `{!Within flags_grow m} v a v' b i :
  m v = Some (a, v') -> 0 <= b < 8 -> 0 <= i -> flag v b i = true -> flag v' b i = true.
Proof. intros E. by apply (grows _ _ _ E). Qed.

Section Targets.
Context (ci : CodeItem) (Hci : code_item_ok ci) (df : DexFile) (aot load soft dump : bool).
#[local] Abbreviation insns := (insns_ ci).
#[local] Abbreviation n_units := (insns_size_in_code_units_ ci).
#[local] Abbreviation is_target v i := (0 <= i /\ flag v kBranchTarget i = true).

(** The targets of the instruction at [pc] are flagged. *)
Record targets_flagged (v : Verifier) (pc : Z) : Prop := {
  tf_branch : GetVerifyExtraFlags (opcode insns pc) = kVerifyBranchTarget ->
    forall off cond self, GetBranchOffset ci pc = Some (off, cond, self) -> is_target v (pc + off);
  tf_switch : GetVerifyExtraFlags (opcode insns pc) = kVerifySwitchTargets ->
    forall i, 0 <= i < sw_count ci pc -> is_target v (pc + table_int32 ci (sw_targets ci pc + 2 * i))
}.
Lemma targets_grow v v' pc : flags_grow v v' -> targets_flagged v pc -> targets_flagged v' pc.
Proof.
  intros Hg [Hb Hs]. split.
  - intros E off cond self Eo. destruct (Hb E off cond self Eo). split; [done|]. by apply Hg.
  - intros E i Hi. destruct (Hs E i Hi). split; [done|]. by apply Hg.
Qed.

Lemma update_flagged i v u v' : UpdateInstructionFlags i SetBranchTarget v = Some (u, v') -> is_target v' i.
Proof.
  intros E. apply update_some in E as [Hi ->]. split; [lia|]. unfold SetBranchTarget.
  by rewrite flag_update, Z.eqb_refl by (unfold kBranchTarget; lia).
Qed.

Lemma CheckBranchTarget_flagged v v' pc off cond self :
  0 <= pc < n_units -> CheckBranchTarget ci aot load soft pc v = Some (true, v') ->
  GetBranchOffset ci pc = Some (off, cond, self) -> is_target v' (pc + off).
Proof.
  intros Hpc H E. unfold CheckBranchTarget in H. rewrite E in H. inv_check.
  pose proof (ci_size _ Hci). apply GetBranchOffset_range in E.
  destruct (no_wrap_sum pc off) as [? Heq]; [lia|done|lia|]. rewrite Heq in *.
  by eapply update_flagged.
Qed.

Lemma check_targets_flagged n pc targets t v v' :
  0 <= pc < 2 ^ 31 -> check_targets ci aot load soft n pc targets t v = Some (true, v') ->
  forall i, t <= i < t + Z.of_nat n -> is_target v' (pc + table_int32 ci (targets + 2 * i)).
Proof.
  intros Hpc. revert t v. induction n as [|n IH]; intros t v H; cbn [check_targets] in H; [lia|].
  inv_check. intros i Hi.
  match goal with Hr : check_targets _ _ _ _ _ _ _ _ _ = _ |- _ => pose proof (IH _ _ Hr) as Hrest; apply grows in Hr end.
  match goal with Hu : UpdateInstructionFlags _ _ _ = _ |- _ => apply update_flagged in Hu as [Hp Hu] end.
  destruct (no_wrap_sum pc (table_int32 ci (targets + t * 2))) as [? Heq];
    [done|by apply wraps_range|lia|]. rewrite Heq in *.
  destruct (Z.eqb_spec i t) as [->|]; [|apply Hrest; lia].
  rewrite (Z.mul_comm 2 t). split; [done|]. match goal with Hg : flags_grow _ _ |- _ => by apply Hg end.
Qed.

Lemma CheckSwitchTargets_flagged v v' pc i :
  0 <= pc < n_units -> CheckSwitchTargets ci aot load soft pc v = Some (true, v') ->
  0 <= i < sw_count ci pc -> is_target v' (pc + table_int32 ci (sw_targets ci pc + 2 * i)).
Proof.
  intros Hpc H. unfold CheckSwitchTargets in H. rewrite opcode_packed in H by done.
  destruct ((_ <? 0) || _) eqn:Hstart in H; [inv_check; done|].
  inv_check. match goal with Ht : (if ?b then check_targets _ _ _ _ _ _ _ _ else _) _ = _ |- _ => destruct b; [rename Ht into Htargets|by apply ret_some in Ht as [? _]] end.
  pose proof (ci_size _ Hci). intros Hi. unfold sw_targets, sw_packed, sw_count, sw_pos in *.
  eapply check_targets_flagged in Htargets; [exact Htargets|lia|lia].
Qed.

Lemma VerifyInstruction_flagged v v' pc :
  0 <= pc < n_units -> VerifyInstruction ci df aot load soft dump pc v = Some (true, v') -> targets_flagged v' pc.
Proof.
  intros Hpc H. unfold VerifyInstruction in H.
  destruct (IsExperimental (opcode insns pc)); [inv_check; done|].
  apply bind_some in H as (a & v1 & HA & H). apply bind_some in H as (b & v2 & HB & H).
  apply bind_some in H as (r & v3 & HC & H). apply bind_some in H as ([e g] & v4 & HE & H).
  assert (e = true /\ v4 = v') as [-> ->].
  { cbn [fst snd] in H. destruct g; [|inv_check; done].
    destruct (_ && _ && _); [by apply check_true in H as [? _]|inv_check; done]. }
  unfold VerifyExtra in HE. split; intros Ex; rewrite Ex in HE; cbn in HE.
  - apply bind_some in HE as (ok & w & HE & [[= -> _] ->]%ret_some). apply and_then_true in HE as [_ HE].
    intros off cond self Eo. by eapply CheckBranchTarget_flagged.
  - apply bind_some in HE as (ok & w & HE & [[= -> _] ->]%ret_some). apply and_then_true in HE as [_ HE].
    intros i Hi. by eapply CheckSwitchTargets_flagged.
Qed.

Lemma verify_loop_flagged fuel p v v' :
  boundary ci n_units -> boundary ci p -> verify_loop ci df aot load soft dump fuel p v = Some (true, v') ->
  flags_grow v v' /\ forall q, boundary ci q -> p <= q < n_units -> targets_flagged v' q.
Proof.
  intros Hend. revert p v. induction fuel as [|fuel IH]; intros p v Hp H;
    cbn [verify_loop] in H; destruct (Z.ltb_spec p n_units) as [Hlt|Hge]; try done.
  1, 3: inv_check; split; [done|lia].
  pose proof (boundary_nonneg ci Hci p Hp).
  apply bind_some in H as (ok & v1 & Hok & H). destruct ok; [|inv_check; done].
  cbn [negb] in H. apply bind_some in H as (u & v2 & Hmark & H). apply bind_some in H as (n & v3 & Hn & H).
  assert (flags_grow v1 v3) as Hg13 by (transitivity v2; [exact (grows _ _ _ Hmark)|exact (grows _ _ _ Hn)]).
  unfold SizeOf in Hn. destruct (SizeInCodeUnits insns p) as [n'|] eqn:En; [|done]. injection Hn as -> ->.
  pose proof (boundary_gap ci Hci p n_units n Hp Hend En Hlt). pose proof (ci_size _ Hci). pose proof (size_positive ci Hci _ _ En).
  rewrite wrapu_small in H by (unfold_width; lia). apply IH in H as [Hg3 Hrest]; [|by econstructor].
  split; [transitivity v1; [exact (grows _ _ _ Hok)|by etrans]|]. intros q Hq Hrange. destruct (Z.eqb_spec q p) as [->|].
  - apply (targets_grow v1); [by etrans|]. eapply VerifyInstruction_flagged; [lia|done].
  - apply Hrest; [done|]. pose proof (boundary_gap ci Hci p q n Hp Hq En ltac:(lia)). lia.
Qed.

Lemma scan_handlers_flagged l v v' :
  scan_handlers ci aot load soft l v = Some (true, v') -> Forall (fun h => is_target v' h) l.
Proof.
  revert v. induction l as [|h l IH]; intros v H; cbn [scan_handlers] in H; [done|]. inv_check.
  match goal with Hr : scan_handlers _ _ _ _ _ _ = _ |- _ => apply IH in Hr as Hrest; apply grows in Hr as Hg end.
  constructor; [|done]. match goal with Hu : UpdateInstructionFlags _ _ _ = _ |- _ => apply update_flagged in Hu as [? ?] end.
  split; [done|]. by apply Hg.
Qed.

#[local] Instance grow_opcode i : Within flags_grow (UpdateInstructionFlags i SetIsOpcode).
Proof. intros v a v' H. apply update_some in H as [Hi ->]. by apply grow_bit. Qed.
Lemma widths_grow fuel p a b : Within flags_grow (widths_loop ci fuel p a b).
Proof.
  revert p a b. induction fuel as [|fuel IH]; intros p a b; cbn [widths_loop]; apply within_if; try apply _; [by intros v|].
  apply within_bind; [apply within_flags; intros v x v' E; by eapply note_features_flags|]. intros _. apply _.
Qed.

(** The instructions of a try block. *)
Lemma in_try_flagged fuel p e v u v' :
  boundary ci n_units -> e <= n_units -> boundary ci p -> in_try_loop ci fuel p e v = Some (u, v') ->
  forall q, boundary ci q -> p <= q < e -> flag v' kInTry q = true.
Proof.
  intros Hend He. revert p v. induction fuel as [|fuel IH]; intros p v Hp H q Hq Hr; cbn [in_try_loop] in H;
    (destruct (Z.ltb_spec p e) as [Hlt|]; [|lia]); [done|].
  apply bind_some in H as (u1 & v1 & H1 & H). apply bind_some in H as (n & v2 & Hn & H).
  unfold SizeOf in Hn. destruct (SizeInCodeUnits insns p) as [n'|] eqn:En; [|done]. injection Hn as -> ->.
  pose proof (boundary_nonneg ci Hci p Hp). pose proof (boundary_gap ci Hci p n_units n Hp Hend En ltac:(lia)).
  pose proof (ci_size _ Hci). pose proof (size_positive ci Hci _ _ En). rewrite wrapu_small in H by (unfold_width; lia).
  destruct (Z.eqb_spec q p) as [->|Hne].
  - apply grows in H as Hg. apply Hg; [done|done|]. apply update_some in H1 as [Hi ->]. unfold SetInTry.
    by rewrite flag_update, Z.eqb_refl by (unfold kInTry; lia).
  - pose proof (boundary_gap ci Hci p q n Hp Hq En ltac:(lia)). eapply IH; [|exact H|done|lia]. econstructor; [done|lia|done].
Qed.
Lemma scan_tries_flagged l v v' :
  boundary ci n_units -> marks_below ci v n_units -> scan_tries ci aot load soft l v = Some (true, v') ->
  Forall (fun t => forall q, boundary ci q -> start_addr_ t <= q < u32 (start_addr_ t + insn_count_ t) -> flag v' kInTry q = true) l.
Proof.
  intros Hend. revert v. induction l as [|t l IH]; intros v Hm H; cbn [scan_tries] in H; [done|]. inv_check.
  match goal with Hr : scan_tries _ _ _ _ _ _ = _ |- _ => rename Hr into Hrest end.
  match goal with Hr : in_try_loop _ _ _ _ _ = _ |- _ => rename Hr into Hloop end.
  assert (boundary ci (start_addr_ t)) as Hb by (apply (proj2 Hm); congruence).
  constructor.
  - intros q Hq Hr. apply grows in Hrest as Hg. apply Hg; [done|by apply (boundary_nonneg ci Hci)|].
    eapply in_try_flagged; [done| |exact Hb|exact Hloop|done|done]. lia.
  - eapply IH; [|exact Hrest]. by eapply marks_below_same; [exact (keeps _ _ _ Hloop)|].
Qed.

(** What the code-flow pass finds in the flags. *)
Record flow_ready (v : Verifier) : Prop := {
  fr_length : Z.of_nat (length (insn_flags_ v)) = n_units;
  fr_entry : flag v kBranchTarget 0 = true;
  fr_targets : forall pc, marked v pc = true -> targets_flagged v pc;
  fr_handlers : tries_ ci <> [] -> Forall (fun h => is_target v h) (handler_addresses ci);
  fr_in_try : Forall (fun t => forall q, boundary ci q -> start_addr_ t <= q < u32 (start_addr_ t + insn_count_ t) ->
                flag v kInTry q = true) (tries_ ci);
  fr_fresh : forall i, 0 <= i -> flag v kVisited i = false /\ flag v kChanged i = false
}.

Lemma VerifyStatic_ready v v' :
  VerifyStatic ci df aot load soft dump v = Some (true, v') -> flow_ready v'.
Proof.
  intros H. pose proof (VerifyStatic_sound ci Hci df aot load soft dump v v' H) as Hsv. unfold VerifyStatic in H.
  destruct (registers_size_ ci <? ins_size_ ci); [by apply check_true in H as [? _]|].
  apply bind_some in H as ([] & v0 & Ha & H). injection Ha as <-.
  apply bind_some in H as (w & v1 & Hw & H). apply bind_some in H as (t & v2 & Ht & H).
  apply and_then_true in H as [-> H]. apply and_then_true in Ht as [-> Ht].
  unfold VerifyInstructions in H. apply bind_some in H as (u1 & v3 & H3 & H). apply bind_some in H as (u2 & v4 & H4 & H).
  destruct (verify_loop_flagged _ _ _ _ (sv_end _ _ Hsv) (boundary_0 ci) H) as [Hg Hq].
  assert (flags_grow v3 v') as Hg3 by (transitivity v4; [exact (grows _ _ _ H4)|done]).
  assert (flags_grow v2 v') as Hg2 by (transitivity v3; [exact (grows _ _ _ H3)|done]).
  assert (flags_grow (set_flags v (replicate (Z.to_nat n_units) 0)) v1) as Hg1.
  { unfold ComputeWidthsAndCountOps in Hw. apply bind_some in Hw as (r & w & Hw & Hc). etrans; [exact (widths_grow _ _ _ _ _ _ _ Hw)|].
      destruct (negb _); [by apply check_true in Hc as [? _]|]. injection Hc as <-. by apply sr_flags. }
  assert (flags_grow v1 v') as Hg1' by (transitivity v2; [exact (grows _ _ _ Ht)|done]).
  split.
  - rewrite (fg_length _ _ Hg1'), (fg_length _ _ Hg1). cbn. rewrite length_replicate. pose proof (ci_size _ Hci). lia.
  - apply Hg3; [done|done|]. by apply update_flagged in H3 as [_ ?].
  - intros pc Hm. apply (sv_marks _ _ Hsv) in Hm as [Hb Hlt]. apply Hq; [done|].
    pose proof (boundary_nonneg ci Hci pc Hb). lia.
  - intros Hne. unfold ScanTryCatchBlocks in Ht. destruct (tries_ ci) as [|x l]; [done|]. cbn [length Nat.eqb] in Ht.
    apply bind_some in Ht as (ok & v1' & _ & Ht). destruct ok; [|inv_check; done].
    apply scan_handlers_flagged in Ht. eapply Forall_impl; [exact Ht|]. intros h [? ?]. split; [done|]. by apply Hg2.
  - destruct (ComputeWidths_spec ci Hci aot load soft _ (marks_below_fresh ci Hci v)) as (r & v1' & Hw' & Hm1 & _).
    rewrite Hw in Hw'. injection Hw' as <- <-. unfold ScanTryCatchBlocks in Ht.
    destruct (length (tries_ ci) =? 0)%nat eqn:El; [by destruct (tries_ ci)|].
    apply bind_some in Ht as (ok & v1' & Ht & Ht2). destruct ok; [|inv_check; done].
    apply scan_tries_flagged in Ht; [|exact (sv_end _ _ Hsv)|done]. assert (flags_grow v1' v') as Hgt by (transitivity v2; [exact (grows _ _ _ Ht2)|done]).
    eapply Forall_impl; [exact Ht|]. cbn. intros t Hf q Hb Hr. apply Hgt; [done|by apply (boundary_nonneg ci Hci)|]. by apply Hf.
  - assert (forall b i, 0 <= b < 2 -> 0 <= i -> flag v' b i = false) as Hf.
    { intros b i Hb Hi. rewrite (fg_fresh _ _ Hg1'), (fg_fresh _ _ Hg1) by done. unfold flag. cbn. rewrite rd_lookup.
      destruct (replicate _ 0 !! Z.to_nat i) as [x|] eqn:E; cbn; [apply lookup_replicate in E as [-> _]|]; by rewrite is_bit_testbit, Z.bits_0 by lia. }
    intros i Hi. split; by apply Hf.
Qed.
End Targets.
