(* ===== verification/InterpreterSafety.v ===== *)
(** * Statically verified code in the interpreter

    An instruction that the static checks of the verifier accepted, run by the switch
    interpreter in a frame of the method's size, keeps the frame's two register arrays
    consistent, never reaches the abort for unexpected opcodes, and continues at the start of
    an instruction (or at the end of the code). *)

From S2P Require Import Prelude DexOpcodes DexInstruction Floats ShadowFrame InterpreterBase Interpreter VerifierStatic VerifierProps.

(** ** Frames of a method with [n] registers *)
Definition good_frame (n : Z) (f : ShadowFrame) : Prop :=
  frame_ok f /\ refs_ok f /\ number_of_vregs_ f = n.
Definition good (n : Z) (st : state) : Prop := good_frame n (frame st).

Section GoodFrame.
Context (n : Z) (f : ShadowFrame) (Hf : good_frame n f).

Lemma good_SetVReg i v : 0 <= i < n -> good_frame n (SetVReg f i v).
Proof.
  destruct Hf as (Hok & Href & Hn). intros Hi. split; [auto with art|]. split; [|done].
  apply SetVReg_refs; auto. unfold vreg_in. lia.
Qed.
Lemma good_SetVRegFloat i v : 0 <= i < n -> good_frame n (SetVRegFloat f i v).
Proof. exact (good_SetVReg i v). Qed.
Lemma good_SetVRegReference i v : 0 <= i < n -> good_frame n (SetVRegReference f i v).
Proof.
  destruct Hf as (Hok & Href & Hn). intros Hi. split; [auto with art|]. split; [|done].
  apply SetVRegReference_refs; auto. unfold vreg_in. lia.
Qed.
Lemma good_SetVRegLong i v : 0 <= i /\ i + 1 < n -> good_frame n (SetVRegLong f i v).
Proof.
  destruct Hf as (Hok & Href & Hn). intros Hi. split; [auto with art|]. split; [|done].
  apply SetVRegLong_refs; auto. unfold vreg_pair_in. lia.
Qed.
Lemma good_SetVRegDouble i v : 0 <= i /\ i + 1 < n -> good_frame n (SetVRegDouble f i v).
Proof. exact (good_SetVRegLong i v). Qed.
Lemma good_SetDexPC p : good_frame n (SetDexPC f p).
Proof. destruct Hf as ([] & Href & Hn). split; [by split|by split]. Qed.
End GoodFrame.

(** ** What the runtime services promise to the interpreter

    [P] holds of the positions of accepted instructions, [handlers] are the method's handler
    addresses.  A service may run other code and the collector, which updates both copies of a
    reference; it leaves the frame well formed, and a handler it finds is one of the
    method's. *)
Class ServicesSafe {RS : RuntimeServices} (n : Z) (P : Z -> Prop) (handlers : list Z) : Prop := {
  law_Throw k st : good n st -> good n (Throw k st);
  law_Suspension st : good n st -> good n (AllowThreadSuspension st);
  law_String st i : good n st -> good n (snd (ResolveString st i));
  law_Class st i : good n st -> good n (snd (ResolveVerifyAndClinit st i));
  law_Enter st o : good n st -> good n (MonitorEnter st o);
  law_Exit st o : good n st -> good n (MonitorExit st o);
  law_Alloc st c i : good n st -> good n (snd (AllocObject st c i));
  law_AllocArray st c l : good n st -> good n (snd (AllocArrayFromCode st c l));
  law_FilledNewArray r st pc : P pc -> good n st -> good n (snd (DoFilledNewArray r st pc));
  law_FieldGet t p st pc : P pc -> good n st -> good n (snd (DoFieldGet t p st pc));
  law_IGetQuick p st pc : P pc -> good n st -> good n (snd (DoIGetQuick p st pc));
  law_FieldPut t p st pc : P pc -> good n st -> good n (snd (DoFieldPut t p st pc));
  law_IPutQuick p st pc : P pc -> good n st -> good n (snd (DoIPutQuick p st pc));
  law_Invoke t r st pc : P pc -> good n st -> good n (snd (DoInvoke t r st pc));
  law_InvokeQuick r st pc : P pc -> good n st -> good n (snd (DoInvokeVirtualQuick r st pc));
  law_Handler st pc : good n st -> good n (snd (FindHandler st pc));
  law_HandlerAddress st pc h : fst (FindHandler st pc) = Some h -> h ∈ handlers
}.

(** ** Accesses the static checks do not cover

    The component types each array access accepts. *)
Definition array_access (c : Code) : option (list Primitive) :=
  match c with
  | AGET | APUT => Some [kPrimInt; kPrimFloat]
  | AGET_WIDE | APUT_WIDE => Some [kPrimLong; kPrimDouble]
  | AGET_OBJECT | APUT_OBJECT => Some [kPrimNot]
  | AGET_BOOLEAN | APUT_BOOLEAN => Some [kPrimBoolean]
  | AGET_BYTE | APUT_BYTE => Some [kPrimByte]
  | AGET_CHAR | APUT_CHAR => Some [kPrimChar]
  | AGET_SHORT | APUT_SHORT => Some [kPrimShort]
  | _ => None
  end.

(** The reference an array instruction uses is not an array of the kind it needs (the
    code-flow analysis rules this out), or the payload of [fill-array-data] is longer than the
    array's data. *)
Definition array_mismatch (insns : code_units) (pc : Z) (st : state) : Prop :=
  let d := Fetch16 insns pc 0 in
  let array_at r a := objects st !! GetVRegReference (frame st) r = Some (HArray a) in
  match opcode insns pc with
  | ARRAY_LENGTH => forall a, ~ array_at (VRegB_12x d) a
  | FILL_ARRAY_DATA =>
      forall a, array_at (VRegA_31t d) a ->
      Z.of_nat (length (a_data a)) < fill_size_in_bytes insns (pc + VRegB_31t insns pc)
  | c =>
      exists types, array_access c = Some types
      /\ forall a, array_at (VRegB_23x insns pc) a -> a_component a ∉ types
  end.

(** ** Operands as [int32_t] *)
Section OperandRange.
Context (insns : code_units) (pc : Z) (Hok : units_ok insns).

Lemma u8_in_s32 z : in_s 32 (u8 z).
Proof. pose proof (wrapu_range 8 ltac:(lia) z). unfold_width. lia. Qed.
Lemma s8_in_s32 z : in_s 32 (s8 z).
Proof. pose proof (wraps_range 8 ltac:(lia) z). unfold_width. lia. Qed.
Lemma s16_in_s32 z : in_s 32 (s16 z).
Proof. pose proof (wraps_range 16 ltac:(lia) z). unfold_width. lia. Qed.
Lemma s32_in_s32 z : in_s 32 (s32 z).
Proof. by apply wraps_range. Qed.
Lemma unit_in_s32 i : in_s 32 (Fetch16 insns pc i).
Proof. pose proof (Hok (pc + i)). unfold Fetch16. unfold_width. lia. Qed.

Lemma VRegA_range a : VRegA insns pc = Some a -> in_s 32 a.
Proof.
  unfold VRegA. destruct (format insns pc); intros [= <-];
    first [apply u8_in_s32 | apply s8_in_s32 | apply s16_in_s32 | apply s32_in_s32 | apply unit_in_s32].
Qed.
Lemma VRegB_range b : VRegB insns pc = Some b -> in_s 32 b.
Proof.
  unfold VRegB. destruct (format insns pc); intros [= <-];
    first [apply u8_in_s32 | apply s8_in_s32 | apply s16_in_s32 | apply s32_in_s32 | apply unit_in_s32].
Qed.
Lemma VRegC_range c : VRegC insns pc = Some c -> in_s 32 c.
Proof.
  unfold VRegC. destruct (format insns pc); intros [= <-];
    first [apply u8_in_s32 | apply s8_in_s32 | apply s16_in_s32 | apply s32_in_s32 | apply unit_in_s32].
Qed.
End OperandRange.

(** A register number below a 16-bit count, as an unsigned argument, is itself. *)
Lemma reg_of_arg z n : in_s 32 z -> n < 2 ^ 16 -> u32 z < n -> 0 <= z < n.
Proof. intros. unfold_width. dlia. Qed.
Lemma reg_of_wide_arg z n : in_s 32 z -> n < 2 ^ 16 -> u32 (u32 z + 1) < n -> z <> -1 -> 0 <= z /\ z + 1 < n.
Proof. intros. unfold_width. dlia. Qed.

Lemma u8_nonneg z : 0 <= u8 z.
Proof. by apply wrapu_range. Qed.
Lemma unit_nonneg insns pc i : units_ok insns -> 0 <= Fetch16 insns pc i.
Proof. intros Hok. apply Hok. Qed.

(** ** One accepted instruction *)
Section Step.
Context {RS : RuntimeServices} (ci : CodeItem) (Hci : code_item_ok ci).
#[local] Abbreviation insns := (insns_ ci).
#[local] Abbreviation n_regs := (registers_size_ ci).
#[local] Abbreviation n_units := (insns_size_in_code_units_ ci).
Context (v : Verifier) (Hv : statically_verified ci v).
(** The handlers the method has. *)
Definition handlers_of (c : CodeItem) : list Z :=
  match tries_ c with [] => [] | _ => handler_addresses c end.
Context {Hlaws : ServicesSafe n_regs (fun pc => marked v pc = true) (handlers_of ci)}.
Context (pc : Z) (Hpc : marked v pc = true) (st : state) (Hst : good n_regs st).

(** The next position is an instruction or the end of the code. *)
Definition next_ok (pc' : Z) : Prop := marked v pc' = true \/ pc' = n_units.

(** The positions of payloads are not executable. *)
Definition is_payload (i : Z) : bool :=
  (insns i =? kPackedSwitchSignature) || (insns i =? kSparseSwitchSignature)
  || (insns i =? kArrayDataSignature).
Context (Hexec : is_payload pc = false).

Definition outcome_fine (o : outcome) : Prop :=
  match o with
  | Continue st' pc' => good n_regs st' /\ next_ok pc'
  | Exit st' _ | Pending st' => good n_regs st'
  | Unexpected => False
  | Undefined => array_mismatch insns pc st
  end.
Definition fine (o : option outcome) : Prop :=
  match o with Some o => outcome_fine o | None => True end.

Lemma pc_range : 0 <= pc < n_units.
Proof.
  apply Hv in Hpc as [Hb ?]. pose proof (boundary_nonneg ci Hci _ Hb). lia.
Qed.

Lemma next_size k : SizeInCodeUnits insns pc = Some k -> next_ok (pc + k).
Proof.
  intros Hk. apply Hv in Hpc as [Hb Hlt].
  pose proof (boundary_gap ci Hci pc n_units k Hb (sv_end _ _ Hv) Hk Hlt).
  destruct (Z.eqb_spec (pc + k) n_units); [by right|left].
  apply Hv. split; [by econstructor|lia].
Qed.

Lemma next_sized k :
  kInstructionSizeInCodeUnits (Code_value (opcode insns pc)) = k -> 0 <= k -> next_ok (pc + k).
Proof.
  intros Hk Hpos. apply next_size. unfold SizeInCodeUnits.
  destruct (Z.ltb_spec (kInstructionSizeInCodeUnits (Code_value (opcode insns pc))) 0); [lia|].
  by rewrite Hk.
Qed.

(** A [NOP] that is not a payload is one unit long. *)
Lemma next_nop : opcode insns pc = NOP -> next_ok (pc + 1).
Proof.
  intros E. apply next_size. unfold SizeInCodeUnits. rewrite E.
  change (kInstructionSizeInCodeUnits (Code_value NOP) <? 0) with true. cbv iota.
  pose proof (opcode_value insns pc (ci_units _ Hci)) as Hv0. rewrite E in Hv0.
  unfold is_payload in Hexec. unfold SizeInCodeUnitsComplexOpcode. rewrite land_0xff.
  unfold Fetch16 in *. rewrite Z.add_0_r in *.
  apply orb_false_elim in Hexec as [H1 H3]. apply orb_false_elim in H1 as [H1 H2].
  rewrite H1, H2, H3. change (2 ^ 8) with 256. by rewrite <- Hv0.
Qed.

Lemma acc : accepted ci v pc.
Proof. by apply Hv. Qed.

Lemma regs_bound : n_regs < 2 ^ 16.
Proof. pose proof (ci_regs _ Hci). unfold in_u in *. lia. Qed.

Lemma regA_in a :
  GetVerifyTypeArgumentA (opcode insns pc) = kVerifyRegA -> VRegA insns pc = Some a ->
  0 <= a < n_regs.
Proof.
  intros Ht Ha. apply reg_of_arg; [|apply regs_bound|].
  - by eapply VRegA_range; [apply Hci|].
  - pose proof (acc_A _ _ _ acc Ht) as H. unfold argA in H. by rewrite Ha in H.
Qed.

Lemma regA_wide_in a :
  GetVerifyTypeArgumentA (opcode insns pc) = kVerifyRegAWide -> VRegA insns pc = Some a ->
  0 <= a -> 0 <= a /\ a + 1 < n_regs.
Proof.
  intros Ht Ha Hpos. apply reg_of_wide_arg; [|apply regs_bound| |lia].
  - by eapply VRegA_range; [apply Hci|].
  - pose proof (acc_A_wide _ _ _ acc Ht) as H. unfold argA in H. by rewrite Ha in H.
Qed.

Lemma next1_fine f' :
  kInstructionSizeInCodeUnits (Code_value (opcode insns pc)) = 1 -> good_frame n_regs f' ->
  fine (next1 pc st f').
Proof. intros Hk Hf. split; [done|]. by apply next_sized. Qed.
Lemma next2_fine f' :
  kInstructionSizeInCodeUnits (Code_value (opcode insns pc)) = 2 -> good_frame n_regs f' ->
  fine (next2 pc st f').
Proof. intros Hk Hf. split; [done|]. by apply next_sized. Qed.
Lemma next3_fine f' :
  kInstructionSizeInCodeUnits (Code_value (opcode insns pc)) = 3 -> good_frame n_regs f' ->
  fine (next3 pc st f').
Proof. intros Hk Hf. split; [done|]. by apply next_sized. Qed.

Lemma ending_fine r k :
  kInstructionSizeInCodeUnits (Code_value (opcode insns pc)) = k -> 0 <= k ->
  good n_regs (snd r) -> fine (ending r (pc + k)).
Proof.
  intros Hk Hpos Hr. unfold ending, possibly. destruct (fst r); [|done].
  split; [done|]. by apply next_sized.
Qed.
Lemma ending_pending_fine r k :
  kInstructionSizeInCodeUnits (Code_value (opcode insns pc)) = k -> 0 <= k ->
  good n_regs (snd r) -> fine (ending_pending r (pc + k)).
Proof.
  intros Hk Hpos Hr. unfold ending_pending, possibly. destruct (IsExceptionPending _); [done|].
  split; [done|]. by apply next_sized.
Qed.
Lemma store_ref_fine r dst k :
  kInstructionSizeInCodeUnits (Code_value (opcode insns pc)) = k -> 0 <= k ->
  good n_regs (snd r) -> 0 <= dst < n_regs -> fine (store_ref r dst (pc + k)).
Proof.
  intros Hk Hpos Hr Hd. unfold store_ref. destruct r as [ref st1]. destruct (ref =? 0); [done|].
  split; [by apply good_SetVRegReference|]. by apply next_sized.
Qed.

(** *** The groups of the switch

    [E] is the equation for the opcode; the table lookups compute. *)
Ltac by_table E := rewrite E; reflexivity.
Ltac operand E := unfold VRegA, format; rewrite E; reflexivity.
Ltac nonneg := first [ apply u8_nonneg | apply unit_nonneg, Hci ].
Ltac register E :=
  first [ apply regA_in; [by_table E | operand E]
        | apply regA_wide_in; [by_table E | operand E | nonneg] ].
Ltac frames E :=
  repeat first [ apply good_SetVReg | apply good_SetVRegFloat | apply good_SetVRegReference
               | apply good_SetVRegLong | apply good_SetVRegDouble ];
  first [ exact Hst | register E | done ].
Ltac stores E :=
  first [ apply next1_fine; [by_table E | frames E]
        | apply next2_fine; [by_table E | frames E]
        | apply next3_fine; [by_table E | frames E] ].

Lemma exec_move_fine : fine (exec_move insns pc st (opcode insns pc)).
Proof.
  unfold exec_move. destruct (opcode insns pc) eqn:E; try exact I.
  1: { split; [exact Hst|]. by apply next_nop. }
  all: stores E.
Qed.

Lemma exec_return_fine : fine (exec_return insns pc st (opcode insns pc)).
Proof.
  pose proof (law_Suspension _ Hst).
  unfold exec_return. destruct (opcode insns pc) eqn:E; try exact I; done.
Qed.

Lemma good_set_const dst val : 0 <= dst < n_regs -> good_frame n_regs (set_const st dst val).
Proof.
  intros Hd. unfold set_const. destruct (val =? 0).
  - apply good_SetVRegReference; [|done]. by apply good_SetVReg.
  - by apply good_SetVReg.
Qed.

Lemma exec_const_fine : fine (exec_const insns pc st (opcode insns pc)).
Proof.
  unfold exec_const. destruct (opcode insns pc) eqn:E; try exact I.
  all: try stores E.
  all: try (first [apply next1_fine | apply next2_fine | apply next3_fine];
            [by_table E | apply good_set_const; register E]).
  split; [|by apply (next_sized 5); [by_table E|]]. apply good_SetVRegLong; [done|register E].
Qed.

Lemma exec_resolve_fine : fine (exec_resolve insns pc st (opcode insns pc)).
Proof.
  unfold exec_resolve. destruct (opcode insns pc) eqn:E; try exact I.
  - apply store_ref_fine; [by_table E|done|by apply law_String|register E].
  - apply store_ref_fine; [by_table E|done|by apply law_String|register E].
  - apply store_ref_fine; [by_table E|done|by apply law_Class|register E].
  - destruct (_ =? 0); [by apply law_Throw|]. unfold possibly.
    pose proof (law_Enter _ (GetVRegReference (frame st) (VRegA_11x (Fetch16 insns pc 0))) Hst).
    destruct (IsExceptionPending _); [done|]. split; [done|]. by apply (next_sized 1); [by_table E|].
  - destruct (_ =? 0); [by apply law_Throw|]. unfold possibly.
    pose proof (law_Exit _ (GetVRegReference (frame st) (VRegA_11x (Fetch16 insns pc 0))) Hst).
    destruct (IsExceptionPending _); [done|]. split; [done|]. by apply (next_sized 1); [by_table E|].
  - pose proof (law_Class _ (VRegB_21c insns pc) Hst) as Hc.
    destruct (ResolveVerifyAndClinit st _) as [c st1]. cbn in Hc.
    destruct (c =? 0); [done|]. destruct (_ && _); [by apply law_Throw|].
    split; [done|]. by apply (next_sized 2); [by_table E|].
  - pose proof (law_Class _ (VRegC_22c insns pc) Hst) as Hc.
    destruct (ResolveVerifyAndClinit st _) as [c st1]. cbn in Hc.
    destruct (c =? 0); [done|]. split; [|by apply (next_sized 2); [by_table E|]].
    apply good_SetVReg; [done|register E].
Qed.

Lemma FillArrayData_good obj p r :
  FillArrayData st obj insns p = Some r -> good n_regs (snd r).
Proof.
  unfold FillArrayData. intros H. repeat case_match; simplify_eq; try done; by apply law_Throw.
Qed.

Lemma FillArrayData_None r p a :
  FillArrayData st (GetVRegReference (frame st) r) insns p = None ->
  objects st !! GetVRegReference (frame st) r = Some (HArray a) ->
  Z.of_nat (length (a_data a)) < fill_size_in_bytes insns p.
Proof.
  unfold FillArrayData, memcpy_payload. intros H Ho. rewrite Ho in H.
  repeat case_match; simplify_eq; lia.
Qed.

Lemma exec_object_fine : fine (exec_object insns pc st (opcode insns pc)).
Proof.
  unfold exec_object. destruct (opcode insns pc) eqn:E; try exact I.
  - destruct (_ =? 0); [by apply law_Throw|].
    case_match; [case_match|]; [stores E| |]; unfold fine, outcome_fine, array_mismatch;
      rewrite E; naive_solver.
  - pose proof (law_Class _ (VRegB_21c insns pc) Hst) as Hc.
    destruct (ResolveVerifyAndClinit st _) as [c st1]. cbn in Hc.
    destruct (c =? 0); [done|].
    apply store_ref_fine; [by_table E|done|by apply law_Alloc|register E].
  - apply store_ref_fine; [by_table E|done|by apply law_AllocArray|register E].
  - apply ending_fine; [by_table E|done|by apply law_FilledNewArray].
  - apply ending_fine; [by_table E|done|by apply law_FilledNewArray].
  - destruct (FillArrayData _ _ _ _) as [r|] eqn:Er;
      [|unfold fine, outcome_fine, array_mismatch; rewrite E; intros a; by apply FillArrayData_None].
    apply ending_fine; [by_table E|done|by eapply FillArrayData_good].
  - destruct (_ =? 0); [by apply law_Throw|done].
Qed.

Lemma branch_fine off : next_ok (pc + off) -> fine (branch pc st off).
Proof.
  intros Hn. split; [|done]. destruct (IsBackwardBranch off); [by apply law_Suspension|done].
Qed.

Lemma GetBranchOffset_by_opcode :
  Code_of (Z.land (insns pc) 0xff) = opcode insns pc.
Proof. unfold opcode, Opcode, Fetch16. by rewrite Z.add_0_r. Qed.

Lemma target_ok off cond self :
  GetVerifyExtraFlags (opcode insns pc) = kVerifyBranchTarget ->
  GetBranchOffset ci pc = Some (off, cond, self) -> next_ok (pc + off).
Proof.
  intros Hx Ho. destruct (acc_branch _ _ _ acc Hx) as (o & c & s & Ho' & Hm & _).
  left. congruence.
Qed.

(** The offset of [goto] is the signed high byte of the first unit. *)
Lemma goto_offset z : in_u 16 z -> Z.shiftr (s16 z) 8 = s8 (InstAA z).
Proof. intros Hz. unfold InstAA. rewrite !Z.shiftr_div_pow2 by lia. unfold_width. dlia. Qed.

Lemma read_int32_table p : read_int32 insns p = table_int32 ci p.
Proof.
  unfold read_int32, table_int32. rewrite Fetch32_eq by apply Hci. unfold Fetch16.
  by rewrite !Z.add_0_r.
Qed.

Lemma sparse_search_in fuel key x lo hi i :
  0 <= lo -> sparse_search fuel key x lo hi = Some (Some i) -> lo <= i <= hi.
Proof.
  revert lo hi. induction fuel as [|fuel IH]; intros lo hi Hlo H; [done|].
  cbn [sparse_search] in H. destruct (Z.leb_spec lo hi); [|done].
  rewrite Z.quot_div_nonneg in H by lia.
  assert (lo <= (lo + hi) / 2 <= hi) by dlia.
  repeat case_match; simplify_eq; [apply IH in H; lia|apply IH in H; lia|lia].
Qed.

Lemma packed_switch_target :
  opcode insns pc = PACKED_SWITCH ->
  next_ok (pc + DoPackedSwitch insns pc (frame st) (Fetch16 insns pc 0)).
Proof.
  intros E. assert (switch_accepted ci v pc) as Hs by (apply (acc_switch _ _ _ acc); by_table E).
  assert (next_ok (pc + 3)) by (by apply (next_sized 3); [by_table E|]).
  unfold DoPackedSwitch. case_match; [done|]. destruct (_ && _) eqn:Hi; [|done]. left.
  pose proof (sw_target _ _ _ Hs) as Ht. unfold sw_targets, sw_count, sw_packed, sw_pos in Ht.
  rewrite E in Ht. rewrite bool_decide_eq_true_2 in Ht by done.
  unfold VRegB_31t in *. rewrite read_int32_table. apply Ht. lia.
Qed.

Lemma sparse_switch_target :
  opcode insns pc = SPARSE_SWITCH ->
  next_ok (pc + DoSparseSwitch insns pc (frame st) (Fetch16 insns pc 0)).
Proof.
  intros E. assert (switch_accepted ci v pc) as Hs by (apply (acc_switch _ _ _ acc); by_table E).
  assert (next_ok (pc + 3)) by (by apply (next_sized 3); [by_table E|]).
  unfold DoSparseSwitch. case_match; [done|]. case_match eqn:Hf; [|done]. case_match; [|done].
  subst. left. apply sparse_search_in in Hf; [|lia].
  pose proof (sw_target _ _ _ Hs) as Ht. unfold sw_targets, sw_count, sw_packed, sw_pos in Ht.
  rewrite E in Ht. rewrite bool_decide_eq_false_2 in Ht by done.
  unfold VRegB_31t in *. rewrite read_int32_table. specialize (Ht z ltac:(lia)).
  by rewrite Z.add_assoc in Ht.
Qed.

Lemma exec_goto_fine : fine (exec_goto insns pc st (opcode insns pc)).
Proof.
  unfold exec_goto. destruct (opcode insns pc) eqn:E; try exact I; apply branch_fine.
  - eapply target_ok; [by_table E|]. unfold GetBranchOffset.
    rewrite GetBranchOffset_by_opcode, E, goto_offset by apply Hci.
    unfold Fetch16. by rewrite Z.add_0_r.
  - eapply target_ok; [by_table E|]. unfold GetBranchOffset.
    by rewrite GetBranchOffset_by_opcode, E.
  - eapply target_ok; [by_table E|]. unfold GetBranchOffset.
    by rewrite GetBranchOffset_by_opcode, E.
  - by apply packed_switch_target.
  - by apply sparse_switch_target.
Qed.

Lemma exec_cmp_fine : fine (exec_cmp insns pc st (opcode insns pc)).
Proof. unfold exec_cmp. destruct (opcode insns pc) eqn:E; try exact I; stores E. Qed.

Lemma cond_branch_fine taken off cond self :
  GetVerifyExtraFlags (opcode insns pc) = kVerifyBranchTarget ->
  kInstructionSizeInCodeUnits (Code_value (opcode insns pc)) = 2 ->
  GetBranchOffset ci pc = Some (off, cond, self) -> fine (cond_branch pc st taken off).
Proof.
  intros Hx Hk Ho. destruct taken; cbn [cond_branch].
  - apply branch_fine. by eapply target_ok.
  - split; [done|]. by apply (next_sized 2).
Qed.
Ltac branches E :=
  eapply cond_branch_fine; [by_table E|by_table E|];
  unfold GetBranchOffset; by rewrite GetBranchOffset_by_opcode, E.

Lemma exec_if_fine : fine (exec_if insns pc st (opcode insns pc)).
Proof. unfold exec_if. destruct (opcode insns pc) eqn:E; try exact I; branches E. Qed.
Lemma exec_ifz_fine : fine (exec_ifz insns pc st (opcode insns pc)).
Proof. unfold exec_ifz. destruct (opcode insns pc) eqn:E; try exact I; branches E. Qed.

Lemma with_element_fine types k :
  array_access (opcode insns pc) = Some types ->
  (forall a r i, fine (k a r i)) -> fine (with_element insns pc st types k).
Proof.
  intros Hc Hk.
  assert ((forall a, objects st !! GetVRegReference (frame st) (VRegB_23x insns pc)
                     = Some (HArray a) -> a_component a ∉ types) ->
          array_mismatch insns pc st) as Hm.
  { intros H. unfold array_mismatch. destruct (opcode insns pc); try discriminate Hc; eauto. }
  unfold with_element. destruct (_ =? 0); [by apply law_Throw|].
  case_match; [case_match|]; [|apply Hm; naive_solver..].
  case_bool_decide; [|apply Hm; naive_solver].
  destruct (CheckIsValidIndex _ _); [apply Hk|by apply law_Throw].
Qed.

Lemma exec_aget_fine : fine (exec_aget insns pc st (opcode insns pc)).
Proof.
  unfold exec_aget. destruct (opcode insns pc) eqn:E; try exact I;
    (apply with_element_fine; [by rewrite E|]; intros a r i; stores E).
Qed.

Lemma put_element_fine w a r i :
  kInstructionSizeInCodeUnits (Code_value (opcode insns pc)) = 2 ->
  fine (put_element pc st w a r i).
Proof. intros Hk. split; [done|]. by apply (next_sized 2). Qed.

Lemma exec_aput_fine : fine (exec_aput insns pc st (opcode insns pc)).
Proof.
  unfold exec_aput. destruct (opcode insns pc) eqn:E; try exact I;
    (apply with_element_fine; [by rewrite E|]; intros a r i);
    try (apply put_element_fine; by_table E).
  destruct (Assignable _ _ _); [apply put_element_fine; by_table E|by apply law_Throw].
Qed.

Ltac service E := apply ending_fine; [by_table E|done|].

Lemma exec_iget_fine : fine (exec_iget pc st (opcode insns pc)).
Proof.
  unfold exec_iget. destruct (opcode insns pc) eqn:E; try exact I;
    service E; first [by apply law_FieldGet | by apply law_IGetQuick].
Qed.
Lemma exec_sget_fine : fine (exec_sget pc st (opcode insns pc)).
Proof.
  unfold exec_sget. destruct (opcode insns pc) eqn:E; try exact I; service E;
    by apply law_FieldGet.
Qed.
Lemma exec_iput_fine : fine (exec_iput pc st (opcode insns pc)).
Proof.
  unfold exec_iput. destruct (opcode insns pc) eqn:E; try exact I;
    service E; first [by apply law_FieldPut | by apply law_IPutQuick].
Qed.
Lemma exec_sput_fine : fine (exec_sput pc st (opcode insns pc)).
Proof.
  unfold exec_sput. destruct (opcode insns pc) eqn:E; try exact I; service E;
    by apply law_FieldPut.
Qed.
Lemma exec_invoke_fine : fine (exec_invoke pc st (opcode insns pc)).
Proof.
  unfold exec_invoke. destruct (opcode insns pc) eqn:E; try exact I;
    service E; first [by apply law_Invoke | by apply law_InvokeQuick].
Qed.

Lemma exec_unary_fine : fine (exec_unary insns pc st (opcode insns pc)).
Proof. unfold exec_unary. destruct (opcode insns pc) eqn:E; try exact I; stores E. Qed.

Lemma DoIntDivide_good A x y : 0 <= A < n_regs -> good n_regs (snd (DoIntDivide st A x y)).
Proof.
  intros HA. unfold DoIntDivide. case_match; [by apply law_Throw|].
  case_match; by apply good_SetVReg.
Qed.
Lemma DoIntRemainder_good A x y : 0 <= A < n_regs -> good n_regs (snd (DoIntRemainder st A x y)).
Proof.
  intros HA. unfold DoIntRemainder. case_match; [by apply law_Throw|].
  case_match; by apply good_SetVReg.
Qed.
Lemma DoLongDivide_good A x y :
  0 <= A /\ A + 1 < n_regs -> good n_regs (snd (DoLongDivide st A x y)).
Proof.
  intros HA. unfold DoLongDivide. case_match; [by apply law_Throw|].
  case_match; by apply good_SetVRegLong.
Qed.
Lemma DoLongRemainder_good A x y :
  0 <= A /\ A + 1 < n_regs -> good n_regs (snd (DoLongRemainder st A x y)).
Proof.
  intros HA. unfold DoLongRemainder. case_match; [by apply law_Throw|].
  case_match; by apply good_SetVRegLong.
Qed.

Ltac arithmetic E :=
  first [ stores E
        | service E; first [apply DoIntDivide_good | apply DoIntRemainder_good]; register E
        | apply ending_pending_fine; [by_table E|done|];
          first [apply DoLongDivide_good | apply DoLongRemainder_good]; register E ].

Lemma exec_int_fine : fine (exec_int insns pc st (opcode insns pc)).
Proof. unfold exec_int. destruct (opcode insns pc) eqn:E; try exact I; arithmetic E. Qed.
Lemma exec_long_fine : fine (exec_long insns pc st (opcode insns pc)).
Proof. unfold exec_long. destruct (opcode insns pc) eqn:E; try exact I; arithmetic E. Qed.
Lemma exec_floating_fine : fine (exec_floating insns pc st (opcode insns pc)).
Proof. unfold exec_floating. destruct (opcode insns pc) eqn:E; try exact I; stores E. Qed.
Lemma exec_int_2addr_fine : fine (exec_int_2addr insns pc st (opcode insns pc)).
Proof. unfold exec_int_2addr. destruct (opcode insns pc) eqn:E; try exact I; arithmetic E. Qed.
Lemma exec_long_2addr_fine : fine (exec_long_2addr insns pc st (opcode insns pc)).
Proof. unfold exec_long_2addr. destruct (opcode insns pc) eqn:E; try exact I; arithmetic E. Qed.
Lemma exec_floating_2addr_fine : fine (exec_floating_2addr insns pc st (opcode insns pc)).
Proof. unfold exec_floating_2addr. destruct (opcode insns pc) eqn:E; try exact I; stores E. Qed.
Lemma exec_lit16_fine : fine (exec_lit16 insns pc st (opcode insns pc)).
Proof. unfold exec_lit16. destruct (opcode insns pc) eqn:E; try exact I; arithmetic E. Qed.
Lemma exec_lit8_fine : fine (exec_lit8 insns pc st (opcode insns pc)).
Proof. unfold exec_lit8. destruct (opcode insns pc) eqn:E; try exact I; arithmetic E. Qed.

(** Experimental and unused opcodes are rejected by the verifier. *)
Lemma exec_lambda_fine : fine (exec_lambda pc st (opcode insns pc)).
Proof.
  unfold exec_lambda. destruct (opcode insns pc) eqn:E; try exact I;
    pose proof (acc_plain _ _ _ acc) as Hp; rewrite E in Hp; by vm_compute in Hp.
Qed.
Lemma exec_unused_fine : fine (exec_unused (opcode insns pc)).
Proof.
  unfold exec_unused. destruct (opcode insns pc) eqn:E; try exact I;
    by destruct (acc_known _ _ _ acc); rewrite E.
Qed.

Lemma first_group_fine l :
  Exists (fun g => g (opcode insns pc) <> None) l ->
  Forall (fun g => fine (g (opcode insns pc))) l ->
  outcome_fine (first_group l (opcode insns pc)).
Proof.
  intros He Hl. induction Hl as [|g l Hg _ IH]; [by apply Exists_nil in He|]. cbn.
  destruct (g (opcode insns pc)) eqn:Eg; [done|]. apply IH.
  by apply Exists_cons in He as [He|He].
Qed.

(** Every opcode has a case. *)
Lemma with_element_case types k :
  (forall a r i, k a r i <> None) -> with_element insns pc st types k <> None.
Proof. intros Hk. unfold with_element. repeat case_match; first [discriminate | apply Hk]. Qed.
Lemma groups_total c : Exists (fun g => g c <> None) (groups insns pc st).
Proof.
  unfold groups.
  destruct c; repeat first
    [ apply Exists_cons_hd; cbn;
      first [ discriminate
            | apply with_element_case; intros; try case_match; discriminate
            | unfold store_ref; repeat case_match; discriminate
            | unfold cond_branch; match goal with |- context [if ?b then _ else _] => destruct b end;
              discriminate ]
    | apply Exists_cons_tl ].
Qed.

Lemma exec_fine : outcome_fine (exec insns pc st).
Proof.
  apply first_group_fine; [apply groups_total|]. unfold groups.
  repeat (apply Forall_cons; split).
  all: first
    [ apply exec_move_fine | apply exec_return_fine | apply exec_const_fine
    | apply exec_resolve_fine | apply exec_object_fine | apply exec_goto_fine
    | apply exec_cmp_fine | apply exec_if_fine | apply exec_ifz_fine | apply exec_aget_fine
    | apply exec_aput_fine | apply exec_iget_fine | apply exec_sget_fine | apply exec_iput_fine
    | apply exec_sput_fine | apply exec_invoke_fine | apply exec_unary_fine
    | apply exec_int_fine | apply exec_long_fine | apply exec_floating_fine
    | apply exec_int_2addr_fine | apply exec_long_2addr_fine | apply exec_floating_2addr_fine
    | apply exec_lit16_fine | apply exec_lit8_fine | apply exec_lambda_fine
    | apply exec_unused_fine | apply Forall_nil_2 ].
Qed.
End Step.

(** ** The dispatch loop on a verified method *)
Section Run.
Context {RS : RuntimeServices} (ci : CodeItem) (Hci : code_item_ok ci).
#[local] Abbreviation insns := (insns_ ci).
#[local] Abbreviation n_regs := (registers_size_ ci).
#[local] Abbreviation n_units := (insns_size_in_code_units_ ci).
Context (v : Verifier) (Hv : statically_verified ci v).
Context {Hlaws : ServicesSafe n_regs (fun pc => marked v pc = true) (handlers_of ci)}.

(** What one iteration of the loop may do. *)
Definition iteration_fine (pc : Z) (st : state) (o : outcome) : Prop :=
  match o with
  | Continue st' pc' => good n_regs st' /\ next_ok ci v pc'
  | Exit st' _ => good n_regs st'
  | Pending _ | Unexpected => False
  | Undefined => array_mismatch insns pc st
  end.

Lemma handler_marked h : h ∈ handlers_of ci -> marked v h = true.
Proof.
  unfold handlers_of. destruct (tries_ ci) eqn:E; [by intros ?%elem_of_nil|].
  intros Hh. assert (tries_ ci <> []) as Hne by (by rewrite E).
  pose proof (sv_handlers _ _ Hv Hne) as Hf. rewrite Forall_forall in Hf. by apply Hf.
Qed.

Lemma iterate_fine st pc :
  marked v pc = true -> is_payload ci pc = false -> good n_regs st ->
  iteration_fine pc st (iterate insns st pc).
Proof.
  intros Hpc Hp Hst. unfold iterate.
  assert (good n_regs (set_frame st (SetDexPC (frame st) pc))) as Hst1 by (by apply good_SetDexPC).
  pose proof (exec_fine ci Hci v Hv pc Hpc _ Hst1 Hp) as He.
  destruct (exec insns pc _) as [st1 pc1|st1 r|st1| |]; cbn in He; try done.
  pose proof (law_Handler (AllowThreadSuspension st1) pc (law_Suspension _ He)) as Hg.
  pose proof (law_HandlerAddress (AllowThreadSuspension st1) pc) as Ha.
  destruct (FindHandler (AllowThreadSuspension st1) pc) as [[h|] st2]; cbn in *; [|done].
  split; [done|]. left. specialize (Ha h eq_refl). apply handler_marked in Ha as Hm.
  pose proof (pc_range ci Hci v Hv pc Hpc). pose proof (pc_range ci Hci v Hv h Hm).
  pose proof (ci_size _ Hci). unfold RelativeAt.
  rewrite (wraps_small 32 ltac:(lia) h), (wraps_small 32 ltac:(lia) pc), wraps_small
    by (unfold_width; lia).
  by replace (pc + (h - pc)) with h by lia.
Qed.

(** The positions the code-flow analysis rules out: payloads and the end of the code. *)
Definition executable (pc : Z) : Prop := is_payload ci pc = false /\ pc <> n_units.

Lemma steps_fine st pc st' pc' :
  (forall st1 pc1, steps insns (st, pc) (st1, pc1) -> executable pc1) ->
  marked v pc = true -> good n_regs st ->
  steps insns (st, pc) (st', pc') -> marked v pc' = true /\ good n_regs st'.
Proof.
  intros Hx Hpc Hst Hs. remember (st, pc) as s eqn:Es. remember (st', pc') as s' eqn:Es'.
  revert st pc Es Hx Hpc Hst. induction Hs as [s|st0 pc0 st1 pc1 s Hi Hs IH];
    intros st pc Es Hx Hpc Hst; [by simplify_eq|]. injection Es as -> ->.
  pose proof (iterate_fine st pc Hpc (proj1 (Hx _ _ (steps_refl _ _))) Hst) as Hf.
  rewrite Hi in Hf. destruct Hf as [Hg Hn].
  assert (executable pc1) as [_ Hne].
  { eapply Hx. eapply steps_next; [done|]. apply steps_refl. }
  destruct Hn as [Hn|]; [|done].
  eapply (IH Es' st1 pc1); [done| |done|done].
  intros st2 pc2 H2. eapply Hx. by eapply steps_next.
Qed.
End Run.
