(* ===== verification/VerifiedExecution.v ===== *)
(** * From the verifier to the interpreter

    The theorems that tie the static verification of a method to its execution, with a small
    method and a trivial runtime on which their hypotheses hold. *)

From S2P Require Import Prelude DexOpcodes DexInstruction Floats ShadowFrame InterpreterBase Interpreter VerifierStatic VerifierProps InterpreterSafety.
Import InstructionFlags.

(** ** A sample method and a sample runtime *)
Module Sample.
(** [const/4 v0, #3; if-eqz v0, +3; goto -2; return v0] *)
Definition units : list Z := [0x3012; 0x0038; 0x0003; 0xFE28; 0x000f].
Definition method : CodeItem :=
  mkCodeItem 1 0 5 (units_of units) 0 [] [].
Definition dex : DexFile := mkDexFile 0 0 0 0 (fun _ => []).
Definition verifier : Verifier := mkVerifier [] [] false false false false false 0 0.

(** [const/4 v0, #3; return v0] *)
Definition straight : CodeItem :=
  mkCodeItem 1 0 2 (units_of [0x3012; 0x000f]) 0 [] [].

(** A runtime in which every service succeeds without effect and no exception is caught. *)
#[global] Instance services : RuntimeServices := {|
  Throw _ st := set_exception st 1;
  AllowThreadSuspension st := st;
  ResolveString st _ := (1, st);
  ResolveVerifyAndClinit st _ := (1, st);
  InstanceOf _ _ _ := true;
  MonitorEnter st _ := st;
  MonitorExit st _ := st;
  AllocObject st _ _ := (1, st);
  AllocArrayFromCode st _ _ := (1, st);
  DoFilledNewArray _ st _ := (true, st);
  Assignable _ _ _ := true;
  DoFieldGet _ _ st _ := (true, st);
  DoIGetQuick _ st _ := (true, st);
  DoFieldPut _ _ st _ := (true, st);
  DoIPutQuick _ st _ := (true, st);
  DoInvoke _ _ st _ := (true, st);
  DoInvokeVirtualQuick _ st _ := (true, st);
  lambdas_enabled := false;
  DoLambda _ st _ := (true, st);
  FindHandler st _ := (None, st)
|}.

#[global] Instance services_safe n P : ServicesSafe n P [].
Proof. constructor; intros; done. Qed.

Definition start (n : Z) : state := mkState (CreateShadowFrameImpl n 0) 0 0 ∅.

Lemma start_good n : 0 <= n -> good n (start n).
Proof.
  intros Hn. split; [by apply frame_ok_create|]. split; [by apply refs_ok_create|done].
Qed.

Lemma method_ok : code_item_ok method.
Proof. split; [apply units_of_ok|by vm_compute|by vm_compute]. Qed.

Lemma straight_ok : code_item_ok straight.
Proof. split; [apply units_of_ok|by vm_compute|by vm_compute]. Qed.

(** The verifier's state after the static checks. *)
Definition verified_of (m : CodeItem) : Verifier :=
  match VerifyStatic m dex false true true false verifier with
  | Some (true, v) => v
  | _ => verifier
  end.
Definition verified : Verifier := verified_of method.

(** The positions a run of [straight] reaches. *)
Lemma straight_steps st1 pc1 :
  steps (insns_ straight) (start 1, 0) (st1, pc1) -> pc1 = 0 \/ pc1 = 1.
Proof.
  intros H. inversion H as [|? ? st2 pc2 ? Hi Hs]; subst; [by left|].
  vm_compute in Hi. injection Hi as <- <-.
  inversion Hs as [|? ? st3 pc3 ? Hi' Hs']; subst; [by right|].
  vm_compute in Hi'. discriminate.
Qed.
End Sample.

(** ** Execution of statically verified code *)
Section Theorems.
Context (ci : CodeItem) (df : DexFile) (aot load soft dump : bool) (v0 v : Verifier).


(** C6. Along every run of a verified method from its first instruction that stays off
    payloads and off the end of the code (which the code-flow analysis rules out), the
    interpreter is always at the start of an instruction of the method and its frame stays
    well formed. *)
Theorem verified_run {RS : RuntimeServices} st st' pc' :
  code_item_ok ci ->
  VerifyStatic ci df aot load soft dump v0 = Some (true, v) ->
  ServicesSafe (registers_size_ ci) (fun pc => marked v pc = true) (handlers_of ci) ->
  good (registers_size_ ci) st ->
  (forall st1 pc1, steps (insns_ ci) (st, 0) (st1, pc1) -> executable ci pc1) ->
  steps (insns_ ci) (st, 0) (st', pc') ->
  marked v pc' = true /\ good (registers_size_ ci) st'.
Proof.
  intros Hci Hv Hlaws Hst Hx Hs. apply VerifyStatic_sound in Hv; [|done].
  eapply steps_fine; [done|done|done|done| |done|done].
  apply Hv. split; [constructor|apply Hci].
Qed.


(** C9. In an accepted method the positions marked as opcodes are exactly the boundaries of
    the linear sweep, the sweep ends at the end of the code, and every branch lands on a
    marked position. *)
Theorem verifier_boundaries :
  code_item_ok ci -> VerifyStatic ci df aot load soft dump v0 = Some (true, v) ->
  (forall i, marked v i = true <-> boundary ci i /\ i < insns_size_in_code_units_ ci)
  /\ boundary ci (insns_size_in_code_units_ ci)
  /\ (forall i off cond self, marked v i = true -> IsBranch (opcode (insns_ ci) i) = true ->
      GetBranchOffset ci i = Some (off, cond, self) -> marked v (i + off) = true).
Proof.
  intros Hci Hv. apply VerifyStatic_sound in Hv; [|done].
  split; [exact (sv_marks _ _ Hv)|]. split; [exact (sv_end _ _ Hv)|].
  intros i off cond self Hi Hb Ho.
  destruct (acc_branch _ _ _ (sv_accepted _ _ Hv i Hi)) as (o & c & s & Ho' & Hm & _);
    [|congruence].
  revert Hb. by destruct (opcode (insns_ ci) i).
Qed.
End Theorems.


Lemma verified_run_witness :
  let st' := match iterate (insns_ Sample.straight) (Sample.start 1) 0 with
             | Continue s _ => s | _ => Sample.start 1 end in
  marked (Sample.verified_of Sample.straight) 1 = true /\ good 1 st'.
Proof.
  apply (verified_run Sample.straight Sample.dex false true true false Sample.verifier
           (Sample.verified_of Sample.straight) (Sample.start 1)).
  - apply Sample.straight_ok.
  - vm_compute. reflexivity.
  - apply Sample.services_safe.
  - by apply Sample.start_good.
  - intros st1 pc1 Hs. destruct (Sample.straight_steps _ _ Hs) as [-> | ->]; by split.
  - eapply steps_next; [|apply steps_refl]. vm_compute. reflexivity.
Defined.


Lemma verifier_boundaries_witness :
  marked Sample.verified 3 = true /\ marked Sample.verified (3 + (-2)) = true.
Proof.
  destruct (verifier_boundaries Sample.method Sample.dex false true true false Sample.verifier
              Sample.verified) as (_ & _ & H).
  - apply Sample.method_ok.
  - vm_compute. reflexivity.
  - split; [vm_compute; reflexivity|].
    apply (H 3 (-2) false false); vm_compute; reflexivity.
Defined.
