(* ===== verification/InterpreterTheorems.v ===== *)
(** * Functional behaviour of the interpreter

    Switches, integer arithmetic, arrays, the two-address and literal forms, and single
    stepping. *)

From S2P Require Import Prelude DexOpcodes DexInstruction Floats ShadowFrame InterpreterBase Interpreter VerifierStatic VerifierProps InterpreterSafety VerifiedExecution.

(** ** Switches *)

(** The binary search on strictly ascending keys: it terminates within the fuel, and finds the
    index of the key if there is one. *)
Lemma ascending_lt (key : Z -> Z) lo hi :
  (forall i, lo < i <= hi -> key (i - 1) < key i) ->
  forall i j, lo <= i -> i < j -> j <= hi -> key i < key j.
Proof.
  intros Hk i j Hi Hij Hj. replace j with (i + 1 + Z.of_nat (Z.to_nat (j - i - 1))) in * by lia.
  remember (Z.to_nat (j - i - 1)) as m. clear Heqm Hij. induction m as [|m IH].
  - specialize (Hk (i + 1) ltac:(lia)). replace (i + 1 - 1) with i in Hk by lia.
    by rewrite Z.add_0_r.
  - etrans; [apply IH; lia|]. specialize (Hk (i + 1 + Z.of_nat (S m)) ltac:(lia)).
    by replace (i + 1 + Z.of_nat (S m) - 1) with (i + 1 + Z.of_nat m) in Hk by lia.
Qed.

Lemma sparse_search_spec fuel key x lo hi :
  0 <= lo <= hi + 1 -> hi - lo + 1 < Z.of_nat fuel ->
  (forall i j, lo <= i -> i < j -> j <= hi -> key i < key j) ->
  exists r, sparse_search fuel key x lo hi = Some r
    /\ match r with
       | Some i => lo <= i <= hi /\ key i = x
       | None => forall i, lo <= i <= hi -> key i <> x
       end.
Proof.
  revert lo hi. induction fuel as [|fuel IH]; intros lo hi Hlo Hf Hk; [lia|].
  cbn [sparse_search]. destruct (Z.leb_spec lo hi); [|exists None; split; [done|intros; lia]].
  rewrite Z.quot_div_nonneg by lia. set (mid := (lo + hi) / 2).
  assert (lo <= mid <= hi) as Hmid by (unfold mid; dlia).
  destruct (Z.ltb_spec x (key mid)); [|destruct (Z.ltb_spec (key mid) x)].
  - destruct (IH lo (mid - 1)) as (r & E & Hr); [lia|lia|intros; apply Hk; lia|].
    exists r. split; [done|]. destruct r as [i|]; [split; [lia|apply Hr]|].
    intros i Hi. destruct (decide (i < mid)); [apply Hr; lia|].
    destruct (decide (i = mid)) as [->|]; [lia|]. pose proof (Hk mid i). lia.
  - destruct (IH (mid + 1) hi) as (r & E & Hr); [lia|lia|intros; apply Hk; lia|].
    exists r. split; [done|]. destruct r as [i|]; [split; [lia|apply Hr]|].
    intros i Hi. destruct (decide (mid < i)); [apply Hr; lia|].
    destruct (decide (i = mid)) as [->|]; [lia|]. pose proof (Hk i mid). lia.
  - exists (Some mid). split; [done|]. split; [done|lia].
Qed.

Section Switches.
Context (ci : CodeItem) (df : DexFile) (aot load soft dump : bool) (v0 v : Verifier).
#[local] Abbreviation insns := (insns_ ci).

(** The value the switch at [pc] tests. *)
Definition switch_value (f : ShadowFrame) (pc : Z) : Z :=
  GetVReg f (VRegA_31t (Fetch16 insns pc 0)).

Lemma switch_of pc c :
  code_item_ok ci -> VerifyStatic ci df aot load soft dump v0 = Some (true, v) ->
  marked v pc = true -> opcode insns pc = c ->
  GetVerifyExtraFlags c = kVerifySwitchTargets -> switch_accepted ci v pc.
Proof.
  intros Hci Hv Hpc Hc Hx. apply VerifyStatic_sound in Hv; [|done].
  apply (acc_switch _ _ _ (sv_accepted _ _ Hv pc Hpc)). by rewrite Hc.
Qed.


(** C23. In a verified method a sparse switch goes to the entry of the key that equals the
    tested value, and to the next instruction when no key does; the search terminates. *)
Theorem sparse_switch_selects pc f :
  code_item_ok ci -> VerifyStatic ci df aot load soft dump v0 = Some (true, v) ->
  marked v pc = true -> opcode insns pc = SPARSE_SWITCH ->
  let key i := table_int32 ci (sw_pos ci pc + 2 + 2 * i) in
  let n := sw_count ci pc in
  let r := DoSparseSwitch insns pc f (Fetch16 insns pc 0) in
  (exists i, 0 <= i < n /\ key i = switch_value f pc
     /\ r = table_int32 ci (sw_pos ci pc + 2 + 2 * n + 2 * i))
  \/ ((forall i, 0 <= i < n -> key i <> switch_value f pc) /\ r = 3).
Proof.
  intros Hci Hv Hpc Hc key n r. pose proof (switch_of pc _ Hci Hv Hpc Hc eq_refl) as Hs.
  pose proof (sw_keys _ _ _ Hs) as Hkeys. unfold sw_packed in Hkeys.
  rewrite Hc, bool_decide_eq_false_2 in Hkeys by done. specialize (Hkeys eq_refl).
  pose proof (ci_units _ Hci (sw_pos ci pc + 1)) as Hn. fold (sw_count ci pc) in Hn.
  fold n in Hn, Hkeys. unfold in_u in Hn.
  destruct (sparse_search_spec (Z.to_nat n + 1) key (switch_value f pc) 0 (n - 1))
    as (o & E & Ho); [lia|lia| |].
  { apply ascending_lt. intros i Hi. unfold key. apply Hkeys. lia. }
  subst r. unfold DoSparseSwitch, VRegB_31t. fold (sw_pos ci pc).
  change (insns (sw_pos ci pc + 1)) with n. destruct (Z.eqb_spec n 0); [right; split; [intros; lia|done]|].
  change (GetVReg f (VRegA_31t (Fetch16 insns pc 0))) with (switch_value f pc).
  assert (forall fuel lo hi, sparse_search fuel (fun i => read_int32 insns (sw_pos ci pc + 2 + 2 * i))
    (switch_value f pc) lo hi = sparse_search fuel key (switch_value f pc) lo hi) as ->.
  { induction fuel as [|fuel IH]; intros lo hi; [done|]. cbn [sparse_search].
    unfold key. rewrite (read_int32_table ci Hci). by rewrite !IH. }
  rewrite E. destruct o as [i|]; [left; exists i|right].
  - destruct Ho as [Hi Hk]. split; [lia|]. split; [done|]. by rewrite (read_int32_table ci Hci).
  - split; [|done]. intros i Hi. apply Ho. lia.
Qed.
End Switches.

(** A packed switch on [v0] with keys 10 and 11, and a sparse one with keys -1 and 7. *)
Definition packed_sample : CodeItem :=
  mkCodeItem 1 0 12
    (units_of [0x002b; 4; 0; 0x000e; 0x0100; 2; 10; 0; 3; 0; 0; 0]) 0 [] [].
Definition sparse_sample : CodeItem :=
  mkCodeItem 1 0 14
    (units_of [0x002c; 4; 0; 0x000e; 0x0200; 2; 0xffff; 0xffff; 7; 0; 3; 0; 0; 0]) 0 [] [].
Definition sample_frame (x : Z) : ShadowFrame := SetVReg (CreateShadowFrameImpl 1 0) 0 x.


Lemma sparse_switch_selects_witness :
  (exists i, 0 <= i < 2 /\ table_int32 sparse_sample (6 + 2 * i) = 7
     /\ DoSparseSwitch (insns_ sparse_sample) 0 (sample_frame 7) 0x002c
        = table_int32 sparse_sample (10 + 2 * i))
  \/ ((forall i, 0 <= i < 2 -> table_int32 sparse_sample (6 + 2 * i) <> 7)
      /\ DoSparseSwitch (insns_ sparse_sample) 0 (sample_frame 7) 0x002c = 3).
Proof.
  apply (sparse_switch_selects sparse_sample Sample.dex false true true false Sample.verifier
           (Sample.verified_of sparse_sample) 0 (sample_frame 7)).
  - split; [apply units_of_ok|by vm_compute|by vm_compute].
  - vm_compute. reflexivity.
  - vm_compute. reflexivity.
  - vm_compute. reflexivity.
Defined.

(** ** Integer arithmetic *)

(** The operations of the Java language on [w]-bit integers; [None] is the division by zero. *)
Inductive arith_op := Add | Sub | Rsub | Mul | Div | Rem | And | Or | Xor | Shl | Shr | Ushr.

Definition java_arith (w : Z) (op : arith_op) (x y : Z) : option Z :=
  match op with
  | Add => Some (wraps w (x + y))
  | Sub => Some (wraps w (x - y))
  | Rsub => Some (wraps w (y - x))
  | Mul => Some (wraps w (x * y))
  | Div => if y =? 0 then None else Some (wraps w (Z.quot x y))
  | Rem => if y =? 0 then None else Some (wraps w (Z.rem x y))
  | And => Some (Z.land x y)
  | Or => Some (Z.lor x y)
  | Xor => Some (Z.lxor x y)
  | Shl => Some (wraps w (x * 2 ^ (y mod w)))
  | Shr => Some (x / 2 ^ (y mod w))
  | Ushr => Some (wraps w (wrapu w x / 2 ^ (y mod w)))
  end.

(** Where an instruction takes its operands from. *)
Inductive arith_form := Form23x | Form2addr | FormLit16 | FormLit8.

Definition int_instruction (c : Code) : option (arith_op * arith_form) :=
  match c with
  | ADD_INT => Some (Add, Form23x) | SUB_INT => Some (Sub, Form23x)
  | MUL_INT => Some (Mul, Form23x) | DIV_INT => Some (Div, Form23x)
  | REM_INT => Some (Rem, Form23x) | AND_INT => Some (And, Form23x)
  | OR_INT => Some (Or, Form23x) | XOR_INT => Some (Xor, Form23x)
  | SHL_INT => Some (Shl, Form23x) | SHR_INT => Some (Shr, Form23x)
  | USHR_INT => Some (Ushr, Form23x)
  | ADD_INT_2ADDR => Some (Add, Form2addr) | SUB_INT_2ADDR => Some (Sub, Form2addr)
  | MUL_INT_2ADDR => Some (Mul, Form2addr) | DIV_INT_2ADDR => Some (Div, Form2addr)
  | REM_INT_2ADDR => Some (Rem, Form2addr) | AND_INT_2ADDR => Some (And, Form2addr)
  | OR_INT_2ADDR => Some (Or, Form2addr) | XOR_INT_2ADDR => Some (Xor, Form2addr)
  | SHL_INT_2ADDR => Some (Shl, Form2addr) | SHR_INT_2ADDR => Some (Shr, Form2addr)
  | USHR_INT_2ADDR => Some (Ushr, Form2addr)
  | ADD_INT_LIT16 => Some (Add, FormLit16) | RSUB_INT => Some (Rsub, FormLit16)
  | MUL_INT_LIT16 => Some (Mul, FormLit16) | DIV_INT_LIT16 => Some (Div, FormLit16)
  | REM_INT_LIT16 => Some (Rem, FormLit16) | AND_INT_LIT16 => Some (And, FormLit16)
  | OR_INT_LIT16 => Some (Or, FormLit16) | XOR_INT_LIT16 => Some (Xor, FormLit16)
  | ADD_INT_LIT8 => Some (Add, FormLit8) | RSUB_INT_LIT8 => Some (Rsub, FormLit8)
  | MUL_INT_LIT8 => Some (Mul, FormLit8) | DIV_INT_LIT8 => Some (Div, FormLit8)
  | REM_INT_LIT8 => Some (Rem, FormLit8) | AND_INT_LIT8 => Some (And, FormLit8)
  | OR_INT_LIT8 => Some (Or, FormLit8) | XOR_INT_LIT8 => Some (Xor, FormLit8)
  | SHL_INT_LIT8 => Some (Shl, FormLit8) | SHR_INT_LIT8 => Some (Shr, FormLit8)
  | USHR_INT_LIT8 => Some (Ushr, FormLit8)
  | _ => None
  end.

Definition long_instruction (c : Code) : option (arith_op * arith_form) :=
  match c with
  | ADD_LONG => Some (Add, Form23x) | SUB_LONG => Some (Sub, Form23x)
  | MUL_LONG => Some (Mul, Form23x) | DIV_LONG => Some (Div, Form23x)
  | REM_LONG => Some (Rem, Form23x) | AND_LONG => Some (And, Form23x)
  | OR_LONG => Some (Or, Form23x) | XOR_LONG => Some (Xor, Form23x)
  | SHL_LONG => Some (Shl, Form23x) | SHR_LONG => Some (Shr, Form23x)
  | USHR_LONG => Some (Ushr, Form23x)
  | ADD_LONG_2ADDR => Some (Add, Form2addr) | SUB_LONG_2ADDR => Some (Sub, Form2addr)
  | MUL_LONG_2ADDR => Some (Mul, Form2addr) | DIV_LONG_2ADDR => Some (Div, Form2addr)
  | REM_LONG_2ADDR => Some (Rem, Form2addr) | AND_LONG_2ADDR => Some (And, Form2addr)
  | OR_LONG_2ADDR => Some (Or, Form2addr) | XOR_LONG_2ADDR => Some (Xor, Form2addr)
  | SHL_LONG_2ADDR => Some (Shl, Form2addr) | SHR_LONG_2ADDR => Some (Shr, Form2addr)
  | USHR_LONG_2ADDR => Some (Ushr, Form2addr)
  | _ => None
  end.

(** Destination, operands and next position of an [int] instruction. *)
Definition int_operands (form : arith_form) (insns : code_units) (pc : Z) (f : ShadowFrame)
  : Z * Z * Z * Z :=
  let d := Fetch16 insns pc 0 in
  match form with
  | Form23x => (VRegA_23x d, GetVReg f (VRegB_23x insns pc), GetVReg f (VRegC_23x insns pc), pc + 2)
  | Form2addr => (VRegA_12x d, GetVReg f (VRegA_12x d), GetVReg f (VRegB_12x d), pc + 1)
  | FormLit16 => (VRegA_22s d, GetVReg f (VRegB_22s d), VRegC_22s insns pc, pc + 2)
  | FormLit8 => (VRegA_22b d, GetVReg f (VRegB_22b insns pc), VRegC_22b insns pc, pc + 2)
  end.

(** The same for [long]; the distance of a shift is an [int] register. *)
Definition long_operands (op : arith_op) (form : arith_form) (insns : code_units) (pc : Z)
  (f : ShadowFrame) : Z * Z * Z * Z :=
  let d := Fetch16 insns pc 0 in
  let second r := match op with Shl | Shr | Ushr => GetVReg f r | _ => GetVRegLong f r end in
  match form with
  | Form2addr => (VRegA_12x d, GetVRegLong f (VRegA_12x d), second (VRegB_12x d), pc + 1)
  | _ => (VRegA_23x d, GetVRegLong f (VRegB_23x insns pc), second (VRegC_23x insns pc), pc + 2)
  end.

Lemma SetVReg_mod f i z z' : u32 z = u32 z' -> SetVReg f i z = SetVReg f i z'.
Proof. intros H. unfold SetVReg. by rewrite H. Qed.

Lemma SetVRegLong_s64 f i z : SetVRegLong f i (s64 z) = SetVRegLong f i z.
Proof.
  unfold SetVRegLong, wr_pair.
  assert (u32 (s64 z) = u32 z) as -> by (unfold_width; dlia).
  assert (u32 (Z.shiftr (s64 z) 32) = u32 (Z.shiftr z 32)) as ->; [|done].
  rewrite !Z.shiftr_div_pow2 by lia. unfold_width. dlia.
Qed.

Lemma quot_range w x y :
  0 < w -> in_s w x -> y <> 0 -> ~ (x = - 2 ^ (w - 1) /\ y = -1) -> in_s w (Z.quot x y).
Proof.
  unfold in_s. intros Hw Hx Hy Hne. pose proof (pow2_half_pos w Hw).
  assert (Z.abs (Z.quot x y) <= Z.abs x).
  { rewrite <- Z.quot_abs by done. apply Z.quot_le_upper_bound; nia. }
  destruct (decide (y = -1)) as [->|].
  - replace (Z.quot x (-1)) with (- x) in * by
      (change (-1) with (- (1)); rewrite Z.quot_opp_r, Z.quot_1_r; lia). lia.
  - destruct (decide (y = 1)) as [->|]; [rewrite Z.quot_1_r in *; lia|].
    destruct (decide (x = - 2 ^ (w - 1))) as [->|]; [|lia].
    assert (Z.abs (Z.quot (- 2 ^ (w - 1)) y) < 2 ^ (w - 1)); [|lia].
    rewrite <- Z.quot_abs by done. replace (Z.abs (- 2 ^ (w - 1))) with (2 ^ (w - 1)) by lia.
    apply Z.quot_lt; lia.
Qed.

Lemma rem_range w x y : 0 < w -> in_s w x -> y <> 0 -> in_s w (Z.rem x y).
Proof.
  unfold in_s. intros Hw Hx Hy. pose proof (pow2_half_pos w Hw).
  assert (Z.abs (Z.rem x y) <= Z.abs x).
  { rewrite <- Z.rem_abs by done. apply Z.rem_le; lia. }
  pose proof (Z.rem_sign_nz x y Hy).
  destruct (decide (x = - 2 ^ (w - 1))); [|lia].
  destruct (decide (Z.rem x y = 0)) as [->|]; [lia|]. specialize (H1 n).
  assert (Z.sgn x = -1) as Hs by lia. lia.
Qed.

Lemma shl_int_java x y : shl_int x y = s32 (x * 2 ^ (y mod 32)).
Proof.
  unfold shl_int. rewrite wraps_wraps, land_0x1f, Z.shiftl_mul_pow2 by (dlia || lia). done.
Qed.
Lemma shl_long_java x y : shl_long x y = s64 (x * 2 ^ (y mod 64)).
Proof.
  unfold shl_long. rewrite wraps_wraps, land_0x3f, Z.shiftl_mul_pow2 by (dlia || lia). done.
Qed.
Lemma shr_int_java x y : shr_int x y = x / 2 ^ (y mod 32).
Proof. unfold shr_int. rewrite land_0x1f, Z.shiftr_div_pow2 by dlia. done. Qed.
Lemma shr_long_java x y : shr_long x y = x / 2 ^ (y mod 64).
Proof. unfold shr_long. rewrite land_0x3f, Z.shiftr_div_pow2 by dlia. done. Qed.

Section Arith.
Context {RS : RuntimeServices}.

(** Both guarded divisions compute the wrapped quotient and remainder. *)
Lemma DoIntDivide_java st A x y :
  in_s 32 x ->
  DoIntDivide st A x y
  = match java_arith 32 Div x y with
    | Some r => (true, set_frame st (SetVReg (frame st) A r))
    | None => (false, Throw ArithmeticExceptionDivideByZero st)
    end.
Proof.
  intros Hx. unfold DoIntDivide, java_arith. destruct (Z.eqb_spec y 0) as [|Hy]; [done|].
  destruct (_ && _) eqn:E.
  - apply andb_prop in E as [->%Z.eqb_eq ->%Z.eqb_eq]. done.
  - rewrite wraps_small; [done|lia|]. apply quot_range; try done; try lia.
    intros [-> ->]. done.
Qed.
Lemma DoIntRemainder_java st A x y :
  in_s 32 x ->
  DoIntRemainder st A x y
  = match java_arith 32 Rem x y with
    | Some r => (true, set_frame st (SetVReg (frame st) A r))
    | None => (false, Throw ArithmeticExceptionDivideByZero st)
    end.
Proof.
  intros Hx. unfold DoIntRemainder, java_arith. destruct (Z.eqb_spec y 0) as [|Hy]; [done|].
  destruct (_ && _) eqn:E.
  - apply andb_prop in E as [->%Z.eqb_eq ->%Z.eqb_eq]. done.
  - rewrite wraps_small; [done|lia|]. by apply rem_range.
Qed.
Lemma DoLongDivide_java st A x y :
  in_s 64 x ->
  DoLongDivide st A x y
  = match java_arith 64 Div x y with
    | Some r => (true, set_frame st (SetVRegLong (frame st) A r))
    | None => (false, Throw ArithmeticExceptionDivideByZero st)
    end.
Proof.
  intros Hx. unfold DoLongDivide, java_arith. destruct (Z.eqb_spec y 0) as [|Hy]; [done|].
  destruct (_ && _) eqn:E.
  - apply andb_prop in E as [->%Z.eqb_eq ->%Z.eqb_eq]. done.
  - rewrite wraps_small; [done|lia|]. apply quot_range; try done; try lia.
    intros [-> ->]. done.
Qed.
Lemma DoLongRemainder_java st A x y :
  in_s 64 x ->
  DoLongRemainder st A x y
  = match java_arith 64 Rem x y with
    | Some r => (true, set_frame st (SetVRegLong (frame st) A r))
    | None => (false, Throw ArithmeticExceptionDivideByZero st)
    end.
Proof.
  intros Hx. unfold DoLongRemainder, java_arith. destruct (Z.eqb_spec y 0) as [|Hy]; [done|].
  destruct (_ && _) eqn:E.
  - apply andb_prop in E as [->%Z.eqb_eq ->%Z.eqb_eq]. done.
  - rewrite wraps_small; [done|lia|]. by apply rem_range.
Qed.

(** C24. Every [int] arithmetic instruction, in its three-register, two-address and literal
    forms (41 opcodes), stores the result Java defines and goes to the next instruction; a
    division or remainder by zero throws [ArithmeticException] and leaves the frame alone.
    In particular [INT_MIN / -1] wraps instead of overflowing, and shift distances are
    taken modulo 32. *)
Theorem int_arithmetic_java insns pc st op form :
  int_instruction (opcode insns pc) = Some (op, form) ->
  let '(A, x, y, next) := int_operands form insns pc (frame st) in
  exec insns pc st
  = match java_arith 32 op x y with
    | Some r => Continue (set_frame st (SetVReg (frame st) A r)) next
    | None => Pending (Throw ArithmeticExceptionDivideByZero st)
    end.
Proof.
  assert (forall r, in_s 32 (GetVReg (frame st) r)) as Hr by (intros; by apply wraps_range).
  unfold exec. destruct (opcode insns pc); intros [= <- <-];
    cbn [int_operands first_group groups exec_move exec_return exec_const exec_resolve
         exec_object exec_goto exec_cmp exec_if exec_ifz exec_aget exec_aput exec_iget exec_sget
         exec_iput exec_sput exec_invoke exec_unary exec_int exec_long exec_floating
         exec_int_2addr exec_long_2addr exec_floating_2addr exec_lit16 exec_lit8];
    unfold next1, next2;
    rewrite ?DoIntDivide_java, ?DoIntRemainder_java by apply Hr;
    rewrite ?SafeAdd_wraps, ?SafeSub_wraps, ?SafeMul_wraps, ?shl_int_java, ?shr_int_java by lia;
    try reflexivity.
  all: try match goal with |- context [ending (match ?j with _ => _ end) _] =>
         destruct j; reflexivity end.
  all: cbn [java_arith]; do 2 f_equal; apply SetVReg_mod;
    unfold ushr_int; rewrite land_0x1f, Z.shiftr_div_pow2 by dlia;
    by rewrite wrapu_wraps by lia.
Qed.

(** The same for [long] (22 opcodes); these instructions test the thread's pending
    exception, so no exception may be pending before. *)
Theorem long_arithmetic_java insns pc st op form :
  (forall k s, IsExceptionPending (Throw k s) = true) ->
  IsExceptionPending st = false ->
  long_instruction (opcode insns pc) = Some (op, form) ->
  let '(A, x, y, next) := long_operands op form insns pc (frame st) in
  exec insns pc st
  = match java_arith 64 op x y with
    | Some r => Continue (set_frame st (SetVRegLong (frame st) A r)) next
    | None => Pending (Throw ArithmeticExceptionDivideByZero st)
    end.
Proof.
  intros Hthrow Hno.
  assert (forall r, in_s 64 (GetVRegLong (frame st) r)) as Hr by (intros; by apply wraps_range).
  unfold exec. destruct (opcode insns pc); intros [= <- <-];
    cbn [long_operands first_group groups exec_move exec_return exec_const exec_resolve
         exec_object exec_goto exec_cmp exec_if exec_ifz exec_aget exec_aput exec_iget exec_sget
         exec_iput exec_sput exec_invoke exec_unary exec_int exec_long exec_floating
         exec_int_2addr exec_long_2addr];
    unfold next1, next2;
    rewrite ?DoLongDivide_java, ?DoLongRemainder_java by apply Hr;
    rewrite ?SafeAdd_wraps, ?SafeSub_wraps, ?SafeMul_wraps, ?shl_long_java, ?shr_long_java by lia;
    try reflexivity.
  all: try match goal with |- context [ending_pending (match ?j with _ => _ end) _] =>
         destruct j; unfold ending_pending, possibly; cbn [fst snd];
         [unfold IsExceptionPending in *; cbn [exception set_frame]; by rewrite Hno
         |by rewrite Hthrow] end.
  all: cbn [java_arith]; rewrite SetVRegLong_s64;
    unfold ushr_long; rewrite land_0x3f, Z.shiftr_div_pow2 by dlia; done.
Qed.
End Arith.

(** [div-int v0, v0, v0] on zero registers, and [shl-long/2addr v0, v2]. *)
Lemma int_arithmetic_java_witness :
  exec (units_of [0x0093; 0]) 0 (Sample.start 1)
  = Pending (Throw ArithmeticExceptionDivideByZero (Sample.start 1)).
Proof.
  apply (int_arithmetic_java (units_of [0x0093; 0]) 0 (Sample.start 1) Div Form23x).
  vm_compute. reflexivity.
Defined.

Lemma long_arithmetic_java_witness :
  exec (units_of [0x20c3]) 0 (Sample.start 4)
  = Continue (set_frame (Sample.start 4) (SetVRegLong (frame (Sample.start 4)) 0 0)) 1.
Proof.
  apply (long_arithmetic_java (units_of [0x20c3]) 0 (Sample.start 4) Shl Form2addr).
  - intros k s. vm_compute. reflexivity.
  - vm_compute. reflexivity.
  - vm_compute. reflexivity.
Defined.

(** ** Arrays *)
Lemma CheckIsValidIndex_spec a i :
  array_ok a -> in_s 32 i -> CheckIsValidIndex a i = (0 <=? i) && (i <? a_length a).
Proof.
  intros (Hl & Hpos & _) Hi. unfold CheckIsValidIndex. apply Bool.eq_iff_eq_true.
  rewrite negb_true_iff, andb_true_iff, Z.leb_gt, Z.leb_le, Z.ltb_lt. unfold_width. dlia.
Qed.

Lemma ComponentSize_pos t : t <> kPrimVoid -> 0 < ComponentSize t.
Proof. by destruct t. Qed.

Lemma array_data_bound a i :
  array_ok a -> a_component a <> kPrimVoid -> 0 <= i < a_length a ->
  0 <= i * ComponentSize (a_component a)
  /\ i * ComponentSize (a_component a) + Z.of_nat (Z.to_nat (ComponentSize (a_component a)))
     <= Z.of_nat (length (a_data a)).
Proof.
  intros (_ & _ & ->) Hv Hi. pose proof (ComponentSize_pos _ Hv). rewrite Z2Nat.id by lia. nia.
Qed.

Lemma le_read_ext l l' off n :
  (forall k, off <= k < off + Z.of_nat n -> rd l' k = rd l k) -> le_read l' off n = le_read l off n.
Proof.
  revert off. induction n as [|n IH]; intros off H; cbn; [done|].
  rewrite H, IH by (intros; try apply H; lia). done.
Qed.

(** A stored element reads back, the others are unchanged. *)
Lemma array_get_set a i j v :
  array_ok a -> a_component a <> kPrimVoid -> 0 <= i < a_length a -> 0 <= j < a_length a ->
  array_get (array_set a i v) j
  = if j =? i then v mod 256 ^ ComponentSize (a_component a) else array_get a j.
Proof.
  intros Ha Hv Hi Hj. pose proof (ComponentSize_pos _ Hv) as Hs.
  pose proof (array_data_bound a i Ha Hv Hi) as [Hb1 Hb2].
  pose proof (array_data_bound a j Ha Hv Hj) as [Hc1 Hc2].
  unfold array_get, array_set. cbn [a_data a_component].
  destruct (Z.eqb_spec j i) as [->|Hne].
  - rewrite le_read_write by lia. by rewrite Z2Nat.id by lia.
  - apply le_read_ext. intros k Hk. rewrite Z2Nat.id in * by lia.
    destruct (Z.lt_total j i) as [Hlt|[->|Hlt]]; [|done|].
    + apply rd_le_write_before; [nia|]. rewrite Z2Nat.id by lia. lia.
    + apply rd_le_write_after; [lia| |]; rewrite Z2Nat.id by lia; nia.
Qed.

Lemma array_set_ok a i v : array_ok a -> array_ok (array_set a i v).
Proof.
  intros (H1 & H2 & H3). split; [done|]. split; [done|]. cbn. by rewrite length_le_write.
Qed.

(** The value a put stores. *)
Definition put_value (c : Code) (f : ShadowFrame) (A : Z) : option Z :=
  match c with
  | APUT | APUT_BOOLEAN | APUT_BYTE | APUT_CHAR | APUT_SHORT => Some (GetVReg f A)
  | APUT_WIDE => Some (GetVRegLong f A)
  | _ => None
  end.

Lemma access_not_void c types p : array_access c = Some types -> p ∈ types -> p <> kPrimVoid.
Proof.
  intros Hc Hp ->. destruct c; try discriminate Hc; injection Hc as <-;
    repeat (apply elem_of_cons in Hp as [?|Hp]; [done|]); by apply elem_of_nil in Hp.
Qed.

Section Arrays.
Context {RS : RuntimeServices} (insns : code_units) (pc : Z) (st : state).
#[local] Abbreviation ref := (GetVRegReference (frame st) (VRegB_23x insns pc)).
#[local] Abbreviation index := (GetVReg (frame st) (VRegC_23x insns pc)).

Ltac to_group :=
  cbn [first_group groups exec_move exec_return exec_const exec_resolve exec_object exec_goto
       exec_cmp exec_if exec_ifz exec_aget exec_aput];
  unfold with_element.

(** C25. Each of the fourteen array accesses throws on a null reference, and on an index
    outside [0, length) throws [ArrayIndexOutOfBoundsException] with that index and length,
    touching neither the frame nor the heap; the single unsigned comparison of the code is
    the two-sided bounds check. *)
Theorem array_access_checked types a :
  array_access (opcode insns pc) = Some types ->
  (ref = 0 -> exec insns pc st = Pending (Throw NullPointerExceptionFromInterpreter st))
  /\ (ref <> 0 -> objects st !! ref = Some (HArray a) -> array_ok a ->
      a_component a ∈ types -> ~ (0 <= index < a_length a) ->
      exec insns pc st
      = Pending (Throw (ArrayIndexOutOfBoundsException index (a_length a)) st)).
Proof.
  intros Hc. split.
  - intros Hz. unfold exec. destruct (opcode insns pc); try discriminate Hc; to_group;
      by rewrite Hz.
  - intros Hnz Ho Ha Ht Hi. apply Z.eqb_neq in Hnz.
    assert (CheckIsValidIndex a index = false) as Hx.
    { rewrite CheckIsValidIndex_spec by (done || by apply wraps_range).
      apply andb_false_iff. rewrite Z.leb_gt, Z.ltb_ge. lia. }
    unfold exec. destruct (opcode insns pc); try discriminate Hc; injection Hc as <-; to_group;
      rewrite Hnz, Ho, bool_decide_eq_true_2, Hx by done; done.
Qed.

(** A primitive array store at an index in range changes exactly that element of that
    array: it then holds the low bytes of the register, every other element, the length and
    the other objects are unchanged, and execution goes to the next instruction. *)
Theorem array_store_effect types a w :
  array_access (opcode insns pc) = Some types ->
  put_value (opcode insns pc) (frame st) (VRegA_23x (Fetch16 insns pc 0)) = Some w ->
  ref <> 0 -> objects st !! ref = Some (HArray a) -> array_ok a ->
  a_component a ∈ types -> 0 <= index < a_length a ->
  exists a', exec insns pc st
             = Continue (set_objects st (<[ref := HArray a']> (objects st))) (pc + 2)
    /\ array_ok a' /\ a_length a' = a_length a
    /\ forall j, 0 <= j < a_length a ->
       array_get a' j = if j =? index then w mod 256 ^ ComponentSize (a_component a)
                        else array_get a j.
Proof.
  intros Hc Hw Hnz Ho Ha Ht Hi. apply Z.eqb_neq in Hnz.
  assert (CheckIsValidIndex a index = true) as Hx.
  { rewrite CheckIsValidIndex_spec by (done || by apply wraps_range). lia. }
  assert (forall x, x mod 256 ^ ComponentSize (a_component a)
                    = w mod 256 ^ ComponentSize (a_component a) ->
    exists a', put_element pc st x a ref index
               = Some (Continue (set_objects st (<[ref := HArray a']> (objects st))) (pc + 2))
      /\ array_ok a' /\ a_length a' = a_length a
      /\ forall j, 0 <= j < a_length a ->
         array_get a' j = if j =? index then w mod 256 ^ ComponentSize (a_component a)
                          else array_get a j) as Hput.
  { intros x Hxw. exists (array_set a index x). split; [done|]. split; [by apply array_set_ok|].
    split; [done|]. intros j Hj. rewrite <- Hxw. apply array_get_set; try done.
    by eapply access_not_void. }
  unfold exec. destruct (opcode insns pc); try discriminate Hw; injection Hw as <-;
    injection Hc as <-; to_group; rewrite Hnz, Ho, bool_decide_eq_true_2, Hx by done.
  all: match goal with |- context [put_element _ _ ?x _ _ _] =>
         destruct (Hput x) as (a' & E & H); [|exists a'; by rewrite E] end.
  all: try done.
  all: apply list_elem_of_singleton in Ht; rewrite Ht; cbn [ComponentSize]; unfold_width; dlia.
Qed.
End Arrays.

(** [int[2]] at reference 1, [aput v0, v1, v2] with the value 5 at the index [i]. *)
Definition sample_array : array_obj := mkArray kPrimInt 2 (replicate 8 0).
Definition array_state (i : Z) : state :=
  mkState (SetVReg (SetVRegReference (SetVReg (CreateShadowFrameImpl 3 0) 0 5) 1 1) 2 i) 0 0
    {[1 := HArray sample_array]}.
Definition aput_units : code_units := units_of [0x004b; 0x0201].

Lemma array_access_checked_witness :
  exec aput_units 0 (array_state 2)
  = Pending (Throw (ArrayIndexOutOfBoundsException 2 2) (array_state 2)).
Proof.
  destruct (array_access_checked aput_units 0 (array_state 2) [kPrimInt; kPrimFloat] sample_array)
    as [_ H]; [vm_compute; reflexivity|].
  apply H; [by vm_compute|vm_compute; reflexivity|by vm_compute|by left|by vm_compute; intros []].
Defined.

Lemma array_store_effect_witness :
  exists a', exec aput_units 0 (array_state 1)
             = Continue (set_objects (array_state 1)
                           (<[1 := HArray a']> (objects (array_state 1)))) 2
    /\ array_ok a' /\ a_length a' = 2
    /\ forall j, 0 <= j < 2 ->
       array_get a' j = if j =? 1 then 5 mod 256 ^ 4 else array_get sample_array j.
Proof.
  apply (array_store_effect aput_units 0 (array_state 1) [kPrimInt; kPrimFloat] sample_array 5).
  - vm_compute. reflexivity.
  - vm_compute. reflexivity.
  - by vm_compute.
  - vm_compute. reflexivity.
  - by vm_compute.
  - by left.
  - by vm_compute.
Defined.

(** ** Array data *)
Section FillArray.
Context {RS : RuntimeServices} (insns : code_units) (p : Z) (st : state).
#[local] Abbreviation count := (payload_count insns p).
#[local] Abbreviation width := (payload_width insns p).

(** [FillArrayData] on a payload whose count is a non-negative [int32_t] and whose data
    is shorter than 4 GB, into an array of the same element width: it throws exactly when the
    array is null or shorter than the payload, and otherwise replaces exactly the first bytes
    by the payload's, inside the array. *)
Theorem fill_array_data_spec obj a :
  0 <= count < 2 ^ 31 -> 0 <= width -> count * width < 2 ^ 32 ->
  objects st !! obj = Some (HArray a) -> obj <> 0 -> array_ok a ->
  ComponentSize (a_component a) = width ->
  FillArrayData st obj insns p
  = if a_length a <? count
    then Some (false, Throw (ArrayIndexOutOfBoundsException count (a_length a)) st)
    else Some (true, set_objects st (<[obj := HArray (mkArray (a_component a) (a_length a)
           (map (fun k => payload_byte insns p (Z.of_nat k)) (seq 0 (Z.to_nat (count * width)))
            ++ drop (Z.to_nat (count * width)) (a_data a)))]> (objects st))).
Proof.
  intros Hc Hw Hcw Ho Hnz (Hl & Hpos & Hd) Hs. apply Z.eqb_neq in Hnz.
  unfold FillArrayData. rewrite Hnz, Ho.
  rewrite (wraps_small 32) by (try lia; unfold in_s; lia).
  destruct (Z.ltb_spec (a_length a) count); [done|].
  unfold fill_size_in_bytes, memcpy_payload. rewrite wrapu_small by (unfold in_u; nia).
  destruct (Z.leb_spec (count * width) (Z.of_nat (length (a_data a)))); [done|nia].
Qed.
End FillArray.

(** A payload of four 1-byte elements at unit 0, and one whose 32-bit size wraps. *)
Definition payload4 : code_units := units_of [0x0300; 1; 4; 0; 0x0201; 0x0403].
Definition byte_array : array_obj := mkArray kPrimByte 4 [9; 9; 9; 9].
Definition byte_state : state := mkState (CreateShadowFrameImpl 1 0) 0 0 {[1 := HArray byte_array]}.

Lemma fill_array_data_spec_witness :
  FillArrayData byte_state 1 payload4 0
  = Some (true, set_objects byte_state
      (<[1 := HArray (mkArray kPrimByte 4 [1; 2; 3; 4])]> (objects byte_state))).
Proof.
  rewrite (fill_array_data_spec payload4 0 byte_state 1 byte_array); [vm_compute; reflexivity|..].
  all: by vm_compute.
Defined.

(** [fill-array-data v0, +4; return-void] with a [char] payload of 2^31 + 1 elements. *)
Definition overflow_method : CodeItem :=
  mkCodeItem 1 0 9
    (units_of [0x0026; 4; 0; 0x000e; 0x0300; 2; 1; 0x8000; 0xffff]) 0 [] [].
Definition empty_chars : array_obj := mkArray kPrimChar 0 [].
Definition overflow_state : state :=
  mkState (SetVRegReference (CreateShadowFrameImpl 1 0) 0 1) 0 0 {[1 := HArray empty_chars]}.


(** ** Single stepping *)

(** A result up to the position recorded in the frame. *)
Definition forget_pc (r : run_result) : run_result :=
  match r with
  | Returned st v => Returned (set_frame st (SetDexPC (frame st) 0)) v
  | r => r
  end.

Section SingleStep.
Context {RS : RuntimeServices} (insns : code_units).

(** The loop overwrites the recorded position before it reads the frame. *)
Lemma iterate_forgets st p pc :
  iterate insns (set_frame st (SetDexPC (frame st) p)) pc = iterate insns st pc.
Proof. done. Qed.

Lemma run_forgets fuel st p pc :
  run insns fuel false (set_frame st (SetDexPC (frame st) p)) pc = run insns fuel false st pc.
Proof. destruct fuel as [|fuel]; [done|]. cbn [run]. by rewrite iterate_forgets. Qed.

(** Running a method with [interpret_one_instruction], one call per instruction and
    stopping at the marker position, gives what one call without it gives: the mode the
    assembly interpreter uses to hand single instructions over agrees with the full loop. *)
Theorem single_stepping fuel st :
  (forall st1 pc1, iterate insns st (GetDexPC (frame st)) = Continue st1 pc1 ->
     0 <= pc1 < kDexNoIndex) ->
  forget_pc (ExecuteSwitchImpl insns (S fuel) false st)
  = match ExecuteSwitchImpl insns 1 true st with
    | Returned st1 v =>
        if GetDexPC (frame st1) =? kDexNoIndex then forget_pc (Returned st1 v)
        else forget_pc (ExecuteSwitchImpl insns fuel false st1)
    | r => r
    end.
Proof.
  intros Hpc. unfold ExecuteSwitchImpl. cbn [run].
  destruct (iterate insns st (GetDexPC (frame st))) as [st1 pc1|st1 r|st1| |]; try done.
  specialize (Hpc st1 pc1 eq_refl). unfold kDexNoIndex in *.
  assert (GetDexPC (frame (set_frame st1 (SetDexPC (frame st1) pc1))) = pc1) as ->.
  { cbn. apply wrapu_small. unfold in_u. lia. }
  destruct (Z.eqb_spec pc1 0xFFFFFFFF); [lia|]. by rewrite run_forgets.
Qed.
End SingleStep.

Lemma single_stepping_witness :
  forget_pc (ExecuteSwitchImpl (insns_ Sample.straight) 5 false (Sample.start 1))
  = match ExecuteSwitchImpl (insns_ Sample.straight) 1 true (Sample.start 1) with
    | Returned st1 v =>
        if GetDexPC (frame st1) =? kDexNoIndex then forget_pc (Returned st1 v)
        else forget_pc (ExecuteSwitchImpl (insns_ Sample.straight) 4 false st1)
    | r => r
    end.
Proof.
  apply (single_stepping (insns_ Sample.straight) 4 (Sample.start 1)).
  intros st1 pc1 H. vm_compute in H. injection H as <- <-. by vm_compute.
Defined.
