(* ===== verification/Leb128.v ===== *)
(** * LEB128 encoding

    runtime/leb128.h: the variable-length integers of dex files.  Memory is a byte for each
    address, a [const uint8_t**] argument is the address before and the address after the call,
    and the encoders return the bytes they store. *)

From S2P Require Import Prelude.

(** Byte memory. *)
Definition bytes := Z -> Z.
Definition bytes_ok (m : bytes) : Prop := forall i, in_u 8 (m i).

(** The bytes [l] stored at [p], the rest unchanged. *)
Definition store (m : bytes) (p : Z) (l : list Z) : bytes :=
  fun i => if (p <=? i) && (i <? p + Z.of_nat (length l)) then nth (Z.to_nat (i - p)) l 0 else m i.

(** ** Decoders *)

(** The shifts by 28 of a whole byte wrap to [int]. *)
Definition DecodeUnsignedLeb128 (m : bytes) (ptr : Z) : Z * Z :=
  let result := m ptr in
  if 0x7f <? result then
    let cur := m (ptr + 1) in
    let result := Z.lor (Z.land result 0x7f) (Z.shiftl (Z.land cur 0x7f) 7) in
    if 0x7f <? cur then
      let cur := m (ptr + 2) in
      let result := Z.lor result (Z.shiftl (Z.land cur 0x7f) 14) in
      if 0x7f <? cur then
        let cur := m (ptr + 3) in
        let result := Z.lor result (Z.shiftl (Z.land cur 0x7f) 21) in
        if 0x7f <? cur then
          let cur := m (ptr + 4) in
          (u32 (Z.lor result (s32 (Z.shiftl cur 28))), ptr + 5)
        else (u32 result, ptr + 4)
      else (u32 result, ptr + 3)
    else (u32 result, ptr + 2)
  else (u32 result, ptr + 1).

Definition DecodeUnsignedLeb128P1 (m : bytes) (ptr : Z) : Z * Z :=
  let '(v, ptr) := DecodeUnsignedLeb128 m ptr in (s32 (u32 (v - 1)), ptr).

(** [(result << k) >> k] on [int32_t]. *)
Definition sign_extend (k v : Z) : Z := Z.shiftr (s32 (Z.shiftl v k)) k.

Definition DecodeSignedLeb128 (m : bytes) (ptr : Z) : Z * Z :=
  let result := m ptr in
  if result <=? 0x7f then (sign_extend 25 result, ptr + 1)
  else
    let cur := m (ptr + 1) in
    let result := Z.lor (Z.land result 0x7f) (Z.shiftl (Z.land cur 0x7f) 7) in
    if cur <=? 0x7f then (sign_extend 18 result, ptr + 2)
    else
      let cur := m (ptr + 2) in
      let result := Z.lor result (Z.shiftl (Z.land cur 0x7f) 14) in
      if cur <=? 0x7f then (sign_extend 11 result, ptr + 3)
      else
        let cur := m (ptr + 3) in
        let result := Z.lor result (Z.shiftl (Z.land cur 0x7f) 21) in
        if cur <=? 0x7f then (sign_extend 4 result, ptr + 4)
        else
          let cur := m (ptr + 4) in
          (s32 (Z.lor result (s32 (Z.shiftl cur 28))), ptr + 5).

(** ** Sizes *)

(** [__builtin_clz] of a non-zero [uint32_t]. *)
Definition CLZ (x : Z) : Z := 31 - Z.log2 x.

Definition UnsignedLeb128Size (data : Z) : Z :=
  let x := 6 + 32 - CLZ (Z.lor data 1) in
  Z.shiftr (u32 (x * 37)) 8.

Definition SignedLeb128Size (data : Z) : Z :=
  let data := Z.lxor data (Z.shiftr data 31) in
  let x := 1 + 6 + 32 - CLZ (Z.lor (u32 data) 1) in
  Z.shiftr (u32 (x * 37)) 8.

(** ** Encoders: the loops take at most five turns. *)
Fixpoint encode_unsigned (fuel : nat) (out value : Z) : list Z :=
  match fuel with
  | O => []
  | S fuel =>
      if value =? 0 then [out]
      else u8 (Z.lor out 0x80) :: encode_unsigned fuel (Z.land value 0x7f) (Z.shiftr value 7)
  end.
Definition EncodeUnsignedLeb128 (value : Z) : list Z :=
  encode_unsigned 6 (Z.land value 0x7f) (Z.shiftr value 7).

Fixpoint encode_signed (fuel : nat) (out value extra_bits : Z) : list Z :=
  match fuel with
  | O => []
  | S fuel =>
      if extra_bits =? 0 then [out]
      else
        let value := Z.shiftr value 7 in
        u8 (Z.lor out 0x80) :: encode_signed fuel (Z.land value 0x7f) value (Z.shiftr extra_bits 7)
  end.
Definition EncodeSignedLeb128 (value : Z) : list Z :=
  let extra_bits := Z.shiftr (u32 (Z.lxor value (Z.shiftr value 31))) 6 in
  encode_signed 6 (Z.land value 0x7f) value extra_bits.

(** [UpdateUnsignedLeb128]: the new encoding is padded to the length of the old one. *)
Fixpoint pad_leb128 (fuel : nat) (m : bytes) (end_ old_end : Z) : bytes :=
  match fuel with
  | O => m
  | S fuel =>
      if end_ <? old_end then
        let m := store m (end_ - 1) [u8 (Z.lor (m (end_ - 1)) 0x80)] in
        pad_leb128 fuel (store m end_ [0]) (end_ + 1) old_end
      else m
  end.
Definition UpdateUnsignedLeb128 (m : bytes) (dest value : Z) : bytes :=
  let '(_, old_end) := DecodeUnsignedLeb128 m dest in
  let l := EncodeUnsignedLeb128 value in
  pad_leb128 5 (store m dest l) (dest + Z.of_nat (length l)) old_end.

Example encode_ex : EncodeUnsignedLeb128 16256 = [0x80; 0x7f].
Proof. vm_compute. reflexivity. Qed.
Example encode_signed_ex : EncodeSignedLeb128 (-128) = [0x80; 0x7f].
Proof. vm_compute. reflexivity. Qed.
Example encode_max : length (EncodeUnsignedLeb128 (2 ^ 32 - 1)) = 5%nat.
Proof. vm_compute. reflexivity. Qed.

(** ** Arithmetic view *)
Lemma store_at m p l i :
  0 <= i < Z.of_nat (length l) -> store m p l (p + i) = nth (Z.to_nat i) l 0.
Proof.
  intros Hi. unfold store. rewrite (proj2 (Z.leb_le _ _)), (proj2 (Z.ltb_lt _ _)) by lia.
  cbn [andb]. f_equal. f_equal. lia.
Qed.
Lemma store_first m p l : l <> [] -> store m p l p = nth 0 l 0.
Proof.
  intros Hl. pose proof (store_at m p l 0) as H. rewrite Z.add_0_r in H. apply H.
  destruct l; [done|]. cbn. lia.
Qed.
Lemma store_other m p l i : i < p \/ p + Z.of_nat (length l) <= i -> store m p l i = m i.
Proof. intros Hi. unfold store. case_bool; cbn [andb]; (done || lia). Qed.

Lemma s32_shift28 z : s32 (Z.shiftl z 28) = Z.shiftl (wraps 4 z) 28.
Proof. rewrite !Z.shiftl_mul_pow2 by lia. unfold_width. dlia. Qed.

Lemma sign_extend_wraps k v : 0 <= k < 32 -> sign_extend k v = wraps (32 - k) v.
Proof.
  intros Hk. unfold sign_extend. rewrite Z.shiftl_mul_pow2, Z.shiftr_div_pow2 by lia.
  unfold wraps. replace (2 ^ 32) with (2 ^ (32 - k) * 2 ^ k) by (rewrite <- Z.pow_add_r by lia; f_equal; lia).
  replace (2 ^ (32 - 1)) with (2 ^ (32 - k - 1) * 2 ^ k) by (rewrite <- Z.pow_add_r by lia; f_equal; lia).
  assert (0 < 2 ^ k) by (apply Z.pow_pos_nonneg; lia).
  assert (0 < 2 ^ (32 - k)) by (apply Z.pow_pos_nonneg; lia).
  rewrite <- Z.mul_add_distr_r, Z.mul_mod_distr_r, <- Z.mul_sub_distr_r, Z.div_mul by lia. done.
Qed.

(** ** Digit lists

    An encoding is a list of bytes, all but the last with the high bit set. *)
Fixpoint leb_wf (l : list Z) : Prop :=
  match l with
  | [] => False
  | [b] => 0 <= b < 128
  | b :: l => 128 <= b < 256 /\ leb_wf l
  end.
Fixpoint leb_value (l : list Z) : Z :=
  match l with [] => 0 | b :: l => b mod 128 + 128 * leb_value l end.

(** The bytes [l] are at [p]. *)
Definition holds (m : bytes) (p : Z) (l : list Z) : Prop :=
  forall i, (i < length l)%nat -> m (p + Z.of_nat i) = nth i l 0.

Lemma holds_store m p l : holds (store m p l) p l.
Proof. intros i Hi. rewrite store_at by lia. f_equal. lia. Qed.

Section Digits.
Context (m : bytes) (p : Z).
#[local] Abbreviation b0 := (m p).
#[local] Abbreviation b1 := (m (p + 1)).
#[local] Abbreviation b2 := (m (p + 2)).
#[local] Abbreviation b3 := (m (p + 3)).
#[local] Abbreviation b4 := (m (p + 4)).

Definition digits2 : Z := b0 mod 128 + b1 mod 128 * 2 ^ 7.
Definition digits3 : Z := digits2 + b2 mod 128 * 2 ^ 14.
Definition digits4 : Z := digits3 + b3 mod 128 * 2 ^ 21.

Lemma lor_digits2 : Z.lor (b0 mod 128) (Z.shiftl (b1 mod 128) 7) = digits2.
Proof. apply lor_shiftl_add; [lia|]. dlia. Qed.
Lemma lor_digits3 : Z.lor digits2 (Z.shiftl (b2 mod 128) 14) = digits3.
Proof. apply lor_shiftl_add; [lia|]. unfold digits2. dlia. Qed.
Lemma lor_digits4 : Z.lor digits3 (Z.shiftl (b3 mod 128) 21) = digits4.
Proof. apply lor_shiftl_add; [lia|]. unfold digits3, digits2. dlia. Qed.
Lemma lor_digits5 : Z.lor digits4 (s32 (Z.shiftl b4 28)) = digits4 + wraps 4 b4 * 2 ^ 28.
Proof.
  rewrite s32_shift28. apply lor_shiftl_add; [lia|]. unfold digits4, digits3, digits2. dlia.
Qed.

(** The bytes of an encoding at [p], for a list with known elements. *)
Ltac digits_at Hh :=
  let read i z := try (let E := fresh "E" in
    pose proof (Hh i ltac:(cbn; lia)) as E; change (Z.of_nat i) with z in E; cbn in E;
    rewrite ?Z.add_0_r in E;
    rewrite ?E; unfold digits4, digits3, digits2; rewrite ?E) in
  read 0%nat 0; read 1%nat 1; read 2%nat 2; read 3%nat 3; read 4%nat 4.

Lemma decode_unsigned_list l :
  holds m p l -> leb_wf l -> (length l <= 5)%nat ->
  DecodeUnsignedLeb128 m p = (u32 (leb_value l), p + Z.of_nat (length l)).
Proof.
  intros Hh Hwf Hlen. unfold DecodeUnsignedLeb128.
  rewrite !land_0x7f, lor_digits2, lor_digits3, lor_digits4, lor_digits5.
  destruct l as [|a0 [|a1 [|a2 [|a3 [|a4 [|]]]]]]; cbn in Hlen; try lia; try done;
    cbn in Hwf; cbn [leb_value length]; digits_at Hh.
  all: case_bool; try lia.
  all: f_equal; unfold_width; try dlia.
Qed.

Lemma decode_signed_list l :
  holds m p l -> leb_wf l -> (length l <= 5)%nat ->
  DecodeSignedLeb128 m p
  = (wraps (Z.min 32 (7 * Z.of_nat (length l))) (leb_value l), p + Z.of_nat (length l)).
Proof.
  intros Hh Hwf Hlen. unfold DecodeSignedLeb128.
  rewrite !land_0x7f, lor_digits2, lor_digits3, lor_digits4, lor_digits5.
  rewrite !sign_extend_wraps by lia.
  destruct l as [|a0 [|a1 [|a2 [|a3 [|a4 [|]]]]]]; cbn in Hlen; try lia; try done;
    cbn in Hwf; cbn [leb_value length]; digits_at Hh.
  all: case_bool; try lia.
  all: change (Z.min 32 (7 * Z.of_nat 1)) with 7; change (Z.min 32 (7 * Z.of_nat 2)) with 14;
    change (Z.min 32 (7 * Z.of_nat 3)) with 21; change (Z.min 32 (7 * Z.of_nat 4)) with 28;
    change (Z.min 32 (7 * Z.of_nat 5)) with 32; f_equal; unfold_width; dlia.
Qed.
End Digits.

(** ** The encoders, one digit at a time *)
Lemma lor_0x80 z : 0 <= z < 128 -> u8 (Z.lor z 0x80) = z + 128.
Proof.
  intros Hz. change (Z.lor z 0x80) with (Z.lor z (Z.shiftl 1 7)). rewrite lor_shiftl_add by lia.
  unfold_width. dlia.
Qed.

Definition enc (fuel : nat) (v : Z) : list Z := encode_unsigned fuel (Z.land v 0x7f) (Z.shiftr v 7).
Lemma enc_step fuel v :
  0 <= v -> enc (S fuel) v = if v <? 128 then [v] else v mod 128 + 128 :: enc fuel (v / 128).
Proof.
  intros Hv. unfold enc. cbn [encode_unsigned]. rewrite lor_0x80, !land_0x7f by (bits_to_arith; dlia).
  rewrite !Z.shiftr_div_pow2 by lia. change (2 ^ 7) with 128.
  destruct (Z.eqb_spec (v / 128) 0), (Z.ltb_spec v 128); try done; try dlia.
  f_equal. dlia.
Qed.

Lemma enc_spec fuel : forall v, 0 <= v < 2 ^ (7 * Z.of_nat (S fuel)) ->
  let l := enc (S fuel) v in
  leb_wf l /\ leb_value l = v /\ (length l <= S fuel)%nat
  /\ v < 2 ^ (7 * Z.of_nat (length l))
  /\ (length l = 1%nat \/ 2 ^ (7 * (Z.of_nat (length l) - 1)) <= v).
Proof.
  induction fuel as [|fuel IH]; intros v Hv l.
  - unfold l. rewrite enc_step by lia. change (2 ^ (7 * Z.of_nat 1)) with 128 in Hv.
    destruct (Z.ltb_spec v 128); [|lia]. cbn. split_and!; try lia. dlia.
  - unfold l. rewrite enc_step by lia. destruct (Z.ltb_spec v 128).
    { cbn. split_and!; try lia. dlia. }
    destruct (IH (v / 128)) as (Hwf & Hval & Hlen & Hup & Hlo).
    { replace (7 * Z.of_nat (S (S fuel))) with (7 * Z.of_nat (S fuel) + 7) in Hv by lia.
      rewrite Z.pow_add_r in Hv by lia. split; [dlia|]. apply Z.div_lt_upper_bound; lia. }
    destruct (enc (S fuel) (v / 128)) as [|b r]; [done|]. split_and!.
    + split; [dlia|done].
    + cbn [leb_value] in *. dlia.
    + cbn [length] in *. lia.
    + cbn [length] in *. replace (7 * Z.of_nat (S (S (length r)))) with (7 + 7 * Z.of_nat (S (length r))) by lia.
      rewrite Z.pow_add_r by lia. change (2 ^ 7) with 128. dlia.
    + right. cbn [length] in *. destruct Hlo as [Hlo|Hlo].
      * assert (length r = 0%nat) as -> by lia. cbn. lia.
      * replace (7 * (Z.of_nat (S (S (length r))) - 1)) with (7 + 7 * (Z.of_nat (S (length r)) - 1)) by lia.
        rewrite Z.pow_add_r by lia. change (2 ^ 7) with 128. dlia.
Qed.

Definition magnitude (v : Z) : Z := if v <? 0 then - v - 1 else v.
Lemma lxor_magnitude v : in_s 32 v -> u32 (Z.lxor v (Z.shiftr v 31)) = magnitude v.
Proof.
  intros Hv. pose proof Hv as Hs. apply (in_s_shiftr 32) in Hs; [|lia]. change (32 - 1) with 31 in Hs.
  unfold magnitude, in_s in *. destruct Hs as [E|E]; rewrite E.
  - rewrite Z.lxor_0_r. rewrite Z.shiftr_div_pow2 in E by lia.
    destruct (Z.ltb_spec v 0); [dlia|]. apply wrapu_small. unfold in_u. lia.
  - rewrite Z.lxor_m1_r, Z.lnot_eq_pred_opp. rewrite Z.shiftr_div_pow2 in E by lia.
    destruct (Z.ltb_spec v 0); [|dlia]. rewrite wrapu_small; [lia|]. unfold in_u. lia.
Qed.

Definition encs (fuel : nat) (v : Z) : list Z :=
  encode_signed fuel (Z.land v 0x7f) v (magnitude v / 64).
Lemma encs_step fuel v :
  encs (S fuel) v
  = if (-64 <=? v) && (v <? 64) then [v mod 128] else v mod 128 + 128 :: encs fuel (v / 128).
Proof.
  unfold encs. cbn [encode_signed]. rewrite lor_0x80, !land_0x7f by (bits_to_arith; dlia).
  rewrite !Z.shiftr_div_pow2 by lia. change (2 ^ 7) with 128.
  assert (magnitude v / 64 / 128 = magnitude (v / 128) / 64) as ->
    by (unfold magnitude; case_bool; dlia).
  assert ((magnitude v / 64 =? 0) = (-64 <=? v) && (v <? 64)) as ->; [|done].
  apply Bool.eq_iff_eq_true. rewrite andb_true_iff, Z.eqb_eq, Z.leb_le, Z.ltb_lt.
  unfold magnitude. destruct (Z.ltb_spec v 0); dlia.
Qed.
Lemma EncodeSigned_encs v : in_s 32 v -> EncodeSignedLeb128 v = encs 6 v.
Proof.
  intros Hv. unfold EncodeSignedLeb128. rewrite lxor_magnitude by done.
  by rewrite Z.shiftr_div_pow2 by lia.
Qed.

(** [n] digits hold a signed value of [7 n] bits. *)
Lemma in_s_digit n v : in_s (7 * Z.of_nat (S n) + 7) v <-> in_s (7 * Z.of_nat (S n)) (v / 128).
Proof.
  unfold in_s. replace (7 * Z.of_nat (S n) + 7 - 1) with (7 + (7 * Z.of_nat (S n) - 1)) by lia.
  rewrite Z.pow_add_r by lia. change (2 ^ 7) with 128.
  assert (0 < 2 ^ (7 * Z.of_nat (S n) - 1)) by (apply Z.pow_pos_nonneg; lia). dlia.
Qed.

Lemma encs_spec fuel : forall v, in_s (7 * Z.of_nat (S fuel)) v ->
  let l := encs (S fuel) v in
  leb_wf l /\ leb_value l = wrapu (7 * Z.of_nat (length l)) v /\ (length l <= S fuel)%nat
  /\ in_s (7 * Z.of_nat (length l)) v
  /\ (length l = 1%nat \/ ~ in_s (7 * (Z.of_nat (length l) - 1)) v).
Proof.
  induction fuel as [|fuel IH]; intros v Hv l; unfold l; rewrite encs_step.
  - change (7 * Z.of_nat 1) with 7 in Hv. unfold in_s in Hv. cbn in Hv.
    rewrite (proj2 (Z.leb_le _ _)), (proj2 (Z.ltb_lt _ _)) by lia. cbn [andb length leb_wf leb_value].
    change (7 * Z.of_nat 1) with 7. unfold in_s, wrapu. cbn. split_and!; try lia; dlia.
  - destruct ((-64 <=? v) && (v <? 64)) eqn:Hsmall.
    { cbn [length leb_wf leb_value]. change (7 * Z.of_nat 1) with 7.
      apply andb_prop in Hsmall as [?%Z.leb_le ?%Z.ltb_lt]. unfold in_s, wrapu. cbn.
      split_and!; try lia; dlia. }
    replace (7 * Z.of_nat (S (S fuel))) with (7 * Z.of_nat (S fuel) + 7) in Hv by lia.
    destruct (IH (v / 128)) as (Hwf & Hval & Hlen & Hup & Hlo); [by apply in_s_digit|].
    destruct (encs (S fuel) (v / 128)) as [|b r]; [done|]. cbn [length leb_value] in *.
    replace (7 * Z.of_nat (S (S (length r)))) with (7 * Z.of_nat (S (length r)) + 7) by lia.
    split_and!.
    + split; [dlia|done].
    + rewrite Hval. unfold wrapu. rewrite (Z.add_comm _ 7), (Z.pow_add_r 2 7) by lia.
      rewrite Z.rem_mul_r; [|lia|apply Z.pow_pos_nonneg; lia]. change (2 ^ 7) with 128. dlia.
    + lia.
    + by apply in_s_digit.
    + right. destruct r as [|b' r]; cbn [length] in *.
      * change (7 * (Z.of_nat 2 - 1)) with 7. unfold in_s. cbn.
        apply andb_false_iff in Hsmall. rewrite Z.leb_gt, Z.ltb_ge in Hsmall. lia.
      * destruct Hlo as [?|Hlo]; [lia|].
        replace (7 * (Z.of_nat (S (S (S (length r)))) - 1)) with (7 * Z.of_nat (S (length r)) + 7) by lia.
        rewrite in_s_digit.
        by replace (7 * Z.of_nat (S (length r))) with (7 * (Z.of_nat (S (S (length r))) - 1)) by lia.
Qed.

(** ** Round trips *)
Lemma encode_unsigned_spec v :
  in_u 32 v ->
  let l := EncodeUnsignedLeb128 v in
  leb_wf l /\ leb_value l = v /\ (length l <= 5)%nat /\ v < 2 ^ (7 * Z.of_nat (length l))
  /\ (length l = 1%nat \/ 2 ^ (7 * (Z.of_nat (length l) - 1)) <= v).
Proof.
  intros Hv l. unfold in_u in Hv. change l with (enc 6 v).
  destruct (enc_spec 5 v) as (Hwf & Hval & Hlen & Hup & Hlo); [cbn; lia|].
  split_and!; try done.
  destruct (decide (length (enc 6 v) = 6%nat)) as [E|]; [|lia].
  rewrite E in Hlo. destruct Hlo as [?|Hlo]; [done|].
  change (2 ^ (7 * (Z.of_nat 6 - 1))) with (2 ^ 35) in Hlo. lia.
Qed.
Lemma encode_signed_spec v :
  in_s 32 v ->
  let l := EncodeSignedLeb128 v in
  leb_wf l /\ leb_value l = wrapu (7 * Z.of_nat (length l)) v /\ (length l <= 5)%nat
  /\ in_s (7 * Z.of_nat (length l)) v
  /\ (length l = 1%nat \/ ~ in_s (7 * (Z.of_nat (length l) - 1)) v).
Proof.
  intros Hv l. unfold l. rewrite EncodeSigned_encs by done.
  destruct (encs_spec 5 v) as (Hwf & Hval & Hlen & Hup & Hlo).
  { unfold in_s in *. cbn in *. lia. }
  split_and!; try done.
  destruct (decide (length (encs 6 v) = 6%nat)) as [E|]; [|lia].
  rewrite E in Hlo. destruct Hlo as [?|Hlo]; [done|].
  exfalso. apply Hlo. unfold in_s in *. cbn in *. lia.
Qed.

Lemma decode_encoded_unsigned m p v :
  in_u 32 v -> holds m p (EncodeUnsignedLeb128 v) ->
  DecodeUnsignedLeb128 m p = (v, p + Z.of_nat (length (EncodeUnsignedLeb128 v))).
Proof.
  intros Hv Hh. destruct (encode_unsigned_spec v Hv) as (Hwf & Hval & Hlen & _).
  rewrite (decode_unsigned_list m p _ Hh Hwf Hlen), Hval. by rewrite wrapu_small.
Qed.
Lemma decode_encoded_signed m p v :
  in_s 32 v -> holds m p (EncodeSignedLeb128 v) ->
  DecodeSignedLeb128 m p = (v, p + Z.of_nat (length (EncodeSignedLeb128 v))).
Proof.
  intros Hv Hh. destruct (encode_signed_spec v Hv) as (Hwf & Hval & Hlen & Hup & _).
  rewrite (decode_signed_list m p _ Hh Hwf Hlen), Hval. f_equal.
  set (n := length (EncodeSignedLeb128 v)) in *.
  destruct (Z.min_spec 32 (7 * Z.of_nat n)) as [[H ->]|[H ->]].
  - assert (n = 5)%nat as -> by lia. unfold_width. cbn in *. dlia.
  - assert (n <> 0)%nat by (intros E; destruct (EncodeSignedLeb128 v); done).
    rewrite wraps_wrapu by lia. apply wraps_small; [lia|done].
Qed.

(** ** Sizes *)
Lemma size_of_log n k :
  0 <= n -> 7 * k <= n < 7 * k + 7 -> n < 40 -> Z.shiftr (u32 ((7 + n) * 37)) 8 = k + 1.
Proof.
  intros Hn Hk Hb. rewrite Z.shiftr_div_pow2 by lia. rewrite wrapu_small by (unfold in_u; lia).
  change (2 ^ 8) with 256. dlia.
Qed.
Lemma log2_lor_1 v : 0 <= v -> Z.log2 (Z.lor v 1) = Z.log2 v.
Proof.
  intros Hv. rewrite Z.log2_lor by lia. change (Z.log2 1) with 0.
  pose proof (Z.log2_nonneg v). lia.
Qed.
Lemma log2_range v n : 0 <= v < 2 ^ n -> 0 < n -> Z.log2 v < n.
Proof.
  intros Hv Hn. destruct (decide (v = 0)) as [->|]; [done|]. apply Z.log2_lt_pow2; lia.
Qed.

Lemma unsigned_size v :
  in_u 32 v -> UnsignedLeb128Size v = Z.of_nat (length (EncodeUnsignedLeb128 v)).
Proof.
  intros Hv. destruct (encode_unsigned_spec v Hv) as (Hwf & _ & Hlen & Hup & Hlo). unfold in_u in Hv.
  set (n := length (EncodeUnsignedLeb128 v)) in *.
  assert (n <> 0)%nat by (intros E; destruct (EncodeUnsignedLeb128 v); done).
  unfold UnsignedLeb128Size, CLZ. rewrite log2_lor_1 by lia.
  replace (6 + 32 - (31 - Z.log2 v)) with (7 + Z.log2 v) by lia.
  pose proof (Z.log2_nonneg v). pose proof (log2_range v 32 ltac:(lia) ltac:(lia)).
  pose proof (log2_range v (7 * Z.of_nat n) ltac:(lia) ltac:(lia)).
  rewrite (size_of_log _ (Z.of_nat n - 1)); try lia. split; [|lia].
  destruct Hlo as [Hlo|Hlo]; [lia|]. apply Z.log2_le_mono in Hlo.
  rewrite Z.log2_pow2 in Hlo by lia. lia.
Qed.

Lemma magnitude_range n v : 0 < n -> in_s n v <-> magnitude v < 2 ^ (n - 1).
Proof. intros Hn. unfold in_s, magnitude. destruct (Z.ltb_spec v 0); lia. Qed.

Lemma signed_size v :
  in_s 32 v -> SignedLeb128Size v = Z.of_nat (length (EncodeSignedLeb128 v)).
Proof.
  intros Hv. destruct (encode_signed_spec v Hv) as (Hwf & _ & Hlen & Hup & Hlo).
  set (n := length (EncodeSignedLeb128 v)) in *.
  assert (n <> 0)%nat by (intros E; destruct (EncodeSignedLeb128 v); done).
  unfold SignedLeb128Size, CLZ. rewrite lxor_magnitude by done.
  assert (0 <= magnitude v) by (unfold magnitude; case_bool; lia).
  rewrite log2_lor_1 by lia. replace (1 + 6 + 32 - (31 - Z.log2 (magnitude v))) with (7 + (1 + Z.log2 (magnitude v))) by lia.
  rewrite magnitude_range in Hv, Hup by lia.
  pose proof (Z.log2_nonneg (magnitude v)).
  pose proof (log2_range (magnitude v) 31 ltac:(cbn in *; lia) ltac:(lia)).
  pose proof (log2_range (magnitude v) (7 * Z.of_nat n - 1) ltac:(lia) ltac:(lia)).
  rewrite (size_of_log _ (Z.of_nat n - 1)); try lia. split; [|lia].
  destruct Hlo as [Hlo|Hlo]; [lia|]. destruct (decide (n = 1)%nat); [lia|].
  rewrite magnitude_range in Hlo by lia.
  assert (2 ^ (7 * (Z.of_nat n - 1) - 1) <= magnitude v) as Hl by lia.
  apply Z.log2_le_mono in Hl. rewrite Z.log2_pow2 in Hl by lia. lia.
Qed.

(** C30. Reading back what the encoders write gives the value and the address just past it,
    for every 32-bit value, signed or unsigned; the number of bytes is the one the size
    functions compute with the multiplication by 37. *)
Theorem leb128_roundtrip m p v :
  (in_u 32 v ->
   DecodeUnsignedLeb128 (store m p (EncodeUnsignedLeb128 v)) p = (v, p + UnsignedLeb128Size v)
   /\ UnsignedLeb128Size v = Z.of_nat (length (EncodeUnsignedLeb128 v)))
  /\ (in_s 32 v ->
      DecodeSignedLeb128 (store m p (EncodeSignedLeb128 v)) p = (v, p + SignedLeb128Size v)
      /\ SignedLeb128Size v = Z.of_nat (length (EncodeSignedLeb128 v))).
Proof.
  split; intros Hv.
  - rewrite unsigned_size by done. split; [|done].
    apply decode_encoded_unsigned; [done|apply holds_store].
  - rewrite signed_size by done. split; [|done].
    apply decode_encoded_signed; [done|apply holds_store].
Qed.
Lemma leb128_roundtrip_witness :
  DecodeUnsignedLeb128 (store (fun _ => 0) 8 (EncodeUnsignedLeb128 300)) 8 = (300, 10)
  /\ DecodeSignedLeb128 (store (fun _ => 0) 8 (EncodeSignedLeb128 (-129))) 8 = (-129, 10).
Proof.
  split.
  - apply (leb128_roundtrip (fun _ => 0) 8 300). by vm_compute.
  - apply (leb128_roundtrip (fun _ => 0) 8 (-129)). by vm_compute.
Defined.

(** ** Updating in place *)
Lemma holds_cons m p b l : holds m p (b :: l) <-> m p = b /\ holds m (p + 1) l.
Proof.
  split.
  - intros H. split; [pose proof (H 0%nat) as H0; rewrite Z.add_0_r in H0; apply H0; cbn; lia|].
    intros i Hi. replace (p + 1 + Z.of_nat i) with (p + Z.of_nat (S i)) by lia.
    apply (H (S i)). cbn. lia.
  - intros [Hb Hl] [|i] Hi; [by rewrite Z.add_0_r|].
    replace (p + Z.of_nat (S i)) with (p + 1 + Z.of_nat i) by lia. apply Hl. cbn in Hi. lia.
Qed.

(** One more digit, a zero. *)
Fixpoint pad1 (l : list Z) : list Z :=
  match l with [] => [] | [b] => [b + 128; 0] | b :: r => b :: pad1 r end.
Lemma pad1_spec l :
  leb_wf l -> leb_wf (pad1 l) /\ leb_value (pad1 l) = leb_value l /\ length (pad1 l) = S (length l).
Proof.
  induction l as [|b [|b' r] IH]; [done| |].
  - cbn. intros H. split_and!; try lia. dlia.
  - intros [Hb Hr]. destruct (IH Hr) as (Hw & Hv & Hl). split_and!.
    + change (pad1 (b :: b' :: r)) with (b :: pad1 (b' :: r)).
      destruct (pad1 (b' :: r)) eqn:E; [done|]. by split.
    + change (pad1 (b :: b' :: r)) with (b :: pad1 (b' :: r)). cbn [leb_value] in *. lia.
    + change (pad1 (b :: b' :: r)) with (b :: pad1 (b' :: r)). cbn [length] in *. lia.
Qed.

Definition pad_step (m : bytes) (end_ : Z) : bytes :=
  store (store m (end_ - 1) [u8 (Z.lor (m (end_ - 1)) 0x80)]) end_ [0].
Lemma holds_pad1 l : forall m p,
  holds m p l -> leb_wf l -> holds (pad_step m (p + Z.of_nat (length l))) p (pad1 l).
Proof.
  induction l as [|b [|b' r] IH]; intros m p Hh Hwf; [done| |].
  - apply holds_cons in Hh as [Hb _]. cbn in Hwf. cbn [length pad1].
    change (Z.of_nat 1) with 1. unfold pad_step. replace (p + 1 - 1) with p by lia.
    rewrite !holds_cons. split_and!.
    + rewrite store_other, store_first by (done || cbn; lia). cbn [nth]. rewrite Hb. by apply lor_0x80.
    + by rewrite store_first.
    + intros i Hi. cbn in Hi. lia.
  - apply holds_cons in Hh as [Hb Hh]. destruct Hwf as [Hb' Hwf].
    change (pad1 (b :: b' :: r)) with (b :: pad1 (b' :: r)). apply holds_cons. split.
    + unfold pad_step. rewrite !store_other by (cbn; lia). done.
    + replace (p + Z.of_nat (length (b :: b' :: r))) with (p + 1 + Z.of_nat (length (b' :: r)))
        by (cbn; lia). by apply IH.
Qed.
Lemma pad_step_other m e i : i <> e -> i <> e - 1 -> pad_step m e i = m i.
Proof. intros H1 H2. unfold pad_step. rewrite !store_other by (cbn; lia). done. Qed.

Lemma pad_spec fuel : forall m p l n,
  holds m p l -> leb_wf l -> (length l <= n)%nat -> (n - length l <= fuel)%nat ->
  let m' := pad_leb128 fuel m (p + Z.of_nat (length l)) (p + Z.of_nat n) in
  exists l', holds m' p l' /\ leb_wf l' /\ leb_value l' = leb_value l /\ length l' = n
    /\ forall i, i < p \/ p + Z.of_nat n <= i -> m' i = m i.
Proof.
  induction fuel as [|fuel IH]; intros m p l n Hh Hwf Hn Hf m'; unfold m'; cbn [pad_leb128].
  - exists l. split_and!; try done. lia.
  - destruct (Z.ltb_spec (p + Z.of_nat (length l)) (p + Z.of_nat n)).
    + destruct (pad1_spec l Hwf) as (Hw & Hv & Hl).
      destruct (IH (pad_step m (p + Z.of_nat (length l))) p (pad1 l) n) as (l' & Hh' & Hw' & Hv' & Hl' & Ho);
        [by apply holds_pad1|done|lia|lia|].
      replace (p + Z.of_nat (length l) + 1) with (p + Z.of_nat (length (pad1 l))) by lia.
      exists l'. split_and!; try done; [lia|]. intros i Hi. rewrite Ho by done.
      assert (length l <> 0)%nat by (by destruct l). apply pad_step_other; lia.
    + exists l. split_and!; try done. lia.
Qed.

Lemma decode_unsigned_bound m p :
  bytes_ok m ->
  let '(v, e) := DecodeUnsignedLeb128 m p in
  0 <= v < 2 ^ 32 /\ v < 2 ^ (7 * (e - p)) /\ p + 1 <= e <= p + 5.
Proof.
  intros Hm. unfold DecodeUnsignedLeb128.
  rewrite !land_0x7f, lor_digits2, lor_digits3, lor_digits4, lor_digits5.
  pose proof (Hm p) as H0. unfold in_u in H0.
  assert (0 <= digits2 m p < 2 ^ 14) by (unfold digits2; dlia).
  assert (0 <= digits3 m p < 2 ^ 21) by (unfold digits3; dlia).
  assert (0 <= digits4 m p < 2 ^ 28) by (unfold digits4; dlia).
  assert (forall z, 0 <= u32 z < 2 ^ 32) as Hu by (intros z; by apply wrapu_range).
  case_bool; (split; [apply Hu|]); (split; [|lia]).
  - replace (7 * (p + 5 - p)) with 35 by lia. pose proof (Hu (digits4 m p + wraps 4 (m (p + 4)) * 2 ^ 28)). lia.
  - replace (7 * (p + 4 - p)) with 28 by lia. rewrite wrapu_small by (unfold in_u; lia). lia.
  - replace (7 * (p + 3 - p)) with 21 by lia. rewrite wrapu_small by (unfold in_u; lia). lia.
  - replace (7 * (p + 2 - p)) with 14 by lia. rewrite wrapu_small by (unfold in_u; lia). lia.
  - replace (7 * (p + 1 - p)) with 7 by lia. rewrite wrapu_small by (unfold in_u; lia). lia.
Qed.

(** Overwriting an encoded value with one that is not larger keeps the layout: the new
    value is read back, ending at the same address as the old one, and no byte outside the
    old encoding changes. *)
Theorem leb128_update m dest value old old_end :
  bytes_ok m -> DecodeUnsignedLeb128 m dest = (old, old_end) -> 0 <= value <= old ->
  let m' := UpdateUnsignedLeb128 m dest value in
  DecodeUnsignedLeb128 m' dest = (value, old_end)
  /\ forall i, i < dest \/ old_end <= i -> m' i = m i.
Proof.
  intros Hm Hd Hv m'. pose proof (decode_unsigned_bound m dest Hm) as Hb. rewrite Hd in Hb.
  destruct Hb as (Hr & Hup & He). assert (in_u 32 value) as Hu by (unfold in_u; lia).
  destruct (encode_unsigned_spec value Hu) as (Hwf & Hval & Hlen & Hub & Hlo).
  unfold m', UpdateUnsignedLeb128. rewrite Hd. set (l := EncodeUnsignedLeb128 value) in *.
  assert (Z.of_nat (length l) <= old_end - dest) as Hfit.
  { destruct Hlo as [->|Hlo]; [lia|].
    assert (7 * (Z.of_nat (length l) - 1) < 7 * (old_end - dest)); [|lia].
    apply (Z.pow_lt_mono_r_iff 2); lia. }
  destruct (pad_spec 5 (store m dest l) dest l (Z.to_nat (old_end - dest)))
    as (l' & Hh & Hw & Hv' & Hl' & Ho); try done; [apply holds_store|lia|lia|].
  replace (dest + Z.of_nat (Z.to_nat (old_end - dest))) with old_end in * by lia. split.
  - rewrite (decode_unsigned_list _ _ l') by (done || lia).
    rewrite Hv', Hval, Hl', wrapu_small by done. f_equal. lia.
  - intros i Hi. rewrite Ho by done. apply store_other. lia.
Qed.
Lemma store_ok m p l : bytes_ok m -> Forall (in_u 8) l -> bytes_ok (store m p l).
Proof.
  intros Hm Hl i. unfold store. case_bool; cbn [andb]; try apply Hm.
  rewrite List.Forall_forall in Hl. apply Hl, nth_In. lia.
Qed.
Lemma leb128_update_witness :
  let m := store (fun _ => 7) 8 (EncodeUnsignedLeb128 300) in
  DecodeUnsignedLeb128 (UpdateUnsignedLeb128 m 8 5) 8 = (5, 10)
  /\ UpdateUnsignedLeb128 m 8 5 10 = 7.
Proof.
  intros m. destruct (leb128_update m 8 5 300 10) as [H1 H2].
  - apply store_ok; [by vm_compute|]. vm_compute. repeat constructor; done.
  - vm_compute. reflexivity.
  - lia.
  - split; [exact H1|]. rewrite H2 by lia. vm_compute. reflexivity.
Defined.
