(* ===== verification/DexCode.v ===== *)
(** * Code items in a dex file

    The layout of [DexFile::CodeItem] and [DexFile::TryItem] in the bytes of a file, the search
    for the try item of a position and the iteration over catch handlers (runtime/dex_file.h,
    dex_file-inl.h, dex_file.cc), and the checks the dex file verifier makes on code items
    (runtime/dex_file_verifier.cc).  Addresses are integers of the memory of [Leb128]. *)

From S2P Require Import Prelude Leb128.

(** ** Layout *)
Definition u16_at (m : bytes) (p : Z) : Z := m p + 256 * m (p + 1).
Definition u32_at (m : bytes) (p : Z) : Z := u16_at m p + 65536 * u16_at m (p + 2).

Definition kDexNoIndex16 : Z := 0xFFFF.

Definition RoundDown (x n : Z) : Z := Z.land x (- n).
Definition RoundUp (x n : Z) : Z := RoundDown (x + n - 1) n.

(** The fields of the structures at an address. *)
Module Raw.
Definition sizeof_CodeItem : Z := 20.
Definition registers_size_ (m : bytes) (code_item : Z) : Z := u16_at m code_item.
Definition ins_size_ (m : bytes) (code_item : Z) : Z := u16_at m (code_item + 2).
Definition outs_size_ (m : bytes) (code_item : Z) : Z := u16_at m (code_item + 4).
Definition tries_size_ (m : bytes) (code_item : Z) : Z := u16_at m (code_item + 6).
Definition insns_size_in_code_units_ (m : bytes) (code_item : Z) : Z := u32_at m (code_item + 12).
Definition insns_ (code_item i : Z) : Z := code_item + 16 + 2 * i.

Definition sizeof_TryItem : Z := 8.
Definition start_addr_ (m : bytes) (try_item : Z) : Z := u32_at m try_item.
Definition insn_count_ (m : bytes) (try_item : Z) : Z := u16_at m (try_item + 4).
Definition handler_off_ (m : bytes) (try_item : Z) : Z := u16_at m (try_item + 6).
End Raw.

Definition GetTryItems (m : bytes) (code_item offset : Z) : Z :=
  let insns_end_ := Raw.insns_ code_item (Raw.insns_size_in_code_units_ m code_item) in
  RoundUp insns_end_ 4 + Raw.sizeof_TryItem * offset.

Definition GetCatchHandlerData (m : bytes) (code_item offset : Z) : Z :=
  GetTryItems m code_item (Raw.tries_size_ m code_item) + offset.

(** ** The try item of an address *)
Section Lookup.
Context (m : bytes) (code_item : Z).
#[local] Abbreviation start_of i := (Raw.start_addr_ m (GetTryItems m code_item i)).
#[local] Abbreviation count_of i := (Raw.insn_count_ m (GetTryItems m code_item i)).

Fixpoint find_try_item (fuel : nat) (address min max : Z) : option Z :=
  if min <=? max then
    match fuel with
    | O => None
    | S fuel =>
        let mid := min + Z.quot (max - min) 2 in
        let start := start_of mid in
        let end_ := u32 (start + count_of mid) in
        if address <? start then find_try_item fuel address min (mid - 1)
        else if end_ <=? address then find_try_item fuel address (mid + 1) max
        else Some mid
    end
  else Some (-1).

(** Each turn shortens the range, of at most [tries_size_] items ([FindTryItem_spec]). *)
Definition FindTryItem (address : Z) : option Z :=
  let n := Raw.tries_size_ m code_item in
  find_try_item (Z.to_nat n) address 0 (n - 1).

Definition FindCatchHandlerOffset (address : Z) : option Z :=
  match FindTryItem address with
  | None => None
  | Some try_item =>
      if try_item =? -1 then Some (-1)
      else Some (Raw.handler_off_ m (GetTryItems m code_item try_item))
  end.
End Lookup.

(** ** Iteration over catch handlers *)
Record CatchHandlerIterator := mkIterator {
  type_idx_ : Z;
  address_ : Z;
  current_data_ : Z;
  remaining_count_ : Z;
  catch_all_ : bool
}.

Definition HasNext (it : CatchHandlerIterator) : bool :=
  negb (remaining_count_ it =? -1) || catch_all_ it.

Definition Next (m : bytes) (it : CatchHandlerIterator) : CatchHandlerIterator :=
  if 0 <? remaining_count_ it then
    let '(t, p) := DecodeUnsignedLeb128 m (current_data_ it) in
    let '(a, p) := DecodeUnsignedLeb128 m p in
    mkIterator (u16 t) a p (remaining_count_ it - 1) (catch_all_ it)
  else if catch_all_ it then
    let '(a, p) := DecodeUnsignedLeb128 m (current_data_ it) in
    mkIterator kDexNoIndex16 a p (remaining_count_ it) false
  else
    mkIterator (type_idx_ it) (address_ it) (current_data_ it) (-1) (catch_all_ it).

(** [Init(handler_data)]; [handler_] holds what the constructor left there. *)
Definition Init (m : bytes) (type address handler_data : Z) : CatchHandlerIterator :=
  let '(count, p) := DecodeSignedLeb128 m handler_data in
  if count <=? 0 then Next m (mkIterator type address p (s32 (- count)) true)
  else Next m (mkIterator type address p count false).

(** [Init(code_item, offset)]. *)
Definition InitOffset (m : bytes) (code_item type address offset : Z) : CatchHandlerIterator :=
  if 0 <=? offset then Init m type address (GetCatchHandlerData m code_item offset)
  else mkIterator type address 0 (-1) false.

(** The constructor for a position: [handler_.type_idx_] is not initialised there. *)
Definition CatchHandlerIterator_at (m : bytes) (type code_item address : Z)
  : option CatchHandlerIterator :=
  let tries_size := Raw.tries_size_ m code_item in
  let offset :=
    if tries_size =? 0 then Some (-1)
    else if tries_size =? 1 then
      let tries := GetTryItems m code_item 0 in
      let start := Raw.start_addr_ m tries in
      if start <=? address then
        let end_ := u32 (start + Raw.insn_count_ m tries) in
        if address <? end_ then Some (Raw.handler_off_ m tries) else Some (-1)
      else Some (-1)
    else FindCatchHandlerOffset m code_item address in
  match offset with
  | None => None
  | Some offset => Some (InitOffset m code_item type (u32 (-1)) offset)
  end.

(** The loop [for (; it.HasNext(); it.Next())] up to its end: the handlers in order, and
    [EndDataPointer]. *)
Fixpoint handlers_of_iterator (fuel : nat) (m : bytes) (it : CatchHandlerIterator)
  : option (list (Z * Z) * Z) :=
  if HasNext it then
    match fuel with
    | O => None
    | S fuel =>
        match handlers_of_iterator fuel m (Next m it) with
        | Some (l, e) => Some ((type_idx_ it, address_ it) :: l, e)
        | None => None
        end
    end
  else Some ([], current_data_ it).

(** ** The checks of the dex file verifier *)
Inductive DexError :=
| OverflowInRange | BadRange | BadIndex
| InvalidHandlerSize | InvalidHandlerAddr | InvalidCatchAllAddr
| BadInsSize | BadOutsSize | NonZeroPadding | InvalidHandlersSize
| OutOfOrderTry | InvalidTryStart | BogusHandlerOffset | InvalidTryCount
| EndsOutOfBounds.
Abbreviation checked A := (DexError + A)%type.

Section Checks.
Context (m : bytes) (begin_ size_ type_ids_size_ : Z).

(** [None] is success. *)
Definition CheckListSize (start count elem_size : Z) : option DexError :=
  let max := u64 (0 - 1) in
  let max_count := (max - start) / elem_size in
  if max_count <? count then Some OverflowInRange
  else
    let range_end := start + count * elem_size in
    if (start <? begin_) || (begin_ + size_ <? range_end) then Some BadRange else None.

Definition CheckIndex (field limit : Z) : bool := negb (limit <=? field).

Section CodeItem.
Context (code_item : Z).
#[local] Abbreviation insns_size := (Raw.insns_size_in_code_units_ m code_item).

(** The loop [while (size-- > 0)] over typed handlers: the address after them. *)
Fixpoint check_typed (n : nat) (ptr : Z) : checked Z :=
  match n with
  | O => inr ptr
  | S n =>
      let '(type_idx, ptr) := DecodeUnsignedLeb128 m ptr in
      if negb (CheckIndex type_idx type_ids_size_) then inl BadIndex
      else
        let '(addr, ptr) := DecodeUnsignedLeb128 m ptr in
        if insns_size <=? addr then inl InvalidHandlerAddr else check_typed n ptr
  end.

Definition check_handler (ptr : Z) : checked Z :=
  let '(size, ptr) := DecodeSignedLeb128 m ptr in
  if (size <? -65536) || (65536 <? size) then inl InvalidHandlerSize
  else
    let catch_all := size <=? 0 in
    match check_typed (Z.to_nat (Z.abs size)) ptr with
    | inl e => inl e
    | inr ptr =>
        if catch_all then
          let '(addr, ptr) := DecodeUnsignedLeb128 m ptr in
          if insns_size <=? addr then inl InvalidCatchAllAddr else inr ptr
        else inr ptr
    end.

(** The offsets of the lists and the address after them. *)
Fixpoint check_handlers (handlers_base : Z) (n : nat) (ptr : Z) : checked (list Z * Z) :=
  match n with
  | O => inr ([], ptr)
  | S n =>
      match check_handler ptr with
      | inl e => inl e
      | inr ptr' =>
          match check_handlers handlers_base n ptr' with
          | inl e => inl e
          | inr (offsets, e) => inr (u32 (ptr - handlers_base) :: offsets, e)
          end
      end
  end.

Definition CheckAndGetHandlerOffsets (ptr handlers_size : Z) : checked (list Z * Z) :=
  check_handlers (GetCatchHandlerData m code_item 0) (Z.to_nat handlers_size) ptr.

(** The loop over the try items. *)
Fixpoint check_tries (n : nat) (try_items last_addr : Z) (handler_offsets : list Z)
  : option DexError :=
  match n with
  | O => None
  | S n =>
      let start := Raw.start_addr_ m try_items in
      if start <? last_addr then Some OutOfOrderTry
      else if insns_size <=? start then Some InvalidTryStart
      else if negb (existsb (Z.eqb (Raw.handler_off_ m try_items)) handler_offsets)
      then Some BogusHandlerOffset
      else
        let last_addr := u32 (start + Raw.insn_count_ m try_items) in
        if insns_size <? last_addr then Some InvalidTryCount
        else check_tries n (try_items + Raw.sizeof_TryItem) last_addr handler_offsets
  end.
End CodeItem.

(** [CheckIntraCodeItem]: [ptr_] after the item. *)
Definition CheckIntraCodeItem (code_item : Z) : checked Z :=
  match CheckListSize code_item 1 Raw.sizeof_CodeItem with
  | Some e => inl e
  | None =>
      if Raw.registers_size_ m code_item <? Raw.ins_size_ m code_item then inl BadInsSize
      else if (5 <? Raw.outs_size_ m code_item)
              && (Raw.registers_size_ m code_item <? Raw.outs_size_ m code_item)
      then inl BadOutsSize
      else
        let insns_size := Raw.insns_size_in_code_units_ m code_item in
        match CheckListSize (Raw.insns_ code_item 0) insns_size 2 with
        | Some e => inl e
        | None =>
            let insns_end := Raw.insns_ code_item insns_size in
            let try_items_size := Raw.tries_size_ m code_item in
            if try_items_size =? 0 then inr insns_end
            else if negb (Z.land insns_end 3 =? 0) && negb (u16_at m insns_end =? 0)
            then inl NonZeroPadding
            else
              let try_items := GetTryItems m code_item 0 in
              match CheckListSize try_items try_items_size Raw.sizeof_TryItem with
              | Some e => inl e
              | None =>
                  let ptr := GetCatchHandlerData m code_item 0 in
                  let '(handlers_size, ptr) := DecodeUnsignedLeb128 m ptr in
                  if (handlers_size =? 0) || (65536 <=? handlers_size) then inl InvalidHandlersSize
                  else
                    match CheckAndGetHandlerOffsets code_item ptr handlers_size with
                    | inl e => inl e
                    | inr (handler_offsets, ptr) =>
                        match check_tries code_item (Z.to_nat try_items_size) try_items 0
                                handler_offsets with
                        | Some e => inl e
                        | None => inr ptr
                        end
                    end
              end
        end
  end.

(** A code item in its section: [CheckIntraSectionIterate] checks the end afterwards. *)
Definition CheckCodeSectionItem (code_item : Z) : checked Z :=
  match CheckIntraCodeItem code_item with
  | inl e => inl e
  | inr ptr => if size_ <? ptr - begin_ then inl EndsOutOfBounds else inr ptr
  end.
End Checks.

(** ** What the iterator reads

    The remaining handlers of a list, straight from the bytes: [n] typed ones, then the
    catch-all if there is one. *)
Fixpoint parse_rest (m : bytes) (n : nat) (c : bool) (p : Z) : list (Z * Z) * Z :=
  match n with
  | O => if c then let '(a, p) := DecodeUnsignedLeb128 m p in ([(kDexNoIndex16, a)], p) else ([], p)
  | S n =>
      let '(t, p) := DecodeUnsignedLeb128 m p in
      let '(a, p) := DecodeUnsignedLeb128 m p in
      let '(l, e) := parse_rest m n c p in ((u16 t, a) :: l, e)
  end.
Definition parse_list (m : bytes) (p : Z) : list (Z * Z) * Z :=
  let '(size, p) := DecodeSignedLeb128 m p in parse_rest m (Z.to_nat (Z.abs size)) (size <=? 0) p.

Lemma handlers_of_iterator_spec m n : forall (c : bool) t a p fuel,
  (n + 1 + (if c then 1 else 0) <= fuel)%nat ->
  handlers_of_iterator fuel m (mkIterator t a p (Z.of_nat n) c)
  = let '(l, e) := parse_rest m n c p in Some ((t, a) :: l, e).
Proof.
  induction n as [|n IH]; intros c t a p [|fuel] Hf; try lia.
  - cbn [handlers_of_iterator parse_rest]. unfold HasNext, Next.
    destruct c; cbn -[DecodeUnsignedLeb128 handlers_of_iterator].
    + destruct (DecodeUnsignedLeb128 m p) as [a' p'].
      destruct fuel as [|fuel]; [lia|]. by destruct fuel.
    + by destruct fuel.
  - cbn [handlers_of_iterator parse_rest]. unfold HasNext, Next. cbn [remaining_count_ catch_all_].
    rewrite (proj2 (Z.ltb_lt 0 _)), (proj2 (Z.eqb_neq _ (-1))) by lia. cbn [negb orb current_data_].
    destruct (DecodeUnsignedLeb128 m p) as [t' p1]. destruct (DecodeUnsignedLeb128 m p1) as [a' p2].
    replace (Z.of_nat (S n) - 1) with (Z.of_nat n) by lia. rewrite IH by lia.
    destruct (parse_rest m n c p2) as [l e]. done.
Qed.

(** Enough turns for any iterator. *)
Definition all_handlers (m : bytes) (it : CatchHandlerIterator) : option (list (Z * Z) * Z) :=
  handlers_of_iterator (Z.to_nat (remaining_count_ it) + 2) m it.

Lemma all_handlers_Init m t a p :
  - 2 ^ 31 < fst (DecodeSignedLeb128 m p) < 2 ^ 31 ->
  all_handlers m (Init m t a p) = Some (parse_list m p).
Proof.
  intros Hs. unfold Init, parse_list, all_handlers. destruct (DecodeSignedLeb128 m p) as [size p'].
  cbn in Hs. destruct (Z.leb_spec size 0) as [H0|H0].
  - rewrite wraps_small by (unfold_width; lia).
    replace (- size) with (Z.of_nat (Z.to_nat (Z.abs size))) by lia.
    destruct (Z.to_nat (Z.abs size)) as [|n]; cbn [parse_rest]; unfold Next; cbn [remaining_count_ current_data_ catch_all_].
    + rewrite (proj2 (Z.ltb_ge 0 _)) by lia. destruct (DecodeUnsignedLeb128 m p') as [a' p2].
      by rewrite (handlers_of_iterator_spec m 0 false) by (cbn; lia).
    + rewrite (proj2 (Z.ltb_lt 0 _)) by lia.
      destruct (DecodeUnsignedLeb128 m p') as [t' p1]. destruct (DecodeUnsignedLeb128 m p1) as [a' p2].
      replace (Z.of_nat (S n) - 1) with (Z.of_nat n) by lia.
      rewrite handlers_of_iterator_spec by (cbn; lia). by destruct (parse_rest m n true p2).
  - destruct (Z.to_nat (Z.abs size)) as [|n] eqn:E; [lia|]. cbn [parse_rest]. unfold Next.
    cbn [remaining_count_ current_data_ catch_all_]. rewrite (proj2 (Z.ltb_lt 0 _)) by lia.
    destruct (DecodeUnsignedLeb128 m p') as [t' p1]. destruct (DecodeUnsignedLeb128 m p1) as [a' p2].
    replace (size - 1) with (Z.of_nat n) by lia.
    rewrite handlers_of_iterator_spec by (cbn; lia). by destruct (parse_rest m n false p2).
Qed.

(** The encoding of a list of handlers that the dex format prescribes. *)
Definition encode_typed (h : Z * Z) : list Z :=
  EncodeUnsignedLeb128 (fst h) ++ EncodeUnsignedLeb128 (snd h).
Definition encode_handlers (typed : list (Z * Z)) (catch_all : option Z) : list Z :=
  let n := Z.of_nat (length typed) in
  EncodeSignedLeb128 (match catch_all with Some _ => - n | None => n end)
  ++ concat (map encode_typed typed)
  ++ match catch_all with Some a => EncodeUnsignedLeb128 a | None => [] end.

Lemma holds_app m p l1 l2 :
  holds m p (l1 ++ l2) <-> holds m p l1 /\ holds m (p + Z.of_nat (length l1)) l2.
Proof.
  revert p. induction l1 as [|b l1 IH]; intros p; cbn [app length].
  - rewrite Z.add_0_r. split; [intros H; split; [intros i Hi; cbn in Hi; lia|done]|by intros [_ H]].
  - rewrite !holds_cons, IH.
    replace (p + 1 + Z.of_nat (length l1)) with (p + Z.of_nat (S (length l1))) by lia. tauto.
Qed.

Definition catch_entry (catch_all : option Z) : list (Z * Z) :=
  match catch_all with Some a => [(kDexNoIndex16, a)] | None => [] end.
Definition tail_bytes (typed : list (Z * Z)) (catch_all : option Z) : list Z :=
  concat (map encode_typed typed)
  ++ match catch_all with Some a => EncodeUnsignedLeb128 a | None => [] end.

Lemma parse_encoded_rest m typed catch_all : forall p,
  Forall (fun h => in_u 16 (fst h) /\ in_u 32 (snd h)) typed ->
  (forall a, catch_all = Some a -> in_u 32 a) ->
  holds m p (tail_bytes typed catch_all) ->
  parse_rest m (length typed) (match catch_all with Some _ => true | None => false end) p
  = (typed ++ catch_entry catch_all, p + Z.of_nat (length (tail_bytes typed catch_all))).
Proof.
  induction typed as [|[t a] typed IH]; intros p Ht Hc Hh.
  - cbn [length parse_rest]. unfold tail_bytes in *. cbn [map concat app] in *.
    destruct catch_all as [a|]; cbn; [|f_equal; lia].
    rewrite (decode_encoded_unsigned m p a) by auto. done.
  - apply Forall_cons in Ht as [[Hut Hua] Ht]. cbn [fst snd] in *.
    unfold tail_bytes in Hh. cbn [map concat] in Hh. unfold encode_typed at 1 in Hh. cbn [fst snd] in Hh.
    rewrite <- !app_assoc in Hh. apply holds_app in Hh as [Ht' Hh]. apply holds_app in Hh as [Ha' Hh].
    cbn [length parse_rest]. rewrite (decode_encoded_unsigned m p t) by (done || (unfold_width; lia)).
    rewrite (decode_encoded_unsigned m _ a) by done. rewrite IH by done.
    rewrite wrapu_small by done. f_equal. unfold tail_bytes. cbn [map concat]. unfold encode_typed at 2.
    cbn [fst snd]. rewrite !length_app. lia.
Qed.

(** C31. The iterator over an encoded list of handlers yields exactly the handlers of the
    list, in order, the catch-all last, and ends just past the encoding, whatever the
    constructor left in [handler_]: for every list that is not empty or has a catch-all. *)
Theorem handler_list_roundtrip m p t0 a0 typed catch_all :
  Forall (fun h => in_u 16 (fst h) /\ in_u 32 (snd h)) typed ->
  (forall a, catch_all = Some a -> in_u 32 a) ->
  Z.of_nat (length typed) < 2 ^ 31 -> typed ++ catch_entry catch_all <> [] ->
  let l := encode_handlers typed catch_all in
  all_handlers (store m p l) (Init (store m p l) t0 a0 p)
  = Some (typed ++ catch_entry catch_all, p + Z.of_nat (length l)).
Proof.
  intros Ht Hc Hn Hne l. pose proof (holds_store m p l) as Hh. set (m' := store m p l) in *.
  set (n := Z.of_nat (length typed)) in *. subst l.
  unfold encode_handlers in Hh. fold n (tail_bytes typed catch_all) in Hh.
  apply holds_app in Hh as [Hs Hr]. apply decode_encoded_signed in Hs as Hd;
    [|destruct catch_all; unfold_width; lia].
  rewrite all_handlers_Init by (rewrite Hd; destruct catch_all; cbn; lia).
  unfold parse_list. rewrite Hd. f_equal.
  apply parse_encoded_rest in Hr; [|done|done].
  assert (length typed <> 0%nat \/ catch_all <> None) as Hlen.
  { destruct catch_all; [by right|left]. rewrite app_nil_r in Hne. by destruct typed. }
  destruct catch_all as [a|].
  - rewrite (proj2 (Z.leb_le _ 0)) by lia. replace (Z.to_nat (Z.abs (- n))) with (length typed) by lia.
    rewrite Hr. f_equal. unfold encode_handlers. fold n (tail_bytes typed (Some a)).
    rewrite length_app. lia.
  - rewrite (proj2 (Z.leb_gt _ 0)) by (destruct Hlen; [lia|done]).
    replace (Z.to_nat (Z.abs n)) with (length typed) by lia.
    rewrite Hr. f_equal. unfold encode_handlers. fold n (tail_bytes typed None).
    rewrite length_app. lia.
Qed.
Lemma handler_list_roundtrip_witness :
  let l := encode_handlers [(3, 200); (7, 5)] (Some 64) in
  all_handlers (store (fun _ => 0) 8 l) (Init (store (fun _ => 0) 8 l) 0 0 8)
  = Some ([(3, 200); (7, 5); (kDexNoIndex16, 64)], 15).
Proof.
  apply (handler_list_roundtrip (fun _ => 0) 8 0 0 [(3, 200); (7, 5)] (Some 64)).
  - repeat constructor; by vm_compute.
  - intros a [= <-]. by vm_compute.
  - by vm_compute.
  - done.
Defined.

(** ** The try item of a position *)
Section TrySearch.
Context (m : bytes) (code_item : Z).
#[local] Abbreviation n_tries := (Raw.tries_size_ m code_item).
#[local] Abbreviation start_of i := (Raw.start_addr_ m (GetTryItems m code_item i)).
#[local] Abbreviation count_of i := (Raw.insn_count_ m (GetTryItems m code_item i)).

(** Try item [i] covers [address]. *)
Definition covers (i address : Z) : Prop := start_of i <= address < start_of i + count_of i.

(** What the dex file verifier checks: ordered, disjoint items that end below [2^32]. *)
Record tries_sorted : Prop := {
  ts_end : forall i, 0 <= i < n_tries ->
    0 <= start_of i /\ 0 <= count_of i /\ start_of i + count_of i < 2 ^ 32;
  ts_order : forall i j, 0 <= i -> i < j -> j < n_tries -> start_of i + count_of i <= start_of j
}.

Lemma find_try_item_spec (Hs : tries_sorted) (address : Z) : forall fuel min max,
  0 <= min -> max < n_tries -> max - min < Z.of_nat fuel ->
  (forall i, 0 <= i < min -> ~ covers i address) ->
  (forall i, max < i < n_tries -> ~ covers i address) ->
  exists r, find_try_item m code_item fuel address min max = Some r
  /\ ((r = -1 /\ forall i, 0 <= i < n_tries -> ~ covers i address)
      \/ (0 <= r < n_tries /\ covers r address)).
Proof.
  induction fuel as [|fuel IH]; intros min max Hmin Hmax Hf Hl Hr; cbn [find_try_item].
  - rewrite (proj2 (Z.leb_gt _ _)) by lia. eexists. split; [done|]. left. split; [done|].
    intros i Hi. destruct (decide (i < min)); [apply Hl; lia|apply Hr; lia].
  - destruct (Z.leb_spec min max) as [Hle|Hgt].
    + set (mid := min + Z.quot (max - min) 2). assert (min <= mid <= max) as Hmid.
      { subst mid. rewrite Z.quot_div_nonneg by lia. dlia. }
      pose proof (ts_end Hs mid ltac:(lia)) as He.
      rewrite (wrapu_small 32 (start_of mid + count_of mid)) by (unfold_width; lia).
      case_bool.
      * apply IH; try done; try lia. intros i Hi [Hc1 Hc2].
        destruct (decide (i = mid)) as [->|]; [lia|].
        assert (start_of mid + count_of mid <= start_of i) by (apply (ts_order Hs); lia). lia.
      * apply IH; try done; try lia. intros i Hi [Hc1 Hc2].
        destruct (decide (i < min)); [destruct (Hl i ltac:(lia)); by split|].
        destruct (decide (i = mid)) as [->|]; [lia|].
        assert (start_of i + count_of i <= start_of mid) by (apply (ts_order Hs); lia). lia.
      * eexists. split; [done|]. right. split; [lia|]. unfold covers. lia.
    + eexists. split; [done|]. left. split; [done|].
      intros i Hi. destruct (decide (i < min)); [apply Hl; lia|apply Hr; lia].
Qed.
End TrySearch.

(** The iterator constructed for a position starts at the handlers of the one item that covers
    the position, and is empty when no item does: the binary search agrees with the shortcuts. *)
Lemma iterator_for_position m code_item t address :
  tries_sorted m code_item -> 0 <= Raw.tries_size_ m code_item ->
  exists it, CatchHandlerIterator_at m t code_item address = Some it
  /\ ((HasNext it = false
       /\ forall i, 0 <= i < Raw.tries_size_ m code_item -> ~ covers m code_item i address)
      \/ exists i, 0 <= i < Raw.tries_size_ m code_item /\ covers m code_item i address
         /\ (forall j, 0 <= j < Raw.tries_size_ m code_item -> covers m code_item j address -> j = i)
         /\ let off := Raw.handler_off_ m (GetTryItems m code_item i) in
            it = InitOffset m code_item t (u32 (-1)) off).
Proof.
  intros Hs Hn. set (n := Raw.tries_size_ m code_item) in *.
  assert (forall i j, 0 <= i < n -> 0 <= j < n -> covers m code_item i address ->
          covers m code_item j address -> j = i) as Huniq.
  { intros i j Hi Hj [] []. destruct (Z.lt_trichotomy i j) as [?|[?|?]]; [|done|].
    - pose proof (ts_order _ _ Hs i j). lia.
    - pose proof (ts_order _ _ Hs j i). lia. }
  unfold CatchHandlerIterator_at. fold n.
  destruct (Z.eqb_spec n 0); [|destruct (Z.eqb_spec n 1)].
  - eexists. split; [done|]. left. split; [done|]. lia.
  - pose proof (ts_end _ _ Hs 0 ltac:(lia)) as He.
    rewrite (wrapu_small 32 (_ + _)) by (unfold_width; lia).
    case_bool; eexists; (split; [done|]);
      try (left; split; [done|]; intros i Hi []; assert (i = 0) as -> by lia; lia).
    right. exists 0. split; [lia|]. assert (covers m code_item 0 address) by (unfold covers; lia).
    split; [done|]. split; [|done]. intros j Hj Hc. by apply Huniq; [lia| | |].
  - unfold FindCatchHandlerOffset, FindTryItem. fold n.
    destruct (find_try_item_spec m code_item Hs address (Z.to_nat n) 0 (n - 1)) as (r & -> & Hr);
      try lia.
    destruct Hr as [[-> Hno]|[Hr Hc]]; [cbn [Z.eqb]; eexists; split; [done|]; by left|].
    rewrite (proj2 (Z.eqb_neq _ _)) by lia. eexists. split; [done|]. right. exists r.
    split; [done|]. split; [done|]. split; [|done]. intros j Hj Hcj. by apply Huniq.
Qed.

(** ** What the dex file verifier guarantees *)
Lemma u16_at_range m p : bytes_ok m -> in_u 16 (u16_at m p).
Proof. intros Hm. pose proof (Hm p). pose proof (Hm (p + 1)). unfold u16_at. unfold_width. lia. Qed.
Lemma u32_at_range m p : bytes_ok m -> in_u 32 (u32_at m p).
Proof.
  intros Hm. pose proof (u16_at_range m p Hm). pose proof (u16_at_range m (p + 2) Hm).
  unfold u32_at. unfold_width. lia.
Qed.
Lemma decode_signed_advance m p : p < snd (DecodeSignedLeb128 m p).
Proof. unfold DecodeSignedLeb128. repeat case_match; cbn; lia. Qed.
Lemma decode_unsigned_advance m p : p < snd (DecodeUnsignedLeb128 m p).
Proof. unfold DecodeUnsignedLeb128. repeat case_match; cbn; lia. Qed.

(** The addresses of [n] consecutive lists. *)
Fixpoint list_starts (m : bytes) (n : nat) (p : Z) : list Z :=
  match n with O => [] | S n => p :: list_starts m n (snd (parse_list m p)) end.

Lemma parse_rest_catch_all m n : forall p,
  parse_rest m n true p
  = let '(l, e) := parse_rest m n false p in
    let '(a, e) := DecodeUnsignedLeb128 m e in (l ++ [(kDexNoIndex16, a)], e).
Proof.
  induction n as [|n IH]; intros p; cbn [parse_rest]; [by destruct (DecodeUnsignedLeb128 m p)|].
  destruct (DecodeUnsignedLeb128 m p) as [t p1]. destruct (DecodeUnsignedLeb128 m p1) as [a p2].
  rewrite IH. destruct (parse_rest m n false p2) as [l e].
  by destruct (DecodeUnsignedLeb128 m e) as [a' e'].
Qed.

Section Accepted.
Context (m : bytes) (Hm : bytes_ok m) (type_ids_size_ code_item : Z).
#[local] Abbreviation insns_size := (Raw.insns_size_in_code_units_ m code_item).
#[local] Abbreviation n_tries := (Raw.tries_size_ m code_item).
#[local] Abbreviation start_of i := (Raw.start_addr_ m (GetTryItems m code_item i)).
#[local] Abbreviation count_of i := (Raw.insn_count_ m (GetTryItems m code_item i)).
#[local] Abbreviation off_of i := (Raw.handler_off_ m (GetTryItems m code_item i)).

(** A handler the verifier accepts: its address is in the code. *)
Definition handler_ok (h : Z * Z) : Prop := 0 <= snd h < insns_size.
(** A typed handler: the type index is in the table, so the 16-bit field holds it and it is
    not the index of the catch-all. *)
Definition typed_ok (h : Z * Z) : Prop :=
  handler_ok h /\ 0 <= fst h < type_ids_size_ /\ fst h <> kDexNoIndex16.

Lemma check_typed_spec (Hids : type_ids_size_ <= kDexNoIndex16) n : forall p e,
  check_typed m type_ids_size_ code_item n p = inr e ->
  snd (parse_rest m n false p) = e /\ p <= e /\ Forall typed_ok (fst (parse_rest m n false p)).
Proof.
  induction n as [|n IH]; intros p e; cbn [check_typed parse_rest].
  { intros [= <-]. split_and!; [done|done|constructor]. }
  pose proof (decode_unsigned_bound m p Hm) as Ht.
  destruct (DecodeUnsignedLeb128 m p) as [t p1].
  pose proof (decode_unsigned_bound m p1 Hm) as Ha.
  destruct (DecodeUnsignedLeb128 m p1) as [a p2]. unfold CheckIndex. rewrite negb_involutive.
  case_bool; try done. intros He. destruct (IH _ _ He) as (H1 & H2 & H3).
  destruct (parse_rest m n false p2) as [l e']. cbn [fst snd] in *.
  split_and!; [done|lia|]. constructor; [|done]. unfold typed_ok, handler_ok, kDexNoIndex16 in *.
  cbn [fst snd]. rewrite wrapu_small by (unfold_width; lia). lia.
Qed.

Lemma check_handler_spec (Hids : type_ids_size_ <= kDexNoIndex16) p e :
  check_handler m type_ids_size_ code_item p = inr e ->
  snd (parse_list m p) = e /\ p <= e /\ Forall handler_ok (fst (parse_list m p))
  /\ -65536 <= fst (DecodeSignedLeb128 m p) <= 65536.
Proof.
  unfold check_handler, parse_list. pose proof (decode_signed_advance m p) as Hp.
  destruct (DecodeSignedLeb128 m p) as [size p1]. cbn [fst snd] in *.
  destruct (_ || _) eqn:Esize; [done|]. apply orb_false_iff in Esize as [?%Z.ltb_ge ?%Z.ltb_ge].
  destruct (check_typed _ _ _ _ p1) as [|p2] eqn:Et; [done|].
  apply check_typed_spec in Et as (H1 & H2 & H3); [|done].
  assert (forall l, Forall typed_ok l -> Forall handler_ok l) as Hweak.
  { intros l Hl. eapply Forall_impl; [exact Hl|]. by intros h []. }
  destruct (size <=? 0).
  - rewrite parse_rest_catch_all. destruct (parse_rest _ _ _ _) as [l e1]. cbn [fst snd] in *. subst e1.
    pose proof (decode_unsigned_bound m p2 Hm) as Ha.
    destruct (DecodeUnsignedLeb128 m p2) as [a p3]. case_bool; [done|]. intros [= <-]. cbn [fst snd].
    split_and!; [done|lia| |done|done]. apply Forall_app. split; [by apply Hweak|].
    constructor; [|constructor]. unfold handler_ok. cbn. lia.
  - intros [= <-]. split_and!; [done|lia|by apply Hweak|done|done].
Qed.

(** The lists at [starts] are well formed and lie between [p] and [e]. *)
Definition lists_ok (starts : list Z) (p e : Z) : Prop :=
  Forall (fun s => p <= s <= e /\ Forall handler_ok (fst (parse_list m s))
                   /\ -65536 <= fst (DecodeSignedLeb128 m s) <= 65536) starts.

Lemma check_handlers_spec (Hids : type_ids_size_ <= kDexNoIndex16) base n : forall p offsets e,
  check_handlers m type_ids_size_ code_item base n p = inr (offsets, e) ->
  offsets = map (fun s => u32 (s - base)) (list_starts m n p) /\ p <= e
  /\ lists_ok (list_starts m n p) p e.
Proof.
  induction n as [|n IH]; intros p offsets e; cbn [check_handlers list_starts].
  { intros [= <- <-]. split_and!; [done|done|constructor]. }
  destruct (check_handler _ _ _ p) as [|p1] eqn:Eh; [done|].
  apply check_handler_spec in Eh as (H1 & H2 & H3 & H4); [|done].
  destruct (check_handlers _ _ _ _ n p1) as [|[offs e1]] eqn:Er; [done|]. intros [= <- <-].
  destruct (IH _ _ _ Er) as (-> & He & Hok). rewrite H1. split_and!; [done|lia|].
  constructor; [split_and!; [lia|lia|done|lia|lia]|].
  eapply Forall_impl; [exact Hok|]. intros s (? & ? & ?). split_and!; try done; lia.
Qed.

Lemma GetTryItems_next i :
  GetTryItems m code_item i + Raw.sizeof_TryItem = GetTryItems m code_item (i + 1).
Proof. unfold GetTryItems, Raw.sizeof_TryItem. lia. Qed.

Lemma check_tries_spec offsets n : forall k last,
  insns_size < 2 ^ 31 ->
  check_tries m code_item n (GetTryItems m code_item k) last offsets = None ->
  forall i, k <= i < k + Z.of_nat n ->
  last <= start_of i /\ start_of i < insns_size /\ start_of i + count_of i <= insns_size
  /\ off_of i ∈ offsets
  /\ (forall j, i < j < k + Z.of_nat n -> start_of i + count_of i <= start_of j).
Proof.
  induction n as [|n IH]; intros k last Hsz; cbn [check_tries]; [lia|].
  destruct (Z.ltb_spec (start_of k) last); [done|].
  destruct (Z.leb_spec insns_size (start_of k)); [done|].
  destruct (existsb _ offsets) eqn:Eo; [|done]. cbn [negb].
  pose proof (u32_at_range m (GetTryItems m code_item k) Hm) as Hst.
  pose proof (u16_at_range m (GetTryItems m code_item k + 4) Hm) as Hcn.
  rewrite (wrapu_small 32 (_ + _)) by (unfold Raw.start_addr_, Raw.insn_count_ in *; unfold_width; lia).
  rewrite GetTryItems_next. case_bool; [done|]. intros Hr i Hi.
  pose proof (IH _ _ Hsz Hr) as Hrest.
  destruct (decide (i = k)) as [->|].
  - split_and!; try lia.
    + apply existsb_exists in Eo as (x & Hx & ->%Z.eqb_eq). by apply list_elem_of_In.
    + intros j Hj. destruct (Hrest j ltac:(lia)) as [? _]. lia.
  - destruct (Hrest i ltac:(lia)) as (? & ? & ? & ? & Ho). split_and!; try done.
    + assert (0 <= count_of k) by (unfold Raw.insn_count_; apply Hcn). lia.
    + intros j Hj. apply Ho. lia.
Qed.
End Accepted.

(** The lists of handlers of a code item, in the order of the file. *)
Definition handlers_size (m : bytes) (code_item : Z) : Z :=
  fst (DecodeUnsignedLeb128 m (GetCatchHandlerData m code_item 0)).
Definition handler_lists (m : bytes) (code_item : Z) : list Z :=
  let '(n, p) := DecodeUnsignedLeb128 m (GetCatchHandlerData m code_item 0) in
  list_starts m (Z.to_nat n) p.

(** A code item whose try items and handlers are consistent. *)
Record checked_item (m : bytes) (code_item : Z) : Prop := {
  ck_size : Raw.insns_size_in_code_units_ m code_item < 2 ^ 31;
  ck_regs : Raw.ins_size_ m code_item <= Raw.registers_size_ m code_item;
  ck_sorted : tries_sorted m code_item;
  ck_offsets : forall i, 0 <= i < Raw.tries_size_ m code_item ->
    let t := GetTryItems m code_item i in
    Raw.start_addr_ m t < Raw.insns_size_in_code_units_ m code_item
    /\ Raw.start_addr_ m t + Raw.insn_count_ m t <= Raw.insns_size_in_code_units_ m code_item
    /\ GetCatchHandlerData m code_item (Raw.handler_off_ m t) ∈ handler_lists m code_item;
  ck_lists : Raw.tries_size_ m code_item <> 0 ->
    Forall (fun s => Forall (handler_ok m code_item) (fst (parse_list m s))
                     /\ -65536 <= fst (DecodeSignedLeb128 m s) <= 65536)
           (handler_lists m code_item)
}.

Lemma CheckListSize_range begin_ size_ start count elem_size :
  CheckListSize begin_ size_ start count elem_size = None ->
  begin_ <= start /\ start + count * elem_size <= begin_ + size_.
Proof.
  unfold CheckListSize. case_match; [done|]. destruct (_ || _) eqn:E; [done|].
  apply orb_false_iff in E as [?%Z.ltb_ge ?%Z.ltb_ge]. done.
Qed.

Section Sound.
Context (m : bytes) (begin_ size_ type_ids_size_ code_item : Z).
Context (Hm : bytes_ok m) (Hsize : size_ < 2 ^ 32) (Hids : type_ids_size_ <= kDexNoIndex16).

Lemma no_tries_checked :
  Raw.insns_size_in_code_units_ m code_item < 2 ^ 31 ->
  Raw.ins_size_ m code_item <= Raw.registers_size_ m code_item ->
  Raw.tries_size_ m code_item = 0 -> checked_item m code_item.
Proof. intros ?? Hn. split; [done|done|split; rewrite Hn; lia|rewrite Hn; lia|done]. Qed.

(** The part after the try items have been found to lie in the file. *)
Lemma handlers_checked p offsets e :
  let base := GetCatchHandlerData m code_item 0 in
  DecodeUnsignedLeb128 m base = (handlers_size m code_item, p) ->
  Raw.insns_size_in_code_units_ m code_item < 2 ^ 31 ->
  Raw.ins_size_ m code_item <= Raw.registers_size_ m code_item ->
  CheckAndGetHandlerOffsets m type_ids_size_ code_item p (handlers_size m code_item)
  = inr (offsets, e) ->
  check_tries m code_item (Z.to_nat (Raw.tries_size_ m code_item)) (GetTryItems m code_item 0) 0 offsets
  = None ->
  e - base < 2 ^ 32 -> checked_item m code_item.
Proof.
  intros base Hp Hsz Hregs Hh Ht He. unfold CheckAndGetHandlerOffsets in Hh.
  apply check_handlers_spec in Hh as (-> & _ & Hl); [|done|done].
  assert (list_starts m (Z.to_nat (handlers_size m code_item)) p = handler_lists m code_item) as El
    by (unfold handler_lists; fold base; by rewrite Hp).
  rewrite El in Ht, Hl. pose proof (decode_unsigned_advance m base) as Hadv. rewrite Hp in Hadv.
  cbn [snd] in Hadv. pose proof (u16_at_range m (code_item + 6) Hm) as Hn.
  fold (Raw.tries_size_ m code_item) in Hn. unfold in_u in Hn.
  pose proof (fun i Hi => check_tries_spec m Hm code_item _ _ 0 0 Hsz Ht i Hi) as Hti.
  rewrite Z2Nat.id, Z.add_0_l in Hti by lia. split; [done|done| | |].
  - split.
    + intros i Hi. destruct (Hti i Hi) as (? & ? & ? & _).
      pose proof (u16_at_range m (GetTryItems m code_item i + 4) Hm) as [? _].
      unfold Raw.insn_count_ in *. lia.
    + intros i j H0 Hij Hj. by apply (Hti i ltac:(lia)).
  - intros i Hi. destruct (Hti i Hi) as (_ & ? & ? & Ho & _). split_and!; [done|done|].
    apply list_elem_of_In, in_map_iff in Ho as (s & Hs & Hin). apply list_elem_of_In in Hin.
    unfold lists_ok in Hl. rewrite Forall_forall in Hl. destruct (Hl s Hin) as ((? & ?) & _).
    fold base in Hs. rewrite wrapu_small in Hs by (unfold_width; lia). cbn in Hs.
    replace (GetCatchHandlerData m code_item _) with s; [done|].
    unfold GetCatchHandlerData in *. fold base. subst base. unfold GetCatchHandlerData in Hs. lia.
  - intros _. eapply Forall_impl; [exact Hl|]. by intros s (_ & ? & ?).
Qed.

Lemma CheckCodeSectionItem_sound e :
  CheckCodeSectionItem m begin_ size_ type_ids_size_ code_item = inr e -> checked_item m code_item.
Proof.
  unfold CheckCodeSectionItem. destruct (CheckIntraCodeItem _ _ _ _ _) as [|e'] eqn:Hc; [done|].
  case_bool; [done|]. intros [= <-]. revert Hc. unfold CheckIntraCodeItem.
  destruct (CheckListSize _ _ code_item 1 _); [done|].
  destruct (Z.ltb_spec (Raw.registers_size_ m code_item) (Raw.ins_size_ m code_item)); [done|].
  destruct (_ && _); [done|].
  destruct (CheckListSize _ _ (Raw.insns_ code_item 0) _ _) eqn:Ei; [done|].
  apply CheckListSize_range in Ei as [Hb He].
  assert (Raw.insns_size_in_code_units_ m code_item < 2 ^ 31) as Hsz by (unfold Raw.insns_ in *; lia).
  destruct (Z.eqb_spec (Raw.tries_size_ m code_item) 0); [intros _; by apply no_tries_checked|].
  destruct (_ && _); [done|].
  destruct (CheckListSize _ _ (GetTryItems m code_item 0) _ _) eqn:Et; [done|].
  apply CheckListSize_range in Et as [Htb Hte].
  destruct (DecodeUnsignedLeb128 _ _) as [hs p] eqn:Eh. destruct (_ || _); [done|].
  assert (hs = handlers_size m code_item) as -> by (unfold handlers_size; by rewrite Eh).
  destruct (CheckAndGetHandlerOffsets _ _ _ _ _) as [|[offsets e1]] eqn:Ec; [done|].
  destruct (check_tries _ _ _ _ _ _) eqn:Ect; [done|]. intros [= <-].
  eapply handlers_checked; try done.
  pose proof (u16_at_range m (code_item + 6) Hm) as Hn. fold (Raw.tries_size_ m code_item) in Hn.
  unfold in_u in Hn. unfold GetCatchHandlerData, GetTryItems, Raw.sizeof_TryItem in *. lia.
Qed.
End Sound.
