(* ===== verification/ExceptionDispatch.v ===== *)
(** * Exceptions: from the dex file to the handler

    Loading a code item for the method verifier, the search for a catch block
    ([ArtMethod::FindCatchBlock] of runtime/art_method.cc and
    [FindNextInstructionFollowingException] of runtime/interpreter/interpreter_common.cc), and
    the theorems that join the dex file verifier, the method verifier and the interpreter. *)

From S2P Require Import Prelude DexOpcodes DexInstruction Floats ShadowFrame InterpreterBase Interpreter VerifierStatic VerifierProps InterpreterSafety VerifiedExecution Leb128 DexCode.

(** ** The code item the method verifier sees *)

(** The handler addresses in the order [ScanTryCatchBlocks] visits them: [n] lists from
    [handlers_ptr], each iterated to its end. *)
Fixpoint scan_handler_lists (m : bytes) (n : nat) (handlers_ptr : Z) : option (list Z) :=
  match n with
  | O => Some []
  | S n =>
      match all_handlers m (Init m 0 0 handlers_ptr) with
      | None => None
      | Some (l, e) =>
          match scan_handler_lists m n e with
          | None => None
          | Some r => Some (map snd l ++ r)
          end
      end
  end.

Definition load_try_item (m : bytes) (code_item i : Z) : TryItem :=
  let t := GetTryItems m code_item i in mkTry (Raw.start_addr_ m t) (Raw.insn_count_ m t).

Definition load_code_item (m : bytes) (code_item : Z) : option CodeItem :=
  let tries_size := Raw.tries_size_ m code_item in
  let handlers :=
    if tries_size =? 0 then Some []
    else
      let '(handlers_size, handlers_ptr) :=
        DecodeUnsignedLeb128 m (GetCatchHandlerData m code_item 0) in
      scan_handler_lists m (Z.to_nat handlers_size) handlers_ptr in
  match handlers with
  | None => None
  | Some handlers =>
      Some (mkCodeItem (Raw.registers_size_ m code_item) (Raw.ins_size_ m code_item)
              (Raw.insns_size_in_code_units_ m code_item)
              (fun i => u16_at m (Raw.insns_ code_item i)) (Raw.insns_ code_item 0)
              (map (load_try_item m code_item) (seqZ 0 tries_size)) handlers)
  end.

(** ** The search for a handler *)

(** What the search asks of the class linker and the heap: resolving a type of the method (0
    when it fails, with an exception pending), where the collector has moved the objects held
    in handles meanwhile, assignability, and the class of an object. *)
Class TypeServices := {
  GetClassFromTypeIndex : state -> Z -> Z * state;
  relocated : state -> Z -> Z -> Z;
  IsAssignableFrom : state -> Z -> Z -> bool;
  GetClass : state -> Z -> Z
}.

Section Search.
Context {TS : TypeServices} (m : bytes) (code_item : Z).

(** What the loop leaves: the address found ([kDexNoIndex] for none), the exception's handle
    and the state. *)
Record search := mkSearch { found_dex_pc : Z; s_exception : Z; s_state : state }.

Fixpoint find_catch_loop (fuel : nat) (st : state) (exception exception_type : Z)
  (it : CatchHandlerIterator) : option search :=
  if HasNext it then
    match fuel with
    | O => None
    | S fuel =>
        let iter_type_idx := type_idx_ it in
        if iter_type_idx =? kDexNoIndex16 then Some (mkSearch (address_ it) exception st)
        else
          let '(iter_exception_type, st1) := GetClassFromTypeIndex st iter_type_idx in
          let exception := relocated st iter_type_idx exception in
          let exception_type := relocated st iter_type_idx exception_type in
          if iter_exception_type =? 0
          then find_catch_loop fuel (set_exception st1 0) exception exception_type (Next m it)
          else if IsAssignableFrom st1 iter_exception_type exception_type
          then Some (mkSearch (address_ it) exception st1)
          else find_catch_loop fuel st1 exception exception_type (Next m it)
    end
  else Some (mkSearch kDexNoIndex exception st).

(** [FindCatchBlock]: the address, [has_no_move_exception] (false if nothing is written to it)
    and the state.  [uninit] is the uninitialised field of the iterator. *)
Definition FindCatchBlock (uninit : Z) (st : state) (exception_type dex_pc : Z)
  : option (Z * bool * state) :=
  let exception := exception st in
  let st := set_exception st 0 in
  match CatchHandlerIterator_at m uninit code_item dex_pc with
  | None => None
  | Some it =>
      match find_catch_loop (Z.to_nat (remaining_count_ it) + 2) st exception exception_type it with
      | None => None
      | Some r =>
          let insns := fun i => u16_at m (Raw.insns_ code_item i) in
          let has_no_move_exception :=
            if found_dex_pc r =? kDexNoIndex then false
            else negb (bool_decide (opcode insns (found_dex_pc r) = MOVE_EXCEPTION)) in
          let st := s_state r in
          let st := if s_exception r =? 0 then st else set_exception st (s_exception r) in
          Some (found_dex_pc r, has_no_move_exception, st)
      end
  end.

(** Without instrumentation.  A search out of fuel, which does not occur on checked code, is
    no handler. *)
Definition FindNextInstructionFollowingException (uninit : Z) (st : state) (dex_pc : Z)
  : option Z * state :=
  match FindCatchBlock uninit st (GetClass st (exception st)) dex_pc with
  | None => (None, st)
  | Some (found, clear_exception, st) =>
      let st := if clear_exception then set_exception st 0 else st in
      (if found =? kDexNoIndex then None else Some found, st)
  end.

(** The runtime whose exception dispatch is this one. *)
Definition with_dispatch (uninit : Z) (RS : RuntimeServices) : RuntimeServices := {|
  Throw := @Throw RS;
  AllowThreadSuspension := @AllowThreadSuspension RS;
  ResolveString := @ResolveString RS;
  ResolveVerifyAndClinit := @ResolveVerifyAndClinit RS;
  InstanceOf := @InstanceOf RS;
  MonitorEnter := @MonitorEnter RS;
  MonitorExit := @MonitorExit RS;
  AllocObject := @AllocObject RS;
  AllocArrayFromCode := @AllocArrayFromCode RS;
  DoFilledNewArray := @DoFilledNewArray RS;
  Assignable := @Assignable RS;
  DoFieldGet := @DoFieldGet RS;
  DoIGetQuick := @DoIGetQuick RS;
  DoFieldPut := @DoFieldPut RS;
  DoIPutQuick := @DoIPutQuick RS;
  DoInvoke := @DoInvoke RS;
  DoInvokeVirtualQuick := @DoInvokeVirtualQuick RS;
  lambdas_enabled := @lambdas_enabled RS;
  DoLambda := @DoLambda RS;
  FindHandler := FindNextInstructionFollowingException uninit
|}.
End Search.

(** ** The abstract search

    Over the list of handlers: the first one that is a catch-all or whose class, if it
    resolves, the exception is an instance of. *)
Section Abstract.
Context {TS : TypeServices}.

Fixpoint select (st : state) (exception exception_type : Z) (l : list (Z * Z)) : search :=
  match l with
  | [] => mkSearch kDexNoIndex exception st
  | (t, a) :: l =>
      if t =? kDexNoIndex16 then mkSearch a exception st
      else
        let '(c, st1) := GetClassFromTypeIndex st t in
        let exception := relocated st t exception in
        let exception_type := relocated st t exception_type in
        if c =? 0 then select (set_exception st1 0) exception exception_type l
        else if IsAssignableFrom st1 c exception_type then mkSearch a exception st1
        else select st1 exception exception_type l
  end.

Lemma find_catch_loop_select m fuel : forall st ex ty it l e,
  handlers_of_iterator fuel m it = Some (l, e) ->
  find_catch_loop m fuel st ex ty it = Some (select st ex ty l).
Proof.
  induction fuel as [|fuel IH]; intros st ex ty it l e; cbn [handlers_of_iterator find_catch_loop].
  - destruct (HasNext it); [done|]. by intros [= <- <-].
  - destruct (HasNext it); [|by intros [= <- <-]].
    destruct (handlers_of_iterator fuel m (Next m it)) as [[l' e']|] eqn:El; [|done].
    intros [= <- <-]. cbn [select]. case_match; [done|].
    destruct (GetClassFromTypeIndex st (type_idx_ it)) as [c st1].
    repeat (case_match; [by eauto|]). by eauto.
Qed.

(** An address found is the address of one of the handlers. *)
Lemma select_found l : forall st ex ty,
  found_dex_pc (select st ex ty l) <> kDexNoIndex ->
  found_dex_pc (select st ex ty l) ∈ map snd l.
Proof.
  induction l as [|[t a] l IH]; intros st ex ty; cbn [select map]; [done|].
  case_match; [by left|]. destruct (GetClassFromTypeIndex st t) as [c st1].
  repeat case_match; intros; first [by left | by right; apply IH].
Qed.
End Abstract.

(** ** Checked code items *)

(** The handlers of the try item that covers a position, by a linear search. *)
Definition covers_b (m : bytes) (code_item address i : Z) : bool :=
  let t := GetTryItems m code_item i in
  (Raw.start_addr_ m t <=? address) && (address <? Raw.start_addr_ m t + Raw.insn_count_ m t).
Definition handlers_at (m : bytes) (code_item address : Z) : list (Z * Z) :=
  match find (covers_b m code_item address) (seqZ 0 (Raw.tries_size_ m code_item)) with
  | Some i =>
      let off := Raw.handler_off_ m (GetTryItems m code_item i) in
      fst (parse_list m (GetCatchHandlerData m code_item off))
  | None => []
  end.

Lemma covers_b_spec m code_item address i :
  covers_b m code_item address i = true <-> covers m code_item i address.
Proof. unfold covers_b, covers. rewrite andb_true_iff, Z.leb_le, Z.ltb_lt. done. Qed.

Section Checked.
Context (m : bytes) (code_item : Z) (Hm : bytes_ok m) (Hc : checked_item m code_item).
#[local] Abbreviation n_tries := (Raw.tries_size_ m code_item).

Lemma n_tries_range : 0 <= n_tries < 2 ^ 16.
Proof. apply (u16_at_range m (code_item + 6) Hm). Qed.
Lemma off_nonneg t : 0 <= Raw.handler_off_ m t.
Proof. apply (u16_at_range m (t + 6) Hm). Qed.

Lemma handlers_at_covering i address :
  0 <= i < n_tries -> covers m code_item i address ->
  (forall j, 0 <= j < n_tries -> covers m code_item j address -> j = i) ->
  handlers_at m code_item address
  = fst (parse_list m (GetCatchHandlerData m code_item (Raw.handler_off_ m (GetTryItems m code_item i)))).
Proof.
  intros Hi Hcov Hu. unfold handlers_at. destruct (find _ _) as [j|] eqn:Ef.
  - apply find_some in Ef as [Hin Hj%covers_b_spec]. apply list_elem_of_In, elem_of_seqZ in Hin.
    by rewrite (Hu j ltac:(lia) Hj).
  - exfalso. apply covers_b_spec in Hcov. rewrite (find_none _ _ Ef i) in Hcov; [done|].
    apply list_elem_of_In, elem_of_seqZ. lia.
Qed.

Lemma handlers_at_none address :
  (forall i, 0 <= i < n_tries -> ~ covers m code_item i address) -> handlers_at m code_item address = [].
Proof.
  intros Hno. unfold handlers_at. destruct (find _ _) as [j|] eqn:Ef; [|done].
  apply find_some in Ef as [Hin Hj%covers_b_spec]. apply list_elem_of_In, elem_of_seqZ in Hin.
  by destruct (Hno j ltac:(lia)).
Qed.

(** The constructor for a position iterates over these handlers. *)
Lemma iterator_at_handlers uninit address :
  exists it e, CatchHandlerIterator_at m uninit code_item address = Some it
  /\ all_handlers m it = Some (handlers_at m code_item address, e).
Proof.
  pose proof n_tries_range.
  destruct (iterator_for_position m code_item uninit address (ck_sorted _ _ Hc) ltac:(lia))
    as (it & Hit & [[Hn Hno]|(i & Hi & Hcov & Hu & ->)]).
  - exists it, (current_data_ it). split; [done|]. rewrite handlers_at_none by done.
    unfold all_handlers. destruct (Z.to_nat _ + 2)%nat; cbn [handlers_of_iterator]; by rewrite Hn.
  - eexists _, _. split; [exact Hit|]. rewrite (handlers_at_covering i) by done. unfold InitOffset.
    rewrite (proj2 (Z.leb_le _ _)) by apply off_nonneg.
    pose proof (ck_offsets _ _ Hc i Hi) as (_ & _ & Hin).
    pose proof (ck_lists _ _ Hc ltac:(lia)) as Hl. rewrite Forall_forall in Hl.
    destruct (Hl _ Hin) as (_ & Hs). rewrite all_handlers_Init by lia. apply f_equal, surjective_pairing.
Qed.

Lemma scan_handler_lists_spec n : forall p,
  Forall (fun s => -65536 <= fst (DecodeSignedLeb128 m s) <= 65536) (list_starts m n p) ->
  scan_handler_lists m n p = Some (concat (map (fun s => map snd (fst (parse_list m s))) (list_starts m n p))).
Proof.
  induction n as [|n IH]; intros p Hs; cbn [scan_handler_lists list_starts map concat]; [done|].
  cbn [list_starts] in Hs. apply Forall_cons in Hs as [H1 Hs].
  rewrite all_handlers_Init by lia. destruct (parse_list m p) as [l e]. cbn [fst snd] in *.
  by rewrite (IH e Hs).
Qed.

(** The addresses the method verifier visits. *)
Definition scanned : list Z :=
  if n_tries =? 0 then []
  else concat (map (fun s => map snd (fst (parse_list m s))) (handler_lists m code_item)).

Lemma load_checked :
  exists c, load_code_item m code_item = Some c
  /\ registers_size_ c = Raw.registers_size_ m code_item
  /\ insns_size_in_code_units_ c = Raw.insns_size_in_code_units_ m code_item
  /\ (forall i, insns_ c i = u16_at m (Raw.insns_ code_item i))
  /\ tries_ c = map (load_try_item m code_item) (seqZ 0 n_tries)
  /\ handler_addresses c = scanned.
Proof.
  unfold load_code_item, scanned. pose proof (ck_lists _ _ Hc) as Hl.
  destruct (Z.eqb_spec n_tries 0); [by eexists|]. specialize (Hl ltac:(done)). unfold handler_lists in *.
  destruct (DecodeUnsignedLeb128 m _) as [hs p].
  rewrite scan_handler_lists_spec; [by eexists|]. eapply Forall_impl; [exact Hl|]. by intros s [].
Qed.

Lemma load_code_item_ok c :
  load_code_item m code_item = Some c -> 0 < Raw.insns_size_in_code_units_ m code_item ->
  code_item_ok c.
Proof.
  intros Hl H0. destruct load_checked as (c' & Hl' & Hr & Hz & Hu & _). simplify_eq. split.
  - intros i. rewrite Hu. by apply u16_at_range.
  - rewrite Hr. by apply u16_at_range.
  - rewrite Hz. pose proof (ck_size _ _ Hc). lia.
Qed.

Lemma scanned_in_range :
  Forall (fun h => 0 <= h < Raw.insns_size_in_code_units_ m code_item) scanned.
Proof.
  unfold scanned. destruct (Z.eqb_spec n_tries 0); [constructor|].
  pose proof (ck_lists _ _ Hc ltac:(done)) as Hl. apply Forall_concat, Forall_map.
  eapply Forall_impl; [exact Hl|]. intros s [Hok _]. apply Forall_map. exact Hok.
Qed.

(** Every handler a search can find has been visited. *)
Lemma handlers_at_scanned address h :
  h ∈ map snd (handlers_at m code_item address) -> n_tries <> 0 /\ h ∈ scanned.
Proof.
  unfold handlers_at. destruct (find _ _) as [i|] eqn:Ef; [|by intros ?%elem_of_nil].
  apply find_some in Ef as [Hin _]. apply list_elem_of_In, elem_of_seqZ in Hin. intros Hh.
  split; [lia|]. unfold scanned. rewrite (proj2 (Z.eqb_neq _ _)) by lia.
  pose proof (ck_offsets _ _ Hc i ltac:(lia)) as (_ & _ & Hl).
  apply list_elem_of_In, in_concat. eexists. split; [|by apply list_elem_of_In].
  apply in_map_iff. eexists. split; [done|]. by apply list_elem_of_In.
Qed.

Lemma handlers_at_range address h :
  h ∈ map snd (handlers_at m code_item address) ->
  0 <= h < Raw.insns_size_in_code_units_ m code_item.
Proof.
  intros [_ Hh]%handlers_at_scanned. pose proof scanned_in_range as Hr. rewrite Forall_forall in Hr.
  by apply Hr.
Qed.
End Checked.

(** ** A sample method with two try blocks *)
Module SampleFile.
(** [const/4 v0, #3; throw v0; move-exception v0; return v0], the first two units each in a try
    block; the first catches type 0, the second everything, both at 2. *)
Definition item : list Z :=
  [1; 0; 0; 0; 0; 0; 2; 0; 0; 0; 0; 0; 4; 0; 0; 0;
   0x12; 0x30; 0x27; 0; 0x0d; 0; 0x0f; 0;
   0; 0; 0; 0; 1; 0; 1; 0; 1; 0; 0; 0; 1; 0; 4; 0;
   2; 1; 0; 2; 0; 2].
Definition file : bytes := store (fun _ => 0) 104 item.

Lemma file_ok : bytes_ok file.
Proof.
  apply store_ok; [by intros|]. apply Forall_forall. intros b Hb. unfold item in Hb.
  repeat (apply elem_of_cons in Hb as [->|Hb]; [by vm_compute|]). by apply elem_of_nil in Hb.
Qed.

(** Type 0 resolves, every class is assignable, nothing moves. *)
#[global] Instance types : TypeServices := {|
  GetClassFromTypeIndex st _ := (1, st);
  relocated _ _ r := r;
  IsAssignableFrom _ _ _ := true;
  GetClass _ _ := 1
|}.
Definition thrown : state := set_exception (Sample.start 1) 7.

Definition method : CodeItem := default Sample.method (load_code_item file 104).
Definition verified : Verifier := Sample.verified_of method.

(** The file cut after the try items, and the same file with another byte after its end. *)
Definition cut : bytes := store file 144 [0].

(** A code item with no code unit. *)
Definition empty : bytes := fun _ => 0.

Lemma cut_ok : bytes_ok cut.
Proof. apply store_ok; [apply file_ok|]. repeat constructor; by vm_compute. Qed.

Example file_accepted : CheckCodeSectionItem file 100 50 1 104 = inr 150.
Proof. vm_compute. reflexivity. Qed.
Example dispatch_ex :
  fst (FindNextInstructionFollowingException file 104 0 thrown 0) = Some 2
  /\ fst (FindNextInstructionFollowingException file 104 0 thrown 3) = None.
Proof. vm_compute. done. Qed.
End SampleFile.

(** ** Theorems *)
Section Theorems.
Context (m : bytes) (begin_ size_ type_ids_size_ code_item e : Z).

(** C32. In a code item the dex file verifier accepts, the iterator constructed for a position
    enumerates exactly the handlers of the try item that covers it, which a linear search over
    the items finds; the binary search always ends and the shortcuts for no or one try item
    agree with it. *)
Theorem handlers_of_position uninit address :
  bytes_ok m -> size_ < 2 ^ 32 -> type_ids_size_ <= kDexNoIndex16 ->
  CheckCodeSectionItem m begin_ size_ type_ids_size_ code_item = inr e ->
  exists it e', CatchHandlerIterator_at m uninit code_item address = Some it
  /\ all_handlers m it = Some (handlers_at m code_item address, e').
Proof.
  intros Hm Hs Hi Hc. apply iterator_at_handlers; [done|].
  by eapply CheckCodeSectionItem_sound.
Qed.

(** C10. A code item the dex file verifier accepts, with code in it, loads as a method on which
    the method verifier's static pass is defined: every handler address the pass indexes
    [insn_flags_] with lies in the code, whether the pass accepts the method or not. *)
Theorem dex_check_protects_verifier df aot load soft dump v0 :
  bytes_ok m -> size_ < 2 ^ 32 -> type_ids_size_ <= kDexNoIndex16 ->
  CheckCodeSectionItem m begin_ size_ type_ids_size_ code_item = inr e ->
  0 < Raw.insns_size_in_code_units_ m code_item ->
  exists c, load_code_item m code_item = Some c /\ code_item_ok c
  /\ is_Some (VerifyStatic c df aot load soft dump v0).
Proof.
  intros Hm Hs Hi Hc H0. apply CheckCodeSectionItem_sound in Hc; [|done|done|done].
  destruct (load_checked m code_item Hc) as (c & Hl & Hr & Hz & Hu & Ht & Hh).
  exists c. split; [done|].
  assert (code_item_ok c) as Hok by (by eapply load_code_item_ok). split; [done|]. apply VerifyStatic_defined; [done|]. split.
  - rewrite Ht. apply Forall_map, Forall_forall. intros i _.
    apply (u32_at_range m (GetTryItems m code_item i) Hm).
  - rewrite Hh, Hz. by apply scanned_in_range.
Qed.

(** C33. Finding a catch block in accepted code is the abstract search over the handlers of
    the position: the first catch-all or matching class, classes that do not resolve being
    skipped with their error cleared.  The search ends, the pending exception is put back
    (where the collector has moved it), and [has_no_move_exception] tells whether the handler
    starts with another instruction. *)
Theorem FindCatchBlock_selects {TS : TypeServices} uninit st exception_type dex_pc :
  bytes_ok m -> size_ < 2 ^ 32 -> type_ids_size_ <= kDexNoIndex16 ->
  CheckCodeSectionItem m begin_ size_ type_ids_size_ code_item = inr e ->
  let r := select (set_exception st 0) (exception st) exception_type
             (handlers_at m code_item dex_pc) in
  let insns := fun i => u16_at m (Raw.insns_ code_item i) in
  FindCatchBlock m code_item uninit st exception_type dex_pc
  = Some (found_dex_pc r,
          negb (found_dex_pc r =? kDexNoIndex)
          && negb (bool_decide (opcode insns (found_dex_pc r) = MOVE_EXCEPTION)),
          if s_exception r =? 0 then s_state r else set_exception (s_state r) (s_exception r)).
Proof.
  intros Hm Hs Hi Hc r insns. apply CheckCodeSectionItem_sound in Hc; [|done|done|done].
  destruct (iterator_at_handlers m code_item Hm Hc uninit dex_pc) as (it & e' & Hit & Hall).
  unfold FindCatchBlock. rewrite Hit. unfold all_handlers in Hall.
  rewrite (find_catch_loop_select m _ _ _ _ _ _ _ Hall). fold r.
  by destruct (found_dex_pc r =? kDexNoIndex).
Qed.
End Theorems.

Lemma handlers_of_position_witness :
  exists it e', CatchHandlerIterator_at SampleFile.file 0 104 1 = Some it
  /\ all_handlers SampleFile.file it = Some ([(kDexNoIndex16, 2)], e').
Proof.
  apply (handlers_of_position SampleFile.file 100 50 1 104 150 0 1).
  - apply SampleFile.file_ok.
  - by vm_compute.
  - by vm_compute.
  - vm_compute. reflexivity.
Defined.
Lemma dex_check_protects_verifier_witness :
  exists c, load_code_item SampleFile.file 104 = Some c /\ code_item_ok c
  /\ is_Some (VerifyStatic c Sample.dex false true true false Sample.verifier).
Proof.
  apply (dex_check_protects_verifier SampleFile.file 100 50 1 104 150).
  - apply SampleFile.file_ok.
  - by vm_compute.
  - by vm_compute.
  - vm_compute. reflexivity.
  - by vm_compute.
Defined.
Lemma FindCatchBlock_selects_witness :
  FindCatchBlock SampleFile.file 104 0 SampleFile.thrown 1 0
  = Some (2, false, SampleFile.thrown).
Proof.
  etransitivity;
    [apply (FindCatchBlock_selects SampleFile.file 100 50 1 104 150 0 SampleFile.thrown 1 0)|].
  - apply SampleFile.file_ok.
  - by vm_compute.
  - by vm_compute.
  - vm_compute. reflexivity.
  - vm_compute. reflexivity.
Defined.

(** ** The dispatch discharges the interface of the interpreter *)
Section Dispatch.
Context {RS : RuntimeServices} {TS : TypeServices} (m : bytes) (code_item n : Z) (P : Z -> Prop).
Context (Hm : bytes_ok m) (Hc : checked_item m code_item).
(** Resolving a class runs code, which keeps this frame. *)
Context (Hclass : forall st t, good n st -> good n (snd (GetClassFromTypeIndex st t))).

Lemma select_good l : forall st ex ty, good n st -> good n (s_state (select st ex ty l)).
Proof.
  induction l as [|[t a] l IH]; intros st ex ty Hst; cbn [select]; [done|]. case_match; [done|].
  pose proof (Hclass st t Hst) as Hg. destruct (GetClassFromTypeIndex st t) as [c st1].
  repeat case_match; try apply IH; done.
Qed.

(** The dispatch in terms of the abstract search. *)
Lemma dispatch_select uninit st pc :
  let r := select (set_exception st 0) (exception st) (GetClass st (exception st))
             (handlers_at m code_item pc) in
  let '(h, st') := FindNextInstructionFollowingException m code_item uninit st pc in
  h = (if found_dex_pc r =? kDexNoIndex then None else Some (found_dex_pc r))
  /\ frame st' = frame (s_state r).
Proof.
  destruct (iterator_at_handlers m code_item Hm Hc uninit pc) as (it & e' & Hit & Hall).
  unfold FindNextInstructionFollowingException, FindCatchBlock. rewrite Hit.
  unfold all_handlers in Hall. rewrite (find_catch_loop_select m _ _ _ _ _ _ _ Hall).
  cbn. split; [done|]. by repeat case_match.
Qed.

Lemma dispatch_safe uninit c handlers :
  load_code_item m code_item = Some c -> ServicesSafe (RS := RS) n P handlers ->
  ServicesSafe (RS := with_dispatch m code_item uninit RS) n P (handlers_of c).
Proof.
  intros Hl Hs. destruct Hs. constructor; try assumption.
  - intros st pc Hst. change (FindHandler st pc) with (FindNextInstructionFollowingException m code_item uninit st pc).
    pose proof (dispatch_select uninit st pc) as Hd.
    destruct (FindNextInstructionFollowingException _ _ _ _ _) as [h st']. destruct Hd as [_ Hf].
    unfold good. cbn [snd]. rewrite Hf. by apply (select_good _ (set_exception st 0)).
  - intros st pc h. change (FindHandler st pc) with (FindNextInstructionFollowingException m code_item uninit st pc).
    pose proof (dispatch_select uninit st pc) as Hd.
    destruct (FindNextInstructionFollowingException _ _ _ _ _) as [h' st']. destruct Hd as [-> _].
    cbn [fst]. case_bool; [done|]. intros [= <-].
    destruct (load_checked m code_item Hc) as (c' & Hl' & _ & _ & _ & Ht & Hh). simplify_eq.
    apply select_found, handlers_at_scanned in n0 as [Hn Hin]; [|done].
    unfold handlers_of. rewrite Ht, Hh. pose proof (n_tries_range m code_item Hm).
    by rewrite seqZ_cons by lia.
Qed.
End Dispatch.

Section VerifiedDispatch.
Context (m : bytes) (begin_ size_ type_ids_size_ code_item e : Z).
Context (df : DexFile) (aot load soft dump : bool) (v0 v : Verifier).

(** C7. Let the dex file verifier accept a code item and the static pass of the method
    verifier accept the method loaded from it.  Then the interpreter with the real exception
    dispatch is safe on the method: one iteration at any instruction keeps the frame well
    formed, and an exception continues at a handler that is the start of an instruction.  No
    assumption on the dispatch is left. *)
Theorem verified_dispatch {RS : RuntimeServices} {TS : TypeServices} uninit c st pc :
  bytes_ok m -> size_ < 2 ^ 32 -> type_ids_size_ <= kDexNoIndex16 ->
  CheckCodeSectionItem m begin_ size_ type_ids_size_ code_item = inr e ->
  0 < Raw.insns_size_in_code_units_ m code_item ->
  load_code_item m code_item = Some c ->
  VerifyStatic c df aot load soft dump v0 = Some (true, v) ->
  (exists hs, ServicesSafe (registers_size_ c) (fun pc => marked v pc = true) hs) ->
  (forall st t, good (registers_size_ c) st ->
    good (registers_size_ c) (snd (GetClassFromTypeIndex st t))) ->
  marked v pc = true -> is_payload c pc = false -> good (registers_size_ c) st ->
  match @iterate (with_dispatch m code_item uninit RS) (insns_ c) st pc with
  | Continue st' pc' =>
      good (registers_size_ c) st'
      /\ (marked v pc' = true \/ pc' = insns_size_in_code_units_ c)
  | Exit st' _ => good (registers_size_ c) st'
  | Pending _ | Unexpected => False
  | Undefined => array_mismatch (insns_ c) pc st
  end.
Proof.
  intros Hm Hs Hi Hc H0 Hl Hv [hs Hlaws] Hcl Hpc Hp Hst.
  apply CheckCodeSectionItem_sound in Hc; [|done|done|done].
  assert (code_item_ok c) as Hok by (by eapply load_code_item_ok).
  apply VerifyStatic_sound in Hv; [|done].
  pose proof (dispatch_safe m code_item _ _ Hm Hc Hcl uninit c hs Hl Hlaws) as Hsafe.
  exact (iterate_fine (RS := with_dispatch m code_item uninit RS) c Hok v Hv st pc Hpc Hp Hst).
Qed.
End VerifiedDispatch.

Lemma verified_dispatch_witness :
  match @iterate (with_dispatch SampleFile.file 104 0 Sample.services) (insns_ SampleFile.method)
          (Sample.start 1) 1 with
  | Continue st' pc' => good 1 st' /\ (marked SampleFile.verified pc' = true \/ pc' = 4)
  | Exit st' _ => good 1 st'
  | Pending _ | Unexpected => False
  | Undefined => array_mismatch (insns_ SampleFile.method) 1 (Sample.start 1)
  end.
Proof.
  apply (verified_dispatch SampleFile.file 100 50 1 104 150 Sample.dex false true true false
           Sample.verifier SampleFile.verified 0 SampleFile.method (Sample.start 1) 1).
  - apply SampleFile.file_ok.
  - by vm_compute.
  - by vm_compute.
  - vm_compute. reflexivity.
  - by vm_compute.
  - vm_compute. reflexivity.
  - vm_compute. reflexivity.
  - exists []. apply Sample.services_safe.
  - done.
  - vm_compute. reflexivity.
  - vm_compute. reflexivity.
  - by apply Sample.start_good.
Defined.

(** ** Gaps between the two verifiers *)

(** The dex file verifier decodes the lists of handlers without checking that they end in
    the file: on two memories that agree on every byte of the file, [CheckIntraCodeItem]
    accepts the item in one, past the end of the file, and rejects it in the other.  The end
    is only checked afterwards ([CheckIntraSectionIterate]), when the bytes have been read. *)
Theorem handlers_read_past_end :
  exists m1 m2 begin_ size_ type_ids_size_ code_item e,
    bytes_ok m1 /\ bytes_ok m2
    /\ (forall p, begin_ <= p < begin_ + size_ -> m1 p = m2 p)
    /\ CheckIntraCodeItem m1 begin_ size_ type_ids_size_ code_item = inr e
    /\ begin_ + size_ < e
    /\ CheckIntraCodeItem m2 begin_ size_ type_ids_size_ code_item = inl InvalidHandlersSize
    /\ CheckCodeSectionItem m1 begin_ size_ type_ids_size_ code_item = inl EndsOutOfBounds.
Proof.
  exists SampleFile.file, SampleFile.cut, 100, 44, 1, 104, 150.
  split; [apply SampleFile.file_ok|]. split; [apply SampleFile.cut_ok|]. split.
  { intros p Hp. unfold SampleFile.cut. rewrite store_other by (cbn; lia). done. }
  vm_compute. done.
Qed.

(** Neither verifier rejects a code item without code: the dex file verifier accepts it,
    and the static pass then marks instruction 0 in an array of no flags. *)
Theorem empty_code_out_of_range :
  exists m begin_ size_ type_ids_size_ code_item e c,
    bytes_ok m
    /\ CheckCodeSectionItem m begin_ size_ type_ids_size_ code_item = inr e
    /\ load_code_item m code_item = Some c
    /\ forall df aot load soft dump v, VerifyStatic c df aot load soft dump v = None.
Proof.
  exists SampleFile.empty, 100, 50, 1, 104, 120, (default Sample.method (load_code_item SampleFile.empty 104)).
  split; [intros i; by vm_compute|]. split; [vm_compute; reflexivity|].
  split; [vm_compute; reflexivity|]. intros. vm_compute. reflexivity.
Qed.
