(* ===== verification/LockWord.v ===== *)
(** * Lock words

    runtime/lock_word.h and lock_word-inl.h: the 32-bit word of each object that encodes an
    unlocked object, a thin lock, a monitor, an identity hash code or a forwarding address,
    with two bits of read barrier state.  A lock word is the integer [value_]. *)

From S2P Require Import Prelude.

Module LockWord.
Definition kStateSize : Z := 2.
Definition kReadBarrierStateSize : Z := 2.
Definition kThinLockOwnerSize : Z := 16.
Definition kThinLockCountSize : Z := 32 - kThinLockOwnerSize - kStateSize - kReadBarrierStateSize.
Definition kThinLockOwnerShift : Z := 0.
Definition kThinLockOwnerMask : Z := Z.shiftl 1 kThinLockOwnerSize - 1.
Definition kThinLockMaxOwner : Z := kThinLockOwnerMask.
Definition kThinLockCountShift : Z := kThinLockOwnerSize + kThinLockOwnerShift.
Definition kThinLockCountMask : Z := Z.shiftl 1 kThinLockCountSize - 1.
Definition kThinLockMaxCount : Z := kThinLockCountMask.
Definition kStateShift : Z := kReadBarrierStateSize + kThinLockCountSize + kThinLockCountShift.
Definition kStateMask : Z := Z.shiftl 1 kStateSize - 1.
Definition kStateThinOrUnlocked : Z := 0.
Definition kStateFat : Z := 1.
Definition kStateHash : Z := 2.
Definition kStateForwardingAddress : Z := 3.
Definition kReadBarrierStateShift : Z := kThinLockCountSize + kThinLockCountShift.
Definition kReadBarrierStateMask : Z := Z.shiftl 1 kReadBarrierStateSize - 1.
Definition kReadBarrierStateMaskShifted : Z := Z.shiftl kReadBarrierStateMask kReadBarrierStateShift.
Definition kReadBarrierStateMaskShiftedToggled : Z := Z.lnot kReadBarrierStateMaskShifted.
Definition kHashShift : Z := 0.
Definition kHashSize : Z := 32 - kStateSize - kReadBarrierStateSize.
Definition kHashMask : Z := Z.shiftl 1 kHashSize - 1.
Definition kMaxHash : Z := kHashMask.
Definition kMonitorIdShift : Z := kHashShift.
Definition kMonitorIdMask : Z := kHashMask.
Definition kMaxMonitorId : Z := kMaxHash.

(** The arguments of the constructors are checked: [None] is an abort. *)
Definition FromThinLockId (thread_id count rb_state : Z) : option Z :=
  if (kThinLockMaxOwner <? thread_id) || (kThinLockMaxCount <? count) then None
  else Some (u32 (Z.lor (Z.lor (Z.lor (Z.shiftl thread_id kThinLockOwnerShift)
                                      (Z.shiftl count kThinLockCountShift))
                               (Z.shiftl rb_state kReadBarrierStateShift))
                        (Z.shiftl kStateThinOrUnlocked kStateShift))).
Definition FromForwardingAddress (target : Z) : Z :=
  u32 (Z.lor (Z.shiftr target kStateSize) (Z.shiftl kStateForwardingAddress kStateShift)).
Definition FromHashCode (hash_code rb_state : Z) : option Z :=
  if kMaxHash <? hash_code then None
  else Some (u32 (Z.lor (Z.lor (Z.shiftl hash_code kHashShift)
                               (Z.shiftl rb_state kReadBarrierStateShift))
                        (Z.shiftl kStateHash kStateShift))).
Definition FromDefault (rb_state : Z) : Z := u32 (Z.shiftl rb_state kReadBarrierStateShift).
Definition Default : Z := 0.
(** [LockWord(mon, rb_state)]. *)
Definition FromMonitor (monitor_id rb_state : Z) : Z :=
  u32 (Z.lor (Z.lor monitor_id (Z.shiftl rb_state kReadBarrierStateShift))
             (Z.shiftl kStateFat kStateShift)).
Definition IsDefault (lw : Z) : bool := Default =? lw.

Inductive LockState := kUnlocked | kThinLocked | kFatLocked | kHashCode | kForwardingAddress.
#[global] Instance LockState_eq_dec : EqDecision LockState.
Proof. solve_decision. Defined.

Section State.
(** [kUseReadBarrier] is a constant of the build. *)
Context (kUseReadBarrier : bool).
Definition GetState (value_ : Z) : LockState :=
  if (negb kUseReadBarrier && (value_ =? 0))
     || (kUseReadBarrier && (Z.land value_ kReadBarrierStateMaskShiftedToggled =? 0))
  then kUnlocked
  else
    let internal_state := Z.land (Z.shiftr value_ kStateShift) kStateMask in
    if internal_state =? kStateThinOrUnlocked then kThinLocked
    else if internal_state =? kStateHash then kHashCode
    else if internal_state =? kStateForwardingAddress then kForwardingAddress
    else kFatLocked.
End State.

Definition ReadBarrierState (value_ : Z) : Z :=
  Z.land (Z.shiftr value_ kReadBarrierStateShift) kReadBarrierStateMask.
Definition SetReadBarrierState (value_ rb_state : Z) : Z :=
  let value_ := Z.land value_ (u32 (Z.lnot (Z.shiftl kReadBarrierStateMask kReadBarrierStateShift))) in
  Z.lor value_ (Z.shiftl (Z.land rb_state kReadBarrierStateMask) kReadBarrierStateShift).

Definition ThinLockOwner (value_ : Z) : Z :=
  Z.land (Z.shiftr value_ kThinLockOwnerShift) kThinLockOwnerMask.
Definition ThinLockCount (value_ : Z) : Z :=
  Z.land (Z.shiftr value_ kThinLockCountShift) kThinLockCountMask.
(** The identifier of [FatLockMonitor]. *)
Definition FatLockMonitorId (value_ : Z) : Z :=
  Z.land (Z.shiftr value_ kMonitorIdShift) kMonitorIdMask.
Definition ForwardingAddress (value_ : Z) : Z := u32 (Z.shiftl value_ kStateSize).
Definition GetHashCode (value_ : Z) : Z := Z.land (Z.shiftr value_ kHashShift) kHashMask.
Definition GetValueWithoutReadBarrierState (value_ : Z) : Z :=
  Z.land value_ (u32 (Z.lnot (Z.shiftl kReadBarrierStateMask kReadBarrierStateShift))).
Definition Equal (kIncludeReadBarrierState : bool) (lw1 lw2 : Z) : bool :=
  if kIncludeReadBarrierState then lw1 =? lw2
  else GetValueWithoutReadBarrierState lw1 =? GetValueWithoutReadBarrierState lw2.
End LockWord.
Import LockWord.

(** ** Fields

    A word is its 28 low bits, the two read barrier bits and the two state bits. *)
Definition word (low rb st : Z) : Z := low + rb * 2 ^ 28 + st * 2 ^ 30.

Lemma word_fields v :
  in_u 32 v -> v = word (v mod 2 ^ 28) (v / 2 ^ 28 mod 4) (v / 2 ^ 30).
Proof.
  unfold in_u, word. intros Hv. replace (v / 2 ^ 30) with (v / 2 ^ 28 / 4) by (by rewrite Z.div_div).
  pose proof (Z.div_mod v (2 ^ 28) ltac:(lia)). pose proof (Z.div_mod (v / 2 ^ 28) 4 ltac:(lia)). lia.
Qed.

Section Fields.
Context (low rb st : Z) (Hlow : 0 <= low < 2 ^ 28) (Hrb : 0 <= rb < 4) (Hst : 0 <= st < 4).
#[local] Abbreviation w := (word low rb st).

Lemma word_range : in_u 32 w.
Proof. unfold word, in_u. lia. Qed.
Lemma ReadBarrierState_word : ReadBarrierState w = rb.
Proof.
  unfold ReadBarrierState. change kReadBarrierStateMask with (Z.ones 2).
  change kReadBarrierStateShift with 28. rewrite Z.land_ones, Z.shiftr_div_pow2 by lia.
  replace w with (low + (rb + st * 4) * 2 ^ 28) by (unfold word; lia).
  rewrite Z.div_add, Z.div_small, Z.add_0_l, Z.mod_add by lia. apply Z.mod_small. lia.
Qed.
Lemma state_word : Z.land (Z.shiftr w kStateShift) kStateMask = st.
Proof.
  change kStateMask with (Z.ones 2). change kStateShift with 30.
  rewrite Z.land_ones, Z.shiftr_div_pow2 by lia. unfold word.
  rewrite Z.div_add, Z.div_small, Z.add_0_l by lia. apply Z.mod_small. lia.
Qed.
Lemma low_word : Z.land (Z.shiftr w 0) kHashMask = low.
Proof.
  change kHashMask with (Z.ones 28). rewrite Z.land_ones, Z.shiftr_0_r by lia.
  unfold word. dlia.
Qed.
Lemma ThinLockOwner_word : ThinLockOwner w = low mod 2 ^ 16.
Proof.
  unfold ThinLockOwner. change kThinLockOwnerMask with (Z.ones 16). change kThinLockOwnerShift with 0.
  rewrite Z.land_ones, Z.shiftr_0_r by lia. unfold word. dlia.
Qed.
Lemma ThinLockCount_word : ThinLockCount w = low / 2 ^ 16.
Proof.
  unfold ThinLockCount. change kThinLockCountMask with (Z.ones 12). change kThinLockCountShift with 16.
  rewrite Z.land_ones, Z.shiftr_div_pow2 by lia. unfold word. dlia.
Qed.

(** Clearing the read barrier bits. *)
Lemma land_rb_mask : Z.land w (u32 (Z.lnot kReadBarrierStateMaskShifted)) = word low 0 st.
Proof.
  assert (w = Z.lor (Z.lor low (Z.shiftl rb 28)) (Z.shiftl st 30)) as ->.
  { rewrite !lor_shiftl_add by (try rewrite lor_shiftl_add; lia). unfold word. done. }
  assert (word low 0 st = Z.lor low (Z.shiftl st 30)) as ->.
  { rewrite lor_shiftl_add by lia. unfold word. lia. }
  change (u32 (Z.lnot kReadBarrierStateMaskShifted)) with (Z.lor (Z.ones 28) (Z.shiftl 3 30)).
  apply Z.bits_inj'. intros i Hi. rewrite Z.land_spec, !Z.lor_spec, !Z.shiftl_spec by lia.
  assert (forall n x k, 0 <= x < 2 ^ n -> n <= k -> Z.testbit x k = false) as Hhigh.
  { intros n x k Hx Hk. destruct (decide (n < 0)); [rewrite Z.pow_neg_r in Hx; lia|].
    rewrite <- (Z.mod_small x (2 ^ n)) by lia. apply Z.mod_pow2_bits_high. lia. }
  destruct (decide (i < 28)).
  - rewrite Z.ones_spec_low, !(Z.testbit_neg_r _ (i - _)) by lia. by rewrite !orb_false_r, andb_true_r.
  - rewrite (Hhigh 28 low i), Z.ones_spec_high by lia. cbn [orb]. destruct (decide (i < 30)).
    + rewrite !(Z.testbit_neg_r _ (i - 30)) by lia. by rewrite andb_false_r.
    + rewrite (Hhigh 2 rb (i - 28)) by lia. cbn [orb]. destruct (decide (i < 32)).
      * change 3 with (Z.ones 2). rewrite Z.ones_spec_low by lia. apply andb_true_r.
      * by rewrite (Hhigh 2 st (i - 30)) by lia.
Qed.
End Fields.

(** ** Constructors *)
Section Constructors.
Context (rb : Z) (Hrb : 0 <= rb < 4).

Lemma u32_word low st : 0 <= low < 2 ^ 28 -> 0 <= st < 4 ->
  u32 (Z.lor (Z.lor low (Z.shiftl rb 28)) (Z.shiftl st 30)) = word low rb st.
Proof.
  intros. rewrite !lor_shiftl_add by (try rewrite lor_shiftl_add; lia). fold (word low rb st).
  by apply wrapu_small, word_range.
Qed.

Lemma FromThinLockId_word t c :
  0 <= t <= kThinLockMaxOwner -> 0 <= c <= kThinLockMaxCount ->
  FromThinLockId t c rb = Some (word (t + c * 2 ^ 16) rb 0).
Proof.
  change kThinLockMaxOwner with 65535. change kThinLockMaxCount with 4095. intros Ht Hc.
  unfold FromThinLockId. change kThinLockMaxOwner with 65535. change kThinLockMaxCount with 4095.
  rewrite !(proj2 (Z.ltb_ge _ _)) by lia. cbn [orb]. f_equal.
  change kThinLockOwnerShift with 0. change kThinLockCountShift with 16.
  change kReadBarrierStateShift with 28. change kStateShift with 30.
  rewrite Z.shiftl_0_r, (lor_shiftl_add t c 16) by lia. apply u32_word; [lia|done].
Qed.
Lemma FromThinLockId_overflow t c :
  kThinLockMaxOwner < t \/ kThinLockMaxCount < c -> FromThinLockId t c rb = None.
Proof.
  intros H. unfold FromThinLockId. destruct H as [H|H]; apply Z.ltb_lt in H; rewrite H; [done|].
  by rewrite orb_true_r.
Qed.
Lemma FromHashCode_word h : 0 <= h <= kMaxHash -> FromHashCode h rb = Some (word h rb 2).
Proof.
  change kMaxHash with 268435455. intros Hh. unfold FromHashCode. change kMaxHash with 268435455.
  rewrite (proj2 (Z.ltb_ge _ _)) by lia. f_equal. change kHashShift with 0.
  change kReadBarrierStateShift with 28. change kStateShift with 30. rewrite Z.shiftl_0_r.
  apply u32_word; [lia|done].
Qed.
Lemma FromMonitor_word m : 0 <= m <= kMaxMonitorId -> FromMonitor m rb = word m rb 1.
Proof.
  change kMaxMonitorId with 268435455. intros Hm. unfold FromMonitor.
  change kReadBarrierStateShift with 28. change kStateShift with 30. apply u32_word; [lia|done].
Qed.
Lemma FromDefault_word : FromDefault rb = word 0 rb 0.
Proof.
  unfold FromDefault. change kReadBarrierStateShift with 28. rewrite Z.shiftl_mul_pow2 by lia.
  rewrite wrapu_small by (unfold in_u; lia). unfold word. lia.
Qed.
End Constructors.

(** ** What a word encodes *)
Inductive lock :=
| Unlocked
| Thin (owner count : Z)
| Fat (monitor_id : Z)
| Hashed (hash : Z)
| Forwarded (address : Z).

Definition decode (kUseReadBarrier : bool) (v : Z) : lock :=
  match GetState kUseReadBarrier v with
  | kUnlocked => Unlocked
  | kThinLocked => Thin (ThinLockOwner v) (ThinLockCount v)
  | kFatLocked => Fat (FatLockMonitorId v)
  | kHashCode => Hashed (GetHashCode v)
  | kForwardingAddress => Forwarded (ForwardingAddress v)
  end.

Section Decode.
Context (urb : bool) (low rb st : Z).
Context (Hlow : 0 <= low < 2 ^ 28) (Hrb : 0 <= rb < 4) (Hst : 0 <= st < 4).
Context (Hurb : urb = false -> rb = 0).
#[local] Abbreviation w := (word low rb st).

Lemma unlocked_test :
  (negb urb && (w =? 0)) || (urb && (Z.land w kReadBarrierStateMaskShiftedToggled =? 0))
  = (low =? 0) && (st =? 0).
Proof.
  assert (Z.land w kReadBarrierStateMaskShiftedToggled = word low 0 st) as ->.
  { rewrite <- (land_rb_mask low rb st) by done.
    assert (w = Z.land w (Z.ones 32)) as E.
    { rewrite Z.land_ones by lia. symmetry. apply Z.mod_small, word_range; done. }
    rewrite E at 1 2. rewrite <- !Z.land_assoc. f_equal. }
  destruct urb; cbn [negb andb orb]; unfold word.
  - case_bool; cbn; (done || lia).
  - rewrite Hurb by done. rewrite orb_false_r. case_bool; cbn; (done || lia).
Qed.

Lemma GetState_word :
  GetState urb w
  = if (low =? 0) && (st =? 0) then kUnlocked
    else if st =? 0 then kThinLocked else if st =? 2 then kHashCode
    else if st =? 3 then kForwardingAddress else kFatLocked.
Proof. unfold GetState. rewrite unlocked_test. cbn zeta. by rewrite state_word. Qed.
End Decode.

Section Decoded.
Context (urb : bool) (rb : Z) (Hrb : 0 <= rb < 4) (Hurb : urb = false -> rb = 0).

Lemma decode_default : decode urb (word 0 rb 0) = Unlocked.
Proof. unfold decode. by rewrite GetState_word by (done || lia). Qed.
Lemma decode_thin t c :
  0 < t <= kThinLockMaxOwner -> 0 <= c <= kThinLockMaxCount ->
  decode urb (word (t + c * 2 ^ 16) rb 0) = Thin t c.
Proof.
  change kThinLockMaxOwner with 65535. change kThinLockMaxCount with 4095. intros Ht Hc.
  unfold decode. rewrite GetState_word by (done || lia). rewrite (proj2 (Z.eqb_neq _ _)) by lia. cbn.
  rewrite ThinLockOwner_word, ThinLockCount_word by lia. f_equal.
  - rewrite Z.mod_add by lia. apply Z.mod_small. lia.
  - rewrite Z.div_add, Z.div_small by lia. lia.
Qed.
Lemma decode_fat m : 0 <= m <= kMaxMonitorId -> decode urb (word m rb 1) = Fat m.
Proof.
  change kMaxMonitorId with 268435455. intros Hm. unfold decode. rewrite GetState_word by (done || lia).
  rewrite andb_false_r. cbn. f_equal. apply low_word; lia.
Qed.
Lemma decode_hash h : 0 <= h <= kMaxHash -> decode urb (word h rb 2) = Hashed h.
Proof.
  change kMaxHash with 268435455. intros Hm. unfold decode. rewrite GetState_word by (done || lia).
  rewrite andb_false_r. cbn. f_equal. apply low_word; lia.
Qed.
End Decoded.

Lemma decode_word urb low rb st :
  0 <= low < 2 ^ 28 -> 0 <= rb < 4 -> 0 <= st < 3 -> (urb = false -> rb = 0) ->
  decode urb (word low rb st)
  = if (low =? 0) && (st =? 0) then Unlocked
    else if st =? 0 then Thin (low mod 2 ^ 16) (low / 2 ^ 16)
    else if st =? 2 then Hashed low else Fat low.
Proof.
  intros Hl Hr Hs Hu. unfold decode. rewrite GetState_word by (done || lia).
  destruct (_ && _); [done|]. case_bool; try lia.
  - by rewrite ThinLockOwner_word, ThinLockCount_word by lia.
  - f_equal. apply low_word; lia.
  - f_equal. apply low_word; lia.
Qed.

(** The fields of a word that is not a forwarding address. *)
Lemma word_cases v : in_u 32 v ->
  exists low rb st, v = word low rb st /\ 0 <= low < 2 ^ 28 /\ 0 <= rb < 4 /\ 0 <= st < 4
  /\ ReadBarrierState v = rb.
Proof.
  intros Hv. eexists _, _, _. split; [apply (word_fields v Hv)|]. unfold in_u in Hv.
  pose proof (Z.mod_pos_bound v (2 ^ 28) ltac:(lia)). pose proof (Z.mod_pos_bound (v / 2 ^ 28) 4 ltac:(lia)).
  assert (0 <= v / 2 ^ 30 < 4) by (split; [apply Z.div_pos; lia|apply Z.div_lt_upper_bound; lia]).
  split; [lia|]. split; [lia|]. split; [lia|]. rewrite (word_fields v) at 1 by done.
  by apply ReadBarrierState_word.
Qed.

Lemma ReadBarrierState_range v : in_u 32 v -> 0 <= ReadBarrierState v < 4.
Proof. intros (low & rb & st & _ & _ & ? & _ & ->)%word_cases. done. Qed.

Lemma SetReadBarrierState_word low rb st rb' :
  0 <= low < 2 ^ 28 -> 0 <= rb < 4 -> 0 <= st < 4 -> 0 <= rb' < 4 ->
  SetReadBarrierState (word low rb st) rb' = word low rb' st.
Proof.
  intros. unfold SetReadBarrierState. fold kReadBarrierStateMaskShifted. rewrite land_rb_mask by done.
  change kReadBarrierStateMask with (Z.ones 2). rewrite Z.land_ones, Z.mod_small by lia.
  change kReadBarrierStateShift with 28. rewrite <- (u32_word rb') by done.
  rewrite <- (u32_word 0) by (done || lia). rewrite Z.shiftl_0_l, Z.lor_0_r.
  rewrite (wrapu_small 32 (Z.lor low _)) by (rewrite lor_shiftl_add by lia; unfold in_u; lia).
  rewrite <- !Z.lor_assoc, (Z.lor_comm (Z.shiftl st 30)). symmetry. apply wrapu_small.
  rewrite Z.lor_assoc, !lor_shiftl_add by (try rewrite lor_shiftl_add; lia). unfold in_u. lia.
Qed.

Lemma decode_set_rb v rb :
  in_u 32 v -> 0 <= rb < 4 -> GetState true v <> kForwardingAddress ->
  decode true (SetReadBarrierState v rb) = decode true v
  /\ ReadBarrierState (SetReadBarrierState v rb) = rb /\ in_u 32 (SetReadBarrierState v rb).
Proof.
  intros (low & rb0 & st & -> & Hl & Hr & Hs & _)%word_cases Hrb Hf.
  rewrite GetState_word in Hf by done. rewrite SetReadBarrierState_word by done.
  assert (st <> 3) by (intros ->; by rewrite andb_false_r in Hf).
  rewrite !decode_word by (done || lia). split; [done|]. split; [|by apply word_range].
  by apply ReadBarrierState_word.
Qed.

Lemma forwarding_roundtrip urb target :
  in_u 32 target -> target mod 4 = 0 ->
  GetState urb (FromForwardingAddress target) = kForwardingAddress
  /\ ForwardingAddress (FromForwardingAddress target) = target.
Proof.
  unfold in_u. intros Ht Ha.
  assert (FromForwardingAddress target = target / 4 + 3 * 2 ^ 30) as ->.
  { unfold FromForwardingAddress. change kStateSize with 2. change kStateShift with 30.
    rewrite Z.shiftr_div_pow2, lor_shiftl_add by dlia. apply wrapu_small. unfold in_u. dlia. }
  split.
  - unfold GetState. set (v := target / 4 + 3 * 2 ^ 30).
    assert (Z.land (Z.shiftr v kStateShift) kStateMask = 3) as ->.
    { change kStateMask with (Z.ones 2). change kStateShift with 30.
      rewrite Z.land_ones, Z.shiftr_div_pow2 by lia. subst v.
      rewrite Z.div_add, Z.div_small by dlia. done. }
    assert (Z.land v kReadBarrierStateMaskShiftedToggled <> 0) as Hne.
    { intros E. apply (f_equal (fun z => Z.testbit z 31)) in E. revert E.
      rewrite Z.land_spec, Z.bits_0. change (Z.testbit kReadBarrierStateMaskShiftedToggled 31) with true.
      rewrite andb_true_r. assert (Z.testbit v 31 = true) as ->; [|done].
      apply Z.testbit_true; [lia|]. subst v. dlia. }
    rewrite (proj2 (Z.eqb_neq _ 0) Hne), (proj2 (Z.eqb_neq v 0)) by (subst v; dlia).
    by destruct urb.
  - unfold ForwardingAddress. change kStateSize with 2. rewrite Z.shiftl_mul_pow2 by lia.
    unfold_width. dlia.
Qed.

(** The arguments of a decoded word fit their fields. *)
Definition lock_ok (l : lock) : Prop :=
  match l with
  | Unlocked => True
  | Thin t c => 0 <= t <= kThinLockMaxOwner /\ 0 <= c <= kThinLockMaxCount
  | Fat m => 0 <= m <= kMaxMonitorId
  | Hashed h => 0 <= h <= kMaxHash
  | Forwarded _ => True
  end.
Lemma decode_ok urb v :
  in_u 32 v -> (urb = false -> ReadBarrierState v = 0) -> lock_ok (decode urb v).
Proof.
  intros (low & rb & st & -> & Hl & Hr & Hs & Hrb)%word_cases Hu. rewrite Hrb in Hu.
  destruct (decide (st = 3)) as [->|].
  - unfold decode. rewrite GetState_word, andb_false_r by done. done.
  - rewrite decode_word by (done || lia). destruct (_ && _); [done|].
    case_bool; cbn [lock_ok]; change kThinLockMaxOwner with 65535;
      change kThinLockMaxCount with 4095; change kMaxHash with 268435455;
      change kMaxMonitorId with 268435455; try lia.
    split; dlia.
Qed.

(** A lock word records what it was made from.  A thin lock gives back its owner and
    count (counts and owners that do not fit are rejected), a monitor and a hash code come
    back, each with the read barrier state; changing the read barrier state changes nothing
    else and [Equal] without it does not see the change; forwarding addresses come back. *)
Theorem lock_word_roundtrip urb rb :
  0 <= rb < 4 -> (urb = false -> rb = 0) ->
  (forall t c, 0 < t -> 0 <= c ->
    match FromThinLockId t c rb with
    | Some v => decode urb v = Thin t c /\ ReadBarrierState v = rb
    | None => kThinLockMaxOwner < t \/ kThinLockMaxCount < c
    end)
  /\ (forall h, 0 <= h <= kMaxHash ->
      exists v, FromHashCode h rb = Some v /\ decode urb v = Hashed h /\ ReadBarrierState v = rb)
  /\ (forall m, 0 <= m <= kMaxMonitorId ->
      decode urb (FromMonitor m rb) = Fat m /\ ReadBarrierState (FromMonitor m rb) = rb)
  /\ (decode urb (FromDefault rb) = Unlocked /\ ReadBarrierState (FromDefault rb) = rb)
  /\ (forall v, in_u 32 v -> GetState true v <> kForwardingAddress ->
      decode true (SetReadBarrierState v rb) = decode true v
      /\ ReadBarrierState (SetReadBarrierState v rb) = rb
      /\ Equal false v (SetReadBarrierState v rb) = true)
  /\ (forall a, in_u 32 a -> a mod 4 = 0 ->
      GetState urb (FromForwardingAddress a) = kForwardingAddress
      /\ ForwardingAddress (FromForwardingAddress a) = a).
Proof.
  intros Hrb Hu. split_and!.
  - intros t c Ht Hc. destruct (decide (t <= kThinLockMaxOwner /\ c <= kThinLockMaxCount)) as [[]|].
    + rewrite FromThinLockId_word by (done || lia). split; [by apply decode_thin|].
      apply ReadBarrierState_word; try done. change kThinLockMaxOwner with 65535 in *.
      change kThinLockMaxCount with 4095 in *. lia.
    + rewrite FromThinLockId_overflow by lia. lia.
  - intros h Hh. eexists. split; [by apply FromHashCode_word|]. split; [by apply decode_hash|].
    apply ReadBarrierState_word; try done. change kMaxHash with 268435455 in *. lia.
  - intros m Hm. rewrite FromMonitor_word by done. split; [by apply decode_fat|].
    apply ReadBarrierState_word; try done. change kMaxMonitorId with 268435455 in *. lia.
  - rewrite FromDefault_word by done. by apply decode_default.
  - rewrite FromDefault_word by done. by apply ReadBarrierState_word.
  - intros v Hv Hf. destruct (decode_set_rb v rb Hv Hrb Hf) as (? & ? & _). split_and!; [done|done|].
    destruct (word_cases v Hv) as (low & rb0 & st & -> & ? & ? & ? & _).
    rewrite SetReadBarrierState_word by done. unfold Equal, GetValueWithoutReadBarrierState.
    fold kReadBarrierStateMaskShifted. rewrite !land_rb_mask by done. apply Z.eqb_refl.
  - intros a Ha Hm. by apply forwarding_roundtrip.
Qed.
Lemma lock_word_roundtrip_witness :
  match FromThinLockId 12 4095 2 with
  | Some v => decode true v = Thin 12 4095 /\ ReadBarrierState v = 2
  | None => kThinLockMaxOwner < 12 \/ kThinLockMaxCount < 4095
  end
  /\ FromThinLockId 12 4095 2 = Some 0x2FFF000C.
Proof.
  split.
  - refine (proj1 (lock_word_roundtrip true 2 _ _) 12 4095 _ _); [lia|done|lia|lia].
  - vm_compute. reflexivity.
Defined.
