(* ===== verification/Monitor.v ===== *)
(** * Monitors

    runtime/monitor.cc and the lock-word side of mirror/object.cc: [MonitorEnter],
    [MonitorExit], [Wait], [Notify] and [IdentityHashCode] on one object, for any number of
    threads.  Between its accesses to shared memory a thread is at a program point [pc]; one
    step is one access to the lock word, or one section under [monitor_lock_], or one call of
    the thread list.  What the code does not determine (a weak compare-and-swap that fails, the
    identifier and hash code drawn, a timeout) is a [choice] given to the step.  The collector
    deflates when every thread is suspended, and changes read barrier bits at any time.

    A thread is its identifier.  [SuspendThreadByThreadId] and [Resume] of
    runtime/thread_list.cc are modelled by the suspend counts they change: a thread is counted
    as long as another one is between raising and lowering its count, and it does not leave a
    suspension point while its count is raised. *)

From S2P Require Import Prelude LockWord.
Import LockWord.

Record Monitor := mkMonitor {
  owner_ : option Z;
  lock_count_ : Z;
  num_waiters_ : Z;
  hash_code_ : Z;
  wait_set_ : list Z
}.
Definition set_owner (m : Monitor) (o : option Z) (count : Z) : Monitor :=
  mkMonitor o count (num_waiters_ m) (hash_code_ m) (wait_set_ m).
Definition add_waiters (m : Monitor) (n : Z) : Monitor :=
  mkMonitor (owner_ m) (lock_count_ m) (num_waiters_ m + n) (hash_code_ m) (wait_set_ m).
Definition set_hash (m : Monitor) (h : Z) : Monitor :=
  mkMonitor (owner_ m) (lock_count_ m) (num_waiters_ m) h (wait_set_ m).
Definition set_wait_set (m : Monitor) (l : list Z) : Monitor :=
  mkMonitor (owner_ m) (lock_count_ m) (num_waiters_ m) (hash_code_ m) l.

(** The operation a thread is in; entering counts the failed attempts on a thin lock. *)
Inductive op := OpEnter (contention_count : Z) | OpExit | OpWait | OpNotify (all : bool) | OpHash.

(** Program points.  [sus] is the thread this one has suspended; [w] is the recursion count to
    restore when the monitor is acquired at the end of [Wait]. *)
Inductive pc :=
| Idle                                                    (** outside these operations *)
| Load (o : op)                                           (** before [GetLockWord] *)
| Have (o : op) (lw : Z)                                  (** before the switch on its state *)
| Suspend (o : op) (owner hash : Z)                       (** in [SuspendThreadByThreadId] *)
| Requested (o : op) (owner hash : Z)                     (** the suspend count is raised *)
| Suspended (o : op) (owner hash : Z)                     (** the owner is suspended *)
| Recheck (o : op) (owner hash : Z)                       (** before the lock word is read again *)
| Create (o : op) (owner : option Z) (hash : Z) (sus : option Z)  (** in [CreateMonitor] *)
| Install (o : op) (m : Z) (sus : option Z)               (** in [Install], before the read *)
| InstallCas (o : op) (m : Z) (sus : option Z) (lw : Z)   (** before it publishes *)
| Inflated (o : op) (sus : option Z)                      (** before the final check *)
| Resume (o : op) (owner : Z)
| FatLock (m : Z) (w : option Z)
| FatBlocked (m : Z) (w : option Z)
| FatUnlock (m : Z)
| FatWait (m : Z)
| Waiting (m : Z) (prev_lock_count : Z)
| WaitRestore (m : Z) (prev_lock_count : Z)
| FatNotify (m : Z) (all : bool)
| HashFat (m : Z)
| HashReturn (h : Z)
| Aborted.                                                (** a failed [CHECK] or [LOG(FATAL)] *)

#[global] Instance op_eq_dec : EqDecision op.
Proof. solve_decision. Defined.
#[global] Instance pc_eq_dec : EqDecision pc.
Proof. solve_decision. Defined.

(** The points where a thread can be suspended. *)
Definition safepoint (p : pc) : bool :=
  match p with
  | Idle | Suspend _ _ _ | Requested _ _ _ | Suspended _ _ _ | FatBlocked _ _ | Waiting _ _ => true
  | _ => false
  end.

(** The thread a thread has suspended. *)
Definition suspends (p : pc) : option Z :=
  match p with
  | Suspended _ o _ | Recheck _ o _ | Resume _ o => Some o
  | Create _ _ _ sus | Install _ _ sus | InstallCas _ _ sus _ | Inflated _ sus => sus
  | _ => None
  end.

(** The thread whose suspend count a thread has raised. *)
Definition requests (p : pc) : option Z :=
  match p with Requested _ o _ => Some o | _ => suspends p end.

Record world := mkWorld {
  lock_word : Z;
  monitors : gmap Z Monitor;
  threads : gmap Z pc
}.

(** [GetSuspendCount() == 0]. *)
Definition not_suspended (s : world) (t : Z) : Prop :=
  map_Forall (fun _ p => requests p <> Some t) (threads s).
#[global] Instance not_suspended_dec s t : Decision (not_suspended s t).
Proof. unfold not_suspended. apply _. Defined.

(** [Thread::IsSuspended]: the count is raised and the thread is not running. *)
Definition IsSuspended (s : world) (t : Z) : bool :=
  bool_decide (~ not_suspended s t)
  && match threads s !! t with Some p => safepoint p | None => false end.

Record choice := mkChoice {
  spurious : bool;        (** the compare-and-swap or the suspension fails *)
  new_hash : Z;           (** [GenerateIdentityHashCode] *)
  new_id : Z;             (** the identifier of a new monitor *)
  bad_timeout : bool      (** the timeout of [Wait] is out of range *)
}.

Inductive event :=
| Tau
| Acquire (t : Z)               (** [MonitorEnter] returns, or [Wait] has the lock again *)
| Release (t : Z)               (** [MonitorExit] succeeds *)
| Illegal (t : Z)               (** [IllegalMonitorStateException] *)
| WaitRelease (t : Z)
| Restore (t count : Z)         (** [Wait] returns with its recursion count *)
| AssignHash (h : Z)
| HashResult (t h : Z).

#[global] Instance event_eq_dec : EqDecision event.
Proof. solve_decision. Defined.

Definition effect : Type := event * pc * Z * gmap Z Monitor.

Section Steps.
Context (kUseReadBarrier : bool) (max_spins : Z).
#[local] Abbreviation GetState := (GetState kUseReadBarrier).

(** [CasLockWordWeak...]. *)
Definition cas (c : choice) (w old new : Z) : option Z :=
  if spurious c then None else if w =? old then Some new else None.

(** The checks of the constructor and of [Install] on the owner. *)
Definition owner_checked (s : world) (t : Z) (owner : option Z) : bool :=
  match owner with
  | None => true
  | Some o => (o =? t) || IsSuspended s o
  end.

(** After [Inflate]. *)
Definition after_inflate (o : op) (sus : option Z) : pc :=
  match sus with Some owner => Resume o owner | None => Load o end.

(** Publishing a new lock word: [SetLockWord] when there are no read barriers, otherwise a
    compare-and-swap that goes round the loop when it fails. *)
Definition store_lock_word (c : choice) (s : world) (o : op) (lw : Z) (new : option Z) (e : event)
  : effect :=
  match new with
  | None => (Tau, Aborted, lock_word s, monitors s)
  | Some new =>
      if negb kUseReadBarrier then (e, Idle, new, monitors s)
      else
        match cas c (lock_word s) lw new with
        | Some w => (e, Idle, w, monitors s)
        | None => (Tau, Load o, lock_word s, monitors s)
        end
  end.

Definition have_enter (t : Z) (c : choice) (s : world) (contention_count lw : Z) : effect :=
  let w := lock_word s in
  let ms := monitors s in
  match GetState lw with
  | kUnlocked =>
      match FromThinLockId t 0 (ReadBarrierState lw) with
      | None => (Tau, Aborted, w, ms)
      | Some thin_locked =>
          match cas c w lw thin_locked with
          | Some w => (Acquire t, Idle, w, ms)
          | None => (Tau, Load (OpEnter contention_count), w, ms)
          end
      end
  | kThinLocked =>
      let owner_thread_id := ThinLockOwner lw in
      if owner_thread_id =? t then
        let new_count := ThinLockCount lw + 1 in
        if new_count <=? kThinLockMaxCount then
          store_lock_word c s (OpEnter contention_count) lw
            (FromThinLockId t new_count (ReadBarrierState lw)) (Acquire t)
        else (Tau, Create (OpEnter contention_count) (Some t) 0 None, w, ms)
      else
        let contention_count := contention_count + 1 in
        if contention_count <=? max_spins then (Tau, Load (OpEnter contention_count), w, ms)
        else (Tau, Suspend (OpEnter 0) owner_thread_id 0, w, ms)
  | kFatLocked => (Tau, FatLock (FatLockMonitorId lw) None, w, ms)
  | kHashCode => (Tau, Create (OpEnter contention_count) None (GetHashCode lw) None, w, ms)
  | kForwardingAddress => (Tau, Aborted, w, ms)
  end.

Definition have_exit (t : Z) (c : choice) (s : world) (lw : Z) : effect :=
  let w := lock_word s in
  let ms := monitors s in
  match GetState lw with
  | kHashCode | kUnlocked => (Illegal t, Idle, w, ms)
  | kThinLocked =>
      if negb (ThinLockOwner lw =? t) then (Illegal t, Idle, w, ms)
      else
        let new_lw :=
          if negb (ThinLockCount lw =? 0)
          then FromThinLockId t (ThinLockCount lw - 1) (ReadBarrierState lw)
          else Some (FromDefault (ReadBarrierState lw)) in
        store_lock_word c s OpExit lw new_lw (Release t)
  | kFatLocked => (Tau, FatUnlock (FatLockMonitorId lw), w, ms)
  | kForwardingAddress => (Tau, Aborted, w, ms)
  end.

Definition have_wait (t lw : Z) : event * pc :=
  match GetState lw with
  | kHashCode | kUnlocked => (Illegal t, Idle)
  | kThinLocked =>
      if negb (ThinLockOwner lw =? t) then (Illegal t, Idle) else (Tau, Create OpWait (Some t) 0 None)
  | kFatLocked => (Tau, FatWait (FatLockMonitorId lw))
  | kForwardingAddress => (Tau, Aborted)
  end.

Definition have_notify (t : Z) (all : bool) (lw : Z) : event * pc :=
  match GetState lw with
  | kHashCode | kUnlocked => (Illegal t, Idle)
  | kThinLocked => if negb (ThinLockOwner lw =? t) then (Illegal t, Idle) else (Tau, Idle)
  | kFatLocked => (Tau, FatNotify (FatLockMonitorId lw) all)
  | kForwardingAddress => (Tau, Aborted)
  end.

(** What [GenerateIdentityHashCode] returns: masked and not zero. *)
Definition valid_hash (h : Z) : bool := (0 <? h) && (h <=? kMaxHash).

Definition have_hash (t : Z) (c : choice) (s : world) (lw : Z) : option effect :=
  let w := lock_word s in
  let ms := monitors s in
  match GetState lw with
  | kUnlocked =>
      if negb (valid_hash (new_hash c)) then None
      else
        match FromHashCode (new_hash c) (ReadBarrierState lw) with
        | None => Some (Tau, Aborted, w, ms)
        | Some hash_word =>
            match cas c w lw hash_word with
            | Some w => Some (AssignHash (new_hash c), HashReturn (GetHashCode hash_word), w, ms)
            | None => Some (Tau, Load OpHash, w, ms)
            end
        end
  | kThinLocked =>
      if negb (valid_hash (new_hash c)) then None
      else if ThinLockOwner lw =? t then Some (Tau, Create OpHash (Some t) (new_hash c) None, w, ms)
      else Some (Tau, Suspend OpHash (ThinLockOwner lw) (new_hash c), w, ms)
  | kFatLocked => Some (Tau, HashFat (FatLockMonitorId lw), w, ms)
  | kHashCode => Some (HashResult t (GetHashCode lw), Idle, w, ms)
  | kForwardingAddress => Some (Tau, Aborted, w, ms)
  end.

(** [Install], up to the compare-and-swap. *)
Definition install_load (t : Z) (s : world) (o : op) (m : Z) (sus : option Z) (mon : Monitor) : effect :=
  let w := lock_word s in
  let ms := monitors s in
  let lw := w in
  if negb (owner_checked s t (owner_ mon)) then (Tau, Aborted, w, ms)
  else
    match GetState lw with
    | kThinLocked =>
        if bool_decide (owner_ mon = Some (ThinLockOwner lw))
        then (Tau, InstallCas o m sus lw, w, <[m := set_owner mon (owner_ mon) (ThinLockCount lw)]> ms)
        else (Tau, Aborted, w, ms)
    | kHashCode =>
        if hash_code_ mon =? GetHashCode lw then (Tau, InstallCas o m sus lw, w, ms)
        else (Tau, Aborted, w, ms)
    | kFatLocked => (Tau, after_inflate o sus, w, delete m ms)
    | kUnlocked | kForwardingAddress => (Tau, Aborted, w, ms)
    end.

(** The end of [Install] and of [Inflate]: an unpublished monitor is released. *)
Definition install_cas (c : choice) (s : world) (o : op) (m : Z) (sus : option Z) (lw : Z) (mon : Monitor)
  : effect :=
  match cas c (lock_word s) lw (FromMonitor m (ReadBarrierState lw)) with
  | Some w =>
      (if hash_code_ mon =? 0 then Tau else AssignHash (hash_code_ mon), Inflated o sus, w, monitors s)
  | None => (Tau, after_inflate o sus, lock_word s, delete m (monitors s))
  end.

(** [Monitor::Lock] under [monitor_lock_]: acquire, or register as a waiter.  A recursion
    count that would leave [int] is not defined. *)
Definition fat_lock (t m : Z) (w : option Z) (mon : Monitor) : option (event * pc * Monitor) :=
  let k := match w with None => Idle | Some prev => WaitRestore m prev end in
  match owner_ mon with
  | None =>
      if lock_count_ mon =? 0 then Some (Acquire t, k, set_owner mon (Some t) 0)
      else Some (Tau, Aborted, mon)
  | Some o =>
      if o =? t then
        if lock_count_ mon <? INT32_MAX
        then Some (Acquire t, k, set_owner mon (Some t) (lock_count_ mon + 1)) else None
      else Some (Tau, FatBlocked m w, add_waiters mon 1)
  end.

Definition fat_unlock (t : Z) (mon : Monitor) : event * Monitor :=
  if bool_decide (owner_ mon = Some t) then
    if lock_count_ mon =? 0 then (Release t, set_owner mon None 0)
    else (Release t, set_owner mon (Some t) (lock_count_ mon - 1))
  else (Illegal t, mon).

(** [Monitor::Wait] up to the release of [monitor_lock_]. *)
Definition fat_wait (t m : Z) (c : choice) (mon : Monitor) : event * pc * Monitor :=
  if negb (bool_decide (owner_ mon = Some t)) then (Illegal t, Idle, mon)
  else if bad_timeout c then (Tau, Idle, mon)
  else
    let mon := set_wait_set mon (wait_set_ mon ++ [t]) in
    (WaitRelease t, Waiting m (lock_count_ mon), add_waiters (set_owner mon None 0) 1).

Definition wait_restore (t prev_lock_count : Z) (mon : Monitor) : Monitor :=
  let mon := add_waiters (set_owner mon (Some t) prev_lock_count) (-1) in
  set_wait_set mon (List.filter (fun u => negb (u =? t)) (wait_set_ mon)).

(** [Notify] drops the threads that have already woken up. *)
Definition still_waiting (s : world) (u : Z) : bool :=
  match threads s !! u with Some (Waiting _ _) => true | _ => false end.
Fixpoint notify_one (s : world) (l : list Z) : list Z :=
  match l with
  | [] => []
  | u :: l => if still_waiting s u then l else notify_one s l
  end.
Definition fat_notify (t : Z) (all : bool) (s : world) (mon : Monitor) : event * Monitor :=
  if negb (bool_decide (owner_ mon = Some t)) then (Illegal t, mon)
  else (Tau, set_wait_set mon (if all then [] else notify_one s (wait_set_ mon))).

(** One step of thread [t]; [None] when it has none with this choice. *)
Definition thread_step (t : Z) (c : choice) (s : world) (p : pc) : option effect :=
  let w := lock_word s in
  let ms := monitors s in
  let on_monitor m (f : Monitor -> option (event * pc * Monitor)) :=
    match ms !! m with
    | None => None
    | Some mon =>
        match f mon with Some (e, p, mon) => Some (e, p, w, <[m := mon]> ms) | None => None end
    end in
  let awake (r : option effect) := if bool_decide (not_suspended s t) then r else None in
  match p with
  | Idle | Aborted => None
  | Load o => Some (Tau, Have o w, w, ms)
  | Have (OpEnter n) lw => Some (have_enter t c s n lw)
  | Have OpExit lw => Some (have_exit t c s lw)
  | Have OpWait lw => let '(e, p) := have_wait t lw in Some (e, p, w, ms)
  | Have (OpNotify all) lw => let '(e, p) := have_notify t all lw in Some (e, p, w, ms)
  | Have OpHash lw => have_hash t c s lw
  | Suspend o owner h =>
      if spurious c then awake (Some (Tau, Load o, w, ms))
      else if owner =? t then Some (Tau, Aborted, w, ms)
      else
        match threads s !! owner with
        | Some _ => awake (Some (Tau, Requested o owner h, w, ms))
        | None => None
        end
  | Requested o owner h =>
      if spurious c then awake (Some (Tau, Load o, w, ms))
      else if IsSuspended s owner then awake (Some (Tau, Suspended o owner h, w, ms)) else None
  | Suspended o owner h => awake (Some (Tau, Recheck o owner h, w, ms))
  | Recheck o owner h =>
      if bool_decide (GetState w = kThinLocked) && (ThinLockOwner w =? owner)
      then Some (Tau, Create o (Some owner) h (Some owner), w, ms)
      else Some (Tau, Resume o owner, w, ms)
  | Create o owner h sus =>
      let m := new_id c in
      if negb (owner_checked s t owner) then Some (Tau, Aborted, w, ms)
      else if (0 <=? m) && (m <=? kMaxMonitorId) && bool_decide (ms !! m = None)
      then Some (Tau, Install o m sus, w, <[m := mkMonitor owner 0 0 h []]> ms)
      else None
  | Install o m sus => match ms !! m with Some mon => Some (install_load t s o m sus mon) | None => None end
  | InstallCas o m sus lw =>
      match ms !! m with Some mon => Some (install_cas c s o m sus lw mon) | None => None end
  | Inflated o sus =>
      if bool_decide (GetState w = kFatLocked) then Some (Tau, after_inflate o sus, w, ms)
      else Some (Tau, Aborted, w, ms)
  | Resume o owner => Some (Tau, Load o, w, ms)
  | FatLock m wt => on_monitor m (fat_lock t m wt)
  | FatBlocked m wt => awake (on_monitor m (fun mon => fat_lock t m wt (add_waiters mon (-1))))
  | FatUnlock m => on_monitor m (fun mon => let '(e, mon) := fat_unlock t mon in Some (e, Idle, mon))
  | FatWait m => on_monitor m (fun mon => Some (fat_wait t m c mon))
  | Waiting m prev => awake (Some (Tau, FatLock m (Some prev), w, ms))
  | WaitRestore m prev =>
      on_monitor m (fun mon => Some (Restore t (prev + 1), Idle, wait_restore t prev mon))
  | FatNotify m all => on_monitor m (fun mon => let '(e, mon) := fat_notify t all s mon in Some (e, Idle, mon))
  | HashFat m =>
      match ms !! m with
      | None => None
      | Some mon =>
          if negb (hash_code_ mon =? 0) then Some (HashResult t (hash_code_ mon), Idle, w, ms)
          else if negb (valid_hash (new_hash c)) then None
          else if spurious c then Some (Tau, HashFat m, w, ms)
          else Some (AssignHash (new_hash c), HashFat m, w, <[m := set_hash mon (new_hash c)]> ms)
      end
  | HashReturn h => Some (HashResult t h, Idle, w, ms)
  end.

(** [Monitor::Deflate]: the lock word and the monitors after it. *)
Definition deflate (s : world) : Z * gmap Z Monitor :=
  let w := lock_word s in
  let ms := monitors s in
  let put m (new : option Z) := match new with Some v => (v, delete m ms) | None => (w, ms) end in
  match GetState w with
  | kFatLocked =>
      let m := FatLockMonitorId w in
      match ms !! m with
      | None => (w, ms)
      | Some mon =>
          if 0 <? num_waiters_ mon then (w, ms)
          else
            match owner_ mon with
            | Some o =>
                if negb (hash_code_ mon =? 0) then (w, ms)
                else if kThinLockMaxCount <? lock_count_ mon then (w, ms)
                else put m (FromThinLockId o (lock_count_ mon) (ReadBarrierState w))
            | None =>
                if negb (hash_code_ mon =? 0) then put m (FromHashCode (hash_code_ mon) (ReadBarrierState w))
                else put m (Some (FromDefault (ReadBarrierState w)))
            end
      end
  | _ => (w, ms)
  end.

(** A new operation starts outside the others. *)
Definition initial_op (o : op) : bool := match o with OpEnter n => n =? 0 | _ => true end.

Inductive step : world -> event -> world -> Prop :=
| step_start s t o :
    threads s !! t = Some Idle -> not_suspended s t -> initial_op o = true ->
    step s Tau (mkWorld (lock_word s) (monitors s) (<[t := Load o]> (threads s)))
| step_thread s t c p e p' w ms :
    threads s !! t = Some p -> thread_step t c s p = Some (e, p', w, ms) ->
    step s e (mkWorld w ms (<[t := p']> (threads s)))
| step_deflate s :
    map_Forall (fun _ p => safepoint p = true) (threads s) ->
    step s Tau (mkWorld (fst (deflate s)) (snd (deflate s)) (threads s))
| step_read_barrier s rb :
    kUseReadBarrier = true -> 0 <= rb < 4 ->
    step s Tau (mkWorld (SetReadBarrierState (lock_word s) rb) (monitors s) (threads s)).

(** Runs and their events. *)
Inductive run : world -> list event -> world -> Prop :=
| run_nil s : run s [] s
| run_snoc s l s1 e s2 : run s l s1 -> step s1 e s2 -> run s (l ++ [e]) s2.

(** An object as it is allocated, with any threads. *)
Definition initial (s : world) : Prop :=
  lock_word s = Default /\ monitors s = ∅
  /\ map_Forall (fun t p => p = Idle /\ 0 < t <= kThinLockMaxOwner) (threads s).
End Steps.
