(* ===== verification/MonitorProofs.v ===== *)
(** * Correctness of monitors

    The lock an object is for its users, as an abstract machine; the invariant of the threads
    inside the operations; and the refinement, from which mutual exclusion, the stability of
    identity hash codes and the absence of aborts follow. *)

From S2P Require Import Prelude LockWord Monitor.
Import LockWord.

(** ** The abstract lock *)
Record alock := mkAlock {
  holder : option (Z * Z);      (** who holds it, and how many times *)
  ahash : option Z;             (** the identity hash code, once there is one *)
  saved : gmap Z Z              (** the counts of the threads in [Wait] *)
}.

Inductive abs_step : alock -> event -> alock -> Prop :=
| abs_tau a : abs_step a Tau a
| abs_acquire t h sv : abs_step (mkAlock None h sv) (Acquire t) (mkAlock (Some (t, 1)) h sv)
| abs_reacquire t n h sv :
    0 < n -> abs_step (mkAlock (Some (t, n)) h sv) (Acquire t) (mkAlock (Some (t, n + 1)) h sv)
| abs_release t h sv : abs_step (mkAlock (Some (t, 1)) h sv) (Release t) (mkAlock None h sv)
| abs_unlock t n h sv :
    0 < n -> abs_step (mkAlock (Some (t, n + 1)) h sv) (Release t) (mkAlock (Some (t, n)) h sv)
| abs_illegal t a : (forall n, holder a <> Some (t, n)) -> abs_step a (Illegal t) a
| abs_wait t n h sv :
    0 < n -> sv !! t = None ->
    abs_step (mkAlock (Some (t, n)) h sv) (WaitRelease t) (mkAlock None h (<[t := n]> sv))
| abs_restore t n h sv :
    sv !! t = Some n ->
    abs_step (mkAlock (Some (t, 1)) h sv) (Restore t n) (mkAlock (Some (t, n)) h (delete t sv))
| abs_hash x h sv : abs_step (mkAlock x None sv) (AssignHash h) (mkAlock x (Some h) sv)
| abs_rehash x h sv : abs_step (mkAlock x (Some h) sv) (AssignHash h) (mkAlock x (Some h) sv)
| abs_result t h a : ahash a = Some h -> abs_step a (HashResult t h) a.

Section Proofs.
Context (urb : bool) (max_spins : Z).
#[local] Abbreviation dec := (decode urb).
#[local] Abbreviation GetState := (LockWord.GetState urb).

(** ** The abstraction *)
Section View.
Context (w : Z) (ms : gmap Z Monitor).
Definition holder_of : option (Z * Z) :=
  match dec w with
  | Thin o c => Some (o, c + 1)
  | Fat m =>
      match ms !! m with
      | Some mon => match owner_ mon with Some o => Some (o, lock_count_ mon + 1) | None => None end
      | None => None
      end
  | _ => None
  end.
Definition hash_of : option Z :=
  match dec w with
  | Hashed h => Some h
  | Fat m =>
      match ms !! m with
      | Some mon => if hash_code_ mon =? 0 then None else Some (hash_code_ mon)
      | None => None
      end
  | _ => None
  end.
End View.

Definition pc_saved (p : pc) : option Z :=
  match p with
  | FatLock _ (Some prev) | FatBlocked _ (Some prev) | Waiting _ prev | WaitRestore _ prev => Some (prev + 1)
  | _ => None
  end.
Definition abs (s : world) : alock :=
  mkAlock (holder_of (lock_word s) (monitors s)) (hash_of (lock_word s) (monitors s))
    (omap pc_saved (threads s)).

(** ** The invariant *)
Definition word_ok (v : Z) : Prop :=
  in_u 32 v /\ (urb = false -> ReadBarrierState v = 0)
  /\ match dec v with Forwarded _ => False | Thin o _ => 0 < o | Hashed h => 0 < h | _ => True end.

Record mon_ok (mon : Monitor) : Prop := {
  mo_unowned : owner_ mon = None -> lock_count_ mon = 0;
  mo_count : 0 <= lock_count_ mon <= INT32_MAX;
  mo_owner : forall o, owner_ mon = Some o -> 0 < o <= kThinLockMaxOwner;
  mo_hash : 0 <= hash_code_ mon <= kMaxHash
}.

(** A monitor that is not published yet. *)
Definition private (p : pc) : option Z :=
  match p with Install _ m _ | InstallCas _ m _ _ => Some m | _ => None end.

(** How often a thread is counted in [num_waiters_] of monitor [m]. *)
Definition wt (m : Z) (p : pc) : Z :=
  match p with
  | FatBlocked m' None | Waiting m' _ | FatLock m' (Some _) | WaitRestore m' _ => if m' =? m then 1 else 0
  | FatBlocked m' (Some _) => if m' =? m then 2 else 0
  | _ => 0
  end.
Definition waiters (m : Z) (ths : gmap Z pc) : Z := map_fold (fun _ p n => wt m p + n) 0 ths.

Section Local.
Context (w : Z) (ms : gmap Z Monitor) (t : Z).
Definition not_held : Prop := forall n, holder_of w ms <> Some (t, n).

(** What a loaded lock word still says. *)
Definition have_ok (lw : Z) : Prop :=
  word_ok lw /\
  match dec lw with
  | Thin o c => if o =? t then dec w = Thin o c else not_held
  | Fat m => dec w = Fat m
  | Hashed h => not_held /\ hash_of w ms = Some h
  | Unlocked => not_held
  | Forwarded _ => False
  end.

(** The state in which a lock may be inflated. *)
Definition inflatable (owner sus : option Z) (h : Z) : Prop :=
  0 <= h <= kMaxHash /\
  match owner with
  | Some o =>
      (sus = None /\ o = t \/ sus = Some o) /\ 0 < o <= kThinLockMaxOwner
      /\ ((exists c, dec w = Thin o c) \/ exists m, dec w = Fat m)
  | None => sus = None /\ hash_of w ms = Some h /\ 0 < h
  end.

Definition private_ok (m : Z) (sus : option Z) (mon : Monitor) : Prop :=
  ms !! m = Some mon /\ 0 <= m <= kMaxMonitorId /\ dec w <> Fat m
  /\ inflatable (owner_ mon) sus (hash_code_ mon).

Definition pc_ok (p : pc) : Prop :=
  match p with
  | Idle | Load _ | Resume _ _ => True
  | Have _ lw => have_ok lw
  | Suspend _ o h => 0 < o <= kThinLockMaxOwner /\ o <> t /\ 0 <= h <= kMaxHash
  | Requested _ o h => 0 < o <= kThinLockMaxOwner /\ o <> t /\ 0 <= h <= kMaxHash
  | Suspended _ o h | Recheck _ o h => 0 < o <= kThinLockMaxOwner /\ 0 <= h <= kMaxHash
  | Create _ owner h sus => inflatable owner sus h
  | Install _ m sus => exists mon, private_ok m sus mon
  | InstallCas _ m sus lw =>
      exists mon, private_ok m sus mon /\ word_ok lw
      /\ match dec lw with
         | Thin o c => owner_ mon = Some o /\ lock_count_ mon = c
         | Hashed h => owner_ mon = None /\ hash_code_ mon = h
         | _ => False
         end
  | Inflated _ _ => exists m, dec w = Fat m
  | FatLock m None | FatBlocked m None | FatUnlock m | FatWait m | FatNotify m _ | HashFat m =>
      dec w = Fat m
  | FatLock m (Some prev) | FatBlocked m (Some prev) | Waiting m prev =>
      dec w = Fat m /\ not_held /\ 0 <= prev <= INT32_MAX
  | WaitRestore m prev => dec w = Fat m /\ holder_of w ms = Some (t, 1) /\ 0 <= prev <= INT32_MAX
  | HashReturn h => hash_of w ms = Some h
  | Aborted => False
  end.
End Local.

Record inv (s : world) : Prop := {
  i_word : word_ok (lock_word s);
  i_fat : forall m, dec (lock_word s) = Fat m -> is_Some (monitors s !! m);
  i_mon : map_Forall (fun _ => mon_ok) (monitors s);
  i_ids : map_Forall (fun t _ => 0 < t <= kThinLockMaxOwner) (threads s);
  i_pc : map_Forall (pc_ok (lock_word s) (monitors s)) (threads s);
  i_susp : forall t p o, threads s !! t = Some p -> suspends p = Some o ->
    o <> t /\ exists q, threads s !! o = Some q /\ safepoint q = true;
  i_wait : forall m mon, monitors s !! m = Some mon -> num_waiters_ mon = waiters m (threads s);
  i_priv : forall t1 t2 p1 p2 m, threads s !! t1 = Some p1 -> threads s !! t2 = Some p2 -> t1 <> t2 ->
    private p1 = Some m -> private p2 <> Some m
}.

(** ** Counting waiters *)
Lemma wt_nonneg m p : 0 <= wt m p.
Proof. destruct p; cbn; repeat case_match; lia. Qed.

Lemma waiters_new m t p ths :
  ths !! t = None -> waiters m (<[t := p]> ths) = wt m p + waiters m ths.
Proof.
  intros Hn. unfold waiters. rewrite map_fold_insert_L; [done| |done]. intros. lia.
Qed.
Lemma waiters_delete m t p ths :
  ths !! t = Some p -> waiters m ths = wt m p + waiters m (delete t ths).
Proof.
  intros Hp. rewrite <- (waiters_new m t p) by apply lookup_delete_eq. by rewrite insert_delete_id.
Qed.
Lemma waiters_insert m t p p' ths :
  ths !! t = Some p -> waiters m (<[t := p']> ths) = waiters m ths - wt m p + wt m p'.
Proof.
  intros Hp. rewrite (waiters_delete m t p ths Hp), <- insert_delete_eq.
  rewrite waiters_new by apply lookup_delete_eq. lia.
Qed.
Lemma waiters_nonneg m ths : 0 <= waiters m ths.
Proof.
  induction ths as [|t p ths Hn IH] using map_ind; [done|].
  rewrite waiters_new by done. pose proof (wt_nonneg m p). lia.
Qed.
Lemma waiters_ge m t p ths : ths !! t = Some p -> wt m p <= waiters m ths.
Proof. intros Hp. rewrite (waiters_delete m t p ths Hp). pose proof (waiters_nonneg m (delete t ths)). lia. Qed.
Lemma waiters_none m ths : map_Forall (fun _ p => wt m p = 0) ths -> waiters m ths = 0.
Proof.
  induction ths as [|t p ths Hn IH] using map_ind; [done|]. intros [Hp Hf]%map_Forall_insert; [|done].
  rewrite waiters_new, Hp, IH by done. done.
Qed.

(** ** What a step of one thread leaves to the others *)

(** No other thread has suspended this one. *)
Definition not_acked (s : world) (t : Z) : Prop :=
  map_Forall (fun _ p => suspends p <> Some t) (threads s).
Lemma requests_suspends p t : suspends p = Some t -> requests p = Some t.
Proof. by destruct p. Qed.
Lemma awake_not_acked s t : not_suspended s t -> not_acked s t.
Proof. intros Hn u p Hp Hs. by apply (Hn u p Hp), requests_suspends. Qed.

Record frame (t : Z) (s : world) (w : Z) (ms : gmap Z Monitor) : Prop := {
  f_fat : forall m, dec (lock_word s) = Fat m -> dec w = Fat m;
  f_hold : forall u n, u <> t ->
    (holder_of (lock_word s) (monitors s) = Some (u, n) <-> holder_of w ms = Some (u, n));
  f_hash : forall h, hash_of (lock_word s) (monitors s) = Some h -> hash_of w ms = Some h;
  f_thin : forall o c, dec (lock_word s) = Thin o c -> o <> t ->
    dec w = Thin o c
    \/ ((exists m, dec w = Fat m) /\ exists q, threads s !! o = Some q /\ safepoint q = true);
  f_self : ~ not_acked s t -> dec w = dec (lock_word s);
  f_priv : forall u q m, u <> t -> threads s !! u = Some q -> private q = Some m ->
    ms !! m = monitors s !! m /\ (dec (lock_word s) <> Fat m -> dec w <> Fat m)
}.

Lemma suspended_by s t u p : threads s !! u = Some p -> suspends p = Some t -> ~ not_acked s t.
Proof. intros Hu Hs Hn. by specialize (Hn u p Hu). Qed.

Lemma inflatable_frame s w ms t u q owner sus h :
  frame t s w ms -> u <> t -> threads s !! u = Some q -> suspends q = sus ->
  inflatable (lock_word s) (monitors s) u owner sus h -> inflatable w ms u owner sus h.
Proof.
  intros [] Hu Hq Hs [Hh Ho]. split; [done|]. destruct owner as [o|].
  - destruct Ho as (Hsus & Hr & Hw). split; [done|]. split; [done|].
    destruct Hw as [[c Hc]|[m Hm]]; [|right; eauto].
    destruct (decide (o = t)) as [->|Hne].
    + left. exists c. rewrite f_self0; [done|]. destruct Hsus as [[-> ->]| ->]; [done|].
      by eapply suspended_by.
    + destruct (f_thin0 o c Hc Hne) as [|[? _]]; eauto.
  - destruct Ho as (? & ? & ?). eauto.
Qed.

Lemma private_ok_frame s w ms t u q m sus mon :
  frame t s w ms -> u <> t -> threads s !! u = Some q -> suspends q = sus -> private q = Some m ->
  private_ok (lock_word s) (monitors s) u m sus mon -> private_ok w ms u m sus mon.
Proof.
  intros Hf Hu Hq Hs Hp (Hm & Hr & Hn & Hi).
  destruct (f_priv _ _ _ _ Hf u q m Hu Hq Hp) as [E1 E2].
  split; [by rewrite E1|]. split; [done|]. split; [by apply E2|]. by eapply inflatable_frame.
Qed.

Lemma not_held_frame s w ms t u :
  frame t s w ms -> u <> t -> not_held (lock_word s) (monitors s) u -> not_held w ms u.
Proof. intros Hf Hu Hn n Hh. by apply (Hn n), (f_hold _ _ _ _ Hf). Qed.

Lemma have_ok_frame s w ms t u q lw :
  frame t s w ms -> u <> t -> threads s !! u = Some q -> safepoint q = false ->
  have_ok (lock_word s) (monitors s) u lw -> have_ok w ms u lw.
Proof.
  intros Hf Hu Hq Hsafe [Hw Ho]. split; [done|].
  destruct (dec lw) as [|o c|m|h|]; [| | | |done].
  - by eapply not_held_frame.
  - destruct (Z.eqb_spec o u) as [->|]; [|by eapply not_held_frame].
    destruct (f_thin _ _ _ _ Hf u c Ho Hu) as [|[_ (q' & Hq' & Hs')]]; [done|]. congruence.
  - by apply (f_fat _ _ _ _ Hf).
  - destruct Ho as [Ho Hh]. split; [by eapply not_held_frame|by apply (f_hash _ _ _ _ Hf)].
Qed.

Lemma pc_ok_frame s w ms t u q :
  frame t s w ms -> u <> t -> threads s !! u = Some q ->
  pc_ok (lock_word s) (monitors s) u q -> pc_ok w ms u q.
Proof.
  intros Hf Hu Hq. pose proof (f_fat _ _ _ _ Hf) as Hfat.
  pose proof (not_held_frame _ _ _ _ _ Hf Hu) as Hnh.
  destruct q; cbn [pc_ok]; try done; try (naive_solver; fail).
  - by eapply have_ok_frame.
  - by eapply inflatable_frame.
  - intros [mon Hm]. exists mon. by eapply private_ok_frame.
  - intros (mon & Hm & Hr). exists mon. split; [by eapply private_ok_frame|done].
  - destruct w0; naive_solver.
  - destruct w0; naive_solver.
  - intros (Hm & Hh & Hp). split; [by apply Hfat|]. split; [by apply (f_hold _ _ _ _ Hf)|done].
  - apply (f_hash _ _ _ _ Hf).
Qed.

(** ** A step of one thread *)
Record good_effect (t : Z) (s : world) (p : pc) (e : event) (p' : pc) (w : Z) (ms : gmap Z Monitor)
  : Prop := {
  g_word : word_ok w;
  g_fat : forall m, dec w = Fat m -> is_Some (ms !! m);
  g_mon : map_Forall (fun _ => mon_ok) ms;
  g_pc : pc_ok w ms t p';
  g_frame : frame t s w ms;
  g_wait : forall m mon, ms !! m = Some mon -> num_waiters_ mon = waiters m (threads s) - wt m p + wt m p';
  g_priv : forall m, private p' = Some m -> private p = Some m \/ monitors s !! m = None;
  g_susp : forall o, suspends p' = Some o ->
    suspends p = Some o \/ (o <> t /\ exists q, threads s !! o = Some q /\ safepoint q = true);
  g_safe : safepoint p = true -> safepoint p' = true \/ not_acked s t;
  g_abs : abs_step (abs s) e (mkAlock (holder_of w ms) (hash_of w ms) (omap pc_saved (<[t := p']> (threads s))))
}.

Lemma private_in_dom s u q m : inv s -> threads s !! u = Some q -> private q = Some m -> is_Some (monitors s !! m).
Proof.
  intros Hi Hq Hp. pose proof (i_pc _ Hi u q Hq) as Ho. destruct q; try done; cbn in Hp; simplify_eq.
  - by destruct Ho as (mon & -> & _).
  - by destruct Ho as (mon & (-> & _) & _).
Qed.

Lemma inv_step t s p e p' w ms :
  inv s -> threads s !! t = Some p -> good_effect t s p e p' w ms ->
  inv (mkWorld w ms (<[t := p']> (threads s))).
Proof.
  intros Hi Hp [Hw Hfat Hmon Hpc Hf Hwt Hpr Hsu Hsa _]. split; cbn [lock_word monitors threads]; try done.
  - apply map_Forall_insert_2; [by apply (i_ids _ Hi t p Hp)|apply Hi].
  - intros u q [[<- <-]|[Hne Hq]]%lookup_insert_Some; [done|].
    eapply pc_ok_frame; [done|done|done|]. by apply (i_pc _ Hi).
  - assert (forall o, (exists q, threads s !! o = Some q /\ safepoint q = true) -> (exists u p0, threads s !! u = Some p0 /\ suspends p0 = Some o) \/ o <> t ->
            exists q, <[t := p']> (threads s) !! o = Some q /\ safepoint q = true) as Hkeep.
    { intros o (q & Hq & Hs) Ho. destruct (decide (o = t)) as [->|Hne].
      - rewrite lookup_insert_eq. exists p'. split; [done|]. assert (q = p) as -> by congruence.
        destruct (Hsa Hs) as [|Hns]; [done|]. destruct Ho as [(u & p0 & Hu & Hs0)|]; [|done].
        by destruct (suspended_by _ _ _ _ Hu Hs0).
      - rewrite lookup_insert_ne by done. eauto. }
    intros u q o [[<- <-]|[Hne Hq]]%lookup_insert_Some Hs.
    + destruct (Hsu o Hs) as [Hs'|[Ho Hq]].
      * destruct (i_susp _ Hi t p o Hp Hs') as [Ho Hq]. split; [done|]. by apply Hkeep; [|right].
      * split; [done|]. by apply Hkeep; [|right].
    + destruct (i_susp _ Hi u q o Hq Hs) as [Ho Hq']. split; [done|]. apply Hkeep; [done|]. left. eauto.
  - intros m mon Hm. rewrite (waiters_insert m t p p' _ Hp). by apply Hwt.
  - assert (forall u q m, u <> t -> threads s !! u = Some q -> private p' = Some m -> private q <> Some m) as Hx.
    { intros u q m Hne Hq Hp' Hq'. destruct (Hpr m Hp') as [Hpp|Hnone].
      - by apply (i_priv _ Hi t u p q m Hp Hq (not_eq_sym Hne) Hpp).
      - destruct (private_in_dom s u q m Hi Hq Hq') as [? ?]. congruence. }
    intros t1 t2 p1 p2 m [[<- <-]|[Hn1 H1]]%lookup_insert_Some [[<- <-]|[Hn2 H2]]%lookup_insert_Some Hne Hp1 Hp2.
    + done.
    + by eapply Hx.
    + by eapply (Hx t1 p1 m).
    + by eapply (i_priv _ Hi t1 t2).
Qed.

(** ** The kinds of effects *)
Lemma saved_same (ths : gmap Z pc) t p p' :
  ths !! t = Some p -> pc_saved p' = pc_saved p -> omap pc_saved (<[t := p']> ths) = omap pc_saved ths.
Proof.
  intros Hp Hs. apply map_eq. intros u. rewrite !lookup_omap. destruct (decide (u = t)) as [->|].
  - rewrite lookup_insert_eq, Hp. exact Hs.
  - by rewrite lookup_insert_ne by done.
Qed.

Section OneThread.
Context (t : Z) (s : world) (p : pc) (Hi : inv s) (Hp : threads s !! t = Some p).
#[local] Abbreviation W := (lock_word s).
#[local] Abbreviation ms := (monitors s).

Lemma own_id : 0 < t <= kThinLockMaxOwner.
Proof. exact (i_ids _ Hi t p Hp). Qed.
Lemma own_pc : pc_ok W ms t p.
Proof. exact (i_pc _ Hi t p Hp). Qed.

Lemma running : safepoint p = false -> not_acked s t.
Proof.
  intros Hs u q Hq Hsus. destruct (i_susp _ Hi u q t Hq Hsus) as (_ & q' & Hq' & Hsafe). congruence.
Qed.

Lemma frame_same : frame t s W ms.
Proof. split; try done. by left. Qed.

(** Shared memory does not change. *)
Lemma good_stay e p' :
  pc_ok W ms t p' -> (forall m, wt m p' = wt m p) -> pc_saved p' = pc_saved p -> private p' = None ->
  (forall o, suspends p' = Some o ->
    suspends p = Some o \/ (o <> t /\ exists q, threads s !! o = Some q /\ safepoint q = true)) ->
  (safepoint p = true -> safepoint p' = true \/ not_acked s t) ->
  abs_step (abs s) e (abs s) -> good_effect t s p e p' W ms.
Proof.
  intros Hpc Hwt Hsv Hpr Hsu Hsa Habs. split; try done; try apply Hi.
  - apply frame_same.
  - intros m mon Hm. rewrite Hwt, (i_wait _ Hi m mon Hm). lia.
  - congruence.
  - rewrite (saved_same _ t p p') by done. exact Habs.
Qed.

(** The lock word changes between unlocked, hashed and thin for this thread. *)
Lemma frame_thin w :
  not_acked s t ->
  (dec W = Unlocked \/ exists c, dec W = Thin t c) ->
  (dec w = Unlocked \/ (exists c, dec w = Thin t c) \/ exists h, dec w = Hashed h) ->
  frame t s w ms.
Proof.
  intros Hr HW Hw. split.
  - intros m Hm. destruct HW as [E|[c E]]; congruence.
  - intros u n Hu. unfold holder_of.
    destruct HW as [->|[c ->]]; destruct Hw as [->|[[c' ->]|[h ->]]]; naive_solver.
  - intros h. unfold hash_of. by destruct HW as [->|[c ->]].
  - intros o c Ho Hne. destruct HW as [E|[c' E]]; congruence.
  - done.
  - intros u q m Hu Hq Hpr. split; [done|]. intros _.
    destruct Hw as [->|[[c' ->]|[h ->]]]; done.
Qed.

Lemma good_thin e w p' :
  safepoint p = false -> (p' = Idle \/ exists h, p' = HashReturn h /\ dec w = Hashed h) ->
  (forall m, wt m p = 0) -> pc_saved p = None -> word_ok w ->
  (dec W = Unlocked \/ exists c, dec W = Thin t c) ->
  (dec w = Unlocked \/ (exists c, dec w = Thin t c) \/ exists h, dec w = Hashed h) ->
  abs_step (abs s) e (mkAlock (holder_of w ms) (hash_of w ms) (saved (abs s))) ->
  good_effect t s p e p' w ms.
Proof.
  intros Hsafe Hp' Hwt Hsv Hword HW Hw Habs.
  assert (private p' = None /\ suspends p' = None /\ (forall m, wt m p' = 0) /\ pc_saved p' = None)
    as (Hpr & Hsu & Hwt' & Hsv') by (by destruct Hp' as [->|(h & -> & _)]).
  split; try done.
  - intros m Hm. destruct Hw as [E|[[c E]|[h E]]]; congruence.
  - apply Hi.
  - destruct Hp' as [->|(h & -> & E)]; [done|]. cbn. unfold hash_of. by rewrite E.
  - apply frame_thin; [by apply running|done|done].
  - intros m mon Hm. rewrite Hwt, Hwt', (i_wait _ Hi m mon Hm). lia.
  - congruence.
  - congruence.
  - congruence.
  - rewrite (saved_same _ t p p') by congruence. exact Habs.
Qed.

(** The published monitor changes. *)
Lemma frame_mon m mon mon' :
  dec W = Fat m -> ms !! m = Some mon ->
  (owner_ mon' = owner_ mon /\ lock_count_ mon' = lock_count_ mon
   \/ (owner_ mon = None \/ owner_ mon = Some t) /\ (owner_ mon' = None \/ owner_ mon' = Some t)) ->
  (hash_code_ mon <> 0 -> hash_code_ mon' = hash_code_ mon) ->
  frame t s W (<[m := mon']> ms).
Proof.
  intros HW Hm Ho Hh. split; try done.
  - intros u n Hu. unfold holder_of. rewrite HW, Hm, lookup_insert_eq.
    destruct Ho as [[-> ->]|[[->| ->] [->| ->]]]; naive_solver.
  - intros h. unfold hash_of. rewrite HW, Hm, lookup_insert_eq.
    destruct (Z.eqb_spec (hash_code_ mon) 0) as [|Hne]; [done|]. intros [= <-].
    rewrite Hh by done. by destruct (Z.eqb_spec (hash_code_ mon) 0).
  - by left.
  - intros u q m' Hu Hq Hpr. split; [|done]. apply lookup_insert_ne. intros ->.
    pose proof (i_pc _ Hi u q Hq) as Hok. destruct q; try done; cbn in Hpr; simplify_eq.
    + destruct Hok as (? & _ & _ & ? & _). done.
    + destruct Hok as (? & (_ & _ & ? & _) & _). done.
Qed.

Lemma wt_fat m q : pc_ok W ms t q -> wt m q <> 0 -> dec W = Fat m.
Proof.
  destruct q; cbn [pc_ok wt]; try done.
  all: repeat match goal with |- context [match ?o with Some _ => _ | None => _ end] => destruct o end.
  all: match goal with |- context [?a =? ?b] => destruct (Z.eqb_spec a b) as [->|] | _ => idtac end.
  all: try done; by intros (? & _).
Qed.
Lemma no_waiters_elsewhere m m' q : pc_ok W ms t q -> dec W = Fat m -> m' <> m -> wt m' q = 0.
Proof.
  intros Hok HW Hne. destruct (decide (wt m' q = 0)) as [|Hw]; [done|].
  apply wt_fat in Hw; [congruence|done].
Qed.

Lemma good_mon e p' m mon mon' :
  dec W = Fat m -> ms !! m = Some mon -> mon_ok mon' ->
  pc_ok W (<[m := mon']> ms) t p' ->
  (owner_ mon' = owner_ mon /\ lock_count_ mon' = lock_count_ mon
   \/ (owner_ mon = None \/ owner_ mon = Some t) /\ (owner_ mon' = None \/ owner_ mon' = Some t)) ->
  (hash_code_ mon <> 0 -> hash_code_ mon' = hash_code_ mon) ->
  num_waiters_ mon' = num_waiters_ mon - wt m p + wt m p' ->
  (forall m', m' <> m -> wt m' p' = 0) ->
  private p' = None -> suspends p' = None ->
  (safepoint p = true -> safepoint p' = true \/ not_acked s t) ->
  abs_step (abs s) e (mkAlock (holder_of W (<[m := mon']> ms)) (hash_of W (<[m := mon']> ms))
                        (omap pc_saved (<[t := p']> (threads s)))) ->
  good_effect t s p e p' W (<[m := mon']> ms).
Proof.
  intros HW Hm Hmon Hpc Ho Hh Hn Hwt Hpr Hsu Hsa Habs. split; try done.
  - apply Hi.
  - intros m' Hm'. rewrite lookup_insert_is_Some'. right. by apply (i_fat _ Hi).
  - apply map_Forall_insert_2; [done|apply Hi].
  - by eapply frame_mon.
  - intros m' mon1 [[<- <-]|[Hne Hm1]]%lookup_insert_Some.
    + rewrite Hn, (i_wait _ Hi m mon Hm). done.
    + rewrite Hwt, (no_waiters_elsewhere m m' p own_pc HW), (i_wait _ Hi m' mon1 Hm1) by done. lia.
  - congruence.
  - congruence.
Qed.
End OneThread.

(** ** Lock words the operations make *)
Lemma dec_state lw : word_ok lw ->
  match GetState lw with
  | kUnlocked => dec lw = Unlocked
  | kThinLocked => dec lw = Thin (ThinLockOwner lw) (ThinLockCount lw)
  | kFatLocked => dec lw = Fat (FatLockMonitorId lw)
  | kHashCode => dec lw = Hashed (GetHashCode lw)
  | kForwardingAddress => False
  end.
Proof. intros (_ & _ & H). unfold decode in *. by destruct (GetState lw). Qed.

Lemma dec_lock_ok lw : word_ok lw -> lock_ok (dec lw).
Proof. intros (H & Hr & _). by apply decode_ok. Qed.

Section NewWords.
Context (lw : Z) (Hlw : word_ok lw).
#[local] Abbreviation rb := (ReadBarrierState lw).

Lemma rb_range : 0 <= rb < 4.
Proof. by apply ReadBarrierState_range, Hlw. Qed.

Lemma word_ok_word low st :
  0 <= low < 2 ^ 28 -> 0 <= st < 3 ->
  match dec (word low rb st) with Forwarded _ => False | Thin o _ => 0 < o | Hashed h => 0 < h | _ => True end ->
  word_ok (word low rb st).
Proof.
  intros Hl Hs Hd. pose proof rb_range. split; [apply word_range; lia|]. split; [|done].
  rewrite ReadBarrierState_word by lia. apply Hlw.
Qed.

Lemma thin_word o c :
  0 < o <= kThinLockMaxOwner -> 0 <= c <= kThinLockMaxCount ->
  exists v, FromThinLockId o c rb = Some v /\ word_ok v /\ dec v = Thin o c.
Proof.
  intros Ho Hc. pose proof rb_range. eexists. split; [apply FromThinLockId_word; lia|].
  assert (dec (word (o + c * 2 ^ 16) rb 0) = Thin o c) as E by (apply decode_thin; [done|apply Hlw|done|done]).
  split; [|done]. apply word_ok_word; [|lia|rewrite E; (done || lia)].
  change kThinLockMaxOwner with 65535 in *. change kThinLockMaxCount with 4095 in *. lia.
Qed.
Lemma default_word : word_ok (FromDefault rb) /\ dec (FromDefault rb) = Unlocked.
Proof.
  pose proof rb_range. rewrite FromDefault_word by done.
  assert (dec (word 0 rb 0) = Unlocked) as E by (apply decode_default; [done|apply Hlw]).
  split; [|done]. apply word_ok_word; [lia|lia|rewrite E; (done || lia)].
Qed.
Lemma hash_word h :
  0 < h <= kMaxHash -> exists v, FromHashCode h rb = Some v /\ word_ok v /\ dec v = Hashed h.
Proof.
  intros Hh. pose proof rb_range. eexists. split; [apply FromHashCode_word; lia|].
  assert (dec (word h rb 2) = Hashed h) as E by (apply decode_hash; [done|apply Hlw|lia]).
  split; [|done]. apply word_ok_word; [|lia|rewrite E; (done || lia)]. change kMaxHash with 268435455 in *. lia.
Qed.
Lemma monitor_word m :
  0 <= m <= kMaxMonitorId -> word_ok (FromMonitor m rb) /\ dec (FromMonitor m rb) = Fat m.
Proof.
  intros Hm. pose proof rb_range. rewrite FromMonitor_word by done.
  assert (dec (word m rb 1) = Fat m) as E by (apply decode_fat; [done|apply Hlw|done]).
  split; [|done]. apply word_ok_word; [|lia|rewrite E; (done || lia)]. change kMaxMonitorId with 268435455 in *. lia.
Qed.
End NewWords.

Lemma cas_some c w old new v : cas c w old new = Some v -> w = old /\ v = new.
Proof. unfold cas. destruct (spurious c); [done|]. destruct (Z.eqb_spec w old); [|done]. by intros [= ->]. Qed.

(** ** The switches on the lock word *)
Section Have.
Context (t : Z) (c : choice) (s : world) (o : op) (lw : Z).
Context (Hi : inv s) (Hp : threads s !! t = Some (Have o lw)).
#[local] Abbreviation W := (lock_word s).
#[local] Abbreviation ms := (monitors s).
#[local] Abbreviation p := (Have o lw).

(** A move to a point that is not counted anywhere. *)
Lemma have_stay e p' :
  pc_ok W ms t p' -> (forall m, wt m p' = 0) -> pc_saved p' = None -> private p' = None ->
  suspends p' = None -> abs_step (abs s) e (abs s) -> good_effect t s p e p' W ms.
Proof.
  intros. apply good_stay; try done. intros o' Ho. congruence.
Qed.

Lemma have_word : word_ok lw.
Proof. apply (own_pc t s p Hi Hp). Qed.

Lemma have_illegal : not_held W ms t -> good_effect t s p (Illegal t) Idle W ms.
Proof. intros Hn. apply have_stay; try done. by apply abs_illegal. Qed.

Lemma have_store e new v c0 :
  dec lw = Thin t c0 -> new = Some v -> word_ok v ->
  (dec v = Unlocked \/ exists c', dec v = Thin t c') ->
  abs_step (mkAlock (Some (t, c0 + 1)) None (saved (abs s))) e
    (mkAlock (holder_of v ms) None (saved (abs s))) ->
  forall e' p' w' ms', store_lock_word urb c s o lw new e = (e', p', w', ms') ->
  good_effect t s p e' p' w' ms'.
Proof.
  intros Hd -> Hv Hdv Habs e' p' w' ms' Hst.
  pose proof (own_pc t s p Hi Hp) as [_ HW]. rewrite Hd, Z.eqb_refl in HW.
  assert (good_effect t s p e Idle v ms) as Hgood.
  { apply good_thin; try done; [by left|right; eauto|naive_solver|].
    unfold abs, holder_of at 1, hash_of. rewrite HW.
    destruct Hdv as [E|[c' E]]; unfold holder_of in *; rewrite E in *; done. }
  unfold store_lock_word in Hst. destruct urb; cbn [negb] in Hst; [|by simplify_eq].
  destruct (cas _ _ _ _) as [w|] eqn:Ec; simplify_eq.
  - by apply cas_some in Ec as [_ ->].
  - by apply have_stay; try done; apply abs_tau.
Qed.

(** What the loaded word says, by its state. *)
Lemma have_cases :
  match GetState lw with
  | kUnlocked => dec lw = Unlocked /\ not_held W ms t
  | kThinLocked =>
      exists k, dec lw = Thin (ThinLockOwner lw) k /\ ThinLockCount lw = k
      /\ 0 < ThinLockOwner lw <= kThinLockMaxOwner /\ 0 <= k <= kThinLockMaxCount
      /\ (ThinLockOwner lw = t /\ dec W = Thin t k \/ ThinLockOwner lw <> t /\ not_held W ms t)
  | kFatLocked => dec W = Fat (FatLockMonitorId lw)
  | kHashCode =>
      not_held W ms t /\ hash_of W ms = Some (GetHashCode lw) /\ 0 < GetHashCode lw <= kMaxHash
  | kForwardingAddress => False
  end.
Proof.
  pose proof (own_pc t s p Hi Hp) as [Hw Ho]. pose proof (dec_state lw Hw) as Hd.
  pose proof (dec_lock_ok lw Hw) as Hl. destruct Hw as (_ & _ & Hpos).
  destruct (GetState lw); try done; rewrite Hd in Ho, Hl, Hpos; cbn in Hl; try done.
  - eexists. split; [done|]. split; [done|]. split; [lia|]. split; [lia|].
    destruct (Z.eqb_spec (ThinLockOwner lw) t) as [E|]; [left|by right]. by rewrite <- E at 2.
  - destruct Ho as [? ?]. split; [done|]. split; [done|lia].
Qed.
End Have.

Section Switches.
Context (t : Z) (c : choice) (s : world) (lw : Z) (Hi : inv s).
#[local] Abbreviation W := (lock_word s).
#[local] Abbreviation ms := (monitors s).

Lemma have_enter_good n e p' w' ms' :
  threads s !! t = Some (Have (OpEnter n) lw) ->
  have_enter urb max_spins t c s n lw = (e, p', w', ms') ->
  good_effect t s (Have (OpEnter n) lw) e p' w' ms'.
Proof.
  intros Hp He. pose proof (own_id t s _ Hi Hp) as Hid. pose proof (have_word t s _ lw Hi Hp) as Hw.
  pose proof (have_cases t s _ lw Hi Hp) as Hc. unfold have_enter in He.
  destruct (GetState lw) eqn:Es.
  - destruct Hc as [Hd Hn]. destruct (thin_word lw Hw t 0) as (v & Ev & Hv & Hdv); [done|done|].
    rewrite Ev in He. destruct (cas _ _ _ _) as [w|] eqn:Ec; simplify_eq.
    + apply cas_some in Ec as [EW ->]. rewrite <- EW in Hd.
      apply good_thin; try done; [by left|by left|right; eauto|].
      unfold abs, holder_of, hash_of. rewrite Hd, Hdv. apply abs_acquire.
    + by apply have_stay; try done; apply abs_tau.
  - destruct Hc as (k & Hd & Ek & Ho & Hk & Hcase). rewrite Ek in He.
    destruct (Z.eqb_spec (ThinLockOwner lw) t) as [E|Hne].
    + destruct Hcase as [[_ HW]|[]]; [|done]. rewrite E in Hd. destruct (Z.leb_spec (k + 1) kThinLockMaxCount).
      * destruct (thin_word lw Hw t (k + 1)) as (v & Ev & Hv & Hdv); [done|lia|].
        eapply (have_store t c s (OpEnter n) lw Hi Hp (Acquire t) _ v k); try done; [eauto|].
        unfold holder_of. rewrite Hdv. apply abs_reacquire. lia.
      * simplify_eq. apply have_stay; try done; [|apply abs_tau]. split; [done|]. split; [by left|].
        split; [done|]. left. eauto.
    + destruct (_ <=? max_spins); simplify_eq; apply good_stay; try done; try apply abs_tau.
  - simplify_eq. by apply have_stay; try done; apply abs_tau.
  - simplify_eq. destruct Hc as (Hn & Hh & Hr). apply have_stay; try done; [|apply abs_tau].
    split; [lia|]. split; [done|]. split; [done|lia].
  - done.
Qed.

Lemma have_exit_good e p' w' ms' :
  threads s !! t = Some (Have OpExit lw) ->
  have_exit urb t c s lw = (e, p', w', ms') -> good_effect t s (Have OpExit lw) e p' w' ms'.
Proof.
  intros Hp He. pose proof (own_id t s _ Hi Hp) as Hid. pose proof (have_word t s _ lw Hi Hp) as Hw.
  pose proof (have_cases t s _ lw Hi Hp) as Hc. unfold have_exit in He.
  destruct (GetState lw) eqn:Es; try done.
  - simplify_eq. destruct Hc. by apply have_illegal.
  - destruct Hc as (k & Hd & Ek & Ho & Hk & Hcase). rewrite Ek in He.
    destruct (Z.eqb_spec (ThinLockOwner lw) t) as [E|Hne]; cbn [negb] in He.
    + destruct Hcase as [[_ HW]|[]]; [|done]. rewrite E in Hd. destruct (Z.eqb_spec k 0) as [E0|]; cbn [negb] in He.
      * destruct (default_word lw Hw) as [Hv Hdv]. rewrite E0 in Hd.
        eapply (have_store t c s OpExit lw Hi Hp (Release t) _ _ 0); try done; [eauto|].
        unfold holder_of. rewrite Hdv. apply abs_release.
      * destruct (thin_word lw Hw t (k - 1)) as (v & Ev & Hv & Hdv); [done|lia|].
        eapply (have_store t c s OpExit lw Hi Hp (Release t) _ v k); try done; [eauto|].
        unfold holder_of. rewrite Hdv. replace (k - 1 + 1) with k by lia. apply abs_unlock. lia.
    + simplify_eq. destruct Hcase as [[]|[]]; [done|]. by apply have_illegal.
  - simplify_eq. by apply have_stay; try done; apply abs_tau.
  - simplify_eq. destruct Hc as (? & _). by apply have_illegal.
Qed.

Lemma have_wait_good e p' :
  threads s !! t = Some (Have OpWait lw) -> have_wait urb t lw = (e, p') ->
  good_effect t s (Have OpWait lw) e p' W ms.
Proof.
  intros Hp He. pose proof (have_cases t s _ lw Hi Hp) as Hc. unfold have_wait in He.
  destruct (GetState lw) eqn:Es; try done.
  - simplify_eq. destruct Hc. by apply have_illegal.
  - destruct Hc as (k & Hd & Ek & Ho & Hk & Hcase).
    destruct (Z.eqb_spec (ThinLockOwner lw) t) as [E|Hne]; cbn [negb] in He; injection He as <- <-.
    + destruct Hcase as [[_ HW]|[]]; [|done]. apply have_stay; try done; [|apply abs_tau].
      split; [done|]. split; [by left|]. split; [lia|]. left. eauto.
    + destruct Hcase as [[]|[]]; [done|]. by apply have_illegal.
  - simplify_eq. by apply have_stay; try done; apply abs_tau.
  - simplify_eq. destruct Hc as (? & _). by apply have_illegal.
Qed.

Lemma have_notify_good all e p' :
  threads s !! t = Some (Have (OpNotify all) lw) -> have_notify urb t all lw = (e, p') ->
  good_effect t s (Have (OpNotify all) lw) e p' W ms.
Proof.
  intros Hp He. pose proof (have_cases t s _ lw Hi Hp) as Hc. unfold have_notify in He.
  destruct (GetState lw) eqn:Es; try done.
  - simplify_eq. destruct Hc. by apply have_illegal.
  - destruct Hc as (k & Hd & Ek & Ho & Hk & Hcase).
    destruct (Z.eqb_spec (ThinLockOwner lw) t) as [E|Hne]; cbn [negb] in He; injection He as <- <-.
    + by apply have_stay; try done; apply abs_tau.
    + destruct Hcase as [[]|[]]; [done|]. by apply have_illegal.
  - simplify_eq. by apply have_stay; try done; apply abs_tau.
  - simplify_eq. destruct Hc as (? & _). by apply have_illegal.
Qed.

Lemma valid_hash_range h : valid_hash h = true -> 0 < h <= kMaxHash.
Proof. unfold valid_hash. rewrite andb_true_iff, Z.ltb_lt, Z.leb_le. done. Qed.

Lemma have_hash_good e p' w' ms' :
  threads s !! t = Some (Have OpHash lw) ->
  have_hash urb t c s lw = Some (e, p', w', ms') -> good_effect t s (Have OpHash lw) e p' w' ms'.
Proof.
  intros Hp He. pose proof (have_word t s _ lw Hi Hp) as Hw.
  pose proof (have_cases t s _ lw Hi Hp) as Hc. unfold have_hash in He.
  destruct (GetState lw) eqn:Es; try done.
  - destruct (valid_hash (new_hash c)) eqn:Ev; [|done]. apply valid_hash_range in Ev.
    destruct Hc as [Hd Hn]. destruct (hash_word lw Hw _ Ev) as (v & Efv & Hv & Hdv).
    cbn [negb] in He. rewrite Efv in He. destruct (cas _ _ _ _) as [w|] eqn:Ec; simplify_eq.
    + apply cas_some in Ec as [EW ->]. rewrite <- EW in Hd.
      assert (GetHashCode v = new_hash c) as Eh.
      { pose proof (dec_state v Hv) as Hs. rewrite Hdv in Hs. destruct (GetState v); try done; congruence. }
      apply good_thin; try done; [right; rewrite Eh; eauto|by left|eauto|].
      unfold abs, holder_of, hash_of. rewrite Hd, Hdv. apply abs_hash.
    + by apply have_stay; try done; apply abs_tau.
  - destruct (valid_hash (new_hash c)) eqn:Ev; [|done]. apply valid_hash_range in Ev.
    destruct Hc as (k & Hd & Ek & Ho & Hk & Hcase). cbn [negb] in He.
    destruct (Z.eqb_spec (ThinLockOwner lw) t) as [E|Hne]; injection He as <- <- <- <-.
    + destruct Hcase as [[_ HW]|[]]; [|done]. apply have_stay; try done; [|apply abs_tau].
      split; [lia|]. split; [by left|]. split; [lia|]. left. eauto.
    + apply good_stay; try done; [|apply abs_tau]. split_and!; try done; lia.
  - simplify_eq. by apply have_stay; try done; apply abs_tau.
  - simplify_eq. destruct Hc as (Hn & Hh & Hr). apply have_stay; try done. by apply abs_result.
Qed.
End Switches.

(** ** Inflation *)
Lemma view_except w ms ms' m :
  dec w <> Fat m -> (forall m', m' <> m -> ms' !! m' = ms !! m') ->
  holder_of w ms' = holder_of w ms /\ hash_of w ms' = hash_of w ms.
Proof.
  intros Hw Hms. unfold holder_of, hash_of. destruct (dec w) as [| |m'| |]; try done.
  rewrite Hms by congruence. done.
Qed.

Section Inflation.
Context (t : Z) (c : choice) (s : world) (p : pc) (Hi : inv s) (Hp : threads s !! t = Some p).
Context (Hsafe : safepoint p = false) (Hwt : forall m, wt m p = 0) (Hsv : pc_saved p = None).
#[local] Abbreviation W := (lock_word s).
#[local] Abbreviation ms := (monitors s).

(** Only a monitor changes that no other thread knows. *)
Lemma good_private p' m ms' :
  (forall m', m' <> m -> ms' !! m' = ms !! m') -> dec W <> Fat m ->
  (forall u q, u <> t -> threads s !! u = Some q -> private q <> Some m) ->
  (forall mon, ms' !! m = Some mon -> mon_ok mon /\ num_waiters_ mon = waiters m (threads s)) ->
  pc_ok W ms' t p' -> (forall m, wt m p' = 0) -> pc_saved p' = None ->
  (forall m, private p' = Some m -> private p = Some m \/ ms !! m = None) ->
  suspends p' = suspends p -> good_effect t s p Tau p' W ms'.
Proof.
  intros Hms HW Hother Hmon Hpc Hwt' Hsv' Hpr Hsu.
  destruct (view_except W ms ms' m HW Hms) as [Eh Eg]. split; try done.
  - apply Hi.
  - intros m' Hm'. rewrite Hms by congruence. by apply (i_fat _ Hi).
  - intros m' mon Hm'. destruct (decide (m' = m)) as [->|Hne]; [by apply Hmon|].
    rewrite Hms in Hm' by done. by apply (i_mon _ Hi m').
  - split; try done.
    + intros u n Hu. by rewrite Eh.
    + by rewrite Eg.
    + by left.
    + intros u q m' Hu Hq Hq'. split; [|done]. apply Hms. intros ->. by eapply Hother.
  - intros m' mon Hm'. rewrite Hwt, Hwt'. destruct (decide (m' = m)) as [->|Hne].
    + destruct (Hmon mon Hm') as [_ ->]. lia.
    + rewrite Hms in Hm' by done. rewrite (i_wait _ Hi m' mon Hm'). lia.
  - rewrite Hsu. by left.
  - congruence.
  - rewrite Eh, Eg, (saved_same _ t p p') by congruence. apply abs_tau.
Qed.

Lemma unknown_no_waiters m : ms !! m = None -> waiters m (threads s) = 0.
Proof.
  intros Hm. apply waiters_none. intros u q Hq. destruct (decide (wt m q = 0)) as [|Hw]; [done|].
  apply (wt_fat u s) in Hw; [|by apply (i_pc _ Hi)]. destruct (i_fat _ Hi m Hw). congruence.
Qed.

Lemma fresh_not_private m u q : ms !! m = None -> threads s !! u = Some q -> private q <> Some m.
Proof. intros Hm Hq Hpr. destruct (private_in_dom s u q m Hi Hq Hpr). congruence. Qed.

Lemma owner_checked_ready owner sus h :
  suspends p = sus -> inflatable W ms t owner sus h -> owner_checked s t owner = true.
Proof.
  intros Hs [_ Ho]. destruct owner as [o|]; [|done]. cbn. destruct Ho as ([[_ ->]| ->] & _).
  - by rewrite Z.eqb_refl.
  - unfold IsSuspended. destruct (i_susp _ Hi t p o Hp Hs) as (_ & q & -> & ->).
    rewrite bool_decide_true; [apply orb_true_r|]. intros Hn%awake_not_acked.
    by eapply (suspended_by s o t p).
Qed.

(** The new monitor is published. *)
Lemma good_publish e o sus m mon w :
  suspends p = sus -> private p = Some m -> private_ok W ms t m sus mon ->
  match dec W with
  | Thin o c => owner_ mon = Some o /\ lock_count_ mon = c
  | Hashed h => owner_ mon = None /\ hash_code_ mon = h
  | _ => False
  end ->
  word_ok w -> dec w = Fat m ->
  e = (if hash_code_ mon =? 0 then Tau else AssignHash (hash_code_ mon)) ->
  good_effect t s p e (Inflated o sus) w ms.
Proof.
  intros Hs Hpr (Hm & Hr & Hne & [Hh Hio]) HW Hw Hd ->.
  assert (holder_of w ms = holder_of W ms /\ (forall h, hash_of W ms = Some h -> hash_of w ms = Some h)) as [Eh Eg].
  { unfold holder_of, hash_of. rewrite Hd, Hm. pose proof (i_word _ Hi) as (_ & _ & Hpos).
    destruct (dec W) as [|o' c'| |h'|]; try done; destruct HW as [-> <-]; [done|]. split; [done|].
    intros h [= <-]. destruct (Z.eqb_spec (hash_code_ mon) 0); [lia|done]. }
  split; try done.
  - intros m' Hm'. rewrite Hd in Hm'. simplify_eq. by rewrite Hm.
  - apply Hi.
  - by exists m.
  - split; try done.
    + intros m' Hm'. rewrite Hm' in HW. done.
    + intros u n Hu. by rewrite Eh.
    + intros o' c' Ho' Hne'. right. split; [by exists m|]. rewrite Ho' in HW. destruct HW as [Eo _].
      rewrite Eo in Hio. destruct Hio as ([[_ ?]| ->] & _); [done|].
      by destruct (i_susp _ Hi t p o' Hp Hs) as [_ ?].
    + intros Hn. destruct Hn. by eapply running.
    + intros u q m' Hu Hq Hq'. split; [done|]. intros _ E. rewrite Hd in E. simplify_eq.
      by apply (i_priv _ Hi t u p q m' Hp Hq (not_eq_sym Hu) Hpr).
  - intros m' mon' Hm'. rewrite Hwt, (i_wait _ Hi m' mon' Hm'). cbn. lia.
  - intros o' Ho'. left. by rewrite Hs.
  - congruence.
  - rewrite (saved_same _ t p) by (done || by rewrite Hsv). rewrite Eh. unfold abs.
    destruct (hash_of W ms) as [h|] eqn:Eh'.
    + rewrite (Eg h) by done. assert (hash_code_ mon = h) as ->.
      { unfold hash_of in Eh'. destruct (dec W); try done. destruct HW as [_ ->]. congruence. }
      destruct (h =? 0); [apply abs_tau|apply abs_rehash].
    + unfold hash_of. rewrite Hd, Hm. destruct (_ =? 0); [apply abs_tau|apply abs_hash].
Qed.
End Inflation.

(** ** The points of the inflation *)
Section InflationSteps.
Context (t : Z) (c : choice) (s : world) (Hi : inv s).
#[local] Abbreviation W := (lock_word s).
#[local] Abbreviation ms := (monitors s).

Lemma load_good o : threads s !! t = Some (Load o) -> good_effect t s (Load o) Tau (Have o W) W ms.
Proof.
  intros Hp. apply good_stay; try done; [|apply abs_tau]. split; [apply Hi|].
  pose proof (i_word _ Hi) as (_ & _ & Hpos). unfold not_held, holder_of, hash_of.
  destruct (dec W) as [|o' k|m|h|]; try done. destruct (Z.eqb_spec o' t); [done|]. congruence.
Qed.

Lemma recheck_good o owner h p' :
  threads s !! t = Some (Recheck o owner h) ->
  p' = (if bool_decide (GetState W = kThinLocked) && (ThinLockOwner W =? owner)
        then Create o (Some owner) h (Some owner) else Resume o owner) ->
  good_effect t s (Recheck o owner h) Tau p' W ms.
Proof.
  intros Hp ->. destruct (own_pc t s _ Hi Hp) as [Ho Hh].
  pose proof (dec_state W (i_word _ Hi)) as Hd.
  case_bool_decide as Es; cbn [andb].
  - rewrite Es in Hd. destruct (Z.eqb_spec (ThinLockOwner W) owner) as [E|].
    + apply good_stay; try done; [|naive_solver|apply abs_tau]. split; [done|].
      split; [by right|]. split; [done|]. left. rewrite <- E. eauto.
    + by apply good_stay; try done; [naive_solver|apply abs_tau].
  - by apply good_stay; try done; [naive_solver|apply abs_tau].
Qed.

Lemma create_good o owner h sus m :
  threads s !! t = Some (Create o owner h sus) -> 0 <= m <= kMaxMonitorId -> ms !! m = None ->
  good_effect t s (Create o owner h sus) Tau (Install o m sus) W (<[m := mkMonitor owner 0 0 h []]> ms).
Proof.
  intros Hp Hm Hn. pose proof (own_pc t s _ Hi Hp) as Hinf. cbn in Hinf.
  assert (dec W <> Fat m) as HW.
  { intros E. destruct (i_fat _ Hi m E). congruence. }
  apply (good_private t s _ Hi Hp ltac:(done) ltac:(done) ltac:(done) _ m); try done.
  - intros m' Hne. by rewrite lookup_insert_ne.
  - intros u q _ Hq. by eapply fresh_not_private.
  - intros mon. rewrite lookup_insert_eq. intros [= <-].
    split; [|cbn; by rewrite unknown_no_waiters].
    destruct Hinf as [Hh Ho]. split; cbn; [done|change INT32_MAX with 2147483647; lia| |done].
    intros o' ->. by destruct Ho as (_ & ? & _).
  - exists (mkMonitor owner 0 0 h []). split; [apply lookup_insert_eq|]. split; [done|]. split; [done|].
    destruct Hinf as [Hh Ho]. split; [done|]. cbn. destruct owner as [o'|]; [done|].
    destruct Ho as (? & Hg & ?). split_and!; try done.
    destruct (view_except W ms (<[m := mkMonitor None 0 0 h []]> ms) m HW) as [_ ->]; [|done].
    intros m' Hne. by rewrite lookup_insert_ne.
  - intros m' [= <-]. by right.
Qed.

(** A monitor that could not be published is released. *)
Lemma release_good p m sus o mon :
  threads s !! t = Some p -> safepoint p = false -> (forall m, wt m p = 0) -> pc_saved p = None ->
  private p = Some m -> suspends p = sus -> private_ok W ms t m sus mon ->
  good_effect t s p Tau (after_inflate o sus) W (delete m ms).
Proof.
  intros Hp Hsafe Hwt Hsv Hpr Hsu (Hm & Hr & HW & Hinf).
  apply (good_private t s p Hi Hp Hsafe Hwt Hsv _ m); try done.
  - intros m' Hne. by rewrite lookup_delete_ne.
  - intros u q Hu Hq Hq'. by apply (i_priv _ Hi t u p q m Hp Hq (not_eq_sym Hu) Hpr).
  - intros mon'. by rewrite lookup_delete_eq.
  - by destruct sus.
  - by destruct sus.
  - by destruct sus.
  - by destruct sus.
  - rewrite Hsu. by destruct sus.
Qed.

Lemma install_good o m sus mon e p' w' ms' :
  threads s !! t = Some (Install o m sus) -> ms !! m = Some mon ->
  install_load urb t s o m sus mon = (e, p', w', ms') ->
  good_effect t s (Install o m sus) e p' w' ms'.
Proof.
  intros Hp Hm He. destruct (own_pc t s _ Hi Hp) as (mon' & Hok). pose proof Hok as (Hm' & Hr & HW & Hinf).
  assert (mon' = mon) as -> by congruence. unfold install_load in He.
  rewrite (owner_checked_ready t s (Install o m sus) Hi Hp _ _ _ eq_refl Hinf) in He.
  cbn [negb] in He. pose proof (dec_state W (i_word _ Hi)) as Hd. destruct Hinf as [Hh Hinf].
  pose proof (dec_lock_ok W (i_word _ Hi)) as Hlk.
  pose proof (i_mon _ Hi m mon Hm) as Hmon.
  assert (forall u q, u <> t -> threads s !! u = Some q -> private q <> Some m) as Hother.
  { intros u q Hu Hq Hq'. by apply (i_priv _ Hi t u _ q m Hp Hq (not_eq_sym Hu) eq_refl). }
  destruct (GetState W) eqn:Es.
  - exfalso. destruct (owner_ mon) as [o'|].
    { destruct Hinf as (_ & _ & [[k E]|[m' E]]); by rewrite Hd in E. }
    destruct Hinf as (_ & Hg & _).
    unfold hash_of in Hg. by rewrite Hd in Hg.
  - destruct (owner_ mon) as [o'|] eqn:Eo.
    2: { exfalso. destruct Hinf as (_ & Hg & _). unfold hash_of in Hg. by rewrite Hd in Hg. }
    destruct Hinf as (Hs & Ho & Hthin). assert (o' = ThinLockOwner W) as ->.
    { destruct Hthin as [[k E]|[m' E]]; rewrite Hd in E; congruence. }
    rewrite bool_decide_true in He by done. injection He as <- <- <- <-.
    apply (good_private t s _ Hi Hp ltac:(done) ltac:(done) ltac:(done) _ m); try done.
    + intros m' Hne. by rewrite lookup_insert_ne.
    + intros mon1. rewrite lookup_insert_eq. intros [= <-]. rewrite Hd in Hlk. destruct Hlk as [_ Hk].
      split; [|exact (i_wait _ Hi m mon Hm)]. destruct Hmon. split; cbn; try done.
      * change INT32_MAX with 2147483647. change kThinLockMaxCount with 4095 in *. lia.
      * intros o1 Ho1. apply mo_owner0. by rewrite Eo.
    + exists (set_owner mon (Some (ThinLockOwner W)) (ThinLockCount W)). split.
      { split; [apply lookup_insert_eq|]. split; [done|]. split; [done|]. split; done. }
      split; [apply Hi|]. rewrite Hd. done.
    + by left.
  - injection He as <- <- <- <-. by eapply release_good.
  - assert (owner_ mon = None /\ hash_code_ mon = GetHashCode W) as [Eo Eh].
    { destruct (owner_ mon) as [o'|].
      { destruct Hinf as (_ & _ & [[k E]|[m' E]]); by rewrite Hd in E. }
      split; [done|]. destruct Hinf as (_ & Hg & _).
      unfold hash_of in Hg. rewrite Hd in Hg. congruence. }
    rewrite Eh, Z.eqb_refl in He. injection He as <- <- <- <-.
    apply (good_private t s _ Hi Hp ltac:(done) ltac:(done) ltac:(done) _ m); try done.
    + intros mon1 Hm1. assert (mon1 = mon) as -> by congruence. split; [done|exact (i_wait _ Hi m mon Hm)].
    + exists mon. split; [done|]. split; [apply Hi|]. by rewrite Hd.
    + by left.
  - done.
Qed.

Lemma install_cas_good o m sus lw mon e p' w' ms' :
  threads s !! t = Some (InstallCas o m sus lw) -> ms !! m = Some mon ->
  install_cas c s o m sus lw mon = (e, p', w', ms') ->
  good_effect t s (InstallCas o m sus lw) e p' w' ms'.
Proof.
  intros Hp Hm He. destruct (own_pc t s _ Hi Hp) as (mon' & Hok & Hlw & Hd).
  pose proof Hok as (Hm' & Hr & HW & Hinf). assert (mon' = mon) as -> by congruence.
  unfold install_cas in He. destruct (cas _ _ _ _) as [w|] eqn:Ec; injection He as <- <- <- <-.
  - apply cas_some in Ec as [EW ->]. destruct (monitor_word lw Hlw m Hr) as [Hv Hdv].
    rewrite <- EW in Hd. by eapply (good_publish t s _ Hi Hp).
  - by eapply release_good.
Qed.
End InflationSteps.

(** ** The sections under [monitor_lock_] *)
Section FatSteps.
Context (t : Z) (c : choice) (s : world) (p : pc) (m : Z) (mon : Monitor).
Context (Hi : inv s) (Hp : threads s !! t = Some p).
Context (HW : dec (lock_word s) = Fat m) (Hm : monitors s !! m = Some mon).
#[local] Abbreviation W := (lock_word s).
#[local] Abbreviation ms := (monitors s).

Lemma fat_mon_ok : mon_ok mon.
Proof. exact (i_mon _ Hi m mon Hm). Qed.

Lemma fat_view mon' :
  holder_of W (<[m := mon']> ms)
  = match owner_ mon' with Some o => Some (o, lock_count_ mon' + 1) | None => None end
  /\ hash_of W (<[m := mon']> ms) = if hash_code_ mon' =? 0 then None else Some (hash_code_ mon').
Proof. unfold holder_of, hash_of. by rewrite HW, lookup_insert_eq. Qed.

Lemma fat_abs :
  abs s = mkAlock match owner_ mon with Some o => Some (o, lock_count_ mon + 1) | None => None end
            (if hash_code_ mon =? 0 then None else Some (hash_code_ mon)) (omap pc_saved (threads s)).
Proof. unfold abs, holder_of, hash_of. by rewrite HW, Hm. Qed.

(** The owner changes, the hash code and the saved counts do not. *)
Lemma good_owner e p' mon' :
  mon_ok mon' -> pc_ok W (<[m := mon']> ms) t p' ->
  (owner_ mon' = owner_ mon /\ lock_count_ mon' = lock_count_ mon
   \/ (owner_ mon = None \/ owner_ mon = Some t) /\ (owner_ mon' = None \/ owner_ mon' = Some t)) ->
  hash_code_ mon' = hash_code_ mon ->
  num_waiters_ mon' = num_waiters_ mon - wt m p + wt m p' -> (forall m', m' <> m -> wt m' p' = 0) ->
  private p' = None -> suspends p' = None -> pc_saved p' = pc_saved p ->
  (safepoint p = true -> safepoint p' = true \/ not_acked s t) ->
  (forall h sv,
    abs_step (mkAlock match owner_ mon with Some o => Some (o, lock_count_ mon + 1) | None => None end h sv) e
      (mkAlock match owner_ mon' with Some o => Some (o, lock_count_ mon' + 1) | None => None end h sv)) ->
  good_effect t s p e p' W (<[m := mon']> ms).
Proof.
  intros Hmon Hpc Ho Hh Hn Hwt Hpr Hsu Hsv Hsa Habs. eapply good_mon; try done.
  rewrite fat_abs. destruct (fat_view mon') as [-> ->]. rewrite Hh, (saved_same _ t p p') by done.
  apply Habs.
Qed.

(** [Lock], from its beginning or after waiting for the owner. *)
Lemma fat_lock_good wt0 k mon1 e p' mon' :
  (p = FatLock m wt0 /\ k = 0 \/ p = FatBlocked m wt0 /\ k = 1 /\ not_acked s t) ->
  mon1 = add_waiters mon (- k) -> fat_lock t m wt0 mon1 = Some (e, p', mon') ->
  good_effect t s p e p' W (<[m := mon']> ms).
Proof.
  intros Hpk -> He. pose proof (own_id t s p Hi Hp) as Hid. pose proof fat_mon_ok as [Hu Hcount Hown Hhash].
  pose proof (own_pc t s p Hi Hp) as Hpc.
  assert (wt m p = wt m (FatLock m wt0) + k /\ pc_saved p = pc_saved (FatLock m wt0)
          /\ (safepoint p = true -> not_acked s t)
          /\ (forall prev, wt0 = Some prev -> not_held W ms t /\ 0 <= prev <= INT32_MAX)) as (Ewt & Esv & Hsa & Hprev).
  { destruct Hpk as [[-> ->]|(-> & -> & Hns)]; destruct wt0; cbn in *; rewrite ?Z.eqb_refl;
      (split; [lia|]); (split; [done|]); (split; [done|]); naive_solver. }
  unfold fat_lock in He. cbn [owner_ lock_count_ add_waiters] in He.
  set (k' := match wt0 with None => Idle | Some prev => WaitRestore m prev end) in *.
  assert (wt m k' = wt m (FatLock m wt0) /\ pc_saved k' = pc_saved (FatLock m wt0)
          /\ (forall m', m' <> m -> wt m' k' = 0) /\ private k' = None /\ suspends k' = None)
    as (Ek & Esk & Hk & Hkp & Hks).
  { subst k'. destruct wt0; cbn; (split; [done|]); (split; [done|]); (split; [|done]); [|done].
    intros m' Hne. by rewrite (proj2 (Z.eqb_neq _ _)). }
  destruct (owner_ mon) as [o|] eqn:Eo.
  - destruct (Z.eqb_spec o t) as [->|Hne].
    + destruct (Z.ltb_spec (lock_count_ mon) INT32_MAX); [|done]. injection He as <- <- <-.
      destruct wt0 as [prev|].
      { exfalso. destruct (Hprev prev eq_refl) as [Hn _]. apply (Hn (lock_count_ mon + 1)).
        unfold holder_of. by rewrite HW, Hm, Eo. }
      apply good_owner; try done; cbn.
      * split; cbn; [done|lia| |done]. by intros o [= <-].
      * right. split; [by right|by right].
      * destruct Hpk as [[-> ->]|(-> & -> & _)]; cbn; rewrite ?Z.eqb_refl; lia.
      * intros Hs. right. by apply Hsa.
      * intros. rewrite Eo. apply abs_reacquire. lia.
    + injection He as <- <- <-. apply good_owner; try done; cbn.
      * split; cbn; rewrite ?Eo; done.
      * destruct wt0 as [prev|]; [|done]. destruct (Hprev prev eq_refl) as [Hn ?]. split; [done|].
        split; [|done]. intros n Hh. apply (Hn n). revert Hh. destruct (fat_view (add_waiters (add_waiters mon (- k)) 1)) as [-> _].
        cbn. unfold holder_of. by rewrite HW, Hm.
      * by left.
      * destruct wt0; cbn in Ewt; rewrite ?Z.eqb_refl in *; lia.
      * intros m' Hm'. destruct wt0; by rewrite (proj2 (Z.eqb_neq _ _)).
      * intros. by left.
      * intros. rewrite Eo. apply abs_tau.
  - rewrite (Hu eq_refl) in He. cbn in He. injection He as <- <- <-. apply good_owner; try done; cbn.
    + split; cbn; [done|change INT32_MAX with 2147483647; lia| |done]. by intros o [= <-].
    + subst k'. destruct wt0 as [prev|]; [|done]. cbn. split; [done|]. destruct (Hprev prev eq_refl).
      split; [|done]. by destruct (fat_view (set_owner (add_waiters mon (- k)) (Some t) 0)) as [-> _].
    + right. split; [by left|by right].
    + lia.
    + by rewrite Esv.
    + intros Hs. right. by apply Hsa.
    + intros. rewrite Eo. apply abs_acquire.
Qed.

End FatSteps.

Section FatOps.
Context (t : Z) (c : choice) (s : world) (m : Z) (mon : Monitor) (Hi : inv s).
Context (HW : dec (lock_word s) = Fat m) (Hm : monitors s !! m = Some mon).
#[local] Abbreviation W := (lock_word s).
#[local] Abbreviation ms := (monitors s).

Lemma fat_unlock_good e mon' :
  threads s !! t = Some (FatUnlock m) -> fat_unlock t mon = (e, mon') -> good_effect t s (FatUnlock m) e Idle W (<[m := mon']> ms).
Proof.
  intros Hp He. pose proof (fat_mon_ok s m mon Hi Hm) as [Hu Hcount Hown Hhash]. unfold fat_unlock in He.
  case_bool_decide as Eo; [destruct (Z.eqb_spec (lock_count_ mon) 0) as [E0|]|];
    injection He as <- <-; apply (good_owner t s _ m mon Hi Hp HW Hm); try done; cbn; try lia.
  - right. split; [by right|by left].
  - intros. rewrite Eo, E0. apply abs_release.
  - split; cbn; try done; [lia|]. intros o [= <-]. exact (own_id t s _ Hi Hp).
  - right. split; [by right|by right].
  - intros. rewrite Eo. replace (lock_count_ mon - 1 + 1) with (lock_count_ mon) by lia. apply abs_unlock. lia.
  - by left.
  - intros. apply abs_illegal. cbn. intros n. destruct (owner_ mon); [|done]. congruence.
Qed.

Lemma fat_wait_good e p' mon' :
  threads s !! t = Some (FatWait m) -> fat_wait t m c mon = (e, p', mon') -> good_effect t s (FatWait m) e p' W (<[m := mon']> ms).
Proof.
  intros Hp He. pose proof (fat_mon_ok s m mon Hi Hm) as [Hu Hcount Hown Hhash]. unfold fat_wait in He.
  case_bool_decide as Eo; cbn [negb] in He.
  - destruct (bad_timeout c); injection He as <- <- <-.
    + apply (good_owner t s _ m mon Hi Hp HW Hm); try done; cbn; [by left|lia|]. intros. apply abs_tau.
    + eapply (good_mon t s _ Hi Hp); try done; cbn.
      * split; [done|]. split; [|done]. intros n. by destruct (fat_view s m HW (add_waiters (set_owner (set_wait_set mon (wait_set_ mon ++ [t])) None 0) 1)) as [-> _].
      * right. split; [by right|by left].
      * rewrite Z.eqb_refl. lia.
      * intros m' Hne. by rewrite (proj2 (Z.eqb_neq _ _)).
      * rewrite (fat_abs s m mon HW Hm), Eo.
        destruct (fat_view s m HW (add_waiters (set_owner (set_wait_set mon (wait_set_ mon ++ [t])) None 0) 1)) as [-> ->]. cbn.
        rewrite (omap_insert_Some pc_saved _ t (Waiting m (lock_count_ mon)) (lock_count_ mon + 1)) by done.
        apply abs_wait; [lia|]. by rewrite lookup_omap, Hp.
  - injection He as <- <- <-. apply (good_owner t s _ m mon Hi Hp HW Hm); try done; cbn; [by left|lia|].
    intros. apply abs_illegal. cbn. intros n. destruct (owner_ mon); [|done]. congruence.
Qed.

Lemma wait_restore_good prev :
  threads s !! t = Some (WaitRestore m prev) ->
  good_effect t s (WaitRestore m prev) (Restore t (prev + 1)) Idle W (<[m := wait_restore t prev mon]> ms).
Proof.
  intros Hp. pose proof (fat_mon_ok s m mon Hi Hm) as [Hu Hcount Hown Hhash].
  destruct (own_pc t s _ Hi Hp) as (_ & Hh & Hprev). unfold holder_of in Hh. rewrite HW, Hm in Hh.
  destruct (owner_ mon) as [o|] eqn:Eo; [|done]. injection Hh as -> Hc.
  eapply (good_mon t s _ Hi Hp); try done; cbn.
  - right. split; [by right|by right].
  - rewrite Z.eqb_refl. lia.
  - rewrite (fat_abs s m mon HW Hm), Eo. destruct (fat_view s m HW (wait_restore t prev mon)) as [-> ->]. cbn.
    rewrite (omap_insert_None pc_saved _ t Idle) by done.
    replace (lock_count_ mon + 1) with 1 by lia. apply abs_restore. by rewrite lookup_omap, Hp.
Qed.

Lemma fat_notify_good all e mon' :
  threads s !! t = Some (FatNotify m all) -> fat_notify t all s mon = (e, mon') -> good_effect t s (FatNotify m all) e Idle W (<[m := mon']> ms).
Proof.
  intros Hp He. pose proof (fat_mon_ok s m mon Hi Hm) as [Hu Hcount Hown Hhash]. unfold fat_notify in He.
  case_bool_decide as Eo; injection He as <- <-; apply (good_owner t s _ m mon Hi Hp HW Hm); try done; cbn; try lia.
  - by left.
  - intros. apply abs_tau.
  - by left.
  - intros. apply abs_illegal. cbn. intros n. destruct (owner_ mon); [|done]. congruence.
Qed.

Lemma set_hash_good h :
  threads s !! t = Some (HashFat m) -> hash_code_ mon = 0 -> 0 < h <= kMaxHash ->
  good_effect t s (HashFat m) (AssignHash h) (HashFat m) W (<[m := set_hash mon h]> ms).
Proof.
  intros Hp E0 Hh. pose proof (fat_mon_ok s m mon Hi Hm) as [Hu Hcount Hown Hhash]. eapply (good_mon t s _ Hi Hp); try done; cbn.
  - split; cbn; try done. lia.
  - by left.
  - lia.
  - rewrite (fat_abs s m mon HW Hm), E0. destruct (fat_view s m HW (set_hash mon h)) as [-> ->]. cbn.
    rewrite (saved_same _ t (HashFat m)) by done. rewrite (proj2 (Z.eqb_neq h 0)) by lia. apply abs_hash.
Qed.
End FatOps.

(** ** Every step *)
Section Every.
Context (t : Z) (c : choice) (s : world) (Hi : inv s).
#[local] Abbreviation W := (lock_word s).
#[local] Abbreviation ms := (monitors s).

Lemma suspend_good o owner h :
  threads s !! t = Some (Requested o owner h) -> IsSuspended s owner = true ->
  good_effect t s (Requested o owner h) Tau (Suspended o owner h) W ms.
Proof.
  intros Hp [_ Hs]%andb_prop. destruct (threads s !! owner) as [q|] eqn:Hq; [|done]. destruct (own_pc t s _ Hi Hp) as (Ho & Hne & Hh).
  apply good_stay; try done; [|by left|apply abs_tau].
  intros o' [= <-]. right. split; [done|]. eauto.
Qed.

(** A move that leaves memory, waiters and suspensions alone. *)
Lemma good_move e p p' :
  threads s !! t = Some p -> pc_ok W ms t p' -> (forall m, wt m p' = wt m p) -> pc_saved p' = pc_saved p ->
  private p' = None -> (suspends p' = suspends p \/ suspends p' = None) ->
  (safepoint p = true -> not_acked s t) -> abs_step (abs s) e (abs s) ->
  good_effect t s p e p' W ms.
Proof.
  intros Hp Hpc Hwt Hsv Hpr Hsu Hsa Habs. apply good_stay; try done.
  - intros o Ho. left. destruct Hsu as [<-|E]; [done|congruence].
  - intros Hs. right. by apply Hsa.
Qed.

Lemma thread_step_good p e p' w' ms' :
  threads s !! t = Some p -> thread_step urb max_spins t c s p = Some (e, p', w', ms') ->
  good_effect t s p e p' w' ms'.
Proof.
  intros Hp He. pose proof (own_pc t s p Hi Hp) as Hok.
  destruct p as [|o|[n| | |all|] lw|o owner h|o owner h|o owner h|o owner h|o owner h sus|o m sus|o m sus lw|o sus
                 |o owner|m wt0|m wt0|m|m|m prev|m prev|m all|m|h|]; cbn [thread_step] in He;
    repeat match type of He with
    | context [bool_decide (not_suspended s t)] => case_bool_decide as Haw; [apply awake_not_acked in Haw|]
    | context [match monitors s !! ?m with Some _ => _ | None => _ end] =>
        let E := fresh "Em" in destruct (monitors s !! m) as [mon|] eqn:E
    end; try discriminate He; try (injection He as <- <- <- <-).
  - by apply load_good.
  - injection He as He. by eapply have_enter_good.
  - injection He as He. by eapply have_exit_good.
  - destruct (have_wait _ _ _) as [e0 p0] eqn:E. injection He as <- <- <- <-. by apply have_wait_good.
  - destruct (have_notify _ _ _ _) as [e0 p0] eqn:E. injection He as <- <- <- <-. by apply have_notify_good.
  - by eapply have_hash_good.
  - destruct (spurious c); [injection He as <- <- <- <-; apply good_move; try done; [by right|apply abs_tau]|].
    destruct Hok as (Ho & Hne & Hh). rewrite (proj2 (Z.eqb_neq owner t) Hne) in He.
    destruct (threads s !! owner); [|done]. injection He as <- <- <- <-.
    apply good_move; try done; [by left|apply abs_tau].
  - destruct Hok as (Ho & Hne & Hh). rewrite (proj2 (Z.eqb_neq owner t) Hne) in He.
    destruct (spurious c); [done|]. by destruct (threads s !! owner).
  - destruct (spurious c); [injection He as <- <- <- <-; apply good_move; try done; [by right|apply abs_tau]|].
    destruct (IsSuspended s owner) eqn:Es; [|done]. injection He as <- <- <- <-. by apply suspend_good.
  - destruct (spurious c); [done|]. by destruct (IsSuspended s owner).
  - apply good_move; try done; [by left|apply abs_tau].
  - destruct (bool_decide _ && _) eqn:E; injection He as <- <- <- <-; apply recheck_good; try done; by rewrite E.
  - rewrite (owner_checked_ready t s _ Hi Hp _ _ _ eq_refl Hok) in He. cbn [negb] in He.
    destruct (_ && bool_decide _) eqn:E; [|done]. injection He as <- <- <- <-.
    rewrite !andb_true_iff, !Z.leb_le, bool_decide_eq_true in E. destruct E as [[] ?]. by apply create_good.
  - injection He as He. by eapply install_good.
  - injection He as He. by eapply install_cas_good.
  - pose proof (dec_state W (i_word _ Hi)) as Hd. destruct Hok as [m Hm].
    assert (GetState W = kFatLocked) as E by (rewrite Hm in Hd; by destruct (GetState W)).
    rewrite bool_decide_true in He by done. injection He as <- <- <- <-.
    destruct sus; (apply good_move; try done; [by left|apply abs_tau]).
  - apply good_move; try done; [by right|apply abs_tau].
  - destruct (fat_lock _ _ _ _) as [[[e0 p0] mon']|] eqn:E; [|done]. injection He as <- <- <- <-.
    assert (dec W = Fat m) as HW by (by destruct wt0; [destruct Hok|]).
    eapply (fat_lock_good t s _ m mon Hi Hp HW Em wt0 0); [by left|done|].
    rewrite <- E. f_equal. destruct mon. unfold add_waiters. cbn. f_equal. lia.
  - destruct (fat_lock _ _ _ _) as [[[e0 p0] mon']|] eqn:E; [|done]. injection He as <- <- <- <-.
    assert (dec W = Fat m) as HW by (by destruct wt0; [destruct Hok|]).
    eapply (fat_lock_good t s _ m mon Hi Hp HW Em wt0 1); [by right|done|done].
  - destruct (fat_unlock _ _) as [e0 mon'] eqn:E. injection He as <- <- <- <-. by eapply fat_unlock_good.
  - destruct (fat_wait _ _ _ _) as [[e0 p0] mon'] eqn:E. injection He as <- <- <- <-. by eapply fat_wait_good.
  - apply good_move; try done; [by right|apply abs_tau].
  - destruct Hok as (HW & _). by eapply wait_restore_good.
  - destruct (fat_notify _ _ _ _) as [e0 mon'] eqn:E. injection He as <- <- <- <-. by eapply fat_notify_good.
  - cbn in Hok. destruct (Z.eqb_spec (hash_code_ mon) 0) as [E0|Hne]; cbn [negb] in He.
    + destruct (valid_hash (new_hash c)) eqn:Ev; [|done]. apply valid_hash_range in Ev. cbn [negb] in He.
      destruct (spurious c); injection He as <- <- <- <-; [|by apply set_hash_good].
      apply good_move; try done; [by left|apply abs_tau].
    + injection He as <- <- <- <-. apply good_move; try done; [by left|]. apply abs_result.
      rewrite (fat_abs s m mon Hok Em). cbn. by destruct (Z.eqb_spec (hash_code_ mon) 0).
  - apply good_move; try done; [by left|]. by apply abs_result.
Qed.
End Every.

(** ** Deflation and read barriers *)
Lemma pc_ok_ext w w' ms t p : dec w' = dec w -> pc_ok w ms t p -> pc_ok w' ms t p.
Proof.
  intros E. assert (holder_of w' ms = holder_of w ms /\ hash_of w' ms = hash_of w ms) as [Eh Eg]
    by (unfold holder_of, hash_of; by rewrite E).
  unfold pc_ok, have_ok, private_ok, inflatable, not_held. by rewrite E, Eh, Eg.
Qed.

Lemma no_waiters m s : waiters m (threads s) <= 0 -> map_Forall (fun _ p => wt m p = 0) (threads s).
Proof. intros Hw t p Hp. pose proof (waiters_ge m t p _ Hp). pose proof (wt_nonneg m p). lia. Qed.

Lemma deflated_inv s m mon w :
  inv s -> map_Forall (fun _ p => safepoint p = true) (threads s) ->
  dec (lock_word s) = Fat m -> monitors s !! m = Some mon -> num_waiters_ mon <= 0 ->
  word_ok w -> (forall m', dec w <> Fat m') ->
  inv (mkWorld w (delete m (monitors s)) (threads s)).
Proof.
  intros Hi Hsafe HW Hm Hn Hw Hnf. rewrite (i_wait _ Hi m mon Hm) in Hn. apply no_waiters in Hn.
  split; cbn [lock_word monitors threads]; try done; try apply Hi.
  - intros m' E. by destruct (Hnf m').
  - apply map_Forall_delete, Hi.
  - intros t p Hp. specialize (Hsafe t p Hp). cbn in Hsafe. specialize (Hn t p Hp). cbn in Hn.
    pose proof (i_pc _ Hi t p Hp) as Hok. destruct p as [| | | | | | | | | | | | |m' wt0| | |m' prev| | | | |];
      try done; cbn in Hok, Hn; exfalso.
    + assert (m' = m) as -> by (destruct wt0; [destruct Hok|]; congruence).
      rewrite Z.eqb_refl in Hn. by destruct wt0.
    + destruct Hok. assert (m' = m) as -> by congruence. by rewrite Z.eqb_refl in Hn.
  - intros m' mon' Hm'. apply lookup_delete_Some in Hm' as [_ Hm']. by apply (i_wait _ Hi).
Qed.

Lemma deflate_good s :
  inv s -> map_Forall (fun _ p => safepoint p = true) (threads s) ->
  let s' := mkWorld (fst (deflate urb s)) (snd (deflate urb s)) (threads s) in inv s' /\ abs s' = abs s.
Proof.
  intros Hi Hsafe. pose proof (dec_state _ (i_word _ Hi)) as Hd. pose proof (i_word _ Hi) as Hw0.
  assert (inv (mkWorld (lock_word s) (monitors s) (threads s))
          /\ abs (mkWorld (lock_word s) (monitors s) (threads s)) = abs s) as Hsame by (by destruct s).
  unfold deflate. destruct (GetState (lock_word s)); try exact Hsame.
  destruct (monitors s !! _) as [mon|] eqn:Hm; [|exact Hsame].
  destruct (Z.ltb_spec 0 (num_waiters_ mon)) as [|Hn]; [exact Hsame|].
  pose proof (i_mon _ Hi _ mon Hm) as [Hu Hcount Hown Hhash].
  set (m := FatLockMonitorId (lock_word s)) in *.
  destruct (owner_ mon) as [o|] eqn:Eo; destruct (Z.eqb_spec (hash_code_ mon) 0) as [E0|Hne];
    cbn [negb]; try exact Hsame.
  - destruct (Z.ltb_spec kThinLockMaxCount (lock_count_ mon)) as [|Hk]; [exact Hsame|].
    destruct (thin_word _ Hw0 o (lock_count_ mon)) as (v & -> & Hv & Hdv); [by apply Hown|lia|].
    split; [apply (deflated_inv s m mon); try done; cbn; intros; by rewrite Hdv|].
    unfold abs, holder_of, hash_of. cbn. by rewrite Hdv, Hd, Hm, Eo, E0.
  - destruct (default_word _ Hw0) as [Hv Hdv].
    split; [apply (deflated_inv s m mon); try done; cbn; intros; by rewrite Hdv|].
    unfold abs, holder_of, hash_of. cbn. by rewrite Hdv, Hd, Hm, Eo, E0.
  - destruct (hash_word _ Hw0 (hash_code_ mon)) as (v & -> & Hv & Hdv); [lia|].
    split; [apply (deflated_inv s m mon); try done; cbn; intros; by rewrite Hdv|].
    unfold abs, holder_of, hash_of. cbn. rewrite Hdv, Hd, Hm, Eo.
    by destruct (Z.eqb_spec (hash_code_ mon) 0).
Qed.

Lemma read_barrier_good s rb :
  inv s -> urb = true -> 0 <= rb < 4 ->
  let s' := mkWorld (SetReadBarrierState (lock_word s) rb) (monitors s) (threads s) in
  inv s' /\ abs s' = abs s.
Proof.
  intros Hi Hurb Hrb. pose proof (i_word _ Hi) as (Hu & _ & Hpos).
  assert (LockWord.GetState true (lock_word s) <> kForwardingAddress) as Hf.
  { pose proof (dec_state _ (i_word _ Hi)) as Hd. rewrite Hurb in Hd. by intros E; rewrite E in Hd. }
  destruct (decode_set_rb _ rb Hu Hrb Hf) as (E & _ & Hu'). rewrite <- Hurb in E.
  split.
  - split; cbn [lock_word monitors threads]; try apply Hi.
    + split; [done|]. split; [congruence|]. by rewrite E.
    + rewrite E. apply Hi.
    + intros t p Hp. eapply pc_ok_ext; [exact E|]. by apply (i_pc _ Hi).
  - unfold abs, holder_of, hash_of. cbn. by rewrite E.
Qed.

(** One step of the system keeps the invariant and is a step of the abstract lock. *)
Lemma step_refines s e s' :
  inv s -> step urb max_spins s e s' -> inv s' /\ abs_step (abs s) e (abs s').
Proof.
  intros Hi Hs. destruct Hs as [s t o Hp Hns _|s t c p e p' w ms Hp He|s Hsafe|s rb Hu Hrb].
  - assert (good_effect t s Idle Tau (Load o) (lock_word s) (monitors s)) as Hg
      by (apply good_move; try done; [by left|intros _; by apply awake_not_acked|apply abs_tau]).
    split; [by eapply inv_step|]. exact (g_abs _ _ _ _ _ _ _ Hg).
  - pose proof (thread_step_good t c s Hi p e p' w ms Hp He) as Hg.
    split; [by eapply inv_step|]. exact (g_abs _ _ _ _ _ _ _ Hg).
  - destruct (deflate_good s Hi Hsafe) as [Hi' Ha]. split; [done|]. rewrite Ha. apply abs_tau.
  - destruct (read_barrier_good s rb Hi Hu Hrb) as [Hi' Ha]. split; [done|]. rewrite Ha. apply abs_tau.
Qed.

Lemma initial_inv s : initial s -> inv s /\ abs s = mkAlock None None ∅.
Proof.
  intros (Hw & Hms & Hth).
  assert (dec (lock_word s) = Unlocked) as Hd by (rewrite Hw; by destruct urb).
  assert (forall t p, threads s !! t = Some p -> p = Idle) as Hidle by (intros t p Hp; apply (Hth t p Hp)).
  split.
  - split.
    + split; [by rewrite Hw|]. split; [by rewrite Hw|]. by rewrite Hd.
    + intros m E. congruence.
    + by rewrite Hms.
    + intros t p Hp. apply (Hth t p Hp).
    + intros t p Hp. by rewrite (Hidle t p Hp).
    + intros t p o Hp. by rewrite (Hidle t p Hp).
    + intros m mon. by rewrite Hms.
    + intros t1 t2 p1 p2 m H1. by rewrite (Hidle t1 p1 H1).
  - unfold abs, holder_of, hash_of. rewrite Hd. f_equal. apply map_eq. intros t.
    rewrite lookup_omap, lookup_empty. destruct (threads s !! t) as [p|] eqn:Hp; [|done].
    by rewrite (Hidle t p Hp).
Qed.
End Proofs.
