(* ===== verification/MonitorTheorems.v ===== *)
(** * What monitors promise

    The theorems on whole runs: every run of the threads, the collector and the read barriers is
    a run of the abstract lock and never fails a check; at most one thread is inside; an
    identity hash code never changes; and the suspension handshake of inflation cannot
    deadlock. *)

From S2P Require Import Prelude LockWord Monitor MonitorProofs.
Import LockWord.

(** ** Runs of the abstract lock *)
Inductive abs_run : alock -> list event -> alock -> Prop :=
| abs_nil a : abs_run a [] a
| abs_snoc a l b e c : abs_run a l b -> abs_step b e c -> abs_run a (l ++ [e]) c.

Lemma abs_run_last a l e c : abs_run a (l ++ [e]) c -> exists b, abs_run a l b /\ abs_step b e c.
Proof.
  remember (l ++ [e]) as l' eqn:E. intros Hr. destruct Hr as [a|a l1 b e1 c Hr Hs]; [by destruct l|].
  apply app_inj_tail in E as [-> ->]. eauto.
Qed.

(** How often a thread is inside the monitor after the events [l]. *)
Definition held_step (t n : Z) (e : event) : Z :=
  match e with
  | Acquire u => if u =? t then n + 1 else n
  | Release u => if u =? t then n - 1 else n
  | WaitRelease u => if u =? t then 0 else n
  | Restore u k => if u =? t then k else n
  | _ => n
  end.
Definition held (t : Z) (l : list event) : Z := fold_left (held_step t) l 0.

(** What the holder of the abstract lock says of one thread. *)
Definition count_of (a : alock) (t : Z) : Z :=
  match holder a with Some (u, n) => if u =? t then n else 0 | None => 0 end.

Definition alock_ok (a : alock) : Prop :=
  (forall t n, holder a = Some (t, n) -> 0 < n) /\ map_Forall (fun _ n => 0 < n) (saved a).

Lemma abs_step_ok a e b : alock_ok a -> abs_step a e b -> alock_ok b.
Proof.
  intros [Hh Hs] Hstep; destruct Hstep; split; cbn in *; try done; try (intros ? ? Hx; simplify_eq; lia).
  - by apply map_Forall_insert_2.
  - intros ? ? Hx. simplify_eq. by eapply Hs.
  - by apply map_Forall_delete.
Qed.

Lemma count_step a e b t :
  abs_step a e b -> count_of b t = held_step t (count_of a t) e.
Proof.
  intros Hs; destruct Hs; unfold count_of; cbn [holder held_step]; try done;
    destruct (Z.eqb_spec t0 t); lia.
Qed.

Lemma abs_run_held a l b t :
  abs_run a l b -> a = mkAlock None None ∅ -> alock_ok b /\ count_of b t = held t l.
Proof.
  intros Hr. induction Hr as [a|a l b e c Hr IH Hs]; intros ->; [done|].
  destruct (IH eq_refl) as [Hok Hc]. split; [by eapply abs_step_ok|].
  rewrite (count_step _ _ _ t Hs), Hc. unfold held. by rewrite fold_left_app.
Qed.

Lemma abs_run_hash a l b t h :
  abs_run a l b -> HashResult t h ∈ l -> ahash b = Some h.
Proof.
  intros Hr. induction Hr as [a|a l b e c Hr IH Hs]; [by intros ?%elem_of_nil|].
  intros [Hin|Hin]%elem_of_app.
  - specialize (IH Hin). by destruct Hs.
  - apply list_elem_of_singleton in Hin as <-. by inversion Hs; subst.
Qed.

Section Runs.
Context (urb : bool) (max_spins : Z).
#[local] Abbreviation dec := (decode urb).
#[local] Abbreviation run := (run urb max_spins).
#[local] Abbreviation step := (step urb max_spins).
#[local] Abbreviation thread_step := (thread_step urb max_spins).

Lemma run_refines s l s' :
  run s l s' -> initial s -> inv urb s' /\ abs_run (mkAlock None None ∅) l (abs urb s').
Proof.
  intros Hr. induction Hr as [s|s l s1 e s2 Hr IH Hs]; intros Hini.
  - destruct (initial_inv urb s Hini) as [Hi ->]. split; [done|constructor].
  - destruct (IH Hini) as [Hi Ha]. destruct (step_refines _ _ _ _ _ Hi Hs) as [Hi' Hs'].
    split; [done|]. by econstructor.
Qed.

Lemma inv_no_abort s t : inv urb s -> threads s !! t <> Some Aborted.
Proof. intros Hi Ht. exact (i_pc _ _ Hi t _ Ht). Qed.

(** ** The suspension handshake *)

(** Threads other than the one it belongs to that a program point names. *)
Definition asks (p : pc) : option Z :=
  match p with
  | Have _ lw => match dec lw with Thin o _ => Some o | _ => None end
  | Suspend _ o _ | Requested _ o _ => Some o
  | _ => None
  end.

Definition event_thread (e : event) : option Z :=
  match e with
  | Acquire t | Release t | WaitRelease t | Restore t _ => Some t
  | _ => None
  end.

(** What one step does to the names and to the suspend counts. *)
Record local_step (t : Z) (s : world) (p : pc) (e : event) (p' : pc) : Prop := {
  l_event : forall u, event_thread e = Some u -> u = t;
  l_asks : forall o, asks p' = Some o -> asks p = Some o \/ exists c, dec (lock_word s) = Thin o c;
  l_requests : forall o, requests p' = Some o ->
    requests p = Some o \/ (not_suspended s t /\ o <> t)
}.

Lemma thread_step_local t c s p e p' w ms :
  inv urb s -> threads s !! t = Some p -> thread_step t c s p = Some (e, p', w, ms) -> local_step t s p e p'.
Proof.
  intros Hi Hp He.
  destruct p as [|o|[n| | |all|] lw|o owner h|o owner h|o owner h|o owner h|o owner h sus|o m sus|o m sus lw|o sus
                 |o owner|m wt0|m wt0|m|m|m prev|m prev|m all|m|h|]; cbn [Monitor.thread_step] in He.
  all: unfold have_enter, have_exit, have_wait, have_notify, have_hash, store_lock_word, install_load,
    install_cas, fat_lock, fat_unlock, fat_wait, fat_notify, after_inflate in He.
  all: repeat (case_match; simplify_eq); split; try done; cbn; intros ? ?; simplify_eq; auto.
  - right. cbn in *. destruct (dec (lock_word s)); simplify_eq. eauto.
  - left. unfold decode. match goal with H : _ = kThinLocked |- _ => by rewrite H end.
  - left. unfold decode. match goal with H : _ = kThinLocked |- _ => by rewrite H end.
  - right. split; [by eapply bool_decide_eq_true_1|]. by apply Z.eqb_neq.
Qed.

(** The threads named exist, and raised suspend counts form no cycle. *)
Record handshake (s : world) : Prop := {
  h_holder : forall o n, holder (abs urb s) = Some (o, n) -> is_Some (threads s !! o);
  h_asks : forall t p o, threads s !! t = Some p -> asks p = Some o -> is_Some (threads s !! o);
  h_rank : exists (r : Z -> nat) (N : nat), (forall t, r t <= N)%nat
    /\ forall t p o, threads s !! t = Some p -> requests p = Some o -> (r o < r t)%nat
}.

Lemma holder_step a e b o n :
  abs_step a e b -> holder b = Some (o, n) -> (exists k, holder a = Some (o, k)) \/ event_thread e = Some o.
Proof. intros Hs Hb. destruct Hs; cbn in *; simplify_eq; eauto. Qed.

Lemma thread_handshake t s p e p' w ms :
  handshake s -> threads s !! t = Some p -> local_step t s p e p' ->
  abs_step (abs urb s) e (abs urb (mkWorld w ms (<[t := p']> (threads s)))) ->
  handshake (mkWorld w ms (<[t := p']> (threads s))).
Proof.
  intros [Hh Ha (r & N & Hr & Hrank)] Hp [Hev Has Hrq] Hs.
  assert (forall o, is_Some (threads s !! o) -> is_Some (<[t := p']> (threads s) !! o)) as Hdom.
  { intros o Ho. destruct (decide (o = t)) as [->|]; [by rewrite lookup_insert_eq|by rewrite lookup_insert_ne]. }
  split; cbn [threads].
  - intros o n Ho. apply Hdom. destruct (holder_step _ _ _ _ _ Hs Ho) as [[k Hk]|He]; [by eapply Hh|].
    apply Hev in He as ->. by rewrite Hp.
  - intros u q o [[<- <-]|[Hne Hq]]%lookup_insert_Some Ho; apply Hdom; [|by eapply Ha].
    destruct (Has o Ho) as [|[c Hc]]; [by eapply Ha|]. apply (Hh o (c + 1)). cbn. unfold holder_of. by rewrite Hc.
  - destruct (requests p') as [v|] eqn:Ev; [destruct (Hrq v eq_refl) as [Hv|[Hns Hne]]|].
    + exists r, N. split; [done|]. intros u q o [[<- <-]|[_ Hq]]%lookup_insert_Some Ho; [|by eapply Hrank].
      simplify_eq. by eapply Hrank.
    + exists (fun u => if u =? t then S (r v) else r u), (S N).
      split; [intros u; destruct (u =? t); [specialize (Hr v)|specialize (Hr u)]; lia|].
      intros u q o [[<- <-]|[Hu Hq]]%lookup_insert_Some Ho.
      * simplify_eq. rewrite Z.eqb_refl, (proj2 (Z.eqb_neq _ t)) by done. lia.
      * assert (o <> t) by (intros ->; by apply (Hns u q)).
        rewrite !(proj2 (Z.eqb_neq _ _)) by done. by eapply Hrank.
    + exists r, N. split; [done|]. intros u q o [[<- <-]|[_ Hq]]%lookup_insert_Some Ho; [congruence|by eapply Hrank].
Qed.

Lemma step_handshake s e s' : inv urb s -> handshake s -> step s e s' -> handshake s'.
Proof.
  intros Hi Hh Hs. destruct (step_refines _ _ _ _ _ Hi Hs) as [_ Ha].
  destruct Hs as [s t o Hp Hns Ho|s t c p e p' w ms Hp He|s Hsafe|s rb Hu Hrb].
  - eapply thread_handshake; [done|done| |done]. by split.
  - eapply thread_handshake; [done|done|by eapply thread_step_local|done].
  - destruct Hh. destruct (deflate_good urb s Hi Hsafe) as [_ E]. split; cbn [threads]; try done. by rewrite E.
  - destruct Hh. destruct (read_barrier_good urb s rb Hi Hu Hrb) as [_ E]. split; cbn [threads]; try done. by rewrite E.
Qed.

Lemma run_handshake s l s' : run s l s' -> initial s -> handshake s'.
Proof.
  intros Hr. induction Hr as [s|s l s1 e s2 Hr IH Hs]; intros Hini.
  - destruct (initial_inv urb s Hini) as [_ E]. destruct Hini as (_ & _ & Hth).
    assert (forall t p, threads s !! t = Some p -> p = Idle) as Hidle by (intros t p Hp; apply (Hth t p Hp)).
    split; [by rewrite E| |exists (fun _ => 0%nat), 0%nat; split; [done|]];
      intros t p o Hp; by rewrite (Hidle t p Hp).
  - destruct (run_refines _ _ _ Hr Hini) as [Hi _]. eapply step_handshake; [exact Hi|by apply IH|done].
Qed.

(** ** Progress *)

(** A thread that is in an operation and not blocked on a held monitor or waiting. *)
Definition unparked (p : pc) : bool :=
  match p with Idle | FatBlocked _ _ | Waiting _ _ | Aborted => false | _ => true end.

Definition can_step (s : world) (t : Z) (p : pc) (c : choice) : Prop :=
  spurious c = false /\ is_Some (thread_step t c s p).

(** An identifier is left for a new monitor, and no recursion count is at its limit. *)
Definition resources (s : world) (m : Z) : Prop :=
  0 <= m <= kMaxMonitorId /\ monitors s !! m = None
  /\ map_Forall (fun _ mon => lock_count_ mon < INT32_MAX) (monitors s).

Section Progress.
Context (s : world) (m0 : Z) (Hi : inv urb s) (Hh : handshake s) (Hres : resources s m0).
#[local] Abbreviation c0 := (mkChoice false 1 m0 false).

Lemma fat_lock_some t m w mon : lock_count_ mon < INT32_MAX -> is_Some (fat_lock t m w mon).
Proof. intros Hc. unfold fat_lock. repeat case_match; try done; lia. Qed.

Lemma on_fat {A} m (f : Monitor -> option A) :
  dec (lock_word s) = Fat m -> (forall mon, lock_count_ mon < INT32_MAX -> is_Some (f mon)) ->
  exists mon, monitors s !! m = Some mon /\ is_Some (f mon).
Proof.
  intros HW Hf. destruct (i_fat _ _ Hi m HW) as [mon Hm]. exists mon. split; [done|].
  apply Hf. destruct Hres as (_ & _ & Hr). by apply (Hr m mon).
Qed.

Lemma unsafe_can_step t p :
  threads s !! t = Some p -> safepoint p = false -> can_step s t p c0.
Proof.
  intros Hp Hs. split; [done|]. pose proof (i_pc _ _ Hi t p Hp) as Hok. pose proof Hres as (Hm0 & Hn & Hr).
  destruct p as [|o|[n| | |all|] lw|o owner h|o owner h|o owner h|o owner h|o owner h sus|o m sus|o m sus lw|o sus
                 |o owner|m wt0|m wt0|m|m|m prev|m prev|m all|m|h|]; try done; cbn [Monitor.thread_step].
  all: try (unfold have_wait, have_notify, have_hash; repeat case_match; done).
  - cbn. rewrite bool_decide_true by done.
    rewrite (proj2 (Z.leb_le 0 m0)), (proj2 (Z.leb_le m0 kMaxMonitorId)) by lia. by case_match.
  - by destruct Hok as (mon & -> & _).
  - by destruct Hok as (mon & (-> & _) & _).
  - destruct (on_fat m (fat_lock t m wt0)) as (mon & -> & [[[e p'] mon'] ->]); [|apply fat_lock_some|done].
    by destruct wt0; [destruct Hok|].
  - destruct (i_fat _ _ Hi m Hok) as [mon ->]. by destruct (fat_unlock t mon).
  - destruct (i_fat _ _ Hi m Hok) as [mon ->]. by destruct (fat_wait t m c0 mon) as [[] ].
  - destruct (i_fat _ _ Hi m (proj1 Hok)) as [mon ->]. done.
  - destruct (i_fat _ _ Hi m Hok) as [mon ->]. by destruct (fat_notify t all s mon).
  - destruct (i_fat _ _ Hi m Hok) as [mon ->]. by repeat case_match.
Qed.

Lemma requester_can_step t p o :
  map_Forall (fun _ q => safepoint q = true) (threads s) ->
  threads s !! t = Some p -> requests p = Some o -> not_suspended s t -> can_step s t p c0.
Proof.
  intros Hsafe Hp Ho Hns. split; [done|]. specialize (Hsafe t p Hp) as Hs. cbn in Hs.
  destruct p; try done; cbn [Monitor.thread_step spurious]; rewrite (bool_decide_true _ Hns); [|done].
  cbn in Ho. injection Ho as ->. unfold IsSuspended. rewrite bool_decide_true.
  - destruct (h_asks _ Hh t _ o Hp eq_refl) as [q Hq]. by rewrite Hq, (Hsafe o q Hq).
  - intros Hn. by apply (Hn t _ Hp).
Qed.

(** Following raised counts upwards ends at a thread that nobody has asked to stop. *)
Lemma top_requester t p o :
  threads s !! t = Some p -> requests p = Some o ->
  exists u q o', threads s !! u = Some q /\ requests q = Some o' /\ not_suspended s u.
Proof.
  destruct (h_rank _ Hh) as (r & N & Hr & Hrank). remember (N - r t)%nat as k eqn:Ek. revert t p o Ek.
  induction k as [k IH] using lt_wf_ind. intros t p o Ek Hp Ho.
  destruct (decide (not_suspended s t)) as [|Hn]; [by eauto 6|].
  apply map_not_Forall in Hn as (u & q & Hq & Hu); [|apply _].
  apply dec_stable in Hu. pose proof (Hrank u q t Hq Hu). pose proof (Hr u).
  eapply (IH (N - r u)%nat); [lia|done|done|done].
Qed.

Lemma someone_can_step t p :
  threads s !! t = Some p -> unparked p = true ->
  exists u q, threads s !! u = Some q /\ unparked q = true /\ can_step s u q c0.
Proof.
  intros Hp Hu. destruct (decide (map_Forall (fun _ q => safepoint q = true) (threads s))) as [Hsafe|Hn].
  2: { apply map_not_Forall in Hn as (u & q & Hq & Hs); [|apply _]. apply not_true_is_false in Hs.
       exists u, q. split; [done|]. split; [|by apply unsafe_can_step].
       pose proof (i_pc _ _ Hi u q Hq). by destruct q. }
  destruct (decide (map_Forall (fun _ q => requests q = None) (threads s))) as [Hnone|Hn].
  2: { apply map_not_Forall in Hn as (u0 & q0 & Hq0 & Hr0); [|apply _].
       destruct (requests q0) as [o0|] eqn:E0; [|done].
       destruct (top_requester u0 q0 o0 Hq0 E0) as (u & q & o & Hq & Ho & Hns).
       exists u, q. split; [done|]. split; [|by eapply requester_can_step].
       specialize (Hsafe u q Hq). by destruct q. }
  exists t, p. split; [done|]. split; [done|]. split; [done|].
  assert (not_suspended s t) as Hns by (intros u q Hq E; specialize (Hnone u q Hq); cbn in Hnone; congruence).
  specialize (Hsafe t p Hp) as Hs. specialize (Hnone t p Hp) as Hr. cbn in Hs, Hr.
  destruct p as [| | |o owner h| | | | | | | | | | | | | | | | | | ]; try done. cbn [Monitor.thread_step spurious].
  pose proof (i_pc _ _ Hi t _ Hp) as (_ & Hne & _). rewrite (proj2 (Z.eqb_neq owner t) Hne).
  destruct (h_asks _ Hh t _ owner Hp eq_refl) as [q ->]. by rewrite (bool_decide_true _ Hns).
Qed.

Lemma blocked_acquires t m w :
  threads s !! t = Some (FatBlocked m w) -> map_Forall (fun _ q => unparked q = false) (threads s) ->
  holder (abs urb s) = None ->
  exists p' w' ms', thread_step t c0 s (FatBlocked m w) = Some (Acquire t, p', w', ms').
Proof.
  intros Hp Hall Ho.
  assert (not_suspended s t) as Hns by (intros u q Hq; specialize (Hall u q Hq); by destruct q).
  cbn [Monitor.thread_step]. rewrite (bool_decide_true _ Hns).
  assert (dec (lock_word s) = Fat m) as HW
    by (pose proof (i_pc _ _ Hi t _ Hp) as Hok; by destruct w; [destruct Hok|]).
  destruct (i_fat _ _ Hi m HW) as [mon Hm]. rewrite Hm. cbn in Ho. unfold holder_of in Ho. rewrite HW, Hm in Ho.
  pose proof (mo_unowned _ (i_mon _ _ Hi m mon Hm)) as Hu. unfold fat_lock. cbn.
  destruct (owner_ mon); [done|]. rewrite Hu by done. cbn. eauto.
Qed.
End Progress.

(** ** The theorems *)

(** C11. Every run of threads entering, leaving, waiting on, notifying and hashing one object,
    with inflation, deflation by the collector and concurrent changes of the read barrier bits,
    is a run of the abstract lock with the same events, and no thread ever fails a check of the
    code. *)
Theorem monitor_refines s l s' :
  initial s -> run s l s' ->
  abs_run (mkAlock None None ∅) l (abs urb s') /\ forall t, threads s' !! t <> Some Aborted.
Proof.
  intros Hini Hr. destruct (run_refines s l s' Hr Hini) as [Hi Ha]. split; [done|].
  intros t. by apply inv_no_abort.
Qed.

(** C17. Mutual exclusion: at any time at most one thread has entered the monitor more often
    than it has left it; leaving succeeds only for a thread that is inside, and the illegal
    monitor state exception is thrown only to one that is not. *)
Theorem mutual_exclusion s l s' :
  initial s -> run s l s' ->
  (forall t u, 0 < held t l -> 0 < held u l -> t = u)
  /\ (forall t, 0 <= held t l)
  /\ (forall l0 e t, l = l0 ++ [e] -> (e = Release t -> 0 < held t l0) /\ (e = Illegal t -> held t l0 = 0)).
Proof.
  intros Hini Hr. destruct (run_refines s l s' Hr Hini) as [_ Ha].
  assert (forall t, count_of (abs urb s') t = held t l) as Hc by (intros t; by eapply abs_run_held).
  destruct (abs_run_held _ _ _ 0 Ha eq_refl) as [[Hpos _] _].
  assert (forall t, 0 <= held t l) as Hnn.
  { intros t. rewrite <- Hc. unfold count_of. destruct (holder _) as [[u n]|] eqn:E; [|lia].
    specialize (Hpos u n eq_refl). destruct (u =? t); lia. }
  split; [|split; [done|]].
  - intros t u Ht Hu. rewrite <- Hc in Ht, Hu. unfold count_of in *.
    destruct (holder _) as [[v n]|]; [|lia].
    destruct (Z.eqb_spec v t), (Z.eqb_spec v u); congruence || lia.
  - intros l0 e t ->. destruct (abs_run_last _ _ _ _ Ha) as (b & Ha0 & Hs). destruct (abs_run_held _ _ _ t Ha0 eq_refl) as [_ <-].
    split; intros ->; inversion Hs; subst; unfold count_of; cbn in *; rewrite ?Z.eqb_refl; try lia.
    destruct (holder_of _ _ _) as [[v n]|]; [|done]. destruct (Z.eqb_spec v t) as [->|]; [|done].
    naive_solver.
Qed.


(** C18. No deadlock in the suspension handshake of inflation: in every reachable state where a
    thread is in an operation and neither blocked on the monitor nor waiting, one such thread
    has a step that does not depend on a timeout; and when all are blocked or waiting and the
    lock is free, each blocked thread acquires it as soon as it runs. *)
Theorem monitor_progress s0 l s m :
  initial s0 -> run s0 l s -> resources s m ->
  (forall t p, threads s !! t = Some p -> unparked p = true ->
    exists u q, threads s !! u = Some q /\ unparked q = true /\ can_step s u q (mkChoice false 1 m false))
  /\ (map_Forall (fun _ q => unparked q = false) (threads s) -> holder (abs urb s) = None ->
      forall t m' w, threads s !! t = Some (FatBlocked m' w) ->
      exists p' w' ms', thread_step t (mkChoice false 1 m false) s (FatBlocked m' w) = Some (Acquire t, p', w', ms')).
Proof.
  intros Hini Hr Hres. destruct (run_refines s0 l s Hr Hini) as [Hi _]. pose proof (run_handshake _ _ _ Hr Hini) as Hh.
  split.
  - intros t p. by eapply someone_can_step.
  - intros Hall Ho t m' w Hp. by apply blocked_acquires.
Qed.
End Runs.

(** ** A concrete run *)

(** Schedules, to compute runs. *)
Inductive sched := Start (t : Z) (o : op) | Go (t : Z) (c : choice) | DeflateNow | Barrier (rb : Z).

Definition all_suspended (s : world) : bool := bool_decide (map_Forall (fun _ p => safepoint p = true) (threads s)).

Section Exec.
Context (urb : bool) (max_spins : Z).
Definition exec1 (s : world) (a : sched) : option (event * world) :=
  match a with
  | Start t o =>
      match threads s !! t with
      | Some Idle =>
          if bool_decide (not_suspended s t) && initial_op o
          then Some (Tau, mkWorld (lock_word s) (monitors s) (<[t := Load o]> (threads s))) else None
      | _ => None
      end
  | Go t c =>
      match threads s !! t with
      | Some p =>
          match thread_step urb max_spins t c s p with
          | Some (e, p', w, ms) => Some (e, mkWorld w ms (<[t := p']> (threads s)))
          | None => None
          end
      | None => None
      end
  | DeflateNow =>
      if all_suspended s then Some (Tau, mkWorld (fst (deflate urb s)) (snd (deflate urb s)) (threads s)) else None
  | Barrier rb =>
      if urb && (0 <=? rb) && (rb <? 4)
      then Some (Tau, mkWorld (SetReadBarrierState (lock_word s) rb) (monitors s) (threads s)) else None
  end.
Fixpoint exec (s : world) (l : list event) (sc : list sched) : option (list event * world) :=
  match sc with
  | [] => Some (l, s)
  | a :: sc => match exec1 s a with Some (e, s') => exec s' (l ++ [e]) sc | None => None end
  end.

Lemma exec1_step s a e s' : exec1 s a = Some (e, s') -> step urb max_spins s e s'.
Proof.
  destruct a as [t o|t c| |rb]; cbn; intros He.
  - destruct (threads s !! t) as [[]|] eqn:Ht; try done. case_bool_decide; [|done].
    destruct (initial_op o) eqn:Eo; [|done]. cbn in He. injection He as <- <-. by constructor.
  - destruct (threads s !! t) as [p|] eqn:Hp; [|done]. destruct (thread_step _ _ _ _ _ _) as [[[[e0 p'] w] ms]|] eqn:E; [|done].
    injection He as <- <-. by econstructor.
  - unfold all_suspended in He. case_bool_decide; [|done]. injection He as <- <-. by constructor.
  - destruct urb eqn:Hurb; [|done]. cbn in He. destruct (Z.leb_spec 0 rb), (Z.ltb_spec rb 4); try done.
    injection He as <- <-. constructor; [done|lia].
Qed.
Lemma exec_run s0 s l sc l' s' : run urb max_spins s0 l s -> exec s l sc = Some (l', s') -> run urb max_spins s0 l' s'.
Proof.
  revert s l. induction sc as [|a sc IH]; intros s l Hr He; cbn in He; [by injection He as <- <-|].
  destruct (exec1 s a) as [[e s1]|] eqn:E; [|done]. eapply IH; [|exact He]. econstructor; [done|]. by eapply exec1_step.
Qed.
End Exec.

(** Two threads; the second inflates the lock the first holds, is blocked, and acquires it when
    the first leaves; both then ask for the hash code, with a deflation in between. *)
Definition go (t : Z) : sched := Go t (mkChoice false 42 7 false).
Definition demo_world : world := mkWorld Default ∅ {[1 := Idle; 2 := Idle]}.
Definition demo_contended : list sched :=
  [Start 1 (OpEnter 0); go 1; go 1; Start 2 (OpEnter 0)] ++ repeat (go 2) 14.
Definition demo : list sched :=
  demo_contended ++ [Start 1 OpExit; go 1; go 1; go 1; go 2; Start 2 OpHash; go 2; go 2; go 2; go 2]
  ++ [Start 2 OpExit; go 2; go 2; go 2; DeflateNow; Start 1 OpHash; go 1; go 1].
Definition outcome (sc : list sched) : list event * world :=
  match exec false 0 demo_world [] sc with Some r => r | None => ([], demo_world) end.
Lemma demo_initial : initial demo_world.
Proof. split; [done|]. split; [done|]. by apply (bool_decide_unpack _); vm_compute. Qed.
Lemma outcome_run sc : bool_decide (is_Some (exec false 0 demo_world [] sc)) = true ->
  run false 0 demo_world (fst (outcome sc)) (snd (outcome sc)).
Proof.
  intros [[l s] E]%bool_decide_eq_true. unfold outcome. rewrite E. eapply exec_run; [constructor|exact E].
Qed.

Lemma monitor_refines_witness :
  List.filter (fun e => match e with Tau => false | _ => true end) (fst (outcome demo))
  = [Acquire 1; Release 1; Acquire 2; AssignHash 42; HashResult 2 42; Release 2; HashResult 1 42]
  /\ abs_run (mkAlock None None ∅) (fst (outcome demo)) (abs false (snd (outcome demo)))
  /\ forall t, threads (snd (outcome demo)) !! t <> Some Aborted.
Proof.
  split; [by vm_compute|]. apply (monitor_refines false 0 demo_world); [apply demo_initial|by apply outcome_run; vm_compute].
Defined.
Lemma mutual_exclusion_witness :
  held 1 (fst (outcome demo_contended)) = 1 /\
  forall u, 0 < held u (fst (outcome demo_contended)) -> u = 1.
Proof.
  split; [by vm_compute|]. intros u Hu.
  destruct (mutual_exclusion false 0 demo_world (fst (outcome demo_contended)) (snd (outcome demo_contended)))
    as (H & _); [apply demo_initial|by apply outcome_run; vm_compute|].
  apply (H u 1 Hu). by vm_compute.
Defined.
Definition demo_requested : list sched :=
  [Start 1 (OpEnter 0); go 1; go 1; Start 2 (OpEnter 0); go 2; go 2; go 2].
Definition demo_released : list sched := demo_contended ++ [Start 1 OpExit; go 1; go 1; go 1].
Lemma outcome_resources sc :
  bool_decide (monitors (snd (outcome sc)) !! 8 = None) = true ->
  bool_decide (map_Forall (fun _ mon => lock_count_ mon < INT32_MAX) (monitors (snd (outcome sc)))) = true ->
  resources (snd (outcome sc)) 8.
Proof. intros H1%bool_decide_eq_true H2%bool_decide_eq_true. split; [done|]. by split. Qed.
Lemma monitor_progress_witness :
  let s := snd (outcome demo_requested) in
  let s' := snd (outcome demo_released) in
  (threads s !! 2 = Some (Requested (OpEnter 0) 1 0)
   /\ exists u q, threads s !! u = Some q /\ unparked q = true /\ can_step false 0 s u q (mkChoice false 1 8 false))
  /\ exists p w ms, thread_step false 0 2 (mkChoice false 1 8 false) s' (FatBlocked 7 None) = Some (Acquire 2, p, w, ms).
Proof.
  cbv zeta.
  assert (threads (snd (outcome demo_requested)) !! 2 = Some (Requested (OpEnter 0) 1 0)) as Ht by (by vm_compute).
  split; [split; [exact Ht|]|].
  - destruct (monitor_progress false 0 demo_world (fst (outcome demo_requested)) (snd (outcome demo_requested)) 8)
      as [H _]; [apply demo_initial|by apply outcome_run; vm_compute|by apply outcome_resources; vm_compute|].
    by apply (H 2 _ Ht).
  - destruct (monitor_progress false 0 demo_world (fst (outcome demo_released)) (snd (outcome demo_released)) 8)
      as [_ H]; [apply demo_initial|by apply outcome_run; vm_compute|by apply outcome_resources; vm_compute|].
    apply H; [by apply (bool_decide_unpack _); vm_compute|by vm_compute|by vm_compute].
Defined.
