(* ===== verification/ClassHierarchy.v ===== *)
(** * Classes and their hierarchy

    The part of runtime/mirror/class.h, class-inl.h and class.cc that decides assignability
    ([IsAssignableFrom], [IsSubClass], [Implements], [CannotBeAssignedFromOtherTypes], [Depth])
    and [RegType::ClassJoin] of runtime/verifier/reg_type.cc.

    A class is a primitive class, an array class, which its component type determines (the class
    linker keeps one array class for a component), or a named class, whose fields are in a table.
    The fields of primitive and array classes are those [InitializePrimitiveClass] and
    [CreateArrayClass] of runtime/class_linker.cc give them. *)

From stdpp Require Import strings.
From S2P Require Import Prelude InterpreterBase.

Inductive Class :=
| PrimClass (type : Primitive)
| Array (component_type_ : Class)
| Named (k : Z).

#[global] Instance Class_eq_dec : EqDecision Class.
Proof. solve_decision. Defined.

Definition kAccPublic : Z := 0x0001.
Definition kAccFinal : Z := 0x0010.
Definition kAccInterface : Z := 0x0200.
Definition kAccAbstract : Z := 0x0400.
Definition kAccJavaFlagsMask : Z := 0xffff.

Record ClassInfo := mkClassInfo {
  super_class_ : option Z;
  iftable_ : list Z;
  access_flags_ : Z;
  descriptor_of : string
}.

(** The loaded classes, [java.lang.Object] and the interfaces of arrays. *)
Record hierarchy := mkHierarchy {
  classes : gmap Z ClassInfo;
  java_lang_Object : Z;
  array_iftable_ : list Z
}.

Section Hierarchy.
Context (H : hierarchy).
#[local] Abbreviation Object := (Named (java_lang_Object H)).

(** ** Fields *)
Definition GetSuperClass (c : Class) : option Class :=
  match c with
  | PrimClass _ => None
  | Array _ => Some Object
  | Named k =>
      match classes H !! k with
      | Some info => match super_class_ info with Some s => Some (Named s) | None => None end
      | None => None
      end
  end.
Definition GetComponentType (c : Class) : option Class :=
  match c with Array c => Some c | _ => None end.
Definition GetIfTable (c : Class) : list Z :=
  match c with
  | PrimClass _ => []
  | Array _ => array_iftable_ H
  | Named k => match classes H !! k with Some info => iftable_ info | None => [] end
  end.
Fixpoint GetAccessFlags (c : Class) : Z :=
  match c with
  | PrimClass _ => Z.lor (Z.lor kAccPublic kAccFinal) kAccAbstract
  | Array c =>
      let access_flags := Z.land (GetAccessFlags c) kAccJavaFlagsMask in
      let access_flags := Z.lor access_flags (Z.lor kAccAbstract kAccFinal) in
      Z.land access_flags (Z.lnot kAccInterface)
  | Named k => match classes H !! k with Some info => access_flags_ info | None => 0 end
  end.

Definition IsInterface (c : Class) : bool := negb (Z.land (GetAccessFlags c) kAccInterface =? 0).
Definition IsFinal (c : Class) : bool := negb (Z.land (GetAccessFlags c) kAccFinal =? 0).
Definition IsAbstract (c : Class) : bool := negb (Z.land (GetAccessFlags c) kAccAbstract =? 0).
Definition GetPrimitiveType (c : Class) : Primitive := match c with PrimClass t => t | _ => kPrimNot end.
Definition IsPrimitive (c : Class) : bool := negb (bool_decide (GetPrimitiveType c = kPrimNot)).
Definition IsArrayClass (c : Class) : bool := bool_decide (is_Some (GetComponentType c)).
Definition IsObjectClass (c : Class) : bool :=
  negb (IsPrimitive c) && bool_decide (GetSuperClass c = None).
Definition IsInstantiable (c : Class) : bool :=
  (negb (IsPrimitive c) && negb (IsInterface c) && negb (IsAbstract c))
  || (IsAbstract c && IsArrayClass c).
Fixpoint CannotBeAssignedFromOtherTypes (c : Class) : bool :=
  match c with
  | Array component => if IsPrimitive component then true else CannotBeAssignedFromOtherTypes component
  | _ => IsFinal c
  end.

(** ** Loops over the superclasses; the number of classes bounds their length. *)
Definition fuel : nat := S (S (size (classes H))).
Fixpoint is_sub_class (n : nat) (current klass : Class) : bool :=
  match n with
  | O => false
  | S n =>
      if bool_decide (current = klass) then true
      else match GetSuperClass current with Some s => is_sub_class n s klass | None => false end
  end.
Definition IsSubClass (this klass : Class) : bool := is_sub_class fuel this klass.
Fixpoint depth (n : nat) (klass : Class) : nat :=
  match n with
  | O => O
  | S n => match GetSuperClass klass with Some s => S (depth n s) | None => O end
  end.
Definition Depth (this : Class) : nat := depth fuel this.

Definition is_named (k : Z) (c : Class) : bool := bool_decide (c = Named k).
Definition Implements (this klass : Class) : bool :=
  existsb (fun i => is_named i klass) (GetIfTable this).

(** ** Assignability *)
Fixpoint IsAssignableFrom (this src : Class) : bool :=
  if bool_decide (this = src) then true
  else if IsObjectClass this then negb (IsPrimitive src)
  else if IsInterface this then Implements src this
  else
    match src with
    | Array src_ct =>                                      (* IsAssignableFromArray *)
        match this with
        | Array this_ct => IsAssignableFrom this_ct src_ct   (* IsArrayAssignableFromArray *)
        | _ => bool_decide (GetSuperClass src = Some this)
        end
    | _ => negb (IsInterface src) && IsSubClass src this
    end.

(** ** [ClassJoin] *)
Definition up (c : Class) : Class := match GetSuperClass c with Some s => s | None => c end.
Fixpoint up_to (n : nat) (c : Class) : Class := match n with O => c | S n => up_to n (up c) end.
Fixpoint common_parent (n : nat) (s t : Class) : Class :=
  match n with
  | O => s
  | S n => if bool_decide (s = t) then s else common_parent n (up s) (up t)
  end.
Definition join_by_depth (s t : Class) : Class :=
  let s_depth := Depth s in
  let t_depth := Depth t in
  let s' := up_to (s_depth - t_depth) s in
  let t' := up_to (t_depth - s_depth) t in
  common_parent fuel s' t'.
Fixpoint ClassJoin (s t : Class) : Class :=
  if bool_decide (s = t) then s
  else if IsAssignableFrom s t then s
  else if IsAssignableFrom t s then t
  else
    match s, t with
    | Array s_ct, Array t_ct =>
        if IsPrimitive s_ct || IsPrimitive t_ct then up s
        else Array (ClassJoin s_ct t_ct)
    | _, _ => join_by_depth s t
    end.

(** ** Well-formed hierarchies *)
Fixpoint loaded (c : Class) : Prop :=
  match c with
  | PrimClass t => t <> kPrimNot
  | Array c => loaded c
  | Named k => is_Some (classes H !! k)
  end.

(** An interface table holds interfaces, and with an interface those it extends. *)
Definition iftable_ok (l : list Z) : Prop :=
  Forall (fun i => is_Some (classes H !! i) /\ IsInterface (Named i) = true
                   /\ GetIfTable (Named i) ⊆ l) l.

Definition super_ok (k : Z) (info : ClassInfo) : Prop :=
  match super_class_ info with
  | None => k = java_lang_Object H
  | Some s => is_Some (classes H !! s) /\ IsInterface (Named s) = false /\ IsFinal (Named s) = false
              /\ GetIfTable (Named s) ⊆ iftable_ info
  end.
#[global] Instance super_ok_dec k info : Decision (super_ok k info).
Proof. unfold super_ok. destruct (super_class_ info); apply _. Defined.

(** What the class linker guarantees of a class it has linked. *)
Record class_ok (k : Z) (info : ClassInfo) : Prop := {
  c_super : super_ok k info;
  c_iface : IsInterface (Named k) = true -> super_class_ info = Some (java_lang_Object H) /\ IsFinal (Named k) = false;
  c_depth : (Depth (Named k) < fuel)%nat;
  c_iftable : iftable_ok (iftable_ info)
}.

#[global] Instance iftable_ok_dec l : Decision (iftable_ok l).
Proof. unfold iftable_ok. apply _. Defined.
#[global] Instance class_ok_dec k info : Decision (class_ok k info).
Proof.
  destruct (decide (super_ok k info)) as [H1|H1]; [|right; by intros []].
  destruct (decide (IsInterface (Named k) = true -> super_class_ info = Some (java_lang_Object H) /\ IsFinal (Named k) = false))
    as [H2|H2]; [|right; by intros []].
  destruct (decide (Depth (Named k) < fuel)%nat) as [H3|H3]; [|right; by intros []].
  destruct (decide (iftable_ok (iftable_ info))) as [H4|H4]; [left; by split|right; by intros []].
Defined.

Record hier_ok : Prop := {
  h_object : is_Some (classes H !! java_lang_Object H);
  h_root : GetSuperClass Object = None /\ GetIfTable Object = []
           /\ IsInterface Object = false /\ IsFinal Object = false;
  h_classes : map_Forall class_ok (classes H);
  h_arrays : iftable_ok (array_iftable_ H)
}.
End Hierarchy.

Section Proofs.
Context (H : hierarchy) (Hok : hier_ok H).
#[local] Abbreviation Object := (Named (java_lang_Object H)).
#[local] Abbreviation loaded := (loaded H).

(** ** Superclasses *)
Inductive sub : Class -> Class -> Prop :=
| sub_refl c : sub c c
| sub_up c s k : GetSuperClass H c = Some s -> sub s k -> sub c k.

Lemma super_loaded c s :
  loaded c -> GetSuperClass H c = Some s ->
  exists k, s = Named k /\ loaded s /\ IsInterface H s = false /\ IsFinal H s = false.
Proof.
  destruct c as [p|c|k]; cbn; [done| |].
  - intros _ [= <-]. destruct (h_root _ Hok) as (_ & _ & ? & ?). exists (java_lang_Object H).
    split; [done|]. split; [apply Hok|done].
  - intros [info Hi]. rewrite Hi. destruct (super_class_ info) as [k'|] eqn:E; [|done]. intros [= <-].
    pose proof (c_super _ _ _ (h_classes _ Hok k info Hi)) as Hs. unfold super_ok in Hs. rewrite E in Hs. exists k'. naive_solver.
Qed.

Lemma no_super c : loaded c -> GetSuperClass H c = None -> IsPrimitive c = true \/ c = Object.
Proof.
  destruct c as [p|c|k]; cbn; [|done|].
  - intros Hp _. left. unfold IsPrimitive. cbn. by rewrite bool_decide_false.
  - intros [info Hi]. rewrite Hi. destruct (super_class_ info) as [k'|] eqn:E; [done|]. intros _. right.
    pose proof (c_super _ _ _ (h_classes _ Hok k info Hi)) as Hs. unfold super_ok in Hs. rewrite E in Hs. by rewrite Hs.
Qed.

Lemma sub_named c k : loaded c -> sub c k -> k <> c -> exists k', k = Named k'.
Proof.
  intros Hc Hs. induction Hs as [c|c s k Hs Hsub IH]; intros Hne; [done|].
  destruct (super_loaded c s Hc Hs) as (k' & -> & Hl & _).
  destruct (decide (k = Named k')) as [->|Hne']; [eauto|]. by apply IH.
Qed.

(** ** Depth *)
Lemma depth_more n c : (depth H n c < n)%nat -> depth H (S n) c = depth H n c.
Proof.
  revert c. induction n as [|n IH]; intros c Hd; [lia|]. cbn in Hd |- *.
  destruct (GetSuperClass H c) as [s|]; [|done]. f_equal. apply IH. lia.
Qed.
Lemma fuel_pos : fuel H = S (S (size (classes H))).
Proof. done. Qed.

Lemma depth_S n c : depth H (S n) c = match GetSuperClass H c with Some s => S (depth H n s) | None => O end.
Proof. done. Qed.

Lemma object_depth n : depth H n Object = 0%nat.
Proof. destruct n as [|n]; [done|]. rewrite depth_S. by rewrite (proj1 (h_root _ Hok)). Qed.

Lemma depth_bound c : loaded c -> (Depth H c < fuel H)%nat.
Proof.
  destruct c as [p|c|k]; intros Hc.
  - unfold Depth. rewrite fuel_pos. cbn. lia.
  - unfold Depth. rewrite fuel_pos, depth_S. cbn [GetSuperClass]. rewrite object_depth. lia.
  - destruct Hc as [info Hi]. apply (h_classes _ Hok k info Hi).
Qed.

Lemma depth_super c s : loaded c -> GetSuperClass H c = Some s -> Depth H c = S (Depth H s).
Proof.
  intros Hc Hs. pose proof (depth_bound c Hc) as Hb.
  destruct (super_loaded c s Hc Hs) as (k & _ & Hl & _). pose proof (depth_bound s Hl) as Hb'.
  unfold Depth in *. revert Hb Hb'. rewrite fuel_pos. set (n := S (size (classes H))). intros Hb Hb'.
  rewrite (depth_S n c), Hs in *. f_equal. symmetry. apply depth_more. lia.
Qed.

Lemma is_sub_class_spec n c k : loaded c -> (Depth H c < n)%nat -> is_sub_class H n c k = true <-> sub c k.
Proof.
  revert c. induction n as [|n IH]; intros c Hc Hd; [lia|]. cbn. case_bool_decide as E.
  { subst. split; [intros; apply sub_refl|done]. }
  destruct (GetSuperClass H c) as [s|] eqn:Hs.
  - destruct (super_loaded c s Hc Hs) as (k' & _ & Hl & _). pose proof (depth_super c s Hc Hs).
    rewrite IH by (done || lia). split; [by apply sub_up|]. intros Hsub. inversion Hsub; subst; [done|congruence].
  - split; [done|]. intros Hsub. inversion Hsub; subst; congruence.
Qed.
Lemma IsSubClass_spec c k : loaded c -> IsSubClass H c k = true <-> sub c k.
Proof. intros Hc. apply is_sub_class_spec; [done|by apply depth_bound]. Qed.

(** ** Walking up *)
Lemma depth_zero c : GetSuperClass H c = None -> Depth H c = 0%nat.
Proof. intros E. unfold Depth. rewrite fuel_pos, depth_S. by rewrite E. Qed.
Lemma up_some c s : GetSuperClass H c = Some s -> up H c = s.
Proof. unfold up. by intros ->. Qed.
Lemma loaded_up c : loaded c -> loaded (up H c).
Proof.
  intros Hc. unfold up. destruct (GetSuperClass H c) as [s|] eqn:E; [|done].
  by destruct (super_loaded c s Hc E) as (? & _ & ? & _).
Qed.
Lemma sub_of_up c : sub c (up H c).
Proof. unfold up. destruct (GetSuperClass H c) as [s|] eqn:E; [|constructor]. eapply sub_up; [done|constructor]. Qed.
Lemma sub_trans a b c : sub a b -> sub b c -> sub a c.
Proof. intros Ha. revert c. induction Ha; intros; [done|]. eapply sub_up; eauto. Qed.

Lemma up_to_spec n c :
  loaded c -> (n <= Depth H c)%nat ->
  loaded (up_to H n c) /\ sub c (up_to H n c) /\ Depth H (up_to H n c) = (Depth H c - n)%nat.
Proof.
  revert c. induction n as [|n IH]; intros c Hc Hn; cbn [up_to]; [split; [done|]; split; [constructor|lia]|].
  destruct (GetSuperClass H c) as [s|] eqn:E.
  - pose proof (depth_super c s Hc E) as Hd. rewrite (up_some c s E).
    destruct (super_loaded c s Hc E) as (k & _ & Hl & _).
    destruct (IH s Hl) as (? & Hs & Hds); [lia|]. split; [done|]. split; [by eapply sub_up|lia].
  - exfalso. apply depth_zero in E. lia.
Qed.

(** A superclass is at least as deep down as the walk it lies on. *)
Lemma sub_depth c k : loaded c -> sub c k -> (Depth H k <= Depth H c)%nat /\ loaded k.
Proof.
  intros Hc Hs. induction Hs as [c|c s k Hs Hsub IH]; [done|].
  destruct (super_loaded c s Hc Hs) as (? & _ & Hl & _). rewrite (depth_super c s Hc Hs).
  destruct (IH Hl). split; [lia|done].
Qed.
Lemma sub_up_to n c k : loaded c -> sub c k -> (n <= Depth H c - Depth H k)%nat -> sub (up_to H n c) k.
Proof.
  revert c. induction n as [|n IH]; intros c Hc Hs Hn; cbn [up_to]; [done|].
  inversion Hs as [|? s ? E Hsub]; subst; [lia|]. rewrite (up_some c s E).
  destruct (super_loaded c s Hc E) as (? & _ & Hl & _). apply IH; [done|done|].
  rewrite (depth_super c s Hc E) in Hn. lia.
Qed.
Lemma same_depth c k : loaded c -> sub c k -> Depth H c = Depth H k -> c = k.
Proof.
  intros Hc Hs Hd. inversion Hs as [|? s ? E Hsub]; subst; [done|].
  destruct (super_loaded c s Hc E) as (? & _ & Hl & _). pose proof (sub_depth s k Hl Hsub) as [].
  rewrite (depth_super c s Hc E) in Hd. lia.
Qed.

(** ** The common parent *)
Definition lub_by (R : Class -> Class -> Prop) (s t j : Class) : Prop :=
  R s j /\ R t j /\ forall u, R s u -> R t u -> R j u.

Lemma super_not_prim c s : loaded c -> GetSuperClass H c = Some s -> IsPrimitive s = false.
Proof. intros Hc Hs. by destruct (super_loaded c s Hc Hs) as (k & -> & _). Qed.

Lemma common_parent_spec n s t :
  loaded s -> loaded t -> IsPrimitive s = false -> IsPrimitive t = false ->
  Depth H s = Depth H t -> (Depth H s < n)%nat -> lub_by sub s t (common_parent H n s t).
Proof.
  revert s t. induction n as [|n IH]; intros s t Hs Ht Hps Hpt Hd Hn; [lia|]. cbn [common_parent].
  case_bool_decide as E; [subst; split; [constructor|]; split; [constructor|done]|].
  destruct (GetSuperClass H s) as [s'|] eqn:Es; destruct (GetSuperClass H t) as [t'|] eqn:Et.
  2: { apply depth_super in Es; [|done]. apply depth_zero in Et. lia. }
  2: { apply depth_super in Et; [|done]. apply depth_zero in Es. lia. }
  2: { destruct (no_super s Hs Es), (no_super t Ht Et); congruence. }
  rewrite (up_some s s' Es), (up_some t t' Et). pose proof (depth_super s s' Hs Es). pose proof (depth_super t t' Ht Et).
  destruct (super_loaded s s' Hs Es) as (? & _ & Hls & _). destruct (super_loaded t t' Ht Et) as (? & _ & Hlt & _).
  destruct (IH s' t') as (J1 & J2 & J3); [done|done|exact (super_not_prim s s' Hs Es)|exact (super_not_prim t t' Ht Et)|lia|lia|].
  split; [by eapply sub_up|]. split; [by eapply sub_up|]. intros u Hsu Htu. apply J3.
  - inversion Hsu; subst; [|congruence]. exfalso. by apply E, eq_sym, (same_depth t u).
  - inversion Htu; subst; [|congruence]. exfalso. by apply E, (same_depth s u).
Qed.

(** ** Assignability *)
Lemma array_not_interface c : IsInterface H (Array c) = false.
Proof.
  unfold IsInterface. cbn [GetAccessFlags]. rewrite <- Z.land_assoc.
  change (Z.land (Z.lnot kAccInterface) kAccInterface) with 0. by rewrite Z.land_0_r.
Qed.
Lemma interface_named c : loaded c -> IsInterface H c = true -> exists k, c = Named k.
Proof. destruct c; [done|by rewrite array_not_interface|eauto]. Qed.
Lemma object_class c : loaded c -> IsObjectClass H c = true <-> c = Object.
Proof.
  intros Hc. unfold IsObjectClass. rewrite andb_true_iff, negb_true_iff, bool_decide_eq_true. split.
  - intros [Hp Hs]. destruct (no_super c Hc Hs); congruence.
  - intros ->. split; [done|]. apply (h_root _ Hok).
Qed.
Lemma implements_spec c k : Implements H c (Named k) = true <-> k ∈ GetIfTable H c.
Proof.
  unfold Implements. rewrite existsb_exists. unfold is_named. setoid_rewrite bool_decide_eq_true.
  setoid_rewrite <- list_elem_of_In. naive_solver.
Qed.
Lemma sub_interface c k : loaded c -> sub c k -> IsInterface H k = true -> c = k.
Proof.
  intros Hc Hs. induction Hs as [c|c s k Hs Hsub IH]; [done|]. intros Hi.
  destruct (super_loaded c s Hc Hs) as (? & _ & Hl & Hni & _). rewrite IH in Hni by done. congruence.
Qed.
Lemma prim_sub c k : sub c k -> IsPrimitive c = true -> k = c.
Proof. intros Hs Hp. inversion Hs as [|? s ? E]; subst; [done|]. by destruct c. Qed.

Inductive assignable : Class -> Class -> Prop :=
| as_same c : assignable c c
| as_object c : IsPrimitive c = false -> assignable Object c
| as_interface k c : IsInterface H (Named k) = true -> k ∈ GetIfTable H c -> assignable (Named k) c
| as_array a b : assignable a b -> assignable (Array a) (Array b)
| as_sub c k : IsInterface H c = false -> IsArrayClass c = false -> sub c k -> assignable k c.

Lemma plain_assignable this src :
  loaded src -> this <> src -> this <> Object -> IsInterface H this = false -> IsArrayClass src = false ->
  negb (IsInterface H src) && IsSubClass H src this = true <-> assignable this src.
Proof.
  intros Hs Hne Hno Hni Ha. rewrite andb_true_iff, negb_true_iff, IsSubClass_spec by done.
  split; [intros []; by apply as_sub|]. intros Has. by inversion Has; subst; try congruence.
Qed.
Lemma object_assignable src : loaded src -> Object <> src -> negb (IsPrimitive src) = true <-> assignable Object src.
Proof.
  intros Hs Hne. rewrite negb_true_iff. split; [apply as_object|]. intros Ha. apply not_true_is_false. intros Hp.
  inversion Ha as [|? Hp'|? ? Hi| |? ? _ _ Hsub]; subst; try done; [congruence| |].
  - destruct (h_root _ Hok) as (_ & _ & Hni & _). congruence.
  - by apply prim_sub in Hsub.
Qed.
Lemma interface_assignable k src : loaded src -> Named k <> src -> Named k <> Object -> IsInterface H (Named k) = true ->
  Implements H src (Named k) = true <-> assignable (Named k) src.
Proof.
  intros Hs Hne Hno Hi. rewrite implements_spec. split; [by apply as_interface|]. intros Ha.
  inversion Ha; subst; try done. exfalso. apply Hne. symmetry. by eapply sub_interface.
Qed.

Lemma IsAssignableFrom_spec this src :
  loaded this -> loaded src -> IsAssignableFrom H this src = true <-> assignable this src.
Proof.
  revert src. induction this as [p|this IH|k]; intros src Ht Hs; cbn [IsAssignableFrom];
    (case_bool_decide as E; [subst; split; [constructor|done]|]).
  - destruct (IsObjectClass H (PrimClass p)) eqn:Eo; [by apply object_class in Eo|].
    change (IsInterface H (PrimClass p)) with false. destruct src; [by apply plain_assignable| |by apply plain_assignable].
    split; [by case_bool_decide|]. intros Ha. by inversion Ha.
  - destruct (IsObjectClass H (Array this)) eqn:Eo; [by apply object_class in Eo|].
    pose proof (array_not_interface this) as Hn. rewrite Hn.
    destruct src; [by apply plain_assignable| |by apply plain_assignable].
    rewrite IH by done. split; [by apply as_array|]. intros Ha. by inversion Ha; subst.
  - destruct (IsObjectClass H (Named k)) eqn:Eo.
    { apply object_class in Eo; [|done]. rewrite Eo in *. by apply object_assignable. }
    assert (Named k <> Object) as Hno by (intros Eq; rewrite (proj2 (object_class (Named k) Ht) Eq) in Eo; done).
    destruct (IsInterface H (Named k)) eqn:Ei; [by apply interface_assignable|].
    destruct src; [by apply plain_assignable| |by apply plain_assignable].
    split; [case_bool_decide as Es; [|done]; cbn in Es; congruence|].
    intros Ha. by inversion Ha; subst; try congruence.
Qed.

Lemma iftable_closed c : loaded c -> iftable_ok H (GetIfTable H c).
Proof.
  destruct c as [p|c|k]; cbn [GetIfTable]; intros Hc; [constructor|apply Hok|].
  destruct Hc as [info Hi]. rewrite Hi. apply (h_classes _ Hok k info Hi).
Qed.
Lemma sub_iftable c k : loaded c -> sub c k -> GetIfTable H k ⊆ GetIfTable H c.
Proof.
  intros Hc Hs. induction Hs as [c|c s k Hs Hsub IH]; [done|].
  destruct (super_loaded c s Hc Hs) as (? & _ & Hl & _). etransitivity; [by apply IH|].
  destruct c as [p|c|k']; cbn in Hs |- *; [done| |].
  - injection Hs as <-. destruct (h_root _ Hok) as (_ & -> & _). set_solver.
  - destruct Hc as [info Hi]. rewrite Hi in *. destruct (super_class_ info) as [s'|] eqn:E; [|done]. injection Hs as <-.
    pose proof (c_super _ _ _ (h_classes _ Hok k' info Hi)) as Hs. unfold super_ok in Hs. rewrite E in Hs. apply Hs.
Qed.
Lemma assignable_prim s t : loaded t -> assignable s t -> IsPrimitive t = true -> s = t.
Proof.
  intros Ht Ha Hp. inversion Ha; subst; try done; try congruence; [by destruct t; try done; set_solver|].
  by apply prim_sub.
Qed.
Lemma assignable_sub_trans u s t :
  loaded t -> IsInterface H s = false -> IsArrayClass s = false -> sub s u -> assignable s t -> assignable u t.
Proof.
  intros Ht Hi Ha Hs Hst. inversion Hst; subst; try done; try congruence; [by apply as_sub| |].
  - inversion Hs as [|? s ? E]; subst; [by apply as_object|].
    destruct (h_root _ Hok) as (Hr & _). congruence.
  - apply as_sub; [done|done|]. by eapply sub_trans.
Qed.
Lemma assignable_trans u s t :
  loaded s -> loaded t -> assignable u s -> assignable s t -> assignable u t.
Proof.
  intros Hs Ht Hus. revert t Ht. induction Hus as [c|c Hp|k c Hi Hk|a b Hab IH|c k Hi Ha Hsub]; intros t Ht Hst; [done| | | |].
  - apply as_object. apply not_true_is_false. intros Hp'. apply assignable_prim in Hst; [|done|done]. congruence.
  - apply as_interface; [done|]. inversion Hst as [|? Hp|k' ? Hi' Hk'|a b Hab|? ? Hi' Ha Hsub]; subst; try done.
    + destruct (h_root _ Hok) as (_ & Ho & _). rewrite Ho in Hk. by apply elem_of_nil in Hk.
    + pose proof (iftable_closed t Ht) as Hcl. unfold iftable_ok in Hcl. rewrite Forall_forall in Hcl.
      destruct (Hcl k' Hk') as (_ & _ & Hsubset). by apply Hsubset.
    + by apply (sub_iftable t c).
  - inversion Hst as [| | |? c Hbc|? ? Hi' Ha Hsub]; subst; [by apply as_array| |].
    + apply as_array. by apply IH.
    + destruct (decide (Array b = t)) as [<-|Hne]; [by apply as_array|].
      destruct (sub_named t (Array b) Ht Hsub Hne). done.
  - by eapply assignable_sub_trans.
Qed.

(** A class that cannot be assigned from others is assignable only from itself. *)
Lemma final_sub c k : loaded c -> sub c k -> IsFinal H k = true -> c = k.
Proof.
  intros Hc Hs. induction Hs as [c|c s k Hs Hsub IH]; [done|]. intros Hf.
  destruct (super_loaded c s Hc Hs) as (? & _ & Hl & _ & Hnf). rewrite IH in Hnf by done. congruence.
Qed.
Lemma final_assignable k c :
  loaded k -> loaded c -> CannotBeAssignedFromOtherTypes H k = true -> assignable k c -> c = k.
Proof.
  intros Hk Hc. revert c Hc. induction k as [p|k IH|k]; intros c Hc Hf Ha.
  - inversion Ha; subst; try done. by eapply final_sub.
  - inversion Ha as [| | |? b Hab|? ? _ _ Hsub]; subst; [done| |].
    + cbn in Hf. f_equal. destruct (IsPrimitive k) eqn:Hp; [|by apply IH]. destruct k; try done. by apply IH.
    + destruct (decide (Array k = c)) as [|Hne]; [done|]. by destruct (sub_named c (Array k) Hc Hsub Hne).
  - destruct Hk as [info Hi]. cbn in Hf. inversion Ha; subst; try done.
    + destruct (h_root _ Hok) as (_ & _ & _ & Hnf). congruence.
    + destruct (c_iface _ _ _ (h_classes _ Hok k info Hi)) as [_ Hnf]; [done|congruence].
    + by eapply final_sub.
Qed.

(** ** The join *)
Lemma join_by_depth_spec s t :
  loaded s -> loaded t -> IsPrimitive s = false -> IsPrimitive t = false -> lub_by sub s t (join_by_depth H s t).
Proof.
  intros Hs Ht Hps Hpt. unfold join_by_depth.
  destruct (up_to_spec (Depth H s - Depth H t) s Hs) as (Ls & Ss & Ds); [lia|].
  destruct (up_to_spec (Depth H t - Depth H s) t Ht) as (Lt & St & Dt); [lia|].
  assert (forall c n, loaded c -> IsPrimitive c = false -> (n <= Depth H c)%nat -> IsPrimitive (up_to H n c) = false) as Hnp.
  { intros c n Hc Hp Hn. destruct (up_to_spec n c Hc Hn) as (_ & Hsub & _).
    destruct (decide (up_to H n c = c)) as [->|Hne]; [done|]. by destruct (sub_named _ _ Hc Hsub Hne) as [? ->]. }
  destruct (common_parent_spec (fuel H) (up_to H (Depth H s - Depth H t) s) (up_to H (Depth H t - Depth H s) t))
    as (J1 & J2 & J3); try done; try (apply Hnp; [done|done|lia]); [lia|pose proof (depth_bound s Hs); lia|].
  split; [by eapply sub_trans|]. split; [by eapply sub_trans|]. intros u Hu1 Hu2.
  destruct (sub_depth s u Hs Hu1) as [? _]. destruct (sub_depth t u Ht Hu2) as [? _].
  apply J3; apply sub_up_to; try done; lia.
Qed.

(** A superclass is assignable. *)
Lemma sub_assignable c k : loaded c -> IsPrimitive c = false -> sub c k -> assignable k c.
Proof.
  intros Hc Hp Hs. destruct (decide (k = c)) as [->|Hne]; [constructor|].
  destruct (IsInterface H c) eqn:Hi; [|destruct (IsArrayClass c) eqn:Ha; [|by apply as_sub]].
  - inversion Hs as [|? s ? E Hsub]; subst; [done|]. destruct (interface_named c Hc Hi) as [k0 ->].
    destruct Hc as [info Hinfo]. destruct (c_iface _ _ _ (h_classes _ Hok k0 info Hinfo) Hi) as [Es _].
    cbn in E. rewrite Hinfo, Es in E. injection E as <-.
    inversion Hsub as [|? s ? E']; subst; [by apply as_object|]. destruct (h_root _ Hok) as (Hr & _). congruence.
  - destruct c as [|c|]; try done. inversion Hs as [|? s ? E Hsub]; subst; [done|]. injection E as <-.
    inversion Hsub as [|? s ? E']; subst; [by apply as_object|]. destruct (h_root _ Hok) as (Hr & _). congruence.
Qed.

(** Classes that do not involve an interface. *)
Fixpoint no_interface (c : Class) : bool :=
  match c with Array c => no_interface c | _ => negb (IsInterface H c) end.

Definition is_join (s t j : Class) : Prop :=
  loaded j /\ IsPrimitive j = false /\ assignable j s /\ assignable j t
  /\ forall u, loaded u -> no_interface u = true -> assignable u s -> assignable u t -> assignable u j.

Lemma join_left s t : loaded s -> IsPrimitive s = false -> assignable s t -> is_join s t s.
Proof. intros Hs Hp Ha. split_and!; try done. constructor. Qed.
Lemma join_right s t : loaded t -> IsPrimitive t = false -> assignable t s -> is_join s t t.
Proof. intros Hs Hp Ha. split_and!; try done. constructor. Qed.

(** An array type above a class that is not an array, or any named class above an array. *)
Lemma array_above u t : loaded t -> IsArrayClass t = false -> assignable (Array u) t -> False.
Proof.
  intros Ht Ha Hu. inversion Hu as [| | | |? ? _ _ Hs]; subst; try done.
  destruct (decide (Array u = t)) as [<-|Hne]; [done|]. by destruct (sub_named t (Array u) Ht Hs Hne).
Qed.
Lemma class_above_array u t :
  loaded u -> no_interface u = true -> assignable u (Array t) -> u = Object \/ exists u', u = Array u' /\ assignable u' t.
Proof.
  intros Hu Hn Ha. inversion Ha; subst; try done; eauto; [right; eexists; split; [done|constructor]|].
  cbn in Hn. by rewrite H0 in Hn.
Qed.

Lemma join_depth_least s t j u :
  loaded s -> loaded t -> ~ assignable s t -> ~ assignable t s ->
  IsArrayClass s = false \/ IsArrayClass t = false -> IsPrimitive s = false ->
  lub_by sub s t j -> IsPrimitive j = false -> no_interface u = true -> assignable u s -> assignable u t -> assignable u j.
Proof.
  intros Hs Ht Hst Hts Harr Hp (J1 & J2 & J3) Hpj Hn Hus Hut.
  inversion Hus as [|? _|? ? Hi|a b Hab|? ? Hi Ha Hsub]; subst; try done; [by apply as_object|cbn in Hn; by rewrite Hi in Hn| |].
  - destruct Harr as [|Hta]; [done|]. by destruct (array_above a t Ht Hta Hut).
  - inversion Hut as [|? _|? ? Hi'|a b Hab|? ? Hi' Ha' Hsub']; subst; try done.
    + by apply as_object.
    + cbn in Hn. by rewrite Hi' in Hn.
    + by destruct (array_above a s Hs Ha Hus).
    + destruct (decide (j = s)) as [->|Hne]; [by apply as_sub; auto|].
      destruct (sub_named s j Hs J1 Hne) as [k ->]. apply as_sub; [|done|by apply J3].
      apply not_true_is_false. intros Hij. apply Hne. symmetry. by apply sub_interface.
Qed.

Lemma join_depth s t :
  loaded s -> loaded t -> IsPrimitive s = false -> IsPrimitive t = false ->
  ~ assignable s t -> ~ assignable t s -> IsArrayClass s = false \/ IsArrayClass t = false ->
  is_join s t (join_by_depth H s t).
Proof.
  intros Hs Ht Hps Hpt Hst Hts Harr. pose proof (join_by_depth_spec s t Hs Ht Hps Hpt) as Hl.
  pose proof Hl as (J1 & J2 & _). destruct (sub_depth s _ Hs J1) as [_ Hj].
  assert (IsPrimitive (join_by_depth H s t) = false) as Hpj.
  { destruct (decide (join_by_depth H s t = s)) as [->|Hne]; [done|]. by destruct (sub_named _ _ Hs J1 Hne) as [? ->]. }
  split; [done|]. split; [done|]. split; [by apply sub_assignable|]. split; [by apply sub_assignable|].
  intros u Hu Hn Hus Hut. by apply (join_depth_least s t).
Qed.

Lemma join_arrays s t j : is_join s t j -> is_join (Array s) (Array t) (Array j).
Proof.
  intros (Hl & Hp & Hs & Ht & Hleast). split; [done|]. split; [done|]. split; [by apply as_array|].
  split; [by apply as_array|]. intros u Hu Hn Hus Hut.
  destruct (class_above_array u s Hu Hn Hus) as [->|(u1 & -> & H1)]; [by apply as_object|].
  destruct (class_above_array _ t Hu Hn Hut) as [|(u2 & [= <-] & H2)]; [done|].
  apply as_array. by apply Hleast.
Qed.
Lemma join_prim_arrays s t :
  loaded s -> loaded t -> s <> t -> IsPrimitive s || IsPrimitive t = true -> is_join (Array s) (Array t) Object.
Proof.
  intros Hs Ht Hne Hp. split; [apply Hok|]. split; [done|]. split; [by apply as_object|]. split; [by apply as_object|].
  intros u Hu Hn Hus Hut.
  destruct (class_above_array u s Hu Hn Hus) as [->|(u1 & -> & H1)]; [by apply as_object|]. exfalso.
  destruct (class_above_array _ t Hu Hn Hut) as [|(u2 & [= <-] & H2)]; [done|].
  apply orb_prop in Hp as [Hp|Hp].
  - apply assignable_prim in H1 as ->; try done. apply Hne. symmetry.
    apply final_assignable; [done|done|by destruct s|done].
  - apply assignable_prim in H2 as ->; try done. apply Hne.
    apply final_assignable; [done|done|by destruct t|done].
Qed.

Lemma ClassJoin_spec s t :
  loaded s -> loaded t -> IsPrimitive s = false -> IsPrimitive t = false -> is_join s t (ClassJoin H s t).
Proof.
  revert t. induction s as [p|s IH|k]; intros t Hs Ht Hps Hpt; cbn [ClassJoin]; (case_bool_decide as E; [subst; apply join_left; [done|done|constructor]|]).
  1,3: destruct (IsAssignableFrom H _ t) eqn:E1; [apply join_left; [done|done|by apply IsAssignableFrom_spec]|];
       destruct (IsAssignableFrom H t _) eqn:E2; [apply join_right; [done|done|by apply IsAssignableFrom_spec]|];
       apply join_depth; try done; [rewrite <- IsAssignableFrom_spec by done; congruence..|by left].
  destruct (IsAssignableFrom H _ t) eqn:E1; [apply join_left; [done|done|by apply IsAssignableFrom_spec]|].
  destruct (IsAssignableFrom H t _) eqn:E2; [apply join_right; [done|done|by apply IsAssignableFrom_spec]|].
  assert (~ assignable (Array s) t /\ ~ assignable t (Array s)) as [N1 N2]
    by (rewrite <- !IsAssignableFrom_spec by done; by rewrite E1, E2).
  destruct t as [q|t|k]; [by apply join_depth; try done; right| |by apply join_depth; try done; right].
  destruct (IsPrimitive s || IsPrimitive t) eqn:Ep.
  - apply join_prim_arrays; try done. congruence.
  - apply orb_false_iff in Ep as []. apply join_arrays. by apply IH.
Qed.
End Proofs.


(** A hierarchy: [Object], an interface [I], [A] that implements it, [B] and the final class [C]
    below [A]. *)
Definition sample_hierarchy : hierarchy :=
  mkHierarchy
    (list_to_map
       [(0, mkClassInfo None [] kAccPublic "Ljava/lang/Object;");
        (1, mkClassInfo (Some 0) [] (Z.lor kAccInterface kAccAbstract) "LI;");
        (2, mkClassInfo (Some 0) [1] kAccPublic "LA;");
        (3, mkClassInfo (Some 2) [1] kAccPublic "LB;");
        (4, mkClassInfo (Some 2) [1] (Z.lor kAccPublic kAccFinal) "LC;")]%string) 0 [].

Lemma sample_hierarchy_ok : hier_ok sample_hierarchy.
Proof.
  split; [by eexists|by split_and!; vm_compute| |constructor].
  apply (bool_decide_unpack _). by vm_compute.
Qed.
