(* ===== verification/RegTypes.v ===== *)
(** * Register types of the verifier

    runtime/verifier/reg_type.h, reg_type-inl.h, reg_type.cc, reg_type_cache.h, -inl.h and .cc:
    the types of registers, the predicates on them, the cache that keeps one object per type, and
    the operations on types ([Merge], [IsAssignableFrom], [CanAssignArray], [GetComponentType],
    ...).

    A [const RegType&] is its index in [entries_]; [GetId] is the 16-bit number the code compares.
    The set of unresolved types of a merge is a bit vector, as in the code.  The class linker
    ([ResolveClass]) and the syntax check of descriptors are parameters. *)

From Stdlib Require Import Ascii.
From stdpp Require Import strings.
From S2P Require Import Prelude InterpreterBase ClassHierarchy.

Inductive RegType :=
| UndefinedType | ConflictType
| BooleanType | ByteType | ShortType | CharType | IntegerType
| LongLoType | LongHiType | FloatType | DoubleLoType | DoubleHiType
| PreciseConstType (constant_ : Z) | ImpreciseConstType (constant_ : Z)
| PreciseConstLoType (constant_ : Z) | ImpreciseConstLoType (constant_ : Z)
| PreciseConstHiType (constant_ : Z) | ImpreciseConstHiType (constant_ : Z)
| UninitializedReferenceType (klass : Class) (descriptor : string) (allocation_pc_ : Z)
| UnresolvedUninitializedRefType (descriptor : string) (allocation_pc_ : Z)
| UninitializedThisReferenceType (klass : Class) (descriptor : string)
| UnresolvedUninitializedThisRefType (descriptor : string)
| ReferenceType (klass : Class) (descriptor : string)
| PreciseReferenceType (klass : Class) (descriptor : string)
| UnresolvedReferenceType (descriptor : string)
| UnresolvedSuperClass (unresolved_child_id_ : Z)
| UnresolvedMergedType (resolved_part_ : nat) (unresolved_types_ : Z).

(** ** Predicates *)
Definition IsImpreciseConstant (t : RegType) : bool := match t with ImpreciseConstType _ => true | _ => false end.
Definition IsPreciseConstant (t : RegType) : bool := match t with PreciseConstType _ => true | _ => false end.
Definition IsImpreciseConstantLo (t : RegType) : bool := match t with ImpreciseConstLoType _ => true | _ => false end.
Definition IsPreciseConstantLo (t : RegType) : bool := match t with PreciseConstLoType _ => true | _ => false end.
Definition IsImpreciseConstantHi (t : RegType) : bool := match t with ImpreciseConstHiType _ => true | _ => false end.
Definition IsPreciseConstantHi (t : RegType) : bool := match t with PreciseConstHiType _ => true | _ => false end.
Definition IsBoolean (t : RegType) : bool := match t with BooleanType => true | _ => false end.
Definition IsByte (t : RegType) : bool := match t with ByteType => true | _ => false end.
Definition IsShort (t : RegType) : bool := match t with ShortType => true | _ => false end.
Definition IsChar (t : RegType) : bool := match t with CharType => true | _ => false end.
Definition IsInteger (t : RegType) : bool := match t with IntegerType => true | _ => false end.
Definition IsFloat (t : RegType) : bool := match t with FloatType => true | _ => false end.
Definition IsLongLo (t : RegType) : bool := match t with LongLoType => true | _ => false end.
Definition IsLongHi (t : RegType) : bool := match t with LongHiType => true | _ => false end.
Definition IsDoubleLo (t : RegType) : bool := match t with DoubleLoType => true | _ => false end.
Definition IsDoubleHi (t : RegType) : bool := match t with DoubleHiType => true | _ => false end.
Definition IsUndefined (t : RegType) : bool := match t with UndefinedType => true | _ => false end.
Definition IsConflict (t : RegType) : bool := match t with ConflictType => true | _ => false end.
Definition IsReference (t : RegType) : bool := match t with ReferenceType _ _ => true | _ => false end.
Definition IsPreciseReference (t : RegType) : bool := match t with PreciseReferenceType _ _ => true | _ => false end.
Definition IsUninitializedReference (t : RegType) : bool :=
  match t with UninitializedReferenceType _ _ _ => true | _ => false end.
Definition IsUninitializedThisReference (t : RegType) : bool :=
  match t with UninitializedThisReferenceType _ _ => true | _ => false end.
Definition IsUnresolvedAndUninitializedReference (t : RegType) : bool :=
  match t with UnresolvedUninitializedRefType _ _ => true | _ => false end.
Definition IsUnresolvedAndUninitializedThisReference (t : RegType) : bool :=
  match t with UnresolvedUninitializedThisRefType _ => true | _ => false end.
Definition IsUnresolvedReference (t : RegType) : bool := match t with UnresolvedReferenceType _ => true | _ => false end.
Definition IsUnresolvedSuperClass (t : RegType) : bool := match t with UnresolvedSuperClass _ => true | _ => false end.
Definition IsUnresolvedMergedReference (t : RegType) : bool :=
  match t with UnresolvedMergedType _ _ => true | _ => false end.

Definition IsConstant (t : RegType) : bool := IsImpreciseConstant t || IsPreciseConstant t.
Definition IsConstantLo (t : RegType) : bool := IsImpreciseConstantLo t || IsPreciseConstantLo t.
Definition IsConstantHi (t : RegType) : bool := IsPreciseConstantHi t || IsImpreciseConstantHi t.
Definition IsPrecise (t : RegType) : bool := IsPreciseConstantLo t || IsPreciseConstant t || IsPreciseConstantHi t.
Definition IsLongConstant (t : RegType) : bool := IsConstantLo t.
Definition IsConstantTypes (t : RegType) : bool := IsConstant t || IsConstantLo t || IsConstantHi t.
Definition IsUninitializedTypes (t : RegType) : bool :=
  IsUninitializedReference t || IsUnresolvedAndUninitializedReference t || IsUninitializedThisReference t
  || IsUnresolvedAndUninitializedThisReference t.
Definition IsUnresolvedTypes (t : RegType) : bool :=
  IsUnresolvedAndUninitializedReference t || IsUnresolvedAndUninitializedThisReference t
  || IsUnresolvedReference t || IsUnresolvedSuperClass t || IsUnresolvedMergedReference t.
Definition IsNonZeroReferenceTypes (t : RegType) : bool :=
  IsUninitializedTypes t || IsReference t || IsPreciseReference t
  || IsUnresolvedReference t || IsUnresolvedSuperClass t || IsUnresolvedMergedReference t.
Definition IsLowHalf (t : RegType) : bool :=
  IsLongLo t || IsDoubleLo t || IsPreciseConstantLo t || IsImpreciseConstantLo t.
Definition IsHighHalf (t : RegType) : bool :=
  IsLongHi t || IsDoubleHi t || IsPreciseConstantHi t || IsImpreciseConstantHi t.
Definition CheckWidePair (t type_h : RegType) : bool :=
  if IsLowHalf t then
    (IsImpreciseConstantLo t && IsPreciseConstantHi type_h)
    || (IsImpreciseConstantLo t && IsImpreciseConstantHi type_h)
    || (IsPreciseConstantLo t && IsPreciseConstantHi type_h)
    || (IsPreciseConstantLo t && IsImpreciseConstantHi type_h)
    || (IsDoubleLo t && IsDoubleHi type_h)
    || (IsLongLo t && IsLongHi type_h)
  else false.

(** [ConstantValue], [ConstantValueLo] and [ConstantValueHi] read the same field. *)
Definition ConstantValue (t : RegType) : Z :=
  match t with
  | PreciseConstType v | ImpreciseConstType v | PreciseConstLoType v | ImpreciseConstLoType v
  | PreciseConstHiType v | ImpreciseConstHiType v => v
  | _ => 0
  end.
Definition IsZero (t : RegType) : bool := IsPreciseConstant t && (ConstantValue t =? 0).
Definition IsOne (t : RegType) : bool := IsPreciseConstant t && (ConstantValue t =? 1).
Definition constant_in (t : RegType) (lo hi : Z) : bool :=
  IsConstant t && (lo <=? ConstantValue t) && (ConstantValue t <=? hi).
Definition IsConstantBoolean (t : RegType) : bool := constant_in t 0 1.
Definition IsConstantChar (t : RegType) : bool := constant_in t 0 65535.
Definition IsConstantByte (t : RegType) : bool := constant_in t (-128) 127.
Definition IsConstantShort (t : RegType) : bool := constant_in t (-32768) 32767.

Definition IsReferenceTypes (t : RegType) : bool := IsNonZeroReferenceTypes t || IsZero t.
Definition IsCategory1Types (t : RegType) : bool :=
  IsChar t || IsInteger t || IsFloat t || IsConstant t || IsByte t || IsShort t || IsBoolean t.
Definition IsCategory2Types (t : RegType) : bool := IsLowHalf t.
Definition IsBooleanTypes (t : RegType) : bool := IsBoolean t || IsConstantBoolean t.
Definition IsByteTypes (t : RegType) : bool := IsConstantByte t || IsByte t || IsBoolean t.
Definition IsShortTypes (t : RegType) : bool := IsShort t || IsByte t || IsBoolean t || IsConstantShort t.
Definition IsCharTypes (t : RegType) : bool := IsChar t || IsBooleanTypes t || IsConstantChar t.
Definition IsIntegralTypes (t : RegType) : bool :=
  IsInteger t || IsConstant t || IsByte t || IsShort t || IsChar t || IsBoolean t.
Definition IsFloatTypes (t : RegType) : bool := IsFloat t || IsConstant t.
Definition IsLongTypes (t : RegType) : bool := IsLongLo t || IsLongConstant t.
Definition IsLongHighTypes (t : RegType) : bool := IsLongHi t || IsPreciseConstantHi t || IsImpreciseConstantHi t.
Definition IsDoubleTypes (t : RegType) : bool := IsDoubleLo t || IsLongConstant t.
Definition IsDoubleHighTypes (t : RegType) : bool := IsDoubleHi t || IsPreciseConstantHi t || IsImpreciseConstantHi t.

(** [klass_] and [descriptor_]. *)
Definition klass_ (t : RegType) : option Class :=
  match t with
  | BooleanType => Some (PrimClass kPrimBoolean)
  | ByteType => Some (PrimClass kPrimByte)
  | ShortType => Some (PrimClass kPrimShort)
  | CharType => Some (PrimClass kPrimChar)
  | IntegerType => Some (PrimClass kPrimInt)
  | LongLoType | LongHiType => Some (PrimClass kPrimLong)
  | FloatType => Some (PrimClass kPrimFloat)
  | DoubleLoType | DoubleHiType => Some (PrimClass kPrimDouble)
  | UninitializedReferenceType k _ _ | UninitializedThisReferenceType k _
  | ReferenceType k _ | PreciseReferenceType k _ => Some k
  | _ => None
  end.
Definition HasClass (t : RegType) : bool := bool_decide (is_Some (klass_ t)).
Definition has_class (t : RegType) (k : Class) : bool := bool_decide (klass_ t = Some k).
Definition descriptor_ (t : RegType) : string :=
  match t with
  | BooleanType => "Z" | ByteType => "B" | ShortType => "S" | CharType => "C" | IntegerType => "I"
  | LongLoType | LongHiType => "J" | FloatType => "F" | DoubleLoType | DoubleHiType => "D"
  | UninitializedReferenceType _ d _ | UnresolvedUninitializedRefType d _ | UninitializedThisReferenceType _ d
  | UnresolvedUninitializedThisRefType d | ReferenceType _ d | PreciseReferenceType _ d
  | UnresolvedReferenceType d => d
  | _ => ""
  end%string.
Definition GetAllocationPc (t : RegType) : Z :=
  match t with UninitializedReferenceType _ _ pc | UnresolvedUninitializedRefType _ pc => pc | _ => 0 end.
Definition starts_with_bracket (d : string) : bool :=
  match d with String c _ => Ascii.eqb c "[" | EmptyString => false end.

(** ** The cache *)
Record RegTypeCache := mkCache {
  entries_ : list RegType;
  klass_entries_ : list (Class * nat)
}.

Definition kMinSmallConstant : Z := -1.
Definition kMaxSmallConstant : Z := 4.
Definition FillPrimitiveAndSmallConstantTypes : list RegType :=
  [UndefinedType; ConflictType; BooleanType; ByteType; ShortType; CharType; IntegerType;
   LongLoType; LongHiType; FloatType; DoubleLoType; DoubleHiType]
  ++ map PreciseConstType [-1; 0; 1; 2; 3; 4].
Definition primitive_count_ : nat := length FillPrimitiveAndSmallConstantTypes.
Definition NewRegTypeCache : RegTypeCache := mkCache FillPrimitiveAndSmallConstantTypes [].

(** The well-known entries. *)
Definition Undefined : nat := 0.
Definition Conflict : nat := 1.
Definition Boolean : nat := 2.
Definition Byte : nat := 3.
Definition Short : nat := 4.
Definition Char : nat := 5.
Definition Integer : nat := 6.
Definition LongLo : nat := 7.
Definition LongHi : nat := 8.
Definition Float : nat := 9.
Definition DoubleLo : nat := 10.
Definition DoubleHi : nat := 11.
Definition small_precise_constant (value : Z) : nat := 12 + Z.to_nat (value - kMinSmallConstant).

Definition GetFromId (c : RegTypeCache) (i : nat) : RegType := default UndefinedType (entries_ c !! i).
Definition GetId (i : nat) : Z := u16 (Z.of_nat i).
Definition Equals (i j : nat) : bool := GetId i =? GetId j.

(** The loops over the entries from [primitive_count_] on return the first match. *)
Fixpoint find_entry (p : RegType -> bool) (i : nat) (l : list RegType) : option nat :=
  match l with
  | [] => None
  | t :: l => if p t then Some i else find_entry p (S i) l
  end.
Definition lookup_entry (c : RegTypeCache) (p : RegType -> bool) : option nat :=
  find_entry p primitive_count_ (drop primitive_count_ (entries_ c)).

Definition AddEntry (c : RegTypeCache) (t : RegType) : nat * RegTypeCache :=
  let i := length (entries_ c) in
  (i, mkCache (entries_ c ++ [t])
        (match klass_ t with Some k => klass_entries_ c ++ [(k, i)] | None => klass_entries_ c end)).
Definition find_or_add (c : RegTypeCache) (p : RegType -> bool) (t : RegType) : nat * RegTypeCache :=
  match lookup_entry c p with Some i => (i, c) | None => AddEntry c t end.

(** ** Constants *)
Definition FromCat1NonSmallConstant (c : RegTypeCache) (value : Z) (precise : bool) : nat * RegTypeCache :=
  find_or_add c
    (fun t => negb (HasClass t) && IsConstant t && eqb (IsPreciseConstant t) precise && (ConstantValue t =? value))
    (if precise then PreciseConstType value else ImpreciseConstType value).
Definition FromCat1Const (c : RegTypeCache) (value : Z) (precise : bool) : nat * RegTypeCache :=
  if precise && (kMinSmallConstant <=? value) && (value <=? kMaxSmallConstant)
  then (small_precise_constant value, c)
  else FromCat1NonSmallConstant c value precise.
Definition FromCat2ConstLo (c : RegTypeCache) (value : Z) (precise : bool) : nat * RegTypeCache :=
  find_or_add c (fun t => IsConstantLo t && eqb (IsPrecise t) precise && (ConstantValue t =? value))
    (if precise then PreciseConstLoType value else ImpreciseConstLoType value).
Definition FromCat2ConstHi (c : RegTypeCache) (value : Z) (precise : bool) : nat * RegTypeCache :=
  find_or_add c (fun t => IsConstantHi t && eqb (IsPrecise t) precise && (ConstantValue t =? value))
    (if precise then PreciseConstHiType value else ImpreciseConstHiType value).
Definition Zero : nat := small_precise_constant 0.
Definition One : nat := small_precise_constant 1.
Definition ByteConstant (c : RegTypeCache) := FromCat1Const c (-128) false.
Definition CharConstant (c : RegTypeCache) := FromCat1Const c 65535 false.
Definition ShortConstant (c : RegTypeCache) := FromCat1Const c (-32768) false.
Definition IntConstant (c : RegTypeCache) := FromCat1Const c INT32_MAX false.
Definition PosByteConstant (c : RegTypeCache) := FromCat1Const c 127 false.
Definition PosShortConstant (c : RegTypeCache) := FromCat1Const c 32767 false.

Section Classes.
Context (H : hierarchy).
(** [RegTypeCache::ResolveClass], [IsValidDescriptor] and [IsErroneous]. *)
Context (ResolveClass : string -> option Class) (IsValidDescriptor : string -> bool) (IsErroneous : Class -> bool).
#[local] Abbreviation IsAssignableFrom := (ClassHierarchy.IsAssignableFrom H).

(** [Class::GetDescriptor]. *)
Fixpoint GetDescriptor (k : Class) : string :=
  match k with
  | PrimClass p =>
      match p with
      | kPrimBoolean => "Z" | kPrimByte => "B" | kPrimChar => "C" | kPrimShort => "S" | kPrimInt => "I"
      | kPrimLong => "J" | kPrimFloat => "F" | kPrimDouble => "D" | kPrimVoid => "V" | kPrimNot => ""
      end
  | Array k => "[" +:+ GetDescriptor k
  | Named k => match classes H !! k with Some info => descriptor_of info | None => "" end
  end%string.

(** ** Entries for classes *)
Definition MatchingPrecisionForClass (entry : RegType) (precise : bool) : bool :=
  if eqb (IsPreciseReference entry) precise then true
  else negb precise && match klass_ entry with Some k => CannotBeAssignedFromOtherTypes H k | None => false end.

Definition RegTypeFromPrimitiveType (prim_type : Primitive) : nat :=
  match prim_type with
  | kPrimBoolean => Boolean | kPrimByte => Byte | kPrimShort => Short | kPrimChar => Char
  | kPrimInt => Integer | kPrimLong => LongLo | kPrimFloat => Float | kPrimDouble => DoubleLo
  | kPrimVoid | kPrimNot => Conflict
  end.
Fixpoint find_class (c : RegTypeCache) (klass : Class) (precise : bool) (l : list (Class * nat)) : option nat :=
  match l with
  | [] => None
  | (reg_klass, i) :: l =>
      if bool_decide (reg_klass = klass) && MatchingPrecisionForClass (GetFromId c i) precise then Some i
      else find_class c klass precise l
  end.
Definition FindClass (c : RegTypeCache) (klass : Class) (precise : bool) : option nat :=
  if IsPrimitive klass then Some (RegTypeFromPrimitiveType (GetPrimitiveType klass))
  else find_class c klass precise (klass_entries_ c).
Definition InsertClass (c : RegTypeCache) (descriptor : string) (klass : Class) (precise : bool) : nat * RegTypeCache :=
  AddEntry c (if precise then PreciseReferenceType klass descriptor else ReferenceType klass descriptor).
Definition FromClass (c : RegTypeCache) (descriptor : string) (klass : Class) (precise : bool) : nat * RegTypeCache :=
  match FindClass c klass precise with
  | Some i => (i, c)
  | None => InsertClass c descriptor klass precise
  end.
Definition JavaLangObject (c : RegTypeCache) (precise : bool) : nat * RegTypeCache :=
  FromClass c "Ljava/lang/Object;" (Named (java_lang_Object H)) precise.

Definition MatchDescriptor (entry : RegType) (descriptor : string) (precise : bool) : bool :=
  if negb (bool_decide (descriptor = descriptor_ entry)) then false
  else if HasClass entry then MatchingPrecisionForClass entry precise
  else true.
Definition From (c : RegTypeCache) (descriptor : string) (precise : bool) : nat * RegTypeCache :=
  match lookup_entry c (fun entry => MatchDescriptor entry descriptor precise) with
  | Some i => (i, c)
  | None =>
      match ResolveClass descriptor with
      | Some klass =>
          AddEntry c (if CannotBeAssignedFromOtherTypes H klass || precise
                      then PreciseReferenceType klass descriptor else ReferenceType klass descriptor)
      | None => if IsValidDescriptor descriptor then AddEntry c (UnresolvedReferenceType descriptor) else (Conflict, c)
      end
  end.
Definition FromDescriptor (c : RegTypeCache) (descriptor : string) (precise : bool) : nat * RegTypeCache :=
  match descriptor with
  | String ch EmptyString =>
      (if Ascii.eqb ch "Z" then Boolean else if Ascii.eqb ch "B" then Byte
       else if Ascii.eqb ch "S" then Short else if Ascii.eqb ch "C" then Char
       else if Ascii.eqb ch "I" then Integer else if Ascii.eqb ch "J" then LongLo
       else if Ascii.eqb ch "F" then Float else if Ascii.eqb ch "D" then DoubleLo
       else Conflict, c)
  | String ch _ => if Ascii.eqb ch "L" || Ascii.eqb ch "[" then From c descriptor precise else (Conflict, c)
  | EmptyString => (Conflict, c)
  end%char.

(** ** Uninitialized types *)
Definition Uninitialized (c : RegTypeCache) (type : nat) (allocation_pc : Z) : nat * RegTypeCache :=
  let t := GetFromId c type in
  let descriptor := descriptor_ t in
  if IsUnresolvedTypes t then
    find_or_add c
      (fun e => IsUnresolvedAndUninitializedReference e && (GetAllocationPc e =? allocation_pc)
                && bool_decide (descriptor_ e = descriptor))
      (UnresolvedUninitializedRefType descriptor allocation_pc)
  else
    match klass_ t with
    | Some klass =>
        find_or_add c
          (fun e => IsUninitializedReference e && (GetAllocationPc e =? allocation_pc) && has_class e klass)
          (UninitializedReferenceType klass descriptor allocation_pc)
    | None => (Conflict, c)                            (* [GetClass] of a type without a class *)
    end.
Definition UninitializedThisArgument (c : RegTypeCache) (type : nat) : nat * RegTypeCache :=
  let t := GetFromId c type in
  let descriptor := descriptor_ t in
  if IsUnresolvedTypes t then
    find_or_add c (fun e => IsUnresolvedAndUninitializedThisReference e && bool_decide (descriptor_ e = descriptor))
      (UnresolvedUninitializedThisRefType descriptor)
  else
    match klass_ t with
    | Some klass =>
        find_or_add c (fun e => IsUninitializedThisReference e && has_class e klass)
          (UninitializedThisReferenceType klass descriptor)
    | None => (Conflict, c)
    end.
Definition FromUninitialized (c : RegTypeCache) (uninit_type : nat) : nat * RegTypeCache :=
  let t := GetFromId c uninit_type in
  let descriptor := descriptor_ t in
  if IsUnresolvedTypes t then
    find_or_add c (fun e => IsUnresolvedReference e && bool_decide (descriptor_ e = descriptor))
      (UnresolvedReferenceType descriptor)
  else
    match klass_ t with
    | Some klass =>
        if IsUninitializedThisReference t && negb (IsFinal H klass)
        then find_or_add c (fun e => IsReference e && has_class e klass) (ReferenceType klass "")
        else if negb (IsPrimitive klass)
        then find_or_add c (fun e => IsPreciseReference e && has_class e klass) (PreciseReferenceType klass descriptor)
        else (Conflict, c)
    | None => (Conflict, c)
    end.
Definition FromUnresolvedSuperClass (c : RegTypeCache) (child : nat) : nat * RegTypeCache :=
  find_or_add c
    (fun e => match e with UnresolvedSuperClass id => u16 id =? GetId child | _ => false end)
    (UnresolvedSuperClass (GetId child)).

(** ** Reference types *)
Definition IsJavaLangObject (t : RegType) : bool :=
  match t with ReferenceType k _ => IsObjectClass H k | _ => false end.
Definition IsJavaLangObjectArray (t : RegType) : bool :=
  match klass_ t with
  | Some type => match GetComponentType type with Some k => IsObjectClass H k | None => false end
  | None => false
  end.

(** [RegType::IsArrayTypes] and [IsObjectArrayTypes], and their overrides for merged types. *)
Definition is_array_types (t : RegType) : bool :=
  if IsUnresolvedTypes t then
    if IsUnresolvedSuperClass t then false else starts_with_bracket (descriptor_ t)
  else match klass_ t with Some k => IsArrayClass k | None => false end.
Definition is_object_array_types (t : RegType) : bool :=
  if IsUnresolvedTypes t then
    if IsUnresolvedSuperClass t then false else starts_with_bracket (descriptor_ t)
  else
    match klass_ t with
    | Some type => match GetComponentType type with Some k => negb (IsPrimitive k) | None => false end
    | None => false
    end.
Definition merged_is_array_types (c : RegTypeCache) (resolved_part_ : nat) (unresolved_types_ : Z) : bool :=
  let resolved := GetFromId c resolved_part_ in
  if negb (IsZero resolved) && negb (is_array_types resolved) then false
  else is_array_types (GetFromId c (Z.to_nat (Z.log2 unresolved_types_))).
Definition IsArrayTypes (c : RegTypeCache) (t : RegType) : bool :=
  match t with
  | UnresolvedMergedType r u => merged_is_array_types c r u
  | _ => is_array_types t
  end.
Definition IsObjectArrayTypes (c : RegTypeCache) (t : RegType) : bool :=
  match t with
  | UnresolvedMergedType r u => merged_is_array_types c r u
  | _ => is_object_array_types t
  end.

(** [None] where the code fails a [CHECK] or reads the class of a type without one. *)
Definition AssignableFrom (c : RegTypeCache) (lhs rhs : nat) (strict : bool) : option bool :=
  let l := GetFromId c lhs in
  let r := GetFromId c rhs in
  if Equals lhs rhs then Some true
  else if IsBoolean l then Some (IsBooleanTypes r)
  else if IsByte l then Some (IsByteTypes r)
  else if IsShort l then Some (IsShortTypes r)
  else if IsChar l then Some (IsCharTypes r)
  else if IsInteger l then Some (IsIntegralTypes r)
  else if IsFloat l then Some (IsFloatTypes r)
  else if IsLongLo l then Some (IsLongTypes r)
  else if IsDoubleLo l then Some (IsDoubleTypes r)
  else if IsConflict l then Some false
  else if negb (IsReferenceTypes l) then None
  else if IsZero r then Some true
  else if negb (IsReferenceTypes r) then Some false
  else if IsUninitializedTypes l || IsUninitializedTypes r then Some false
  else if IsJavaLangObject l then Some true
  else
    let class_rules :=
      if IsJavaLangObjectArray l then IsObjectArrayTypes c r
      else match klass_ l, klass_ r with Some kl, Some kr => IsAssignableFrom kl kr | _, _ => false end in
    if negb strict && negb (IsUnresolvedTypes l) then
      match klass_ l with
      | Some k => if IsInterface H k then Some true else Some class_rules
      | None => None
      end
    else Some class_rules.

(** ** Merging *)
Definition SelectNonConstant (c : RegTypeCache) (a b : nat) : nat :=
  if IsConstantTypes (GetFromId c a) then b else a.

(** Two 32-bit constants. *)
Definition merge_constants (c : RegTypeCache) (this incoming : nat) : nat * RegTypeCache :=
  let type1 := GetFromId c this in
  let type2 := GetFromId c incoming in
  let val1 := ConstantValue type1 in
  let val2 := ConstantValue type2 in
  let first := if negb (IsPreciseConstant type1) then (this, c) else FromCat1Const c val1 false in
  let second := if negb (IsPreciseConstant type2) then (incoming, c) else FromCat1Const c val2 false in
  if (0 <=? val1) && (0 <=? val2) then if val2 <=? val1 then first else second
  else if (val1 <? 0) && (val2 <? 0) then if val1 <=? val2 then first else second
  else if IsConstantByte type1 then
    if IsConstantByte type2 then ByteConstant c
    else if IsConstantShort type2 then ShortConstant c else IntConstant c
  else if IsConstantShort type1 then
    if IsConstantShort type2 then ShortConstant c else IntConstant c
  else IntConstant c.

(** The unresolved part, the resolved part and whether the unresolved part is an array. *)
Definition merge_parts (c : RegTypeCache) (i : nat) : Z * nat * bool :=
  match GetFromId c i with
  | UnresolvedMergedType r u => (u, r, IsArrayTypes c (GetFromId c i))
  | t => if IsUnresolvedTypes t then (2 ^ GetId i, Zero, IsArrayTypes c t) else (0, i, false)
  end.

(** [RegTypeCache::FromUnresolvedMerge], over [SafeMerge]. *)
Definition FromUnresolvedMerge (SafeMerge : RegTypeCache -> nat -> nat -> option (nat * RegTypeCache))
  (c : RegTypeCache) (left right : nat) : option (nat * RegTypeCache) :=
  let '(left_types, left_resolved, left_unresolved_is_array) := merge_parts c left in
  let '(right_types, right_resolved, right_unresolved_is_array) := merge_parts c right in
  let types := Z.lor left_types right_types in
  match SafeMerge c left_resolved right_resolved with
  | None => None
  | Some (resolved_parts_merged, c) =>
      let t := GetFromId c resolved_parts_merged in
      let resolved_merged_is_array := IsArrayTypes c t in
      let add :=
        Some (find_or_add c
                (fun e => match e with
                          | UnresolvedMergedType r u => (r =? resolved_parts_merged)%nat && (u =? types)
                          | _ => false
                          end)
                (UnresolvedMergedType resolved_parts_merged types)) in
      if IsConflict t then Some (Conflict, c)
      else if left_unresolved_is_array || right_unresolved_is_array || resolved_merged_is_array then
        if resolved_merged_is_array && negb (IsObjectArrayTypes c t) then Some (JavaLangObject c false)
        else if (negb left_unresolved_is_array && negb (left_resolved =? left)%nat)
                || (negb right_unresolved_is_array && negb (right_resolved =? right)%nat)
                || negb resolved_merged_is_array
        then Some (JavaLangObject c false)
        else add
      else add
  end.

(** Two reference types with classes. *)
Definition merge_classes (c : RegTypeCache) (this incoming : nat) (c1 c2 : Class) : nat * RegTypeCache :=
  let join_class := ClassJoin H c1 c2 in
  if bool_decide (c1 = join_class) && negb (IsPreciseReference (GetFromId c this)) then (this, c)
  else if bool_decide (c2 = join_class) && negb (IsPreciseReference (GetFromId c incoming)) then (incoming, c)
  else FromClass c (GetDescriptor join_class) join_class false.

(** The resolved parts of unresolved merges are not unresolved themselves, so one level of
    recursion is enough; [None] stands for more, and for a class that is missing. *)
Fixpoint Merge (n : nat) (c : RegTypeCache) (this incoming : nat) : option (nat * RegTypeCache) :=
  match n with
  | O => None
  | S n =>
      let a := GetFromId c this in
      let b := GetFromId c incoming in
      if (this =? Undefined)%nat || (incoming =? Undefined)%nat then Some (Undefined, c)
      else if (this =? Conflict)%nat || (incoming =? Conflict)%nat then Some (Conflict, c)
      else if IsConstant a && IsConstant b then Some (merge_constants c this incoming)
      else if IsConstantLo a && IsConstantLo b then
        Some (FromCat2ConstLo c (s32 (Z.lor (ConstantValue a) (ConstantValue b))) false)
      else if IsConstantHi a && IsConstantHi b then
        Some (FromCat2ConstHi c (s32 (Z.lor (ConstantValue a) (ConstantValue b))) false)
      else if IsIntegralTypes a && IsIntegralTypes b then
        Some (if IsBooleanTypes a && IsBooleanTypes b then Boolean
              else if IsByteTypes a && IsByteTypes b then Byte
              else if IsShortTypes a && IsShortTypes b then Short
              else if IsCharTypes a && IsCharTypes b then Char
              else Integer, c)
      else if (IsFloatTypes a && IsFloatTypes b) || (IsLongTypes a && IsLongTypes b)
              || (IsLongHighTypes a && IsLongHighTypes b) || (IsDoubleTypes a && IsDoubleTypes b)
              || (IsDoubleHighTypes a && IsDoubleHighTypes b)
      then Some (SelectNonConstant c this incoming, c)
      else if IsReferenceTypes a && IsReferenceTypes b then
        if IsUninitializedTypes a || IsUninitializedTypes b then Some (Conflict, c)
        else if IsZero a || IsZero b then Some (SelectNonConstant c this incoming, c)
        else if IsJavaLangObject a || IsJavaLangObject b then Some (JavaLangObject c false)
        else if IsUnresolvedTypes a || IsUnresolvedTypes b then
          FromUnresolvedMerge
            (fun c l r => if Equals l r then Some (l, c) else Merge n c l r) c this incoming
        else
          match klass_ a, klass_ b with
          | Some c1, Some c2 => Some (merge_classes c this incoming c1 c2)
          | _, _ => None
          end
      else Some (Conflict, c)
  end.
Definition SafeMerge (c : RegTypeCache) (this incoming : nat) : option (nat * RegTypeCache) :=
  if Equals this incoming then Some (this, c) else Merge 2 c this incoming.

(** ** Other operations *)
Definition HighHalf (c : RegTypeCache) (t : RegType) : nat * RegTypeCache :=
  if IsLongLo t then (LongHi, c)
  else if IsDoubleLo t then (DoubleHi, c)
  else FromCat2ConstHi c (ConstantValue t) false.
Definition GetSuperClass (c : RegTypeCache) (i : nat) : option (nat * RegTypeCache) :=
  let t := GetFromId c i in
  if negb (IsUnresolvedTypes t) then
    match klass_ t with
    | Some klass =>
        match ClassHierarchy.GetSuperClass H klass with
        | Some super_klass => Some (FromClass c (GetDescriptor super_klass) super_klass false)
        | None => Some (Zero, c)
        end
    | None => None
    end
  else if negb (IsUnresolvedMergedReference t) && negb (IsUnresolvedSuperClass t)
          && starts_with_bracket (descriptor_ t)
  then Some (JavaLangObject c true)
  else Some (FromUnresolvedSuperClass c i).
Definition tail_of (d : string) : string := match d with String _ d => d | EmptyString => EmptyString end.
Definition GetComponentTypeOf (c : RegTypeCache) (array : nat) : nat * RegTypeCache :=
  let t := GetFromId c array in
  if negb (IsArrayTypes c t) then (Conflict, c)
  else if IsUnresolvedTypes t then FromDescriptor c (tail_of (descriptor_ t)) false
  else
    match klass_ t with
    | Some k =>
        match GetComponentType k with
        | Some klass =>
            if IsErroneous klass then FromDescriptor c (GetDescriptor klass) false
            else FromClass c (GetDescriptor klass) klass (CannotBeAssignedFromOtherTypes H klass)
        | None => (Conflict, c)
        end
    | None => (Conflict, c)
    end.
End Classes.
