(* ===== verification/RegTypeProofs.v ===== *)
(** * The register types as a lattice

    The invariant of the cache, what the values of a register of each type are, and that
    [Merge] loses none of them and [IsAssignableFrom] adds none. *)

From stdpp Require Import strings.
From S2P Require Import Prelude InterpreterBase ClassHierarchy RegTypes.

Section Cache.
Context (H : hierarchy) (Hok : hier_ok H).
#[local] Abbreviation Object := (Named (java_lang_Object H)).

(** ** The invariant *)

(** A type that [FromClass] may return for class [k] when it need not be precise. *)
Definition plain_ref (k : Class) (t : RegType) : Prop :=
  klass_ t = Some k
  /\ (IsReference t = true \/ IsPreciseReference t = true /\ CannotBeAssignedFromOtherTypes H k = true).

(** Entries after the primitive ones. *)
Definition entry_ok (c : RegTypeCache) (i : nat) (t : RegType) : Prop :=
  match t with
  | PreciseConstType v => in_s 32 v /\ ~ (kMinSmallConstant <= v <= kMaxSmallConstant)
  | PreciseConstLoType v | ImpreciseConstLoType v | PreciseConstHiType v
  | ImpreciseConstHiType v | ImpreciseConstType v => in_s 32 v
  | UninitializedReferenceType k _ _ | UninitializedThisReferenceType k _
  | ReferenceType k _ | PreciseReferenceType k _ => loaded H k /\ IsPrimitive k = false
  | UnresolvedUninitializedRefType _ _ | UnresolvedUninitializedThisRefType _
  | UnresolvedReferenceType _ | UnresolvedSuperClass _ => True
  | UnresolvedMergedType r _ =>
      (r < i)%nat /\ IsReferenceTypes (GetFromId c r) = true /\ IsUnresolvedTypes (GetFromId c r) = false
      /\ IsUninitializedTypes (GetFromId c r) = false
  | _ => False
  end.

(** Every entry with a class is registered for it. *)
Definition registered (c : RegTypeCache) : Prop :=
  forall i t k, entries_ c !! i = Some t -> (primitive_count_ <= i)%nat -> klass_ t = Some k ->
  exists m, klass_entries_ c !! m = Some (k, i).

Record cache_ok (c : RegTypeCache) : Prop := {
  k_prefix : take primitive_count_ (entries_ c) = FillPrimitiveAndSmallConstantTypes;
  k_entries : forall i t, entries_ c !! i = Some t -> (primitive_count_ <= i)%nat -> entry_ok c i t;
  k_classes : forall k i, (k, i) ∈ klass_entries_ c ->
    (primitive_count_ <= i < length (entries_ c))%nat /\ klass_ (GetFromId c i) = Some k;
  k_uninit : forall n k i, klass_entries_ c !! n = Some (k, i) -> IsUninitializedTypes (GetFromId c i) = true ->
    exists m j, (m < n)%nat /\ klass_entries_ c !! m = Some (k, j) /\ plain_ref k (GetFromId c j);
  k_reg : registered c
}.

Definition valid (c : RegTypeCache) (i : nat) : Prop := (i < length (entries_ c))%nat.
Definition extends (c c' : RegTypeCache) : Prop :=
  exists l kl, entries_ c' = entries_ c ++ l /\ klass_entries_ c' = klass_entries_ c ++ kl.

Lemma extends_refl c : extends c c.
Proof. exists [], []. by rewrite !app_nil_r. Qed.
Lemma extends_trans a b c : extends a b -> extends b c -> extends a c.
Proof.
  intros (l & kl & E & Ek) (l' & kl' & E' & Ek'). exists (l ++ l'), (kl ++ kl').
  by rewrite E', Ek', E, Ek, !app_assoc.
Qed.
Lemma get_extends c c' i : extends c c' -> valid c i -> GetFromId c' i = GetFromId c i.
Proof. intros (l & kl & E & _) Hi. unfold GetFromId. by rewrite E, lookup_app_l. Qed.
Lemma valid_extends c c' i : extends c c' -> valid c i -> valid c' i.
Proof. intros (l & kl & E & _). unfold valid. rewrite E, length_app. lia. Qed.

Lemma lookup_get c i t : entries_ c !! i = Some t -> GetFromId c i = t /\ valid c i.
Proof. intros E. unfold GetFromId. rewrite E. split; [done|]. by eapply lookup_lt_Some. Qed.
Lemma get_lookup c i : valid c i -> entries_ c !! i = Some (GetFromId c i).
Proof. intros Hi. apply lookup_lt_is_Some_2 in Hi as [t Ht]. unfold GetFromId. by rewrite Ht. Qed.

Lemma prefix_get c i t : cache_ok c -> FillPrimitiveAndSmallConstantTypes !! i = Some t -> GetFromId c i = t /\ valid c i.
Proof.
  intros Hc Ht. apply lookup_get. rewrite <- (k_prefix c Hc) in Ht. by apply lookup_take_Some in Ht as [? _].
Qed.
Lemma size_ok c : cache_ok c -> (primitive_count_ <= length (entries_ c))%nat.
Proof.
  intros Hc. pose proof (f_equal length (k_prefix c Hc)) as E. rewrite length_take in E.
  assert (length FillPrimitiveAndSmallConstantTypes = primitive_count_) as Ep by done. rewrite Ep in E. lia.
Qed.

(** As many entries as there are 16-bit identifiers. *)
Definition fits (c : RegTypeCache) : Prop := Z.of_nat (length (entries_ c)) <= 65536.
Lemma equals_spec c i j : fits c -> valid c i -> valid c j -> Equals i j = true <-> i = j.
Proof.
  unfold fits, valid, Equals, GetId, wrapu. intros Hl Hi Hj. change (2 ^ 16) with 65536. rewrite !Z.mod_small by lia.
  rewrite Z.eqb_eq. lia.
Qed.

(** ** Adding entries *)
Lemma find_entry_spec p n l i :
  find_entry p n l = Some i -> (n <= i)%nat /\ exists t, l !! (i - n)%nat = Some t /\ p t = true.
Proof.
  revert n. induction l as [|t l IH]; intros n E; [done|]. cbn in E. destruct (p t) eqn:Ep.
  - injection E as ->. split; [lia|]. rewrite Nat.sub_diag. eauto.
  - destruct (IH _ E) as (Hn & t' & Ht & Hp). split; [lia|]. exists t'.
    replace (i - n)%nat with (S (i - S n)) by lia. done.
Qed.
Lemma lookup_entry_spec c p i :
  lookup_entry c p = Some i -> (primitive_count_ <= i)%nat /\ valid c i /\ p (GetFromId c i) = true.
Proof.
  intros (Hn & t & Ht & Hp)%find_entry_spec. rewrite lookup_drop in Ht.
  replace (primitive_count_ + (i - primitive_count_))%nat with i in Ht by lia.
  destruct (lookup_get c i t Ht) as [-> Hv]. done.
Qed.

Lemma add_extends c t : extends c (snd (AddEntry c t)).
Proof. unfold AddEntry. cbn. destruct (klass_ t); [by exists [t], [(c0, length (entries_ c))]|exists [t], []; by rewrite app_nil_r]. Qed.
Lemma add_get c t : GetFromId (snd (AddEntry c t)) (length (entries_ c)) = t.
Proof. unfold GetFromId. cbn. by rewrite lookup_app_r, Nat.sub_diag. Qed.

Lemma entry_ok_extends c c' i t : extends c c' -> valid c i -> entry_ok c i t -> entry_ok c' i t.
Proof.
  intros He Hi. destruct t; cbn; try done. intros (Hr & ?). unfold valid in Hi.
  rewrite (get_extends c c' resolved_part_ He) by (unfold valid; lia). done.
Qed.

Lemma add_registered c t : registered c -> registered (snd (AddEntry c t)).
Proof.
  intros Hr i u k Hi Hp Hk. cbn in Hi. apply lookup_app_Some in Hi as [Hi|[Hge Hi]].
  - destruct (Hr i u k Hi Hp Hk) as [m Hm]. exists m. cbn. destruct (klass_ t); [|done].
    rewrite lookup_app_l; [done|by eapply lookup_lt_Some].
  - assert (i = length (entries_ c)) as -> by (destruct (i - length (entries_ c))%nat eqn:E; [lia|done]).
    rewrite Nat.sub_diag in Hi. injection Hi as ->. exists (length (klass_entries_ c)). cbn. rewrite Hk.
    by rewrite lookup_app_r, Nat.sub_diag.
Qed.

(** Before an uninitialized type, a type of its class is there. *)
Definition covered (c : RegTypeCache) (t : RegType) : Prop :=
  IsUninitializedTypes t = true -> forall k, klass_ t = Some k ->
  exists m j, klass_entries_ c !! m = Some (k, j) /\ plain_ref k (GetFromId c j).

Lemma klass_prefix c m k i :
  cache_ok c -> klass_entries_ c !! m = Some (k, i) -> valid c i.
Proof. intros Hc Hm. apply list_elem_of_lookup_2, (k_classes c Hc) in Hm. apply Hm. Qed.

Lemma add_ok c t : cache_ok c -> entry_ok c (length (entries_ c)) t -> covered c t -> cache_ok (snd (AddEntry c t)).
Proof.
  intros Hc Ht Hcov. pose proof (size_ok c Hc) as Hsz. pose proof (add_extends c t) as He.
  set (c' := snd (AddEntry c t)) in *.
  assert (entries_ c' = entries_ c ++ [t]) as Een by done.
  assert (GetFromId c' (length (entries_ c)) = t) as Eget by apply add_get.
  assert (klass_entries_ c' = klass_entries_ c ++ match klass_ t with Some k => [(k, length (entries_ c))] | None => [] end) as Ekl
    by (unfold c', AddEntry; cbn; destruct (klass_ t); [done|by rewrite app_nil_r]).
  assert (forall m k i, klass_entries_ c' !! m = Some (k, i) ->
          klass_entries_ c !! m = Some (k, i) \/ (length (klass_entries_ c) <= m)%nat /\ klass_ t = Some k /\ i = length (entries_ c)) as Hcases.
  { intros m k i. rewrite Ekl, lookup_app_Some. intros [|[Hm Hl]]; [by left|]. right. split; [done|].
    destruct (klass_ t); [|done]. destruct (m - length (klass_entries_ c))%nat; [|done]. by injection Hl as -> <-. }
  split.
  - rewrite Een, take_app_le by done. apply Hc.
  - intros i u. rewrite Een. intros [Hi|[Hi Hu]]%lookup_app_Some Hp.
    + apply (entry_ok_extends c c'); [done|by eapply lookup_get|]. by apply (k_entries c Hc).
    + assert (i = length (entries_ c)) as -> by (destruct (i - length (entries_ c))%nat eqn:E; [lia|done]).
      rewrite Nat.sub_diag in Hu. injection Hu as <-.
      destruct t; cbn in *; try done. destruct Ht as (Hr & ?). by rewrite (get_extends c c' _ He).
  - intros k i (m & Hm)%list_elem_of_lookup. destruct (Hcases m k i Hm) as [Ho|(_ & Hk & ->)].
    + destruct (k_classes c Hc k i) as [? Hg]; [by eapply list_elem_of_lookup_2|].
      rewrite (get_extends c c' i He) by (by apply (klass_prefix c m k)). rewrite Een, length_app. change (length [t]) with 1%nat. split; [lia|done].
    + rewrite Een, length_app. change (length [t]) with 1%nat. split; [lia|]. by rewrite Eget.
  - intros n k i Hn Hu. destruct (Hcases n k i Hn) as [Ho|(Hge & Hk & ->)].
    + rewrite (get_extends c c' i He) in Hu by (by apply (klass_prefix c n k)).
      destruct (k_uninit c Hc n k i Ho Hu) as (m & j & Hm & Hj & Hr). exists m, j. split; [done|].
      rewrite Ekl, lookup_app_l by (by eapply lookup_lt_Some). split; [done|].
      by rewrite (get_extends c c' j He) by (by apply (klass_prefix c m k)).
    + rewrite Eget in Hu. destruct (Hcov Hu k Hk) as (m & j & Hj & Hr). exists m, j.
      pose proof (lookup_lt_Some _ _ _ Hj). split; [lia|]. rewrite Ekl, lookup_app_l by done. split; [done|].
      by rewrite (get_extends c c' j He) by (by apply (klass_prefix c m k)).
  - apply add_registered, Hc.
Qed.

(** What an operation that returns a type promises. *)
Definition returns (c : RegTypeCache) (r : nat * RegTypeCache) (P : RegType -> Prop) : Prop :=
  cache_ok (snd r) /\ extends c (snd r) /\ valid (snd r) (fst r) /\ P (GetFromId (snd r) (fst r)).

Lemma returns_same c i (P : RegType -> Prop) : cache_ok c -> valid c i -> P (GetFromId c i) -> returns c (i, c) P.
Proof. intros. split; [done|]. split; [apply extends_refl|done]. Qed.
Lemma returns_prefix c i t (P : RegType -> Prop) :
  cache_ok c -> FillPrimitiveAndSmallConstantTypes !! i = Some t -> P t -> returns c (i, c) P.
Proof. intros Hc Ht HP. destruct (prefix_get c i t Hc Ht) as [E Hv]. apply returns_same; [done|done|by rewrite E]. Qed.
Lemma returns_add c t (P : RegType -> Prop) :
  cache_ok c -> entry_ok c (length (entries_ c)) t -> covered c t -> P t -> returns c (AddEntry c t) P.
Proof.
  intros Hc Ht Hcov HP. split; [by apply add_ok|]. split; [apply add_extends|].
  split; [unfold valid; cbn; rewrite length_app; cbn; lia|]. by rewrite add_get.
Qed.
Lemma returns_find c p t (P : RegType -> Prop) :
  cache_ok c -> entry_ok c (length (entries_ c)) t -> covered c t -> P t ->
  (forall i e, (primitive_count_ <= i)%nat -> entry_ok c i e -> p e = true -> P e) -> returns c (find_or_add c p t) P.
Proof.
  intros Hc Ht Hcov HP Hp. unfold find_or_add. destruct (lookup_entry c p) as [i|] eqn:E; [|by apply returns_add].
  apply lookup_entry_spec in E as (Hi & Hv & Ep). apply returns_same; [done|done|].
  apply (Hp i); [done| |done]. apply (k_entries c Hc); [by apply get_lookup|done].
Qed.
Lemma returns_mono c r (P Q : RegType -> Prop) : returns c r P -> (forall t, P t -> Q t) -> returns c r Q.
Proof. intros (? & ? & ? & ?) HPQ. split_and!; auto. Qed.

(** ** Constants *)
Lemma FromCat1Const_spec c v precise :
  cache_ok c -> in_s 32 v ->
  returns c (FromCat1Const c v precise) (fun t => t = if precise then PreciseConstType v else ImpreciseConstType v).
Proof.
  intros Hc Hv. unfold FromCat1Const. destruct (precise && _ && _) eqn:E.
  - rewrite !andb_true_iff, !Z.leb_le in E. destruct E as [[-> E1] E2]. unfold kMinSmallConstant, kMaxSmallConstant in *.
    eapply returns_prefix; [done| |done].
    assert (v = -1 \/ v = 0 \/ v = 1 \/ v = 2 \/ v = 3 \/ v = 4) as Hcases by lia. by destruct_or! Hcases; subst.
  - unfold FromCat1NonSmallConstant. apply returns_find; [done| |by destruct precise|done|].
    { destruct precise; [|done]. split; [done|]. cbn in E. rewrite andb_false_iff, !Z.leb_gt in E. lia. }
    intros i e _ _. rewrite !andb_true_iff, Z.eqb_eq. intros [[[_ Hcst] Hp] Hval].
    destruct e; try done; destruct precise; cbn in *; congruence.
Qed.
Lemma FromCat2ConstLo_spec c v :
  cache_ok c -> in_s 32 v -> returns c (FromCat2ConstLo c v false) (fun t => t = ImpreciseConstLoType v).
Proof.
  intros Hc Hv. apply returns_find; [done|done|done|done|].
  intros i e _ _. rewrite !andb_true_iff, Z.eqb_eq. intros [[Hcst Hp] Hval]. destruct e; try done. cbn in *. congruence.
Qed.
Lemma FromCat2ConstHi_spec c v :
  cache_ok c -> in_s 32 v -> returns c (FromCat2ConstHi c v false) (fun t => t = ImpreciseConstHiType v).
Proof.
  intros Hc Hv. apply returns_find; [done|done|done|done|].
  intros i e _ _. rewrite !andb_true_iff, Z.eqb_eq. intros [[Hcst Hp] Hval]. destruct e; try done. cbn in *. congruence.
Qed.

(** ** Classes *)
Lemma find_class_spec c k precise l i :
  find_class H c k precise l = Some i ->
  exists n, l !! n = Some (k, i) /\ MatchingPrecisionForClass H (GetFromId c i) precise = true
  /\ forall m j, (m < n)%nat -> l !! m = Some (k, j) -> MatchingPrecisionForClass H (GetFromId c j) precise = false.
Proof.
  induction l as [|[k' j] l IH]; [done|]. cbn. destruct (bool_decide (k' = k) && _) eqn:E.
  - intros [= ->]. apply andb_prop in E as [->%bool_decide_eq_true E]. exists 0%nat. split; [done|]. split; [done|]. lia.
  - intros (n & Hn & Hm & Hlt)%IH. exists (S n). split; [done|]. split; [done|]. intros [|m] j' Hm' Hj.
    + injection Hj as -> ->. by rewrite bool_decide_true in E.
    + apply (Hlt m j'); [lia|done].
Qed.

Lemma plain_matches k t : plain_ref k t -> MatchingPrecisionForClass H t false = true.
Proof.
  intros [Hk [Hr|[Hp Hf]]]; unfold MatchingPrecisionForClass; [by destruct t|]. rewrite Hk, Hf. by destruct (eqb _ _).
Qed.
Lemma matches_plain c i k :
  cache_ok c -> (primitive_count_ <= i)%nat -> valid c i -> klass_ (GetFromId c i) = Some k ->
  IsUninitializedTypes (GetFromId c i) = false -> MatchingPrecisionForClass H (GetFromId c i) false = true ->
  plain_ref k (GetFromId c i).
Proof.
  intros Hc Hi Hv Hk Hu Hm. pose proof (k_entries c Hc i _ (get_lookup c i Hv) Hi) as He.
  destruct (GetFromId c i); try done; cbn in *; split; try done; [by left|]. right. split; [done|]. congruence.
Qed.

Lemma FromClass_spec c d k :
  cache_ok c -> loaded H k -> IsPrimitive k = false -> returns c (FromClass H c d k false) (plain_ref k).
Proof.
  intros Hc Hk Hp. unfold FromClass, FindClass. rewrite Hp. destruct (find_class _ _ _ _ _) as [i|] eqn:E.
  - apply find_class_spec in E as (n & Hn & Hm & Hlt).
    destruct (k_classes c Hc k i) as [[Hi Hv] Hki]; [by eapply list_elem_of_lookup_2|].
    apply returns_same; [done|done|]. apply (matches_plain c); try done.
    apply not_true_is_false. intros Hu. destruct (k_uninit c Hc n k i Hn Hu) as (m & j & Hmn & Hj & Hr).
    apply plain_matches in Hr. by rewrite (Hlt m j) in Hr.
  - apply returns_add; try done. split; [done|]. by left.
Qed.
Lemma FromClass_precise_spec c d k :
  cache_ok c -> loaded H k -> IsPrimitive k = false ->
  returns c (FromClass H c d k true) (fun t => IsPreciseReference t = true /\ klass_ t = Some k).
Proof.
  intros Hc Hk Hp. unfold FromClass, FindClass. rewrite Hp. destruct (find_class _ _ _ _ _) as [i|] eqn:E.
  - apply find_class_spec in E as (n & Hn & Hm & Hlt).
    destruct (k_classes c Hc k i) as [[Hi Hv] Hki]; [by eapply list_elem_of_lookup_2|].
    apply returns_same; [done|done|]. split; [|done]. unfold MatchingPrecisionForClass in Hm.
    by destruct (IsPreciseReference _).
  - by apply returns_add.
Qed.
Lemma JavaLangObject_spec c : cache_ok c -> returns c (JavaLangObject H c false) (plain_ref Object).
Proof. intros Hc. apply FromClass_spec; [done|apply Hok|done]. Qed.

(** ** The values of a type *)

(** The classes of the objects of a heap. *)
Context (cls : Z -> option Class).
Definition heap_ok : Prop := forall v k, cls v = Some k -> v <> 0 /\ loaded H k /\ IsPrimitive k = false.

(** An imprecise constant stands for a range: up to it when it is positive, from it to its
    complement when it is negative; the largest one stands for every [int]. *)
Definition constant_range (k x : Z) : Prop :=
  if k =? INT32_MAX then True else if 0 <=? k then 0 <= x <= k else k <= x <= Z.lnot k.

(** References to interfaces are not checked before they are used, so a register with an interface
    type may hold any reference. *)
Definition instance_of (k o : Class) : Prop := IsInterface H k = true \/ IsAssignableFrom H k o = true.

Definition gamma (t : RegType) (v : Z) : Prop :=
  match t with
  | UndefinedType | ConflictType | IntegerType | FloatType
  | LongLoType | LongHiType | DoubleLoType | DoubleHiType
  | ImpreciseConstLoType _ | ImpreciseConstHiType _ => True
  | BooleanType => 0 <= s32 v <= 1
  | ByteType => -128 <= s32 v <= 127
  | ShortType => -32768 <= s32 v <= 32767
  | CharType => 0 <= s32 v <= 65535
  | PreciseConstType k | PreciseConstLoType k | PreciseConstHiType k => s32 v = k
  | ImpreciseConstType k => constant_range k (s32 v)
  | UninitializedReferenceType k _ _ => cls v = Some k
  | UninitializedThisReferenceType k _ => exists o, cls v = Some o /\ instance_of k o
  | UnresolvedUninitializedRefType _ _ | UnresolvedUninitializedThisRefType _ => is_Some (cls v)
  | ReferenceType k _ => v = 0 \/ exists o, cls v = Some o /\ instance_of k o
  | PreciseReferenceType k _ => v = 0 \/ cls v = Some k
  | UnresolvedReferenceType _ | UnresolvedSuperClass _ | UnresolvedMergedType _ _ => v = 0 \/ is_Some (cls v)
  end.

Context (Hheap : heap_ok).

(** ** Inclusions *)
Definition included (t u : RegType) : Prop := forall v, in_u 32 v -> gamma t v -> gamma u v.
Definition upper (t1 t2 u : RegType) : Prop := included t1 u /\ included t2 u.

Lemma included_refl t : included t t.
Proof. by intros v. Qed.
Lemma included_top t u : gamma u = (fun _ => True) -> included t u.
Proof. intros E v _ _. by rewrite E. Qed.

Lemma zero_value v : in_u 32 v -> s32 v = 0 -> v = 0.
Proof.
  unfold in_u, wraps. intros Hv E. change (2 ^ (32 - 1)) with 2147483648 in E. change (2 ^ 32) with 4294967296 in *.
  destruct (Z.lt_ge_cases v 2147483648).
  - rewrite Z.mod_small in E; lia.
  - replace (v + 2147483648) with (v - 2147483648 + 1 * 4294967296) in E by lia.
    rewrite Z.mod_add, Z.mod_small in E by lia. lia.
Qed.

(** Constants. *)
Lemma range_mono k1 k2 : in_s 32 k2 -> 0 <= k1 <= k2 \/ k2 <= k1 < 0 -> forall x, in_s 32 x -> constant_range k1 x -> constant_range k2 x.
Proof.
  unfold constant_range, in_s, Z.lnot. change (2 ^ (32 - 1)) with 2147483648. change INT32_MAX with 2147483647.
  intros Hk2 Hk x Hx. destruct (Z.eqb_spec k2 2147483647); [done|]. destruct (Z.eqb_spec k1 2147483647); [lia|].
  destruct (Z.leb_spec 0 k1), (Z.leb_spec 0 k2); lia.
Qed.
Lemma const_value t v : IsConstant t = true -> gamma t v -> constant_range (ConstantValue t) (s32 v).
Proof.
  destruct t; try done. cbn. intros _ <-. unfold constant_range, Z.lnot.
  destruct (_ =? _); [done|]. destruct (Z.leb_spec 0 (s32 v)); lia.
Qed.
Lemma s32_range v : in_s 32 (s32 v).
Proof. by apply wraps_range. Qed.

(** Every entry is one of the well-known types or satisfies the invariant of entries. *)
Lemma constant_in_range c i : cache_ok c -> valid c i -> IsConstantTypes (GetFromId c i) = true -> in_s 32 (ConstantValue (GetFromId c i)).
Proof.
  intros Hc Hv. destruct (decide (primitive_count_ <= i)%nat) as [Hi|Hi].
  - pose proof (k_entries c Hc i _ (get_lookup c i Hv) Hi) as He. destruct (GetFromId c i); try done. by destruct He.
  - intros _. assert (i < primitive_count_)%nat as Hlt by lia.
    destruct (lookup_lt_is_Some_2 FillPrimitiveAndSmallConstantTypes i Hlt) as [t Ht].
    destruct (prefix_get c i t Hc Ht) as [-> _]. unfold in_s. change (2 ^ (32 - 1)) with 2147483648.
    do 18 (destruct i as [|i]; [injection Ht as <-; cbn; lia|]). done.
Qed.

Lemma const_included t k :
  IsConstant t = true -> in_s 32 k -> 0 <= ConstantValue t <= k \/ k <= ConstantValue t < 0 ->
  included t (ImpreciseConstType k).
Proof.
  intros Hc Hk Hv v Hu Hg. apply const_value in Hg; [|done]. cbn. eapply range_mono; [done|exact Hv|apply s32_range|done].
Qed.
Lemma const_wide t lo :
  IsConstant t = true -> lo < 0 -> lo <= ConstantValue t <= Z.lnot lo -> ConstantValue t <> INT32_MAX ->
  included t (ImpreciseConstType lo).
Proof.
  intros Hc Hlo Hv Hm v Hu Hg. apply const_value in Hg; [|done]. cbn. revert Hg Hm. unfold constant_range, Z.lnot in *.
  change INT32_MAX with 2147483647. destruct (Z.eqb_spec lo 2147483647); [lia|]. destruct (Z.leb_spec 0 lo); [lia|].
  destruct (Z.eqb_spec (ConstantValue t) 2147483647); [lia|]. destruct (Z.leb_spec 0 (ConstantValue t)); lia.
Qed.
Lemma byte_wide t : IsConstantByte t = true -> included t (ImpreciseConstType (-128)).
Proof.
  unfold IsConstantByte, constant_in. rewrite !andb_true_iff, !Z.leb_le. intros [[Hc ?] ?].
  apply const_wide; [done|lia|unfold Z.lnot; lia|change INT32_MAX with 2147483647; lia].
Qed.
Lemma short_wide t : IsConstantShort t = true -> included t (ImpreciseConstType (-32768)).
Proof.
  unfold IsConstantShort, constant_in. rewrite !andb_true_iff, !Z.leb_le. intros [[Hc ?] ?].
  apply const_wide; [done|lia|unfold Z.lnot; lia|change INT32_MAX with 2147483647; lia].
Qed.
Lemma byte_short t : IsConstantByte t = true -> IsConstantShort t = true.
Proof. unfold IsConstantByte, IsConstantShort, constant_in. rewrite !andb_true_iff, !Z.leb_le. intuition lia. Qed.
Lemma int_wide t : included t (ImpreciseConstType INT32_MAX).
Proof. by apply included_top. Qed.

Lemma imprecise_spec c i :
  cache_ok c -> valid c i -> IsConstant (GetFromId c i) = true ->
  returns c (if negb (IsPreciseConstant (GetFromId c i)) then (i, c) else FromCat1Const c (ConstantValue (GetFromId c i)) false)
    (fun t => t = ImpreciseConstType (ConstantValue (GetFromId c i))).
Proof.
  intros Hc Hi Hcst. pose proof (constant_in_range c i Hc Hi) as Hr. unfold IsConstantTypes in Hr. rewrite Hcst in Hr.
  destruct (GetFromId c i) eqn:E; try done; cbn [negb IsPreciseConstant ConstantValue] in *.
  - apply FromCat1Const_spec; auto.
  - by apply returns_same.
Qed.

Lemma merge_constants_sound c a b :
  cache_ok c -> valid c a -> valid c b -> IsConstant (GetFromId c a) = true -> IsConstant (GetFromId c b) = true ->
  returns c (merge_constants c a b) (upper (GetFromId c a) (GetFromId c b)).
Proof.
  intros Hc Ha Hb Hca Hcb. unfold merge_constants.
  assert (in_s 32 (ConstantValue (GetFromId c a)) /\ in_s 32 (ConstantValue (GetFromId c b))) as [Ra Rb].
  { split; apply constant_in_range; try done; unfold IsConstantTypes; [by rewrite Hca|by rewrite Hcb]. }
  pose proof (imprecise_spec c a Hc Ha Hca) as Sa. pose proof (imprecise_spec c b Hc Hb Hcb) as Sb.
  set (ta := GetFromId c a) in *. set (tb := GetFromId c b) in *.
  assert (forall lo, in_s 32 lo -> included ta (ImpreciseConstType lo) -> included tb (ImpreciseConstType lo) ->
          returns c (FromCat1Const c lo false) (upper ta tb)) as Hwide.
  { intros lo Hlo H1 H2. eapply returns_mono; [by apply FromCat1Const_spec|]. intros t ->. by split. }
  assert (in_s 32 (-128) /\ in_s 32 (-32768) /\ in_s 32 INT32_MAX) as (R1 & R2 & R3) by (split_and!; by apply (bool_decide_unpack _); vm_compute).
  destruct ((0 <=? ConstantValue ta) && (0 <=? ConstantValue tb)) eqn:Epp;
    [|destruct ((ConstantValue ta <? 0) && (ConstantValue tb <? 0)) eqn:Enn].
  - rewrite andb_true_iff, !Z.leb_le in Epp.
    destruct (Z.leb_spec (ConstantValue tb) (ConstantValue ta)); (eapply returns_mono; [done|]; intros t ->; split; apply const_included; try done; lia).
  - rewrite andb_true_iff, !Z.ltb_lt in Enn.
    destruct (Z.leb_spec (ConstantValue ta) (ConstantValue tb)); (eapply returns_mono; [done|]; intros t ->; split; apply const_included; try done; lia).
  - unfold ByteConstant, ShortConstant, IntConstant. pose proof (int_wide ta). pose proof (int_wide tb).
    destruct (IsConstantByte ta) eqn:Eba; [destruct (IsConstantByte tb) eqn:Ebb; [|destruct (IsConstantShort tb) eqn:Esb]|
      destruct (IsConstantShort ta) eqn:Esa; [destruct (IsConstantShort tb) eqn:Esb|]];
      apply Hwide; auto using byte_wide, short_wide, byte_short.
Qed.

(** Integral types. *)
Lemma constant_bounds t lo hi v :
  constant_in t lo hi = true -> lo = 0 \/ lo = Z.lnot hi -> hi < INT32_MAX -> gamma t v -> lo <= s32 v <= hi.
Proof.
  unfold constant_in. rewrite !andb_true_iff, !Z.leb_le. intros [[Hc Hlo] Hhi] Hb Hm Hg. apply const_value in Hg; [|done].
  unfold constant_range, Z.lnot in *. destruct (Z.eqb_spec (ConstantValue t) INT32_MAX); [lia|].
  destruct (Z.leb_spec 0 (ConstantValue t)); lia.
Qed.
Ltac const_bounds :=
  match goal with
  | Hc : constant_in _ _ _ = true, Hg : gamma _ _ |- _ =>
      apply (constant_bounds _ _ _ _ Hc) in Hg; [lia|by (left; done) || by (right; done)|by vm_compute]
  end.
Lemma boolean_included t : IsBooleanTypes t = true -> included t BooleanType.
Proof. intros [Hb|Hb]%orb_prop v _ Hg; [by destruct t|]. cbn. unfold IsConstantBoolean in Hb. const_bounds. Qed.
Lemma byte_included t : IsByteTypes t = true -> included t ByteType.
Proof.
  intros [[Hb|Hb]%orb_prop|Hb]%orb_prop v _ Hg; [unfold IsConstantByte in Hb; cbn; const_bounds|by destruct t|].
  destruct t; try done. cbn in *. lia.
Qed.
Lemma short_included t : IsShortTypes t = true -> included t ShortType.
Proof.
  intros [[[Hb|Hb]%orb_prop|Hb]%orb_prop|Hb]%orb_prop v _ Hg;
    [by destruct t|destruct t; try done; cbn in *; lia|destruct t; try done; cbn in *; lia|].
  unfold IsConstantShort in Hb. cbn. const_bounds.
Qed.
Lemma char_included t : IsCharTypes t = true -> included t CharType.
Proof.
  intros [[Hb|Hb]%orb_prop|Hb]%orb_prop v Hv Hg; [by destruct t| |unfold IsConstantChar in Hb; cbn; const_bounds].
  apply (boolean_included t Hb v Hv) in Hg. cbn in *. lia.
Qed.

(** References. *)
Definition init_ref (t : RegType) : bool := IsReferenceTypes t && negb (IsUninitializedTypes t).
Lemma ref_value t v : init_ref t = true -> in_u 32 v -> gamma t v -> v = 0 \/ is_Some (cls v).
Proof.
  intros [Hr Hu]%andb_prop Hv Hg. destruct t; try done; cbn in *; try naive_solver.
  left. apply zero_value; [done|]. unfold IsReferenceTypes, IsZero in Hr. cbn in Hr. apply Z.eqb_eq in Hr. congruence.
Qed.
Lemma object_instance o v : cls v = Some o -> instance_of Object o.
Proof.
  intros Hc. destruct (Hheap v o Hc) as (_ & Hl & Hp). right.
  apply (IsAssignableFrom_spec H Hok); [apply Hok|done|]. by apply as_object.
Qed.
Lemma object_not_final : CannotBeAssignedFromOtherTypes H Object = false.
Proof. destruct (h_root _ Hok) as (_ & _ & _ & Hf). done. Qed.
Lemma object_upper t u : init_ref t = true -> plain_ref Object u -> included t u.
Proof.
  intros Ht [Hk Hu] v Hv Hg. apply ref_value in Hg; [|done|done].
  destruct Hu as [Hr|[_ Hf]]; [|by rewrite object_not_final in Hf]. destruct u; try done. cbn in *. injection Hk as ->.
  destruct Hg as [->|[o Ho]]; [by left|]. right. exists o. split; [done|]. by eapply object_instance.
Qed.

(** A type that has class [k] and has been initialized. *)
Definition class_ref (k : Class) (t : RegType) : Prop :=
  klass_ t = Some k /\ (IsReference t = true \/ IsPreciseReference t = true).

Lemma above_interface j k : loaded H k -> IsInterface H k = true -> assignable H j k -> IsInterface H j = true \/ j = Object.
Proof.
  intros Hk Hi Ha. inversion Ha; subst; auto; [by rewrite array_not_interface in Hi|congruence].
Qed.
Lemma class_value k t v :
  class_ref k t -> loaded H k -> gamma t v -> v = 0 \/ exists o, cls v = Some o /\ instance_of k o.
Proof.
  intros [Hk Ht] Hl Hg. destruct Ht; destruct t; try done; cbn in *; injection Hk as ->; [done|].
  destruct Hg as [->|Hc]; [by left|]. right. exists k. split; [done|]. right.
  apply (IsAssignableFrom_spec H Hok); [done|done|constructor].
Qed.
Lemma instance_up j k o :
  loaded H j -> loaded H k -> loaded H o -> IsPrimitive o = false -> assignable H j k -> instance_of k o -> instance_of j o.
Proof.
  intros Hj Hk Ho Hp Ha [Hi|Hko].
  - destruct (above_interface j k Hk Hi Ha) as [Hij | ->]; [by left|]. right.
    apply (IsAssignableFrom_spec H Hok); [done|done|]. by apply as_object.
  - right. apply (IsAssignableFrom_spec H Hok); [done|done|]. apply (IsAssignableFrom_spec H Hok) in Hko; [|done|done].
    by eapply (assignable_trans H Hok j k o).
Qed.
Lemma final_not_interface k : loaded H k -> CannotBeAssignedFromOtherTypes H k = true -> IsInterface H k = false.
Proof.
  intros Hk Hf. apply not_true_is_false. intros Hi. destruct (interface_named H k Hk Hi) as [n ->].
  destruct Hk as [info Hinfo]. destruct (c_iface _ _ _ (h_classes _ Hok n info Hinfo) Hi) as [_ Hnf]. cbn in Hf. congruence.
Qed.
Lemma class_included j k t u :
  loaded H j -> loaded H k -> class_ref k t -> plain_ref j u -> assignable H j k -> included t u.
Proof.
  intros Hj Hk Ht [Hu Hplain] Ha v Hv Hg. destruct (class_value k t v Ht Hk Hg) as [->|(o & Ho & Hin)].
  { destruct Hplain as [|[? _]]; destruct u; try done; by left. }
  destruct (Hheap v o Ho) as (_ & Hlo & Hpo). pose proof (instance_up j k o Hj Hk Hlo Hpo Ha Hin) as Hjo.
  destruct Hplain as [Hr|[Hr Hf]]; destruct u; try done; cbn in *; injection Hu as ->; right; [by exists o|].
  destruct Hjo as [Hi|Hjo]; [by rewrite final_not_interface in Hi|].
  apply (IsAssignableFrom_spec H Hok) in Hjo; [|done|done]. by rewrite (final_assignable H Hok j o Hj Hlo Hf Hjo) in Ho.
Qed.

Definition resolved_ref (t : RegType) : bool := init_ref t && negb (IsUnresolvedTypes t).
Lemma plain_resolved k t : plain_ref k t -> resolved_ref t = true.
Proof. intros [_ [?|[? _]]]; by destruct t. Qed.

Lemma class_ref_loaded c i k : cache_ok c -> valid c i -> class_ref k (GetFromId c i) -> loaded H k /\ IsPrimitive k = false.
Proof.
  intros Hc Hv [Hk Hr]. destruct (decide (primitive_count_ <= i)%nat) as [Hi|Hi].
  - pose proof (k_entries c Hc i _ (get_lookup c i Hv) Hi) as He.
    destruct Hr; destruct (GetFromId c i); try done; cbn in *; by injection Hk as ->.
  - destruct (lookup_lt_is_Some_2 FillPrimitiveAndSmallConstantTypes i) as [t Ht]; [unfold primitive_count_ in *; lia|].
    destruct (prefix_get c i t Hc Ht) as [E _]. rewrite E in Hr.
    do 18 (destruct i as [|i]; [injection Ht as <-; by destruct Hr|]). done.
Qed.

Lemma merge_classes_sound c a b ka kb :
  cache_ok c -> valid c a -> valid c b -> class_ref ka (GetFromId c a) -> class_ref kb (GetFromId c b) ->
  returns c (merge_classes H c a b ka kb)
    (fun t => upper (GetFromId c a) (GetFromId c b) t /\ resolved_ref t = true).
Proof.
  intros Hc Ha Hb Ra Rb. destruct (class_ref_loaded c a ka Hc Ha Ra) as [La Pa]. destruct (class_ref_loaded c b kb Hc Hb Rb) as [Lb Pb].
  destruct (ClassJoin_spec H Hok ka kb La Lb Pa Pb) as (Lj & Pj & Ja & Jb & _). unfold merge_classes.
  set (j := ClassJoin H ka kb) in *.
  assert (forall u, plain_ref j u -> upper (GetFromId c a) (GetFromId c b) u /\ resolved_ref u = true) as Hplain.
  { intros u Hu. split; [split; [by apply (class_included j ka)|by apply (class_included j kb)]|]. by eapply plain_resolved. }
  assert (forall i k, class_ref k (GetFromId c i) -> bool_decide (k = j) && negb (IsPreciseReference (GetFromId c i)) = true -> plain_ref j (GetFromId c i)) as Hself.
  { intros i k [Hk Hr] [E%bool_decide_eq_true Hn%negb_true_iff]%andb_prop. split; [congruence|]. left. by destruct Hr; [|congruence]. }
  destruct (bool_decide (ka = j) && _) eqn:E1; [apply returns_same; [done|done|]; by eapply Hplain, Hself|].
  destruct (bool_decide (kb = j) && _) eqn:E2; [apply returns_same; [done|done|]; by eapply Hplain, Hself|].
  eapply returns_mono; [by apply FromClass_spec|exact Hplain].
Qed.

(** ** The branch of [Merge] for references *)
Lemma get_undefined c : cache_ok c -> GetFromId c Undefined = UndefinedType.
Proof. intros Hc. by apply (prefix_get c 0). Qed.
Lemma get_conflict c : cache_ok c -> GetFromId c Conflict = ConflictType.
Proof. intros Hc. by apply (prefix_get c 1). Qed.
Lemma not_special c i : cache_ok c -> init_ref (GetFromId c i) = true -> (i =? Undefined)%nat = false /\ (i =? Conflict)%nat = false.
Proof.
  intros Hc Hr. split; apply Nat.eqb_neq; intros ->; [rewrite get_undefined in Hr|rewrite get_conflict in Hr]; done.
Qed.
Lemma zero_id c i : cache_ok c -> valid c i -> IsZero (GetFromId c i) = true -> i = Zero.
Proof.
  intros Hc Hv [Hp Hz%Z.eqb_eq]%andb_prop. destruct (decide (primitive_count_ <= i)%nat) as [Hi|Hi].
  - pose proof (k_entries c Hc i _ (get_lookup c i Hv) Hi) as He. destruct (GetFromId c i); try done.
    destruct He as [_ Hn]. cbn in Hz. unfold kMinSmallConstant, kMaxSmallConstant in Hn. lia.
  - destruct (lookup_lt_is_Some_2 FillPrimitiveAndSmallConstantTypes i) as [t Ht]; [unfold primitive_count_ in *; lia|].
    destruct (prefix_get c i t Hc Ht) as [E _]. rewrite E in Hp, Hz.
    do 18 (destruct i as [|i]; [injection Ht as <-; done|]). done.
Qed.

Definition merge_ref (n : nat) (c : RegTypeCache) (this incoming : nat) : option (nat * RegTypeCache) :=
  let a := GetFromId c this in
  let b := GetFromId c incoming in
  if IsZero a || IsZero b then Some (SelectNonConstant c this incoming, c)
  else if IsJavaLangObject H a || IsJavaLangObject H b then Some (JavaLangObject H c false)
  else if IsUnresolvedTypes a || IsUnresolvedTypes b then
    FromUnresolvedMerge H (fun c l r => if Equals l r then Some (l, c) else Merge H n c l r) c this incoming
  else
    match klass_ a, klass_ b with
    | Some c1, Some c2 => Some (merge_classes H c this incoming c1 c2)
    | _, _ => None
    end.
Lemma merge_ref_eq n c a b :
  cache_ok c -> init_ref (GetFromId c a) = true -> init_ref (GetFromId c b) = true ->
  IsZero (GetFromId c a) && IsZero (GetFromId c b) = false -> Merge H (S n) c a b = merge_ref n c a b.
Proof.
  intros Hc Ra Rb Hz. destruct (not_special c a Hc Ra) as [A1 A2]. destruct (not_special c b Hc Rb) as [B1 B2].
  unfold merge_ref. cbn [Merge]. rewrite A1, A2, B1, B2. cbn [orb].
  apply andb_prop in Ra as [Ra Ua%negb_true_iff], Rb as [Rb Ub%negb_true_iff]. rewrite Ra, Rb, Ua, Ub. cbn [orb andb].
  unfold IsReferenceTypes in Ra, Rb. destruct (IsZero (GetFromId c a)) eqn:Za.
  - cbn [andb] in Hz. rewrite Hz, orb_false_r in Rb. rewrite Hz. apply andb_prop in Za as [Pa _].
    destruct (GetFromId c a); try done. by destruct (GetFromId c b).
  - rewrite orb_false_r in Ra. by destruct (GetFromId c a).
Qed.

Lemma init_ref_cases t :
  init_ref t = true -> IsZero t = true \/ IsUnresolvedTypes t = true \/ exists k, class_ref k t.
Proof.
  intros Hr. destruct t; try done; auto; [|by right; right; exists klass; split; auto..].
  left. unfold init_ref, IsReferenceTypes in Hr. cbn in Hr. by rewrite andb_true_r in Hr.
Qed.
Lemma zero_included t u : IsZero t = true -> init_ref u = true -> included t u.
Proof.
  intros [Hp Hz%Z.eqb_eq]%andb_prop Hu v Hv Hg. destruct t; try done. cbn in *.
  assert (v = 0) as -> by (apply zero_value; congruence).
  destruct u; try done; cbn; auto. unfold init_ref, IsReferenceTypes in Hu. cbn in Hu. rewrite andb_true_r in Hu.
  unfold IsZero in Hu. cbn in Hu. by apply Z.eqb_eq in Hu as ->.
Qed.

Lemma select_sound c a b :
  init_ref (GetFromId c a) = true -> init_ref (GetFromId c b) = true ->
  IsZero (GetFromId c a) && IsZero (GetFromId c b) = false -> IsZero (GetFromId c a) || IsZero (GetFromId c b) = true ->
  (SelectNonConstant c a b = a \/ SelectNonConstant c a b = b)
  /\ upper (GetFromId c a) (GetFromId c b) (GetFromId c (SelectNonConstant c a b)).
Proof.
  intros Ia Ib Hz Ez. unfold SelectNonConstant. destruct (IsZero (GetFromId c a)) eqn:Za.
  - assert (IsConstantTypes (GetFromId c a) = true) as -> by (apply andb_prop in Za as [Pa _]; by destruct (GetFromId c a)).
    split; [by right|]. split; [by apply zero_included|apply included_refl].
  - assert (IsConstantTypes (GetFromId c a) = false) as ->.
    { destruct (init_ref_cases _ Ia) as [?|[?|(k & ? & [?|?])]]; [congruence|by destruct (GetFromId c a)..]. }
    split; [by left|]. split; [apply included_refl|by apply zero_included].
Qed.

Lemma merge_resolved n c a b :
  cache_ok c -> valid c a -> valid c b -> a <> b ->
  resolved_ref (GetFromId c a) = true -> resolved_ref (GetFromId c b) = true ->
  exists r, Merge H (S n) c a b = Some r
  /\ returns c r (fun t => upper (GetFromId c a) (GetFromId c b) t /\ resolved_ref t = true).
Proof.
  intros Hc Ha Hb Hne Ra Rb. pose proof Ra as Ra'. pose proof Rb as Rb'.
  apply andb_prop in Ra as [Ia Na%negb_true_iff], Rb as [Ib Nb%negb_true_iff].
  assert (IsZero (GetFromId c a) && IsZero (GetFromId c b) = false) as Hz.
  { apply not_true_is_false. intros [Za Zb]%andb_prop. apply zero_id in Za, Zb; congruence. }
  rewrite merge_ref_eq by done. unfold merge_ref. destruct (_ || IsZero (GetFromId c b)) eqn:Ez.
  { eexists. split; [done|]. destruct (select_sound c a b Ia Ib Hz Ez) as [[E|E] Hu]; rewrite E in *; by apply returns_same. }
  apply orb_false_iff in Ez as [Za Zb]. destruct (IsJavaLangObject _ _ || _).
  { eexists. split; [done|]. eapply returns_mono; [by apply JavaLangObject_spec|]. intros u Hu.
    split; [split; by apply object_upper|by eapply plain_resolved]. }
  rewrite Na, Nb. cbn [orb].
  destruct (init_ref_cases _ Ia) as [?|[?|(ka & Hka)]]; [congruence|congruence|].
  destruct (init_ref_cases _ Ib) as [?|[?|(kb & Hkb)]]; [congruence|congruence|].
  rewrite (proj1 Hka), (proj1 Hkb). eexists. split; [done|]. by apply merge_classes_sound.
Qed.

Lemma returns_trans c c1 r (P : RegType -> Prop) : extends c c1 -> returns c1 r P -> returns c r P.
Proof. intros He (? & ? & ? & ?). split_and!; try done. by eapply extends_trans. Qed.

Lemma merge_parts_ok c i :
  cache_ok c -> valid c i -> init_ref (GetFromId c i) = true ->
  let r := (merge_parts c i).1.2 in valid c r /\ resolved_ref (GetFromId c r) = true.
Proof.
  intros Hc Hv Hr. destruct (prefix_get c Zero (PreciseConstType 0) Hc eq_refl) as [Ez Hz].
  unfold merge_parts. destruct (GetFromId c i) eqn:E; try done; cbn -[Zero]; rewrite ?Ez, ?E; try done.
  - split; [done|]. unfold resolved_ref. by rewrite Hr.
  - assert (primitive_count_ <= i)%nat as Hi.
    { apply Nat.nlt_ge. intros Hlt. destruct (lookup_lt_is_Some_2 FillPrimitiveAndSmallConstantTypes i Hlt) as [t Ht].
      destruct (prefix_get c i t Hc Ht) as [E' _]. rewrite E in E'. subst t.
      do 18 (destruct i as [|i]; [discriminate Ht|]). discriminate Ht. }
    pose proof (k_entries c Hc i _ (get_lookup c i Hv) Hi) as He. rewrite E in He. destruct He as (Hlt & H1 & H2 & H3).
    split; [unfold valid in *; lia|]. unfold resolved_ref, init_ref. by rewrite H1, H2, H3.
Qed.

Lemma merged_included t r u : init_ref t = true -> included t (UnresolvedMergedType r u).
Proof. intros Ht v Hv Hg. by apply ref_value in Hg. Qed.

Lemma unresolved_merge_sound n c a b :
  cache_ok c -> fits c -> valid c a -> valid c b -> init_ref (GetFromId c a) = true -> init_ref (GetFromId c b) = true ->
  exists r, FromUnresolvedMerge H (fun c l r => if Equals l r then Some (l, c) else Merge H (S n) c l r) c a b = Some r
  /\ returns c r (upper (GetFromId c a) (GetFromId c b)).
Proof.
  intros Hc Hf Ha Hb Ra Rb. pose proof (merge_parts_ok c a Hc Ha Ra) as [Va Pa]. pose proof (merge_parts_ok c b Hc Hb Rb) as [Vb Pb].
  unfold FromUnresolvedMerge. destruct (merge_parts c a) as [[ua ra] xa]. destruct (merge_parts c b) as [[ub rb] xb]. cbn in Va, Pa, Vb, Pb.
  set (ta := GetFromId c a) in *. set (tb := GetFromId c b) in *.
  assert (exists m c1, (if Equals ra rb then Some (ra, c) else Merge H (S n) c ra rb) = Some (m, c1)
          /\ returns c (m, c1) (fun t => resolved_ref t = true)) as (m & c1 & -> & (Hc1 & He & Hm & Hres)).
  { destruct (Equals ra rb) eqn:Eq; [exists ra, c; split; [done|by apply returns_same]|].
    assert (ra <> rb) as Hne by (intros ->; by rewrite (proj2 (equals_spec c rb rb Hf Vb Vb) eq_refl) in Eq).
    destruct (merge_resolved n c ra rb) as ([m c1] & -> & Hr); try done. exists m, c1. split; [done|].
    eapply returns_mono; [exact Hr|]. by intros t []. }
  cbn [fst snd] in Hc1, He, Hm, Hres.
  assert (returns c1 (JavaLangObject H c1 false) (upper ta tb)) as Hobj.
  { eapply returns_mono; [by apply JavaLangObject_spec|]. intros u Hu. split; by apply object_upper. }
  assert (forall p, (forall e, p e = true -> exists r u, e = UnresolvedMergedType r u) ->
          returns c1 (find_or_add c1 p (UnresolvedMergedType m (Z.lor ua ub))) (upper ta tb)) as Hadd.
  { intros p Hp. apply returns_find; [done| |done|split; by apply merged_included|].
    - split; [done|]. apply andb_prop in Hres as [[? ?%negb_true_iff]%andb_prop ?%negb_true_iff]. done.
    - intros i e _ _ Hpe. destruct (Hp e Hpe) as (r & u & ->). split; by apply merged_included. }
  assert (forall e, (match e with UnresolvedMergedType r u => (r =? m)%nat && (u =? Z.lor ua ub) | _ => false end) = true ->
          exists r u, e = UnresolvedMergedType r u) as Hp by (intros e; destruct e; try done; eauto).
  destruct (IsConflict _).
  { eexists. split; [done|]. apply (returns_trans c c1 _ _ He). eapply returns_prefix; [done|exact eq_refl|]. split; by apply included_top. }
  repeat case_match; (eexists; split; [done|]; apply (returns_trans c c1 _ _ He); first [exact Hobj|by apply Hadd]).
Qed.

(** ** Every branch *)
Lemma select_wide_sound c a b :
  let ta := GetFromId c a in
  let tb := GetFromId c b in
  IsConstant ta && IsConstant tb = false -> IsConstantLo ta && IsConstantLo tb = false ->
  IsConstantHi ta && IsConstantHi tb = false ->
  (IsFloatTypes ta && IsFloatTypes tb) || (IsLongTypes ta && IsLongTypes tb)
  || (IsLongHighTypes ta && IsLongHighTypes tb) || (IsDoubleTypes ta && IsDoubleTypes tb)
  || (IsDoubleHighTypes ta && IsDoubleHighTypes tb) = true ->
  (SelectNonConstant c a b = a \/ SelectNonConstant c a b = b)
  /\ gamma (GetFromId c (SelectNonConstant c a b)) = (fun _ => True).
Proof.
  intros ta tb. subst ta tb. unfold SelectNonConstant. intros H1 H2 H3 H4.
  destruct (GetFromId c a) eqn:Ea; try discriminate H4; destruct (GetFromId c b) eqn:Eb;
    try discriminate H4; try discriminate H1; try discriminate H2; try discriminate H3; cbn; rewrite ?Ea, ?Eb; auto.
Qed.

Lemma integral_sound c ta tb :
  cache_ok c ->
  returns c (if IsBooleanTypes ta && IsBooleanTypes tb then Boolean
             else if IsByteTypes ta && IsByteTypes tb then Byte
             else if IsShortTypes ta && IsShortTypes tb then Short
             else if IsCharTypes ta && IsCharTypes tb then Char else Integer, c) (upper ta tb).
Proof.
  intros Hc. destruct (_ && _) eqn:E1; [|destruct (IsByteTypes ta && _) eqn:E2; [|destruct (IsShortTypes ta && _) eqn:E3;
    [|destruct (IsCharTypes ta && _) eqn:E4]]];
    (eapply returns_prefix; [done|exact eq_refl|]).
  - apply andb_prop in E1 as []. split; by apply boolean_included.
  - apply andb_prop in E2 as []. split; by apply byte_included.
  - apply andb_prop in E3 as []. split; by apply short_included.
  - apply andb_prop in E4 as []. split; by apply char_included.
  - split; by apply included_top.
Qed.

Lemma merge_ref_sound n c a b :
  cache_ok c -> fits c -> valid c a -> valid c b -> init_ref (GetFromId c a) = true -> init_ref (GetFromId c b) = true ->
  IsZero (GetFromId c a) && IsZero (GetFromId c b) = false ->
  exists r, merge_ref (S n) c a b = Some r /\ returns c r (upper (GetFromId c a) (GetFromId c b)).
Proof.
  intros Hc Hf Ha Hb Ia Ib Hz. unfold merge_ref. destruct (_ || IsZero (GetFromId c b)) eqn:Ez.
  { eexists. split; [done|]. destruct (select_sound c a b Ia Ib Hz Ez) as [[E|E] Hu]; rewrite E in *; by apply returns_same. }
  apply orb_false_iff in Ez as [Za Zb]. destruct (IsJavaLangObject _ _ || _).
  { eexists. split; [done|]. eapply returns_mono; [by apply JavaLangObject_spec|]. intros u Hu. split; by apply object_upper. }
  destruct (IsUnresolvedTypes (GetFromId c a) || _) eqn:Eu; [by apply unresolved_merge_sound|].
  apply orb_false_iff in Eu as [Ua Ub].
  destruct (init_ref_cases _ Ia) as [?|[?|(ka & Hka)]]; [congruence|congruence|].
  destruct (init_ref_cases _ Ib) as [?|[?|(kb & Hkb)]]; [congruence|congruence|].
  rewrite (proj1 Hka), (proj1 Hkb). eexists. split; [done|].
  eapply returns_mono; [by apply merge_classes_sound|]. by intros t [].
Qed.

Lemma Merge_sound n c a b :
  cache_ok c -> fits c -> valid c a -> valid c b -> a <> b ->
  exists r, Merge H (S (S n)) c a b = Some r /\ returns c r (upper (GetFromId c a) (GetFromId c b)).
Proof.
  intros Hc Hf Ha Hb Hne. set (ta := GetFromId c a). set (tb := GetFromId c b).
  destruct (init_ref ta && init_ref tb) eqn:Ei.
  { apply andb_prop in Ei as [Ia Ib].
    assert (IsZero ta && IsZero tb = false) as Hz.
    { apply not_true_is_false. intros [Za Zb]%andb_prop. apply zero_id in Za, Zb; congruence. }
    rewrite merge_ref_eq by done. by apply merge_ref_sound. }
  assert (forall u, gamma u = (fun _ => True) -> upper ta tb u) as Htop by (intros u Hu; split; by apply included_top).
  cbn [Merge]. fold ta tb.
  destruct (_ || (b =? Undefined)%nat); [eexists; split; [done|]; by eapply returns_prefix; [|exact eq_refl|apply Htop]|].
  destruct (_ || (b =? Conflict)%nat); [eexists; split; [done|]; by eapply returns_prefix; [|exact eq_refl|apply Htop]|].
  destruct (IsConstant ta && _) eqn:E1; [eexists; split; [done|]; apply andb_prop in E1 as []; by apply merge_constants_sound|].
  destruct (IsConstantLo ta && _) eqn:E2;
    [eexists; split; [done|]; eapply returns_mono; [apply FromCat2ConstLo_spec; [done|apply s32_range]|intros t ->; by apply Htop]|].
  destruct (IsConstantHi ta && _) eqn:E3;
    [eexists; split; [done|]; eapply returns_mono; [apply FromCat2ConstHi_spec; [done|apply s32_range]|intros t ->; by apply Htop]|].
  destruct (IsIntegralTypes ta && _); [eexists; split; [done|]; by apply integral_sound|].
  destruct (_ || (IsDoubleHighTypes ta && _)) eqn:E4.
  { eexists; split; [done|]. destruct (select_wide_sound c a b E1 E2 E3 E4) as [[E|E] Hu]; rewrite E in *; apply returns_same; try done; by apply Htop. }
  assert (returns c (Conflict, c) (upper ta tb)) as Hconf by (by eapply returns_prefix; [|exact eq_refl|apply Htop]).
  destruct (IsReferenceTypes ta && IsReferenceTypes tb) eqn:E5; [|by eexists].
  destruct (IsUninitializedTypes ta || IsUninitializedTypes tb) eqn:E6; [by eexists|]. exfalso.
  apply andb_prop in E5 as [Ra Rb]. apply orb_false_iff in E6 as [Ua Ub]. unfold init_ref in Ei. by rewrite Ra, Rb, Ua, Ub in Ei.
Qed.

Lemma SafeMerge_sound c a b :
  cache_ok c -> fits c -> valid c a -> valid c b ->
  exists r, SafeMerge H c a b = Some r /\ returns c r (upper (GetFromId c a) (GetFromId c b)).
Proof.
  intros Hc Hf Ha Hb. unfold SafeMerge. destruct (Equals a b) eqn:E.
  - apply (equals_spec c) in E as ->; try done. eexists. split; [done|]. apply returns_same; [done|done|]. split; apply included_refl.
  - apply Merge_sound; try done. intros ->. by rewrite (proj2 (equals_spec c b b Hf Hb Hb) eq_refl) in E.
Qed.

(** ** Assignability *)
Lemma init_class t k : init_ref t = true -> klass_ t = Some k -> class_ref k t.
Proof. intros Hi Hk. destruct (init_ref_cases t Hi) as [Hz|[Hu|(k' & _ & Hr)]]; [by destruct t|by destruct t|]. by split. Qed.

(** The left side is a type a variable can be declared with: a precise reference only for a class
    that has no other instances. *)
Definition declarable (t : RegType) : Prop :=
  IsUninitializedTypes t = false
  /\ (IsPreciseReference t = true -> forall k, klass_ t = Some k -> CannotBeAssignedFromOtherTypes H k = true).

Lemma declared_plain t k : init_ref t = true -> declarable t -> klass_ t = Some k -> plain_ref k t.
Proof.
  intros Hi [_ Hp] Hk. destruct (init_class t k Hi Hk) as [_ [Hr|Hr]]; split; try done; [by left|]. right. auto.
Qed.

Lemma class_rules_sound c l r :
  let tl := GetFromId c l in
  let tr := GetFromId c r in
  cache_ok c -> valid c l -> valid c r -> declarable tl -> init_ref tl = true -> init_ref tr = true ->
  IsJavaLangObjectArray H tl && IsUnresolvedTypes tr = false ->
  (if IsJavaLangObjectArray H tl then IsObjectArrayTypes c tr
   else match klass_ tl, klass_ tr with Some kl, Some kr => IsAssignableFrom H kl kr | _, _ => false end) = true ->
  included tr tl.
Proof.
  intros tl tr Hc Hl Hr Hd Il Ir Hu Hrule.
  assert (forall kl kr, klass_ tl = Some kl -> klass_ tr = Some kr -> (loaded H kl -> loaded H kr -> assignable H kl kr) -> included tr tl) as Hcls.
  { intros kl kr El Er Ha. pose proof (init_class tl kl Il El) as Cl. pose proof (init_class tr kr Ir Er) as Cr.
    destruct (class_ref_loaded c l kl Hc Hl Cl) as [Ll _]. destruct (class_ref_loaded c r kr Hc Hr Cr) as [Lr _].
    apply (class_included kl kr); try done; [by apply declared_plain|by apply Ha]. }
  destruct (IsJavaLangObjectArray H tl) eqn:Eo; cbn [andb] in Hu.
  - unfold IsJavaLangObjectArray in Eo. destruct (klass_ tl) as [kl|] eqn:El; [|done].
    destruct kl as [|kl|]; try done. cbn in Eo.
    assert (exists k, klass_ tr = Some (Array k) /\ IsPrimitive k = false) as (k & Er & Hp).
    { assert (is_object_array_types tr = true) as Hrule' by (by destruct tr). unfold is_object_array_types in Hrule'.
      rewrite Hu in Hrule'. destruct (klass_ tr) as [[|k|]|]; try done. cbn in Hrule'. apply negb_true_iff in Hrule'. eauto. }
    apply (Hcls (Array kl) (Array k) eq_refl Er). intros Ll Lr. apply as_array.
    apply (object_class H Hok) in Eo; [|done]. subst kl. by apply as_object.
  - destruct (klass_ tl) as [kl|] eqn:El; [|done]. destruct (klass_ tr) as [kr|] eqn:Er; [|done].
    apply (Hcls kl kr eq_refl eq_refl). intros Ll Lr. by apply (IsAssignableFrom_spec H Hok).
Qed.

Lemma AssignableFrom_sound c l r strict :
  cache_ok c -> fits c -> valid c l -> valid c r -> declarable (GetFromId c l) ->
  IsJavaLangObjectArray H (GetFromId c l) && IsUnresolvedTypes (GetFromId c r) = false ->
  AssignableFrom H c l r strict = Some true -> included (GetFromId c r) (GetFromId c l).
Proof.
  intros Hc Hf Hl Hr Hd Hu. pose proof (class_rules_sound c l r Hc Hl Hr Hd) as Hrules.
  unfold AssignableFrom. destruct (Equals l r) eqn:E; [apply (equals_spec c) in E as ->; [intros _; apply included_refl|done..]|]. clear E.
  set (tl := GetFromId c l) in *. set (tr := GetFromId c r) in *.
  destruct (IsBoolean tl) eqn:E1; [destruct tl; try done; intros [= Ht]; by apply boolean_included|].
  destruct (IsByte tl) eqn:E2; [destruct tl; try done; intros [= Ht]; by apply byte_included|].
  destruct (IsShort tl) eqn:E3; [destruct tl; try done; intros [= Ht]; by apply short_included|].
  destruct (IsChar tl) eqn:E4; [destruct tl; try done; intros [= Ht]; by apply char_included|].
  destruct (IsInteger tl) eqn:E5; [destruct tl; try done; intros _; by apply included_top|].
  destruct (IsFloat tl) eqn:E6; [destruct tl; try done; intros _; by apply included_top|].
  destruct (IsLongLo tl) eqn:E7; [destruct tl; try done; intros _; by apply included_top|].
  destruct (IsDoubleLo tl) eqn:E8; [destruct tl; try done; intros _; by apply included_top|].
  destruct (IsConflict tl) eqn:E9; [done|]. destruct (IsReferenceTypes tl) eqn:Rl; [|done]. cbn [negb].
  assert (init_ref tl = true) as Il by (unfold init_ref; by rewrite Rl, (proj1 Hd)).
  destruct (IsZero tr) eqn:Zr; [intros _; by apply zero_included|].
  destruct (IsReferenceTypes tr) eqn:Rr; [|done]. cbn [negb]. rewrite (proj1 Hd). cbn [orb].
  destruct (IsUninitializedTypes tr) eqn:Ur; [done|].
  assert (init_ref tr = true) as Ir by (unfold init_ref; by rewrite Rr, Ur).
  destruct (IsJavaLangObject H tl) eqn:Eo.
  { intros _. apply object_upper; [done|]. destruct (klass_ tl) as [k|] eqn:El; [|by destruct tl].
    destruct (class_ref_loaded c l k Hc Hl (init_class _ _ Il El)) as [Lk _].
    assert (IsReference tl = true) as Hrf by (by destruct tl). split; [|by left]. rewrite El. f_equal.
    assert (IsObjectClass H k = true) as Eo' by (destruct tl; try done; cbn in *; congruence). clear Eo. rename Eo' into Eo.
    by apply (object_class H Hok) in Eo. }
  destruct (negb strict && negb (IsUnresolvedTypes tl)); [|intros [= Ht]; by apply Hrules].
  destruct (klass_ tl) as [kl|] eqn:El; [|done]. destruct (IsInterface H kl) eqn:Ei; [|intros [= Ht]; by apply Hrules].
  intros _ v Hv Hg. apply ref_value in Hg; [|done|done].
  destruct (declared_plain tl kl Il Hd El) as [_ [Hrf|[_ Hfin]]].
  - destruct tl; try done. injection El as ->. cbn. destruct Hg as [->|[o Ho]]; [by left|]. right. exists o. split; [done|by left].
  - destruct (class_ref_loaded c l kl Hc Hl (init_class _ _ Il El)) as [Lk _]. by rewrite (final_not_interface kl Lk Hfin) in Ei.
Qed.
End Cache.

Lemma new_cache_ok H : cache_ok H NewRegTypeCache.
Proof.
  split; [done| |by intros k i ?%elem_of_nil|by intros n k i ?|];
    intros i t; [intros Ht Hi|intros k Ht Hi _]; apply lookup_lt_Some in Ht; unfold NewRegTypeCache in Ht; cbn [entries_] in Ht; unfold primitive_count_ in Hi; lia.
Qed.
