(* ===== verification/RegTypeTheorems.v ===== *)
(** * What the register types promise

    Merging is sound and total, assignability is sound, and the operations of the cache keep its
    invariant. *)

From stdpp Require Import strings.
From S2P Require Import Prelude InterpreterBase ClassHierarchy RegTypes RegTypeProofs.

Section Operations.
Context (H : hierarchy) (Hok : hier_ok H).
Context (ResolveClass : string -> option Class) (IsValidDescriptor : string -> bool) (IsErroneous : Class -> bool).

(** What the class linker returns is a loaded class. *)
Context (Hresolve : forall d k, ResolveClass d = Some k -> loaded H k /\ IsPrimitive k = false).

#[local] Abbreviation returns := (returns H).
#[local] Abbreviation any := (fun _ : RegType => True).

Lemma returns_conflict c : cache_ok H c -> returns c (Conflict, c) any.
Proof. intros Hc. by eapply returns_prefix; [|exact eq_refl|]. Qed.

(** ** The operations that make uninitialized types *)

(** An imprecise type, or a precise one of a class without other instances; what
    [ResolveClassAndCheckAccess] and [GetDeclaringClass] of the verifier return. *)
Definition allocatable (t : RegType) : Prop :=
  IsUnresolvedTypes t = true \/ exists k, plain_ref H k t.

Lemma plain_entry c i k :
  cache_ok H c -> valid c i -> plain_ref H k (GetFromId c i) ->
  (primitive_count_ <= i)%nat /\ loaded H k /\ IsPrimitive k = false.
Proof.
  intros Hc Hv [Hk Hp]. assert (class_ref k (GetFromId c i)) as Hcr by (split; [done|]; destruct Hp as [|[]]; auto).
  split; [|by apply (class_ref_loaded H c i k)]. apply Nat.nlt_ge. intros Hlt.
  destruct (lookup_lt_is_Some_2 FillPrimitiveAndSmallConstantTypes i Hlt) as [t Ht].
  destruct (prefix_get H c i t Hc Ht) as [E _]. rewrite E in Hcr. destruct Hcr as [_ Hr].
  do 18 (destruct i as [|i]; [injection Ht as <-; by destruct Hr|]). discriminate Ht.
Qed.

Lemma Uninitialized_ok c i pc :
  cache_ok H c -> valid c i -> allocatable (GetFromId c i) -> returns c (Uninitialized c i pc) (fun t => IsUninitializedTypes t = true).
Proof.
  intros Hc Hv Ha. unfold Uninitialized. set (t := GetFromId c i) in *.
  destruct (IsUnresolvedTypes t) eqn:Eu.
  { apply returns_find; [done|done|by intros _ k|done|]. intros j e _ _. rewrite !andb_true_iff. intros [[He _] _]. by destruct e. }
  destruct Ha as [|(k & Hk)]; [congruence|]. rewrite (proj1 Hk).
  destruct (plain_entry c i k Hc Hv Hk) as (Hi & Hl & Hp).
  apply returns_find; [done|done| |done|].
  - intros _ k' [= <-]. destruct (k_reg H c Hc i t k (get_lookup c i Hv) Hi (proj1 Hk)) as [m Hm]. by exists m, i.
  - intros j e _ _. rewrite !andb_true_iff. intros [[He _] _]. by destruct e.
Qed.
Lemma UninitializedThisArgument_ok c i :
  cache_ok H c -> valid c i -> allocatable (GetFromId c i) ->
  returns c (UninitializedThisArgument c i) (fun t => IsUninitializedTypes t = true).
Proof.
  intros Hc Hv Ha. unfold UninitializedThisArgument. set (t := GetFromId c i) in *.
  destruct (IsUnresolvedTypes t) eqn:Eu.
  { apply returns_find; [done|done|by intros _ k|done|]. intros j e _ _. rewrite !andb_true_iff. intros [He _]. by destruct e. }
  destruct Ha as [|(k & Hk)]; [congruence|]. rewrite (proj1 Hk).
  destruct (plain_entry c i k Hc Hv Hk) as (Hi & Hl & Hp).
  apply returns_find; [done|done| |done|].
  - intros _ k' [= <-]. destruct (k_reg H c Hc i t k (get_lookup c i Hv) Hi (proj1 Hk)) as [m Hm]. by exists m, i.
  - intros j e _ _. rewrite !andb_true_iff. intros [He _]. by destruct e.
Qed.

(** A constructor has run: the register keeps its values. *)
Lemma FromUninitialized_ok cls c i :
  heap_ok H cls -> cache_ok H c -> valid c i -> IsUninitializedTypes (GetFromId c i) = true ->
  (forall k d, GetFromId c i = UninitializedThisReferenceType k d -> IsArrayClass k = false) ->
  returns c (FromUninitialized H c i) (fun t => init_ref t = true /\ included H cls (GetFromId c i) t).
Proof.
  intros Hh Hc Hv Hu Hna. assert (primitive_count_ <= i)%nat as Hi.
  { apply Nat.nlt_ge. intros Hlt. destruct (lookup_lt_is_Some_2 FillPrimitiveAndSmallConstantTypes i Hlt) as [t Ht].
    destruct (prefix_get H c i t Hc Ht) as [E _]. rewrite E in Hu.
    do 18 (destruct i as [|i]; [injection Ht as <-; discriminate Hu|]). discriminate Ht. }
  pose proof (k_entries H c Hc i _ (get_lookup c i Hv) Hi) as He. unfold FromUninitialized.
  set (t := GetFromId c i) in *. destruct t as [| | | | | | | | | | | | | | | | | |k d p|d p|k d|d| | | | |] eqn:Et; try done;
    cbn [IsUnresolvedTypes IsUninitializedThisReference klass_ andb] in *.
  - destruct He as [Hl Hp]. rewrite Hp. cbn. apply returns_find; [done|done|done| |].
    + split; [done|]. intros v _ Hg. cbn in *. by right.
    + intros j e _ _ [Hj Hk%bool_decide_eq_true]%andb_prop. destruct e; try done. injection Hk as ->.
      split; [done|]. intros v _ Hg. cbn in *. by right.
  - apply returns_find; [done|done|done|split; [done|]; intros v _ Hg; by right|].
    intros j e _ _ [Hj _]%andb_prop. destruct e; try done. split; [done|]. intros v _ Hg. by right.
  - destruct He as [Hl Hp]. destruct (negb (IsFinal H k)) eqn:Ef.
    + apply returns_find; [done|done|done|split; [done|]; intros v _ Hg; by right|].
      intros j e _ _ [Hj Hk%bool_decide_eq_true]%andb_prop. destruct e; try done. injection Hk as ->.
      split; [done|]. intros v _ Hg. by right.
    + rewrite Hp. cbn [negb]. apply negb_false_iff in Ef.
      assert (forall v o, cls v = Some o -> instance_of H k o -> o = k) as Hfin.
      { intros v o Ho Hin. destruct (Hh v o Ho) as (_ & Hlo & _).
        assert (CannotBeAssignedFromOtherTypes H k = true) as Hc'
          by (specialize (Hna k d eq_refl); by destruct k).
        destruct Hin as [Hint|Has]; [by rewrite (final_not_interface H Hok k Hl Hc') in Hint|].
        apply (IsAssignableFrom_spec H Hok) in Has; [|done|done]. by apply (final_assignable H Hok). }
      assert (included H cls (UninitializedThisReferenceType k d) (PreciseReferenceType k d)) as Hincl.
      { intros v _ (o & Ho & Hin). right. by rewrite <- (Hfin v o Ho Hin). }
      apply returns_find; [done|done|done|by split|].
      intros j e _ _ [Hj Hk%bool_decide_eq_true]%andb_prop. destruct e; try done. injection Hk as ->. by split.
  - apply returns_find; [done|done|done|split; [done|]; intros v _ Hg; by right|].
    intros j e _ _ [Hj _]%andb_prop. destruct e; try done. split; [done|]. intros v _ Hg. by right.
Qed.

Lemma From_ok c d precise : cache_ok H c -> returns c (From H ResolveClass IsValidDescriptor c d precise) any.
Proof.
  intros Hc. unfold From. destruct (lookup_entry c _) as [i|] eqn:E.
  { apply lookup_entry_spec in E as (_ & Hv & _). by apply returns_same. }
  destruct (ResolveClass d) as [k|] eqn:Er; [destruct (Hresolve d k Er)|destruct (IsValidDescriptor d)].
  - destruct (_ || precise); by apply returns_add.
  - by apply returns_add.
  - by apply returns_conflict.
Qed.
Lemma FromDescriptor_ok c d precise : cache_ok H c -> returns c (FromDescriptor H ResolveClass IsValidDescriptor c d precise) any.
Proof.
  intros Hc. unfold FromDescriptor. destruct d as [|ch [|ch' d]]; [by apply returns_conflict| |].
  - repeat case_match; by eapply returns_prefix; [|exact eq_refl|].
  - destruct (_ || _); [by apply From_ok|by apply returns_conflict].
Qed.
Lemma FromUnresolvedSuperClass_ok c i : cache_ok H c -> returns c (FromUnresolvedSuperClass c i) any.
Proof. intros Hc. by apply returns_find. Qed.
Lemma prim_entry p : exists t, FillPrimitiveAndSmallConstantTypes !! RegTypeFromPrimitiveType p = Some t.
Proof. destruct p; by eexists. Qed.
Lemma FromClass_ok c d k precise : cache_ok H c -> loaded H k -> returns c (FromClass H c d k precise) any.
Proof.
  intros Hc Hk. destruct (IsPrimitive k) eqn:Hp.
  - unfold FromClass, FindClass. rewrite Hp. destruct (prim_entry (GetPrimitiveType k)) as [t Ht]. by eapply returns_prefix.
  - destruct precise.
    + eapply returns_mono; [by apply FromClass_precise_spec|done].
    + eapply returns_mono; [by apply FromClass_spec|done].
Qed.
Lemma GetComponentTypeOf_ok c i :
  cache_ok H c -> valid c i -> returns c (GetComponentTypeOf H ResolveClass IsValidDescriptor IsErroneous c i) any.
Proof.
  intros Hc Hv. unfold GetComponentTypeOf. destruct (negb _); [by apply returns_conflict|].
  destruct (IsUnresolvedTypes _); [by apply FromDescriptor_ok|].
  destruct (klass_ (GetFromId c i)) as [k|] eqn:Ek; [|by apply returns_conflict].
  destruct (GetComponentType k) as [k'|] eqn:Ec; [|by apply returns_conflict].
  destruct (IsErroneous k'); [by apply FromDescriptor_ok|]. apply FromClass_ok; [done|].
  destruct k as [|k|]; try done. injection Ec as <-. destruct (decide (primitive_count_ <= i)%nat) as [Hi|Hi].
  - pose proof (k_entries H c Hc i _ (get_lookup c i Hv) Hi) as He.
    destruct (GetFromId c i); try done; injection Ek as ->; by destruct He.
  - exfalso. destruct (lookup_lt_is_Some_2 FillPrimitiveAndSmallConstantTypes i) as [t Ht]; [unfold primitive_count_ in *; lia|].
    destruct (prefix_get H c i t Hc Ht) as [E _]. rewrite E in Ek.
    do 18 (destruct i as [|i]; [injection Ht as <-; discriminate Ek|]). discriminate Ht.
Qed.

(** ** The theorems *)

End Operations.

(** C12. Merging register types is total and sound: the merge exists, it leaves every other type of
    the cache as it was, and every value a register may hold on one of the two paths is a value of
    the merged type (constants as ranges, integral types, references through the class
    hierarchy). *)
Theorem merge_sound H cls c a b :
  hier_ok H -> heap_ok H cls -> cache_ok H c -> fits c -> valid c a -> valid c b ->
  exists i c', SafeMerge H c a b = Some (i, c') /\ valid c' i
  /\ (forall j, valid c j -> GetFromId c' j = GetFromId c j)
  /\ forall v, in_u 32 v -> gamma H cls (GetFromId c a) v \/ gamma H cls (GetFromId c b) v ->
     gamma H cls (GetFromId c' i) v.
Proof.
  intros Hok Hh Hc Hf Ha Hb. destruct (SafeMerge_sound H Hok cls Hh c a b Hc Hf Ha Hb) as ([i c'] & -> & (_ & He & Hv & [Ua Ub])).
  exists i, c'. split; [done|]. split; [done|]. split; [intros j Hj; by apply get_extends|].
  intros v Hin [Hg|Hg]; [by apply Ua|by apply Ub].
Qed.


(** ** Concrete types *)

(** A heap with an instance of [B] at 1 and one of [C] at 2. *)
Definition sample_heap (v : Z) : option Class :=
  if v =? 1 then Some (Named 3) else if v =? 2 then Some (Named 4) else None.
Lemma sample_heap_ok : heap_ok sample_hierarchy sample_heap.
Proof.
  intros v k. unfold sample_heap. destruct (Z.eqb_spec v 1) as [->|]; [|destruct (Z.eqb_spec v 2) as [->|]; [|done]];
    intros [= <-]; (split; [done|]; split; [by eexists|done]).
Qed.

(** The cache with the types of [B] and [C]. *)
Definition sample_cache : RegTypeCache :=
  snd (FromClass sample_hierarchy (snd (FromClass sample_hierarchy NewRegTypeCache "LB;" (Named 3) false)) "LC;" (Named 4) false).
Lemma sample_cache_ok : cache_ok sample_hierarchy sample_cache.
Proof.
  destruct (FromClass_spec sample_hierarchy NewRegTypeCache "LB;" (Named 3) (new_cache_ok _)) as (Hc & _);
    [by eexists|done|].
  destruct (FromClass_spec sample_hierarchy _ "LC;" (Named 4) Hc) as (Hc' & _); [by eexists|done|]. exact Hc'.
Qed.
Lemma sample_valid i : (i < 20)%nat -> valid sample_cache i.
Proof. done. Qed.
Lemma sample_fits : fits sample_cache.
Proof. by vm_compute. Qed.

Lemma merge_sound_witness :
  match SafeMerge sample_hierarchy sample_cache 18 19 with
  | Some (i, c') => GetFromId c' i = ReferenceType (Named 2) "LA;" /\ gamma sample_hierarchy sample_heap (GetFromId c' i) 1
  | None => False
  end.
Proof.
  destruct (merge_sound sample_hierarchy sample_heap sample_cache 18 19) as (i & c' & E & _ & _ & Hg);
    [apply sample_hierarchy_ok|apply sample_heap_ok|apply sample_cache_ok|apply sample_fits|apply sample_valid; lia..|].
  rewrite E. split; [by vm_compute in E; injection E as <- <-|]. apply Hg; [done|]. left. right. exists (Named 3).
  split; [done|]. right. by vm_compute.
Defined.

(** The merge of two unresolved array types is [Object]: the missing resolved part counts as one
    that is not an array, although [FromUnresolvedMerge] says that only parts that exist decide. *)
Lemma unresolved_arrays_merge :
  let c := snd (From sample_hierarchy (fun _ => None) (fun _ => true)
             (snd (From sample_hierarchy (fun _ => None) (fun _ => true) sample_cache "[LX;" false)) "[LY;" false) in
  IsArrayTypes c (GetFromId c 20) = true /\ IsArrayTypes c (GetFromId c 21) = true
  /\ match SafeMerge sample_hierarchy c 20 21 with
     | Some (i, c') => IsJavaLangObject sample_hierarchy (GetFromId c' i) = true
     | None => False
     end.
Proof. by vm_compute. Qed.
