(* ===== verification/RegisterLine.v ===== *)
(** * Register lines of the verifier

    runtime/verifier/register_line.h, register_line-inl.h and register_line.cc: the types of all
    registers before an instruction, the stack of entered monitors, and which registers are known
    to hold the objects of that stack.

    An operation is a computation over the cache of register types, the line and the errors it
    reports, in the order of the calls of [Fail]; the method verifier runs [Fail] on them.  A type
    is its index in the cache.  An access outside the line, a failed [CHECK] and an iterator that
    is not found have no result. *)

From S2P Require Import Prelude DexInstruction VerifierStatic InterpreterBase ClassHierarchy RegTypes.
#[local] Open Scope sm_scope.

Inductive TypeCategory := kTypeCategoryUnknown | kTypeCategory1nr | kTypeCategory2 | kTypeCategoryRef.
Inductive LockOp := kClear | kKeep.

Record RegisterLine := mkLine {
  result_ : nat * nat;
  monitors_ : list Z;
  reg_to_lock_depths_ : gmap Z Z;
  this_initialized_ : bool;
  line_ : list nat
}.

Definition set_result (l : RegisterLine) (r : nat * nat) : RegisterLine :=
  mkLine r (monitors_ l) (reg_to_lock_depths_ l) (this_initialized_ l) (line_ l).
Definition set_monitors (l : RegisterLine) (m : list Z) : RegisterLine :=
  mkLine (result_ l) m (reg_to_lock_depths_ l) (this_initialized_ l) (line_ l).
Definition set_depths (l : RegisterLine) (d : gmap Z Z) : RegisterLine :=
  mkLine (result_ l) (monitors_ l) d (this_initialized_ l) (line_ l).
Definition set_initialized (l : RegisterLine) (b : bool) : RegisterLine :=
  mkLine (result_ l) (monitors_ l) (reg_to_lock_depths_ l) b (line_ l).
Definition set_line (l : RegisterLine) (r : list nat) : RegisterLine :=
  mkLine (result_ l) (monitors_ l) (reg_to_lock_depths_ l) (this_initialized_ l) r.

(** [line_[i] = type.GetId()]: an identifier has 16 bits. *)
Definition stored_id (i : nat) : nat := Z.to_nat (GetId i).

Definition NewRegisterLine (num_regs : Z) : RegisterLine :=
  mkLine (Undefined, Undefined) [] ∅ false (replicate (Z.to_nat num_regs) 0%nat).
Definition NumRegs (l : RegisterLine) : Z := Z.of_nat (length (line_ l)).

(** [this->CopyFromLine(src)]; the result registers stay. *)
Definition CopyFromLine (this src : RegisterLine) : RegisterLine :=
  mkLine (result_ this) (monitors_ src) (reg_to_lock_depths_ src) (this_initialized_ src) (line_ src).

Definition MonitorStackDepth (l : RegisterLine) : nat := length (monitors_ l).

(** ** Lock depths *)
Definition CopyRegToLockDepth (dst src : Z) (m : gmap Z Z) : gmap Z Z :=
  match m !! src with
  | Some bits => match m !! dst with None => <[dst := bits]> m | Some _ => m end
  | None => m
  end.
Definition IsSetLockDepth (reg : Z) (depth : nat) (m : gmap Z Z) : bool :=
  match m !! reg with
  | Some bits => negb (Z.land bits (Z.shiftl 1 (Z.of_nat depth)) =? 0)
  | None => false
  end.
Definition ClearAllRegToLockDepths (reg : Z) (m : gmap Z Z) : gmap Z Z := delete reg m.

(** [None] is a failed [CHECK]. *)
Definition SetRegToLockDepth (reg : Z) (depth : nat) (m : gmap Z Z) : option (bool * gmap Z Z) :=
  if negb (depth <? 32)%nat then None
  else if IsSetLockDepth reg depth m then Some (false, m)
  else
    let bit := Z.shiftl 1 (Z.of_nat depth) in
    Some (true, match m !! reg with
                | None => <[reg := bit]> m
                | Some bits => <[reg := Z.lor bits bit]> m
                end).
Definition ClearRegToLockDepth (reg : Z) (depth : nat) (m : gmap Z Z) : option (gmap Z Z) :=
  if negb (depth <? 32)%nat then None
  else
    match m !! reg with
    | None => None
    | Some bits =>
        let mask := Z.shiftl 1 (Z.of_nat depth) in
        let depths := Z.lxor bits mask in
        let m := if negb (depths =? 0) then <[reg := depths]> m else delete reg m in
        Some ((fun b => if negb (Z.land b mask =? 0) then Z.lxor b mask else b) <$> m)
    end.

(** Another register of [search_map] holds what [src] holds in [src_map]. *)
Definition FindLockAliasedRegister (src : Z) (src_map search_map : gmap Z Z) : bool :=
  match src_map !! src with
  | None => true
  | Some src_lock_levels =>
      if src_lock_levels =? 0 then true
      else existsb (fun p => negb (p.1 =? src) && (p.2 =? src_lock_levels)) (map_to_list search_map)
  end.

(** ** Computations on a line *)
Record line_state := mkLS {
  types : RegTypeCache;
  line : RegisterLine;
  errors : list VerifyError
}.
Abbreviation LM := (SM line_state).

Definition Fail (e : VerifyError) : LM unit := smod (fun s => mkLS (types s) (line s) (errors s ++ [e])).
Definition modify (f : RegisterLine -> RegisterLine) : LM unit :=
  smod (fun s => mkLS (types s) (f (line s)) (errors s)).
Definition lift {A} (m : option A) : LM A := fun s => match m with Some a => Some (a, s) | None => None end.
(** An operation of the cache. *)
Definition cached {A} (f : RegTypeCache -> A * RegTypeCache) : LM A :=
  fun s => let '(a, c) := f (types s) in Some (a, mkLS c (line s) (errors s)).
(** The object behind a reference to a type. *)
Definition deref (i : nat) : LM RegType := sget (fun s => GetFromId (types s) i).

Definition GetRegisterType (vsrc : Z) : LM nat :=
  fun s => match line_ (line s) !! Z.to_nat vsrc with Some i => Some (i, s) | None => None end.
Definition write_line (vdst : Z) (i : nat) : LM unit :=
  fun s => if (Z.to_nat vdst <? length (line_ (line s)))%nat
           then modify (fun l => set_line l (<[Z.to_nat vdst := stored_id i]> (line_ l))) s
           else None.
Definition modify_depths (f : gmap Z Z -> gmap Z Z) : LM unit :=
  modify (fun l => set_depths l (f (reg_to_lock_depths_ l))).

Definition SetRegisterType (kLockOp : LockOp) (vdst : Z) (new_type : nat) : LM bool :=
  do t <- deref new_type ;
  if IsLowHalf t || IsHighHalf t then Fail VERIFY_ERROR_BAD_CLASS_HARD ;; sret false
  else
    write_line vdst new_type ;;
    match kLockOp with
    | kClear => modify_depths (ClearAllRegToLockDepths vdst)
    | kKeep => sret tt
    end ;;
    sret true.

Definition SetRegisterTypeWide (vdst : Z) (new_type1 new_type2 : nat) : LM bool :=
  do t1 <- deref new_type1 ;
  do t2 <- deref new_type2 ;
  if negb (CheckWidePair t1 t2) then Fail VERIFY_ERROR_BAD_CLASS_SOFT ;; sret false
  else
    write_line vdst new_type1 ;;
    write_line (vdst + 1) new_type2 ;;
    modify_depths (ClearAllRegToLockDepths vdst) ;;
    modify_depths (ClearAllRegToLockDepths (vdst + 1)) ;;
    sret true.

Definition SetResultTypeToUnknown (l : RegisterLine) : RegisterLine := set_result l (Undefined, Undefined).
Definition SetResultRegisterType (new_type : nat) (l : RegisterLine) : RegisterLine :=
  set_result l (stored_id new_type, Undefined).
Definition SetResultRegisterTypeWide (new_type1 new_type2 : nat) (l : RegisterLine) : RegisterLine :=
  set_result l (stored_id new_type1, stored_id new_type2).

Definition is_cat (cat want : TypeCategory) : bool :=
  match cat, want with
  | kTypeCategory1nr, kTypeCategory1nr | kTypeCategoryRef, kTypeCategoryRef => true
  | _, _ => false
  end.
Definition CopyRegister1 (vdst vsrc : Z) (cat : TypeCategory) : LM unit :=
  do type <- GetRegisterType vsrc ;
  do ok <- SetRegisterType kClear vdst type ;
  if negb ok then sret tt
  else
    do t <- deref type ;
    if negb (IsConflict t)
       && ((is_cat cat kTypeCategory1nr && negb (IsCategory1Types t))
           || (is_cat cat kTypeCategoryRef && negb (IsReferenceTypes t)))
    then Fail VERIFY_ERROR_BAD_CLASS_HARD
    else if is_cat cat kTypeCategoryRef then modify_depths (CopyRegToLockDepth vdst vsrc)
    else sret tt.

Definition CopyRegister2 (vdst vsrc : Z) : LM unit :=
  do type_l <- GetRegisterType vsrc ;
  do type_h <- GetRegisterType (vsrc + 1) ;
  do tl <- deref type_l ;
  do th <- deref type_h ;
  if negb (CheckWidePair tl th) then Fail VERIFY_ERROR_BAD_CLASS_HARD
  else SetRegisterTypeWide vdst type_l type_h ;; sret tt.

Definition CopyResultRegister1 (vdst : Z) (is_reference : bool) : LM unit :=
  do r <- sget (fun s => result_ (line s)) ;
  do t <- deref (fst r) ;
  if (negb is_reference && negb (IsCategory1Types t)) || (is_reference && negb (IsReferenceTypes t))
  then Fail VERIFY_ERROR_BAD_CLASS_HARD
  else
    SetRegisterType kClear vdst (fst r) ;;
    modify (fun l => set_result l (Undefined, snd (result_ l))).

Definition CopyResultRegister2 (vdst : Z) : LM unit :=
  do r <- sget (fun s => result_ (line s)) ;
  do tl <- deref (fst r) ;
  if negb (IsCategory2Types tl) then Fail VERIFY_ERROR_BAD_CLASS_HARD
  else
    SetRegisterTypeWide vdst (fst r) (snd r) ;;
    modify (fun l => set_result l (Undefined, Undefined)).

(** ** Marking *)
Definition MarkAllRegistersAsConflicts (l : RegisterLine) : RegisterLine :=
  set_line l (map (fun _ => Conflict) (line_ l)).
Definition MarkAllRegistersAsConflictsExcept (vsrc : Z) (l : RegisterLine) : RegisterLine :=
  set_line l (imap (fun i t => if negb (Z.of_nat i =? vsrc) then Conflict else t) (line_ l)).
Definition MarkAllRegistersAsConflictsExceptWide (vsrc : Z) (l : RegisterLine) : RegisterLine :=
  set_line l (imap (fun i t => if negb (Z.of_nat i =? vsrc) && negb (Z.of_nat i =? vsrc + 1)
                               then Conflict else t) (line_ l)).
Definition MarkUninitRefsAsInvalid (uninit_type : nat) (l : RegisterLine) : RegisterLine :=
  set_depths
    (set_line l (map (fun t => if Equals t uninit_type then Conflict else t) (line_ l)))
    (foldl (fun m (p : nat * nat) => if Equals p.2 uninit_type then ClearAllRegToLockDepths (Z.of_nat p.1) m else m)
       (reg_to_lock_depths_ l) (imap (fun i t => (i, t)) (line_ l))).

Definition CheckConstructorReturn : LM bool :=
  do b <- sget (fun s => this_initialized_ (line s)) ;
  (if negb b then Fail VERIFY_ERROR_BAD_CLASS_HARD else sret tt) ;;
  sret b.

Definition VerifyMonitorStackEmpty : LM unit :=
  do l <- sget line ;
  if negb (MonitorStackDepth l =? 0)%nat then Fail VERIFY_ERROR_LOCKING else sret tt.

(** ** Monitors *)
Definition kVirtualNullRegister : Z := 2 ^ 32 - 1.

Definition PushMonitor (reg_idx insn_idx : Z) : LM unit :=
  do reg_type <- GetRegisterType reg_idx ;
  do t <- deref reg_type ;
  do l <- sget line ;
  if negb (IsReferenceTypes t) then Fail VERIFY_ERROR_BAD_CLASS_HARD
  else if (32 <=? MonitorStackDepth l)%nat then Fail VERIFY_ERROR_LOCKING
  else
    do set <- lift (SetRegToLockDepth reg_idx (MonitorStackDepth l) (reg_to_lock_depths_ l)) ;
    if fst set then
      modify (fun l => set_depths l (snd set)) ;;
      (if IsZero t then
         do set_null <- lift (SetRegToLockDepth kVirtualNullRegister (MonitorStackDepth l) (snd set)) ;
         modify (fun l => set_depths l (snd set_null))
       else sret tt) ;;
      modify (fun l => set_monitors l (monitors_ l ++ [u32 insn_idx]))
    else Fail VERIFY_ERROR_LOCKING.

Definition PopMonitor (reg_idx : Z) : LM unit :=
  do reg_type <- GetRegisterType reg_idx ;
  do t <- deref reg_type ;
  do l <- sget line ;
  if negb (IsReferenceTypes t) then Fail VERIFY_ERROR_BAD_CLASS_HARD
  else if (MonitorStackDepth l =? 0)%nat then Fail VERIFY_ERROR_LOCKING
  else
    let depth := (MonitorStackDepth l - 1)%nat in
    modify (fun l => set_monitors l (take depth (monitors_ l))) ;;
    let success := IsSetLockDepth reg_idx depth (reg_to_lock_depths_ l) in
    let success_null :=
      negb success && IsZero t && IsSetLockDepth kVirtualNullRegister depth (reg_to_lock_depths_ l) in
    let reg_idx := if success_null then kVirtualNullRegister else reg_idx in
    if negb (success || success_null) then Fail VERIFY_ERROR_LOCKING
    else
      do m <- lift (ClearRegToLockDepth reg_idx depth (reg_to_lock_depths_ l)) ;
      modify (fun l => set_depths l m).

(** ** Operations that compare types *)
Section Classes.
Context (H : hierarchy).

Definition IsAssignableFrom (check_type src_type : nat) : LM bool :=
  fun s => match AssignableFrom H (types s) check_type src_type false with
           | Some b => Some (b, s)
           | None => None
           end.

(** The error of a register whose type does not match. *)
Definition fail_type (check_type src_type : RegType) : VerifyError :=
  if negb (IsNonZeroReferenceTypes check_type) || negb (IsNonZeroReferenceTypes src_type)
  then VERIFY_ERROR_BAD_CLASS_HARD
  else if IsUninitializedTypes check_type || IsUninitializedTypes src_type then VERIFY_ERROR_BAD_CLASS_HARD
  else if IsUnresolvedTypes check_type || IsUnresolvedTypes src_type then VERIFY_ERROR_NO_CLASS
  else VERIFY_ERROR_BAD_CLASS_SOFT.

Definition VerifyRegisterType (vsrc : Z) (check_type : nat) : LM bool :=
  do src_type <- GetRegisterType vsrc ;
  do c <- deref check_type ;
  do t <- deref src_type ;
  do ok <- IsAssignableFrom check_type src_type ;
  if negb ok then Fail (fail_type c t) ;; sret false
  else if IsLowHalf c then
    do src_type_h <- GetRegisterType (vsrc + 1) ;
    do th <- deref src_type_h ;
    if negb (CheckWidePair t th) then Fail VERIFY_ERROR_BAD_CLASS_HARD ;; sret false
    else sret true
  else sret true.

Definition VerifyRegisterTypeWide (vsrc : Z) (check_type1 check_type2 : nat) : LM bool :=
  do src_type <- GetRegisterType vsrc ;
  do t <- deref src_type ;
  do ok <- IsAssignableFrom check_type1 src_type ;
  if negb ok then Fail VERIFY_ERROR_BAD_CLASS_HARD ;; sret false
  else
    do src_type_h <- GetRegisterType (vsrc + 1) ;
    do th <- deref src_type_h ;
    if negb (CheckWidePair t th) then Fail VERIFY_ERROR_BAD_CLASS_HARD ;; sret false
    else sret true.

Definition MarkRefsAsInitialized (uninit_type : nat) : LM unit :=
  do init_type <- cached (fun c => FromUninitialized H c uninit_type) ;
  do t <- deref uninit_type ;
  modify (fun l => set_line l (map (fun i => if Equals i uninit_type then stored_id init_type else i) (line_ l))) ;;
  if IsUninitializedThisReference t || IsUnresolvedAndUninitializedThisReference t
  then modify (fun l => set_initialized l true)
  else sret tt.

(** ** Instructions *)
Section Instruction.
Context (insns : code_units) (inst : Z).
#[local] Abbreviation d := (Fetch16 insns inst 0).

Definition GetInvocationThis (is_range allow_failure : bool) : LM nat :=
  let args_count := if is_range then VRegA_3rc d else VRegA_35c d in
  if args_count <? 1 then
    (if negb allow_failure then Fail VERIFY_ERROR_BAD_CLASS_HARD else sret tt) ;; sret Conflict
  else
    let this_reg := if is_range then VRegC_3rc insns inst else VRegC_35c insns inst in
    do this_type <- GetRegisterType this_reg ;
    do t <- deref this_type ;
    if negb (IsReferenceTypes t) then
      (if negb allow_failure then Fail VERIFY_ERROR_BAD_CLASS_HARD else sret tt) ;; sret Conflict
    else sret this_type.

Definition CheckUnaryOp (dst_type src_type : nat) : LM unit :=
  do ok <- VerifyRegisterType (VRegB_12x d) src_type ;
  if ok then SetRegisterType kClear (VRegA_12x d) dst_type ;; sret tt else sret tt.
Definition CheckUnaryOpWide (dst_type1 dst_type2 src_type1 src_type2 : nat) : LM unit :=
  do ok <- VerifyRegisterTypeWide (VRegB_12x d) src_type1 src_type2 ;
  if ok then SetRegisterTypeWide (VRegA_12x d) dst_type1 dst_type2 ;; sret tt else sret tt.
Definition CheckUnaryOpToWide (dst_type1 dst_type2 src_type : nat) : LM unit :=
  do ok <- VerifyRegisterType (VRegB_12x d) src_type ;
  if ok then SetRegisterTypeWide (VRegA_12x d) dst_type1 dst_type2 ;; sret tt else sret tt.
Definition CheckUnaryOpFromWide (dst_type src_type1 src_type2 : nat) : LM unit :=
  do ok <- VerifyRegisterTypeWide (VRegB_12x d) src_type1 src_type2 ;
  if ok then SetRegisterType kClear (VRegA_12x d) dst_type ;; sret tt else sret tt.

(** The two registers are boolean. *)
Definition both_boolean (vreg1 vreg2 : Z) : LM bool :=
  do type1 <- GetRegisterType vreg1 ;
  do t1 <- deref type1 ;
  if negb (IsBooleanTypes t1) then sret false
  else
    do type2 <- GetRegisterType vreg2 ;
    do t2 <- deref type2 ;
    sret (IsBooleanTypes t2).
(** The common part of [CheckBinaryOp] and [CheckBinaryOp2addr]. *)
Definition check_binary (vdst vreg1 vreg2 : Z) (dst_type src_type1 src_type2 : nat) (check_boolean_op : bool) : LM unit :=
  do ok1 <- VerifyRegisterType vreg1 src_type1 ;
  if negb ok1 then sret tt
  else
    do ok2 <- VerifyRegisterType vreg2 src_type2 ;
    if negb ok2 then sret tt
    else
      do is_boolean <- (if check_boolean_op then both_boolean vreg1 vreg2 else sret false) ;
      SetRegisterType kClear vdst (if is_boolean then Boolean else dst_type) ;; sret tt.
Definition CheckBinaryOp : nat -> nat -> nat -> bool -> LM unit :=
  check_binary (VRegA_23x d) (VRegB_23x insns inst) (VRegC_23x insns inst).
Definition CheckBinaryOp2addr : nat -> nat -> nat -> bool -> LM unit :=
  check_binary (VRegA_12x d) (VRegA_12x d) (VRegB_12x d).

Definition check_binary_wide (vdst vreg1 vreg2 : Z) (dst_type1 dst_type2 src_type1_1 src_type1_2 src_type2_1 src_type2_2 : nat) : LM unit :=
  do ok1 <- VerifyRegisterTypeWide vreg1 src_type1_1 src_type1_2 ;
  if negb ok1 then sret tt
  else
    do ok2 <- VerifyRegisterTypeWide vreg2 src_type2_1 src_type2_2 ;
    if ok2 then SetRegisterTypeWide vdst dst_type1 dst_type2 ;; sret tt else sret tt.
Definition CheckBinaryOpWide : nat -> nat -> nat -> nat -> nat -> nat -> LM unit :=
  check_binary_wide (VRegA_23x d) (VRegB_23x insns inst) (VRegC_23x insns inst).
Definition CheckBinaryOp2addrWide : nat -> nat -> nat -> nat -> nat -> nat -> LM unit :=
  check_binary_wide (VRegA_12x d) (VRegA_12x d) (VRegB_12x d).

Definition check_wide_shift (vdst vreg1 vreg2 : Z) (long_lo_type long_hi_type int_type : nat) : LM unit :=
  do ok1 <- VerifyRegisterTypeWide vreg1 long_lo_type long_hi_type ;
  if negb ok1 then sret tt
  else
    do ok2 <- VerifyRegisterType vreg2 int_type ;
    if ok2 then SetRegisterTypeWide vdst long_lo_type long_hi_type ;; sret tt else sret tt.
Definition CheckBinaryOpWideShift : nat -> nat -> nat -> LM unit :=
  check_wide_shift (VRegA_23x d) (VRegB_23x insns inst) (VRegC_23x insns inst).
Definition CheckBinaryOp2addrWideShift : nat -> nat -> nat -> LM unit :=
  check_wide_shift (VRegA_12x d) (VRegA_12x d) (VRegB_12x d).

Definition CheckLiteralOp (dst_type src_type : nat) (check_boolean_op is_lit16 : bool) : LM unit :=
  let vregA := if is_lit16 then VRegA_22s d else VRegA_22b d in
  let vregB := if is_lit16 then VRegB_22s d else VRegB_22b insns inst in
  do ok <- VerifyRegisterType vregB src_type ;
  if negb ok then sret tt
  else
    let val := u32 (if is_lit16 then VRegC_22s insns inst else VRegC_22b insns inst) in
    do src <- GetRegisterType vregB ;
    do t <- deref src ;
    SetRegisterType kClear vregA
      (if check_boolean_op && IsBooleanTypes t && ((val =? 0) || (val =? 1)) then Boolean else dst_type) ;;
    sret tt.
End Instruction.

(** ** Merging *)

(** The loop over the registers; [changed] is its accumulator. *)
Fixpoint merge_types (c : RegTypeCache) (cur inc : list nat) (changed : bool)
  : option (list nat * bool * RegTypeCache) :=
  match cur, inc with
  | [], _ => Some ([], changed, c)
  | i :: cur, j :: inc =>
      match (if (i =? j)%nat then Some (i, changed, c)
             else match Merge H 2 c i j with
                  | Some (k, c) => Some (stored_id k, changed || negb (Equals i k), c)
                  | None => None
                  end) with
      | Some (k, changed, c) =>
          match merge_types c cur inc changed with
          | Some (l, changed, c) => Some (k :: l, changed, c)
          | None => None
          end
      | None => None
      end
  | _ :: _, [] => None
  end.
End Classes.

(** One register of the loop over the lock depths: the remaining depths, or the failure. *)
Definition merge_depth (incoming : gmap Z Z) (idx : Z) (m : gmap Z Z) : option (gmap Z Z) :=
  let aliased :=
    if negb (FindLockAliasedRegister idx m m) || negb (FindLockAliasedRegister idx incoming m)
    then None else Some (delete idx m) in
  match m !! idx, incoming !! idx with
  | Some locked_levels, Some incoming_locked_levels =>
      if negb (locked_levels =? incoming_locked_levels) then aliased else Some m
  | None, None => Some m
  | _, _ => aliased
  end.
Fixpoint merge_depths (incoming : gmap Z Z) (n : nat) (idx : Z) (m : gmap Z Z) : gmap Z Z * list VerifyError :=
  match n with
  | O => (m, [])
  | S n =>
      match merge_depth incoming idx m with
      | Some m => merge_depths incoming n (idx + 1) m
      | None => (m, [VERIFY_ERROR_LOCKING])
      end
  end.

(** The lock depths after the merge and the errors. *)
Definition merge_locks (l incoming_line : RegisterLine) : gmap Z Z * list VerifyError :=
  let m := reg_to_lock_depths_ l in
  let incoming := reg_to_lock_depths_ incoming_line in
  if (0 <? MonitorStackDepth l)%nat || (0 <? MonitorStackDepth incoming_line)%nat then
    if negb (MonitorStackDepth l =? MonitorStackDepth incoming_line)%nat then (m, [VERIFY_ERROR_LOCKING])
    else if negb (bool_decide (m = incoming)) then merge_depths incoming (length (line_ l)) 0 m
    else (m, [])
  else (m, []).

Definition MergeRegisters (H : hierarchy) (incoming_line : RegisterLine) : LM bool :=
  do s <- sget (fun s => s) ;
  do r <- lift (merge_types H (types s) (line_ (line s)) (line_ incoming_line) false) ;
  let '(regs, changed, c) := r in
  let '(depths, errs) := merge_locks (line s) incoming_line in
  let lost_this := this_initialized_ (line s) && negb (this_initialized_ incoming_line) in
  smod (fun s =>
    mkLS c
      (mkLine (result_ (line s)) (monitors_ (line s)) depths
         (if lost_this then false else this_initialized_ (line s)) regs)
      (errors s ++ errs)) ;;
  sret (changed || lost_this).
