(* ===== verification/RegisterLineProofs.v ===== *)
(** * What a register line says of a frame

    A line describes a frame and a stack of held monitors: every register holds a value of its
    type, and a register with a lock depth holds the object entered at that depth.  The operations
    on lines keep the description, merging keeps it for both arguments. *)

From S2P Require Import Prelude DexInstruction VerifierStatic InterpreterBase ClassHierarchy.
From S2P Require Import RegTypes RegTypeProofs RegisterLine.

(** ** How much a merge adds to the cache *)
Definition grows (k : nat) (c : RegTypeCache) (r : nat * RegTypeCache) : Prop :=
  (length (entries_ (snd r)) <= length (entries_ c) + k)%nat.

Lemma grows_same k c i : grows k c (i, c).
Proof. unfold grows. cbn. lia. Qed.
Lemma grows_add k c t : grows (S k) c (AddEntry c t).
Proof. unfold grows, AddEntry. cbn. rewrite length_app. cbn. lia. Qed.
Lemma grows_find k c p t : grows (S k) c (find_or_add c p t).
Proof. unfold find_or_add. destruct (lookup_entry c p); [apply grows_same|apply grows_add]. Qed.
#[local] Hint Resolve grows_same grows_add grows_find : art.

Lemma grows_const k c v precise : grows (S k) c (FromCat1Const c v precise).
Proof. unfold FromCat1Const, FromCat1NonSmallConstant. destruct (_ && _); auto with art. Qed.
#[local] Hint Resolve grows_const : art.
Lemma grows_class H k c d klass precise : grows (S k) c (FromClass H c d klass precise).
Proof. unfold FromClass, InsertClass. destruct (FindClass H c klass precise); auto with art. Qed.
#[local] Hint Resolve grows_class : art.
Lemma grows_constants k c a b : grows (S k) c (merge_constants c a b).
Proof. unfold merge_constants, ByteConstant, ShortConstant, IntConstant. repeat case_match; auto with art. Qed.
Lemma grows_lo k c v precise : grows (S k) c (FromCat2ConstLo c v precise).
Proof. apply grows_find. Qed.
Lemma grows_hi k c v precise : grows (S k) c (FromCat2ConstHi c v precise).
Proof. apply grows_find. Qed.
Lemma grows_object H k c precise : grows (S k) c (JavaLangObject H c precise).
Proof. apply grows_class. Qed.
#[local] Hint Resolve grows_constants grows_lo grows_hi grows_object : art.

Lemma grows_merge H n c a b r : Merge H n c a b = Some r -> grows n c r.
Proof.
  revert c a b r. induction n as [|n IH]; intros c a b r E; [done|]. cbn [Merge] in E.
  repeat (match type of E with (if ?b then _ else _) = _ => destruct b end); try (injection E as <-; auto with art; fail).
  - unfold FromUnresolvedMerge in E. destruct (merge_parts c a) as [[lt lr] la], (merge_parts c b) as [[rt rr] ra].
    cbv beta iota zeta in E.
    match type of E with match ?x with _ => _ end = _ => destruct x as [[i c1]|] eqn:E1; [|done] end.
    assert (grows n c (i, c1)) as Hg1.
    { destruct (Equals lr rr); [injection E1 as <- <-; apply grows_same|by apply IH in E1]. }
    assert (grows 1 c1 r) as Hg2.
    { repeat (match type of E with (if ?b then _ else _) = _ => destruct b end); injection E as <-; auto with art. }
    unfold grows in *. cbn in *. lia.
  - destruct (klass_ (GetFromId c a)) as [c1|], (klass_ (GetFromId c b)) as [c2|]; try done. injection E as <-.
    unfold merge_classes. repeat case_match; auto with art.
Qed.

(** Space for [n] more entries. *)
Definition room (c : RegTypeCache) (n : nat) : Prop := Z.of_nat (length (entries_ c) + n) <= 65536.
Lemma room_fits c n : room c n -> fits c.
Proof. unfold room, fits. lia. Qed.
Lemma stored_id_valid c i : fits c -> valid c i -> stored_id i = i.
Proof. unfold fits, valid, stored_id, GetId, wrapu. intros. change (2 ^ 16) with 65536. rewrite Z.mod_small by lia. lia. Qed.

Section Lines.
Context (H : hierarchy) (Hok : hier_ok H) (cls : Z -> option Class) (Hheap : heap_ok H cls).
#[local] Abbreviation cache_ok := (cache_ok H).
#[local] Abbreviation gamma := (gamma H cls).

(** ** Registers *)
Definition typed (c : RegTypeCache) (i : nat) (v : Z) : Prop := in_u 32 v /\ gamma (GetFromId c i) v.

Lemma typed_extends c c' i v : extends c c' -> valid c i -> typed c i v -> typed c' i v.
Proof. intros He Hv [Hin Hg]. split; [done|]. by rewrite (get_extends c c'). Qed.
Lemma typed_list_extends c c' l frame :
  extends c c' -> Forall (valid c) l -> Forall2 (typed c) l frame -> Forall2 (typed c') l frame.
Proof.
  intros He Hl HF. induction HF as [|i v l frame Ht _ IH]; [constructor|]. apply Forall_cons in Hl as [Hi Hl].
  constructor; [by eapply typed_extends|auto].
Qed.
Lemma valid_list_extends c c' l : extends c c' -> Forall (valid c) l -> Forall (valid c') l.
Proof. intros He Hl. apply (Forall_impl _ _ _ Hl). intros i. by apply valid_extends. Qed.

(** What the loop over the registers promises. *)
Record merged (c : RegTypeCache) (cur inc : list nat) (changed : bool) (l : list nat) (ch : bool) (c' : RegTypeCache) : Prop := {
  m_cache : cache_ok c';
  m_extends : extends c c';
  m_size : (length (entries_ c') <= length (entries_ c) + 2 * length cur)%nat;
  m_valid : Forall (valid c') l;
  m_length : length l = length cur;
  m_covers : forall frame, Forall2 (typed c) cur frame \/ Forall2 (typed c) inc frame -> Forall2 (typed c') l frame;
  m_same : ch = false -> changed = false /\ l = cur
}.

(** One register. *)
Lemma merge_one c i j (changed : bool) :
  cache_ok c -> room c 2 -> valid c i -> valid c j ->
  exists k ch c',
    (if (i =? j)%nat then Some (i, changed, c)
     else match Merge H 2 c i j with
          | Some (k, c) => Some (stored_id k, changed || negb (Equals i k), c)
          | None => None
          end) = Some (k, ch, c')
    /\ merged c [i] [j] changed [k] ch c'.
Proof.
  intros Hc Hr Hi Hj. destruct (Nat.eqb_spec i j) as [->|Hne].
  { exists j, changed, c. split; [done|]. split; try done; [apply extends_refl|lia|by constructor|by intros frame []]. }
  destruct (Merge_sound H Hok cls Hheap 0 c i j Hc (room_fits _ _ Hr) Hi Hj Hne) as ([k c'] & E & (Hc' & He & Hv & [Ui Uj])).
  rewrite E. cbn in Hc', He, Hv, Ui, Uj.
  pose proof (grows_merge H 2 c i j _ E) as Hg. unfold grows in Hg. cbn [snd] in Hg.
  assert (fits c') as Hf by (unfold fits, room in *; lia).
  do 3 eexists. split; [done|]. split; try done; rewrite ?(stored_id_valid c' k Hf Hv).
  - by constructor.
  - intros frame Hfr. assert (exists v, frame = [v] /\ (typed c i v \/ typed c j v)) as (v & -> & Ht).
    { destruct Hfr as [HF|HF]; inversion HF as [|? v ? fr Ht HF']; subst; inversion HF'; subst; eauto. }
    constructor; [|constructor]. by destruct Ht as [[Hin Hg']|[Hin Hg']]; (split; [done|]); [apply Ui|apply Uj].
  - intros [-> Heq%negb_false_iff]%orb_false_iff. split; [done|]. f_equal. symmetry.
    apply (equals_spec c'); try done. by eapply valid_extends.
Qed.

Lemma merge_types_sound c cur inc changed :
  cache_ok c -> room c (2 * length cur) -> length cur = length inc -> Forall (valid c) cur -> Forall (valid c) inc ->
  exists l ch c', merge_types H c cur inc changed = Some (l, ch, c') /\ merged c cur inc changed l ch c'.
Proof.
  revert c inc changed. induction cur as [|i cur IH]; intros c inc changed Hc Hr Hlen Hcur Hinc.
  { destruct inc; [|done]. exists [], changed, c. split; [done|]. split; try done; [apply extends_refl|lia|by intros frame []]. }
  destruct inc as [|j inc]; [done|]. apply Forall_cons in Hcur as [Hi Hcur]. apply Forall_cons in Hinc as [Hj Hinc].
  cbn [length] in Hr. cbn [merge_types].
  destruct (merge_one c i j changed Hc) as (k & ch & c1 & E & M1); [unfold room in *; lia|done|done|].
  rewrite E. clear E. pose proof (m_size _ _ _ _ _ _ _ M1) as Hs1. pose proof (m_extends _ _ _ _ _ _ _ M1) as He1. cbn [length] in Hs1.
  destruct (IH c1 inc ch) as (l & ch2 & c2 & E & M2);
    [apply M1|unfold room in *; lia|by injection Hlen|by eapply valid_list_extends..|].
  rewrite E. do 3 eexists. split; [done|]. pose proof (m_size _ _ _ _ _ _ _ M2) as Hs2.
  pose proof (m_extends _ _ _ _ _ _ _ M2) as He2. pose proof (m_valid _ _ _ _ _ _ _ M1) as Hv1. apply Forall_cons in Hv1 as [Hv1 _]. split.
  - apply M2.
  - by eapply extends_trans.
  - cbn [length]. lia.
  - constructor; [by eapply valid_extends|apply M2].
  - cbn [length]. f_equal. apply M2.
  - intros frame Hfr.
    assert (exists v fr, frame = v :: fr /\ (typed c i v \/ typed c j v) /\ (Forall2 (typed c) cur fr \/ Forall2 (typed c) inc fr)) as (v & fr & -> & Hv & Hfr').
    { destruct Hfr as [HF|HF]; inversion HF; subst; eauto 10. }
    pose proof (m_covers _ _ _ _ _ _ _ M1 [v]) as C1.
    assert (Forall2 (typed c1) [k] [v]) as Hk by (apply C1; destruct Hv; [left|right]; (constructor; [done|constructor])).
    inversion Hk; subst. constructor; [by eapply typed_extends|].
    apply M2. destruct Hfr'; [left|right]; by eapply typed_list_extends.
  - intros E2. destruct (m_same _ _ _ _ _ _ _ M2 E2) as [E1 ->]. destruct (m_same _ _ _ _ _ _ _ M1 E1) as [E0 E3].
    split; [done|]. congruence.
Qed.

(** ** Frames and held monitors *)

(** The value of a register; the virtual register stands for null. *)
Definition reg_value (frame : list Z) (r : Z) : option Z :=
  if r =? kVirtualNullRegister then Some 0 else frame !! Z.to_nat r.

Record describes (c : RegTypeCache) (l : RegisterLine) (frame held : list Z) : Prop := {
  d_types : Forall2 (typed c) (line_ l) frame;
  d_depth : length held = MonitorStackDepth l;
  d_locks : forall r bits d, reg_to_lock_depths_ l !! r = Some bits -> Z.testbit bits (Z.of_nat d) = true ->
    is_Some (held !! d) /\ held !! d = reg_value frame r
}.

Record line_ok (c : RegTypeCache) (l : RegisterLine) : Prop := {
  l_types : Forall (valid c) (line_ l);
  l_result : valid c (fst (result_ l)) /\ valid c (snd (result_ l));
  l_regs : NumRegs l < 65536;
  l_keys : forall r bits, reg_to_lock_depths_ l !! r = Some bits -> 0 <= r < NumRegs l \/ r = kVirtualNullRegister
}.
(** No bit at or above the depth of the stack; [PopMonitor] breaks this when it reports an error. *)
Definition locks_ok (l : RegisterLine) : Prop :=
  forall r bits d, reg_to_lock_depths_ l !! r = Some bits -> Z.testbit bits (Z.of_nat d) = true ->
  (d < MonitorStackDepth l)%nat.

Lemma describes_locks_ok c l frame held : describes c l frame held -> locks_ok l.
Proof.
  intros D r bits d Hr Hb. destruct (d_locks _ _ _ _ D r bits d Hr Hb) as [Hs _].
  rewrite <- (d_depth _ _ _ _ D). by apply lookup_lt_is_Some.
Qed.
Lemma describes_reg c l frame held i v :
  describes c l frame held -> line_ l !! Z.to_nat v = Some i -> exists x, frame !! Z.to_nat v = Some x /\ typed c i x.
Proof. intros D Hi. destruct (Forall2_lookup_l _ _ _ _ _ (d_types _ _ _ _ D) Hi) as (x & Hx & Ht). eauto. Qed.

Lemma describes_size c c' l l' frame frame' held held' :
  length frame' = length frame -> describes c l frame held -> describes c' l' frame' held' -> NumRegs l' = NumRegs l.
Proof.
  intros Hlen D D'. unfold NumRegs. f_equal.
  by rewrite (Forall2_length _ _ _ (d_types _ _ _ _ D)), (Forall2_length _ _ _ (d_types _ _ _ _ D')).
Qed.

Lemma merge_depth_spec incoming idx m m' :
  merge_depth incoming idx m = Some m' ->
  (forall r, r <> idx -> m' !! r = m !! r)
  /\ (m' !! idx = None \/ (m' !! idx = m !! idx /\ m !! idx = incoming !! idx)).
Proof.
  unfold merge_depth.
  assert (forall x : bool, (if x then None else Some (delete idx m)) = Some m' ->
    (forall r, r <> idx -> m' !! r = m !! r) /\ (m' !! idx = None \/ (m' !! idx = m !! idx /\ m !! idx = incoming !! idx))) as Hdel.
  { intros [] [= <-]. split; [intros r Hr; by rewrite lookup_delete_ne|left; by rewrite lookup_delete_eq]. }
  destruct (m !! idx) as [a|] eqn:Em, (incoming !! idx) as [b|] eqn:Ei; try apply Hdel.
  - destruct (Z.eqb_spec a b) as [->|]; [|apply Hdel]. cbn [negb]. intros [= <-]. by rewrite Em; auto.
  - intros [= <-]. by rewrite Em; auto.
Qed.
Lemma merge_depths_spec incoming n idx m m' :
  merge_depths incoming n idx m = (m', []) ->
  forall r, (r < idx \/ idx + Z.of_nat n <= r -> m' !! r = m !! r)
  /\ (idx <= r < idx + Z.of_nat n -> m' !! r = None \/ (m' !! r = m !! r /\ m !! r = incoming !! r)).
Proof.
  revert idx m. induction n as [|n IH]; intros idx m E r.
  { injection E as <-. split; [done|lia]. }
  cbn [merge_depths] in E. destruct (merge_depth incoming idx m) as [m1|] eqn:E1; [|done].
  destruct (merge_depth_spec _ _ _ _ E1) as [Hne Heq]. destruct (IH _ _ E r) as [Hout Hin]. split.
  - intros Hr. rewrite Hout by lia. apply Hne. lia.
  - intros Hr. destruct (decide (r = idx)) as [->|Hd]; [rewrite Hout by lia; done|]. rewrite <- (Hne r) by done. apply Hin. lia.
Qed.

Lemma merge_depths_sub incoming n idx m m' e r bits :
  merge_depths incoming n idx m = (m', e) -> m' !! r = Some bits -> m !! r = Some bits.
Proof.
  revert idx m. induction n as [|n IH]; intros idx m E Hr; cbn [merge_depths] in E; [by injection E as <- _|].
  destruct (merge_depth incoming idx m) as [m1|] eqn:E1; [|by injection E as <- _].
  destruct (merge_depth_spec _ _ _ _ E1) as [Hne Heq]. pose proof (IH _ _ E Hr) as H1.
  destruct (decide (r = idx)) as [->|Hd]; [|by rewrite <- Hne]. destruct Heq as [?|[E2 _]]; congruence.
Qed.
Lemma merge_locks_sub l inc m' e r bits :
  merge_locks l inc = (m', e) -> m' !! r = Some bits -> reg_to_lock_depths_ l !! r = Some bits.
Proof.
  unfold merge_locks. destruct (_ || _); [|by intros [= <- _]]. destruct (negb _); [by intros [= <- _]|].
  destruct (negb _); [apply merge_depths_sub|by intros [= <- _]].
Qed.

Lemma merge_locks_spec c l inc m' :
  line_ok c l -> locks_ok l -> length (line_ l) = length (line_ inc) -> merge_locks l inc = (m', []) ->
  MonitorStackDepth l = MonitorStackDepth inc
  /\ forall r bits d, m' !! r = Some bits -> Z.testbit bits (Z.of_nat d) = true ->
     reg_to_lock_depths_ l !! r = Some bits /\ (r <> kVirtualNullRegister -> reg_to_lock_depths_ inc !! r = Some bits).
Proof.
  intros Hl Hlk Hlen E. unfold merge_locks in E.
  destruct (_ || _) eqn:Ed.
  - destruct (Nat.eqb_spec (MonitorStackDepth l) (MonitorStackDepth inc)) as [Heq|]; [|done]. split; [done|]. cbn [negb] in E.
    intros r bits d Hr Hb. destruct (bool_decide _) eqn:Eq; cbn [negb] in E.
    + apply bool_decide_eq_true in Eq. injection E as <-. by rewrite <- Eq.
    + pose proof (merge_depths_spec _ _ _ _ _ E r) as [Hout Hin].
      destruct (decide (0 <= r < 0 + Z.of_nat (length (line_ l)))) as [Hd|Hd].
      * destruct (Hin Hd) as [Hn|[E1 E2]]; [congruence|]. rewrite Hr in E1. by rewrite <- E2, <- E1.
      * rewrite Hout in Hr by lia. split; [done|]. destruct (l_keys _ _ Hl _ _ Hr); [unfold NumRegs in *; lia|done].
  - apply orb_false_iff in Ed as [E1%Nat.ltb_ge E2%Nat.ltb_ge]. split; [lia|].
    injection E as <-. intros r bits d Hr Hb. pose proof (Hlk r bits d Hr Hb). lia.
Qed.

(** The virtual null register is not merged. *)
Definition null_agrees (l inc : RegisterLine) : Prop :=
  reg_to_lock_depths_ l !! kVirtualNullRegister = None
  \/ reg_to_lock_depths_ l !! kVirtualNullRegister = reg_to_lock_depths_ inc !! kVirtualNullRegister.

Lemma merge_lines c l inc errs :
  cache_ok c -> line_ok c l -> line_ok c inc -> length (line_ l) = length (line_ inc) -> room c (2 * length (line_ l)) ->
  exists changed s', MergeRegisters H inc (mkLS c l errs) = Some (changed, s')
  /\ cache_ok (types s') /\ extends c (types s') /\ line_ok (types s') (line s')
  /\ length (line_ (line s')) = length (line_ l)
  /\ (length (entries_ (types s')) <= length (entries_ c) + 2 * length (line_ l))%nat
  /\ (changed = false -> line_ (line s') = line_ l /\ this_initialized_ (line s') = this_initialized_ l)
  /\ (forall frame held, errors s' = errs -> locks_ok l -> null_agrees l inc ->
      describes c l frame held \/ describes c inc frame held -> describes (types s') (line s') frame held).
Proof.
  intros Hc Hl Hi Hlen Hr. unfold MergeRegisters, sbind, sget, lift, smod, sret. cbn [types line errors].
  destruct (merge_types_sound c (line_ l) (line_ inc) false Hc Hr Hlen (l_types _ _ Hl) (l_types _ _ Hi)) as (regs & ch & c' & E & M).
  rewrite E. destruct (merge_locks l inc) as [m' errs'] eqn:El. do 2 eexists. split; [done|]. cbn [types line errors line_ this_initialized_].
  pose proof (m_extends _ _ _ _ _ _ _ M) as He. pose proof (m_length _ _ _ _ _ _ _ M) as Hlen'.
  split; [apply M|]. split; [done|]. split; [|split; [done|split; [apply M|split]]].
  - split; cbn [line_ result_ reg_to_lock_depths_]; [apply M|split; (eapply valid_extends; [done|apply Hl])|unfold NumRegs; cbn; rewrite Hlen'; apply Hl|].
    intros r bits Hb. unfold NumRegs. cbn [line_]. rewrite Hlen'. eapply (l_keys _ _ Hl). by eapply merge_locks_sub.
  - intros [-> Hth]%orb_false_iff. rewrite Hth. split; [by apply M|done].
  - intros frame held Herr Hlk Hnull HD. rewrite <- (app_nil_r errs) in Herr at 2. apply app_inv_head in Herr as ->.
    destruct (merge_locks_spec c l inc m' Hl Hlk Hlen El) as [Hdep Hbits]. split; cbn [line_ reg_to_lock_depths_].
    + apply M. destruct HD as [D|D]; [left|right]; apply D.
    + unfold MonitorStackDepth in *. cbn [monitors_]. destruct HD as [D|D]; rewrite (d_depth _ _ _ _ D); unfold MonitorStackDepth; congruence.
    + intros r bits d Hm Hb. destruct (Hbits r bits d Hm Hb) as [B1 B2]. destruct HD as [D|D]; apply (d_locks _ _ _ _ D r bits d); try done.
      destruct (decide (r = kVirtualNullRegister)) as [->|Hne]; [|auto]. destruct Hnull; congruence.
Qed.

(** ** Writing registers *)

Definition put_reg (v : Z) (t : nat) (l : RegisterLine) : RegisterLine :=
  set_depths (set_line l (<[Z.to_nat v := t]> (line_ l))) (delete v (reg_to_lock_depths_ l)).

(** A register that loses its lock depths may change. *)
Lemma put_reg_ok c l v t : line_ok c l -> valid c t -> line_ok c (put_reg v t l).
Proof.
  intros Hl Ht. split; cbn.
  - apply Forall_insert; [apply Hl|done].
  - apply Hl.
  - unfold NumRegs. cbn. rewrite length_insert. apply Hl.
  - intros r bits [_ Hr]%lookup_delete_Some. unfold NumRegs. cbn. rewrite length_insert. by eapply (l_keys _ _ Hl).
Qed.
Lemma put_reg_describes c l frame held v t x :
  line_ok c l -> 0 <= v -> typed c t x -> describes c l frame held ->
  describes c (put_reg v t l) (<[Z.to_nat v := x]> frame) held.
Proof.
  intros Hl Hv Ht D. split; cbn [line_ put_reg set_depths set_line reg_to_lock_depths_].
  - by apply Forall2_insert; [apply D|].
  - apply D.
  - intros r bits d [Hne Hr]%lookup_delete_Some Hb. destruct (d_locks _ _ _ _ D r bits d Hr Hb) as [Hs E].
    split; [done|]. rewrite E. unfold reg_value. destruct (Z.eqb_spec r kVirtualNullRegister); [done|].
    destruct (l_keys _ _ Hl _ _ Hr) as [?|]; [|done]. rewrite list_lookup_insert_ne; [done|lia].
Qed.

Lemma write_line_inv v t s s' :
  write_line v t s = Some (tt, s') ->
  (Z.to_nat v < length (line_ (line s)))%nat
  /\ s' = mkLS (types s) (set_line (line s) (<[Z.to_nat v := stored_id t]> (line_ (line s)))) (errors s).
Proof. unfold write_line. destruct (Nat.ltb_spec (Z.to_nat v) (length (line_ (line s)))); [|done]. by intros [= <-]. Qed.

Lemma SetRegisterType_inv v t s b s' :
  SetRegisterType kClear v t s = Some (b, s') ->
  if b then (Z.to_nat v < length (line_ (line s)))%nat
            /\ s' = mkLS (types s) (put_reg v (stored_id t) (line s)) (errors s)
  else s' = mkLS (types s) (line s) (errors s ++ [VERIFY_ERROR_BAD_CLASS_HARD]).
Proof.
  unfold SetRegisterType, sbind, deref, sget, sret. destruct (_ || _); [by intros [= <- <-]|].
  destruct (write_line v t s) as [[[] s1]|] eqn:E; [|done]. apply write_line_inv in E as [Hv ->].
  cbn. by intros [= <- <-].
Qed.
Lemma SetRegisterTypeWide_inv v t1 t2 s b s' :
  SetRegisterTypeWide v t1 t2 s = Some (b, s') ->
  if b then (Z.to_nat (v + 1) < length (line_ (line s)))%nat
            /\ CheckWidePair (GetFromId (types s) t1) (GetFromId (types s) t2) = true
            /\ s' = mkLS (types s) (put_reg (v + 1) (stored_id t2) (put_reg v (stored_id t1) (line s))) (errors s)
  else s' = mkLS (types s) (line s) (errors s ++ [VERIFY_ERROR_BAD_CLASS_SOFT]).
Proof.
  unfold SetRegisterTypeWide, sbind, deref, sget, sret. destruct (CheckWidePair _ _); [|by intros [= <- <-]]. cbn [negb].
  destruct (write_line v t1 s) as [[[] s1]|] eqn:E1; [|done]. apply write_line_inv in E1 as [Hv ->].
  destruct (write_line (v + 1) t2 _) as [[[] s2]|] eqn:E2; [|done]. apply write_line_inv in E2 as [Hv' ->].
  cbn in *. rewrite length_insert in Hv'. by intros [= <- <-].
Qed.

Lemma no_error (e : VerifyError) l : l ++ [e] = l -> False.
Proof. intros E. apply (f_equal length) in E. rewrite length_app in E. cbn in E. lia. Qed.

(** ** Copies *)
Lemma insert_lock m dst src r bits :
  CopyRegToLockDepth dst src (delete dst m) !! r = Some bits ->
  (r <> dst /\ m !! r = Some bits) \/ (r = dst /\ src <> dst /\ m !! src = Some bits).
Proof.
  unfold CopyRegToLockDepth. destruct (delete dst m !! src) as [b|] eqn:E.
  - apply lookup_delete_Some in E as [Hne E]. rewrite lookup_delete_eq.
    intros [[-> <-]|[Hr Hm]]%lookup_insert_Some; [by right|]. apply lookup_delete_Some in Hm as [_ Hm]. by left.
  - intros [Hr Hm]%lookup_delete_Some. by left.
Qed.

Lemma CopyRegister1_sound dst src cat s s' frame held x :
  CopyRegister1 dst src cat s = Some (tt, s') -> errors s' = errors s ->
  fits (types s) -> line_ok (types s) (line s) -> 0 <= dst -> 0 <= src < NumRegs (line s) ->
  describes (types s) (line s) frame held -> frame !! Z.to_nat src = Some x ->
  types s' = types s /\ line_ok (types s') (line s') /\ describes (types s') (line s') (<[Z.to_nat dst := x]> frame) held.
Proof.
  unfold CopyRegister1. intros E Herr Hf Hl Hdst Hsrc D Hx. unfold sbind at 1, GetRegisterType in E.
  destruct (line_ (line s) !! Z.to_nat src) as [i|] eqn:Ei; [|done].
  assert (typed (types s) i x) as Ht by (destruct (describes_reg _ _ _ _ _ _ D Ei) as (y & Hy & ?); congruence).
  assert (valid (types s) i) as Hv by (eapply Forall_lookup_1; [apply Hl|done]).
  unfold sbind at 1 in E. destruct (SetRegisterType kClear dst i s) as [[b s1]|] eqn:E1; [|done].
  apply SetRegisterType_inv in E1. destruct b; cbn [negb] in E.
  2: { injection E as <-. subst s1. by apply no_error in Herr. }
  destruct E1 as [Hd ->]. unfold sbind, deref, sget in E. cbn [types] in E. rewrite (stored_id_valid _ i Hf Hv) in E.
  pose proof (put_reg_ok _ _ dst i Hl Hv) as Hl'. pose proof (put_reg_describes _ _ _ _ dst i x Hl Hdst Ht D) as D'.
  destruct (_ && _); [injection E as <-; by apply no_error in Herr|].
  destruct (is_cat cat kTypeCategoryRef); [|by injection E as <-]. injection E as <-. cbn [types line]. split; [done|]. split; split.
  1-3: apply Hl'.
  - intros r bits Hr. cbn in Hr. unfold NumRegs. cbn. rewrite length_insert.
    apply insert_lock in Hr as [[_ Hr]|[-> _]]; [by eapply (l_keys _ _ Hl)|]. unfold NumRegs in *. lia.
  - apply D'.
  - apply D'.
  - intros r bits d Hr Hb. cbn in Hr. apply insert_lock in Hr as [[Hne Hr]|(-> & Hne & Hr)].
    + apply (d_locks _ _ _ _ D' r bits d); [|done]. cbn. by rewrite lookup_delete_ne.
    + destruct (d_locks _ _ _ _ D src bits d Hr Hb) as [Hs E]. split; [done|]. rewrite E. unfold reg_value.
      pose proof (l_regs _ _ Hl). unfold kVirtualNullRegister, NumRegs in *.
      rewrite (proj2 (Z.eqb_neq src _)), (proj2 (Z.eqb_neq dst _)) by lia.
      rewrite list_lookup_insert_eq; [done|]. apply lookup_lt_Some in Hx.
      rewrite <- (Forall2_length _ _ _ (d_types _ _ _ _ D)). lia.
Qed.

(** ** Monitors *)
Lemma is_set_spec r d m : IsSetLockDepth r d m = true <-> exists bits, m !! r = Some bits /\ Z.testbit bits (Z.of_nat d) = true.
Proof.
  unfold IsSetLockDepth. destruct (m !! r) as [bits|]; [|split; [done|by intros (? & ? & _)]].
  change (negb _) with (InstructionFlags.is_bit (Z.of_nat d) bits). rewrite InstructionFlags.is_bit_testbit by lia.
  split; [eauto|]. by intros (? & [= <-] & ?).
Qed.

Lemma set_depth_spec r depth m b m' :
  SetRegToLockDepth r depth m = Some (b, m') ->
  if b then forall r' bits d, m' !! r' = Some bits -> Z.testbit bits (Z.of_nat d) = true ->
              (exists bits', m !! r' = Some bits' /\ Z.testbit bits' (Z.of_nat d) = true) \/ (r' = r /\ d = depth)
  else m' = m.
Proof.
  unfold SetRegToLockDepth. destruct (negb _); [done|]. destruct (IsSetLockDepth r depth m); [by intros [= <- <-]|].
  intros [= <- <-] r' bits d Hr Hb. rewrite Z.shiftl_1_l in Hr.
  destruct (decide (r' = r)) as [->|Hne].
  - assert (bits = Z.lor (default 0 (m !! r)) (2 ^ Z.of_nat depth)) as ->.
    { destruct (m !! r) as [b|]; rewrite lookup_insert_eq in Hr; injection Hr as <-; [done|]. by rewrite Z.lor_0_l. }
    rewrite Z.lor_spec, Z.pow2_bits_eqb in Hb by lia. apply orb_prop in Hb as [Hb|Hb%Z.eqb_eq]; [|right; split; [done|lia]].
    left. destruct (m !! r) as [b|] eqn:E; [eauto|]. by rewrite Z.bits_0 in Hb.
  - left. exists bits. destruct (m !! r); by rewrite lookup_insert_ne in Hr by done.
Qed.
Lemma set_depth_keys r depth m b m' r' bits :
  SetRegToLockDepth r depth m = Some (b, m') -> m' !! r' = Some bits -> r' = r \/ is_Some (m !! r').
Proof.
  unfold SetRegToLockDepth. destruct (negb _); [done|]. destruct (IsSetLockDepth r depth m); [intros [= <- <-]; eauto|].
  intros [= <- <-] Hr. destruct (decide (r' = r)) as [->|Hne]; [by left|]. right.
  destruct (m !! r); rewrite lookup_insert_ne in Hr by done; eauto.
Qed.
Lemma clear_depth_spec r depth m m' :
  ClearRegToLockDepth r depth m = Some m' -> IsSetLockDepth r depth m = true ->
  forall r' bits d, m' !! r' = Some bits -> Z.testbit bits (Z.of_nat d) = true ->
  d <> depth /\ exists bits', m !! r' = Some bits' /\ Z.testbit bits' (Z.of_nat d) = true.
Proof.
  unfold ClearRegToLockDepth. destruct (negb _); [done|]. destruct (m !! r) as [b|] eqn:Er; [|done].
  intros [= <-] (b0 & Eb & Hbit)%is_set_spec r' bits d Hr Hb. rewrite Er in Eb. injection Eb as <-.
  rewrite lookup_fmap in Hr. rewrite Z.shiftl_1_l in Hr.
  set (m1 := if negb _ then _ else _) in Hr. destruct (m1 !! r') as [b1|] eqn:E1; [|done]. cbn in Hr. injection Hr as <-.
  rewrite <- (Z.shiftl_1_l (Z.of_nat depth)) in Hb at 1.
  change (negb (Z.land b1 (Z.shiftl 1 (Z.of_nat depth)) =? 0)) with (InstructionFlags.is_bit (Z.of_nat depth) b1) in Hb.
  rewrite InstructionFlags.is_bit_testbit in Hb by lia.
  assert (d <> depth /\ Z.testbit b1 (Z.of_nat d) = true) as [Hd Hb1].
  { destruct (Z.testbit b1 (Z.of_nat depth)) eqn:Ed.
    - rewrite Z.lxor_spec, Z.pow2_bits_eqb in Hb by lia. destruct (Z.eqb_spec (Z.of_nat depth) (Z.of_nat d)) as [Eq|Eq].
      + rewrite <- Eq, Ed in Hb. done.
      + rewrite xorb_false_r in Hb. split; [lia|done].
    - split; [intros ->; congruence|done]. }
  split; [done|]. unfold m1 in E1. destruct (negb _).
  - apply lookup_insert_Some in E1 as [[<- <-]|[_ E1]]; [|eauto]. exists b. split; [done|].
    rewrite Z.lxor_spec, Z.pow2_bits_eqb in Hb1 by lia. rewrite (proj2 (Z.eqb_neq _ _)) in Hb1 by lia. by rewrite xorb_false_r in Hb1.
  - apply lookup_delete_Some in E1 as [_ E1]. eauto.
Qed.
Lemma clear_depth_keys r depth m m' r' bits :
  ClearRegToLockDepth r depth m = Some m' -> m' !! r' = Some bits -> is_Some (m !! r').
Proof.
  unfold ClearRegToLockDepth. destruct (negb _); [done|]. destruct (m !! r) as [b|] eqn:Er; [|done].
  intros [= <-] Hr. rewrite lookup_fmap in Hr. apply fmap_Some in Hr as (b1 & E1 & _). destruct (negb _).
  - apply lookup_insert_Some in E1 as [[<- _]|[_ E1]]; eauto.
  - apply lookup_delete_Some in E1 as [_ E1]. eauto.
Qed.

Lemma zero_register c i x : IsZero (GetFromId c i) = true -> typed c i x -> x = 0.
Proof.
  intros [Hp Hz%Z.eqb_eq]%andb_prop [Hin Hg]. destruct (GetFromId c i); try done. cbn in Hz, Hg. subst. by apply zero_value.
Qed.

(** Accepted [monitor-enter]: the object is the new top of the stack. *)
Lemma PushMonitor_sound r pc s s' frame held x :
  PushMonitor r pc s = Some (tt, s') -> errors s' = errors s -> line_ok (types s) (line s) -> 0 <= r < NumRegs (line s) ->
  describes (types s) (line s) frame held -> frame !! Z.to_nat r = Some x ->
  types s' = types s /\ line_ok (types s') (line s') /\ describes (types s') (line s') frame (held ++ [x]).
Proof.
  unfold PushMonitor, GetRegisterType, deref, sget, sbind. intros E Herr Hl Hr D Hx.
  destruct (line_ (line s) !! Z.to_nat r) as [i|] eqn:Ei; [|done].
  assert (typed (types s) i x) as Ht by (destruct (describes_reg _ _ _ _ _ _ D Ei) as (y & Hy & ?); congruence).
  destruct (negb _); [injection E as <-; by apply no_error in Herr|].
  destruct (32 <=? _)%nat; [injection E as <-; by apply no_error in Herr|].
  destruct (SetRegToLockDepth r _ _) as [[b m]|] eqn:E1; [|done]. cbn [lift fst snd] in E.
  destruct b; [|injection E as <-; by apply no_error in Herr].
  pose proof (set_depth_spec _ _ _ _ _ E1) as S1. pose proof (fun r' bits => set_depth_keys _ _ _ _ _ r' bits E1) as K1.
  set (null := if IsZero _ then _ else _) in E.
  assert (exists m2, s' = mkLS (types s) (set_monitors (set_depths (line s) m2) (monitors_ (line s) ++ [u32 pc])) (errors s)
    /\ forall r' bits, m2 !! r' = Some bits -> (r' = r \/ r' = kVirtualNullRegister \/ is_Some (reg_to_lock_depths_ (line s) !! r'))
       /\ forall d, Z.testbit bits (Z.of_nat d) = true ->
          (exists bits', reg_to_lock_depths_ (line s) !! r' = Some bits' /\ Z.testbit bits' (Z.of_nat d) = true)
          \/ (d = MonitorStackDepth (line s) /\ reg_value frame r' = Some x)) as (m2 & -> & Hm2).
  { assert (reg_value frame r = Some x) as Hrv.
    { unfold reg_value, kVirtualNullRegister. pose proof (l_regs _ _ Hl). unfold NumRegs in *. by rewrite (proj2 (Z.eqb_neq _ _)) by lia. }
    subst null. destruct (IsZero (GetFromId (types s) i)) eqn:Ez; cbn in E.
    - destruct (SetRegToLockDepth kVirtualNullRegister _ m) as [[b2 m2]|] eqn:E2; [|done]. injection E as <-. exists m2. split; [done|].
      pose proof (set_depth_spec _ _ _ _ _ E2) as S2. intros r' bits Hb. split.
      + destruct (set_depth_keys _ _ _ _ _ _ _ E2 Hb) as [->|[b' Hb']]; [by right; left|]. destruct (K1 _ _ Hb'); auto.
      + intros d Hd. assert ((exists bits', m !! r' = Some bits' /\ Z.testbit bits' (Z.of_nat d) = true)
          \/ (r' = kVirtualNullRegister /\ d = MonitorStackDepth (line s))) as [(b' & Hb' & Hd')|[-> ->]].
        { destruct b2; [eauto|subst; eauto]. }
        * destruct (S1 _ _ _ Hb' Hd') as [|[-> ->]]; eauto.
        * right. split; [done|]. unfold reg_value. rewrite Z.eqb_refl. f_equal. symmetry. by eapply zero_register.
    - injection E as <-. exists m. split; [done|]. intros r' bits Hb. split; [destruct (K1 _ _ Hb); auto|].
      intros d Hd. destruct (S1 _ _ _ Hb Hd) as [|[-> ->]]; eauto. }
  cbn [types line]. split; [done|]. split; split; cbn.
  1-3: apply Hl.
  - intros r' bits Hb. destruct (Hm2 _ _ Hb) as [[->|[->|[b' Hb']]] _]; [by left|by right|by eapply (l_keys _ _ Hl)].
  - apply D.
  - unfold MonitorStackDepth. cbn. rewrite !length_app, (d_depth _ _ _ _ D). done.
  - intros r' bits d Hb Hd. destruct (Hm2 _ _ Hb) as [_ Hb2]. destruct (Hb2 d Hd) as [(b' & Hb' & Hd')|[-> Hrv]].
    + destruct (d_locks _ _ _ _ D r' b' d Hb' Hd') as [[y Hy] E2]. rewrite lookup_app_l by (by eapply lookup_lt_Some). eauto.
    + rewrite <- (d_depth _ _ _ _ D), lookup_app_r, Nat.sub_diag by done. split; [by eexists|done].
Qed.

(** Accepted [monitor-exit]: the object is the top of the stack. *)
Lemma PopMonitor_sound r s s' frame held x :
  PopMonitor r s = Some (tt, s') -> errors s' = errors s -> line_ok (types s) (line s) -> 0 <= r < NumRegs (line s) ->
  describes (types s) (line s) frame held -> frame !! Z.to_nat r = Some x ->
  exists held', held = held' ++ [x]
  /\ types s' = types s /\ line_ok (types s') (line s') /\ describes (types s') (line s') frame held'.
Proof.
  unfold PopMonitor, GetRegisterType, deref, sget, sbind. intros E Herr Hl Hr D Hx.
  destruct (line_ (line s) !! Z.to_nat r) as [i|] eqn:Ei; [|done].
  assert (typed (types s) i x) as Ht by (destruct (describes_reg _ _ _ _ _ _ D Ei) as (y & Hy & ?); congruence).
  destruct (negb _); [injection E as <-; by apply no_error in Herr|].
  destruct (Nat.eqb_spec (MonitorStackDepth (line s)) 0) as [|Hd0]; [injection E as <-; by apply no_error in Herr|].
  set (depth := (MonitorStackDepth (line s) - 1)%nat) in *. cbn [modify smod] in E.
  set (locks := reg_to_lock_depths_ (line s)) in *.
  set (r1 := if negb (IsSetLockDepth r depth locks) && _ && _ then kVirtualNullRegister else r) in E.
  destruct (negb (_ || _)) eqn:Eok; [injection E as <-; by apply no_error in Herr|].
  destruct (ClearRegToLockDepth r1 depth locks) as [m|] eqn:Ec; [|done]. cbn in E. injection E as <-.
  assert (IsSetLockDepth r1 depth locks = true /\ reg_value frame r1 = Some x) as [Hset Hrv].
  { assert (reg_value frame r = Some x) as Hrv.
    { unfold reg_value, kVirtualNullRegister. pose proof (l_regs _ _ Hl). unfold NumRegs in *. by rewrite (proj2 (Z.eqb_neq _ _)) by lia. }
    unfold r1. apply negb_false_iff in Eok. destruct (IsSetLockDepth r depth locks) eqn:Es; [done|]. cbn [negb andb orb] in *.
    rewrite Eok. apply andb_prop in Eok as [Hz Hs]. split; [done|]. unfold reg_value. rewrite Z.eqb_refl. f_equal. symmetry.
    by eapply zero_register. }
  assert (held !! depth = Some x) as Htop.
  { apply is_set_spec in Hset as (bits & Hb & Hd). destruct (d_locks _ _ _ _ D _ _ _ Hb Hd) as [_ ->]. done. }
  assert (length held = S depth) as Hlen by (rewrite (d_depth _ _ _ _ D); lia).
  exists (take depth held). split.
  { rewrite <- (take_drop depth held) at 1. f_equal. rewrite (drop_S held x depth Htop). f_equal. apply drop_ge. lia. }
  cbn [types line]. split; [done|]. split; split; cbn.
  1-3: apply Hl.
  - intros r' bits Hb. destruct (clear_depth_keys _ _ _ _ _ _ Ec Hb) as [b' Hb']. by eapply (l_keys _ _ Hl).
  - apply D.
  - unfold MonitorStackDepth. cbn. rewrite !length_take, Hlen. fold depth. unfold MonitorStackDepth in Hd0, depth. lia.
  - intros r' bits d Hb Hd. destruct (clear_depth_spec _ _ _ _ Ec Hset _ _ _ Hb Hd) as [Hne (b' & Hb' & Hd')].
    destruct (d_locks _ _ _ _ D r' b' d Hb' Hd') as [[y Hy] E2].
    assert (d < length held)%nat by (by eapply lookup_lt_Some). rewrite lookup_take_lt by lia. eauto.
Qed.
End Lines.
