(* ===== verification/RegisterLineTheorems.v ===== *)
(** * Register lines: merging and structured locking

    Merging two lines loses no frame of either, and the lock depths of a line make every accepted
    [monitor-exit] release the monitor that was entered last. *)

From stdpp Require Import strings.
From S2P Require Import Prelude DexInstruction VerifierStatic InterpreterBase ClassHierarchy.
From S2P Require Import RegTypes RegTypeProofs RegTypeTheorems RegisterLine RegisterLineProofs.
#[local] Open Scope sm_scope.

(** ** Merging *)


(** ** Locking *)

(** The instructions that matter to lock depths; [Overwrite] stands for any that writes a value of
    type [t] to a register. *)
Inductive lock_insn :=
| MonitorEnter (r pc : Z) | MonitorExit (r : Z) | MoveObject (dst src : Z) | Overwrite (dst : Z) (t : nat) (x : Z).

Definition verify_insn (i : lock_insn) : LM unit :=
  match i with
  | MonitorEnter r pc => PushMonitor r pc
  | MonitorExit r => PopMonitor r
  | MoveObject dst src => CopyRegister1 dst src kTypeCategoryRef
  | Overwrite dst t _ => SetRegisterType kClear dst t ;; sret tt
  end.
Fixpoint verify_insns (l : list lock_insn) : LM unit :=
  match l with [] => sret tt | i :: l => verify_insn i ;; verify_insns l end.

(** What they do at run time: a null reference throws; leaving a monitor that is not the one
    entered last is an unstructured exit. *)
Inductive lock_result := Held (frame held : list Z) | Throws | Unstructured.
Definition exec_insn (i : lock_insn) (frame held : list Z) : lock_result :=
  match i with
  | MonitorEnter r _ => let v := rd frame r in if v =? 0 then Throws else Held frame (held ++ [v])
  | MonitorExit r =>
      let v := rd frame r in
      if v =? 0 then Throws
      else if bool_decide (last held = Some v) then Held frame (removelast held) else Unstructured
  | MoveObject dst src => Held (wr frame dst (rd frame src)) held
  | Overwrite dst _ x => Held (wr frame dst x) held
  end.
Fixpoint exec_insns (l : list lock_insn) (frame held : list Z) : lock_result :=
  match l with
  | [] => Held frame held
  | i :: l => match exec_insn i frame held with Held frame held => exec_insns l frame held | r => r end
  end.

Section Locking.
Context (H : hierarchy) (cls : Z -> option Class) (c : RegTypeCache).
Context (Hc : cache_ok H c) (Hfits : fits c) (n : Z).

Definition insn_ok (i : lock_insn) : Prop :=
  match i with
  | MonitorEnter r _ | MonitorExit r => 0 <= r < n
  | MoveObject dst src => 0 <= dst < n /\ 0 <= src < n
  | Overwrite dst t x => 0 <= dst < n /\ valid c t /\ typed H cls c t x
  end.

(** The line and the run agree. *)
Definition agrees (l : RegisterLine) (frame held : list Z) : Prop :=
  line_ok c l /\ NumRegs l = n /\ describes H cls c l frame held.

Lemma agrees_reg l frame held r : agrees l frame held -> 0 <= r < n -> frame !! Z.to_nat r = Some (rd frame r).
Proof.
  intros (Hl & Hn & D) Hr. destruct (lookup_lt_is_Some_2 frame (Z.to_nat r)) as [x Hx].
  - rewrite <- (Forall2_length _ _ _ (d_types _ _ _ _ _ _ D)). unfold NumRegs in Hn. lia.
  - by rewrite rd_lookup, Hx.
Qed.
(** The operations only append to the errors. *)
Lemma verify_insn_errors i s s' : verify_insn i s = Some (tt, s') -> exists e, errors s' = errors s ++ e.
Proof.
  assert (forall dst t b s1, SetRegisterType kClear dst t s = Some (b, s1) -> exists e, errors s1 = errors s ++ e) as Hset.
  { intros dst t b s1 E. apply SetRegisterType_inv in E. destruct b; [destruct E as [_ ->]; exists []; by rewrite app_nil_r|].
    subst s1. by eexists. }
  destruct i as [r pc|r|dst src|dst t x]; cbn [verify_insn].
  - unfold PushMonitor, GetRegisterType, deref, sget, sbind, lift, Fail, modify, smod, sret. intros E. repeat (case_match; try done); simplify_eq;
      cbn; eauto; exists []; by rewrite app_nil_r.
  - unfold PopMonitor, GetRegisterType, deref, sget, sbind, lift, Fail, modify, smod, sret. intros E. repeat (case_match; try done); simplify_eq;
      cbn; eauto; exists []; by rewrite app_nil_r.
  - unfold CopyRegister1. unfold sbind at 1, GetRegisterType.
    destruct (line_ (line s) !! Z.to_nat src) as [t|]; [|done].
    unfold sbind at 1. destruct (SetRegisterType kClear dst t s) as [[b s1]|] eqn:E1; [|done]. apply Hset in E1 as [e E1].
    intros E. unfold sbind, deref, sget, Fail, modify_depths, modify, smod, sret in E. repeat (case_match; try done); simplify_eq; cbn; rewrite E1; eauto.
    rewrite <- app_assoc. eauto.
  - unfold sbind at 1. destruct (SetRegisterType kClear dst t s) as [[b s1]|] eqn:E1; [|done]. intros [= <-]. by apply Hset in E1.
Qed.

Lemma verify_insns_errors l s s' : verify_insns l s = Some (tt, s') -> exists e, errors s' = errors s ++ e.
Proof.
  revert s. induction l as [|i l IH]; intros s E; [injection E as <-; exists []; by rewrite app_nil_r|].
  cbn in E. unfold sbind in E. destruct (verify_insn i s) as [[[] s1]|] eqn:E1; [|done].
  apply verify_insn_errors in E1 as [e1 E1]. apply IH in E as [e2 E2]. exists (e1 ++ e2). by rewrite E2, E1, app_assoc.
Qed.

(** One instruction. *)
Lemma locking_step i s s' frame held :
  verify_insn i s = Some (tt, s') -> errors s' = errors s -> types s = c -> insn_ok i -> agrees (line s) frame held ->
  types s' = c /\ match exec_insn i frame held with
                 | Held frame' held' => agrees (line s') frame' held'
                 | Throws => True
                 | Unstructured => False
                 end.
Proof.
  intros E Herr Ht Hi Ha. pose proof Ha as (Hl & Hn & D). rewrite <- Ht in Hl, D.
  pose proof (fun r => agrees_reg _ _ _ r Ha) as Hreg.
  assert (forall frame' held', length frame' = length frame -> describes H cls c (line s') frame' held' -> NumRegs (line s') = n) as Hsize.
  { intros frame' held' Hlen D'. rewrite <- Hn. exact (describes_size _ _ _ _ _ _ _ _ _ _ Hlen D D'). }
  destruct i as [r pc|r|dst src|dst t x]; cbn [insn_ok verify_insn exec_insn] in *.
  - destruct (PushMonitor_sound H cls r pc s s' frame held (rd frame r)) as (Et & Hl' & D'); try done; [lia|by apply Hreg|].
    rewrite Et, Ht in Hl', D'. split; [congruence|]. cbv zeta. destruct (rd frame r =? 0); [done|]. split; [done|]. split; [by eapply Hsize|done].
  - destruct (PopMonitor_sound H cls r s s' frame held (rd frame r)) as (held' & -> & Et & Hl' & D'); try done; [lia|by apply Hreg|].
    rewrite Et, Ht in Hl', D'. split; [congruence|]. cbv zeta. destruct (rd frame r =? 0); [done|].
    rewrite last_snoc, bool_decide_true by done. rewrite removelast_last. split; [done|]. split; [by eapply Hsize|done].
  - destruct Hi as [Hd Hs].
    destruct (CopyRegister1_sound H cls dst src kTypeCategoryRef s s' frame held (rd frame src)) as (Et & Hl' & D'); try done; [by rewrite Ht|lia|lia|by apply Hreg|].
    rewrite Et, Ht in Hl', D'. split; [congruence|]. split; [done|]. split; [|done].
    eapply Hsize; [|exact D']. apply length_insert.
  - destruct Hi as (Hd & Hv & Hx). unfold sbind in E. destruct (SetRegisterType kClear dst t s) as [[b s1]|] eqn:E1; [|done].
    injection E as <-. apply SetRegisterType_inv in E1. destruct b; [|subst s1; by apply no_error in Herr].
    destruct E1 as [_ ->]. cbn [types line]. split; [done|]. rewrite (stored_id_valid c t Hfits Hv). rewrite Ht in Hl, D.
    split; [by apply put_reg_ok|]. split; [unfold NumRegs; cbn; by rewrite length_insert|].
    unfold wr. apply put_reg_describes; [done|lia|done|done].
Qed.

End Locking.

(** ** Concrete lines *)

(** Two instances of [B]. *)
Definition two_objects (v : Z) : option Class := if (v =? 1) || (v =? 2) then Some (Named 3) else None.
Lemma two_objects_ok : heap_ok sample_hierarchy two_objects.
Proof.
  intros v k. unfold two_objects. destruct (Z.eqb_spec v 1) as [->|]; [|destruct (Z.eqb_spec v 2) as [->|]; [|done]];
    intros [= <-]; (split; [done|]; split; [by eexists|done]).
Qed.
(** Type 18 of the sample cache is [B]. *)
Lemma object_typed v : two_objects v = Some (Named 3) -> in_u 32 v -> typed sample_hierarchy two_objects sample_cache 18 v.
Proof. intros Hv Hin. split; [done|]. right. exists (Named 3). split; [done|]. right. by vm_compute. Qed.

(** Two registers, the depths [m] of the monitor entered at 5. *)
Definition locked_line (ts : list nat) (m : gmap Z Z) : RegisterLine := mkLine (Undefined, Undefined) [5] m false ts.

Lemma locked_line_ok ts m :
  (length ts <= 2)%nat -> Forall (fun i => i < 20)%nat ts ->
  (forall r bits, m !! r = Some bits -> 0 <= r < Z.of_nat (length ts) \/ r = kVirtualNullRegister) ->
  line_ok sample_cache (locked_line ts m).
Proof.
  intros Hlen Hts Hm. split; [|split; apply sample_valid; vm_compute; lia|unfold NumRegs; cbn; lia|done].
  apply (Forall_impl _ _ _ Hts). intros i. apply sample_valid.
Qed.
Lemma no_lock (r bits : Z) : (∅ : gmap Z Z) !! r = Some bits -> False.
Proof. by rewrite lookup_empty. Qed.
(** The depths of one register. *)
Lemma one_lock (r0 r bits : Z) (d : nat) :
  ({[r0 := 1]} : gmap Z Z) !! r = Some bits -> Z.testbit bits (Z.of_nat d) = true -> r = r0 /\ d = 0%nat.
Proof.
  intros [<- <-]%lookup_singleton_Some Hb. split; [done|]. destruct d; [done|].
  change 1 with (2 ^ 0) in Hb. rewrite Z.pow2_bits_eqb in Hb by lia. apply Z.eqb_eq in Hb. lia.
Qed.



(** ** What merging forgets *)

(** C36. [MergeRegisters] drops the lock depth of an alias without reporting a change.  The second
    path reaches the merge with another object in [v0]; the merged line is not verified again, so
    the [monitor-exit v0] that the first line justified stays accepted, although the second line
    describes a frame where [v0] is not the object entered, and the merged line would reject it. *)
Theorem merge_drops_alias :
  let l := locked_line [18%nat; 18%nat] {[0 := 1; 1 := 1]} in
  let inc := locked_line [18%nat; 18%nat] {[1 := 1]} in
  describes sample_hierarchy two_objects sample_cache inc [2; 1] [1]
  /\ match PopMonitor 0 (mkLS sample_cache l []) with Some (_, s) => errors s = [] | None => False end
  /\ match MergeRegisters sample_hierarchy inc (mkLS sample_cache l []) with
     | Some (changed, s') =>
         changed = false /\ errors s' = []
         /\ match PopMonitor 0 s' with Some (_, s) => errors s = [VERIFY_ERROR_LOCKING] | None => False end
     | None => False
     end.
Proof.
  split; [|by vm_compute]. split; [|done|].
  - constructor; [by apply object_typed|]. constructor; [by apply object_typed|constructor].
  - intros r bits d Hr Hb. destruct (one_lock 1 r bits d Hr Hb) as [-> ->]. split; [by eexists|done].
Qed.

(** The virtual null register is not merged: after one path that enters the monitor of a null
    constant (and throws at run time) and one that enters the monitor of an object, the merged line
    accepts [monitor-exit] on null, and the object stays locked. *)
Theorem merge_keeps_null :
  let l := locked_line [Zero; 18%nat] {[0 := 1; kVirtualNullRegister := 1]} in
  let inc := locked_line [Zero; 18%nat] {[1 := 1]} in
  describes sample_hierarchy two_objects sample_cache inc [0; 1] [1]
  /\ match MergeRegisters sample_hierarchy inc (mkLS sample_cache l []) with
     | Some (_, s') =>
         errors s' = []
         /\ match PopMonitor 0 s' with Some (_, s) => errors s = [] /\ monitors_ (line s) = [] | None => False end
     | None => False
     end.
Proof.
  split; [|by vm_compute]. split; [|done|].
  - constructor; [by split|]. constructor; [by apply object_typed|constructor].
  - intros r bits d Hr Hb. destruct (one_lock 1 r bits d Hr Hb) as [-> ->]. split; [by eexists|done].
Qed.
