(* ===== verification/CodeFlowState.v ===== *)
(** * The state of the code-flow pass

    The second pass of runtime/verifier/method_verifier.cc: its environment, its state, [Fail], and
    the resolution of types, of the declaring class and of the return type.

    What the pass asks of the class linker, of the dex file and of methods and fields is the class
    [VerifierServices]; the method under verification is a [MethodContext].  The dex cache is part
    of the state, because the pass fills it.  A [const RegType&] is the index of a type in the
    cache.  [kIsDebugBuild] is false, as in a release build. *)

From Stdlib Require Import Ascii.
From stdpp Require Import strings.
From S2P Require Import Prelude DexOpcodes DexInstruction VerifierStatic InterpreterBase ClassHierarchy.
From S2P Require Import RegTypes RegisterLine.
Import InstructionFlags.
#[local] Open Scope sm_scope.

(** ** Methods, fields and access *)
Definition kAccPrivate : Z := 0x0002.
Definition kAccProtected : Z := 0x0004.
Definition kAccStatic : Z := 0x0008.
Definition kAccConstructor : Z := 0x00010000.
Definition kAccMiranda : Z := 0x00200000.

Record ArtMethod := mkArtMethod {
  m_declaring_class : Class;
  m_access_flags : Z;
  m_method_index : Z;
  (** [GetReturnType], which may not resolve. *)
  m_return_class : option Class;
  m_return_descriptor : string;
  (** The descriptors of the parameters; null where one is missing. *)
  m_params : list (option string)
}.
Definition MethodIsPrivate (m : ArtMethod) : bool := has_flag (m_access_flags m) kAccPrivate.
Definition MethodIsStatic (m : ArtMethod) : bool := has_flag (m_access_flags m) kAccStatic.
Definition MethodIsConstructor (m : ArtMethod) : bool := has_flag (m_access_flags m) kAccConstructor.
Definition IsClassInitializer (m : ArtMethod) : bool := MethodIsConstructor m && MethodIsStatic m.
Definition IsDirect (m : ArtMethod) : bool :=
  has_flag (m_access_flags m) (Z.lor (Z.lor kAccStatic kAccPrivate) kAccConstructor).
Definition IsMiranda (m : ArtMethod) : bool := has_flag (m_access_flags m) kAccMiranda.

Record ArtField := mkArtField {
  f_declaring_class : Class;
  f_access_flags : Z;
  f_type_class : option Class;
  f_type_descriptor : string
}.
Definition FieldIsStatic (f : ArtField) : bool := has_flag (f_access_flags f) kAccStatic.
Definition FieldIsFinal (f : ArtField) : bool := has_flag (f_access_flags f) kAccFinal.

Inductive MethodType := METHOD_STATIC | METHOD_DIRECT | METHOD_VIRTUAL | METHOD_SUPER | METHOD_INTERFACE.
#[global] Instance MethodType_eq_dec : EqDecision MethodType.
Proof. solve_decision. Defined.

Class VerifierServices := {
  hier : hierarchy;
  (** The class linker, and the loader of the verified class. *)
  ResolveClassIn : Z -> string -> option Class;
  class_loader_ : Z;
  ResolveType : Z -> option Class;
  IsValidDescriptor : string -> bool;
  IsErroneous : Class -> bool;
  GetClassLoader : Class -> Z;
  java_lang_Throwable : Class;
  java_lang_String : Class;
  java_lang_Class : Class;
  FindDirectMethod : Class -> Z -> option ArtMethod;
  FindVirtualMethod : Class -> Z -> option ArtMethod;
  FindInterfaceMethod : Class -> Z -> option ArtMethod;
  ResolveFieldJLS : Z -> option ArtField;
  (** The virtual method table of a class; no entry when reading it leaves an exception. *)
  HasVTable : Class -> bool;
  GetVTableLength : Class -> Z;
  GetVTableEntry : Class -> Z -> option ArtMethod;
  FindInstanceFieldWithOffset : Class -> Z -> option ArtField;
  instance_fields : Class -> list ArtField;
  (** The dex file. *)
  descriptor_by_type_idx : Z -> string;
  method_class_idx : Z -> Z;
  GetMethodName : Z -> string;
  method_param_descriptors : Z -> list (option string);
  method_param_types : Z -> list Z;
  method_return_descriptor : Z -> string;
  field_class_idx : Z -> Z;
  GetFieldTypeDescriptor : Z -> string;
  GetVersion : Z
}.

Definition ResolveClass `{VS : VerifierServices} : string -> option Class := ResolveClassIn class_loader_.

Record MethodContext := mkContext {
  code_item_ : CodeItem;
  outs_size_ : Z;
  dex_method_idx_ : Z;
  class_def_idx : Z;
  (** Member index and access flags of the instance fields in the class data. *)
  class_def_fields : list (Z * Z);
  method_access_flags_ : Z;
  is_constructor_ : bool;
  mirror_method_ : option ArtMethod;
  (** Type index and address of the handlers at a position, and of all handler lists. *)
  handlers_of : Z -> list (Z * Z);
  handler_lists : list (list (Z * Z));
  is_aot : bool;
  can_load_classes_ : bool;
  allow_soft_failures_ : bool;
  need_precise_constants_ : bool;
  interesting_dex_pc_ : Z
}.
Definition IsConstructor (x : MethodContext) : bool := is_constructor_ x.
Definition IsStatic (x : MethodContext) : bool := has_flag (method_access_flags_ x) kAccStatic.
Definition IsInstanceConstructor (x : MethodContext) : bool := IsConstructor x && negb (IsStatic x).

(** ** The state *)
Record vstate := mkV {
  base : Verifier;
  reg_types_ : RegTypeCache;
  work_insn_idx_ : Z;
  work_line_ : RegisterLine;
  saved_line_ : RegisterLine;
  reg_table_ : list (option RegisterLine);
  resolved_types : gmap Z Class;
  resolved_methods : gmap Z ArtMethod;
  declaring_class_ : option nat;
  return_type_ : option nat;
  have_any_pending_runtime_throw_failure_ : bool;
  monitor_enter_dex_pcs_ : option (list Z)
}.
Abbreviation CM := (SM vstate).

Definition set_base (v : vstate) (b : Verifier) : vstate :=
  mkV b (reg_types_ v) (work_insn_idx_ v) (work_line_ v) (saved_line_ v) (reg_table_ v) (resolved_types v)
    (resolved_methods v) (declaring_class_ v) (return_type_ v) (have_any_pending_runtime_throw_failure_ v)
    (monitor_enter_dex_pcs_ v).
Definition set_types (v : vstate) (c : RegTypeCache) : vstate :=
  mkV (base v) c (work_insn_idx_ v) (work_line_ v) (saved_line_ v) (reg_table_ v) (resolved_types v)
    (resolved_methods v) (declaring_class_ v) (return_type_ v) (have_any_pending_runtime_throw_failure_ v)
    (monitor_enter_dex_pcs_ v).
Definition set_work_idx (v : vstate) (i : Z) : vstate :=
  mkV (base v) (reg_types_ v) i (work_line_ v) (saved_line_ v) (reg_table_ v) (resolved_types v)
    (resolved_methods v) (declaring_class_ v) (return_type_ v) (have_any_pending_runtime_throw_failure_ v)
    (monitor_enter_dex_pcs_ v).
Definition set_work (v : vstate) (l : RegisterLine) : vstate :=
  mkV (base v) (reg_types_ v) (work_insn_idx_ v) l (saved_line_ v) (reg_table_ v) (resolved_types v)
    (resolved_methods v) (declaring_class_ v) (return_type_ v) (have_any_pending_runtime_throw_failure_ v)
    (monitor_enter_dex_pcs_ v).
Definition set_saved (v : vstate) (l : RegisterLine) : vstate :=
  mkV (base v) (reg_types_ v) (work_insn_idx_ v) (work_line_ v) l (reg_table_ v) (resolved_types v)
    (resolved_methods v) (declaring_class_ v) (return_type_ v) (have_any_pending_runtime_throw_failure_ v)
    (monitor_enter_dex_pcs_ v).
Definition set_table (v : vstate) (t : list (option RegisterLine)) : vstate :=
  mkV (base v) (reg_types_ v) (work_insn_idx_ v) (work_line_ v) (saved_line_ v) t (resolved_types v)
    (resolved_methods v) (declaring_class_ v) (return_type_ v) (have_any_pending_runtime_throw_failure_ v)
    (monitor_enter_dex_pcs_ v).
Definition set_resolved (v : vstate) (t : gmap Z Class) (m : gmap Z ArtMethod) : vstate :=
  mkV (base v) (reg_types_ v) (work_insn_idx_ v) (work_line_ v) (saved_line_ v) (reg_table_ v) t m
    (declaring_class_ v) (return_type_ v) (have_any_pending_runtime_throw_failure_ v) (monitor_enter_dex_pcs_ v).
Definition set_cached (v : vstate) (declaring return_type : option nat) : vstate :=
  mkV (base v) (reg_types_ v) (work_insn_idx_ v) (work_line_ v) (saved_line_ v) (reg_table_ v) (resolved_types v)
    (resolved_methods v) declaring return_type (have_any_pending_runtime_throw_failure_ v) (monitor_enter_dex_pcs_ v).
Definition set_any_throw (v : vstate) (b : bool) : vstate :=
  mkV (base v) (reg_types_ v) (work_insn_idx_ v) (work_line_ v) (saved_line_ v) (reg_table_ v) (resolved_types v)
    (resolved_methods v) (declaring_class_ v) (return_type_ v) b (monitor_enter_dex_pcs_ v).
Definition set_monitor_pcs (v : vstate) (l : option (list Z)) : vstate :=
  mkV (base v) (reg_types_ v) (work_insn_idx_ v) (work_line_ v) (saved_line_ v) (reg_table_ v) (resolved_types v)
    (resolved_methods v) (declaring_class_ v) (return_type_ v) (have_any_pending_runtime_throw_failure_ v) l.

(** A step on the flags and failures, as in the static pass. *)
Definition on_base {A} (m : VM A) : CM A :=
  fun v => match m (base v) with Some (a, b) => Some (a, set_base v b) | None => None end.
Definition set_runtime_throw (b : bool) : CM unit :=
  smod (fun v => set_base v
    (mkVerifier (insn_flags_ (base v)) (failures_ (base v)) (have_pending_hard_failure_ (base v)) b
       (have_pending_experimental_failure_ (base v)) (has_check_casts_ (base v))
       (has_virtual_or_interface_invokes_ (base v)) (new_instance_count_ (base v)) (monitor_enter_count_ (base v)))).
Definition pending_hard : CM bool := sget (fun v => have_pending_hard_failure_ (base v)).

(** An operation of the cache, and the object behind a reference. *)
Definition on_types (f : RegTypeCache -> nat * RegTypeCache) : CM nat :=
  fun v => let '(i, c) := f (reg_types_ v) in Some (i, set_types v c).
Definition type_at (i : nat) : CM RegType := sget (fun v => GetFromId (reg_types_ v) i).
Definition or_abort {A} (m : option A) : CM A := fun v => match m with Some a => Some (a, v) | None => None end.

(** ** Access *)
Fixpoint has_slash (d : string) : bool :=
  match d with String c d => Ascii.eqb c "/" || has_slash d | EmptyString => false end.
(** After the common prefix, neither descriptor has a slash. *)
Fixpoint same_package (d1 d2 : string) : bool :=
  match d1, d2 with
  | String a r1, String b r2 => if Ascii.eqb a b then same_package r1 r2 else negb (has_slash d1) && negb (has_slash d2)
  | _, _ => negb (has_slash d1) && negb (has_slash d2)
  end.
Fixpoint element_class (c : Class) : Class := match c with Array c => element_class c | _ => c end.

Section Access.
Context `{VS : VerifierServices}.
Definition IsPublicClass (c : Class) : bool := has_flag (GetAccessFlags hier c) kAccPublic.
Definition IsInSamePackage (klass1 klass2 : Class) : bool :=
  if bool_decide (klass1 = klass2) then true
  else if negb (GetClassLoader klass1 =? GetClassLoader klass2) then false
  else
    let klass1 := element_class klass1 in
    let klass2 := element_class klass2 in
    if bool_decide (klass1 = klass2) then true
    else same_package (GetDescriptor hier klass1) (GetDescriptor hier klass2).
Definition ClassCanAccess (this that : Class) : bool := IsPublicClass that || IsInSamePackage this that.
Definition ClassCanAccessMember (this access_to : Class) (member_flags : Z) : bool :=
  if bool_decide (this = access_to) then true
  else if has_flag member_flags kAccPublic then true
  else if has_flag member_flags kAccPrivate then false
  else if has_flag member_flags kAccProtected && negb (IsInterface hier this) && IsSubClass hier this access_to then true
  else IsInSamePackage this access_to.

(** [None] where the code reads the class of a type without one. *)
Definition CanAccess (c : RegTypeCache) (this other : nat) : option bool :=
  let t := GetFromId c this in
  let o := GetFromId c other in
  if Equals this other then Some true
  else if negb (IsUnresolvedTypes t) && negb (IsUnresolvedTypes o) then
    match klass_ t, klass_ o with Some kt, Some ko => Some (ClassCanAccess kt ko) | _, _ => None end
  else if negb (IsUnresolvedTypes o) then
    match klass_ o with Some ko => Some (IsPublicClass ko) | None => None end
  else Some false.
Definition CanAccessMember (t : RegType) (klass : Class) (access_flags : Z) : option bool :=
  if has_flag access_flags kAccPublic then Some true
  else if negb (IsUnresolvedTypes t) then
    match klass_ t with Some kt => Some (ClassCanAccessMember kt klass access_flags) | None => None end
  else Some false.
End Access.

Section Verifier.
Context `{VS : VerifierServices} (ctx : MethodContext).
#[local] Abbreviation insns := (insns_ (code_item_ ctx)).

Definition GetFlags (i : Z) : CM Z := on_base (GetInstructionFlags i).
Definition UpdateFlags (i : Z) (g : Z -> Z) : CM unit := on_base (UpdateInstructionFlags i g).
Definition CurrentInsnFlags : CM Z := fun v => GetFlags (work_insn_idx_ v) v.

(** ** [Fail] *)
Definition kDexNoIndex : Z := 0xFFFFFFFF.
Definition recoverable (error : VerifyError) : bool :=
  match error with VERIFY_ERROR_BAD_CLASS_HARD | VERIFY_ERROR_BAD_CLASS_SOFT => false | _ => true end.
Definition Fail (error : VerifyError) : CM unit :=
  on_base (Fail_ (is_aot ctx) (can_load_classes_ ctx) (allow_soft_failures_ ctx) error) ;;
  if recoverable error && negb (is_aot ctx || negb (can_load_classes_ ctx)) then
    do idx <- sget work_insn_idx_ ;
    if idx <? kDexNoIndex then
      if IsThrow (opcode insns idx) then sret tt
      else
        do flags <- CurrentInsnFlags ;
        if IsInTry flags then smod (fun v => set_saved v (CopyFromLine (saved_line_ v) (work_line_ v)))
        else sret tt
    else sret tt
  else sret tt.
Fixpoint Fail_all (l : list VerifyError) : CM unit :=
  match l with [] => sret tt | e :: l => Fail e ;; Fail_all l end.

(** Returns true on failure. *)
Definition FailOrAbort (condition : bool) : CM bool :=
  if negb condition then Fail VERIFY_ERROR_BAD_CLASS_HARD ;; sret true else sret false.

(** ** Operations on lines

    The errors of an operation are reported before its line is stored: no operation changes a line
    before it reports an error that copies [work_line_], except on instructions that can throw. *)
Definition run_line {A} (l : RegisterLine) (m : LM A) : CM (A * RegisterLine) :=
  fun v => match m (mkLS (reg_types_ v) l []) with
           | Some (a, s) =>
               match Fail_all (errors s) v with
               | Some (_, v) => Some ((a, line s), set_types v (types s))
               | None => None
               end
           | None => None
           end.
Definition work {A} (m : LM A) : CM A :=
  do l <- sget work_line_ ;
  do r <- run_line l m ;
  smod (fun v => set_work v (snd r)) ;;
  sret (fst r).
Definition modify_work (f : RegisterLine -> RegisterLine) : CM unit := smod (fun v => set_work v (f (work_line_ v))).

(** The line of the table at an index; none is recorded where nothing is tracked. *)
Definition GetLine (idx : Z) : CM (option RegisterLine) :=
  fun v => match reg_table_ v !! Z.to_nat idx with Some l => Some (l, v) | None => None end.
Definition PutLine (idx : Z) (l : RegisterLine) : CM unit :=
  smod (fun v => set_table v (<[Z.to_nat idx := Some l]> (reg_table_ v))).

(** [linker->ResolveType] for the dex file: through the dex cache. *)
Definition ResolveTypeCached (type_idx : Z) : CM (option Class) :=
  do cached_ <- sget (fun v => resolved_types v !! type_idx) ;
  match cached_, ResolveType type_idx with
  | Some k, _ => sret (Some k)
  | None, Some k => smod (fun v => set_resolved v (<[type_idx := k]> (resolved_types v)) (resolved_methods v)) ;; sret (Some k)
  | None, None => sret None
  end.

(** ** Types *)
Definition IsAssignable (lhs rhs : nat) (strict : bool) : CM bool :=
  fun v => match AssignableFrom hier (reg_types_ v) lhs rhs strict with Some b => Some (b, v) | None => None end.
Definition MergeTypes (this incoming : nat) : CM nat :=
  fun v => match Merge hier 2 (reg_types_ v) this incoming with
           | Some (i, c) => Some (i, set_types v c)
           | None => None
           end.
Definition SuperClassOf (i : nat) : CM nat :=
  fun v => match RegTypes.GetSuperClass hier (reg_types_ v) i with
           | Some (i, c) => Some (i, set_types v c)
           | None => None
           end.
Definition FromDescriptorIn (loader : Z) (descriptor : string) : CM nat :=
  on_types (fun c => FromDescriptor hier (ResolveClassIn loader) IsValidDescriptor c descriptor false).
Definition FromDescriptor_ (descriptor : string) : CM nat := FromDescriptorIn class_loader_ descriptor.
Definition FromUninitialized_ (i : nat) : CM nat := on_types (fun c => FromUninitialized hier c i).
Definition GetComponentType_ (i : nat) : CM nat :=
  on_types (fun c => GetComponentTypeOf hier ResolveClass IsValidDescriptor IsErroneous c i).
Definition HighHalf_ (i : nat) : CM nat := on_types (fun c => HighHalf c (GetFromId c i)).
Definition JavaLangObject_ (precise : bool) : CM nat := on_types (fun c => JavaLangObject hier c precise).
Definition JavaLangClass : CM nat := on_types (fun c => FromClass hier c "Ljava/lang/Class;" java_lang_Class true).
Definition JavaLangString : CM nat := on_types (fun c => FromClass hier c "Ljava/lang/String;" java_lang_String true).
Definition JavaLangThrowable (precise : bool) : CM nat :=
  on_types (fun c => FromClass hier c "Ljava/lang/Throwable;" java_lang_Throwable precise).

Definition VerifierFromClass (descriptor : string) (klass : Class) (precise : bool) : CM nat :=
  let refused := precise && negb (IsInstantiable hier klass) && negb (IsPrimitive klass) in
  (if refused then Fail VERIFY_ERROR_NO_CLASS else sret tt) ;;
  on_types (fun c => FromClass hier c descriptor klass (precise && negb refused)).

(** The type of a class, as precise as its class allows. *)
Definition type_of_class (descriptor : string) (klass : Class) : CM nat :=
  VerifierFromClass descriptor klass (CannotBeAssignedFromOtherTypes hier klass).

Definition GetDeclaringClass : CM nat :=
  do cached_ <- sget declaring_class_ ;
  match cached_ with
  | Some i => sret i
  | None =>
      let descriptor := descriptor_by_type_idx (method_class_idx (dex_method_idx_ ctx)) in
      do i <- (match mirror_method_ ctx with
               | Some m => type_of_class descriptor (m_declaring_class m)
               | None => FromDescriptor_ descriptor
               end) ;
      smod (fun v => set_cached v (Some i) (return_type_ v)) ;;
      sret i
  end.

Definition GetMethodReturnType : CM nat :=
  do cached_ <- sget return_type_ ;
  match cached_ with
  | Some i => sret i
  | None =>
      do i <- (match mirror_method_ ctx with
               | Some m =>
                   match m_return_class m with
                   | Some k => type_of_class (m_return_descriptor m) k
                   | None => FromDescriptor_ (method_return_descriptor (dex_method_idx_ ctx))
                   end
               | None => FromDescriptor_ (method_return_descriptor (dex_method_idx_ ctx))
               end) ;
      smod (fun v => set_cached v (declaring_class_ v) (Some i)) ;;
      sret i
  end.

Definition IsInstantiableOrPrimitive (klass : Class) : bool := IsInstantiable hier klass || IsPrimitive klass.
Definition UninstantiableError : CM unit := Fail VERIFY_ERROR_NO_CLASS.

Definition ResolveClassAndCheckAccess (class_idx : Z) : CM nat :=
  do klass <- sget (fun v => resolved_types v !! class_idx) ;
  let descriptor := descriptor_by_type_idx class_idx in
  do result <- (match klass with
                | Some k =>
                    let precise := CannotBeAssignedFromOtherTypes hier k in
                    if precise && negb (IsInstantiableOrPrimitive k)
                    then UninstantiableError ;; on_types (fun c => FromClass hier c descriptor k false)
                    else on_types (fun c => FromClass hier c descriptor k precise)
                | None => FromDescriptor_ descriptor
                end) ;
  do t <- type_at result ;
  if IsConflict t then Fail VERIFY_ERROR_BAD_CLASS_SOFT ;; sret result
  else
    (match klass with
     | None =>
         if negb (IsUnresolvedTypes t) then
           do k <- or_abort (klass_ t) ;
           smod (fun v => set_resolved v (<[class_idx := k]> (resolved_types v)) (resolved_methods v))
         else sret tt
     | Some _ => sret tt
     end) ;;
    (if IsNonZeroReferenceTypes t && negb (IsUnresolvedTypes t) then
       do referrer <- GetDeclaringClass ;
       do rt <- type_at referrer ;
       if IsUnresolvedTypes rt then sret tt
       else
         do c <- sget reg_types_ ;
         do ok <- or_abort (CanAccess c referrer result) ;
         if negb ok then Fail VERIFY_ERROR_ACCESS_CLASS else sret tt
     else sret tt) ;;
    sret result.

(** One list of handlers; [inr] is an early return. *)
Fixpoint caught_types (handlers : list (Z * Z)) (common_super : option nat) : CM (option nat + nat) :=
  match handlers with
  | [] => sret (inl common_super)
  | (type_idx, address) :: handlers =>
      do idx <- sget work_insn_idx_ ;
      if negb (address =? idx) then caught_types handlers common_super
      else if type_idx =? 0xFFFF then
        do throwable <- JavaLangThrowable false ;
        caught_types handlers (Some throwable)
      else
        do exception <- ResolveClassAndCheckAccess type_idx ;
        do throwable <- JavaLangThrowable false ;
        do ok <- IsAssignable throwable exception false ;
        if negb ok then
          do t <- type_at exception ;
          if IsUnresolvedTypes t then Fail VERIFY_ERROR_NO_CLASS ;; sret (inr exception)
          else Fail VERIFY_ERROR_BAD_CLASS_SOFT ;; sret (inr Conflict)
        else
          match common_super with
          | None => caught_types handlers (Some exception)
          | Some super =>
              if Equals super exception then caught_types handlers common_super
              else
                do merged <- MergeTypes super exception ;
                do throwable <- JavaLangThrowable false ;
                do ok <- IsAssignable throwable merged false ;
                do failed <- FailOrAbort ok ;
                if failed then sfail (* the [CHECK] of [EndDataPointer] *) else caught_types handlers (Some merged)
          end
  end.
Fixpoint caught_lists (lists : list (list (Z * Z))) (common_super : option nat) : CM (option nat + nat) :=
  match lists with
  | [] => sret (inl common_super)
  | l :: lists =>
      do r <- caught_types l common_super ;
      match r with inl common_super => caught_lists lists common_super | inr i => sret (inr i) end
  end.
Definition GetCaughtExceptionType : CM nat :=
  do r <- (if negb (length (tries_ (code_item_ ctx)) =? 0)%nat then caught_lists (handler_lists ctx) None
           else sret (inl None)) ;
  match r with
  | inr i => sret i
  | inl (Some i) => sret i
  | inl None => Fail VERIFY_ERROR_BAD_CLASS_SOFT ;; sret Conflict
  end.

Definition DetermineCat1Constant (value : Z) (precise : bool) : CM nat :=
  on_types (fun c =>
    if precise then FromCat1Const c value true
    else if value <? -32768 then IntConstant c
    else if value <? -128 then ShortConstant c
    else if value <? 0 then ByteConstant c
    else if value =? 0 then (Zero, c)
    else if value =? 1 then (One, c)
    else if value <? 128 then PosByteConstant c
    else if value <? 32768 then PosShortConstant c
    else if value <? 65536 then CharConstant c
    else IntConstant c).

(** The soft error of [CanAssignArray]; its result is not used.  An array type has no more
    dimensions than its descriptor or class allows, which bounds the recursion. *)
Fixpoint CanAssignArray (fuel : nat) (this src : nat) : CM bool :=
  do t <- type_at this ;
  do s <- type_at src ;
  do c <- sget reg_types_ ;
  if negb (IsArrayTypes c t) || negb (IsArrayTypes c s) then sret false
  else if IsUnresolvedMergedReference t || IsUnresolvedMergedReference s
  then sret (IsObjectArrayTypes c t && IsObjectArrayTypes c s)
  else
    do cmp1 <- GetComponentType_ this ;
    do cmp2 <- GetComponentType_ src ;
    do t1 <- type_at cmp1 ;
    do t2 <- type_at cmp2 ;
    do c <- sget reg_types_ ;
    do ok <- IsAssignable cmp1 cmp2 false ;
    if ok then sret false
    else if IsUnresolvedTypes t1 then sret (negb (IsIntegralTypes t2 || IsFloatTypes t2 || IsArrayTypes c t2))
    else if IsUnresolvedTypes t2 then sret (negb (IsIntegralTypes t1 || IsFloatTypes t1 || IsArrayTypes c t1))
    else if negb (IsArrayTypes c t1) || negb (IsArrayTypes c t2) then sret false
    else match fuel with O => sfail | S fuel => CanAssignArray fuel cmp1 cmp2 end.
End Verifier.
