(* ===== verification/CodeFlowChecks.v ===== *)
(** * Arrays, fields and invocations in the code-flow pass

    The checks of runtime/verifier/method_verifier.cc that [CodeFlowVerifyInstruction] dispatches
    to: [VerifyNewArray], [VerifyAGet], [VerifyAPut], [VerifyISFieldAccess],
    [VerifyQuickFieldAccess], [VerifyInvocationArgs] and [VerifyInvokeVirtualQuickArgs] with their
    helpers. *)

From stdpp Require Import strings.
From S2P Require Import Prelude DexOpcodes DexInstruction VerifierStatic InterpreterBase ClassHierarchy.
From S2P Require Import RegTypes RegisterLine CodeFlowState.
#[local] Open Scope sm_scope.

Definition IsLongOrDoubleTypes (t : RegType) : bool := IsLowHalf t.
Definition IsArrayIndexTypes (t : RegType) : bool := IsIntegralTypes t.
Definition IsLong (t : RegType) : bool := IsLongLo t.
Definition IsDouble (t : RegType) : bool := IsDoubleLo t.

Inductive FieldAccessType := kAccGet | kAccPut.
Definition is_put (a : FieldAccessType) : bool := match a with kAccPut => true | kAccGet => false end.

Section Checks.
Context `{VS : VerifierServices} (ctx : MethodContext) (inst : Z).
#[local] Abbreviation insns := (insns_ (code_item_ ctx)).
#[local] Abbreviation d := (Fetch16 insns inst 0).
#[local] Abbreviation Fail := (CodeFlowState.Fail ctx).
#[local] Abbreviation work := (CodeFlowState.work ctx).

(** The type of a register of [work_line_], and writing a type of either width. *)
Definition work_type (v : Z) : CM nat := work (GetRegisterType v).
Definition SetWorkType (v : Z) (t : nat) : CM unit := work (SetRegisterType kClear v t) ;; sret tt.
Definition set_by_width (v : Z) (i : nat) : CM unit :=
  do t <- type_at i ;
  if negb (IsLowHalf t) then SetWorkType v i
  else
    do hi <- HighHalf_ i ;
    work (SetRegisterTypeWide v i hi) ;; sret tt.
(** The same for the result registers. *)
Definition set_result_by_width (i : nat) : CM unit :=
  do t <- type_at i ;
  if negb (IsLowHalf t) then modify_work (SetResultRegisterType i)
  else
    do hi <- HighHalf_ i ;
    modify_work (SetResultRegisterTypeWide i hi).

(** ** Arrays *)

(** The registers of a filled array, until one does not verify. *)
Fixpoint verify_registers (regs : list Z) (expected_type : nat) : CM bool :=
  match regs with
  | [] => sret true
  | r :: regs =>
      do ok <- work (VerifyRegisterType hier r expected_type) ;
      if negb ok then sret false else verify_registers regs expected_type
  end.
(** The registers of the arguments: [vC], [vC + 1], ... or those of the encoding. *)
Definition arg_reg (is_range : bool) (i : Z) : Z :=
  if is_range then u32 (VRegC_3rc insns inst + i)
  else nth (Z.to_nat i) (GetVarArgs insns inst (replicate 5 0) d) 0.
Definition arg_count (is_range : bool) : Z := if is_range then VRegA_3rc d else VRegA_35c d.

Definition VerifyNewArray (is_filled is_range : bool) : CM unit :=
  let type_idx :=
    if negb is_filled then VRegC_22c insns inst
    else if negb is_range then VRegB_35c insns inst else VRegB_3rc insns inst in
  do res_type <- ResolveClassAndCheckAccess ctx type_idx ;
  do t <- type_at res_type ;
  do c <- sget reg_types_ ;
  if IsConflict t then sret tt
  else if negb (IsArrayTypes c t) then Fail VERIFY_ERROR_BAD_CLASS_HARD
  else if negb is_filled then
    work (VerifyRegisterType hier (VRegB_22c d) Integer) ;;
    do precise_type <- FromUninitialized_ res_type ;
    SetWorkType (VRegA_22c d) precise_type
  else
    do expected_type <- GetComponentType_ res_type ;
    do ok <- verify_registers (map (fun i => arg_reg is_range (Z.of_nat i)) (seq 0 (Z.to_nat (arg_count is_range)))) expected_type ;
    if negb ok then modify_work (SetResultRegisterType Conflict)
    else
      do precise_type <- FromUninitialized_ res_type ;
      modify_work (SetResultRegisterType precise_type).

Definition VerifyAGet (insn_type : nat) (is_primitive : bool) : CM unit :=
  do index_type <- work_type (VRegC_23x insns inst) ;
  do it <- type_at index_type ;
  if negb (IsArrayIndexTypes it) then Fail VERIFY_ERROR_BAD_CLASS_HARD
  else
    do array_type <- work_type (VRegB_23x insns inst) ;
    do t <- type_at array_type ;
    do n <- type_at insn_type ;
    do c <- sget reg_types_ ;
    if IsZero t then
      set_runtime_throw true ;;
      if negb is_primitive || IsCategory1Types n then SetWorkType (VRegA_23x d) Zero
      else
        do lo <- on_types (fun c => FromCat2ConstLo c 0 false) ;
        do hi <- on_types (fun c => FromCat2ConstHi c 0 false) ;
        work (SetRegisterTypeWide (VRegA_23x d) lo hi) ;; sret tt
    else if negb (IsArrayTypes c t) then Fail VERIFY_ERROR_BAD_CLASS_HARD
    else if IsUnresolvedMergedReference t then
      if is_primitive then Fail VERIFY_ERROR_BAD_CLASS_HARD
      else
        Fail VERIFY_ERROR_NO_CLASS ;;
        do object <- JavaLangObject_ false ;
        SetWorkType (VRegA_23x d) object
    else
      do component_type <- GetComponentType_ array_type ;
      do ct <- type_at component_type ;
      if negb (IsReferenceTypes ct) && negb is_primitive then Fail VERIFY_ERROR_BAD_CLASS_HARD
      else if IsNonZeroReferenceTypes ct && is_primitive then Fail VERIFY_ERROR_BAD_CLASS_HARD
      else if is_primitive && negb (Equals insn_type component_type)
              && negb ((IsInteger n && IsFloat ct) || (IsLong n && IsDouble ct))
      then Fail VERIFY_ERROR_BAD_CLASS_HARD
      else set_by_width (VRegA_23x d) component_type.

(** The high half of a wide value, where the register has one. *)
Definition pair_compatible (vregA : Z) (low_ok : RegType -> bool) : CM bool :=
  do value_type <- work_type vregA ;
  do t <- type_at value_type ;
  do l <- sget work_line_ ;
  if vregA + 1 <? NumRegs l then
    do value_type_hi <- work_type (vregA + 1) ;
    do th <- type_at value_type_hi ;
    sret (low_ok t && CheckWidePair t th)
  else sret false.
Definition VerifyPrimitivePut (target_type insn_type : nat) (vregA : Z) : CM unit :=
  do target <- type_at target_type ;
  do insn <- type_at insn_type ;
  do value_type <- work_type vregA ;
  do t <- type_at value_type ;
  do r <- (if IsIntegralTypes target then sret (Equals target_type insn_type, IsIntegralTypes t)
           else if IsFloat target then sret (IsInteger insn, IsFloatTypes t)
           else if IsLong target then
             do ok <- (if IsLong insn then pair_compatible vregA IsLongTypes else sret false) ;
             sret (IsLong insn, ok)
           else if IsDouble target then
             do ok <- (if IsLong insn then pair_compatible vregA IsDoubleTypes else sret false) ;
             sret (IsLong insn, ok)
           else sret (false, false)) ;
  if negb (fst r) then Fail VERIFY_ERROR_BAD_CLASS_HARD
  else if negb (snd r) then Fail VERIFY_ERROR_BAD_CLASS_HARD
  else sret tt.

Definition VerifyAPut (insn_type : nat) (is_primitive : bool) : CM unit :=
  do index_type <- work_type (VRegC_23x insns inst) ;
  do it <- type_at index_type ;
  if negb (IsArrayIndexTypes it) then Fail VERIFY_ERROR_BAD_CLASS_HARD
  else
    do array_type <- work_type (VRegB_23x insns inst) ;
    do t <- type_at array_type ;
    do c <- sget reg_types_ ;
    if IsZero t then
      do value_type <- work_type (VRegA_23x d) ;
      let modified_reg_type :=
        if (insn_type =? Integer)%nat then if (value_type =? Float)%nat then value_type else insn_type
        else if (insn_type =? LongLo)%nat then if (value_type =? DoubleLo)%nat then value_type else insn_type
        else insn_type in
      work (VerifyRegisterType hier (VRegA_23x d) modified_reg_type) ;; sret tt
    else if negb (IsArrayTypes c t) then Fail VERIFY_ERROR_BAD_CLASS_HARD
    else if IsUnresolvedMergedReference t then
      Fail (if is_primitive then VERIFY_ERROR_BAD_CLASS_HARD else VERIFY_ERROR_NO_CLASS)
    else
      do component_type <- GetComponentType_ array_type ;
      if is_primitive then VerifyPrimitivePut component_type insn_type (VRegA_23x d)
      else
        do ct <- type_at component_type ;
        if negb (IsReferenceTypes ct) then Fail VERIFY_ERROR_BAD_CLASS_HARD
        else work (VerifyRegisterType hier (VRegA_23x d) insn_type) ;; sret tt.

(** ** Fields *)
Definition GetStaticField (field_idx : Z) : CM (option ArtField) :=
  do klass_type <- ResolveClassAndCheckAccess ctx (field_class_idx field_idx) ;
  do t <- type_at klass_type ;
  if IsConflict t || IsUnresolvedTypes t then sret None
  else
    match ResolveFieldJLS field_idx with
    | None => sret None
    | Some field =>
        do declaring <- GetDeclaringClass ctx ;
        do dt <- type_at declaring ;
        do ok <- or_abort (CanAccessMember dt (f_declaring_class field) (f_access_flags field)) ;
        if negb ok then Fail VERIFY_ERROR_ACCESS_FIELD ;; sret None
        else if negb (FieldIsStatic field) then Fail VERIFY_ERROR_CLASS_CHANGE ;; sret None
        else sret (Some field)
    end.

Definition GetInstanceField (obj_type : nat) (field_idx : Z) : CM (option ArtField) :=
  do klass_type <- ResolveClassAndCheckAccess ctx (field_class_idx field_idx) ;
  do t <- type_at klass_type ;
  do obj <- type_at obj_type ;
  if IsConflict t || IsUnresolvedTypes t then sret None
  else
    match ResolveFieldJLS field_idx with
    | None => sret None
    | Some field =>
        do declaring <- GetDeclaringClass ctx ;
        do dt <- type_at declaring ;
        do ok <- or_abort (CanAccessMember dt (f_declaring_class field) (f_access_flags field)) ;
        if negb ok then Fail VERIFY_ERROR_ACCESS_FIELD ;; sret None
        else if FieldIsStatic field then Fail VERIFY_ERROR_CLASS_CHANGE ;; sret None
        else if IsZero obj then sret (Some field)
        else if negb (IsReferenceTypes obj) then Fail VERIFY_ERROR_BAD_CLASS_HARD ;; sret None
        else
          do field_klass <-
            type_of_class ctx (descriptor_by_type_idx (field_class_idx field_idx)) (f_declaring_class field) ;
          if IsUninitializedTypes obj then
            if negb (IsUninitializedThisReference obj) || negb (IsConstructor ctx) || negb (Equals field_klass declaring)
            then Fail VERIFY_ERROR_BAD_CLASS_HARD ;; sret None
            else sret (Some field)
          else
            do ok <- IsAssignable field_klass obj_type false ;
            if negb ok then
              do fk <- type_at field_klass ;
              Fail (if is_aot ctx && (IsUnresolvedTypes fk || IsUnresolvedTypes obj)
                    then VERIFY_ERROR_NO_CLASS else VERIFY_ERROR_BAD_CLASS_HARD) ;;
              sret None
            else sret (Some field)
    end.

(** [field->GetDeclaringClass() != GetDeclaringClass().GetClass()]. *)
Definition declared_elsewhere (field : ArtField) : CM bool :=
  do declaring <- GetDeclaringClass ctx ;
  do dt <- type_at declaring ;
  sret (negb (bool_decide (klass_ dt = Some (f_declaring_class field)))).

(** The type of a field, from its class or else from its descriptor. *)
Definition field_reg_type (field : option ArtField) (loader : Z) (descriptor : string) : CM nat :=
  match field with
  | Some f =>
      match f_type_class f with
      | Some k => type_of_class ctx (f_type_descriptor f) k
      | None => FromDescriptorIn loader descriptor
      end
  | None => FromDescriptorIn loader descriptor
  end.

Definition VerifyISFieldAccess (kAccType : FieldAccessType) (insn_type : nat) (is_primitive is_static : bool) : CM unit :=
  let field_idx := if is_static then VRegB_21c insns inst else VRegC_22c insns inst in
  do r <- (if is_static then
             do field <- GetStaticField field_idx ;
             sret (field, false)
           else
             do object_type <- work_type (VRegB_22c d) ;
             do ot <- type_at object_type ;
             let should_adjust := is_put kAccType && IsUninitializedThisReference ot in
             do adjusted_type <- (if should_adjust then FromUninitialized_ object_type else sret object_type) ;
             do field <- GetInstanceField adjusted_type field_idx ;
             do hard <- pending_hard ;
             if hard then sret (field, true)
             else if should_adjust then
               match field with
               | None => Fail VERIFY_ERROR_BAD_CLASS_SOFT ;; sret (field, false)
               | Some f =>
                   do elsewhere <- declared_elsewhere f ;
                   if elsewhere then Fail VERIFY_ERROR_BAD_CLASS_HARD ;; sret (field, true) else sret (field, false)
               end
             else sret (field, false)) ;
  if snd r then sret tt
  else
    (match fst r with
     | Some f =>
         if is_put kAccType && FieldIsFinal f then
           do elsewhere <- declared_elsewhere f ;
           if elsewhere then Fail VERIFY_ERROR_ACCESS_FIELD else sret tt
         else sret tt
     | None => sret tt
     end) ;;
    do field_type <- field_reg_type (fst r) class_loader_ (GetFieldTypeDescriptor field_idx) ;
    do ft <- type_at field_type ;
    do n <- type_at insn_type ;
    let vregA := if is_static then VRegA_21c d else VRegA_22c d in
    let error := if IsReferenceTypes ft then VERIFY_ERROR_BAD_CLASS_SOFT else VERIFY_ERROR_BAD_CLASS_HARD in
    if is_put kAccType then
      if is_primitive then VerifyPrimitivePut field_type insn_type vregA
      else
        do ok <- IsAssignable insn_type field_type false ;
        if negb ok then Fail error
        else work (VerifyRegisterType hier vregA field_type) ;; sret tt
    else if is_primitive then
      if Equals field_type insn_type || (IsFloat ft && IsInteger n) || (IsDouble ft && IsLong n)
      then set_by_width vregA field_type
      else Fail VERIFY_ERROR_BAD_CLASS_HARD
    else
      do ok <- IsAssignable insn_type field_type false ;
      if negb ok then
        Fail error ;;
        if negb (bool_decide (error = VERIFY_ERROR_BAD_CLASS_HARD)) then SetWorkType vregA Conflict else sret tt
      else set_by_width vregA field_type.

Definition GetQuickFieldAccess : CM (option ArtField) :=
  do object_type <- work_type (VRegB_22c d) ;
  do t <- type_at object_type ;
  match klass_ t with
  | None => sret None
  | Some k => sret (FindInstanceFieldWithOffset k (VRegC_22c insns inst))
  end.

Definition VerifyQuickFieldAccess (kAccType : FieldAccessType) (insn_type : nat) (is_primitive : bool) : CM unit :=
  do field <- GetQuickFieldAccess ;
  match field with
  | None => Fail VERIFY_ERROR_BAD_CLASS_HARD
  | Some f =>
      do refused <- (if is_put kAccType && FieldIsFinal f then
                       do elsewhere <- declared_elsewhere f ;
                       if elsewhere then Fail VERIFY_ERROR_ACCESS_FIELD ;; sret true else sret false
                     else sret false) ;
      if refused then sret tt
      else
        do field_type <- field_reg_type (Some f) (GetClassLoader (f_declaring_class f)) (f_type_descriptor f) ;
        do ft <- type_at field_type ;
        do n <- type_at insn_type ;
        let vregA := VRegA_22c d in
        if is_put kAccType then
          if is_primitive then
            do value_type <- work_type vregA ;
            do t <- type_at value_type ;
            let '(instruction_compatible, value_compatible) :=
              if IsIntegralTypes ft then (IsIntegralTypes n, IsIntegralTypes t)
              else if IsFloat ft then (IsInteger n, IsFloatTypes t)
              else if IsLong ft then (IsLong n, IsLongTypes t)
              else if IsDouble ft then (IsLong n, IsDoubleTypes t)
              else (false, false) in
            if negb instruction_compatible then Fail VERIFY_ERROR_BAD_CLASS_HARD
            else if negb value_compatible then Fail VERIFY_ERROR_BAD_CLASS_HARD
            else sret tt
          else
            do ok <- IsAssignable insn_type field_type false ;
            if negb ok then Fail VERIFY_ERROR_BAD_CLASS_SOFT
            else work (VerifyRegisterType hier vregA field_type) ;; sret tt
        else if is_primitive then
          if Equals field_type insn_type || (IsFloat ft && IsIntegralTypes n) || (IsDouble ft && IsLongTypes n)
          then set_by_width vregA field_type
          else Fail VERIFY_ERROR_BAD_CLASS_HARD
        else
          do ok <- IsAssignable insn_type field_type false ;
          if negb ok then Fail VERIFY_ERROR_BAD_CLASS_SOFT ;; SetWorkType vregA Conflict
          else set_by_width vregA field_type
  end.

(** ** Invocations *)
Definition is_type (a b : MethodType) : bool := bool_decide (a = b).
Definition kDefaultMethodsVersion : Z := 37.

Definition lookup_method (klass : Class) (dex_method_idx : Z) (method_type : MethodType) : option ArtMethod :=
  match method_type with
  | METHOD_DIRECT | METHOD_STATIC => FindDirectMethod klass dex_method_idx
  | METHOD_INTERFACE => FindInterfaceMethod klass dex_method_idx
  | METHOD_SUPER =>
      if IsInterface hier klass then FindInterfaceMethod klass dex_method_idx else FindVirtualMethod klass dex_method_idx
  | METHOD_VIRTUAL => FindVirtualMethod klass dex_method_idx
  end.
(** The method and whether it is to be put in the dex cache. *)
Definition find_method (cached_ : option ArtMethod) (klass : Class) (dex_method_idx : Z) (method_type : MethodType)
  : option (ArtMethod * bool) :=
  match cached_ with
  | Some m => Some (m, false)
  | None =>
      match lookup_method klass dex_method_idx method_type with
      | Some m => Some (m, true)
      | None =>
          match method_type with
          | METHOD_INTERFACE | METHOD_VIRTUAL | METHOD_SUPER =>
              match FindDirectMethod klass dex_method_idx with Some m => Some (m, false) | None => None end
          | _ => None
          end
      end
  end.

(** The error of the checks on the method found, without those on access. *)
Definition method_error (klass : Class) (m : ArtMethod) (method_type : MethodType) : option VerifyError :=
  if MethodIsConstructor m && negb (is_type method_type METHOD_DIRECT) then Some VERIFY_ERROR_BAD_CLASS_HARD
  else if IsClassInitializer m then Some VERIFY_ERROR_BAD_CLASS_HARD
  else if IsInterface hier klass then
    if negb (is_type method_type METHOD_INTERFACE) && negb (is_type method_type METHOD_STATIC)
       && ((GetVersion <? kDefaultMethodsVersion) || negb (is_type method_type METHOD_DIRECT))
       && negb (is_type method_type METHOD_SUPER)
    then Some VERIFY_ERROR_CLASS_CHANGE else None
  else if is_type method_type METHOD_INTERFACE then Some VERIFY_ERROR_CLASS_CHANGE
  else None.
Definition type_mismatch (m : ArtMethod) (method_type : MethodType) : bool :=
  match method_type with
  | METHOD_DIRECT => negb (IsDirect m) || MethodIsStatic m
  | METHOD_STATIC => negb (MethodIsStatic m)
  | METHOD_SUPER | METHOD_VIRTUAL | METHOD_INTERFACE => IsDirect m
  end.

Definition ResolveMethodAndCheckAccess (dex_method_idx : Z) (method_type : MethodType) : CM (option ArtMethod) :=
  do klass_type <- ResolveClassAndCheckAccess ctx (method_class_idx dex_method_idx) ;
  do t <- type_at klass_type ;
  if IsConflict t || IsUnresolvedTypes t then sret None
  else
    do klass <- or_abort (klass_ t) ;
    do referrer <- GetDeclaringClass ctx ;
    do rt <- type_at referrer ;
    do cached_ <- sget (fun v => resolved_methods v !! dex_method_idx) ;
    match find_method cached_ klass dex_method_idx method_type with
    | None => Fail VERIFY_ERROR_NO_METHOD ;; sret None
    | Some (m, stash_method) =>
        match method_error klass m method_type with
        | Some e => Fail e ;; sret None
        | None =>
            (if stash_method
             then smod (fun v => set_resolved v (resolved_types v) (<[dex_method_idx := m]> (resolved_methods v)))
             else sret tt) ;;
            do ok <- or_abort (CanAccessMember rt (m_declaring_class m) (m_access_flags m)) ;
            if negb ok then Fail VERIFY_ERROR_ACCESS_METHOD ;; sret (Some m)
            else if MethodIsPrivate m && (is_type method_type METHOD_VIRTUAL || is_type method_type METHOD_SUPER)
            then Fail VERIFY_ERROR_BAD_CLASS_HARD ;; sret None
            else if type_mismatch m method_type then Fail VERIFY_ERROR_CLASS_CHANGE ;; sret None
            else sret (Some m)
        end
    end.

Definition invoked_method_idx (is_range : bool) : Z := if is_range then VRegB_3rc insns inst else VRegB_35c insns inst.

(** The parameters; the registers used, or no value when the invocation is rejected. *)
Fixpoint verify_params (params : list (option string)) (is_range : bool) (expected_args sig_registers : Z) : CM (option Z) :=
  match params with
  | [] => sret (Some sig_registers)
  | param :: params =>
      if expected_args <=? sig_registers then Fail VERIFY_ERROR_BAD_CLASS_HARD ;; sret None
      else
        match param with
        | None => Fail VERIFY_ERROR_BAD_CLASS_HARD ;; sret None
        | Some param_descriptor =>
            do reg_type <- FromDescriptor_ param_descriptor ;
            do t <- type_at reg_type ;
            let get_reg := arg_reg is_range sig_registers in
            do ok <-
              (if IsIntegralTypes t then
                 do src_type <- work_type get_reg ;
                 do s <- type_at src_type ;
                 if negb (IsIntegralTypes s) then Fail VERIFY_ERROR_BAD_CLASS_HARD ;; sret false else sret true
               else
                 do verified <- work (VerifyRegisterType hier get_reg reg_type) ;
                 if negb verified then
                   do hard <- pending_hard ;
                   sret (negb hard)
                 else if IsLongOrDoubleTypes t && negb is_range && (sig_registers + 1 <? expected_args)
                         && negb (arg_reg is_range (sig_registers + 1) =? get_reg + 1)
                 then Fail VERIFY_ERROR_BAD_CLASS_HARD ;; sret false
                 else sret true) ;
            if negb ok then sret None
            else verify_params params is_range expected_args (sig_registers + (if IsLongOrDoubleTypes t then 2 else 1))
        end
  end.

(** The [this] argument: whether the check goes on. *)
Definition verify_this (method_type : MethodType) (is_range : bool) (res_method : option ArtMethod) : CM bool :=
  do actual_arg_type <- work (GetInvocationThis insns inst is_range false) ;
  do t <- type_at actual_arg_type ;
  if IsConflict t then
    do hard <- pending_hard ;
    if hard then sret false else sfail                      (* CHECK(have_pending_hard_failure_) *)
  else
    let is_init := IsUninitializedTypes t in
    let is_constructor :=
      match res_method with
      | Some m => MethodIsConstructor m
      | None => bool_decide (GetMethodName (invoked_method_idx is_range) = "<init>"%string)
      end in
    if is_init && negb is_constructor then Fail VERIFY_ERROR_BAD_CLASS_HARD ;; sret false
    else
      do adjusted_type <- (if is_init then FromUninitialized_ actual_arg_type else sret actual_arg_type) ;
      do at_ <- type_at adjusted_type ;
      if negb (is_type method_type METHOD_INTERFACE) && negb (IsZero at_) then
        let unresolved := FromDescriptor_ (descriptor_by_type_idx (method_class_idx (invoked_method_idx is_range))) in
        do res_method_class <-
          (match res_method with
           | Some m =>
               if negb (IsMiranda m)
               then type_of_class ctx (GetDescriptor hier (m_declaring_class m)) (m_declaring_class m)
               else unresolved
           | None => unresolved
           end) ;
        do ok <- IsAssignable res_method_class adjusted_type false ;
        if negb ok then
          Fail (if IsUnresolvedTypes at_ then VERIFY_ERROR_NO_CLASS else VERIFY_ERROR_BAD_CLASS_SOFT) ;;
          do hard <- pending_hard ;
          sret (negb hard)
        else sret true
      else sret true.

Definition VerifyInvocationArgsFromIterator (params : list (option string)) (method_type : MethodType) (is_range : bool)
  (res_method : option ArtMethod) : CM (option ArtMethod) :=
  let expected_args := arg_count is_range in
  if outs_size_ ctx <? expected_args then Fail VERIFY_ERROR_BAD_CLASS_HARD ;; sret None
  else
    do go <- (if is_type method_type METHOD_STATIC then sret true else verify_this method_type is_range res_method) ;
    if negb go then sret None
    else
      do sig_registers <- verify_params params is_range expected_args (if is_type method_type METHOD_STATIC then 0 else 1) ;
      match sig_registers with
      | None => sret None
      | Some n => if negb (expected_args =? n) then Fail VERIFY_ERROR_BAD_CLASS_HARD ;; sret None else sret res_method
      end.

(** The checks of [invoke-super]: whether the invocation is possible. *)
Definition verify_super (method_idx : Z) (res_method : ArtMethod) : CM bool :=
  let class_idx := method_class_idx method_idx in
  do reference_class <- sget (fun v => resolved_types v !! class_idx) ;
  match reference_class with
  | None => Fail VERIFY_ERROR_BAD_CLASS_SOFT ;; sret false
  | Some reference_class =>
      if IsInterface hier reference_class && (class_idx =? class_def_idx ctx)
      then Fail VERIFY_ERROR_CLASS_CHANGE ;; sret false
      else
        do declaring <- GetDeclaringClass ctx ;
        do dt <- type_at declaring ;
        if IsInterface hier reference_class then
          match klass_ dt with
          | None => Fail VERIFY_ERROR_NO_CLASS ;; sret false
          | Some dk =>
              if negb (ClassHierarchy.IsAssignableFrom hier reference_class dk)
              then Fail VERIFY_ERROR_CLASS_CHANGE ;; sret false else sret true
          end
        else
          do super <- SuperClassOf declaring ;
          do st <- type_at super ;
          if IsUnresolvedTypes st then Fail VERIFY_ERROR_NO_METHOD ;; sret false
          else
            do dk <- or_abort (klass_ dt) ;
            if negb (ClassHierarchy.IsAssignableFrom hier reference_class dk)
            then Fail VERIFY_ERROR_NO_METHOD ;; sret false
            else
              do sk <- or_abort (klass_ st) ;
              if GetVTableLength sk <=? m_method_index res_method then Fail VERIFY_ERROR_NO_METHOD ;; sret false
              else sret true
  end.

Definition VerifyInvocationArgs (method_type : MethodType) (is_range : bool) : CM (option ArtMethod) :=
  let method_idx := invoked_method_idx is_range in
  do res_method <- ResolveMethodAndCheckAccess method_idx method_type ;
  match res_method with
  | None =>
      do hard <- pending_hard ;
      (if negb hard then
         VerifyInvocationArgsFromIterator (method_param_descriptors method_idx) method_type is_range None ;; sret tt
       else sret tt) ;;
      sret None
  | Some m =>
      do go <- (if is_type method_type METHOD_SUPER then verify_super method_idx m else sret true) ;
      if negb go then sret None
      else VerifyInvocationArgsFromIterator (m_params m) method_type is_range (Some m)
  end.

(** ** Quickened invocations *)
Definition GetQuickInvokedMethod (is_range allow_failure : bool) : CM (option ArtMethod) :=
  do actual_arg_type <- work (GetInvocationThis insns inst is_range allow_failure) ;
  do t <- type_at actual_arg_type ;
  match klass_ t with
  | None => sret None
  | Some klass =>
      do dispatch_class <-
        (if IsInterface hier klass then
           match ClassHierarchy.GetSuperClass hier java_lang_Class with
           | None => sfail
           | Some object_klass =>
               do failed <- FailOrAbort ctx (IsObjectClass hier object_klass) ;
               sret (if failed then None else Some object_klass)
           end
         else sret (Some klass)) ;
      match dispatch_class with
      | None => sret None
      | Some k =>
          let vtable_index := invoked_method_idx is_range in
          if negb (HasVTable k) then FailOrAbort ctx allow_failure ;; sret None
          else if GetVTableLength k <=? vtable_index then FailOrAbort ctx allow_failure ;; sret None
          else
            match GetVTableEntry k vtable_index with
            | None => FailOrAbort ctx allow_failure ;; sret None
            | Some m => sret (Some m)
            end
      end
  end.

(** The parameters of a quickened invocation: the number of registers, or where the check stops. *)
Fixpoint verify_quick_params (params : list (option string)) (is_range : bool) (expected_args actual_args : Z)
  (res_method : ArtMethod) : CM (option ArtMethod + Z) :=
  match params with
  | [] => sret (inr actual_args)
  | param :: params =>
      if expected_args <=? actual_args then Fail VERIFY_ERROR_BAD_CLASS_HARD ;; sret (inl None)
      else
        match param with
        | None => Fail VERIFY_ERROR_BAD_CLASS_HARD ;; sret (inl None)
        | Some descriptor =>
            do reg_type <- FromDescriptor_ descriptor ;
            do t <- type_at reg_type ;
            do ok <- work (VerifyRegisterType hier (arg_reg is_range actual_args) reg_type) ;
            if negb ok then sret (inl (Some res_method))
            else verify_quick_params params is_range expected_args
                   (actual_args + (if IsLongOrDoubleTypes t then 2 else 1)) res_method
        end
  end.

Definition VerifyInvokeVirtualQuickArgs (is_range : bool) : CM (option ArtMethod) :=
  do res_method <- GetQuickInvokedMethod is_range false ;
  match res_method with
  | None => Fail VERIFY_ERROR_BAD_CLASS_HARD ;; sret None
  | Some m =>
      do failed1 <- FailOrAbort ctx (negb (IsDirect m)) ;
      if failed1 then sret None
      else
        do failed2 <- FailOrAbort ctx (negb (MethodIsStatic m)) ;
        if failed2 then sret None
        else
          do actual_arg_type <- work (GetInvocationThis insns inst is_range false) ;
          do t <- type_at actual_arg_type ;
          if IsConflict t then sret None
          else if outs_size_ ctx <? arg_count is_range then Fail VERIFY_ERROR_BAD_CLASS_HARD ;; sret None
          else if IsUninitializedTypes t && negb (MethodIsConstructor m)
          then Fail VERIFY_ERROR_BAD_CLASS_HARD ;; sret None
          else
            do instance <-
              (if negb (IsZero t) then
                 do res_method_class <- type_of_class ctx (GetDescriptor hier (m_declaring_class m)) (m_declaring_class m) ;
                 do ok <- IsAssignable res_method_class actual_arg_type false ;
                 if negb ok then
                   Fail (if IsUninitializedTypes t then VERIFY_ERROR_BAD_CLASS_HARD
                         else if IsUnresolvedTypes t then VERIFY_ERROR_NO_CLASS else VERIFY_ERROR_BAD_CLASS_SOFT) ;;
                   sret false
                 else sret true
               else sret true) ;
            if negb instance then sret None
            else
              do r <- verify_quick_params (m_params m) is_range (arg_count is_range) 1 m ;
              match r with
              | inl res => sret res
              | inr actual_args =>
                  if negb (actual_args =? arg_count is_range) then Fail VERIFY_ERROR_BAD_CLASS_HARD ;; sret None
                  else sret (Some m)
              end
  end.
End Checks.
