(* ===== verification/CodeFlow.v ===== *)
(** * The code-flow pass

    [VerifyCodeFlow] of runtime/verifier/method_verifier.cc: [SetTypesFromSignature],
    [CodeFlowVerifyMethod] with its work list, [CodeFlowVerifyInstruction] for every opcode, and
    [UpdateRegisters].

    The cases of the switch are grouped by what they do; a group keeps the order of its checks.
    The work list runs with fuel, which the theorems quantify over. *)

From Stdlib Require Import Ascii.
From stdpp Require Import strings.
From S2P Require Import Prelude DexOpcodes DexInstruction VerifierStatic InterpreterBase ClassHierarchy.
From S2P Require Import RegTypes RegisterLine CodeFlowState CodeFlowChecks.
#[local] Open Scope sm_scope.

(** What the switch leaves for the rest of [CodeFlowVerifyInstruction]. *)
Record insn_result := mkResult {
  just_set_result : bool;
  opcode_flags : Z;
  branch_line : option RegisterLine;
  fallthrough_line : option RegisterLine
}.

Section CodeFlow.
Context `{VS : VerifierServices} (ctx : MethodContext).
#[local] Abbreviation insns := (insns_ (code_item_ ctx)).
#[local] Abbreviation insn_count := (insns_size_in_code_units_ (code_item_ ctx)).
#[local] Abbreviation Fail := (CodeFlowState.Fail ctx).
#[local] Abbreviation work := (CodeFlowState.work ctx).
#[local] Abbreviation work_type := (CodeFlowChecks.work_type ctx).
#[local] Abbreviation SetWorkType := (CodeFlowChecks.SetWorkType ctx).

(** The opcode before an index, skipping units that do not start an instruction. *)
Fixpoint previous_opcode (fuel : nat) (idx : Z) : CM Z :=
  if idx =? 0 then sret idx
  else
    do flags <- GetFlags idx ;
    if InstructionFlags.IsOpcode flags then sret idx
    else match fuel with O => sfail | S fuel => previous_opcode fuel (idx - 1) end.
Definition previous_insn (idx : Z) : CM Z := previous_opcode (Z.to_nat idx) (idx - 1).

Section Instruction.
Context (inst : Z).
#[local] Abbreviation d := (Fetch16 insns inst 0).

(** ** Returns *)

(** [!IsInstanceConstructor() || work_line_->CheckConstructorReturn(this)]. *)
Definition may_return : CM bool :=
  if negb (IsInstanceConstructor ctx) then sret true else work CheckConstructorReturn.
Definition check_return_void : CM unit :=
  do ok <- may_return ;
  if negb ok then sret tt
  else
    do return_type <- GetMethodReturnType ctx ;
    do t <- type_at return_type ;
    if negb (IsConflict t) then Fail VERIFY_ERROR_BAD_CLASS_HARD else sret tt.
Definition check_return : CM unit :=
  do ok <- may_return ;
  if negb ok then sret tt
  else
    do return_type <- GetMethodReturnType ctx ;
    do t <- type_at return_type ;
    if negb (IsCategory1Types t) then Fail VERIFY_ERROR_BAD_CLASS_HARD
    else
      do src_type <- work_type (VRegA_11x d) ;
      do s <- type_at src_type ;
      let use_src :=
        (IsBoolean t && IsByte s) || ((IsBoolean t || IsByte t || IsShort t || IsChar t) && IsInteger s) in
      work (VerifyRegisterType hier (VRegA_11x d) (if use_src then src_type else return_type)) ;; sret tt.
Definition check_return_wide : CM unit :=
  do ok <- may_return ;
  if negb ok then sret tt
  else
    do return_type <- GetMethodReturnType ctx ;
    do t <- type_at return_type ;
    if negb (IsCategory2Types t) then Fail VERIFY_ERROR_BAD_CLASS_HARD
    else work (VerifyRegisterType hier (VRegA_11x d) return_type) ;; sret tt.
Definition kMaxArrayDimensions : nat := 255.
Definition check_return_object : CM unit :=
  do ok <- may_return ;
  if negb ok then sret tt
  else
    do return_type <- GetMethodReturnType ctx ;
    do t <- type_at return_type ;
    if negb (IsReferenceTypes t) then Fail VERIFY_ERROR_BAD_CLASS_HARD
    else
      do reg_type <- work_type (VRegA_11x d) ;
      do r <- type_at reg_type ;
      if IsUndefined r then Fail VERIFY_ERROR_BAD_CLASS_HARD
      else if IsConflict r then Fail VERIFY_ERROR_BAD_CLASS_HARD
      else if IsUninitializedTypes r then Fail VERIFY_ERROR_BAD_CLASS_HARD
      else if negb (IsReferenceTypes r) then Fail VERIFY_ERROR_BAD_CLASS_HARD
      else
        do assignable_ <- IsAssignable return_type reg_type false ;
        if assignable_ then sret tt
        else if IsUnresolvedTypes r || IsUnresolvedTypes t then Fail VERIFY_ERROR_NO_CLASS
        else
          do c <- sget reg_types_ ;
          do soft_error <- (if IsArrayTypes c r && IsArrayTypes c t
                            then CanAssignArray kMaxArrayDimensions return_type reg_type else sret false) ;
          Fail (if soft_error then VERIFY_ERROR_BAD_CLASS_SOFT else VERIFY_ERROR_BAD_CLASS_HARD).

Fixpoint first_final_field (fields : list (Z * Z)) : option Z :=
  match fields with
  | [] => None
  | (idx, flags) :: fields => if has_flag flags kAccFinal then Some idx else first_final_field fields
  end.
Definition GetFirstFinalInstanceFieldIndex : Z := default kDexNoIndex (first_final_field (class_def_fields ctx)).
Definition check_return_void_no_barrier : CM unit :=
  do stop <-
    (if IsConstructor ctx && negb (IsStatic ctx) then
       do declaring_class <- GetDeclaringClass ctx ;
       do t <- type_at declaring_class ;
       if IsUnresolvedReference t then
         (if negb (GetFirstFinalInstanceFieldIndex =? kDexNoIndex) then Fail VERIFY_ERROR_BAD_CLASS_HARD else sret tt) ;;
         sret true
       else
         do klass <- or_abort (klass_ t) ;
         (if existsb FieldIsFinal (instance_fields klass) then Fail VERIFY_ERROR_BAD_CLASS_HARD else sret tt) ;;
         sret false
     else sret false) ;
  if stop then sret tt
  else if negb (IsConstructor ctx) then
    do return_type <- GetMethodReturnType ctx ;
    do t <- type_at return_type ;
    if negb (IsConflict t) then Fail VERIFY_ERROR_BAD_CLASS_HARD else sret tt
  else sret tt.

(** ** Constants *)
Definition set_constant (vdst val : Z) : CM unit :=
  do t <- DetermineCat1Constant val (need_precise_constants_ ctx) ;
  SetWorkType vdst t.
Definition set_constant_wide (vdst val : Z) : CM unit :=
  do lo <- on_types (fun c => FromCat2ConstLo c (s32 val) true) ;
  do hi <- on_types (fun c => FromCat2ConstHi c (s32 (Z.shiftr val 32)) true) ;
  work (SetRegisterTypeWide vdst lo hi) ;; sret tt.
Definition check_move_exception : CM unit :=
  do idx <- sget work_insn_idx_ ;
  if idx =? 0 then Fail VERIFY_ERROR_BAD_CLASS_HARD
  else
    do res_type <- GetCaughtExceptionType ctx ;
    SetWorkType (VRegA_11x d) res_type.
Definition check_const_class : CM unit :=
  do res_type <- ResolveClassAndCheckAccess ctx (VRegB_21c insns inst) ;
  do t <- type_at res_type ;
  do result <- (if IsConflict t then sret res_type else JavaLangClass) ;
  SetWorkType (VRegA_21c d) result.

(** ** Monitors *)
Definition check_monitor_enter : CM unit :=
  do idx <- sget work_insn_idx_ ;
  work (PushMonitor (VRegA_11x d) idx) ;;
  do flags <- GetFlags idx ;
  if negb (idx =? 0) && negb (InstructionFlags.IsBranchTarget flags) then
    do prev_idx <- previous_insn idx ;
    match opcode insns prev_idx with
    | MOVE_OBJECT | MOVE_OBJECT_16 | MOVE_OBJECT_FROM16 =>
        let prevA := default 0 (VRegA insns prev_idx) in
        let prevB := default 0 (VRegB insns prev_idx) in
        if prevB =? VRegA_11x d then work (CopyRegister1 prevA prevB kTypeCategoryRef) else sret tt
    | _ => sret tt
    end
  else sret tt.

(** ** Classes and objects *)
Definition check_cast (is_checkcast : bool) : CM unit :=
  let type_idx := if is_checkcast then VRegB_21c insns inst else VRegC_22c insns inst in
  do res_type <- ResolveClassAndCheckAccess ctx type_idx ;
  do t <- type_at res_type ;
  if IsConflict t then
    do klass <- sget (fun v => resolved_types v !! type_idx) ;
    if match klass with Some k => IsPrimitive k | None => false end then Fail VERIFY_ERROR_BAD_CLASS_HARD
    else if negb is_checkcast then SetWorkType (VRegA_22c d) Boolean
    else sret tt
  else
    do orig_type <- work_type (if is_checkcast then VRegA_21c d else VRegB_22c d) ;
    do o <- type_at orig_type ;
    if negb (IsNonZeroReferenceTypes t) then Fail VERIFY_ERROR_BAD_CLASS_HARD
    else if negb (IsReferenceTypes o) then Fail VERIFY_ERROR_BAD_CLASS_HARD
    else if IsUninitializedTypes o then Fail VERIFY_ERROR_BAD_CLASS_HARD
    else if is_checkcast then work (SetRegisterType kKeep (VRegA_21c d) res_type) ;; sret tt
    else SetWorkType (VRegA_22c d) Boolean.

Definition check_array_length : CM unit :=
  do res_type <- work_type (VRegB_12x d) ;
  do t <- type_at res_type ;
  do c <- sget reg_types_ ;
  if IsReferenceTypes t then
    if negb (IsArrayTypes c t) && negb (IsZero t) then Fail VERIFY_ERROR_BAD_CLASS_HARD
    else SetWorkType (VRegA_12x d) Integer
  else Fail VERIFY_ERROR_BAD_CLASS_HARD.

Definition IsInstantiableTypes (t : RegType) : option bool :=
  if IsUnresolvedTypes t then Some true
  else if IsNonZeroReferenceTypes t then
    match klass_ t with Some k => Some (IsInstantiable hier k) | None => None end
  else Some false.
Definition check_new_instance : CM unit :=
  do res_type <- ResolveClassAndCheckAccess ctx (VRegB_21c insns inst) ;
  do t <- type_at res_type ;
  if IsConflict t then sret tt
  else
    do instantiable <- or_abort (IsInstantiableTypes t) ;
    (if negb instantiable then Fail VERIFY_ERROR_INSTANTIATION else sret tt) ;;
    do idx <- sget work_insn_idx_ ;
    do uninit_type <- on_types (fun c => Uninitialized c res_type idx) ;
    modify_work (MarkUninitRefsAsInvalid uninit_type) ;;
    SetWorkType (VRegA_21c d) uninit_type.

Definition check_throw : CM unit :=
  do res_type <- work_type (VRegA_11x d) ;
  do throwable <- JavaLangThrowable false ;
  do t <- type_at res_type ;
  do ok <- IsAssignable throwable res_type false ;
  if ok then sret tt
  else if IsUninitializedTypes t then Fail VERIFY_ERROR_BAD_CLASS_HARD
  else if negb (IsReferenceTypes t) then Fail VERIFY_ERROR_BAD_CLASS_HARD
  else Fail (if IsUnresolvedTypes t then VERIFY_ERROR_NO_CLASS else VERIFY_ERROR_BAD_CLASS_SOFT).

(** ** Comparisons and tables *)
Definition check_cmp (lo : nat) (hi : option nat) : CM unit :=
  let verify v := match hi with
                  | None => work (VerifyRegisterType hier v lo)
                  | Some hi => work (VerifyRegisterTypeWide hier v lo hi)
                  end in
  do ok1 <- verify (VRegB_23x insns inst) ;
  if negb ok1 then sret tt
  else
    do ok2 <- verify (VRegC_23x insns inst) ;
    if negb ok2 then sret tt else SetWorkType (VRegA_23x d) Integer.

Definition RegTypeGetPrimitiveType (t : RegType) : Primitive :=
  if IsNonZeroReferenceTypes t then kPrimNot
  else if IsBooleanTypes t then kPrimBoolean
  else if IsByteTypes t then kPrimByte
  else if IsShortTypes t then kPrimShort
  else if IsCharTypes t then kPrimChar
  else if IsFloat t then kPrimFloat
  else if IsIntegralTypes t then kPrimInt
  else if IsDoubleLo t then kPrimDouble
  else kPrimLong.
Definition check_fill_array_data : CM unit :=
  do array_type <- work_type (VRegA_31t d) ;
  do t <- type_at array_type ;
  do c <- sget reg_types_ ;
  if IsZero t then sret tt
  else if negb (IsArrayTypes c t) then Fail VERIFY_ERROR_BAD_CLASS_HARD
  else if IsUnresolvedTypes t then Fail VERIFY_ERROR_BAD_CLASS_HARD
  else
    do component_type <- GetComponentType_ array_type ;
    do ct <- type_at component_type ;
    if IsNonZeroReferenceTypes ct then Fail VERIFY_ERROR_BAD_CLASS_HARD
    else
      let array_data := inst + s32 (Fetch32 insns inst 1) in
      if negb (insns array_data =? kArrayDataSignature) then Fail VERIFY_ERROR_BAD_CLASS_HARD
      else if negb (insns (array_data + 1) =? ComponentSize (RegTypeGetPrimitiveType ct)) then Fail VERIFY_ERROR_BAD_CLASS_HARD
      else sret tt.

(** ** Conditional branches *)
Definition check_if_eq : CM unit :=
  do type1 <- work_type (VRegA_22t d) ;
  do type2 <- work_type (VRegB_22t d) ;
  do t1 <- type_at type1 ;
  do t2 <- type_at type2 ;
  let mismatch :=
    if IsZero t1 then negb (IsReferenceTypes t2) && negb (IsIntegralTypes t2)
    else if IsReferenceTypes t1 then negb (IsReferenceTypes t2)
    else negb (IsIntegralTypes t1) || negb (IsIntegralTypes t2) in
  if mismatch then Fail VERIFY_ERROR_BAD_CLASS_HARD else sret tt.
Definition check_if_lt : CM unit :=
  do type1 <- work_type (VRegA_22t d) ;
  do type2 <- work_type (VRegB_22t d) ;
  do t1 <- type_at type1 ;
  do t2 <- type_at type2 ;
  if negb (IsIntegralTypes t1) || negb (IsIntegralTypes t2) then Fail VERIFY_ERROR_BAD_CLASS_HARD else sret tt.
Definition check_if_ltz : CM unit :=
  do type <- work_type (VRegA_21t d) ;
  do t <- type_at type ;
  if negb (IsIntegralTypes t) then Fail VERIFY_ERROR_BAD_CLASS_HARD else sret tt.

(** The line for the outcome of [instance-of] at [instance_of_idx] in which the test succeeded:
    the checked register, and the source of a move to it, have the type of the test. *)
Definition sharpen (instance_of_idx : Z) (cast_type : nat) : CM RegisterLine :=
  let di := Fetch16 insns instance_of_idx 0 in
  let new := NewRegisterLine (registers_size_ (code_item_ ctx)) in
  do l <- sget work_line_ ;
  do r <- run_line ctx (CopyFromLine new l) (SetRegisterType kKeep (VRegB_22c di) cast_type) ;
  let update_line := snd r in
  do flags <- GetFlags instance_of_idx ;
  if negb (InstructionFlags.IsBranchTarget flags) && negb (instance_of_idx =? 0) then
    do move_idx <- previous_insn instance_of_idx ;
    do mflags <- GetFlags move_idx ;
    do failed <- FailOrAbort ctx (InstructionFlags.IsOpcode mflags) ;
    if failed then sret update_line
    else
      let dm := Fetch16 insns move_idx 0 in
      let move (vA vB : Z) :=
        if vA =? VRegB_22c di then
          do r <- run_line ctx update_line (SetRegisterType kKeep vB cast_type) ;
          sret (snd r)
        else sret update_line in
      match opcode insns move_idx with
      | MOVE_OBJECT => move (VRegA_12x dm) (VRegB_12x dm)
      | MOVE_OBJECT_FROM16 => move (VRegA_22x dm) (VRegB_22x insns move_idx)
      | MOVE_OBJECT_16 => move (VRegA_32x insns move_idx) (VRegB_32x insns move_idx)
      | _ => sret update_line
      end
  else sret update_line.

(** [if-eqz] and [if-nez]: the line of the branch on which a preceding [instance-of] holds. *)
Definition check_if_eqz : CM (option RegisterLine) :=
  do type <- work_type (VRegA_21t d) ;
  do t <- type_at type ;
  (if negb (IsReferenceTypes t) && negb (IsIntegralTypes t) then Fail VERIFY_ERROR_BAD_CLASS_HARD else sret tt) ;;
  do idx <- sget work_insn_idx_ ;
  if idx =? 0 then sret None
  else
    do instance_of_idx <- previous_insn idx ;
    do iflags <- GetFlags instance_of_idx ;
    do failed <- FailOrAbort ctx (InstructionFlags.IsOpcode iflags) ;
    if failed then sret None
    else
      let di := Fetch16 insns instance_of_idx 0 in
      do flags <- CurrentInsnFlags ;
      if negb (InstructionFlags.IsBranchTarget flags)
         && bool_decide (opcode insns instance_of_idx = INSTANCE_OF)
         && (VRegA_21t d =? VRegA_22c di) && negb (VRegA_22c di =? VRegB_22c di) then
        do orig_type <- work_type (VRegB_22c di) ;
        do cast_type <- ResolveClassAndCheckAccess ctx (VRegC_22c insns instance_of_idx) ;
        do o <- type_at orig_type ;
        do c <- type_at cast_type ;
        if negb (Equals orig_type cast_type) && negb (IsUnresolvedTypes c) && negb (IsUnresolvedTypes o)
           && match klass_ c with Some k => negb (IsInterface hier k) | None => false end then
          do ok <- (if IsZero o then sret true
                    else
                      do merged <- MergeTypes cast_type orig_type ;
                      IsAssignable orig_type merged true) ;
          if ok then
            do l <- sharpen instance_of_idx cast_type ;
            sret (Some l)
          else sret None
        else sret None
      else sret None.

(** ** Invocations *)

(** The return type of a called method, or of the method named by the instruction. *)
Definition return_of_descriptor (called_method : option ArtMethod) (is_range : bool) : CM nat :=
  FromDescriptor_ (match called_method with
                   | Some m => m_return_descriptor m
                   | None => method_return_descriptor (invoked_method_idx ctx inst is_range)
                   end).
Definition return_of_class (called_method : option ArtMethod) (descriptor : string) : CM nat :=
  match called_method with
  | Some m =>
      match m_return_class m with
      | Some k => type_of_class ctx (m_return_descriptor m) k
      | None => FromDescriptor_ descriptor
      end
  | None => FromDescriptor_ descriptor
  end.
Definition check_invoke_virtual (is_range is_super : bool) : CM bool :=
  do called_method <- VerifyInvocationArgs ctx inst (if is_super then METHOD_SUPER else METHOD_VIRTUAL) is_range ;
  do return_type <-
    return_of_class called_method (method_return_descriptor (invoked_method_idx ctx inst is_range)) ;
  set_result_by_width return_type ;;
  sret true.

Definition check_invoke_direct (is_range : bool) : CM bool :=
  do called_method <- VerifyInvocationArgs ctx inst METHOD_DIRECT is_range ;
  let is_constructor :=
    match called_method with
    | Some m => MethodIsConstructor m
    | None => bool_decide (GetMethodName (invoked_method_idx ctx inst is_range) = "<init>"%string)
    end in
  let return_type_descriptor :=
    match called_method with
    | Some m => m_return_descriptor m
    | None => method_return_descriptor (invoked_method_idx ctx inst is_range)
    end in
  do return_type <-
    (match called_method with
     | Some m =>
         match m_return_class m with
         | Some k => do i <- type_of_class ctx return_type_descriptor k ; sret (Some i)
         | None => sret None
         end
     | None => sret None
     end) ;
  do go <-
    (if is_constructor then
       do this_type <- work (GetInvocationThis insns inst is_range false) ;
       do t <- type_at this_type ;
       if IsConflict t then sret false
       else if IsZero t then Fail VERIFY_ERROR_BAD_CLASS_HARD ;; sret false
       else if negb (IsUninitializedTypes t) then Fail VERIFY_ERROR_BAD_CLASS_HARD ;; sret false
       else work (MarkRefsAsInitialized hier this_type) ;; sret true
     else sret true) ;
  if negb go then sret false
  else
    do return_type <- (match return_type with Some i => sret i | None => FromDescriptor_ return_type_descriptor end) ;
    set_result_by_width return_type ;;
    sret true.

Definition check_invoke_static (is_range : bool) : CM bool :=
  do called_method <- VerifyInvocationArgs ctx inst METHOD_STATIC is_range ;
  do return_type <- return_of_descriptor called_method is_range ;
  set_result_by_width return_type ;;
  sret true.

Definition check_invoke_interface (is_range : bool) : CM bool :=
  do abs_method <- VerifyInvocationArgs ctx inst METHOD_INTERFACE is_range ;
  if match abs_method with
     | Some m => negb (IsInterface hier (m_declaring_class m)) && negb (IsObjectClass hier (m_declaring_class m))
     | None => false
     end
  then Fail VERIFY_ERROR_CLASS_CHANGE ;; sret false
  else
    do this_type <- work (GetInvocationThis insns inst is_range false) ;
    do t <- type_at this_type ;
    if negb (IsZero t) && IsUninitializedTypes t then Fail VERIFY_ERROR_BAD_CLASS_HARD ;; sret false
    else
      do return_type <- return_of_descriptor abs_method is_range ;
      set_result_by_width return_type ;;
      sret true.

Definition check_invoke_quick (is_range : bool) : CM bool :=
  do called_method <- VerifyInvokeVirtualQuickArgs ctx inst is_range ;
  match called_method with
  | Some m =>
      do return_type <- FromDescriptor_ (m_return_descriptor m) ;
      set_result_by_width return_type ;;
      sret true
  | None => sret false
  end.

Definition check_box_lambda : CM unit :=
  Fail VERIFY_ERROR_FORCE_INTERPRETER ;;
  do reg_type <- JavaLangObject_ (need_precise_constants_ ctx) ;
  SetWorkType (VRegA_22x d) reg_type.

(** ** The switch *)
Definition switch_move (c : Code) : CM unit :=
  match c with
  | MOVE => work (CopyRegister1 (VRegA_12x d) (VRegB_12x d) kTypeCategory1nr)
  | MOVE_FROM16 => work (CopyRegister1 (VRegA_22x d) (VRegB_22x insns inst) kTypeCategory1nr)
  | MOVE_16 => work (CopyRegister1 (VRegA_32x insns inst) (VRegB_32x insns inst) kTypeCategory1nr)
  | MOVE_WIDE => work (CopyRegister2 (VRegA_12x d) (VRegB_12x d))
  | MOVE_WIDE_FROM16 => work (CopyRegister2 (VRegA_22x d) (VRegB_22x insns inst))
  | MOVE_WIDE_16 => work (CopyRegister2 (VRegA_32x insns inst) (VRegB_32x insns inst))
  | MOVE_OBJECT => work (CopyRegister1 (VRegA_12x d) (VRegB_12x d) kTypeCategoryRef)
  | MOVE_OBJECT_FROM16 => work (CopyRegister1 (VRegA_22x d) (VRegB_22x insns inst) kTypeCategoryRef)
  | MOVE_OBJECT_16 => work (CopyRegister1 (VRegA_32x insns inst) (VRegB_32x insns inst) kTypeCategoryRef)
  | MOVE_RESULT => work (CopyResultRegister1 (VRegA_11x d) false)
  | MOVE_RESULT_WIDE => work (CopyResultRegister2 (VRegA_11x d))
  | MOVE_RESULT_OBJECT => work (CopyResultRegister1 (VRegA_11x d) true)
  | MOVE_EXCEPTION => check_move_exception
  | _ => sret tt
  end.

Definition switch_const (c : Code) : CM unit :=
  match c with
  | CONST_4 => set_constant (VRegA_11n d) (Z.shiftr (VRegB_11n d <<[32] 28) 28)
  | CONST_16 => set_constant (VRegA_21s d) (s16 (VRegB_21s insns inst))
  | CONST => set_constant (VRegA_31i d) (VRegB_31i insns inst)
  | CONST_HIGH16 => set_constant (VRegA_21h d) (VRegB_21h insns inst <<[32] 16)
  | CONST_WIDE_16 => set_constant_wide (VRegA_21s d) (s16 (VRegB_21s insns inst))
  | CONST_WIDE_32 => set_constant_wide (VRegA_31i d) (s32 (VRegB_31i insns inst))
  | CONST_WIDE => set_constant_wide (VRegA_51l d) (s64 (VRegB_51l insns inst))
  | CONST_WIDE_HIGH16 => set_constant_wide (VRegA_21h d) (VRegB_21h insns inst <<[64] 48)
  | CONST_STRING => do t <- JavaLangString ; SetWorkType (VRegA_21c d) t
  | CONST_STRING_JUMBO => do t <- JavaLangString ; SetWorkType (VRegA_31c d) t
  | CONST_CLASS => check_const_class
  | _ => sret tt
  end.

(** The type an array or field instruction is for. *)
Definition with_object (f : nat -> bool -> CM unit) : CM unit := do object <- JavaLangObject_ false ; f object false.
Definition switch_array (c : Code) : CM unit :=
  match c with
  | AGET_BOOLEAN => VerifyAGet ctx inst Boolean true
  | AGET_BYTE => VerifyAGet ctx inst Byte true
  | AGET_CHAR => VerifyAGet ctx inst Char true
  | AGET_SHORT => VerifyAGet ctx inst Short true
  | AGET => VerifyAGet ctx inst Integer true
  | AGET_WIDE => VerifyAGet ctx inst LongLo true
  | AGET_OBJECT => with_object (VerifyAGet ctx inst)
  | APUT_BOOLEAN => VerifyAPut ctx inst Boolean true
  | APUT_BYTE => VerifyAPut ctx inst Byte true
  | APUT_CHAR => VerifyAPut ctx inst Char true
  | APUT_SHORT => VerifyAPut ctx inst Short true
  | APUT => VerifyAPut ctx inst Integer true
  | APUT_WIDE => VerifyAPut ctx inst LongLo true
  | APUT_OBJECT => with_object (VerifyAPut ctx inst)
  | _ => sret tt
  end.

Definition field_access (a : FieldAccessType) (is_static : bool) (t : nat) (is_primitive : bool) : CM unit :=
  VerifyISFieldAccess ctx inst a t is_primitive is_static.
Definition switch_field (c : Code) : CM unit :=
  match c with
  | IGET_BOOLEAN => field_access kAccGet false Boolean true
  | IGET_BYTE => field_access kAccGet false Byte true
  | IGET_CHAR => field_access kAccGet false Char true
  | IGET_SHORT => field_access kAccGet false Short true
  | IGET => field_access kAccGet false Integer true
  | IGET_WIDE => field_access kAccGet false LongLo true
  | IGET_OBJECT => with_object (field_access kAccGet false)
  | IPUT_BOOLEAN => field_access kAccPut false Boolean true
  | IPUT_BYTE => field_access kAccPut false Byte true
  | IPUT_CHAR => field_access kAccPut false Char true
  | IPUT_SHORT => field_access kAccPut false Short true
  | IPUT => field_access kAccPut false Integer true
  | IPUT_WIDE => field_access kAccPut false LongLo true
  | IPUT_OBJECT => with_object (field_access kAccPut false)
  | SGET_BOOLEAN => field_access kAccGet true Boolean true
  | SGET_BYTE => field_access kAccGet true Byte true
  | SGET_CHAR => field_access kAccGet true Char true
  | SGET_SHORT => field_access kAccGet true Short true
  | SGET => field_access kAccGet true Integer true
  | SGET_WIDE => field_access kAccGet true LongLo true
  | SGET_OBJECT => with_object (field_access kAccGet true)
  | SPUT_BOOLEAN => field_access kAccPut true Boolean true
  | SPUT_BYTE => field_access kAccPut true Byte true
  | SPUT_CHAR => field_access kAccPut true Char true
  | SPUT_SHORT => field_access kAccPut true Short true
  | SPUT => field_access kAccPut true Integer true
  | SPUT_WIDE => field_access kAccPut true LongLo true
  | SPUT_OBJECT => with_object (field_access kAccPut true)
  | _ => sret tt
  end.
Definition switch_quick_field (c : Code) : CM unit :=
  let get t p := VerifyQuickFieldAccess ctx inst kAccGet t p in
  let put t p := VerifyQuickFieldAccess ctx inst kAccPut t p in
  match c with
  | IGET_QUICK => get Integer true
  | IGET_WIDE_QUICK => get LongLo true
  | IGET_OBJECT_QUICK => with_object get
  | IGET_BOOLEAN_QUICK => get Boolean true
  | IGET_BYTE_QUICK => get Byte true
  | IGET_CHAR_QUICK => get Char true
  | IGET_SHORT_QUICK => get Short true
  | IPUT_QUICK => put Integer true
  | IPUT_BOOLEAN_QUICK => put Boolean true
  | IPUT_BYTE_QUICK => put Byte true
  | IPUT_CHAR_QUICK => put Char true
  | IPUT_SHORT_QUICK => put Short true
  | IPUT_WIDE_QUICK => put LongLo true
  | IPUT_OBJECT_QUICK => with_object put
  | _ => sret tt
  end.

Definition switch_unary (c : Code) : CM unit :=
  let op dst src := work (CheckUnaryOp hier insns inst dst src) in
  let wide dl dh sl sh := work (CheckUnaryOpWide hier insns inst dl dh sl sh) in
  let to_wide dl dh src := work (CheckUnaryOpToWide hier insns inst dl dh src) in
  let from_wide dst sl sh := work (CheckUnaryOpFromWide hier insns inst dst sl sh) in
  match c with
  | NEG_INT | NOT_INT => op Integer Integer
  | NEG_LONG | NOT_LONG => wide LongLo LongHi LongLo LongHi
  | NEG_FLOAT => op Float Float
  | NEG_DOUBLE => wide DoubleLo DoubleHi DoubleLo DoubleHi
  | INT_TO_LONG => to_wide LongLo LongHi Integer
  | INT_TO_FLOAT => op Float Integer
  | INT_TO_DOUBLE => to_wide DoubleLo DoubleHi Integer
  | LONG_TO_INT => from_wide Integer LongLo LongHi
  | LONG_TO_FLOAT => from_wide Float LongLo LongHi
  | LONG_TO_DOUBLE => wide DoubleLo DoubleHi LongLo LongHi
  | FLOAT_TO_INT => op Integer Float
  | FLOAT_TO_LONG => to_wide LongLo LongHi Float
  | FLOAT_TO_DOUBLE => to_wide DoubleLo DoubleHi Float
  | DOUBLE_TO_INT => from_wide Integer DoubleLo DoubleHi
  | DOUBLE_TO_LONG => wide LongLo LongHi DoubleLo DoubleHi
  | DOUBLE_TO_FLOAT => from_wide Float DoubleLo DoubleHi
  | INT_TO_BYTE => op Byte Integer
  | INT_TO_CHAR => op Char Integer
  | INT_TO_SHORT => op Short Integer
  | _ => sret tt
  end.

Definition switch_binary (c : Code) : CM unit :=
  let op t b := work (CheckBinaryOp hier insns inst t t t b) in
  let wide l h := work (CheckBinaryOpWide hier insns inst l h l h l h) in
  let op2 t b := work (CheckBinaryOp2addr hier insns inst t t t b) in
  let wide2 l h := work (CheckBinaryOp2addrWide hier insns inst l h l h l h) in
  let lit b is16 := work (CheckLiteralOp hier insns inst Integer Integer b is16) in
  match c with
  | ADD_INT | SUB_INT | MUL_INT | REM_INT | DIV_INT | SHL_INT | SHR_INT | USHR_INT => op Integer false
  | AND_INT | OR_INT | XOR_INT => op Integer true
  | ADD_LONG | SUB_LONG | MUL_LONG | DIV_LONG | REM_LONG | AND_LONG | OR_LONG | XOR_LONG => wide LongLo LongHi
  | SHL_LONG | SHR_LONG | USHR_LONG => work (CheckBinaryOpWideShift hier insns inst LongLo LongHi Integer)
  | ADD_FLOAT | SUB_FLOAT | MUL_FLOAT | DIV_FLOAT | REM_FLOAT => op Float false
  | ADD_DOUBLE | SUB_DOUBLE | MUL_DOUBLE | DIV_DOUBLE | REM_DOUBLE => wide DoubleLo DoubleHi
  | ADD_INT_2ADDR | SUB_INT_2ADDR | MUL_INT_2ADDR | REM_INT_2ADDR | SHL_INT_2ADDR | SHR_INT_2ADDR
  | USHR_INT_2ADDR | DIV_INT_2ADDR => op2 Integer false
  | AND_INT_2ADDR | OR_INT_2ADDR | XOR_INT_2ADDR => op2 Integer true
  | ADD_LONG_2ADDR | SUB_LONG_2ADDR | MUL_LONG_2ADDR | DIV_LONG_2ADDR | REM_LONG_2ADDR | AND_LONG_2ADDR
  | OR_LONG_2ADDR | XOR_LONG_2ADDR => wide2 LongLo LongHi
  | SHL_LONG_2ADDR | SHR_LONG_2ADDR | USHR_LONG_2ADDR =>
      work (CheckBinaryOp2addrWideShift hier insns inst LongLo LongHi Integer)
  | ADD_FLOAT_2ADDR | SUB_FLOAT_2ADDR | MUL_FLOAT_2ADDR | DIV_FLOAT_2ADDR | REM_FLOAT_2ADDR => op2 Float false
  | ADD_DOUBLE_2ADDR | SUB_DOUBLE_2ADDR | MUL_DOUBLE_2ADDR | DIV_DOUBLE_2ADDR | REM_DOUBLE_2ADDR =>
      wide2 DoubleLo DoubleHi
  | ADD_INT_LIT16 | RSUB_INT | MUL_INT_LIT16 | DIV_INT_LIT16 | REM_INT_LIT16 => lit false true
  | AND_INT_LIT16 | OR_INT_LIT16 | XOR_INT_LIT16 => lit true true
  | ADD_INT_LIT8 | RSUB_INT_LIT8 | MUL_INT_LIT8 | DIV_INT_LIT8 | REM_INT_LIT8 | SHL_INT_LIT8 | SHR_INT_LIT8
  | USHR_INT_LIT8 => lit false false
  | AND_INT_LIT8 | OR_INT_LIT8 | XOR_INT_LIT8 => lit true false
  | _ => sret tt
  end.

(** The rest of the cases that neither set the result register nor compute a line. *)
Definition switch_other (c : Code) : CM unit :=
  match c with
  | NOP => if negb (VRegA_10x d =? 0) then Fail VERIFY_ERROR_BAD_CLASS_HARD else sret tt
  | RETURN_VOID => check_return_void
  | RETURN => check_return
  | RETURN_WIDE => check_return_wide
  | RETURN_OBJECT => check_return_object
  | RETURN_VOID_NO_BARRIER => check_return_void_no_barrier
  | MONITOR_ENTER => check_monitor_enter
  | MONITOR_EXIT => work (PopMonitor (VRegA_11x d))
  | CHECK_CAST => check_cast true
  | INSTANCE_OF => check_cast false
  | ARRAY_LENGTH => check_array_length
  | NEW_INSTANCE => check_new_instance
  | NEW_ARRAY => VerifyNewArray ctx inst false false
  | CMPL_FLOAT | CMPG_FLOAT => check_cmp Float None
  | CMPL_DOUBLE | CMPG_DOUBLE => check_cmp DoubleLo (Some DoubleHi)
  | CMP_LONG => check_cmp LongLo (Some LongHi)
  | THROW => check_throw
  | GOTO | GOTO_16 | GOTO_32 => sret tt
  | PACKED_SWITCH | SPARSE_SWITCH => work (VerifyRegisterType hier (VRegA_31t d) Integer) ;; sret tt
  | FILL_ARRAY_DATA => check_fill_array_data
  | IF_EQ | IF_NE => check_if_eq
  | IF_LT | IF_GE | IF_GT | IF_LE => check_if_lt
  | IF_LTZ | IF_GEZ | IF_GTZ | IF_LEZ => check_if_ltz
  | INVOKE_LAMBDA | CAPTURE_VARIABLE | CREATE_LAMBDA | LIBERATE_VARIABLE | UNBOX_LAMBDA =>
      Fail VERIFY_ERROR_FORCE_INTERPRETER
  | BOX_LAMBDA => check_box_lambda
  | UNUSED_3E | UNUSED_3F | UNUSED_40 | UNUSED_41 | UNUSED_42 | UNUSED_43 | UNUSED_79 | UNUSED_7A | UNUSED_F4
  | UNUSED_FA | UNUSED_FB | UNUSED_FC | UNUSED_FD | UNUSED_FE | UNUSED_FF => Fail VERIFY_ERROR_BAD_CLASS_HARD
  | _ =>
      (** Each of these matches only its own opcodes and does nothing on the others. *)
      switch_move c ;; switch_const c ;; switch_array c ;; switch_field c ;; switch_quick_field c ;;
      switch_unary c ;; switch_binary c
  end.

Definition switch_instruction : CM insn_result :=
  let c := opcode insns inst in
  let flags := FlagsOf c in
  let result m := do r <- m ; sret (mkResult r flags None None) in
  match c with
  | FILLED_NEW_ARRAY => VerifyNewArray ctx inst true false ;; sret (mkResult true flags None None)
  | FILLED_NEW_ARRAY_RANGE => VerifyNewArray ctx inst true true ;; sret (mkResult true flags None None)
  | MONITOR_EXIT => switch_other c ;; sret (mkResult false (Z.land flags (Z.lnot kThrow)) None None)
  | IF_EQZ => do l <- check_if_eqz ; sret (mkResult false flags None l)
  | IF_NEZ => do l <- check_if_eqz ; sret (mkResult false flags l None)
  | INVOKE_VIRTUAL => result (check_invoke_virtual false false)
  | INVOKE_VIRTUAL_RANGE => result (check_invoke_virtual true false)
  | INVOKE_SUPER => result (check_invoke_virtual false true)
  | INVOKE_SUPER_RANGE => result (check_invoke_virtual true true)
  | INVOKE_DIRECT => result (check_invoke_direct false)
  | INVOKE_DIRECT_RANGE => result (check_invoke_direct true)
  | INVOKE_STATIC => result (check_invoke_static false)
  | INVOKE_STATIC_RANGE => result (check_invoke_static true)
  | INVOKE_INTERFACE => result (check_invoke_interface false)
  | INVOKE_INTERFACE_RANGE => result (check_invoke_interface true)
  | INVOKE_VIRTUAL_QUICK => result (check_invoke_quick false)
  | INVOKE_VIRTUAL_RANGE_QUICK => result (check_invoke_quick true)
  | _ => switch_other c ;; sret (mkResult false flags None None)
  end.
End Instruction.

(** ** Lines of returns *)
Definition SafelyMarkAllRegistersAsConflicts : LM unit :=
  (if IsInstanceConstructor ctx then CheckConstructorReturn ;; sret tt else sret tt) ;;
  modify MarkAllRegistersAsConflicts.
(** The line before the return at [ret_inst]. *)
Definition AdjustReturnLine (ret_inst : Z) : LM unit :=
  let vA := VRegA_11x (Fetch16 insns ret_inst 0) in
  match opcode insns ret_inst with
  | RETURN_VOID | RETURN_VOID_NO_BARRIER => SafelyMarkAllRegistersAsConflicts
  | RETURN | RETURN_OBJECT => modify (MarkAllRegistersAsConflictsExcept vA)
  | RETURN_WIDE => modify (MarkAllRegistersAsConflictsExceptWide vA)
  | _ => sfail
  end.

(** ** Successors *)
Definition CheckNotMoveException_ (insn_idx : Z) : CM bool :=
  on_base (CheckNotMoveException (code_item_ ctx) (is_aot ctx) (can_load_classes_ ctx) (allow_soft_failures_ ctx) insn_idx).
Definition CheckNotMoveResult_ (insn_idx : Z) : CM bool :=
  on_base (CheckNotMoveResult (code_item_ ctx) (is_aot ctx) (can_load_classes_ ctx) (allow_soft_failures_ ctx) insn_idx).
Definition CheckNotMoveExceptionOrMoveResult (insn_idx : Z) : CM bool :=
  do ok <- CheckNotMoveException_ insn_idx ;
  if negb ok then sret false else CheckNotMoveResult_ insn_idx.

(** The result and the merge line after the call.  [merge_line] is a copy: it may be
    [saved_line_], which an error of the merge overwrites with [work_line_]; the merge reads
    nothing of it afterwards but [this_initialized_], which the instructions that report
    such an error do not change. *)
Definition UpdateRegisters (next_insn : Z) (merge_line : RegisterLine) (update_merge_line : bool)
  : CM (bool * RegisterLine) :=
  do found <- GetLine next_insn ;
  do target_line <- or_abort found ;
  do flags <- GetFlags next_insn ;
  if negb (InstructionFlags.IsVisitedOrChanged flags) then
    let target_line := CopyFromLine target_line merge_line in
    (if InstructionFlags.IsReturnFlag flags then
       run_line ctx merge_line VerifyMonitorStackEmpty ;;
       do r <- run_line ctx target_line (AdjustReturnLine next_insn) ;
       PutLine next_insn (snd r)
     else PutLine next_insn target_line) ;;
    UpdateFlags next_insn InstructionFlags.SetChanged ;;
    sret (true, merge_line)
  else
    do r <- run_line ctx target_line (MergeRegisters hier merge_line) ;
    let '(changed, target_line) := r in
    PutLine next_insn target_line ;;
    do hard <- pending_hard ;
    if hard then sret (false, merge_line)
    else
      (if changed : bool then UpdateFlags next_insn InstructionFlags.SetChanged else sret tt) ;;
      sret (true, if update_merge_line && changed then CopyFromLine merge_line target_line else merge_line).

Definition update_target (target : Z) (l : RegisterLine) : CM bool :=
  do ok <- CheckNotMoveExceptionOrMoveResult target ;
  if negb ok then sret false
  else do r <- UpdateRegisters target l false ; sret (fst r).

(** The branch; [None] stops the instruction, and the branch target is zero when there is none. *)
Definition flow_branch (idx : Z) (r : insn_result) : CM (option Z) :=
  if has_flag (opcode_flags r) kBranch then
    match GetBranchOffset (code_item_ ctx) idx with
    | None => Fail VERIFY_ERROR_BAD_CLASS_HARD ;; sret None
    | Some (branch_target, _, _) =>
        do w <- sget work_line_ ;
        do ok <- update_target (u32 (idx + branch_target)) (default w (branch_line r)) ;
        sret (if ok : bool then Some branch_target else None)
    end
  else sret (Some 0).

Fixpoint flow_targets (n : nat) (idx targets targ : Z) : CM bool :=
  match n with
  | O => sret true
  | S n =>
      let offset := s32 (Fetch32 insns (targets + targ * 2) 0) in
      do w <- sget work_line_ ;
      do ok <- update_target (u32 (idx + offset)) w ;
      if negb ok then sret false else flow_targets n idx targets (targ + 1)
  end.
Definition flow_switch (idx : Z) (r : insn_result) : CM bool :=
  if has_flag (opcode_flags r) kSwitch then
    let switch_insns := idx + s32 (Fetch32 insns idx 1) in
    let switch_count := insns (switch_insns + 1) in
    let offset_to_targets :=
      if bool_decide (opcode insns idx = PACKED_SWITCH) then 4 else 2 + 2 * switch_count in
    flow_targets (Z.to_nat switch_count) idx (switch_insns + offset_to_targets) 0
  else sret true.

(** The handlers of the instruction; the first flag is the result, the second says that one of
    them catches everything. *)
Fixpoint flow_handlers (handlers : list (Z * Z)) (has_catch_all_handler : bool) : CM (bool * bool) :=
  match handlers with
  | [] => sret (true, has_catch_all_handler)
  | (handler_type_idx, address) :: handlers =>
      do catches_all <-
        (if handler_type_idx =? 0xFFFF then sret true
         else
           do klass <- ResolveTypeCached handler_type_idx ;
           sret (bool_decide (klass = Some java_lang_Throwable))) ;
      do saved <- sget saved_line_ ;
      do r <- UpdateRegisters address saved false ;
      if negb (fst r) then sret (false, has_catch_all_handler)
      else flow_handlers handlers (has_catch_all_handler || catches_all)
  end.
Definition flow_throw (idx : Z) (r : insn_result) : CM bool :=
  do flags <- GetFlags idx ;
  if has_flag (opcode_flags r) kThrow && InstructionFlags.IsInTry flags then
    do h <- flow_handlers (handlers_of ctx idx) false ;
    if negb (fst h) then sret false
    else
      do w <- sget work_line_ ;
      if (0 <? MonitorStackDepth w)%nat && negb (snd h)
         && (negb (bool_decide (opcode insns idx = MONITOR_ENTER)) || negb (MonitorStackDepth w =? 1)%nat)
      then Fail VERIFY_ERROR_BAD_CLASS_HARD ;; sret false
      else sret true
  else sret true.

Definition flow_continue (idx : Z) (r : insn_result) : CM bool :=
  if has_flag (opcode_flags r) kContinue then
    do size <- on_base (SizeOf (code_item_ ctx) idx) ;
    let next_insn_idx := u32 (idx + size) in
    if insn_count <=? next_insn_idx then Fail VERIFY_ERROR_BAD_CLASS_HARD ;; sret false
    else
      do ok <- CheckNotMoveException_ next_insn_idx ;
      if negb ok then sret false
      else
        match fallthrough_line r with
        | Some l => modify_work (fun w => CopyFromLine w l)
        | None => sret tt
        end ;;
        do flags <- GetFlags next_insn_idx ;
        (if InstructionFlags.IsReturnFlag flags then work (AdjustReturnLine next_insn_idx) else sret tt) ;;
        do next_line <- GetLine next_insn_idx ;
        match next_line with
        | Some _ =>
            do w <- sget work_line_ ;
            do u <- UpdateRegisters next_insn_idx w true ;
            smod (fun v => set_work v (snd u)) ;;
            sret (fst u)
        | None => UpdateFlags next_insn_idx InstructionFlags.SetChanged ;; sret true
        end
  else sret true.

Definition next_guess (idx : Z) (flags branch_target start_guess : Z) : CM Z :=
  if has_flag flags kContinue then
    do size <- on_base (SizeOf (code_item_ ctx) idx) ;
    sret (u32 (idx + size))
  else if has_flag flags kBranch then sret (u32 (idx + branch_target))
  else sret start_guess.

(** ** One instruction *)

(** The monitors held before the instruction of interest. *)
Definition note_monitors : CM unit :=
  smod (fun v =>
    match monitor_enter_dex_pcs_ v with
    | Some _ => if work_insn_idx_ v =? interesting_dex_pc_ ctx
                then set_monitor_pcs v (Some (monitors_ (work_line_ v))) else v
    | None => v
    end).
Definition save_line (c : Code) : CM unit :=
  do flags <- CurrentInsnFlags ;
  if has_flag (FlagsOf c) kThrow && InstructionFlags.IsInTry flags
  then smod (fun v => set_saved v (CopyFromLine (saved_line_ v) (work_line_ v)))
  else sret tt.

(** The result and the new [start_guess]. *)
Definition CodeFlowVerifyInstruction (start_guess : Z) : CM (bool * Z) :=
  note_monitors ;;
  do idx <- sget work_insn_idx_ ;
  save_line (opcode insns idx) ;;
  do r <- switch_instruction idx ;
  do b <- sget base ;
  if have_pending_hard_failure_ b then
    if is_aot ctx && negb (bool_decide (last (failures_ b) = Some VERIFY_ERROR_BAD_CLASS_HARD)) then sfail
    else sret (false, start_guess)
  else
    let r :=
      if have_pending_runtime_throw_failure_ b
      then mkResult (just_set_result r) kThrow (branch_line r) (fallthrough_line r) else r in
    (if negb (just_set_result r) then modify_work SetResultTypeToUnknown else sret tt) ;;
    do branched <- flow_branch idx r ;
    match branched with
    | None => sret (false, start_guess)
    | Some branch_target =>
        do switched <- flow_switch idx r ;
        if negb switched then sret (false, start_guess)
        else
          do thrown <- flow_throw idx r ;
          if negb thrown then sret (false, start_guess)
          else
            do continued <- flow_continue idx r ;
            if negb continued then sret (false, start_guess)
            else
              (if has_flag (opcode_flags r) kReturn then work VerifyMonitorStackEmpty else sret tt) ;;
              do guess <- next_guess idx (opcode_flags r) branch_target start_guess ;
              do b <- sget base ;
              (if have_pending_runtime_throw_failure_ b
               then smod (fun v => set_any_throw v true) ;; set_runtime_throw false
               else sret tt) ;;
              sret (true, guess)
    end.

(** ** The work list *)
Fixpoint find_changed (n : nat) (insn_idx : Z) : CM Z :=
  match n with
  | O => sret insn_idx
  | S n =>
      if insn_idx <? insn_count then
        do flags <- GetFlags insn_idx ;
        if InstructionFlags.IsChanged flags then sret insn_idx else find_changed n (insn_idx + 1)
      else sret insn_idx
  end.
Definition load_line (insn_idx : Z) : CM unit :=
  smod (fun v => set_work_idx v insn_idx) ;;
  do flags <- GetFlags insn_idx ;
  if InstructionFlags.IsBranchTarget flags then
    do l <- GetLine insn_idx ;
    do l <- or_abort l ;
    modify_work (fun w => CopyFromLine w l)
  else sret tt.
(** One round of the loop: [inl] is the next [start_guess], [inr] the result. *)
Definition flow_round (start_guess : Z) : CM (Z + bool) :=
  do insn_idx <- find_changed (Z.to_nat (insn_count - start_guess)) start_guess ;
  if insn_idx =? insn_count then
    if negb (start_guess =? 0) then sret (inl 0) else sret (inr true)
  else
    load_line insn_idx ;;
    do r <- CodeFlowVerifyInstruction start_guess ;
    if negb (fst r) then sret (inr false)
    else
      UpdateFlags insn_idx InstructionFlags.SetVisited ;;
      UpdateFlags insn_idx InstructionFlags.ClearChanged ;;
      sret (inl (snd r)).
Fixpoint flow_loop (fuel : nat) (start_guess : Z) : CM bool :=
  do r <- flow_round start_guess ;
  match r with
  | inr b => sret b
  | inl guess => match fuel with O => sfail | S fuel => flow_loop fuel guess end
  end.
Definition CodeFlowVerifyMethod (fuel : nat) : CM bool :=
  UpdateFlags 0 InstructionFlags.SetChanged ;;
  flow_loop fuel 0.

(** ** The signature *)
Definition IsPrimitiveDescriptor (c : ascii) : bool :=
  existsb (Ascii.eqb c) ["I"; "C"; "S"; "B"; "Z"; "F"; "D"; "J"]%char.

(** [reg_line->SetRegisterType<LockOp::kClear>] on the line of the first instruction. *)
Definition on_first {A} (m : LM A) : CM unit :=
  do l <- GetLine 0 ;
  do l <- or_abort l ;
  do r <- run_line ctx l m ;
  PutLine 0 (snd r).
Definition set_this (arg : Z) : CM unit :=
  do declaring_class <- GetDeclaringClass ctx ;
  do t <- type_at declaring_class ;
  if IsConstructor ctx then
    if IsJavaLangObject hier t then
      on_first (modify (fun l => set_initialized l true)) ;;
      on_first (SetRegisterType kClear arg declaring_class)
    else
      do uninit <- on_types (fun c => UninitializedThisArgument c declaring_class) ;
      on_first (SetRegisterType kClear arg uninit)
  else on_first (SetRegisterType kClear arg declaring_class).

(** The parameters from [cur_arg] on: the number of arguments, or an error. *)
Fixpoint set_params (params : list Z) (arg_start cur_arg expected_args : Z) : CM (option Z) :=
  match params with
  | [] => sret (Some cur_arg)
  | type_idx :: params =>
      let bad := Fail VERIFY_ERROR_BAD_CLASS_HARD ;; sret None in
      let one t := on_first (SetRegisterType kClear (arg_start + cur_arg) t) ;;
                   set_params params arg_start (cur_arg + 1) expected_args in
      let two lo hi :=
        if expected_args <=? cur_arg + 1 then bad
        else on_first (SetRegisterTypeWide (arg_start + cur_arg) lo hi) ;;
             set_params params arg_start (cur_arg + 2) expected_args in
      if expected_args <=? cur_arg then bad
      else
        match descriptor_by_type_idx type_idx with
        | String "L" _ | String "[" _ =>
            do reg_type <- ResolveClassAndCheckAccess ctx type_idx ;
            do t <- type_at reg_type ;
            if negb (IsNonZeroReferenceTypes t) then sret None else one reg_type
        | String "Z" _ => one Boolean
        | String "C" _ => one Char
        | String "B" _ => one Byte
        | String "I" _ => one Integer
        | String "S" _ => one Short
        | String "F" _ => one Float
        | String "J" _ => two LongLo LongHi
        | String "D" _ => two DoubleLo DoubleHi
        | _ => bad
        end
  end.

(** The format of the return type. *)
Fixpoint skip_brackets (d : string) : string :=
  match d with String "[" d => skip_brackets d | _ => d end.
Fixpoint has_semicolon (d : string) : bool :=
  match d with String c d => Ascii.eqb c ";" || has_semicolon d | EmptyString => false end.
Definition is_empty (d : string) : bool := match d with EmptyString => true | _ => false end.
Definition return_descriptor_ok (d : string) : bool :=
  match d with
  | String "[" d =>
      match skip_brackets d with
      | String "L" d => has_semicolon d
      | String c d => IsPrimitiveDescriptor c && is_empty d
      | EmptyString => false
      end
  | String "L" d => has_semicolon d
  | String c d => (IsPrimitiveDescriptor c || Ascii.eqb c "V") && is_empty d
  | EmptyString => false
  end.

Definition SetTypesFromSignature : CM bool :=
  let expected_args := ins_size_ (code_item_ ctx) in
  let arg_start := registers_size_ (code_item_ ctx) - expected_args in
  if negb (IsStatic ctx) && (expected_args =? 0) then Fail VERIFY_ERROR_BAD_CLASS_HARD ;; sret false
  else
    (if negb (IsStatic ctx) then set_this arg_start else sret tt) ;;
    do found <- set_params (method_param_types (dex_method_idx_ ctx)) arg_start
                  (if negb (IsStatic ctx) then 1 else 0) expected_args ;
    match found with
    | None => sret false
    | Some cur_arg =>
        if negb (cur_arg =? expected_args) then Fail VERIFY_ERROR_BAD_CLASS_HARD ;; sret false
        else
          let result := return_descriptor_ok (method_return_descriptor (dex_method_idx_ ctx)) in
          (if negb result then Fail VERIFY_ERROR_BAD_CLASS_HARD else sret tt) ;;
          sret result
    end.

(** ** The pass *)

(** [PcToRegisterLineTable::Init] in the mode [kTrackCompilerInterestPoints]. *)
Definition interesting (flags : Z) : bool :=
  InstructionFlags.IsCompileTimeInfoPoint flags || InstructionFlags.IsBranchTarget flags.
Definition InitTable (flags : list Z) (registers_size : Z) : list (option RegisterLine) :=
  map (fun f => if interesting f then Some (NewRegisterLine registers_size) else None) flags.

Definition VerifyCodeFlow (fuel : nat) : CM bool :=
  let registers_size := registers_size_ (code_item_ ctx) in
  smod (fun v => set_table v (InitTable (insn_flags_ (base v)) registers_size)) ;;
  smod (fun v => set_work v (NewRegisterLine registers_size)) ;;
  smod (fun v => set_saved v (NewRegisterLine registers_size)) ;;
  do ok <- SetTypesFromSignature ;
  if negb ok then sret false
  else
    set_runtime_throw false ;;
    CodeFlowVerifyMethod fuel.
End CodeFlow.
