(* ===== verification/CodeFlowMono.v ===== *)
(** * What every step of the code-flow pass keeps

    The cache of register types only grows, failures are only added, and of the flags of an
    instruction only "visited" and "changed" change.  The classes [LMono] and [Mono] derive this
    for the computations of the pass from their structure. *)

From Stdlib Require Import Ascii.
From stdpp Require Import strings.
From S2P Require Import Prelude DexOpcodes DexInstruction VerifierStatic InterpreterBase ClassHierarchy.
From S2P Require Import RegTypes RegTypeProofs RegisterLine CodeFlowState CodeFlowChecks CodeFlow.
Import InstructionFlags.

(** ** The cache *)
Lemma ext_refl c i : extends c (snd (A := nat) (i, c)).
Proof. apply extends_refl. Qed.
Lemma ext_add c t : extends c (snd (AddEntry c t)).
Proof. apply add_extends. Qed.
#[export] Hint Resolve extends_refl ext_refl ext_add : mono.
Lemma ext_find c p t : extends c (snd (find_or_add c p t)).
Proof. unfold find_or_add. destruct (lookup_entry c p); auto with mono. Qed.
#[export] Hint Resolve ext_find : mono.
Lemma ext_const c v precise : extends c (snd (FromCat1Const c v precise)).
Proof. unfold FromCat1Const, FromCat1NonSmallConstant. case_match; auto with mono. Qed.
Lemma ext_lo c v precise : extends c (snd (FromCat2ConstLo c v precise)).
Proof. apply ext_find. Qed.
Lemma ext_hi c v precise : extends c (snd (FromCat2ConstHi c v precise)).
Proof. apply ext_find. Qed.
Lemma ext_class H c d k precise : extends c (snd (FromClass H c d k precise)).
Proof. unfold FromClass, InsertClass. destruct (FindClass H c k precise); auto with mono. Qed.
#[export] Hint Resolve ext_const ext_lo ext_hi ext_class : mono.
Lemma ext_object H c precise : extends c (snd (JavaLangObject H c precise)).
Proof. apply ext_class. Qed.
Lemma ext_high c t : extends c (snd (HighHalf c t)).
Proof. unfold HighHalf. repeat case_match; auto with mono. Qed.
Lemma ext_uninit c i pc : extends c (snd (Uninitialized c i pc)).
Proof. unfold Uninitialized. repeat case_match; auto with mono. Qed.
Lemma ext_this c i : extends c (snd (UninitializedThisArgument c i)).
Proof. unfold UninitializedThisArgument. repeat case_match; auto with mono. Qed.
Lemma ext_init H c i : extends c (snd (FromUninitialized H c i)).
Proof. unfold FromUninitialized. repeat case_match; auto with mono. Qed.
Lemma ext_from H R V c d precise : extends c (snd (From H R V c d precise)).
Proof. unfold From. repeat case_match; auto with mono. Qed.
#[export] Hint Resolve ext_object ext_high ext_uninit ext_this ext_init ext_from : mono.
Lemma ext_descriptor H R V c d precise : extends c (snd (FromDescriptor H R V c d precise)).
Proof. unfold FromDescriptor. repeat case_match; auto with mono. Qed.
#[export] Hint Resolve ext_descriptor : mono.
Lemma ext_component H R V E c i : extends c (snd (GetComponentTypeOf H R V E c i)).
Proof. unfold GetComponentTypeOf. repeat case_match; auto with mono. Qed.
Lemma ext_super H c i r : RegTypes.GetSuperClass H c i = Some r -> extends c (snd r).
Proof.
  unfold RegTypes.GetSuperClass, FromUnresolvedSuperClass. repeat case_match; intros [= <-]; auto with mono.
Qed.
Lemma ext_constants c a b : extends c (snd (merge_constants c a b)).
Proof.
  unfold merge_constants, ByteConstant, ShortConstant, IntConstant. repeat case_match; auto with mono.
Qed.
#[export] Hint Resolve ext_component ext_constants : mono.

Lemma ext_merge H n c a b r : Merge H n c a b = Some r -> extends c (snd r).
Proof.
  revert c a b r. induction n as [|n IH]; intros c a b r E; [done|]. cbn [Merge] in E.
  repeat (match type of E with (if ?b then _ else _) = _ => destruct b end); try (injection E as <-; auto with mono; fail).
  - unfold FromUnresolvedMerge in E. destruct (merge_parts c a) as [[lt lr] la], (merge_parts c b) as [[rt rr] ra].
    cbv beta iota zeta in E.
    match type of E with match ?x with _ => _ end = _ => destruct x as [[i c1]|] eqn:E1; [|done] end.
    apply (extends_trans c c1).
    + destruct (Equals lr rr); [injection E1 as <- <-; auto with mono|by apply IH in E1].
    + repeat (match type of E with (if ?b then _ else _) = _ => destruct b end); injection E as <-; auto with mono.
  - destruct (klass_ (GetFromId c a)) as [c1|], (klass_ (GetFromId c b)) as [c2|]; try done. injection E as <-.
    unfold merge_classes. repeat case_match; auto with mono.
Qed.
Lemma ext_merge_types H cur : forall c inc ch r,
  merge_types H c cur inc ch = Some r -> extends c (snd r).
Proof.
  induction cur as [|i cur IH]; intros c inc ch r E; [injection E as <-; auto with mono|].
  destruct inc as [|j inc]; [done|]. cbn [merge_types] in E.
  destruct (if (i =? j)%nat then _ else _) as [[[k ch1] c1]|] eqn:E1; [|done].
  destruct (merge_types H c1 cur inc ch1) as [[[l ch2] c2]|] eqn:E2; [|done]. injection E as <-. cbn [snd].
  apply (extends_trans c c1); [|by apply IH in E2]. destruct (i =? j)%nat; [injection E1 as <- <- <-; auto with mono|].
  destruct (Merge H 2 c i j) as [[k' c']|] eqn:Em; [|done]. injection E1 as <- <- <-. by apply ext_merge in Em.
Qed.

(** ** Computations on lines *)
Class LMono {A} (m : LM A) : Prop :=
  lmono : forall s a s', m s = Some (a, s') -> extends (types s) (types s') /\ errors s `prefix_of` errors s'.

#[global] Instance lmono_ret {A} (a : A) : LMono (sret a).
Proof. intros s b s' [= <- <-]. split; [apply extends_refl|done]. Qed.
#[global] Instance lmono_bind {A B} (m : LM A) (k : A -> LM B) : LMono m -> (forall a, LMono (k a)) -> LMono (sbind m k).
Proof.
  intros Hm Hk s b s'. unfold sbind. destruct (m s) as [[a s1]|] eqn:E; [|done]. intros E2.
  apply Hm in E as [? ?]. apply Hk in E2 as [? ?]. split; [by eapply extends_trans|by etrans].
Qed.
#[global] Instance lmono_if {A} (b : bool) (m1 m2 : LM A) : LMono m1 -> LMono m2 -> LMono (if b then m1 else m2).
Proof. by destruct b. Qed.
#[global] Instance lmono_fail {A} : LMono (A := A) sfail.
Proof. done. Qed.
#[global] Instance lmono_get {A} (f : line_state -> A) : LMono (sget f).
Proof. intros s b s' [= <- <-]. split; [apply extends_refl|done]. Qed.
#[global] Instance lmono_modify f : LMono (modify f).
Proof. intros s b s' [= <- <-]. split; [apply extends_refl|done]. Qed.
#[global] Instance lmono_lift {A} (m : option A) : LMono (lift m).
Proof. intros s b s'. unfold lift. destruct m; [|done]. intros [= <- <-]. split; [apply extends_refl|done]. Qed.
#[global] Instance lmono_Fail e : LMono (RegisterLine.Fail e).
Proof. intros s b s' [= <- <-]. split; [apply extends_refl|by eexists]. Qed.
#[global] Instance lmono_cached {A} (f : RegTypeCache -> A * RegTypeCache) :
  (forall c, extends c (snd (f c))) -> LMono (cached f).
Proof.
  intros Hf s b s'. unfold cached. specialize (Hf (types s)). destruct (f (types s)) as [a c]. intros [= <- <-]. by split.
Qed.
#[global] Instance lmono_read v : LMono (GetRegisterType v).
Proof. intros s b s'. unfold GetRegisterType. case_match; [|done]. intros [= <- <-]. split; [apply extends_refl|done]. Qed.
#[global] Instance lmono_write v i : LMono (write_line v i).
Proof. intros s b s'. unfold write_line. case_match; [|done]. intros [= <- <-]. split; [apply extends_refl|done]. Qed.
#[global] Instance lmono_assignable H a b : LMono (RegisterLine.IsAssignableFrom H a b).
Proof. intros s x s'. unfold RegisterLine.IsAssignableFrom. case_match; [|done]. intros [= <- <-]. split; [apply extends_refl|done]. Qed.

#[global] Instance lmono_deref i : LMono (deref i).
Proof. unfold deref. apply _. Qed.
#[global] Instance lmono_modify_depths f : LMono (modify_depths f).
Proof. unfold modify_depths. apply _. Qed.

Ltac lmono_step :=
  lazymatch goal with
  | |- forall _, _ => intros ?
  | |- LMono (sbind _ _) => apply lmono_bind
  | |- LMono (match ?x with _ => _ end) => destruct x
  | |- LMono _ => first [apply _ | progress cbv zeta]
  end.
Ltac lmono := repeat lmono_step.

#[global] Instance lmono_SetRegisterType o v t : LMono (SetRegisterType o v t).
Proof. unfold SetRegisterType. lmono. Qed.
#[global] Instance lmono_SetRegisterTypeWide v t1 t2 : LMono (SetRegisterTypeWide v t1 t2).
Proof. unfold SetRegisterTypeWide. lmono. Qed.
#[global] Instance lmono_CopyRegister1 a b cat : LMono (CopyRegister1 a b cat).
Proof. unfold CopyRegister1. lmono. Qed.
#[global] Instance lmono_CopyRegister2 a b : LMono (CopyRegister2 a b).
Proof. unfold CopyRegister2. lmono. Qed.
#[global] Instance lmono_CopyResultRegister1 a b : LMono (CopyResultRegister1 a b).
Proof. unfold CopyResultRegister1. lmono. Qed.
#[global] Instance lmono_CopyResultRegister2 a : LMono (CopyResultRegister2 a).
Proof. unfold CopyResultRegister2. lmono. Qed.
#[global] Instance lmono_CheckConstructorReturn : LMono CheckConstructorReturn.
Proof. unfold CheckConstructorReturn. lmono. Qed.
#[global] Instance lmono_VerifyMonitorStackEmpty : LMono VerifyMonitorStackEmpty.
Proof. unfold VerifyMonitorStackEmpty. lmono. Qed.
#[global] Instance lmono_PushMonitor a b : LMono (PushMonitor a b).
Proof. unfold PushMonitor. lmono. Qed.
#[global] Instance lmono_PopMonitor a : LMono (PopMonitor a).
Proof. unfold PopMonitor. lmono. Qed.
#[global] Instance lmono_VerifyRegisterType H a b : LMono (VerifyRegisterType H a b).
Proof. unfold VerifyRegisterType. lmono. Qed.
#[global] Instance lmono_VerifyRegisterTypeWide H a b c : LMono (VerifyRegisterTypeWide H a b c).
Proof. unfold VerifyRegisterTypeWide. lmono. Qed.
#[global] Instance lmono_MarkRefsAsInitialized H a : LMono (MarkRefsAsInitialized H a).
Proof. unfold MarkRefsAsInitialized. lmono. apply lmono_cached. intros c. apply ext_init. Qed.
#[global] Instance lmono_GetInvocationThis c i a b : LMono (GetInvocationThis c i a b).
Proof. unfold GetInvocationThis. lmono. Qed.
#[global] Instance lmono_both_boolean a b : LMono (both_boolean a b).
Proof. unfold both_boolean. lmono. Qed.
#[global] Instance lmono_check_binary H a b c t1 t2 t3 x : LMono (check_binary H a b c t1 t2 t3 x).
Proof. unfold check_binary. lmono. Qed.
#[global] Instance lmono_check_binary_wide H a b c t1 t2 t3 t4 t5 t6 : LMono (check_binary_wide H a b c t1 t2 t3 t4 t5 t6).
Proof. unfold check_binary_wide. lmono. Qed.
#[global] Instance lmono_check_wide_shift H a b c t1 t2 t3 : LMono (check_wide_shift H a b c t1 t2 t3).
Proof. unfold check_wide_shift. lmono. Qed.
#[global] Instance lmono_CheckBinaryOp H c i t1 t2 t3 x : LMono (CheckBinaryOp H c i t1 t2 t3 x).
Proof. unfold CheckBinaryOp. apply _. Qed.
#[global] Instance lmono_CheckBinaryOp2addr H c i t1 t2 t3 x : LMono (CheckBinaryOp2addr H c i t1 t2 t3 x).
Proof. unfold CheckBinaryOp2addr. apply _. Qed.
#[global] Instance lmono_CheckBinaryOpWide H c i t1 t2 t3 t4 t5 t6 : LMono (CheckBinaryOpWide H c i t1 t2 t3 t4 t5 t6).
Proof. unfold CheckBinaryOpWide. apply _. Qed.
#[global] Instance lmono_CheckBinaryOp2addrWide H c i t1 t2 t3 t4 t5 t6 : LMono (CheckBinaryOp2addrWide H c i t1 t2 t3 t4 t5 t6).
Proof. unfold CheckBinaryOp2addrWide. apply _. Qed.
#[global] Instance lmono_CheckBinaryOpWideShift H c i t1 t2 t3 : LMono (CheckBinaryOpWideShift H c i t1 t2 t3).
Proof. unfold CheckBinaryOpWideShift. apply _. Qed.
#[global] Instance lmono_CheckBinaryOp2addrWideShift H c i t1 t2 t3 : LMono (CheckBinaryOp2addrWideShift H c i t1 t2 t3).
Proof. unfold CheckBinaryOp2addrWideShift. apply _. Qed.
#[global] Typeclasses Opaque CheckBinaryOp CheckBinaryOp2addr CheckBinaryOpWide CheckBinaryOp2addrWide CheckBinaryOpWideShift
  CheckBinaryOp2addrWideShift.
#[global] Instance lmono_CheckUnaryOp H c i a b : LMono (CheckUnaryOp H c i a b).
Proof. unfold CheckUnaryOp. lmono. Qed.
#[global] Instance lmono_CheckUnaryOpWide H c i t1 t2 t3 t4 : LMono (CheckUnaryOpWide H c i t1 t2 t3 t4).
Proof. unfold CheckUnaryOpWide. lmono. Qed.
#[global] Instance lmono_CheckUnaryOpToWide H c i t1 t2 t3 : LMono (CheckUnaryOpToWide H c i t1 t2 t3).
Proof. unfold CheckUnaryOpToWide. lmono. Qed.
#[global] Instance lmono_CheckUnaryOpFromWide H c i t1 t2 t3 : LMono (CheckUnaryOpFromWide H c i t1 t2 t3).
Proof. unfold CheckUnaryOpFromWide. lmono. Qed.
#[global] Instance lmono_CheckLiteralOp H c i t1 t2 x y : LMono (CheckLiteralOp H c i t1 t2 x y).
Proof. unfold CheckLiteralOp. lmono. Qed.
#[global] Instance lmono_MergeRegisters H inc : LMono (MergeRegisters H inc).
Proof.
  intros s b s'. unfold MergeRegisters, sbind, sget, lift.
  destruct (merge_types H _ _ _ _) as [[[regs ch] c]|] eqn:E; [|done]. destruct (merge_locks _ _) as [m errs].
  intros [= <- <-]. apply ext_merge_types in E. split; [done|]. by eexists.
Qed.

(** ** Flags and failures *)

(** The flags the code-flow pass does not write. *)
Definition static_flags (l : list Z) : list Z := map (fun f => Z.land f 0x7c) l.

Lemma static_bit b f g : 2 <= b < 7 -> Z.land f 0x7c = Z.land g 0x7c -> is_bit b f = is_bit b g.
Proof.
  intros Hb E. rewrite !is_bit_testbit by lia.
  assert (forall x, Z.testbit x b = Z.testbit (Z.land x 0x7c) b) as Hx.
  { intros x. rewrite Z.land_spec. assert (b = 2 \/ b = 3 \/ b = 4 \/ b = 5 \/ b = 6) as Hc by lia.
    destruct_or! Hc; subst; by rewrite andb_true_r. }
  by rewrite Hx, E, <- Hx.
Qed.
Lemma static_high x y : (forall n, 2 <= n < 8 -> Z.testbit x n = Z.testbit y n) -> Z.land x 0x7c = Z.land y 0x7c.
Proof.
  intros Hxy. apply Z.bits_inj'. intros n Hn. rewrite !Z.land_spec.
  destruct (decide (2 <= n < 8)) as [Hd|Hd]; [by rewrite Hxy|].
  assert (Z.testbit 0x7c n = false) as ->; [|by rewrite !andb_false_r].
  destruct (decide (n < 2)) as [Hl|Hl]; [assert (n = 0 \/ n = 1) as Hc by lia; by destruct_or! Hc; subst|].
  apply Z.bits_above_log2; [done|]. change (Z.log2 0x7c) with 6. lia.
Qed.
Lemma bits_u8 x n : 0 <= n < 8 -> Z.testbit (u8 x) n = Z.testbit x n.
Proof. intros Hn. unfold wrapu. by rewrite Z.mod_pow2_bits_low by lia. Qed.
Lemma static_set b f : b = kVisited \/ b = kChanged -> Z.land (set_bit b f) 0x7c = Z.land f 0x7c.
Proof.
  intros Hb. apply static_high. intros n Hn. unfold set_bit. rewrite bits_u8, Z.lor_spec, Z.shiftl_1_l, Z.pow2_bits_eqb by (destruct_or! Hb; subst; unfold kVisited, kChanged; lia).
  rewrite (proj2 (Z.eqb_neq _ _)); [apply orb_false_r|]. destruct_or! Hb; subst; unfold kVisited, kChanged; lia.
Qed.
Lemma static_clear f : Z.land (ClearChanged f) 0x7c = Z.land f 0x7c.
Proof.
  apply static_high. intros n Hn. unfold ClearChanged, clear_bit.
  rewrite bits_u8, Z.land_spec, Z.lnot_spec, Z.shiftl_1_l, Z.pow2_bits_eqb by (unfold kChanged; lia).
  rewrite (proj2 (Z.eqb_neq _ _)) by (unfold kChanged; lia). apply andb_true_r.
Qed.

(** ** The state *)
Record advances (v v' : vstate) : Prop := {
  adv_types : extends (reg_types_ v) (reg_types_ v');
  adv_failures : failures_ (base v) `prefix_of` failures_ (base v');
  adv_flags : static_flags (insn_flags_ (base v')) = static_flags (insn_flags_ (base v))
}.
#[global] Instance advances_preorder : PreOrder advances.
Proof.
  split; [intros v; by split; [apply extends_refl| |]|].
  intros u v w [E1 F1 S1] [E2 F2 S2]. split; [by eapply extends_trans|by etrans|congruence].
Qed.
Lemma advances_same v v' : reg_types_ v' = reg_types_ v -> base v' = base v -> advances v v'.
Proof. intros E1 E2. split; [rewrite E1; apply extends_refl|by rewrite E2|by rewrite E2]. Qed.

Class Mono {A} (m : CM A) : Prop := mono : forall v a v', m v = Some (a, v') -> advances v v'.

#[global] Instance mono_ret {A} (a : A) : Mono (sret a).
Proof. by intros v b v' [= <- <-]. Qed.
#[global] Instance mono_bind {A B} (m : CM A) (k : A -> CM B) : Mono m -> (forall a, Mono (k a)) -> Mono (sbind m k).
Proof.
  intros Hm Hk v b v'. unfold sbind. destruct (m v) as [[a v1]|] eqn:E; [|done]. intros E2.
  etrans; [by eapply Hm|by eapply Hk].
Qed.
#[global] Instance mono_if {A} (b : bool) (m1 m2 : CM A) : Mono m1 -> Mono m2 -> Mono (if b then m1 else m2).
Proof. by destruct b. Qed.
#[global] Instance mono_fail {A} : Mono (A := A) sfail.
Proof. done. Qed.
#[global] Instance mono_get {A} (f : vstate -> A) : Mono (sget f).
Proof. by intros v b v' [= <- <-]. Qed.
Lemma mono_mod f : (forall v, reg_types_ (f v) = reg_types_ v /\ base (f v) = base v) -> Mono (smod f).
Proof. intros Hf v b v' [= <- <-]. destruct (Hf v). by apply advances_same. Qed.
#[export] Hint Extern 2 (Mono (smod _)) => apply mono_mod; intros; done : typeclass_instances.
#[global] Instance mono_or_abort {A} (m : option A) : Mono (or_abort m).
Proof. intros v b v'. unfold or_abort. destruct m; [|done]. by intros [= <- <-]. Qed.
Lemma mono_types f : (forall c, extends c (snd (f c))) -> Mono (on_types f).
Proof.
  intros Hf v b v'. unfold on_types. specialize (Hf (reg_types_ v)). destruct (f (reg_types_ v)) as [i c].
  intros [= <- <-]. by split.
Qed.
#[export] Hint Extern 2 (Mono (on_types _)) => apply mono_types; intros; auto with mono; fail : typeclass_instances.
#[global] Instance mono_type_at i : Mono (type_at i).
Proof. unfold type_at. apply _. Qed.
#[global] Instance mono_pending_hard : Mono pending_hard.
Proof. unfold pending_hard. apply _. Qed.
#[global] Instance mono_GetLine i : Mono (GetLine i).
Proof. intros v b v'. unfold GetLine. case_match; [|done]. by intros [= <- <-]. Qed.
#[global] Instance mono_PutLine i l : Mono (PutLine i l).
Proof. unfold PutLine. apply _. Qed.
#[global] Instance mono_modify_work f : Mono (modify_work f).
Proof. unfold modify_work. apply _. Qed.
#[global] Instance mono_runtime_throw b : Mono (set_runtime_throw b).
Proof. intros v a v' [= <- <-]. by split; [apply extends_refl| |]. Qed.

(** *** The flags and failures of the first pass *)
Definition base_advances (b b' : Verifier) : Prop :=
  failures_ b `prefix_of` failures_ b' /\ static_flags (insn_flags_ b') = static_flags (insn_flags_ b).
Lemma mono_on_base {A} (m : VM A) : (forall b a b', m b = Some (a, b') -> base_advances b b') -> Mono (on_base m).
Proof.
  intros Hm v a v'. unfold on_base. destruct (m (base v)) as [[x b]|] eqn:E; [|done]. intros [= <- <-].
  apply Hm in E as [? ?]. by split; [apply extends_refl| |].
Qed.
#[global] Instance mono_GetFlags i : Mono (GetFlags i).
Proof.
  apply mono_on_base. intros b a b'. unfold GetInstructionFlags. case_match; [|done]. by intros [= <- <-].
Qed.
#[global] Instance mono_CurrentInsnFlags : Mono CurrentInsnFlags.
Proof. intros v a v'. unfold CurrentInsnFlags. apply mono_GetFlags. Qed.
#[global] Instance mono_size c pc : Mono (on_base (SizeOf c pc)).
Proof. apply mono_on_base. intros b a b'. unfold SizeOf. case_match; [|done]. by intros [= <- <-]. Qed.

Lemma static_wr l i g :
  0 <= i < Z.of_nat (length l) -> Z.land (g (rd l i)) 0x7c = Z.land (rd l i) 0x7c -> static_flags (wr l i (g (rd l i))) = static_flags l.
Proof.
  intros Hi Hg. unfold static_flags, wr. rewrite list_fmap_insert, Hg. apply list_insert_id.
  rewrite list_lookup_fmap. destruct (lookup_lt_is_Some_2 l (Z.to_nat i)) as [x Hx]; [lia|].
  rewrite rd_lookup, Hx. done.
Qed.
Lemma mono_update i g : (forall f, Z.land (g f) 0x7c = Z.land f 0x7c) -> Mono (UpdateFlags i g).
Proof.
  intros Hg. apply mono_on_base. intros b a b'. unfold UpdateInstructionFlags. case_match eqn:E; [|done]. intros [= <- <-].
  split; [done|]. cbn. apply static_wr; [lia|apply Hg].
Qed.
#[global] Instance mono_SetChanged i : Mono (UpdateFlags i SetChanged).
Proof. apply mono_update. intros f. apply static_set. by right. Qed.
#[global] Instance mono_SetVisited i : Mono (UpdateFlags i SetVisited).
Proof. apply mono_update. intros f. apply static_set. by left. Qed.
#[global] Instance mono_ClearChanged i : Mono (UpdateFlags i ClearChanged).
Proof. apply mono_update. intros f. apply static_clear. Qed.

Lemma Fail_base a l s e b x b' : Fail_ a l s e b = Some (x, b') ->
  insn_flags_ b' = insn_flags_ b /\ exists e', failures_ b' = failures_ b ++ [e'].
Proof. unfold Fail_. destruct e, (a || negb l); intros [= <- <-]; cbn; eauto. Qed.
#[global] Instance mono_base_fail a l s e : Mono (on_base (Fail_ a l s e)).
Proof.
  apply mono_on_base. intros b x b' E. apply Fail_base in E as (E1 & e' & E2). split; [rewrite E2; by eexists|by rewrite E1].
Qed.
Lemma check_base a l s bad b x b' : check a l s bad b = Some (x, b') ->
  base_advances b b' /\ (failures_ b' = failures_ b -> bad = false /\ x = true /\ b' = b).
Proof.
  unfold check. destruct bad; [|intros [= <- <-]; by split].
  unfold bind. destruct (Fail_ _ _ _ _ b) as [[y b1]|] eqn:E; [|done]. intros [= <- <-].
  apply Fail_base in E as (E1 & e' & E2). split; [split; [rewrite E2; by eexists|by rewrite E1]|].
  rewrite E2. intros Ha. apply (f_equal length) in Ha. rewrite length_app in Ha. cbn in Ha. lia.
Qed.
#[global] Instance mono_check a l s bad : Mono (on_base (check a l s bad)).
Proof. apply mono_on_base. intros b x b' E. by apply check_base in E as [? _]. Qed.

(** ** The computations of the pass *)
Ltac mono_step :=
  lazymatch goal with
  | |- forall _, _ => intros ?
  | |- Mono (sbind _ _) => apply mono_bind
  | |- Mono (match ?x with _ => _ end) => destruct x
  | |- Mono _ => first [apply _ | progress cbv beta zeta]
  end.
Ltac mono := repeat mono_step.

Section Pass.
Context `{VS : VerifierServices} (ctx : MethodContext).
#[local] Abbreviation Fail := (CodeFlowState.Fail ctx).
#[local] Abbreviation work := (CodeFlowState.work ctx).

#[global] Instance mono_Fail e : Mono (Fail e).
Proof. unfold CodeFlowState.Fail. mono. Qed.
#[global] Instance mono_Fail_all l : Mono (Fail_all ctx l).
Proof. induction l as [|e l IH]; cbn [Fail_all]; mono. Qed.
#[global] Instance mono_FailOrAbort b : Mono (FailOrAbort ctx b).
Proof. unfold FailOrAbort. mono. Qed.
#[global] Instance mono_run_line {A} l (m : LM A) : LMono m -> Mono (run_line ctx l m).
Proof.
  intros Hm v a v'. unfold run_line. destruct (m _) as [[x s]|] eqn:E; [|done].
  destruct (Fail_all ctx (errors s) v) as [[[] v1]|] eqn:Ef; [|done]. intros [= <- <-].
  apply mono_Fail_all in Ef as [? ? ?]. apply Hm in E as [He _]. cbn in He. by split.
Qed.
#[global] Instance mono_work {A} (m : LM A) : LMono m -> Mono (work m).
Proof. intros Hm. unfold CodeFlowState.work. mono. Qed.
#[global] Instance mono_ResolveTypeCached i : Mono (ResolveTypeCached i).
Proof. unfold ResolveTypeCached. mono. Qed.
#[global] Instance mono_IsAssignable a b s : Mono (IsAssignable a b s).
Proof. intros v x v'. unfold IsAssignable. case_match; [|done]. by intros [= <- <-]. Qed.
#[global] Instance mono_MergeTypes a b : Mono (MergeTypes a b).
Proof.
  intros v x v'. unfold MergeTypes. destruct (Merge hier 2 _ a b) as [[i c]|] eqn:E; [|done]. intros [= <- <-].
  apply ext_merge in E. by split.
Qed.
#[global] Instance mono_FromDescriptorIn l d : Mono (FromDescriptorIn l d).
Proof. unfold FromDescriptorIn. mono. Qed.
#[global] Instance mono_FromDescriptor_ d : Mono (FromDescriptor_ d).
Proof. unfold FromDescriptor_. mono. Qed.
#[global] Instance mono_FromUninitialized_ i : Mono (FromUninitialized_ i).
Proof. unfold FromUninitialized_. mono. Qed.
#[global] Instance mono_GetComponentType_ i : Mono (GetComponentType_ i).
Proof. unfold GetComponentType_. mono. Qed.
#[global] Instance mono_HighHalf_ i : Mono (HighHalf_ i).
Proof. unfold HighHalf_. mono. Qed.
#[global] Instance mono_JavaLangObject_ b : Mono (JavaLangObject_ b).
Proof. unfold JavaLangObject_. mono. Qed.
#[global] Instance mono_JavaLangClass : Mono JavaLangClass.
Proof. unfold JavaLangClass. mono. Qed.
#[global] Instance mono_JavaLangString : Mono JavaLangString.
Proof. unfold JavaLangString. mono. Qed.
#[global] Instance mono_JavaLangThrowable b : Mono (JavaLangThrowable b).
Proof. unfold JavaLangThrowable. mono. Qed.
#[global] Instance mono_VerifierFromClass d k b : Mono (VerifierFromClass ctx d k b).
Proof. unfold VerifierFromClass. mono. Qed.
#[global] Instance mono_type_of_class d k : Mono (type_of_class ctx d k).
Proof. unfold type_of_class. mono. Qed.
#[global] Instance mono_GetDeclaringClass : Mono (GetDeclaringClass ctx).
Proof. unfold GetDeclaringClass. mono. Qed.
#[global] Instance mono_GetMethodReturnType : Mono (GetMethodReturnType ctx).
Proof. unfold GetMethodReturnType. mono. Qed.
#[global] Instance mono_UninstantiableError : Mono (UninstantiableError ctx).
Proof. unfold UninstantiableError. mono. Qed.
#[global] Instance mono_ResolveClassAndCheckAccess i : Mono (ResolveClassAndCheckAccess ctx i).
Proof. unfold ResolveClassAndCheckAccess. mono. Qed.
#[global] Instance mono_caught_types l s : Mono (caught_types ctx l s).
Proof. revert s. induction l as [|[t a] l IH]; intros s; cbn [caught_types]; mono. Qed.
#[global] Instance mono_caught_lists l s : Mono (caught_lists ctx l s).
Proof. revert s. induction l as [|h l IH]; intros s; cbn [caught_lists]; mono. Qed.
#[global] Instance mono_GetCaughtExceptionType : Mono (GetCaughtExceptionType ctx).
Proof. unfold GetCaughtExceptionType. mono. Qed.
#[global] Instance mono_DetermineCat1Constant x b : Mono (DetermineCat1Constant x b).
Proof.
  unfold DetermineCat1Constant. apply mono_types. intros c.
  unfold ByteConstant, ShortConstant, IntConstant, PosByteConstant, PosShortConstant, CharConstant.
  repeat case_match; auto with mono.
Qed.
#[global] Instance mono_CanAssignArray n a b : Mono (CanAssignArray n a b).
Proof. revert a b. induction n as [|n IH]; intros a b; cbn [CanAssignArray]; mono. Qed.

(** *** Arrays, fields and invocations *)
#[global] Instance mono_work_type r : Mono (work_type ctx r).
Proof. unfold work_type. mono. Qed.
#[global] Instance mono_SetWorkType r t : Mono (SetWorkType ctx r t).
Proof. unfold SetWorkType. mono. Qed.
#[global] Instance mono_set_by_width r i : Mono (set_by_width ctx r i).
Proof. unfold set_by_width. mono. Qed.
#[global] Instance mono_set_result_by_width i : Mono (set_result_by_width i).
Proof. unfold set_result_by_width. mono. Qed.
#[global] Instance mono_verify_registers l t : Mono (verify_registers ctx l t).
Proof. induction l as [|r l IH]; cbn [verify_registers]; mono. Qed.
#[global] Instance mono_pair_compatible r f : Mono (pair_compatible ctx r f).
Proof. unfold pair_compatible. mono. Qed.
#[global] Instance mono_VerifyPrimitivePut a b r : Mono (VerifyPrimitivePut ctx a b r).
Proof. unfold VerifyPrimitivePut. mono. Qed.
#[global] Instance mono_GetStaticField i : Mono (GetStaticField ctx i).
Proof. unfold GetStaticField. mono. Qed.
#[global] Instance mono_GetInstanceField t i : Mono (GetInstanceField ctx t i).
Proof. unfold GetInstanceField. mono. Qed.
#[global] Instance mono_declared_elsewhere f : Mono (declared_elsewhere ctx f).
Proof. unfold declared_elsewhere. mono. Qed.
#[global] Instance mono_field_reg_type f l d : Mono (field_reg_type ctx f l d).
Proof. unfold field_reg_type. mono. Qed.
#[global] Instance mono_ResolveMethodAndCheckAccess i t : Mono (ResolveMethodAndCheckAccess ctx i t).
Proof. unfold ResolveMethodAndCheckAccess. mono. Qed.
#[global] Instance mono_SuperClassOf i : Mono (SuperClassOf i).
Proof.
  intros v x v'. unfold SuperClassOf. destruct (RegTypes.GetSuperClass hier _ i) as [[j c]|] eqn:E; [|done]. intros [= <- <-].
  apply ext_super in E. by split.
Qed.
#[global] Instance mono_verify_super i m : Mono (verify_super ctx i m).
Proof. unfold verify_super. mono. Qed.

Section Instruction.
Context (inst : Z).
#[global] Instance mono_VerifyNewArray a b : Mono (VerifyNewArray ctx inst a b).
Proof. unfold VerifyNewArray. mono. Qed.
#[global] Instance mono_VerifyAGet t b : Mono (VerifyAGet ctx inst t b).
Proof. unfold VerifyAGet. mono. Qed.
#[global] Instance mono_VerifyAPut t b : Mono (VerifyAPut ctx inst t b).
Proof. unfold VerifyAPut. mono. Qed.
#[global] Instance mono_VerifyISFieldAccess a t b c : Mono (VerifyISFieldAccess ctx inst a t b c).
Proof. unfold VerifyISFieldAccess. mono. Qed.
#[global] Instance mono_GetQuickFieldAccess : Mono (GetQuickFieldAccess ctx inst).
Proof. unfold GetQuickFieldAccess. mono. Qed.
#[global] Instance mono_VerifyQuickFieldAccess a t b : Mono (VerifyQuickFieldAccess ctx inst a t b).
Proof. unfold VerifyQuickFieldAccess. mono. Qed.
#[global] Instance mono_verify_params l r e n : Mono (verify_params ctx inst l r e n).
Proof. revert n. induction l as [|p l IH]; intros n; cbn [verify_params]; mono. Qed.
#[global] Instance mono_verify_this t r m : Mono (verify_this ctx inst t r m).
Proof. unfold verify_this. mono. Qed.
#[global] Instance mono_VerifyInvocationArgsFromIterator l t r m : Mono (VerifyInvocationArgsFromIterator ctx inst l t r m).
Proof. unfold VerifyInvocationArgsFromIterator. mono. Qed.
#[global] Instance mono_VerifyInvocationArgs t r : Mono (VerifyInvocationArgs ctx inst t r).
Proof. unfold VerifyInvocationArgs. mono. Qed.
#[global] Instance mono_GetQuickInvokedMethod a b : Mono (GetQuickInvokedMethod ctx inst a b).
Proof. unfold GetQuickInvokedMethod. mono. Qed.
#[global] Instance mono_verify_quick_params l r e n m : Mono (verify_quick_params ctx inst l r e n m).
Proof. revert n. induction l as [|p l IH]; intros n; cbn [verify_quick_params]; mono. Qed.
#[global] Instance mono_VerifyInvokeVirtualQuickArgs r : Mono (VerifyInvokeVirtualQuickArgs ctx inst r).
Proof. unfold VerifyInvokeVirtualQuickArgs. mono. Qed.

(** *** The cases of the switch *)
#[global] Instance mono_previous_opcode n i : Mono (previous_opcode n i).
Proof. revert i. induction n as [|n IH]; intros i; cbn [previous_opcode]; mono. Qed.
#[global] Instance mono_previous_insn i : Mono (previous_insn i).
Proof. unfold previous_insn. mono. Qed.
#[global] Instance mono_may_return : Mono (may_return ctx).
Proof. unfold may_return. mono. Qed.
#[global] Instance mono_check_return_void : Mono (check_return_void ctx).
Proof. unfold check_return_void. mono. Qed.
#[global] Instance mono_check_return_void_no_barrier : Mono (check_return_void_no_barrier ctx).
Proof. unfold check_return_void_no_barrier. mono. Qed.
#[global] Instance mono_check_return : Mono (check_return ctx inst).
Proof. unfold check_return. mono. Qed.
#[global] Instance mono_check_return_wide : Mono (check_return_wide ctx inst).
Proof. unfold check_return_wide. mono. Qed.
#[global] Instance mono_check_return_object : Mono (check_return_object ctx inst).
Proof. unfold check_return_object. mono. Qed.
#[global] Instance mono_set_constant d x : Mono (set_constant ctx d x).
Proof. unfold set_constant. mono. Qed.
#[global] Instance mono_set_constant_wide d x : Mono (set_constant_wide ctx d x).
Proof. unfold set_constant_wide. mono. Qed.
#[global] Instance mono_check_move_exception : Mono (check_move_exception ctx inst).
Proof. unfold check_move_exception. mono. Qed.
#[global] Instance mono_check_const_class : Mono (check_const_class ctx inst).
Proof. unfold check_const_class. mono. Qed.
#[global] Instance mono_check_monitor_enter : Mono (check_monitor_enter ctx inst).
Proof. unfold check_monitor_enter. mono. Qed.
#[global] Instance mono_check_cast b : Mono (check_cast ctx inst b).
Proof. unfold check_cast. mono. Qed.
#[global] Instance mono_check_array_length : Mono (check_array_length ctx inst).
Proof. unfold check_array_length. mono. Qed.
#[global] Instance mono_check_new_instance : Mono (check_new_instance ctx inst).
Proof. unfold check_new_instance. mono. Qed.
#[global] Instance mono_check_throw : Mono (check_throw ctx inst).
Proof. unfold check_throw. mono. Qed.
#[global] Instance mono_check_cmp a b : Mono (check_cmp ctx inst a b).
Proof. unfold check_cmp. mono. Qed.
#[global] Instance mono_check_fill_array_data : Mono (check_fill_array_data ctx inst).
Proof. unfold check_fill_array_data. mono. Qed.
#[global] Instance mono_check_if_eq : Mono (check_if_eq ctx inst).
Proof. unfold check_if_eq. mono. Qed.
#[global] Instance mono_check_if_lt : Mono (check_if_lt ctx inst).
Proof. unfold check_if_lt. mono. Qed.
#[global] Instance mono_check_if_ltz : Mono (check_if_ltz ctx inst).
Proof. unfold check_if_ltz. mono. Qed.
#[global] Instance mono_sharpen i t : Mono (sharpen ctx i t).
Proof. unfold sharpen. mono. Qed.
#[global] Instance mono_check_if_eqz : Mono (check_if_eqz ctx inst).
Proof. unfold check_if_eqz. mono. Qed.
#[global] Instance mono_return_of_descriptor m r : Mono (return_of_descriptor ctx inst m r).
Proof. unfold return_of_descriptor. mono. Qed.
#[global] Instance mono_return_of_class m d : Mono (return_of_class ctx m d).
Proof. unfold return_of_class. mono. Qed.
#[global] Instance mono_check_invoke_virtual a b : Mono (check_invoke_virtual ctx inst a b).
Proof. unfold check_invoke_virtual. mono. Qed.
#[global] Instance mono_check_invoke_direct b : Mono (check_invoke_direct ctx inst b).
Proof. unfold check_invoke_direct. mono. Qed.
#[global] Instance mono_check_invoke_static b : Mono (check_invoke_static ctx inst b).
Proof. unfold check_invoke_static. mono. Qed.
#[global] Instance mono_check_invoke_interface b : Mono (check_invoke_interface ctx inst b).
Proof. unfold check_invoke_interface. mono. Qed.
#[global] Instance mono_check_invoke_quick b : Mono (check_invoke_quick ctx inst b).
Proof. unfold check_invoke_quick. mono. Qed.
#[global] Instance mono_check_box_lambda : Mono (check_box_lambda ctx inst).
Proof. unfold check_box_lambda. mono. Qed.
#[global] Instance mono_with_object f : (forall t b, Mono (f t b)) -> Mono (with_object f).
Proof. intros Hf. unfold with_object. mono. Qed.
#[global] Instance mono_field_access a b t p : Mono (field_access ctx inst a b t p).
Proof. unfold field_access. mono. Qed.
#[global] Instance mono_switch_move c : Mono (switch_move ctx inst c).
Proof. unfold switch_move. cbv beta zeta. destruct c; apply _. Qed.
#[global] Instance mono_switch_const c : Mono (switch_const ctx inst c).
Proof. unfold switch_const. cbv beta zeta. destruct c; apply _. Qed.
#[global] Instance mono_switch_array c : Mono (switch_array ctx inst c).
Proof. unfold switch_array. cbv beta zeta. destruct c; apply _. Qed.
#[global] Instance mono_switch_field c : Mono (switch_field ctx inst c).
Proof. unfold switch_field. cbv beta zeta. destruct c; apply _. Qed.
#[global] Instance mono_switch_quick_field c : Mono (switch_quick_field ctx inst c).
Proof. unfold switch_quick_field. cbv beta zeta. destruct c; apply _. Qed.
#[global] Instance mono_switch_unary c : Mono (switch_unary ctx inst c).
Proof. unfold switch_unary. cbv beta zeta. destruct c; apply _. Qed.
#[global] Instance mono_switch_binary c : Mono (switch_binary ctx inst c).
Proof. unfold switch_binary. cbv beta zeta. destruct c; apply _. Qed.
#[global] Instance mono_switch_other c : Mono (switch_other ctx inst c).
Proof.
  unfold switch_other.
  assert (Mono (switch_move ctx inst c ;; switch_const ctx inst c ;; switch_array ctx inst c ;; switch_field ctx inst c ;;
                switch_quick_field ctx inst c ;; switch_unary ctx inst c ;; switch_binary ctx inst c)%sm) as Hrest by mono.
  destruct c; first [exact Hrest|clear Hrest; mono].
Qed.
#[global] Instance mono_switch_instruction : Mono (switch_instruction ctx inst).
Proof.
  unfold switch_instruction. set (c := opcode _ _).
  assert (Mono (switch_other ctx inst c ;; sret (mkResult false (FlagsOf c) None None))%sm) as Hrest by mono.
  clearbody c. cbv zeta. destruct c; first [exact Hrest|clear Hrest; mono].
Qed.
End Instruction.

(** *** Control flow *)
#[global] Instance lmono_SafelyMark : LMono (SafelyMarkAllRegistersAsConflicts ctx).
Proof. unfold SafelyMarkAllRegistersAsConflicts. lmono. Qed.
#[global] Instance lmono_AdjustReturnLine i : LMono (AdjustReturnLine ctx i).
Proof. unfold AdjustReturnLine. lmono. Qed.
#[global] Instance mono_CheckNotMoveException_ i : Mono (CheckNotMoveException_ ctx i).
Proof. unfold CheckNotMoveException_, CheckNotMoveException. mono. Qed.
#[global] Instance mono_CheckNotMoveResult_ i : Mono (CheckNotMoveResult_ ctx i).
Proof. unfold CheckNotMoveResult_, CheckNotMoveResult. mono. Qed.
#[global] Instance mono_CheckNotMoveExceptionOrMoveResult i : Mono (CheckNotMoveExceptionOrMoveResult ctx i).
Proof. unfold CheckNotMoveExceptionOrMoveResult. mono. Qed.
#[global] Instance mono_UpdateRegisters i l b : Mono (UpdateRegisters ctx i l b).
Proof. unfold UpdateRegisters. mono. Qed.
#[global] Instance mono_update_target i l : Mono (update_target ctx i l).
Proof. unfold update_target. mono. Qed.
#[global] Instance mono_flow_branch i r : Mono (flow_branch ctx i r).
Proof. unfold flow_branch. mono. Qed.
#[global] Instance mono_flow_targets n i t k : Mono (flow_targets ctx n i t k).
Proof. revert k. induction n as [|n IH]; intros k; cbn [flow_targets]; mono. Qed.
#[global] Instance mono_flow_switch i r : Mono (flow_switch ctx i r).
Proof. unfold flow_switch. mono. Qed.
#[global] Instance mono_flow_handlers l b : Mono (flow_handlers ctx l b).
Proof. revert b. induction l as [|[t a] l IH]; intros b; cbn [flow_handlers]; mono. Qed.
#[global] Instance mono_flow_throw i r : Mono (flow_throw ctx i r).
Proof. unfold flow_throw. mono. Qed.
#[global] Instance mono_flow_continue i r : Mono (flow_continue ctx i r).
Proof. unfold flow_continue. mono. Qed.
#[global] Instance mono_next_guess i f b g : Mono (next_guess ctx i f b g).
Proof. unfold next_guess. mono. Qed.
#[global] Instance mono_note_monitors : Mono (note_monitors ctx).
Proof. apply mono_mod. intros v. by repeat case_match. Qed.
#[global] Instance mono_save_line c : Mono (save_line c).
Proof. unfold save_line. mono. Qed.
#[global] Instance mono_CodeFlowVerifyInstruction g : Mono (CodeFlowVerifyInstruction ctx g).
Proof. unfold CodeFlowVerifyInstruction. mono. Qed.
#[global] Instance mono_find_changed n i : Mono (find_changed ctx n i).
Proof. revert i. induction n as [|n IH]; intros i; cbn [find_changed]; mono. Qed.
#[global] Instance mono_load_line i : Mono (load_line i).
Proof. unfold load_line. mono. Qed.
#[global] Instance mono_flow_round g : Mono (flow_round ctx g).
Proof. unfold flow_round. mono. Qed.
#[global] Instance mono_flow_loop n g : Mono (flow_loop ctx n g).
Proof. revert g. induction n as [|n IH]; intros g; cbn [flow_loop]; mono. Qed.
#[global] Instance mono_CodeFlowVerifyMethod n : Mono (CodeFlowVerifyMethod ctx n).
Proof. unfold CodeFlowVerifyMethod. mono. Qed.

(** *** The signature *)
#[global] Instance mono_on_first {A} (m : LM A) : LMono m -> Mono (on_first ctx m).
Proof. intros Hm. unfold on_first. mono. Qed.
#[global] Instance mono_set_this a : Mono (set_this ctx a).
Proof. unfold set_this. mono. Qed.
#[global] Instance mono_set_params l a b c : Mono (set_params ctx l a b c).
Proof.
  revert b. induction l as [|x l IH]; intros b; cbn [set_params]; [mono|]. cbv zeta.
  apply mono_if; [mono|]. repeat (match goal with |- Mono (match ?d with _ => _ end) => destruct d end); mono.
Qed.
#[global] Instance mono_SetTypesFromSignature : Mono (SetTypesFromSignature ctx).
Proof. unfold SetTypesFromSignature. mono. Qed.
#[global] Instance mono_VerifyCodeFlow n : Mono (VerifyCodeFlow ctx n).
Proof. unfold VerifyCodeFlow. mono. Qed.
End Pass.
