(* ===== verification/FrameTypes.v ===== *)
(** * Interpreter frames and register types

    A frame of the interpreter is described by a list of register types: every register holds a
    value of its type, and the reference slot of a register of reference type is a copy of the
    register.  The stores of the interpreter keep the description, and merging two lists keeps it
    for the frames of both. *)

From S2P Require Import Prelude ShadowFrame InterpreterBase ClassHierarchy RegTypes RegTypeProofs RegisterLine RegisterLineProofs.
From S2P Require Import CodeFlowMono.

Section Frames.
Context (H : hierarchy) (Hok : hier_ok H) (cls : Z -> option Class) (Hheap : heap_ok H cls).
#[local] Abbreviation cache_ok := (cache_ok H).
#[local] Abbreviation gamma := (gamma H cls).
#[local] Abbreviation typed := (typed H cls).

(** Word [w] and reference slot [r] of a register of type [t]. *)
Definition reg_typed (c : RegTypeCache) (t : nat) (w r : Z) : Prop :=
  typed c t w /\ (IsReferenceTypes (GetFromId c t) = true -> r = w).

Record frame_typed (c : RegTypeCache) (l : list nat) (f : ShadowFrame) : Prop := {
  ft_ok : frame_ok f;
  ft_size : number_of_vregs_ f = Z.of_nat (length l);
  ft_regs : forall i t, 0 <= i -> l !! Z.to_nat i = Some t -> reg_typed c t (word f i) (GetVRegReference f i)
}.

Lemma reg_in c l f i t : frame_typed c l f -> 0 <= i -> l !! Z.to_nat i = Some t -> vreg_in f i.
Proof. intros F Hi Ht. unfold vreg_in. rewrite (ft_size _ _ _ F). apply lookup_lt_Some in Ht. lia. Qed.

(** ** Larger caches *)
Lemma reg_typed_extends c c' t w r : extends c c' -> valid c t -> reg_typed c' t w r <-> reg_typed c t w r.
Proof. intros He Hv. unfold reg_typed, RegisterLineProofs.typed. by rewrite (get_extends c c' t He Hv). Qed.
Lemma ft_extends c c' l f : extends c c' -> Forall (valid c) l -> frame_typed c' l f <-> frame_typed c l f.
Proof.
  intros He Hl. split; intros [A B C]; (split; [done|done|]); intros i t Hi Ht;
    (eapply (reg_typed_extends c c'); [done|by eapply Forall_lookup_1|by apply C]).
Qed.

(** ** Other lists of types *)
Lemma ft_weaken c c' l l' f :
  length l' = length l ->
  (forall i t' w r, l' !! i = Some t' -> exists t, l !! i = Some t /\ (reg_typed c t w r -> reg_typed c' t' w r)) ->
  frame_typed c l f -> frame_typed c' l' f.
Proof.
  intros Hlen Hw [A B C]. split; [done|by rewrite Hlen|]. intros i t' Hi Ht'.
  destruct (Hw _ _ (word f i) (GetVRegReference f i) Ht') as (t & Ht & Himp). by apply Himp, C.
Qed.
(** A word of 32 bits is a value of a type without constraints. *)
Lemma top_typed c t w r : in_u 32 w -> gamma (GetFromId c t) = (fun _ => True) -> IsReferenceTypes (GetFromId c t) = false -> reg_typed c t w r.
Proof. intros Hw Hg Hr. split; [split; [done|by rewrite Hg]|by rewrite Hr]. Qed.
Lemma prefix_typed c i t w r :
  cache_ok c -> FillPrimitiveAndSmallConstantTypes !! i = Some t -> in_u 32 w -> gamma t w -> IsReferenceTypes t = false -> reg_typed c i w r.
Proof.
  intros Hc Ht Hw Hg Hr. destruct (prefix_get H c i t Hc Ht) as [E _]. split; [split; [done|by rewrite E]|by rewrite E, Hr].
Qed.
Lemma conflict_typed c w r : cache_ok c -> in_u 32 w -> reg_typed c Conflict w r.
Proof. intros Hc Hw. by eapply prefix_typed. Qed.
Lemma reg_typed_word c t w r : reg_typed c t w r -> in_u 32 w.
Proof. by intros [[? _] _]. Qed.

(** Registers replaced by conflicts. *)
Lemma ft_conflicts c l l' f :
  cache_ok c -> length l' = length l -> (forall i t', l' !! i = Some t' -> l !! i = Some t' \/ t' = Conflict) ->
  frame_typed c l f -> frame_typed c l' f.
Proof.
  intros Hc Hlen Hl. apply ft_weaken; [done|]. intros i t' w r Ht'. destruct (Hl i t' Ht') as [Ht| ->]; [eauto|].
  destruct (lookup_lt_is_Some_2 l i) as [t Ht]; [rewrite <- Hlen; by eapply lookup_lt_Some|].
  exists t. split; [done|]. intros Hr. apply conflict_typed; [done|by eapply reg_typed_word].
Qed.

(** ** Stores *)
Lemma insert_lookup {A} (l : list A) (i j : Z) (t u : A) :
  0 <= i -> 0 <= j -> <[Z.to_nat i := t]> l !! Z.to_nat j = Some u -> (i = j /\ u = t) \/ (i <> j /\ l !! Z.to_nat j = Some u).
Proof.
  intros Hi Hj. destruct (decide (i = j)) as [->|Hne].
  - intros E. left. split; [done|]. apply list_lookup_insert_Some in E. naive_solver.
  - rewrite list_lookup_insert_ne by lia. by right.
Qed.

Lemma ft_set c l f i t x :
  frame_typed c l f -> 0 <= i -> (Z.to_nat i < length l)%nat -> reg_typed c t (u32 x) 0 ->
  frame_typed c (<[Z.to_nat i := t]> l) (SetVReg f i x).
Proof.
  intros F Hi Hlt Ht. assert (vreg_in f i) as Hin by (unfold vreg_in; rewrite (ft_size _ _ _ F); lia).
  pose proof (ft_ok _ _ _ F) as Hf. split; [by apply SetVReg_ok|rewrite length_insert; apply F|].
  intros j u Hj Hu. assert (vreg_in f j) as Hjn.
  { unfold vreg_in. rewrite (ft_size _ _ _ F). apply lookup_lt_Some in Hu. rewrite length_insert in Hu. lia. }
  rewrite word_SetVReg, ref_SetVReg by done.
  destruct (insert_lookup _ _ _ _ _ Hi Hj Hu) as [[-> ->]|[Hne Hu']]; [by rewrite Z.eqb_refl|].
  rewrite (proj2 (Z.eqb_neq i j)) by done. by apply F.
Qed.
Lemma ft_set_ref c l f i t x :
  frame_typed c l f -> 0 <= i -> (Z.to_nat i < length l)%nat -> reg_typed c t (u32 x) (u32 x) ->
  frame_typed c (<[Z.to_nat i := t]> l) (SetVRegReference f i x).
Proof.
  intros F Hi Hlt Ht. assert (vreg_in f i) as Hin by (unfold vreg_in; rewrite (ft_size _ _ _ F); lia).
  pose proof (ft_ok _ _ _ F) as Hf. split; [by apply SetVRegReference_ok|rewrite length_insert; apply F|].
  intros j u Hj Hu. assert (vreg_in f j) as Hjn.
  { unfold vreg_in. rewrite (ft_size _ _ _ F). apply lookup_lt_Some in Hu. rewrite length_insert in Hu. lia. }
  rewrite word_SetVRegReference, ref_SetVRegReference by done.
  destruct (insert_lookup _ _ _ _ _ Hi Hj Hu) as [[-> ->]|[Hne Hu']]; [by rewrite Z.eqb_refl|].
  rewrite (proj2 (Z.eqb_neq i j)) by done. by apply F.
Qed.
Lemma ft_set_wide c l f i t1 t2 x :
  frame_typed c l f -> 0 <= i -> (Z.to_nat (i + 1) < length l)%nat ->
  reg_typed c t1 (u32 x) 0 -> reg_typed c t2 (u32 (Z.shiftr x 32)) 0 ->
  frame_typed c (<[Z.to_nat (i + 1) := t2]> (<[Z.to_nat i := t1]> l)) (SetVRegLong f i x).
Proof.
  intros F Hi Hlt H1 H2. assert (vreg_pair_in f i) as Hin by (unfold vreg_pair_in; rewrite (ft_size _ _ _ F); lia).
  pose proof (ft_ok _ _ _ F) as Hf. split; [by apply SetVRegLong_ok|rewrite !length_insert; apply F|].
  intros j u Hj Hu. assert (vreg_in f j) as Hjn.
  { unfold vreg_in. rewrite (ft_size _ _ _ F). apply lookup_lt_Some in Hu. rewrite !length_insert in Hu. lia. }
  rewrite word_SetVRegLong, ref_SetVRegLong by done.
  assert (0 <= i + 1) as Hi1 by lia.
  destruct (insert_lookup _ _ _ _ _ Hi1 Hj Hu) as [[<- ->]|[Hne Hu']].
  { rewrite (proj2 (Z.eqb_neq i (i + 1))), Z.eqb_refl by lia. done. }
  rewrite (proj2 (Z.eqb_neq (i + 1) j)) by done.
  destruct (insert_lookup _ _ _ _ _ Hi Hj Hu') as [[-> ->]|[Hne' Hu'']]; [by rewrite Z.eqb_refl|].
  rewrite (proj2 (Z.eqb_neq i j)) by done. by apply F.
Qed.

(** Copies through the value of a register. *)
Lemma vreg_word c l f i t : frame_typed c l f -> 0 <= i -> l !! Z.to_nat i = Some t -> u32 (GetVReg f i) = word f i.
Proof.
  intros F Hi Ht. destruct (ft_regs _ _ _ F i t Hi Ht) as [[Hw _] _]. unfold GetVReg. rewrite wrapu_wraps by lia. by apply wrapu_small.
Qed.
Lemma u32_ref c l f i t :
  frame_typed c l f -> 0 <= i -> l !! Z.to_nat i = Some t -> in_u 32 (GetVRegReference f i).
Proof.
  intros F Hi Ht. pose proof (reg_in _ _ _ _ _ F Hi Ht) as Hin. unfold GetVRegReference, word. rewrite rd_lookup.
  pose proof (ok_length _ (ft_ok _ _ _ F)) as Hlen. unfold vreg_in, ref_slot in *.
  destruct (lookup_lt_is_Some_2 (vregs_ f) (Z.to_nat (number_of_vregs_ f + i))) as [x Hx]; [lia|].
  rewrite Hx. cbn. pose proof (ok_words _ (ft_ok _ _ _ F)) as Hw. by eapply Forall_lookup_1 in Hw.
Qed.
(** ** Merging *)
Lemma constants_no_ref c a b :
  cache_ok c -> valid c a -> valid c b -> IsConstant (GetFromId c a) = true -> IsConstant (GetFromId c b) = true ->
  returns H c (merge_constants c a b) (fun t => IsReferenceTypes t = false).
Proof.
  intros Hc Ha Hb Ca Cb. unfold merge_constants, ByteConstant, ShortConstant, IntConstant.
  assert (forall v, in_s 32 v -> returns H c (FromCat1Const c v false) (fun t => IsReferenceTypes t = false)) as Hk.
  { intros v Hv. eapply returns_mono; [by apply FromCat1Const_spec|]. by intros t ->. }
  assert (forall i, valid c i -> IsConstant (GetFromId c i) = true ->
    returns H c (if negb (IsPreciseConstant (GetFromId c i)) then (i, c) else FromCat1Const c (ConstantValue (GetFromId c i)) false)
      (fun t => IsReferenceTypes t = false)) as Hi.
  { intros i Hv Hci. eapply returns_mono; [by apply imprecise_spec|]. by intros t ->. }
  pose proof (Hi a Ha Ca) as Sa. pose proof (Hi b Hb Cb) as Sb.
  assert (in_s 32 (-128) /\ in_s 32 (-32768) /\ in_s 32 INT32_MAX) as (R1 & R2 & R3) by (split_and!; by apply (bool_decide_unpack _); vm_compute).
  repeat match goal with |- returns _ _ (if ?x then _ else _) _ => first [exact Sa|exact Sb|destruct x] end; auto.
Qed.

(** The merge is a reference only when both types are. *)
Lemma merge_ref_only c a b k c' :
  cache_ok c -> valid c a -> valid c b -> Merge H 2 c a b = Some (k, c') -> IsReferenceTypes (GetFromId c' k) = true ->
  IsReferenceTypes (GetFromId c a) = true /\ IsReferenceTypes (GetFromId c b) = true.
Proof.
  intros Hc Ha Hb E Hr. destruct (IsReferenceTypes (GetFromId c a) && IsReferenceTypes (GetFromId c b)) eqn:Eab;
    [by apply andb_prop in Eab|]. exfalso. revert E. cbn [Merge]. rewrite Eab.
  assert (forall r, Some r = Some (k, c') -> returns H c r (fun t => IsReferenceTypes t = false) -> False) as Hret.
  { intros r [= ->] (_ & _ & _ & Hf). cbn in Hf. congruence. }
  assert (forall i t, FillPrimitiveAndSmallConstantTypes !! i = Some t -> IsReferenceTypes t = false -> Some (i, c) = Some (k, c') -> False) as Hpre.
  { intros i t Ht Hf E. eapply Hret; [exact E|]. by eapply returns_prefix. }
  destruct (_ || (b =? Undefined)%nat); [by eapply Hpre|]. destruct (_ || (b =? Conflict)%nat); [by eapply Hpre|].
  destruct (IsConstant (GetFromId c a) && _) eqn:E1; [intros E; eapply Hret; [exact E|]; apply andb_prop in E1 as []; by apply constants_no_ref|].
  destruct (IsConstantLo (GetFromId c a) && _) eqn:E2;
    [intros E; eapply Hret; [exact E|]; eapply returns_mono; [by apply FromCat2ConstLo_spec, s32_range|by intros t ->]|].
  destruct (IsConstantHi (GetFromId c a) && _) eqn:E3;
    [intros E; eapply Hret; [exact E|]; eapply returns_mono; [by apply FromCat2ConstHi_spec, s32_range|by intros t ->]|].
  destruct (IsIntegralTypes (GetFromId c a) && _); [repeat case_match; by eapply Hpre|].
  destruct (_ || (IsDoubleHighTypes (GetFromId c a) && _)) eqn:E4; [|by eapply Hpre].
  intros [= <- <-]. unfold SelectNonConstant in Hr.
  destruct (GetFromId c a) eqn:Ea; try discriminate E4; destruct (GetFromId c b) eqn:Eb; try discriminate E4;
    try discriminate E1; try discriminate E2; try discriminate E3; cbn in Hr; rewrite ?Ea, ?Eb in Hr; discriminate Hr.
Qed.

Definition reg_covers (c : RegTypeCache) (i : nat) (c' : RegTypeCache) (k : nat) : Prop :=
  forall w r, reg_typed c i w r -> reg_typed c' k w r.

Lemma merge_reg c i j k c' :
  cache_ok c -> fits c' -> valid c i -> valid c j -> i <> j -> Merge H 2 c i j = Some (k, c') ->
  cache_ok c' /\ extends c c' /\ valid c' k /\ reg_covers c i c' k /\ reg_covers c j c' k /\ (Equals i k = true -> k = i).
Proof.
  intros Hc Hf Hi Hj Hne E. pose proof (ext_merge _ _ _ _ _ _ E) as He. cbn in He.
  assert (fits c) as Hf0 by (destruct He as (l & kl & El & _); unfold fits in *; rewrite El, length_app in Hf; lia).
  destruct (Merge_sound H Hok cls Hheap 0 c i j Hc Hf0 Hi Hj Hne) as (r & E' & (Hc' & _ & Hv & [Ui Uj])).
  rewrite E in E'. injection E' as <-. cbn in *. pose proof (merge_ref_only c i j k c' Hc Hi Hj E) as Hro.
  split_and!; try done.
  - intros w r [[Hw Hg] Hr]. split; [split; [done|by apply Ui]|]. intros Hrk. apply Hr. by apply Hro.
  - intros w r [[Hw Hg] Hr]. split; [split; [done|by apply Uj]|]. intros Hrk. apply Hr. by apply Hro.
  - intros Heq. symmetry. apply (equals_spec c'); try done. by eapply valid_extends.
Qed.

Lemma reg_covers_extends c c' c2 i k : extends c' c2 -> valid c' k -> reg_covers c i c' k -> reg_covers c i c2 k.
Proof. intros He Hv Hcov w r Hr. apply (reg_typed_extends c' c2); auto. Qed.
Lemma covers_extends c c1 c' i k : extends c c1 -> valid c i -> reg_covers c1 i c' k -> reg_covers c i c' k.
Proof. intros He Hv Hcov w r Hr. apply Hcov. by apply (reg_typed_extends c c1). Qed.

Lemma merge_types_covers c cur inc ch0 l ch c' :
  cache_ok c -> fits c' -> Forall (valid c) cur -> Forall (valid c) inc ->
  merge_types H c cur inc ch0 = Some (l, ch, c') ->
  cache_ok c' /\ Forall (valid c') l /\ length l = length cur
  /\ (forall n t, l !! n = Some t -> exists a b, cur !! n = Some a /\ inc !! n = Some b /\ reg_covers c a c' t /\ reg_covers c b c' t)
  /\ (ch = false -> ch0 = false /\ l = cur).
Proof.
  revert c inc ch0 l. induction cur as [|i cur IH]; intros c inc ch0 l Hc Hf Hcur Hinc E.
  { injection E as <- <- <-. split_and!; try done. }
  destruct inc as [|j inc]; [done|]. apply Forall_cons in Hcur as [Hi Hcur]. apply Forall_cons in Hinc as [Hj Hinc]. cbn [merge_types] in E.
  destruct (if (i =? j)%nat then _ else _) as [[[k ch1] c1]|] eqn:E1; [|done].
  destruct (merge_types H c1 cur inc ch1) as [[[l2 ch2] c2]|] eqn:E2; [|done]. injection E as <- <- <-.
  pose proof (ext_merge_types _ _ _ _ _ _ E2) as He2. cbn in He2.
  assert (fits c1) as Hf1 by (destruct He2 as (x & kl & El & _); unfold fits in *; rewrite El, length_app in Hf; lia).
  assert (cache_ok c1 /\ extends c c1 /\ valid c1 k /\ reg_covers c i c1 k /\ reg_covers c j c1 k /\ (ch1 = false -> ch0 = false /\ k = i))
    as (Hc1 & He1 & Hk & Ci & Cj & Hs).
  { destruct (Nat.eqb_spec i j) as [->|Hne]; [injection E1 as <- <- <-; split_and!; try done; first [apply extends_refl|by intros w r]|].
    destruct (Merge H 2 c i j) as [[k' c1']|] eqn:Em; [|done]. injection E1 as <- <- <-.
    destruct (merge_reg c i j k' c1' Hc Hf1 Hi Hj Hne Em) as (A1 & A2 & A3 & A4 & A5 & A6). rewrite (stored_id_valid c1' k' Hf1 A3).
    split_and!; try done. intros [-> Heq%negb_false_iff]%orb_false_iff. auto. }
  destruct (IH c1 inc ch1 l2 Hc1 Hf) as (Hc2 & Hv2 & Hl2 & Hcov & Hsame); try done; [by eapply valid_list_extends..|].
  split_and!; try done.
  - constructor; [by eapply valid_extends|done].
  - cbn. by f_equal.
  - intros [|n] t Ht.
    + injection Ht as <-. exists i, j. split_and!; try done; by eapply reg_covers_extends.
    + destruct (Hcov n t Ht) as (a & b & Ha & Hb & C1 & C2). exists a, b. split_and!; try done.
      * eapply covers_extends; [exact He1|by eapply (Forall_lookup_1 _ cur)|done].
      * eapply covers_extends; [exact He1|by eapply (Forall_lookup_1 _ inc)|done].
  - intros Hch. destruct (Hsame Hch) as [Hch1 ->]. destruct (Hs Hch1) as [-> ->]. done.
Qed.
End Frames.
