(* ===== verification/PlainExec.v ===== *)
(** * Instructions that move, compute and branch

    What the interpreter does on the instructions that call no runtime service except the
    suspension check and the throw of an [ArithmeticException]: where they continue and when they
    leave an exception. *)

From S2P Require Import Prelude DexOpcodes DexInstruction ShadowFrame InterpreterBase Interpreter VerifierStatic VerifierProps InterpreterSafety.

(** Moves, constants, arithmetic, comparisons, branches and returns. *)
Definition plain (c : Code) : bool :=
  match c with
  | NOP | MOVE | MOVE_FROM16 | MOVE_16 | MOVE_WIDE | MOVE_WIDE_FROM16 | MOVE_WIDE_16
  | MOVE_OBJECT | MOVE_OBJECT_FROM16 | MOVE_OBJECT_16
  | RETURN_VOID | RETURN | RETURN_WIDE | RETURN_OBJECT
  | CONST_4 | CONST_16 | CONST | CONST_HIGH16 | CONST_WIDE_16 | CONST_WIDE_32 | CONST_WIDE | CONST_WIDE_HIGH16
  | GOTO | GOTO_16 | GOTO_32 | PACKED_SWITCH | SPARSE_SWITCH
  | CMPL_FLOAT | CMPG_FLOAT | CMPL_DOUBLE | CMPG_DOUBLE | CMP_LONG
  | IF_EQ | IF_NE | IF_LT | IF_GE | IF_GT | IF_LE | IF_EQZ | IF_NEZ | IF_LTZ | IF_GEZ | IF_GTZ | IF_LEZ
  | NEG_INT | NOT_INT | NEG_LONG | NOT_LONG | NEG_FLOAT | NEG_DOUBLE
  | INT_TO_LONG | INT_TO_FLOAT | INT_TO_DOUBLE | LONG_TO_INT | LONG_TO_FLOAT | LONG_TO_DOUBLE
  | FLOAT_TO_INT | FLOAT_TO_LONG | FLOAT_TO_DOUBLE | DOUBLE_TO_INT | DOUBLE_TO_LONG | DOUBLE_TO_FLOAT
  | INT_TO_BYTE | INT_TO_CHAR | INT_TO_SHORT
  | ADD_INT | SUB_INT | MUL_INT | DIV_INT | REM_INT | AND_INT | OR_INT | XOR_INT | SHL_INT | SHR_INT | USHR_INT
  | ADD_LONG | SUB_LONG | MUL_LONG | DIV_LONG | REM_LONG | AND_LONG | OR_LONG | XOR_LONG | SHL_LONG | SHR_LONG | USHR_LONG
  | ADD_FLOAT | SUB_FLOAT | MUL_FLOAT | DIV_FLOAT | REM_FLOAT
  | ADD_DOUBLE | SUB_DOUBLE | MUL_DOUBLE | DIV_DOUBLE | REM_DOUBLE
  | ADD_INT_2ADDR | SUB_INT_2ADDR | MUL_INT_2ADDR | DIV_INT_2ADDR | REM_INT_2ADDR | AND_INT_2ADDR | OR_INT_2ADDR
  | XOR_INT_2ADDR | SHL_INT_2ADDR | SHR_INT_2ADDR | USHR_INT_2ADDR
  | ADD_LONG_2ADDR | SUB_LONG_2ADDR | MUL_LONG_2ADDR | DIV_LONG_2ADDR | REM_LONG_2ADDR | AND_LONG_2ADDR
  | OR_LONG_2ADDR | XOR_LONG_2ADDR | SHL_LONG_2ADDR | SHR_LONG_2ADDR | USHR_LONG_2ADDR
  | ADD_FLOAT_2ADDR | SUB_FLOAT_2ADDR | MUL_FLOAT_2ADDR | DIV_FLOAT_2ADDR | REM_FLOAT_2ADDR
  | ADD_DOUBLE_2ADDR | SUB_DOUBLE_2ADDR | MUL_DOUBLE_2ADDR | DIV_DOUBLE_2ADDR | REM_DOUBLE_2ADDR
  | ADD_INT_LIT16 | RSUB_INT | MUL_INT_LIT16 | DIV_INT_LIT16 | REM_INT_LIT16 | AND_INT_LIT16 | OR_INT_LIT16 | XOR_INT_LIT16
  | ADD_INT_LIT8 | RSUB_INT_LIT8 | MUL_INT_LIT8 | DIV_INT_LIT8 | REM_INT_LIT8 | AND_INT_LIT8 | OR_INT_LIT8 | XOR_INT_LIT8
  | SHL_INT_LIT8 | SHR_INT_LIT8 | USHR_INT_LIT8 => true
  | _ => false
  end.


(** What the services promise for these instructions.  The suspension check may run the collector,
    which updates references in place: objects are taken not to move.  A handler that does not
    read the exception finds it cleared. *)
Class PlainServices {RS : RuntimeServices} (insns : code_units) (handler_at : Z -> Z -> Prop) : Prop := {
  ps_suspend st : frame (AllowThreadSuspension st) = frame st /\ exception (AllowThreadSuspension st) = exception st;
  ps_throw k st : frame (Throw k st) = frame st /\ exception (Throw k st) <> 0;
  ps_handler st pc h st' : FindHandler st pc = (Some h, st') ->
    handler_at pc h /\ frame st' = frame st /\ (opcode insns h <> MOVE_EXCEPTION -> exception st' = 0)
}.

(** The case of a known opcode. *)
Ltac exec_case E Eop :=
  unfold exec in E; rewrite Eop in E;
  cbn [groups first_group exec_move exec_return exec_const exec_resolve exec_object exec_goto exec_cmp exec_if exec_ifz
       exec_aget exec_aput exec_iget exec_sget exec_iput exec_sput exec_invoke exec_unary exec_int exec_long exec_floating
       exec_int_2addr exec_long_2addr exec_floating_2addr exec_lit16 exec_lit8 exec_lambda exec_unused] in E.

Section Plain.
Context {RS : RuntimeServices} (ci : CodeItem) (Hci : code_item_ok ci) {handler_at : Z -> Z -> Prop}.
#[local] Abbreviation insns := (insns_ ci).
Context {PS : PlainServices insns handler_at} (pc : Z).
#[local] Abbreviation c := (opcode insns pc).

(** Where an instruction may continue, as the verifier reads the code. *)
Definition successor (pc' : Z) : Prop :=
  (has_flag (FlagsOf c) kContinue = true /\ exists k, SizeInCodeUnits insns pc = Some k /\ pc' = pc + k)
  \/ (has_flag (FlagsOf c) kBranch = true /\ exists off cond self, GetBranchOffset ci pc = Some (off, cond, self) /\ pc' = pc + off)
  \/ (has_flag (FlagsOf c) kSwitch = true /\ exists i, 0 <= i < sw_count ci pc /\ pc' = pc + table_int32 ci (sw_targets ci pc + 2 * i)).

(** An exception is an [ArithmeticException] and leaves the frame. *)
Lemma plain_pending st st1 :
  plain c = true -> exception st = 0 -> exec insns pc st = Pending st1 -> has_flag (FlagsOf c) kThrow = true /\ frame st1 = frame st.
Proof.
  intros Hp Hx E. destruct c eqn:Eop; try discriminate Hp; exec_case E Eop.
  all: unfold cond_branch, ending, ending_pending, possibly, DoIntDivide, DoIntRemainder, DoLongDivide, DoLongRemainder, IsExceptionPending in E.
  all: repeat case_match; cbn in *; simplify_eq; try (split; [reflexivity|apply ps_throw]).
  all: by rewrite Hx in *.
Qed.

(** No access is undefined, and no opcode unexpected. *)
Lemma plain_defined st : plain c = true -> match exec insns pc st with Undefined | Unexpected => False | _ => True end.
Proof.
  intros Hp. destruct c eqn:Eop; try discriminate Hp; unfold exec; rewrite Eop.
  all: cbn [groups first_group exec_move exec_return exec_const exec_resolve exec_object exec_goto exec_cmp exec_if exec_ifz
       exec_aget exec_aput exec_iget exec_sget exec_iput exec_sput exec_invoke exec_unary exec_int exec_long exec_floating
       exec_int_2addr exec_long_2addr exec_floating_2addr exec_lit16 exec_lit8 exec_lambda exec_unused].
  all: unfold cond_branch, branch, ending, ending_pending, possibly, next1, next2, next3, set_const; cbv zeta.
  all: try exact I.
  all: repeat match goal with |- context [if ?b then _ else _] => destruct b end; try exact I.
Qed.

(** *** Where execution continues *)
Lemma nop_size : c = NOP -> is_payload ci pc = false -> SizeInCodeUnits insns pc = Some 1.
Proof.
  intros E Hexec. unfold SizeInCodeUnits. rewrite E.
  change (kInstructionSizeInCodeUnits (Code_value NOP) <? 0) with true. cbv iota.
  pose proof (opcode_value insns pc (ci_units _ Hci)) as Hv0. rewrite E in Hv0.
  unfold is_payload in Hexec. unfold SizeInCodeUnitsComplexOpcode. rewrite land_0xff.
  unfold Fetch16 in *. rewrite Z.add_0_r in *.
  apply orb_false_elim in Hexec as [H1 H3]. apply orb_false_elim in H1 as [H1 H2].
  rewrite H1, H2, H3. change (2 ^ 8) with 256. by rewrite <- Hv0.
Qed.
Lemma falls_through pc' k :
  SizeInCodeUnits insns pc = Some k -> has_flag (FlagsOf c) kContinue = true -> pc' = pc + k -> successor pc'.
Proof. intros Hk Hf ->. left. eauto. Qed.
Lemma branches_to off off' cond self :
  GetBranchOffset ci pc = Some (off, cond, self) -> has_flag (FlagsOf c) kBranch = true -> off' = off -> successor (pc + off').
Proof. intros Ho Hf ->. right; left. eauto 10. Qed.

Lemma packed_successor f d : c = PACKED_SWITCH -> successor (pc + DoPackedSwitch insns pc f d).
Proof.
  intros E. assert (successor (pc + 3)) as H3.
  { eapply falls_through; [|by rewrite E|reflexivity]. unfold SizeInCodeUnits. by rewrite E. }
  unfold DoPackedSwitch. case_match; [done|]. destruct (_ && _) eqn:Hi; [|done]. right; right. split; [by rewrite E|].
  unfold sw_count, sw_targets, sw_packed, sw_pos, VRegB_31t in *. rewrite E, bool_decide_eq_true_2 by done.
  rewrite read_int32_table by done. eexists. split; [|reflexivity]. lia.
Qed.
Lemma sparse_successor f d : c = SPARSE_SWITCH -> successor (pc + DoSparseSwitch insns pc f d).
Proof.
  intros E. assert (successor (pc + 3)) as H3.
  { eapply falls_through; [|by rewrite E|reflexivity]. unfold SizeInCodeUnits. by rewrite E. }
  unfold DoSparseSwitch. case_match; [done|]. case_match eqn:Hf; [|done]. case_match; [|done]. subst. right; right. split; [by rewrite E|].
  apply sparse_search_in in Hf; [|lia]. exists z. unfold sw_count, sw_targets, sw_packed, sw_pos, VRegB_31t in *.
  rewrite E, bool_decide_eq_false_2 by done. split; [lia|]. rewrite read_int32_table by done. by rewrite Z.add_assoc.
Qed.

Lemma plain_continue st st' pc' :
  plain c = true -> is_payload ci pc = false -> exception st = 0 -> exec insns pc st = Continue st' pc' ->
  exception st' = 0 /\ successor pc'.
Proof.
  intros Hp Hpay Hx E.
  assert (exception (AllowThreadSuspension st) = 0) as Hsusp by (by rewrite (proj2 (ps_suspend st))).
  assert ((exception (Throw ArithmeticExceptionDivideByZero st) =? 0) = false) as Hthrow by (apply Z.eqb_neq, ps_throw).
  pose proof (GetBranchOffset_by_opcode ci pc) as Hbo.
  destruct c eqn:Eop; try discriminate Hp; exec_case E Eop.
  all: unfold cond_branch, branch, ending, ending_pending, possibly, next1, next2, next3, set_const, DoIntDivide, DoIntRemainder, DoLongDivide, DoLongRemainder, IsExceptionPending in E.
  all: repeat case_match; cbn [negb fst snd] in *; simplify_eq; (split; [first [exact Hx|exact Hsusp|by rewrite Hthrow in *]|]).
  all: try (by apply packed_successor); try (by apply sparse_successor).
  all: try (eapply falls_through; [by apply nop_size|by rewrite Eop|reflexivity]).
  all: try (eapply falls_through; [unfold SizeInCodeUnits; by rewrite Eop|by rewrite Eop|reflexivity]).
  all: try (eapply branches_to; [unfold GetBranchOffset; rewrite Hbo; reflexivity|by rewrite Eop|reflexivity]).
  all: eapply branches_to; [unfold GetBranchOffset; rewrite Hbo; reflexivity|by rewrite Eop|].
  all: rewrite goto_offset by apply Hci; unfold Fetch16; by rewrite Z.add_0_r.
Qed.
End Plain.
