(* ===== verification/CodeFlowStep.v ===== *)
(** * One instruction of the code-flow pass against the interpreter

    For instructions that move, compute and branch ([plain]), a line that describes the frame before
    the instruction becomes, when the pass reports nothing, a line that describes the frame the
    interpreter leaves. *)

From Stdlib Require Import Ascii.
From stdpp Require Import strings.
From S2P Require Import Prelude DexOpcodes DexInstruction ShadowFrame InterpreterBase Interpreter VerifierStatic ClassHierarchy.
From S2P Require Import RegTypes RegTypeProofs RegTypeTheorems RegisterLine RegisterLineProofs.
From S2P Require Import CodeFlowState CodeFlowChecks CodeFlow CodeFlowMono FrameTypes PlainExec.

(** ** Computations that report nothing *)
Definition quiet (v v' : vstate) : Prop := failures_ (base v') = failures_ (base v).

Lemma prefix_between {A} (a b c : list A) : a `prefix_of` b -> b `prefix_of` c -> c = a -> b = a.
Proof. intros H1 H2 ->. by apply (anti_symm prefix). Qed.
Lemma quiet_bind {A B} (m : CM A) (k : A -> CM B) `{!Mono m} `{Hk : !forall a, Mono (k a)} v b v' :
  sbind m k v = Some (b, v') -> quiet v v' ->
  exists a v1, m v = Some (a, v1) /\ quiet v v1 /\ k a v1 = Some (b, v') /\ quiet v1 v'.
Proof.
  unfold sbind. destruct (m v) as [[a v1]|] eqn:E; [|done]. intros E2 Hq. exists a, v1.
  assert (quiet v v1) as Hq1.
  { eapply prefix_between; [by apply (adv_failures _ _ (mono _ _ _ E))|by apply (adv_failures _ _ (Hk a _ _ _ E2))|done]. }
  split_and!; try done. unfold quiet in *. congruence.
Qed.
Lemma lquiet_bind {A B} (m : LM A) (k : A -> LM B) `{!LMono m} `{Hk : !forall a, LMono (k a)} s b s' :
  sbind m k s = Some (b, s') -> errors s' = errors s ->
  exists a s1, m s = Some (a, s1) /\ errors s1 = errors s /\ k a s1 = Some (b, s') /\ errors s' = errors s1.
Proof.
  unfold sbind. destruct (m s) as [[a s1]|] eqn:E; [|done]. intros E2 Hq. exists a, s1.
  assert (errors s1 = errors s) as Hq1.
  { eapply prefix_between; [by apply (lmono _ _ _ E)|by apply (Hk a _ _ _ E2)|done]. }
  split_and!; try done. congruence.
Qed.
Lemma lfail_loud e s a s' : RegisterLine.Fail e s = Some (a, s') -> errors s' = errors s -> False.
Proof. intros [= <- <-]. apply no_error. Qed.

(** ** Operations on lines that report nothing *)

(** One register, or a pair of registers, is written. *)
Definition put1 (v : Z) (t : nat) (s s' : line_state) : Prop :=
  (Z.to_nat v < length (line_ (line s)))%nat /\ s' = mkLS (types s) (put_reg v (stored_id t) (line s)) (errors s).
Definition put2 (v : Z) (t1 t2 : nat) (s s' : line_state) : Prop :=
  (Z.to_nat (v + 1) < length (line_ (line s)))%nat
  /\ s' = mkLS (types s) (put_reg (v + 1) (stored_id t2) (put_reg v (stored_id t1) (line s))) (errors s).

Ltac lsplit E Hq :=
  let a := fresh "a" in let s := fresh "s" in let E1 := fresh "E" in let Hq1 := fresh "Hq" in let Hq2 := fresh "Hq" in
  apply lquiet_bind in E as (a & s & E1 & Hq1 & E & Hq2); [clear Hq; rename Hq2 into Hq|apply _..|exact Hq].

Lemma set_quiet v t s b s' : SetRegisterType kClear v t s = Some (b, s') -> errors s' = errors s -> put1 v t s s'.
Proof. intros E Hq. apply SetRegisterType_inv in E. destruct b; [done|]. subst s'. by apply no_error in Hq. Qed.
Lemma set_wide_quiet v t1 t2 s b s' :
  SetRegisterTypeWide v t1 t2 s = Some (b, s') -> errors s' = errors s -> put2 v t1 t2 s s'.
Proof. intros E Hq. apply SetRegisterTypeWide_inv in E. destruct b; [by destruct E as (? & _ & ?)|]. subst s'. by apply no_error in Hq. Qed.

Section LineQuiet.
Context (H : hierarchy).

Lemma verify_quiet v t s b s' :
  VerifyRegisterType H v t s = Some (b, s') -> errors s' = errors s ->
  b = true /\ s' = s /\ exists i, line_ (line s) !! Z.to_nat v = Some i /\ AssignableFrom H (types s) t i false = Some true.
Proof.
  unfold VerifyRegisterType, sbind, GetRegisterType, deref, sget, RegisterLine.IsAssignableFrom. intros E Hq.
  destruct (line_ (line s) !! Z.to_nat v) as [i|] eqn:Ei; [|done].
  destruct (AssignableFrom H (types s) t i false) as [[]|] eqn:Ea; [|injection E as <- <-; by apply no_error in Hq|done].
  cbn [negb] in E. destruct (IsLowHalf _); [|injection E as <- <-; eauto].
  destruct (line_ (line s) !! Z.to_nat (v + 1)) as [j|]; [|done].
  destruct (CheckWidePair _ _); injection E as <- <-; [eauto|by apply no_error in Hq].
Qed.
Lemma verify_wide_quiet v t1 t2 s b s' :
  VerifyRegisterTypeWide H v t1 t2 s = Some (b, s') -> errors s' = errors s -> b = true /\ s' = s.
Proof.
  unfold VerifyRegisterTypeWide, sbind, GetRegisterType, deref, sget, RegisterLine.IsAssignableFrom. intros E Hq.
  destruct (line_ (line s) !! Z.to_nat v) as [i|]; [|done].
  destruct (AssignableFrom H (types s) t1 i false) as [[]|]; [|injection E as <- <-; by apply no_error in Hq|done].
  cbn [negb] in E. destruct (line_ (line s) !! Z.to_nat (v + 1)) as [j|]; [|done].
  destruct (CheckWidePair _ _); injection E as <- <-; [done|by apply no_error in Hq].
Qed.

Section Instruction.
Context (insns : code_units) (inst : Z).
#[local] Abbreviation d := (Fetch16 insns inst 0).

Lemma unary_quiet t1 t2 s a s' :
  CheckUnaryOp H insns inst t1 t2 s = Some (a, s') -> errors s' = errors s -> put1 (VRegA_12x d) t1 s s'.
Proof.
  unfold CheckUnaryOp. intros E Hq. lsplit E Hq. apply verify_quiet in E0 as (-> & -> & _); [|done].
  lsplit E Hq. injection E as _ <-. by eapply set_quiet.
Qed.
Lemma unary_wide_quiet t1 t2 t3 t4 s a s' :
  CheckUnaryOpWide H insns inst t1 t2 t3 t4 s = Some (a, s') -> errors s' = errors s -> put2 (VRegA_12x d) t1 t2 s s'.
Proof.
  unfold CheckUnaryOpWide. intros E Hq. lsplit E Hq. apply verify_wide_quiet in E0 as (-> & ->); [|done].
  lsplit E Hq. injection E as _ <-. by eapply set_wide_quiet.
Qed.
Lemma unary_to_wide_quiet t1 t2 t3 s a s' :
  CheckUnaryOpToWide H insns inst t1 t2 t3 s = Some (a, s') -> errors s' = errors s -> put2 (VRegA_12x d) t1 t2 s s'.
Proof.
  unfold CheckUnaryOpToWide. intros E Hq. lsplit E Hq. apply verify_quiet in E0 as (-> & -> & _); [|done].
  lsplit E Hq. injection E as _ <-. by eapply set_wide_quiet.
Qed.
Lemma unary_from_wide_quiet t1 t2 t3 s a s' :
  CheckUnaryOpFromWide H insns inst t1 t2 t3 s = Some (a, s') -> errors s' = errors s -> put1 (VRegA_12x d) t1 s s'.
Proof.
  unfold CheckUnaryOpFromWide. intros E Hq. lsplit E Hq. apply verify_wide_quiet in E0 as (-> & ->); [|done].
  lsplit E Hq. injection E as _ <-. by eapply set_quiet.
Qed.
End Instruction.

(** The type written is Boolean only when the operands are. *)
Definition holds_boolean (s : line_state) (v : Z) : Prop :=
  exists i, line_ (line s) !! Z.to_nat v = Some i /\ IsBooleanTypes (GetFromId (types s) i) = true.
Lemma both_boolean_quiet a b s x s' :
  both_boolean a b s = Some (x, s') -> s' = s /\ (x = true -> holds_boolean s a /\ holds_boolean s b).
Proof.
  unfold both_boolean, sbind, GetRegisterType, deref, sget. destruct (line_ (line s) !! Z.to_nat a) as [i|] eqn:Ei; [|done].
  destruct (IsBooleanTypes (GetFromId (types s) i)) eqn:Eb; [|by intros [= <- <-]]. cbn [negb].
  destruct (line_ (line s) !! Z.to_nat b) as [j|] eqn:Ej; [|done]. intros [= <- <-]. split; [done|]. intros Eb2. split; eexists; eauto.
Qed.
Lemma binary_quiet dst a b t t1 t2 check s x s' :
  check_binary H dst a b t t1 t2 check s = Some (x, s') -> errors s' = errors s ->
  put1 dst t s s' \/ (check = true /\ put1 dst Boolean s s' /\ holds_boolean s a /\ holds_boolean s b).
Proof.
  unfold check_binary. intros E Hq. lsplit E Hq. apply verify_quiet in E0 as (-> & -> & _); [|done].
  cbn [negb] in E. lsplit E Hq. apply verify_quiet in E0 as (-> & -> & _); [|done]. cbn [negb] in E.
  lsplit E Hq. assert (s0 = s /\ (a0 = true -> check = true /\ holds_boolean s a /\ holds_boolean s b)) as [-> Hb].
  { destruct check; [|by injection E0 as <- <-]. apply both_boolean_quiet in E0 as [-> ?]. naive_solver. }
  lsplit E Hq. injection E as _ <-. apply set_quiet in E1; [|done]. destruct a0; [|by left]. right. naive_solver.
Qed.
Lemma binary_wide_quiet dst a b t1 t2 t3 t4 t5 t6 s x s' :
  check_binary_wide H dst a b t1 t2 t3 t4 t5 t6 s = Some (x, s') -> errors s' = errors s -> put2 dst t1 t2 s s'.
Proof.
  unfold check_binary_wide. intros E Hq. lsplit E Hq. apply verify_wide_quiet in E0 as (-> & ->); [|done]. cbn [negb] in E.
  lsplit E Hq. apply verify_wide_quiet in E0 as (-> & ->); [|done]. lsplit E Hq. injection E as _ <-. by eapply set_wide_quiet.
Qed.
Lemma wide_shift_quiet dst a b t1 t2 t3 s x s' :
  check_wide_shift H dst a b t1 t2 t3 s = Some (x, s') -> errors s' = errors s -> put2 dst t1 t2 s s'.
Proof.
  unfold check_wide_shift. intros E Hq. lsplit E Hq. apply verify_wide_quiet in E0 as (-> & ->); [|done]. cbn [negb] in E.
  lsplit E Hq. apply verify_quiet in E0 as (-> & -> & _); [|done]. lsplit E Hq. injection E as _ <-. by eapply set_wide_quiet.
Qed.
Lemma literal_quiet insns inst t t1 check (lit16 : bool) s x s' :
  let d := Fetch16 insns inst 0 in
  let A := if lit16 then VRegA_22s d else VRegA_22b d in
  let B := if lit16 then VRegB_22s d else VRegB_22b insns inst in
  let val := u32 (if lit16 then VRegC_22s insns inst else VRegC_22b insns inst) in
  CheckLiteralOp H insns inst t t1 check lit16 s = Some (x, s') -> errors s' = errors s ->
  put1 A t s s' \/ (check = true /\ put1 A Boolean s s' /\ holds_boolean s B /\ (val = 0 \/ val = 1)).
Proof.
  intros d A B val. unfold CheckLiteralOp. fold d. fold A. fold B. fold val. intros E Hq.
  lsplit E Hq. apply verify_quiet in E0 as (-> & -> & i & Hi & _); [|done]. cbn [negb] in E.
  unfold sbind at 1, GetRegisterType in E. rewrite Hi in E. unfold sbind at 1, deref, sget in E.
  lsplit E Hq. injection E as _ <-. apply set_quiet in E0; [|done]. destruct (check && _ && _) eqn:Eb; [|by left].
  rewrite !andb_true_iff, orb_true_iff, !Z.eqb_eq in Eb. destruct Eb as [[-> Hb] Hv]. right. split_and!; try done. by exists i.
Qed.
End LineQuiet.

Section Quiet.
Context `{VS : VerifierServices} (ctx : MethodContext).

Lemma Fail_loud e v a v' : CodeFlowState.Fail ctx e v = Some (a, v') -> quiet v v' -> False.
Proof.
  intros E Hq. assert (exists e', failures_ (base v) ++ [e'] `prefix_of` failures_ (base v')) as [e' Hp].
  { unfold CodeFlowState.Fail in E. unfold sbind at 1, on_base at 1 in E.
    destruct (Fail_ _ _ _ e (base v)) as [[x b]|] eqn:Eb; [|done]. apply Fail_base in Eb as (_ & e' & Eb). exists e'.
    match type of E with ?m ?w = _ => assert (advances w v') as Ha by (eapply (_ : Mono m); exact E) end.
    apply adv_failures in Ha. cbn in Ha. by rewrite Eb in Ha. }
  unfold quiet in Hq. rewrite Hq in Hp. apply prefix_length in Hp. rewrite length_app in Hp. cbn in Hp. lia.
Qed.
Lemma Fail_all_quiet l v a v' : Fail_all ctx l v = Some (a, v') -> quiet v v' -> l = [] /\ v' = v.
Proof.
  destruct l as [|e l]; cbn [Fail_all]; [by intros [= <- <-]|]. intros E Hq.
  apply quiet_bind in E as (x & v1 & E & Hq1 & _ & _); [|apply _..|done]. by apply Fail_loud in E.
Qed.
Lemma run_line_quiet {A} l (m : LM A) v a v' :
  run_line ctx l m v = Some (a, v') -> quiet v v' ->
  exists s, m (mkLS (reg_types_ v) l []) = Some (fst a, s) /\ errors s = [] /\ snd a = line s /\ v' = set_types v (types s).
Proof.
  unfold run_line. destruct (m _) as [[x s]|] eqn:E; [|done].
  destruct (Fail_all ctx (errors s) v) as [[[] v1]|] eqn:Ef; [|done]. intros [= <- <-] Hq.
  apply Fail_all_quiet in Ef as [Es ->]; [|done]. eauto.
Qed.
Lemma work_quiet {A} (m : LM A) `{!LMono m} v a v' :
  CodeFlowState.work ctx m v = Some (a, v') -> quiet v v' ->
  exists s, m (mkLS (reg_types_ v) (work_line_ v) []) = Some (a, s) /\ errors s = []
  /\ v' = set_work (set_types v (types s)) (line s).
Proof.
  unfold CodeFlowState.work. intros E Hq.
  apply quiet_bind in E as (l & v1 & [= <- <-] & _ & E & Hq1); [|apply _..|done].
  apply quiet_bind in E as (r & v2 & E & Hq2 & E2 & _); [|apply _..|done].
  apply run_line_quiet in E as (s & Em & Es & Er & ->); [|done]. cbn in E2. injection E2 as <- <-.
  exists s. by rewrite Er.
Qed.
End Quiet.

(** ** Copies *)
Lemma copy1_quiet dst src cat s a s' :
  CopyRegister1 dst src cat s = Some (a, s') -> errors s' = errors s ->
  exists i, line_ (line s) !! Z.to_nat src = Some i /\ (Z.to_nat dst < length (line_ (line s)))%nat
  /\ types s' = types s /\ line_ (line s') = <[Z.to_nat dst := stored_id i]> (line_ (line s))
  /\ (IsConflict (GetFromId (types s) i) = true
      \/ (cat = kTypeCategory1nr -> IsCategory1Types (GetFromId (types s) i) = true)
         /\ (cat = kTypeCategoryRef -> IsReferenceTypes (GetFromId (types s) i) = true)).
Proof.
  unfold CopyRegister1. intros E Hq. unfold sbind at 1, GetRegisterType in E.
  destruct (line_ (line s) !! Z.to_nat src) as [i|] eqn:Ei; [|done]. exists i. split; [done|].
  unfold sbind at 1 in E. destruct (SetRegisterType kClear dst i s) as [[b s1]|] eqn:E1; [|done].
  apply SetRegisterType_inv in E1. destruct b; cbn [negb] in E; [|injection E as _ <-; subst s1; by apply no_error in Hq].
  destruct E1 as [Hd ->]. split; [done|]. unfold sbind, deref, sget in E. cbn [types] in E.
  destruct (IsConflict _) eqn:Ec; cbn [negb andb] in E.
  - destruct cat; injection E as _ <-; cbn; auto.
  - destruct cat; cbn [is_cat andb orb] in E; rewrite ?orb_false_r in E;
      [injection E as _ <-; cbn; split_and!; try done; right; split; intros; done| |injection E as _ <-; cbn; split_and!; try done; right; split; intros; done|].
    all: destruct (negb _) eqn:En; injection E as _ <-; [by apply no_error in Hq|]; cbn; split_and!; try done.
    all: right; split; intros; try done; by apply negb_false_iff in En.
Qed.
Lemma copy2_quiet dst src s a s' :
  CopyRegister2 dst src s = Some (a, s') -> errors s' = errors s ->
  exists i j, line_ (line s) !! Z.to_nat src = Some i /\ line_ (line s) !! Z.to_nat (src + 1) = Some j
  /\ CheckWidePair (GetFromId (types s) i) (GetFromId (types s) j) = true /\ put2 dst i j s s'.
Proof.
  unfold CopyRegister2. intros E Hq. unfold sbind at 1, GetRegisterType at 1 in E.
  destruct (line_ (line s) !! Z.to_nat src) as [i|] eqn:Ei; [|done]. unfold sbind at 1, GetRegisterType at 1 in E.
  destruct (line_ (line s) !! Z.to_nat (src + 1)) as [j|] eqn:Ej; [|done].
  unfold sbind at 1, deref at 1, sget at 1 in E. unfold sbind at 1, deref at 1, sget at 1 in E.
  destruct (CheckWidePair _ _) eqn:Ew; cbn [negb] in E; [|injection E as _ <-; by apply no_error in Hq].
  lsplit E Hq. injection E as _ <-. exists i, j. split_and!; try done. by eapply set_wide_quiet.
Qed.

(** ** The switch against the interpreter *)
Record kept (v v' : vstate) : Prop := {
  kp_base : base v' = base v;
  kp_idx : work_insn_idx_ v' = work_insn_idx_ v;
  kp_saved : saved_line_ v' = saved_line_ v;
  kp_table : reg_table_ v' = reg_table_ v
}.
#[global] Instance kept_preorder : PreOrder kept.
Proof. split; [by intros v; split|]. intros u v w [A1 A2 A3 A4] [B1 B2 B3 B4]. split; congruence. Qed.

Section Step.
Context `{VS : VerifierServices} {RS : RuntimeServices} (ctx : MethodContext) (Hok : hier_ok hier).
Context (cls : Z -> option Class) (Hheap : heap_ok hier cls) {handler_at : Z -> Z -> Prop}.
#[local] Abbreviation insns := (insns_ (code_item_ ctx)).
Context {PS : PlainServices insns handler_at} (Hunits : units_ok insns) (inst : Z).
#[local] Abbreviation d := (Fetch16 insns inst 0).
#[local] Abbreviation cache_ok := (cache_ok hier).
#[local] Abbreviation frame_typed := (frame_typed hier cls).
#[local] Abbreviation reg_typed := (reg_typed hier cls).

Definition transfers (c c' : RegTypeCache) (l l' : list nat) : Prop :=
  forall st st' pc', frame_typed c l (frame st) -> exec insns inst st = Continue st' pc' -> frame_typed c' l' (frame st').

Record flowed (v v' : vstate) : Prop := {
  fl_kept : kept v v';
  fl_cache : cache_ok (reg_types_ v');
  fl_extends : extends (reg_types_ v) (reg_types_ v');
  fl_valid : Forall (valid (reg_types_ v')) (line_ (work_line_ v'));
  fl_length : length (line_ (work_line_ v')) = length (line_ (work_line_ v));
  fl_transfers : transfers (reg_types_ v) (reg_types_ v') (line_ (work_line_ v)) (line_ (work_line_ v'))
}.

(** The state before the instruction. *)
Context (v : vstate) (Hc : cache_ok (reg_types_ v)) (Hl : Forall (valid (reg_types_ v)) (line_ (work_line_ v))).
#[local] Abbreviation c := (reg_types_ v).
#[local] Abbreviation l := (line_ (work_line_ v)).

(** The frame does not change. *)
Definition exec_keeps : Prop := forall st st' pc', exec insns inst st = Continue st' pc' -> frame st' = frame st.
Lemma flowed_keep v' :
  kept v v' -> cache_ok (reg_types_ v') -> extends c (reg_types_ v') -> line_ (work_line_ v') = l -> exec_keeps -> flowed v v'.
Proof.
  intros Hk Hc' He El Hx. split; rewrite ?El; try done; [by eapply valid_list_extends|].
  intros st st' pc' Hf E. rewrite (Hx _ _ _ E). by apply (ft_extends hier cls c).
Qed.

(** One register or a pair is written. *)
Lemma flowed_put1 v' dst t :
  kept v v' -> cache_ok (reg_types_ v') -> extends c (reg_types_ v') -> fits (reg_types_ v') -> valid (reg_types_ v') t ->
  0 <= dst -> (Z.to_nat dst < length l)%nat -> line_ (work_line_ v') = <[Z.to_nat dst := stored_id t]> l ->
  (forall st st' pc', frame_typed c l (frame st) -> exec insns inst st = Continue st' pc' ->
     (exists x, frame st' = SetVReg (frame st) dst x /\ reg_typed (reg_types_ v') t (u32 x) 0)
     \/ (exists x, frame st' = SetVRegReference (frame st) dst x /\ reg_typed (reg_types_ v') t (u32 x) (u32 x))) -> flowed v v'.
Proof.
  intros Hk Hc' He Hf Ht Hd Hlt El Hx. rewrite (stored_id_valid _ t Hf Ht) in El.
  assert (Forall (valid (reg_types_ v')) l) as Hl' by (by eapply valid_list_extends).
  split; rewrite ?El; try done; [by apply Forall_insert|by rewrite length_insert|].
  intros st st' pc' HF E. pose proof HF as HF'. apply (ft_extends hier cls c _ _ _ He Hl) in HF'.
  destruct (Hx _ _ _ HF E) as [(x & -> & Hr)|(x & -> & Hr)]; [by apply ft_set|by apply ft_set_ref].
Qed.
Lemma flowed_put2 v' dst t1 t2 :
  kept v v' -> cache_ok (reg_types_ v') -> extends c (reg_types_ v') -> fits (reg_types_ v') ->
  valid (reg_types_ v') t1 -> valid (reg_types_ v') t2 ->
  0 <= dst -> (Z.to_nat (dst + 1) < length l)%nat ->
  line_ (work_line_ v') = <[Z.to_nat (dst + 1) := stored_id t2]> (<[Z.to_nat dst := stored_id t1]> l) ->
  (forall st st' pc', frame_typed c l (frame st) -> exec insns inst st = Continue st' pc' ->
     exists x, frame st' = SetVRegLong (frame st) dst x
     /\ reg_typed (reg_types_ v') t1 (u32 x) 0 /\ reg_typed (reg_types_ v') t2 (u32 (Z.shiftr x 32)) 0) -> flowed v v'.
Proof.
  intros Hk Hc' He Hf Ht1 Ht2 Hd Hlt El Hx. rewrite (stored_id_valid _ t1 Hf Ht1), (stored_id_valid _ t2 Hf Ht2) in El.
  assert (Forall (valid (reg_types_ v')) l) as Hl' by (by eapply valid_list_extends).
  split; rewrite ?El; try done; [by repeat apply Forall_insert|by rewrite !length_insert|].
  intros st st' pc' HF E. pose proof HF as HF'. apply (ft_extends hier cls c _ _ _ He Hl) in HF'.
  destruct (Hx _ _ _ HF E) as (x & -> & H1 & H2). by apply ft_set_wide.
Qed.
End Step.
