(* ===== verification/CodeFlowPlain.v ===== *)
(** * The plain instructions in the code-flow pass

    For every instruction that moves, computes, branches or returns: when the pass reports nothing,
    the line it leaves describes the frame the interpreter leaves. *)

From Stdlib Require Import Ascii.
From stdpp Require Import strings.
From S2P Require Import Prelude DexOpcodes DexInstruction ShadowFrame InterpreterBase Interpreter VerifierStatic VerifierProps InterpreterSafety ClassHierarchy.
From S2P Require Import RegTypes RegTypeProofs RegTypeTheorems RegisterLine RegisterLineProofs.
From S2P Require Import CodeFlowState CodeFlowChecks CodeFlow CodeFlowMono FrameTypes PlainExec CodeFlowStep.

Lemma set_types_same v : set_types v (reg_types_ v) = v.
Proof. by destruct v. Qed.
Lemma put_reg_line r t x : line_ (put_reg r t x) = <[Z.to_nat r := t]> (line_ x).
Proof. done. Qed.

(** Register numbers are not negative. *)
Ltac nonneg :=
  unfold VRegA_11n, VRegA_11x, VRegA_12x, VRegA_21h, VRegA_21s, VRegA_22b, VRegA_22s, VRegA_22x, VRegA_23x, VRegA_31i, VRegA_51l,
    VRegB_12x, VRegB_22b, VRegB_22s, VRegB_23x, VRegC_23x, VRegA_32x, VRegB_22x, VRegB_32x, InstA, InstAA, InstB;
  first [apply u8_nonneg | by apply unit_nonneg].

(** The class linker returns loaded classes, and so do the methods it resolves. *)
Record services_ok `{VS : VerifierServices} (ctx : MethodContext) : Prop := {
  so_resolve : forall loader d k, ResolveClassIn loader d = Some k -> loaded hier k /\ IsPrimitive k = false;
  so_declaring : forall m, mirror_method_ ctx = Some m -> loaded hier (m_declaring_class m);
  so_return : forall m k, mirror_method_ ctx = Some m -> m_return_class m = Some k -> loaded hier k
}.

Ltac qsplit E Hq :=
  let a := fresh "a" in let s := fresh "v" in let E1 := fresh "E" in let Hq1 := fresh "Hq" in let Hq2 := fresh "Hq" in
  apply quiet_bind in E as (a & s & E1 & Hq1 & E & Hq2); [clear Hq; rename Hq2 into Hq|solve [mono]..|exact Hq].

(** ** Checks that leave the state *)
Section Checks.
Context `{VS : VerifierServices} (ctx : MethodContext) (inst : Z) (v : vstate).
#[local] Abbreviation insns := (insns_ (code_item_ ctx)).
#[local] Abbreviation d := (Fetch16 insns inst 0).
#[local] Abbreviation work := (CodeFlowState.work ctx).
Lemma work_verify t r a v' :
  work (VerifyRegisterType hier r t) v = Some (a, v') -> quiet v v' -> a = true /\ v' = v.
Proof.
  intros E Hq. apply work_quiet in E as (s & Em & Es & ->); [|apply _|done]. apply verify_quiet in Em as (-> & -> & _); [|done].
  split; [done|]. by destruct v.
Qed.
Lemma work_verify_wide t1 t2 r a v' :
  work (VerifyRegisterTypeWide hier r t1 t2) v = Some (a, v') -> quiet v v' -> a = true /\ v' = v.
Proof.
  intros E Hq. apply work_quiet in E as (s & Em & Es & ->); [|apply _|done]. apply verify_wide_quiet in Em as (-> & ->); [|done].
  split; [done|]. by destruct v.
Qed.
Lemma work_type_same r a v' : work_type ctx r v = Some (a, v') -> v' = v.
Proof.
  unfold work_type, CodeFlowState.work, sbind, sget, run_line, smod, sret. unfold GetRegisterType. cbn [line].
  destruct (_ !! _); [|done]. cbn. intros [= <- <-]. by destruct v.
Qed.
Lemma GetFlags_same i f v' :
  GetFlags i v = Some (f, v') -> v' = v /\ 0 <= i < Z.of_nat (length (insn_flags_ (base v))) /\ f = rd (insn_flags_ (base v)) i.
Proof.
  unfold GetFlags, on_base, GetInstructionFlags. destruct (_ && _) eqn:Ei; [|done]. intros [= <- <-].
  split; [by destruct v|]. split; [lia|done].
Qed.
Lemma previous_same n i a v' : previous_opcode n i v = Some (a, v') -> v' = v.
Proof.
  revert i. induction n as [|n IH]; intros i; cbn [previous_opcode]; (destruct (i =? 0); [by intros [= <- <-]|]);
    unfold sbind; destruct (GetFlags i v) as [[f w]|] eqn:Ef; try done; apply GetFlags_same in Ef as (-> & _);
    (destruct (InstructionFlags.IsOpcode f); [by intros [= <- <-]|]); [done|apply IH].
Qed.
Lemma fail_if_quiet (b : bool) e a v' :
  (if b then CodeFlowState.Fail ctx e else sret tt) v = Some (a, v') -> quiet v v' -> b = false /\ v' = v.
Proof. destruct b; [|by intros [= <- <-]]. intros E Hq. by apply Fail_loud in E. Qed.

Lemma if_eq_quiet a v' : check_if_eq ctx inst v = Some (a, v') -> quiet v v' -> v' = v.
Proof.
  unfold check_if_eq. intros E Hq. qsplit E Hq. apply work_type_same in E0 as ->. qsplit E Hq. apply work_type_same in E0 as ->.
  qsplit E Hq. injection E0 as <- <-. qsplit E Hq. injection E0 as <- <-. by apply fail_if_quiet in E as [_ ->].
Qed.
Lemma if_lt_quiet a v' : check_if_lt ctx inst v = Some (a, v') -> quiet v v' -> v' = v.
Proof.
  unfold check_if_lt. intros E Hq. qsplit E Hq. apply work_type_same in E0 as ->. qsplit E Hq. apply work_type_same in E0 as ->.
  qsplit E Hq. injection E0 as <- <-. qsplit E Hq. injection E0 as <- <-. by apply fail_if_quiet in E as [_ ->].
Qed.
Lemma if_ltz_quiet a v' : check_if_ltz ctx inst v = Some (a, v') -> quiet v v' -> v' = v.
Proof.
  unfold check_if_ltz. intros E Hq. qsplit E Hq. apply work_type_same in E0 as ->.
  qsplit E Hq. injection E0 as <- <-. by apply fail_if_quiet in E as [_ ->].
Qed.
(** No [instance-of] comes before: the line stays. *)
Lemma if_eqz_quiet a v' :
  (forall i, marked (base v) i = true -> plain (opcode insns i) = true) ->
  check_if_eqz ctx inst v = Some (a, v') -> quiet v v' -> a = None /\ v' = v.
Proof.
  intros Hp. unfold check_if_eqz. intros E Hq. qsplit E Hq. apply work_type_same in E0 as ->. qsplit E Hq. injection E0 as <- <-.
  qsplit E Hq. apply fail_if_quiet in E0 as [_ ->]; [|done]. qsplit E Hq. injection E0 as <- <-.
  destruct (work_insn_idx_ v =? 0); [by injection E as <- <-|].
  qsplit E Hq. apply previous_same in E0 as ->. qsplit E Hq. apply GetFlags_same in E0 as (-> & Hi & ->).
  qsplit E Hq. unfold FailOrAbort in E0. destruct (InstructionFlags.IsOpcode _) eqn:Eo; cbn [negb] in E0.
  2: { match goal with Hx : quiet v v0 |- _ => qsplit E0 Hx end. by apply Fail_loud in E1. }
  injection E0 as <- <-. assert (plain (opcode insns a2) = true) as Hpa.
  { apply Hp. unfold marked. rewrite Eo. lia. }
  qsplit E Hq. apply GetFlags_same in E0 as (-> & _).
  rewrite (bool_decide_eq_false_2 (opcode insns a2 = INSTANCE_OF)) in E by (intros Ei; by rewrite Ei in Hpa).
  rewrite !andb_false_r in E. by injection E as <- <-.
Qed.

End Checks.

Section Plain.
Context `{VS : VerifierServices} {RS : RuntimeServices} (ctx : MethodContext) (Hok : hier_ok hier).
Context (cls : Z -> option Class) (Hheap : heap_ok hier cls) {handler_at : Z -> Z -> Prop}.
#[local] Abbreviation insns := (insns_ (code_item_ ctx)).
Context {PS : PlainServices insns handler_at} (Hunits : units_ok insns) (inst : Z).
#[local] Abbreviation d := (Fetch16 insns inst 0).
#[local] Abbreviation op := (opcode insns inst).
#[local] Abbreviation cache_ok := (cache_ok hier).
#[local] Abbreviation frame_typed := (frame_typed hier cls).
#[local] Abbreviation reg_typed := (reg_typed hier cls).
#[local] Abbreviation flowed := (flowed ctx cls inst).
#[local] Abbreviation work := (CodeFlowState.work ctx).
Context (v : vstate) (Hc : cache_ok (reg_types_ v)) (Hl : Forall (valid (reg_types_ v)) (line_ (work_line_ v))).
#[local] Abbreviation c := (reg_types_ v).
#[local] Abbreviation l := (line_ (work_line_ v)).

(** ** One register of a type that holds every word *)
Lemma work_put1 {A} (m : LM A) dst t a v' :
  (forall s a s', m s = Some (a, s') -> errors s' = errors s -> put1 dst t s s') ->
  work m v = Some (a, v') -> LMono m -> quiet v v' ->
  (Z.to_nat dst < length l)%nat /\ v' = set_work v (put_reg dst (stored_id t) (work_line_ v)).
Proof.
  intros Hm E HM Hq. apply work_quiet in E as (s & Em & Es & ->); [|done|done].
  apply Hm in Em as [Hd ->]; [|done]. cbn in *. by rewrite set_types_same.
Qed.
Lemma work_put2 {A} (m : LM A) dst t1 t2 a v' :
  (forall s a s', m s = Some (a, s') -> errors s' = errors s -> put2 dst t1 t2 s s') ->
  work m v = Some (a, v') -> LMono m -> quiet v v' ->
  (Z.to_nat (dst + 1) < length l)%nat
  /\ v' = set_work v (put_reg (dst + 1) (stored_id t2) (put_reg dst (stored_id t1) (work_line_ v))).
Proof.
  intros Hm E HM Hq. apply work_quiet in E as (s & Em & Es & ->); [|done|done].
  apply Hm in Em as [Hd ->]; [|done]. cbn in *. by rewrite set_types_same.
Qed.

Definition top_type (i : nat) : Prop :=
  exists t, FillPrimitiveAndSmallConstantTypes !! i = Some t /\ gamma hier cls t = (fun _ => True) /\ IsReferenceTypes t = false.
Lemma top_word i x : top_type i -> reg_typed c i (u32 x) 0.
Proof.
  intros (t & Ht & Hg & Hr). eapply prefix_typed; [done|done|by apply wrapu_range|by rewrite Hg|done].
Qed.
Lemma top_valid i : top_type i -> valid c i.
Proof. intros (t & Ht & _). by apply (prefix_get hier c i t Hc). Qed.

Lemma work_top1 {A} (m : LM A) dst t a v' :
  work m v = Some (a, v') -> LMono m -> quiet v v' ->
  (forall s a s', m s = Some (a, s') -> errors s' = errors s -> put1 dst t s s') -> fits c -> 0 <= dst -> top_type t ->
  (forall st st' pc', exec insns inst st = Continue st' pc' -> exists x, frame st' = SetVReg (frame st) dst x) -> flowed v v'.
Proof.
  intros E HM Hq Hm Hf Hd Ht Hx. apply (work_put1 m dst t) in E as [Hlt ->]; [|done|done|done].
  apply (flowed_put1 ctx cls inst v Hl _ dst t); try done; [apply extends_refl|by apply top_valid|].
  intros st st' pc' HF Ex. left. destruct (Hx _ _ _ Ex) as [x ->]. exists x. split; [done|]. by apply top_word.
Qed.
Lemma work_top2 {A} (m : LM A) dst t1 t2 a v' :
  work m v = Some (a, v') -> LMono m -> quiet v v' ->
  (forall s a s', m s = Some (a, s') -> errors s' = errors s -> put2 dst t1 t2 s s') -> fits c -> 0 <= dst -> top_type t1 -> top_type t2 ->
  (forall st st' pc', exec insns inst st = Continue st' pc' -> exists x, frame st' = SetVRegLong (frame st) dst x) -> flowed v v'.
Proof.
  intros E HM Hq Hm Hf Hd H1 H2 Hx. apply (work_put2 m dst t1 t2) in E as [Hlt ->]; [|done|done|done].
  apply (flowed_put2 ctx cls inst v Hl _ dst t1 t2); try done; [apply extends_refl|by apply top_valid..|].
  intros st st' pc' HF Ex. destruct (Hx _ _ _ Ex) as [x ->]. exists x. split; [done|]. split; by apply top_word.
Qed.

Ltac top := by eexists.
Ltac store Eop :=
  let st := fresh "st" in let st' := fresh "st'" in let pc' := fresh "pc'" in let E := fresh "E" in
  intros st st' pc' E; exec_case E Eop;
  unfold next1, next2, next3, ending, ending_pending, possibly, DoIntDivide, DoIntRemainder, DoLongDivide, DoLongRemainder in E;
  repeat case_match; cbn [fst snd negb] in *; simplify_eq; cbn [frame set_frame]; by eexists.

(** ** Unary operations *)
Definition unary_top (o : Code) : bool :=
  match o with
  | NEG_INT | NOT_INT | NEG_LONG | NOT_LONG | NEG_FLOAT | NEG_DOUBLE
  | INT_TO_LONG | INT_TO_FLOAT | INT_TO_DOUBLE | LONG_TO_INT | LONG_TO_FLOAT | LONG_TO_DOUBLE
  | FLOAT_TO_INT | FLOAT_TO_LONG | FLOAT_TO_DOUBLE | DOUBLE_TO_INT | DOUBLE_TO_LONG | DOUBLE_TO_FLOAT => true
  | _ => false
  end.
Lemma unary_top_step a v' :
  unary_top op = true -> switch_unary ctx inst op v = Some (a, v') -> quiet v v' -> fits c -> flowed v v'.
Proof.
  intros Hop E Hq Hf. destruct op eqn:Eop; try discriminate Hop; cbn [switch_unary] in E.
  all: first
    [ eapply (work_top1 (CheckUnaryOp _ _ _ _ _)); [exact E|apply _|done|intros *; apply unary_quiet|done|nonneg|top|store Eop]
    | eapply (work_top1 (CheckUnaryOpFromWide _ _ _ _ _ _)); [exact E|apply _|done|intros *; apply unary_from_wide_quiet|done|nonneg|top|store Eop]
    | eapply (work_top2 (CheckUnaryOpWide _ _ _ _ _ _ _)); [exact E|apply _|done|intros *; apply unary_wide_quiet|done|nonneg|top|top|store Eop]
    | eapply (work_top2 (CheckUnaryOpToWide _ _ _ _ _ _)); [exact E|apply _|done|intros *; apply unary_to_wide_quiet|done|nonneg|top|top|store Eop] ].
Qed.

(** ** Types with a range *)
Lemma range_typed i t x :
  FillPrimitiveAndSmallConstantTypes !! i = Some t -> IsReferenceTypes t = false -> in_s 32 x ->
  (forall w, s32 w = x -> gamma hier cls t w) -> reg_typed c i (u32 x) 0.
Proof.
  intros Ht Hr Hx Hg. eapply prefix_typed; [done|done|by apply wrapu_range| |done].
  apply Hg. by rewrite wraps_wrapu, wraps_small.
Qed.
Definition narrowing (o : Code) : bool := match o with INT_TO_BYTE | INT_TO_CHAR | INT_TO_SHORT => true | _ => false end.
Lemma narrowing_step a v' :
  narrowing op = true -> switch_unary ctx inst op v = Some (a, v') -> quiet v v' -> fits c -> flowed v v'.
Proof.
  intros Hop E Hq Hf. destruct op eqn:Eop; try discriminate Hop; cbn [switch_unary] in E.
  all: eapply work_put1 in E as [Hlt ->]; [|intros *; apply unary_quiet|apply _|done].
  all: eapply flowed_put1; [exact Hl|done|exact Hc|apply extends_refl|done| |nonneg|done|done|].
  all: try (by eapply prefix_get).
  all: intros st st' pc' HF Ex; exec_case Ex Eop; injection Ex as <- <-; left; eexists; (split; [done|]).
  all: eapply range_typed; [done|done| |intros w Ew; cbn; rewrite Ew].
  all: unfold_width; dlia.
Qed.

(** ** Bit operations on booleans *)
Lemma boolean_typed x : 0 <= x <= 1 -> reg_typed c Boolean (u32 x) 0.
Proof. intros Hx. eapply range_typed; [done|done|unfold_width; lia|]. intros w Ew. cbn [gamma]. by rewrite Ew. Qed.
Lemma boolean_value f r :
  frame_typed c l f -> 0 <= r -> holds_boolean (mkLS c (work_line_ v) []) r -> 0 <= GetVReg f r <= 1.
Proof.
  intros F Hr (i & Hi & Hb). cbn in Hi, Hb. destruct (ft_regs _ _ _ _ _ F r i Hr Hi) as [[Hw Hg] _].
  by apply (boolean_included hier cls _ Hb) in Hg.
Qed.
Lemma bit_ops x y :
  0 <= x <= 1 -> 0 <= y <= 1 -> 0 <= Z.land x y <= 1 /\ 0 <= Z.lor x y <= 1 /\ 0 <= Z.lxor x y <= 1.
Proof.
  intros Hx Hy. assert (x = 0 \/ x = 1) as [-> | ->] by lia; assert (y = 0 \/ y = 1) as [-> | ->] by lia; by vm_compute.
Qed.

Lemma work_bool {A} (m : LM A) dst (P : line_state -> Prop) a v' :
  work m v = Some (a, v') -> LMono m -> quiet v v' ->
  (forall s a s', m s = Some (a, s') -> errors s' = errors s -> put1 dst Integer s s' \/ (put1 dst Boolean s s' /\ P s)) ->
  fits c -> 0 <= dst ->
  (forall st st' pc', frame_typed c l (frame st) -> exec insns inst st = Continue st' pc' ->
     exists x, frame st' = SetVReg (frame st) dst x /\ (P (mkLS c (work_line_ v) []) -> 0 <= x <= 1)) -> flowed v v'.
Proof.
  intros E HM Hq Hm Hf Hd Hx. apply work_quiet in E as (s & Em & Es & ->); [|done|done].
  apply Hm in Em as [[Hlt ->]|[[Hlt ->] HP]]; [| |done]; cbn in Hlt; cbn [types line]; rewrite set_types_same.
  - apply (flowed_put1 ctx cls inst v Hl _ dst Integer); try done; [apply extends_refl|by eapply prefix_get|].
    intros st st' pc' HF Ex. left. destruct (Hx _ _ _ HF Ex) as (x & -> & _). exists x. split; [done|]. apply top_word. by eexists.
  - apply (flowed_put1 ctx cls inst v Hl _ dst Boolean); try done; [apply extends_refl|by eapply prefix_get|].
    intros st st' pc' HF Ex. left. destruct (Hx _ _ _ HF Ex) as (x & -> & Hb). exists x. split; [done|]. by apply boolean_typed, Hb.
Qed.
Ltac bit_store Eop :=
  let st := fresh "st" in let HF := fresh "HF" in let E := fresh "E" in
  intros st ? ? HF E; exec_case E Eop; injection E as <- <-; eexists; (split; [done|]);
  let Ha := fresh in let Hb := fresh in intros [Ha Hb];
  apply (boolean_value (frame st)) in Ha, Hb; [by apply bit_ops|first [exact HF|nonneg]..].
Ltac binary_spec := let Em := fresh in intros * Em ?; apply binary_quiet in Em as [?|(_ & ? & ?)]; [by left|by right|done].
Definition bit_int (o : Code) : bool :=
  match o with AND_INT | OR_INT | XOR_INT | AND_INT_2ADDR | OR_INT_2ADDR | XOR_INT_2ADDR => true | _ => false end.
Lemma bit_int_step a v' :
  bit_int op = true -> switch_binary ctx inst op v = Some (a, v') -> quiet v v' -> fits c -> flowed v v'.
Proof.
  intros Hop E Hq Hf. destruct op eqn:Eop; try discriminate Hop; cbn [switch_binary] in E.
  all: lazymatch type of E with
    | context [CheckBinaryOp _ _ _ _ _ _ _] =>
        eapply (work_bool (CheckBinaryOp _ _ _ _ _ _ _) _ (fun s => holds_boolean s (VRegB_23x insns inst) /\ holds_boolean s (VRegC_23x insns inst)));
        [exact E|apply _|done|binary_spec|done|nonneg|bit_store Eop]
    | _ =>
        eapply (work_bool (CheckBinaryOp2addr _ _ _ _ _ _ _) _ (fun s => holds_boolean s (VRegA_12x d) /\ holds_boolean s (VRegB_12x d)));
        [exact E|apply _|done|binary_spec|done|nonneg|bit_store Eop]
    end.
Qed.

(** ** Binary operations *)
Lemma binary_top_quiet dst a b t t1 t2 s x s' :
  check_binary hier dst a b t t1 t2 false s = Some (x, s') -> errors s' = errors s -> put1 dst t s s'.
Proof. intros E Hq. by apply binary_quiet in E as [?|(? & _)]. Qed.
Definition binary_top (o : Code) : bool :=
  match o with
  | ADD_INT | SUB_INT | MUL_INT | REM_INT | DIV_INT | SHL_INT | SHR_INT | USHR_INT
  | ADD_LONG | SUB_LONG | MUL_LONG | DIV_LONG | REM_LONG | AND_LONG | OR_LONG | XOR_LONG | SHL_LONG | SHR_LONG | USHR_LONG
  | ADD_FLOAT | SUB_FLOAT | MUL_FLOAT | DIV_FLOAT | REM_FLOAT
  | ADD_DOUBLE | SUB_DOUBLE | MUL_DOUBLE | DIV_DOUBLE | REM_DOUBLE => true
  | _ => false
  end.
Definition binary2_top (o : Code) : bool :=
  match o with
  | ADD_INT_2ADDR | SUB_INT_2ADDR | MUL_INT_2ADDR | REM_INT_2ADDR | SHL_INT_2ADDR | SHR_INT_2ADDR
  | USHR_INT_2ADDR | DIV_INT_2ADDR
  | ADD_LONG_2ADDR | SUB_LONG_2ADDR | MUL_LONG_2ADDR | DIV_LONG_2ADDR | REM_LONG_2ADDR | AND_LONG_2ADDR
  | OR_LONG_2ADDR | XOR_LONG_2ADDR | SHL_LONG_2ADDR | SHR_LONG_2ADDR | USHR_LONG_2ADDR
  | ADD_FLOAT_2ADDR | SUB_FLOAT_2ADDR | MUL_FLOAT_2ADDR | DIV_FLOAT_2ADDR | REM_FLOAT_2ADDR
  | ADD_DOUBLE_2ADDR | SUB_DOUBLE_2ADDR | MUL_DOUBLE_2ADDR | DIV_DOUBLE_2ADDR | REM_DOUBLE_2ADDR => true
  | _ => false
  end.
Lemma throw_is_pending st : IsExceptionPending (Throw ArithmeticExceptionDivideByZero st) = true.
Proof. unfold IsExceptionPending. destruct (ps_throw ArithmeticExceptionDivideByZero st) as [_ Hx]. by rewrite (proj2 (Z.eqb_neq _ _) Hx). Qed.
Ltac store_div Eop :=
  let st := fresh "st" in let st' := fresh "st'" in let pc' := fresh "pc'" in let E := fresh "E" in
  intros st st' pc' E; exec_case E Eop;
  unfold next1, next2, ending, ending_pending, possibly, DoIntDivide, DoIntRemainder, DoLongDivide, DoLongRemainder in E;
  repeat case_match; cbn [fst snd negb] in *; simplify_eq; first [by eexists|by rewrite throw_is_pending in *].
Lemma binary_top_step a v' :
  binary_top op = true -> switch_binary ctx inst op v = Some (a, v') -> quiet v v' -> fits c -> flowed v v'.
Proof.
  intros Hop E Hq Hf. destruct op eqn:Eop; try discriminate Hop; cbn [switch_binary] in E.
  all: lazymatch type of E with
    | context [CheckBinaryOp _ _ _ _ _ _ _] =>
        eapply (work_top1 (CheckBinaryOp _ _ _ _ _ _ _)); [exact E|apply _|done|intros *; apply binary_top_quiet|done|nonneg|top|store_div Eop]
    | context [CheckBinaryOpWide _ _ _ _ _ _ _ _ _] =>
        eapply (work_top2 (CheckBinaryOpWide _ _ _ _ _ _ _ _ _)); [exact E|apply _|done|intros *; apply binary_wide_quiet|done|nonneg|top|top|store_div Eop]
    | _ => eapply (work_top2 (CheckBinaryOpWideShift _ _ _ _ _ _)); [exact E|apply _|done|intros *; apply wide_shift_quiet|done|nonneg|top|top|store_div Eop]
    end.
Qed.
Lemma binary2_top_step a v' :
  binary2_top op = true -> switch_binary ctx inst op v = Some (a, v') -> quiet v v' -> fits c -> flowed v v'.
Proof.
  intros Hop E Hq Hf. destruct op eqn:Eop; try discriminate Hop; cbn [switch_binary] in E.
  all: lazymatch type of E with
    | context [CheckBinaryOp2addr _ _ _ _ _ _ _] =>
        eapply (work_top1 (CheckBinaryOp2addr _ _ _ _ _ _ _)); [exact E|apply _|done|intros *; apply binary_top_quiet|done|nonneg|top|store_div Eop]
    | context [CheckBinaryOp2addrWide _ _ _ _ _ _ _ _ _] =>
        eapply (work_top2 (CheckBinaryOp2addrWide _ _ _ _ _ _ _ _ _)); [exact E|apply _|done|intros *; apply binary_wide_quiet|done|nonneg|top|top|store_div Eop]
    | _ => eapply (work_top2 (CheckBinaryOp2addrWideShift _ _ _ _ _ _)); [exact E|apply _|done|intros *; apply wide_shift_quiet|done|nonneg|top|top|store_div Eop]
    end.
Qed.

(** ** Literals *)
Definition literal_op (o : Code) : bool :=
  match o with
  | ADD_INT_LIT16 | RSUB_INT | MUL_INT_LIT16 | DIV_INT_LIT16 | REM_INT_LIT16 | AND_INT_LIT16 | OR_INT_LIT16 | XOR_INT_LIT16
  | ADD_INT_LIT8 | RSUB_INT_LIT8 | MUL_INT_LIT8 | DIV_INT_LIT8 | REM_INT_LIT8 | AND_INT_LIT8 | OR_INT_LIT8 | XOR_INT_LIT8
  | SHL_INT_LIT8 | SHR_INT_LIT8 | USHR_INT_LIT8 => true
  | _ => false
  end.
Lemma literal_bit y : in_s 32 y -> u32 y = 0 \/ u32 y = 1 -> 0 <= y <= 1.
Proof. unfold_width. intros Hy Hv. dlia. Qed.
Definition bool_literal (lit16 : bool) (s : line_state) : Prop :=
  holds_boolean s (if lit16 then VRegB_22s d else VRegB_22b insns inst)
  /\ 0 <= (if lit16 then VRegC_22s insns inst else VRegC_22b insns inst) <= 1.
Lemma literal_spec check (lit16 : bool) s a s' :
  CheckLiteralOp hier insns inst Integer Integer check lit16 s = Some (a, s') -> errors s' = errors s ->
  let A := if lit16 then VRegA_22s d else VRegA_22b d in
  put1 A Integer s s' \/ (put1 A Boolean s s' /\ check = true /\ bool_literal lit16 s).
Proof.
  intros E Hq A. apply literal_quiet in E as [?|(-> & ? & Hb & Hv)]; [by left| |done]. right. split; [done|]. split; [done|]. split; [done|].
  apply literal_bit; [|done]. destruct lit16; [apply s16_in_s32|apply s8_in_s32].
Qed.
Ltac literal_store Eop :=
  let st := fresh "st" in let HF := fresh "HF" in let E := fresh "E" in
  intros st ? ? HF E; exec_case E Eop;
  unfold next2, ending, possibly, DoIntDivide, DoIntRemainder in E; repeat case_match; cbn [fst snd negb] in *; simplify_eq;
  eexists; (split; [done|]); let Hc := fresh in let Hb := fresh in let Hy := fresh in intros (Hc & Hb & Hy);
  first [discriminate Hc | cbv iota in Hb, Hy; apply (boolean_value (frame st)) in Hb; [by apply bit_ops|first [exact HF|nonneg]..]].
Lemma literal_step a v' :
  literal_op op = true -> switch_binary ctx inst op v = Some (a, v') -> quiet v v' -> fits c -> flowed v v'.
Proof.
  intros Hop E Hq Hf. destruct op eqn:Eop; try discriminate Hop; cbn [switch_binary] in E.
  all: lazymatch type of E with
    | context [CheckLiteralOp _ _ _ _ _ ?ch ?is16] =>
        eapply (work_bool (CheckLiteralOp _ _ _ _ _ ch is16) _ (fun s => ch = true /\ bool_literal is16 s));
        [exact E|apply _|done|intros *; apply (literal_spec ch is16)|done|cbv iota; nonneg|literal_store Eop]
    end.
Qed.

(** ** Comparisons *)
Lemma check_cmp_quiet lo hi a v' :
  check_cmp ctx inst lo hi v = Some (a, v') -> quiet v v' ->
  exists b, work (SetRegisterType kClear (VRegA_23x d) Integer) v = Some (b, v').
Proof.
  unfold check_cmp. intros E Hq. qsplit E Hq.
  assert (a0 = true /\ v0 = v) as [-> ->] by (destruct hi; [by eapply work_verify_wide|by eapply work_verify]).
  cbn [negb] in E. qsplit E Hq.
  assert (a0 = true /\ v0 = v) as [-> ->] by (destruct hi; [by eapply work_verify_wide|by eapply work_verify]).
  cbn [negb] in E. unfold SetWorkType in E. qsplit E Hq. injection E as <- <-. eauto.
Qed.
Definition is_cmp (o : Code) : bool := match o with CMPL_FLOAT | CMPG_FLOAT | CMPL_DOUBLE | CMPG_DOUBLE | CMP_LONG => true | _ => false end.
Lemma cmp_step a v' :
  is_cmp op = true -> switch_other ctx inst op v = Some (a, v') -> quiet v v' -> fits c -> flowed v v'.
Proof.
  intros Hop E Hq Hf. destruct op eqn:Eop; try discriminate Hop; cbn [switch_other] in E.
  all: apply check_cmp_quiet in E as [b E]; [|done].
  all: eapply (work_top1 (SetRegisterType _ _ _)); [exact E|apply _|done|intros *; apply set_quiet|done|nonneg|top|store_div Eop].
Qed.

(** ** Constants *)
Lemma range_pos k x : 0 <= x <= k -> constant_range k x.
Proof. intros Hx. unfold constant_range. destruct (_ =? _); [done|]. destruct (Z.leb_spec 0 k); [done|lia]. Qed.
Lemma range_neg k x : k < 0 -> k <= x <= -k - 1 -> constant_range k x.
Proof. intros Hk Hx. unfold constant_range, Z.lnot. destruct (_ =? _); [done|]. destruct (Z.leb_spec 0 k); lia. Qed.
Definition const_type (val : Z) (t : RegType) : Prop := gamma hier cls t (u32 val) /\ (IsReferenceTypes t = true -> val = 0).
Lemma DetermineCat1Constant_spec val precise i v' :
  in_s 32 val -> DetermineCat1Constant val precise v = Some (i, v') ->
  kept v v' /\ work_line_ v' = work_line_ v /\ returns hier c (i, reg_types_ v') (const_type val).
Proof.
  intros Hv. unfold DetermineCat1Constant, on_types. set (r := if precise then _ else _).
  assert (s32 (u32 val) = val) as Hs by (by rewrite wraps_wrapu, wraps_small).
  assert (forall k, in_s 32 k -> constant_range k val -> returns hier c (FromCat1Const c k false) (const_type val)) as Himp.
  { intros k Hk Hr. eapply returns_mono; [by apply FromCat1Const_spec|]. intros t ->. split; [|done]. cbn [gamma]. by rewrite Hs. }
  assert (returns hier c r (const_type val)) as Hr.
  { subst r. destruct precise.
    { eapply returns_mono; [by apply FromCat1Const_spec|]. intros t ->. split; [done|]. intros Hz. unfold IsReferenceTypes, IsZero in Hz. cbn in Hz. by apply Z.eqb_eq in Hz. }
    unfold IntConstant, ShortConstant, ByteConstant, PosByteConstant, PosShortConstant, CharConstant.
    destruct (Z.ltb_spec val (-32768)); [by apply Himp|]. destruct (Z.ltb_spec val (-128)); [apply Himp; [done|apply range_neg; lia]|].
    destruct (Z.ltb_spec val 0); [apply Himp; [done|apply range_neg; lia]|].
    destruct (Z.eqb_spec val 0) as [->|]; [by eapply returns_prefix|]. destruct (Z.eqb_spec val 1) as [->|]; [by eapply returns_prefix|].
    destruct (Z.ltb_spec val 128); [apply Himp; [done|apply range_pos; lia]|].
    destruct (Z.ltb_spec val 32768); [apply Himp; [done|apply range_pos; lia]|].
    destruct (Z.ltb_spec val 65536); [apply Himp; [done|apply range_pos; lia]|]. by apply Himp. }
  destruct r as [j c']. intros [= <- <-]. by split_and!.
Qed.
Lemma set_constant_step dst val a v' :
  in_s 32 val -> 0 <= dst -> set_constant ctx dst val v = Some (a, v') -> quiet v v' -> fits (reg_types_ v') ->
  (forall st st' pc', exec insns inst st = Continue st' pc' -> frame st' = set_const st dst val) -> flowed v v'.
Proof.
  intros Hv Hd E Hq Hf Hx. unfold set_constant in E. qsplit E Hq.
  apply DetermineCat1Constant_spec in E0 as (Hk & El & (Hc' & He & Hval & Hg & Hz)); [|done]. cbn [fst snd] in *.
  unfold SetWorkType in E. qsplit E Hq. injection E as <- <-.
  apply work_quiet in E0 as (s & Em & Es & ->); [|apply _|done]. apply set_quiet in Em as [Hlt ->]; [|done].
  cbn [types line errors work_line_ reg_types_ set_work set_types] in *. rewrite El in *.
  assert (fits (reg_types_ v0)) as Hf0 by done. cbn [put_reg line_] in *.
  assert (Forall (valid (reg_types_ v0)) l) as Hl' by (by eapply valid_list_extends).
  split; cbn; try done.
  - destruct Hk. by split.
  - by rewrite (stored_id_valid _ a0 Hf0 Hval); apply Forall_insert.
  - by rewrite length_insert.
  - intros st st' pc' HF Ex. rewrite (Hx _ _ _ Ex), (stored_id_valid _ a0 Hf0 Hval). apply (ft_extends hier cls c _ _ _ He Hl) in HF.
    assert (reg_typed (reg_types_ v0) a0 (u32 val) 0) as Hr.
    { split; [by split; [apply wrapu_range|]|]. intros Hr. by rewrite (Hz Hr). }
    unfold set_const. destruct (Z.eqb_spec val 0) as [->|]; [|by apply ft_set].
    rewrite <- (list_insert_insert_eq l (Z.to_nat dst) a0 a0). apply ft_set_ref; [by apply ft_set|done|by rewrite length_insert|done].
Qed.

Lemma FromCat2ConstLo_precise c0 x : in_s 32 x -> cache_ok c0 -> returns hier c0 (FromCat2ConstLo c0 x true) (fun t => t = PreciseConstLoType x).
Proof.
  intros Hx Hc0. apply returns_find; [done|done|done|done|].
  intros i e _ _. rewrite !andb_true_iff, Z.eqb_eq. intros [[Hcst Hp] Hval]. destruct e; try done. cbn in *. congruence.
Qed.
Lemma FromCat2ConstHi_precise c0 x : in_s 32 x -> cache_ok c0 -> returns hier c0 (FromCat2ConstHi c0 x true) (fun t => t = PreciseConstHiType x).
Proof.
  intros Hx Hc0. apply returns_find; [done|done|done|done|].
  intros i e _ _. rewrite !andb_true_iff, Z.eqb_eq. intros [[Hcst Hp] Hval]. destruct e; try done. cbn in *. congruence.
Qed.
Lemma set_constant_wide_step dst val a v' :
  0 <= dst -> set_constant_wide ctx dst val v = Some (a, v') -> quiet v v' -> fits (reg_types_ v') ->
  (forall st st' pc', exec insns inst st = Continue st' pc' -> frame st' = SetVRegLong (frame st) dst val) -> flowed v v'.
Proof.
  intros Hd E Hq Hf Hx. unfold set_constant_wide in E. qsplit E Hq. unfold on_types in E0.
  pose proof (FromCat2ConstLo_precise c (s32 val) (s32_range _) Hc) as R1.
  destruct (FromCat2ConstLo c (s32 val) true) as [lo c1]. injection E0 as <- <-. destruct R1 as (Hc1 & He1 & Hv1 & G1). cbn [fst snd] in *.
  qsplit E Hq. unfold on_types in E0. cbn [reg_types_ set_types] in E0.
  pose proof (FromCat2ConstHi_precise c1 (s32 (Z.shiftr val 32)) (s32_range _) Hc1) as R2.
  destruct (FromCat2ConstHi c1 _ true) as [hi c2]. injection E0 as <- <-. destruct R2 as (Hc2 & He2 & Hv2 & G2). cbn [fst snd] in *.
  qsplit E Hq. injection E as <- <-.
  apply work_quiet in E0 as (s & Em & Es & ->); [|apply _|done]. apply set_wide_quiet in Em as [Hlt ->]; [|done].
  cbn [types line errors work_line_ reg_types_ set_work set_types] in *.
  assert (extends c c2) as He by (by eapply extends_trans).
  rewrite <- (get_extends c1 c2 lo He2 Hv1) in G1.
  eapply (flowed_put2 ctx cls inst v Hl _ dst lo hi); try done; [exact (valid_extends _ _ _ He2 Hv1)|].
  intros st st' pc' HF Ex. exists val. split; [by apply (Hx _ _ _ Ex)|].
  assert (forall x, s32 (u32 x) = s32 x) as Hs by (intros x; by apply wraps_wrapu).
  split; (split; [split; [by apply wrapu_range|]|]); cbn [reg_types_ set_work set_types]; rewrite ?G1, ?G2; cbn [gamma]; try done; apply Hs.
Qed.

Definition is_const (o : Code) : bool :=
  match o with
  | CONST_4 | CONST_16 | CONST | CONST_HIGH16 | CONST_WIDE_16 | CONST_WIDE_32 | CONST_WIDE | CONST_WIDE_HIGH16 => true
  | _ => false
  end.
Lemma const4_value z : Z.shiftr (VRegB_11n z <<[32] 28) 28 = VRegB_11n z.
Proof. unfold VRegB_11n. generalize (InstB z). intros b. rewrite !Z.shiftr_div_pow2, !Z.shiftl_mul_pow2 by lia. unfold_width. dlia. Qed.
Lemma const_step a v' :
  is_const op = true -> switch_const ctx inst op v = Some (a, v') -> quiet v v' -> fits (reg_types_ v') -> flowed v v'.
Proof.
  intros Hop E Hq Hf. destruct op eqn:Eop; try discriminate Hop; cbn [switch_const] in E.
  all: lazymatch type of E with
    | set_constant_wide _ _ _ _ = _ =>
        eapply set_constant_wide_step; [|exact E|done|done|intros st st' pc' Ex; exec_case Ex Eop; injection Ex as <- <-; cbn [frame set_frame]; try reflexivity]
    | _ =>
        eapply set_constant_step; [| |exact E|done|done|intros st st' pc' Ex; exec_case Ex Eop; injection Ex as <- <-; cbn [frame set_frame]; try reflexivity]
    end.
  all: try nonneg.
  all: rewrite ?const4_value; unfold VRegB_21s, VRegB_31i; rewrite ?wraps_wraps by lia; try reflexivity.
  all: first [apply s8_in_s32|apply s16_in_s32|apply s32_in_s32].
Qed.

(** ** Moves *)
Lemma set_line_flow v' dst i :
  kept v v' -> reg_types_ v' = c -> fits c -> valid c i -> 0 <= dst -> (Z.to_nat dst < length l)%nat ->
  line_ (work_line_ v') = <[Z.to_nat dst := stored_id i]> l ->
  (forall st st' pc', frame_typed c l (frame st) -> exec insns inst st = Continue st' pc' ->
     (exists x, frame st' = SetVReg (frame st) dst x /\ reg_typed c i (u32 x) 0)
     \/ (exists x, frame st' = SetVRegReference (frame st) dst x /\ reg_typed c i (u32 x) (u32 x))) -> flowed v v'.
Proof.
  intros Hk Ec Hf Hi Hd Hlt El Hx. eapply (flowed_put1 ctx cls inst v Hl _ dst i); rewrite ?Ec; try done. apply extends_refl.
Qed.
Lemma copy1_step dst src cat a v' :
  0 <= dst -> 0 <= src -> work (CopyRegister1 dst src cat) v = Some (a, v') -> quiet v v' -> fits c ->
  (forall st st' pc', exec insns inst st = Continue st' pc' ->
     match cat with
     | kTypeCategory1nr => frame st' = SetVReg (frame st) dst (GetVReg (frame st) src)
     | kTypeCategoryRef => frame st' = SetVRegReference (frame st) dst (GetVRegReference (frame st) src)
     | _ => False
     end) -> flowed v v'.
Proof.
  intros Hd Hs E Hq Hf Hx. apply work_quiet in E as (s & Em & Es & ->); [|apply _|done].
  apply copy1_quiet in Em as (i & Hi & Hlt & Et & El & Hcat); [|done]. cbn [types line] in *.
  assert (valid c i) as Hvi by (by eapply Forall_lookup_1).
  apply (set_line_flow _ dst i); try done.
  intros st st' pc' HF Ex. specialize (Hx _ _ _ Ex). pose proof (ft_regs _ _ _ _ _ HF src i Hs Hi) as [[Hw Hg] Hr].
  destruct cat; try done.
  - left. eexists. split; [done|]. rewrite (vreg_word hier cls _ _ _ _ _ HF Hs Hi). split; [by split|].
    intros Href. destruct Hcat as [Hc1|[Hc1 _]]; [by destruct (GetFromId c i)|]. specialize (Hc1 eq_refl).
    symmetry. eapply (zero_register hier cls c i); [|by split]. by destruct (GetFromId c i).
  - right. eexists. split; [done|]. pose proof (u32_ref hier cls _ _ _ _ _ HF Hs Hi) as Hru.
    rewrite wrapu_small by (done || lia). destruct Hcat as [Hc1|[_ Hc1]].
    + assert (GetFromId c i = ConflictType) as Ei by (by destruct (GetFromId c i)). split; [split; [done|by rewrite Ei]|done].
    + rewrite Hr by auto. by split.
Qed.
Lemma wide_no_ref t1 t2 : CheckWidePair t1 t2 = true -> IsReferenceTypes t1 = false /\ IsReferenceTypes t2 = false.
Proof. destruct t1; try done; destruct t2; try done. Qed.
Lemma copy2_step dst src a v' :
  0 <= dst -> 0 <= src -> work (CopyRegister2 dst src) v = Some (a, v') -> quiet v v' -> fits c ->
  (forall st st' pc', exec insns inst st = Continue st' pc' -> frame st' = SetVRegLong (frame st) dst (GetVRegLong (frame st) src)) -> flowed v v'.
Proof.
  intros Hd Hs E Hq Hf Hx. apply work_quiet in E as (s & Em & Es & ->); [|apply _|done].
  apply copy2_quiet in Em as (i & j & Hi & Hj & Hw & Hlt & ->); [|done]. cbn [types line] in *.
  assert (valid c i) as Hvi by (by eapply Forall_lookup_1). assert (valid c j) as Hvj by (by eapply Forall_lookup_1).
  eapply (flowed_put2 ctx cls inst v Hl _ dst i j); try done; [apply extends_refl|].
  intros st st' pc' HF Ex. eexists. split; [by apply (Hx _ _ _ Ex)|]. cbn [reg_types_ set_work set_types].
  pose proof (ft_regs _ _ _ _ _ HF src i Hs Hi) as [[W1 G1] _]. pose proof (ft_regs _ _ _ _ _ HF (src + 1) j ltac:(lia) Hj) as [[W2 G2] _].
  destruct (wide_no_ref _ _ Hw) as [N1 N2].
  assert (u32 (GetVRegLong (frame st) src) = word (frame st) src
    /\ u32 (Z.shiftr (GetVRegLong (frame st) src) 32) = word (frame st) (src + 1)) as [-> ->].
  { unfold GetVRegLong, pair_word. rewrite Z.shiftr_div_pow2 by lia. revert W1 W2. generalize (word (frame st) src) (word (frame st) (src + 1)).
    intros x y. unfold_width. intros Hx' Hy'. split; dlia. }
  split; split; try done; congruence.
Qed.
Definition is_move (o : Code) : bool :=
  match o with
  | MOVE | MOVE_FROM16 | MOVE_16 | MOVE_WIDE | MOVE_WIDE_FROM16 | MOVE_WIDE_16 | MOVE_OBJECT | MOVE_OBJECT_FROM16 | MOVE_OBJECT_16 => true
  | _ => false
  end.
Lemma move_step a v' :
  is_move op = true -> switch_move ctx inst op v = Some (a, v') -> quiet v v' -> fits c -> flowed v v'.
Proof.
  intros Hop E Hq Hf. destruct op eqn:Eop; try discriminate Hop; cbn [switch_move] in E.
  all: first
    [ eapply copy1_step; [| |exact E|done|done|intros st st' pc' Ex; exec_case Ex Eop; by injection Ex as <- <-]
    | eapply copy2_step; [| |exact E|done|done|intros st st' pc' Ex; exec_case Ex Eop; by injection Ex as <- <-] ]; nonneg.
Qed.

(** ** Branches and tables *)
Definition is_jump (o : Code) : bool :=
  match o with
  | NOP | GOTO | GOTO_16 | GOTO_32 | PACKED_SWITCH | SPARSE_SWITCH
  | IF_EQ | IF_NE | IF_LT | IF_GE | IF_GT | IF_LE | IF_LTZ | IF_GEZ | IF_GTZ | IF_LEZ => true
  | _ => false
  end.
Definition keeps_frame (o : Code) : bool :=
  is_jump o || match o with IF_EQZ | IF_NEZ | RETURN_VOID | RETURN | RETURN_WIDE | RETURN_OBJECT => true | _ => false end.
Lemma keeps_exec : keeps_frame op = true -> exec_keeps ctx inst.
Proof.
  intros Hop st st' pc' E. pose proof (proj1 (ps_suspend st)) as Hs. destruct op eqn:Eop; try discriminate Hop; exec_case E Eop.
  all: unfold cond_branch, branch in E; repeat case_match; simplify_eq; done.
Qed.
Lemma same_step : keeps_frame op = true -> flowed v v.
Proof. intros Hop. eapply flowed_keep; try done; [apply extends_refl|by apply keeps_exec]. Qed.
Lemma jump_step a v' : is_jump op = true -> switch_other ctx inst op v = Some (a, v') -> quiet v v' -> v' = v.
Proof.
  intros Hop E Hq. destruct op eqn:Eop; try discriminate Hop; cbn [switch_other] in E.
  all: lazymatch type of E with
    | sret _ _ = _ => by injection E as <- <-
    | check_if_eq _ _ _ = _ => by apply if_eq_quiet in E
    | check_if_lt _ _ _ = _ => by apply if_lt_quiet in E
    | check_if_ltz _ _ _ = _ => by apply if_ltz_quiet in E
    | sbind _ _ _ = _ => qsplit E Hq; injection E as <- <-; by apply work_verify in E0 as [_ ->]
    | _ => by apply fail_if_quiet in E as [_ ->]
    end.
Qed.
End Plain.
