(* ===== verification/CodeFlowInstruction.v ===== *)
(** * One instruction of the code-flow pass

    Returns, and the whole switch on the plain instructions: a line that describes the frame before
    an instruction becomes a line that describes the frame after it. *)

From Stdlib Require Import Ascii.
From stdpp Require Import strings.
From S2P Require Import Prelude DexOpcodes DexInstruction ShadowFrame InterpreterBase Interpreter VerifierStatic VerifierProps InterpreterSafety ClassHierarchy.
From S2P Require Import RegTypes RegTypeProofs RegTypeTheorems RegisterLine RegisterLineProofs.
From S2P Require Import CodeFlowState CodeFlowChecks CodeFlow CodeFlowMono FrameTypes PlainExec CodeFlowStep CodeFlowPlain.

Section Returns.
Context `{VS : VerifierServices} {RS : RuntimeServices} (ctx : MethodContext) (Hok : hier_ok hier) (Hso : services_ok ctx).
#[local] Abbreviation insns := (insns_ (code_item_ ctx)).
#[local] Abbreviation cache_ok := (cache_ok hier).

(** Only the cache, and what does not matter here, changes. *)
Record calm (v v' : vstate) : Prop := {
  ca_kept : kept v v';
  ca_cache : cache_ok (reg_types_ v');
  ca_extends : extends (reg_types_ v) (reg_types_ v');
  ca_line : work_line_ v' = work_line_ v
}.
Lemma calm_refl v : cache_ok (reg_types_ v) -> calm v v.
Proof. split; [done|done|apply extends_refl|done]. Qed.
Lemma calm_trans v u w : calm v u -> calm u w -> calm v w.
Proof. intros [A1 A2 A3 A4] [B1 B2 B3 B4]. split; [by etrans|done|by eapply extends_trans|congruence]. Qed.
Lemma on_types_calm f (P : RegType -> Prop) v i v' :
  returns hier (reg_types_ v) (f (reg_types_ v)) P -> on_types f v = Some (i, v') ->
  calm v v' /\ valid (reg_types_ v') i /\ P (GetFromId (reg_types_ v') i).
Proof.
  unfold on_types. destruct (f (reg_types_ v)) as [j c']. intros (H1 & H2 & H3 & H4) [= <- <-]. cbn in *. by split; [split|].
Qed.

Lemma type_of_class_calm desc k v i v' :
  cache_ok (reg_types_ v) -> loaded hier k -> type_of_class ctx desc k v = Some (i, v') -> quiet v v' -> calm v v' /\ valid (reg_types_ v') i.
Proof.
  intros Hc Hk E Hq. unfold type_of_class, VerifierFromClass in E. qsplit E Hq. apply fail_if_quiet in E0 as [_ ->]; [|done].
  eapply (on_types_calm _ (fun _ => True)) in E; [naive_solver|]. by apply FromClass_ok.
Qed.
Lemma FromDescriptor_calm desc v i v' :
  cache_ok (reg_types_ v) -> FromDescriptor_ desc v = Some (i, v') -> calm v v' /\ valid (reg_types_ v') i.
Proof.
  unfold FromDescriptor_, FromDescriptorIn. intros Hc E. eapply (on_types_calm _ (fun _ => True)) in E; [naive_solver|].
  apply FromDescriptor_ok; [|done]. intros d k. apply (so_resolve _ Hso).
Qed.
Lemma return_type_calm v i v' : cache_ok (reg_types_ v) -> GetMethodReturnType ctx v = Some (i, v') -> quiet v v' -> calm v v'.
Proof.
  intros Hc E Hq. unfold GetMethodReturnType in E. qsplit E Hq. injection E0 as <- <-.
  destruct (return_type_ v) as [j|]; [injection E as <- <-; by apply calm_refl|].
  qsplit E Hq. cbn in E. injection E as <- <-. assert (calm v v0) as [A1 A2 A3 A4]; [|by split; try done; destruct A1].
  destruct (mirror_method_ ctx) as [m|] eqn:Em; [|by apply FromDescriptor_calm in E0 as [? _]].
  destruct (m_return_class m) as [k|] eqn:Ek; [|by apply FromDescriptor_calm in E0 as [? _]].
  apply type_of_class_calm in E0 as [? _]; try done. by eapply (so_return _ Hso).
Qed.
Lemma may_return_quiet v a v' : may_return ctx v = Some (a, v') -> quiet v v' -> v' = v.
Proof.
  unfold may_return. destruct (negb _); [by intros [= <- <-]|]. intros E Hq. apply work_quiet in E as (s & Em & Es & ->); [|apply _|done].
  unfold CheckConstructorReturn, sbind, sget in Em. cbn [line] in Em.
  destruct (this_initialized_ _); cbn in Em; injection Em as <- <-; [by destruct v|done].
Qed.
Lemma assignable_same l r strict v a v' : IsAssignable l r strict v = Some (a, v') -> v' = v.
Proof. unfold IsAssignable. case_match; [|done]. by intros [= <- <-]. Qed.

Definition is_return (o : Code) : bool := match o with RETURN_VOID | RETURN | RETURN_WIDE | RETURN_OBJECT => true | _ => false end.
Lemma return_step inst v a v' :
  cache_ok (reg_types_ v) -> is_return (opcode insns inst) = true ->
  switch_other ctx inst (opcode insns inst) v = Some (a, v') -> quiet v v' -> calm v v'.
Proof.
  intros Hc Hop E Hq. destruct (opcode insns inst) eqn:Eop; try discriminate Hop; cbn [switch_other] in E;
    unfold check_return_void, check_return, check_return_wide, check_return_object in E.
  all: qsplit E Hq; apply may_return_quiet in E0 as ->; [|done]; (destruct a0; cbn [negb] in E; [|injection E as <- <-; by apply calm_refl]).
  all: qsplit E Hq; apply return_type_calm in E0 as Hcalm; [|done..]; clear E0; qsplit E Hq; injection E0 as <- <-.
  - by apply fail_if_quiet in E as [_ ->].
  - destruct (negb _); [by apply Fail_loud in E|]. qsplit E Hq. apply work_type_same in E0 as ->. qsplit E Hq. injection E0 as <- <-.
    qsplit E Hq. injection E as <- <-. by apply work_verify in E0 as [_ ->].
  - destruct (negb _); [by apply Fail_loud in E|]. qsplit E Hq. injection E as <- <-. by apply work_verify in E0 as [_ ->].
  - destruct (negb _); [by apply Fail_loud in E|]. qsplit E Hq. apply work_type_same in E0 as ->. qsplit E Hq. injection E0 as <- <-.
    repeat (match type of E with (if ?b then _ else _) _ = _ => destruct b end; [by apply Fail_loud in E|]).
    qsplit E Hq. apply assignable_same in E0 as ->. destruct a2; [by injection E as <- <-|].
    destruct (_ || _); [by apply Fail_loud in E|]. qsplit E Hq. injection E0 as <- <-. qsplit E Hq. by apply Fail_loud in E.
Qed.
End Returns.

(** ** The switch *)
Definition is_unary (o : Code) : bool := unary_top o || narrowing o.
Definition is_binary (o : Code) : bool := bit_int o || binary_top o || binary2_top o || literal_op o.
Definition is_test (o : Code) : bool := match o with IF_EQZ | IF_NEZ => true | _ => false end.
Lemma plain_cases o :
  plain o = is_move o || is_const o || is_unary o || is_binary o || is_cmp o || is_jump o || is_return o || is_test o.
Proof. by destruct o. Qed.

Section Switch.
Context `{VS : VerifierServices} {RS : RuntimeServices} (ctx : MethodContext) (Hok : hier_ok hier) (Hso : services_ok ctx).
#[local] Abbreviation insns := (insns_ (code_item_ ctx)).
#[local] Abbreviation cache_ok := (cache_ok hier).
Context (cls : Z -> option Class) (Hheap : heap_ok hier cls) {handler_at : Z -> Z -> Prop}.
Context {PS : PlainServices insns handler_at} (Hunits : units_ok insns) (inst : Z).
#[local] Abbreviation op := (opcode insns inst).

(** The group of an opcode does the work; the others do nothing. *)
Ltac others E :=
  cbn [switch_other switch_move switch_const switch_array switch_field switch_quick_field switch_unary switch_binary] in E |- *;
  unfold sbind, sret in E;
  try match type of E with context [match ?m ?w with _ => _ end] => destruct (m w) as [[[] ?]|]; [|discriminate E] end; by injection E as ->.
Lemma other_move o v a v' : is_move o = true -> switch_other ctx inst o v = Some (a, v') -> switch_move ctx inst o v = Some (tt, v').
Proof. intros Ho E. destruct a, o; try discriminate Ho; others E. Qed.
Lemma other_const o v a v' : is_const o = true -> switch_other ctx inst o v = Some (a, v') -> switch_const ctx inst o v = Some (tt, v').
Proof. intros Ho E. destruct a, o; try discriminate Ho; others E. Qed.
Lemma other_unary o v a v' : is_unary o = true -> switch_other ctx inst o v = Some (a, v') -> switch_unary ctx inst o v = Some (tt, v').
Proof. intros Ho E. destruct a, o; try discriminate Ho; others E. Qed.
Lemma other_binary o v a v' : is_binary o = true -> switch_other ctx inst o v = Some (a, v') -> switch_binary ctx inst o v = Some (tt, v').
Proof. intros Ho E. destruct a, o; try discriminate Ho; exact E. Qed.

Lemma switch_plain v r v' :
  plain op = true -> is_test op = false -> switch_instruction ctx inst v = Some (r, v') ->
  r = mkResult false (FlagsOf op) None None /\ switch_other ctx inst op v = Some (tt, v').
Proof.
  intros Hp Ht E. unfold switch_instruction in E. destruct op; try discriminate Hp; try discriminate Ht.
  all: unfold sbind at 1 in E; destruct (switch_other _ _ _ v) as [[[] v1]|]; [|discriminate E]; by injection E as <- <-.
Qed.
Lemma switch_test v r v' :
  is_test op = true -> (forall i, marked (base v) i = true -> plain (opcode insns i) = true) ->
  switch_instruction ctx inst v = Some (r, v') -> quiet v v' -> r = mkResult false (FlagsOf op) None None /\ v' = v.
Proof.
  intros Ht Hpl E Hq. unfold switch_instruction in E. destruct op eqn:Eop; try discriminate Ht.
  all: qsplit E Hq; injection E as <- <-; apply if_eqz_quiet in E0 as [-> ->]; done.
Qed.

(** The instruction is not the start of a table. *)
Lemma payload_nop : is_payload (code_item_ ctx) inst = true -> op = NOP /\ VRegA_10x (Fetch16 insns inst 0) <> 0.
Proof.
  unfold is_payload, opcode, VRegA_10x, Fetch16. rewrite Z.add_0_r. rewrite !orb_true_iff, !Z.eqb_eq.
  intros [[->| ->]| ->]; (split; [reflexivity|by vm_compute]).
Qed.
Lemma not_payload v v' r :
  switch_instruction ctx inst v = Some (r, v') -> quiet v v' -> is_payload (code_item_ ctx) inst = false.
Proof.
  intros E Hq. apply not_true_is_false. intros [Eop Ha]%payload_nop. unfold switch_instruction in E. rewrite Eop in E.
  qsplit E Hq. cbn [switch_other] in E0. rewrite (proj2 (Z.eqb_neq _ _) Ha) in E0. by apply Fail_loud in E0.
Qed.

Lemma plain_step v r v' :
  cache_ok (reg_types_ v) -> Forall (valid (reg_types_ v)) (line_ (work_line_ v)) -> fits (reg_types_ v') ->
  (forall i, marked (base v) i = true -> plain (opcode insns i) = true) -> plain op = true ->
  switch_instruction ctx inst v = Some (r, v') -> quiet v v' ->
  r = mkResult false (FlagsOf op) None None /\ flowed ctx cls inst v v'.
Proof.
  intros Hc Hl Hf' Hpl Hp E Hq.
  assert (fits (reg_types_ v)) as Hf.
  { assert (extends (reg_types_ v) (reg_types_ v')) as (x & kl & El & _) by (eapply adv_types, (mono _ _ _ E)).
    unfold fits in *. rewrite El, length_app in Hf'. lia. }
  destruct (is_test op) eqn:Et.
  { apply switch_test in E as [-> ->]; [|done..]. split; [done|]. apply (same_step ctx cls (handler_at := handler_at)); try done.
    unfold keeps_frame. by destruct op. }
  apply switch_plain in E as [-> E]; [|done..]. split; [done|]. rewrite plain_cases, Et, orb_false_r in Hp.
  apply orb_prop in Hp as [Hp|Hp].
  2: { apply return_step in E as [A1 A2 A3 A4]; [|done..]. apply (flowed_keep ctx cls inst v Hl); try done; [by rewrite A4|].
       eapply (keeps_exec ctx (handler_at := handler_at)). unfold keeps_frame. by destruct op. }
  apply orb_prop in Hp as [Hp|Hp].
  2: { apply jump_step in E as ->; [|done..]. apply (same_step ctx cls (handler_at := handler_at)); try done. unfold keeps_frame. by rewrite Hp. }
  apply orb_prop in Hp as [Hp|Hp]; [|by eapply cmp_step].
  apply orb_prop in Hp as [Hp|Hp].
  2: { apply other_binary in E; [|done]. apply orb_prop in Hp as [Hp|Hp]; [|by eapply literal_step].
       apply orb_prop in Hp as [Hp|Hp]; [|by eapply binary2_top_step].
       apply orb_prop in Hp as [Hp|Hp]; [by eapply bit_int_step|by eapply binary_top_step]. }
  apply orb_prop in Hp as [Hp|Hp].
  2: { apply other_unary in E; [|done]. apply orb_prop in Hp as [Hp|Hp]; [by eapply unary_top_step|by eapply narrowing_step]. }
  apply orb_prop in Hp as [Hp|Hp].
  - apply other_move in E; [|done]. by eapply move_step.
  - apply other_const in E; [|done]. by eapply const_step.
Qed.
End Switch.
