(* ===== verification/CodeFlowEdges.v ===== *)
(** * Edges of the code-flow pass

    What the pass does on an edge of the control-flow graph: [UpdateRegisters] stores or merges the
    line that reaches an instruction into the table.  The stored line describes every frame the
    incoming line describes, and every frame the stored line described before. *)

From Stdlib Require Import Ascii.
From stdpp Require Import strings.
From S2P Require Import Prelude DexOpcodes DexInstruction ShadowFrame InterpreterBase VerifierStatic VerifierProps VerifierTargets ClassHierarchy.
From S2P Require Import RegTypes RegTypeProofs RegisterLine RegisterLineProofs.
From S2P Require Import CodeFlowState CodeFlowChecks CodeFlow CodeFlowMono FrameTypes CodeFlowStep CodeFlowPlain.
Import InstructionFlags.

(** The types the table holds for an instruction. *)
Definition tline (v : vstate) (i : Z) : option (list nat) :=
  match reg_table_ v !! Z.to_nat i with Some (Some l) => Some (line_ l) | _ => None end.
#[local] Abbreviation visited v i := (flag (base v) kVisited i).
#[local] Abbreviation changed v i := (flag (base v) kChanged i).
Definition reached (v : vstate) (i : Z) : bool := visited v i || changed v i.

(** The types of [n] registers. *)
Definition types_ok (c : RegTypeCache) (n : nat) (l : list nat) : Prop := Forall (valid c) l /\ length l = n.
Lemma types_ok_extends c c' n l : extends c c' -> types_ok c n l -> types_ok c' n l.
Proof. intros He [Hv Hl]. split; [by eapply valid_list_extends|done]. Qed.
Lemma fits_before c c' : extends c c' -> fits c' -> fits c.
Proof. intros (l & kl & E & _) Hf. unfold fits in *. rewrite E, length_app in Hf. lia. Qed.

(** Apart from the flags, the failures and what they imply stay. *)
Definition same_verdict (b b' : Verifier) : Prop := b' = set_flags b (insn_flags_ b').
#[global] Instance same_verdict_preorder : PreOrder same_verdict.
Proof. split; [by intros []|]. unfold same_verdict. intros a b c E1 E2. by rewrite E2, E1. Qed.

(** ** Lines of returns *)
Section Adjust.
Context `{VS : VerifierServices} (ctx : MethodContext).
#[local] Abbreviation insns := (insns_ (code_item_ ctx)).

Definition kept_by_return (i : Z) (k : nat) : bool :=
  let vA := VRegA_11x (Fetch16 insns i 0) in
  match opcode insns i with
  | RETURN | RETURN_OBJECT => Z.of_nat k =? vA
  | RETURN_WIDE => (Z.of_nat k =? vA) || (Z.of_nat k =? vA + 1)
  | _ => false
  end.
(** What is left of a line before the return at [i]. *)
Definition adjust (i : Z) (l : list nat) : list nat :=
  imap (fun k t => if kept_by_return i k then t else Conflict) l.

Lemma adjust_idem i l : adjust i (adjust i l) = adjust i l.
Proof.
  apply list_eq. intros k. unfold adjust. rewrite !list_lookup_imap. destruct (l !! k); [|done]. cbn. by destruct (kept_by_return i k).
Qed.
Lemma adjust_length i l : length (adjust i l) = length l.
Proof. apply length_imap. Qed.
Lemma adjust_lookup i l k t : adjust i l !! k = Some t -> l !! k = Some t \/ t = Conflict.
Proof.
  unfold adjust. rewrite list_lookup_imap. destruct (l !! k) as [u|]; [|done]. cbn. intros [= <-].
  destruct (kept_by_return i k); auto.
Qed.
Lemma adjust_valid c n i l : cache_ok hier c -> types_ok c n l -> types_ok c n (adjust i l).
Proof.
  intros Hc [Hv Hl]. split; [|by rewrite adjust_length]. apply Forall_lookup. intros k t Hk.
  destruct (adjust_lookup _ _ _ _ Hk) as [E| ->]; [by eapply Forall_lookup_1|]. by eapply (prefix_get hier).
Qed.
Lemma adjust_typed cls c i l f : cache_ok hier c -> frame_typed hier cls c l f -> frame_typed hier cls c (adjust i l) f.
Proof. intros Hc. eapply ft_conflicts; [done|apply adjust_length|]. intros k t. apply adjust_lookup. Qed.

Lemma constructor_return_quiet s a s' : CheckConstructorReturn s = Some (a, s') -> errors s' = errors s -> s' = s.
Proof.
  unfold CheckConstructorReturn, sbind, sget. destruct (this_initialized_ (line s)); cbn; [by intros [= <- <-]|].
  intros [= <- <-] Hq. by apply no_error in Hq.
Qed.
Lemma safely_quiet s a s' :
  SafelyMarkAllRegistersAsConflicts ctx s = Some (a, s') -> errors s' = errors s ->
  types s' = types s /\ line_ (line s') = map (fun _ => Conflict) (line_ (line s)).
Proof.
  unfold SafelyMarkAllRegistersAsConflicts. intros E Hq. lsplit E Hq. injection E as <- <-. cbn.
  destruct (IsInstanceConstructor ctx); [|by injection E0 as <- <-]. unfold sbind in E0.
  destruct (CheckConstructorReturn s) as [[b s1]|] eqn:Ec; [|done]. injection E0 as <- <-.
  by apply constructor_return_quiet in Ec as ->.
Qed.
Lemma adjust_quiet i s a s' :
  AdjustReturnLine ctx i s = Some (a, s') -> errors s' = errors s ->
  types s' = types s /\ line_ (line s') = adjust i (line_ (line s)).
Proof.
  unfold AdjustReturnLine, adjust, kept_by_return. intros E Hq.
  destruct (opcode insns i) eqn:Eop; try discriminate E.
  all: try (injection E as <- <-; cbn; split; [done|]; apply imap_ext; intros k t _; cbn; repeat destruct (_ =? _); done).
  all: apply safely_quiet in E as [-> ->]; [|done]; split; [done|]; symmetry; apply (imap_const (fun _ => Conflict)).
Qed.
End Adjust.

(** ** Flags and table *)
Lemma UpdateFlags_inv i g v u v' :
  UpdateFlags i g v = Some (u, v') ->
  0 <= i < Z.of_nat (length (insn_flags_ (base v)))
  /\ v' = set_base v (set_flags (base v) (wr (insn_flags_ (base v)) i (g (rd (insn_flags_ (base v)) i)))).
Proof.
  unfold UpdateFlags, on_base. destruct (UpdateInstructionFlags i g (base v)) as [[x b]|] eqn:E; [|done].
  intros [= <- <-]. apply update_some in E as [Hi ->]. by split.
Qed.
Lemma GetLine_inv i v l v' : GetLine i v = Some (l, v') -> v' = v /\ reg_table_ v !! Z.to_nat i = Some l.
Proof. unfold GetLine. case_match; [|done]. by intros [= <- <-]. Qed.
Lemma tline_put v i l j :
  0 <= i -> 0 <= j -> is_Some (reg_table_ v !! Z.to_nat i) ->
  tline (set_table v (<[Z.to_nat i := Some l]> (reg_table_ v))) j = if j =? i then Some (line_ l) else tline v j.
Proof.
  intros Hi Hj [x Hx]. unfold tline. cbn. apply lookup_lt_Some in Hx. destruct (Z.eqb_spec j i) as [->|Hne].
  - by rewrite list_lookup_insert_eq.
  - by rewrite list_lookup_insert_ne by lia.
Qed.

Lemma merge_types_refl H c l : merge_types H c l l false = Some (l, false, c).
Proof. induction l as [|i l IH]; [done|]. cbn [merge_types]. by rewrite Nat.eqb_refl, IH. Qed.

Section Edges.
Context `{VS : VerifierServices} (ctx : MethodContext) (Hok : hier_ok hier).
Context (cls : Z -> option Class) (Hheap : heap_ok hier cls) (n : nat).
#[local] Abbreviation insns := (insns_ (code_item_ ctx)).
#[local] Abbreviation cache_ok := (cache_ok hier).
#[local] Abbreviation frame_typed := (frame_typed hier cls).

(** Frames described by [l] are described by [l']. *)
Definition within_types (c : RegTypeCache) (l : list nat) (c' : RegTypeCache) (l' : list nat) : Prop :=
  forall f, frame_typed c l f -> frame_typed c' l' f.

(** The cache and the lines of the table. *)
Record table_ok (v : vstate) : Prop := {
  to_cache : cache_ok (reg_types_ v);
  to_lines : forall i t, tline v i = Some t -> types_ok (reg_types_ v) n t;
  to_hard : have_pending_hard_failure_ (base v) = false
}.

(** Line [lin] reached [next], whose line in the table was [t] and is [t']; [lin'] is the line the
    caller goes on with. *)
Record joined (next : Z) (lin : list nat) (upd : bool) (lin' : list nat) (v v' : vstate) (t t' : list nat) : Prop := {
  jo_ok : table_ok v';
  jo_types : extends (reg_types_ v) (reg_types_ v');
  jo_verdict : same_verdict (base v) (base v');
  jo_idx : work_insn_idx_ v' = work_insn_idx_ v;
  jo_work : work_line_ v' = work_line_ v;
  jo_saved : saved_line_ v' = saved_line_ v;
  jo_old : tline v next = Some t;
  jo_new : forall j, 0 <= j -> tline v' j = if j =? next then Some t' else tline v j;
  jo_flags : forall b j, 0 <= b < 8 -> 0 <= j -> j <> next \/ b <> kChanged -> flag (base v') b j = flag (base v) b j;
  jo_covers : within_types (reg_types_ v) lin (reg_types_ v') t';
  jo_case :
    (reached v next = false /\ changed v' next = true
     /\ t' = (if flag (base v) kReturn next then adjust ctx next lin else lin) /\ lin' = lin)
    \/ (reached v next = true /\ within_types (reg_types_ v) t (reg_types_ v') t' /\ (lin = t -> t' = t)
        /\ ((changed v' next = true /\ lin' = (if upd then t' else lin)) \/ (changed v' next = changed v next /\ t' = t /\ lin' = lin)))
}.

Lemma PutLine_inv i l v u v' : PutLine i l v = Some (u, v') -> v' = set_table v (<[Z.to_nat i := Some l]> (reg_table_ v)).
Proof. by intros [= <- <-]. Qed.
Lemma within_refl c l : within_types c l c l.
Proof. by intros f. Qed.
Lemma within_extends c c' l : extends c c' -> Forall (valid c) l -> within_types c l c' l.
Proof. intros He Hl f. by apply ft_extends. Qed.

(** A line is stored, and its instruction is marked as changed or not. *)
Lemma store_state v c l next (b : bool) v' :
  table_ok v -> cache_ok c -> extends (reg_types_ v) c -> 0 <= next < Z.of_nat (length (insn_flags_ (base v))) ->
  is_Some (tline v next) -> types_ok c n (line_ l) ->
  v' = (let w := set_table (set_types v c) (<[Z.to_nat next := Some l]> (reg_table_ v)) in
        if b then set_base w (set_flags (base v) (wr (insn_flags_ (base v)) next (SetChanged (rd (insn_flags_ (base v)) next)))) else w) ->
  table_ok v' /\ same_verdict (base v) (base v')
  /\ (forall j, 0 <= j -> tline v' j = if j =? next then Some (line_ l) else tline v j)
  /\ (forall c j, 0 <= c < 8 -> 0 <= j -> flag (base v') c j = (b && (j =? next) && (c =? kChanged)) || flag (base v) c j).
Proof.
  intros Ht Hc He Hi Hn Hl ->. assert (is_Some (reg_table_ v !! Z.to_nat next)) as Hs.
  { destruct Hn as [t Ht']. unfold tline in Ht'. by destruct (reg_table_ v !! Z.to_nat next). }
  set (w := set_table _ _). assert (forall j, 0 <= j -> tline w j = if j =? next then Some (line_ l) else tline v j) as Htl.
  { intros j Hj. rewrite <- (tline_put v next l j) by (done || lia). done. }
  assert (forall i t, tline w i = Some t -> types_ok c n t) as Hlines.
  { intros i t. destruct (Z.leb_spec 0 i) as [Hi0|Hi0].
    - rewrite Htl by done. destruct (i =? next); [by intros [= <-]|]. intros E. eapply types_ok_extends; [done|by eapply (to_lines v)].
    - unfold tline. rewrite Z2Nat.nonpos by lia. change 0%nat with (Z.to_nat 0). intros E. assert (tline w 0 = Some t) as E0 by exact E.
      rewrite Htl in E0 by done. destruct (0 =? next); [by injection E0 as <-|]. eapply types_ok_extends; [done|by eapply (to_lines v)]. }
  destruct b; cbn [andb].
  - split; [split; [done|exact Hlines|apply Ht]|]. split; [reflexivity|]. split; [exact Htl|].
    intros b j Hb Hj. cbn. unfold SetChanged. by rewrite flag_update.
  - split; [split; [done|exact Hlines|apply Ht]|]. split; [cbn; by destruct (base v)|]. split; [exact Htl|done].
Qed.

Lemma MergeRegisters_quiet l inc c b s :
  MergeRegisters hier inc (mkLS c l []) = Some (b, s) -> errors s = [] ->
  exists regs ch, merge_types hier c (line_ l) (line_ inc) false = Some (regs, ch, types s) /\ line_ (line s) = regs
  /\ (b = false -> ch = false).
Proof.
  unfold MergeRegisters, sbind, sget, lift. cbn [types line]. destruct (merge_types _ _ _ _ _) as [[[regs ch] c']|]; [|done].
  destruct (merge_locks _ _) as [m errs]. intros [= <- <-] _. exists regs, ch. cbn. split_and!; try done.
  by intros [-> _]%orb_false_iff.
Qed.

(** The first line that reaches an instruction. *)
Lemma first_quiet next l upd v target a v' :
  table_ok v -> 0 <= next -> types_ok (reg_types_ v) n (line_ l) ->
  reg_table_ v !! Z.to_nat next = Some (Some target) -> reached v next = false ->
  sbind (if IsReturnFlag (rd (insn_flags_ (base v)) next)
         then sbind (run_line ctx l VerifyMonitorStackEmpty) (fun _ =>
                sbind (run_line ctx (CopyFromLine target l) (AdjustReturnLine ctx next)) (fun r => PutLine next (snd r)))
         else PutLine next (CopyFromLine target l))
    (fun _ => sbind (UpdateFlags next SetChanged) (fun _ => sret (true, l))) v = Some (a, v') -> quiet v v' ->
  a = (true, l) /\ joined next (line_ l) upd (line_ l) v v' (line_ target)
    (if flag (base v) kReturn next then adjust ctx next (line_ l) else line_ l).
Proof.
  intros Ht Hn Hl Etab Hr E Hq. qsplit E Hq. rename E0 into Es.
  assert (exists l1, v0 = set_table v (<[Z.to_nat next := Some l1]> (reg_table_ v))
    /\ line_ l1 = if flag (base v) kReturn next then adjust ctx next (line_ l) else line_ l) as (l1 & -> & El1).
  { change (flag (base v) kReturn next) with (IsReturnFlag (rd (insn_flags_ (base v)) next)). destruct (IsReturnFlag _); [|injection Es as <- <-; eauto].
    match goal with Hx : quiet v v0 |- _ => qsplit Es Hx; apply run_line_quiet in E0 as (s1 & Em & Ee & _ & ->); [|done] end.
    unfold VerifyMonitorStackEmpty, sbind, sget in Em. cbn [line] in Em. destruct (negb _); injection Em as _ <-; [done|].
    cbn in Es. rewrite set_types_same in Es. match goal with Hx : quiet _ v0 |- _ => qsplit Es Hx; apply run_line_quiet in E0 as (s2 & Em & Ee2 & E2 & ->); [|done] end.
    apply adjust_quiet in Em as [Et Ea]; [|done]. cbn in Et, Ea. rewrite Et, set_types_same in Es. injection Es as <- <-.
    eexists. split; [done|]. by rewrite E2. }
  qsplit E Hq. injection E as <- <-. apply UpdateFlags_inv in E0 as [Hi ->]. split; [done|].
  cbn [base set_table] in *. assert (types_ok (reg_types_ v) n (line_ l1)) as Hl1.
  { rewrite El1. destruct (flag _ _ _); [|done]. by apply adjust_valid; [apply Ht|]. }
  assert (tline v next = Some (line_ target)) as Eold by (unfold tline; by rewrite Etab).
  destruct (store_state v (reg_types_ v) l1 next true _ Ht (to_cache _ Ht) (extends_refl _) Hi (mk_is_Some _ _ Eold) Hl1 eq_refl)
    as (S1 & S2 & S3 & S4).
  rewrite set_types_same in *. rewrite El1 in S3. split; try done.
  - apply extends_refl.
  - intros b j Hb Hj Hne. rewrite S4 by done. destruct (Z.eqb_spec j next) as [->|]; [|done].
    destruct Hne as [|Hne]; [done|]. by rewrite (proj2 (Z.eqb_neq b kChanged)).
  - intros f Hf. destruct (flag _ _ _); [|done]. apply adjust_typed; [apply Ht|done].
  - left. split_and!; try done. rewrite S4 by done. by rewrite Z.eqb_refl.
Qed.

(** A later line. *)
Lemma again_quiet next l upd v target a v' :
  table_ok v -> 0 <= next < Z.of_nat (length (insn_flags_ (base v))) -> types_ok (reg_types_ v) n (line_ l) -> fits (reg_types_ v') ->
  reg_table_ v !! Z.to_nat next = Some (Some target) -> reached v next = true ->
  sbind (run_line ctx target (MergeRegisters hier l)) (fun r => let '(changed, target_line) := r in
    sbind (PutLine next target_line) (fun _ => sbind pending_hard (fun hard =>
      if hard then sret (false, l)
      else sbind (if changed : bool then UpdateFlags next SetChanged else sret tt) (fun _ =>
        sret (true, if upd && changed then CopyFromLine l target_line else l))))) v = Some (a, v') -> quiet v v' ->
  fst a = true /\ exists t', joined next (line_ l) upd (line_ (snd a)) v v' (line_ target) t'.
Proof.
  intros Ht Hn Hl Hf Etab Hr E Hq. assert (tline v next = Some (line_ target)) as Eold by (unfold tline; by rewrite Etab).
  qsplit E Hq. destruct a0 as [ch l1]. apply run_line_quiet in E0 as (s & Em & Ee & El & ->); [|done].
  cbn in Em, El. subst l1. qsplit E Hq. apply PutLine_inv in E0 as ->. cbn in E. unfold sbind at 1, pending_hard, sget in E.
  cbn in E. rewrite (to_hard _ Ht) in E. qsplit E Hq. injection E as <- ->.
  destruct (MergeRegisters_quiet _ _ _ _ _ Em Ee) as (regs & ch' & Emt & Eregs & Hch).
  assert (reg_types_ v' = types s) as Et. { destruct ch; [apply UpdateFlags_inv in E0 as [_ ->]|injection E0 as _ <-]; done. }
  rewrite Et in Hf. pose proof (ext_merge_types _ _ _ _ _ _ Emt) as He. cbn in He.
  destruct (to_lines _ Ht _ _ Eold) as [Hv Hlen]. destruct Hl as [Hvl Hlenl].
  destruct (merge_types_covers hier Hok cls Hheap _ _ _ _ _ _ _ (to_cache _ Ht) Hf Hv Hvl Emt) as (Hc' & Hv' & Hlen' & Hcov & Hsame).
  assert (types_ok (types s) n (line_ (line s))) as Hts by (rewrite Eregs; split; [done|congruence]).
  assert (v' = (let w := set_table (set_types v (types s)) (<[Z.to_nat next := Some (line s)]> (reg_table_ v)) in
    if ch then set_base w (set_flags (base v) (wr (insn_flags_ (base v)) next (SetChanged (rd (insn_flags_ (base v)) next)))) else w)) as Ev'.
  { destruct ch; [apply UpdateFlags_inv in E0 as [_ ->]; done|by injection E0 as _ <-]. }
  destruct (store_state v (types s) (line s) next ch v' Ht Hc' He Hn (mk_is_Some _ _ Eold) Hts Ev') as (S1 & S2 & S3 & S4).
  split; [done|]. exists (line_ (line s)). rewrite Eregs in *. split; try done.
  - by rewrite Et.
  - by destruct ch; subst v'.
  - by destruct ch; subst v'.
  - by destruct ch; subst v'.
  - intros b j Hb Hj Hne. rewrite S4 by done. destruct (Z.eqb_spec j next) as [->|]; [|by rewrite andb_false_r].
    destruct Hne as [|Hne]; [done|]. by rewrite (proj2 (Z.eqb_neq b kChanged)), andb_false_r.
  - rewrite Et. intros f. apply ft_weaken; [congruence|]. intros i t' w r Hi. destruct (Hcov i t' Hi) as (x & y & Hx & Hy & _ & C). eauto.
  - right. split; [done|]. split; [|split].
    + rewrite Et. intros f. apply ft_weaken; [congruence|]. intros i t' w r Hi. destruct (Hcov i t' Hi) as (x & y & Hx & Hy & C & _). eauto.
    + intros Hll. rewrite Hll, merge_types_refl in Emt. by injection Emt as <- _ _.
    + destruct ch; [left|right].
      * rewrite S4 by (unfold kChanged; lia). rewrite Z.eqb_refl. split; [done|]. destruct upd; [|done]. exact Eregs.
      * rewrite S4 by (unfold kChanged; lia). split; [done|]. rewrite andb_false_r. split; [|done]. apply Hsame. by apply Hch.
Qed.

Lemma UpdateRegisters_quiet next l upd v a v' :
  table_ok v -> types_ok (reg_types_ v) n (line_ l) -> fits (reg_types_ v') ->
  UpdateRegisters ctx next l upd v = Some (a, v') -> quiet v v' ->
  fst a = true /\ exists t t', joined next (line_ l) upd (line_ (snd a)) v v' t t'.
Proof.
  intros Ht Hl Hf E Hq. unfold UpdateRegisters in E. qsplit E Hq. apply GetLine_inv in E0 as [-> Etab].
  qsplit E Hq. unfold or_abort in E0. destruct a0 as [target|]; [|done]. injection E0 as <- <-.
  qsplit E Hq. apply GetFlags_same in E0 as (-> & Hi & ->).
  change (IsVisitedOrChanged (rd (insn_flags_ (base v)) next)) with (reached v next) in E.
  destruct (reached v next) eqn:Er; cbn [negb] in E.
  - destruct (again_quiet next l upd v target a v') as [Ha (t' & J)]; try done. split; [done|]. by exists (line_ target), t'.
  - destruct (first_quiet next l upd v target a v') as [-> J]; try done; [lia|]. split; [done|]. by do 2 eexists.
Qed.
End Edges.

Arguments jo_ok {_ _ _ _ _ _ _ _ _ _ _ _} _.
Arguments jo_types {_ _ _ _ _ _ _ _ _ _ _ _} _.
Arguments jo_verdict {_ _ _ _ _ _ _ _ _ _ _ _} _.
Arguments jo_idx {_ _ _ _ _ _ _ _ _ _ _ _} _.
Arguments jo_work {_ _ _ _ _ _ _ _ _ _ _ _} _.
Arguments jo_saved {_ _ _ _ _ _ _ _ _ _ _ _} _.
Arguments jo_old {_ _ _ _ _ _ _ _ _ _ _ _} _.
Arguments jo_new {_ _ _ _ _ _ _ _ _ _ _ _} _ _ _.
Arguments jo_flags {_ _ _ _ _ _ _ _ _ _ _ _} _ _ _ _ _ _.
Arguments jo_covers {_ _ _ _ _ _ _ _ _ _ _ _} _ _ _.
Arguments jo_case {_ _ _ _ _ _ _ _ _ _ _ _} _.

Section Joined.
Context `{VS : VerifierServices} {ctx : MethodContext} {cls : Z -> option Class} {n : nat}.
Context {next : Z} {lin : list nat} {upd : bool} {lin' : list nat} {v v' : vstate} {t t' : list nat}.
Context (J : joined ctx cls n next lin upd lin' v v' t t').

Lemma joined_other pc : 0 <= pc -> pc <> next -> changed v' pc = changed v pc /\ reached v' pc = reached v pc.
Proof. intros Hpc Hne. unfold reached. rewrite !(jo_flags J) by (done || by left). done. Qed.
(** The target is waiting to be verified, or nothing changed. *)
Lemma joined_next :
  0 <= next -> reached v' next = true
  /\ (changed v' next = true \/ (changed v' next = changed v next /\ reached v next = true /\ t' = t)).
Proof.
  intros Hn. assert (changed v' next = true \/ (changed v' next = changed v next /\ reached v next = true /\ t' = t)) as Hcase.
  { destruct (jo_case J) as [(_ & ? & _)|(? & _ & _ & [[? _]|(? & ? & _)])]; auto. }
  split; [|done]. unfold reached in *. rewrite (jo_flags J kVisited) by (done || by right).
  destruct Hcase as [->|(-> & ? & _)]; [apply orb_true_r|done].
Qed.
End Joined.
