(* ===== verification/CodeFlowInvariant.v ===== *)
(** * The invariant of the work list

    A map from positions to lines describes the frames that reach a position.  It is kept by the
    work list of the code-flow pass: for a position that is not waiting to be verified, every
    frame its line describes steps, in the interpreter, to a frame the line of the next position
    describes. *)

From Stdlib Require Import Ascii.
From stdpp Require Import strings.
From S2P Require Import Prelude DexOpcodes DexInstruction ShadowFrame InterpreterBase Interpreter VerifierStatic VerifierProps VerifierTargets InterpreterSafety ClassHierarchy.
From S2P Require Import RegTypes RegTypeProofs RegisterLine RegisterLineProofs.
From S2P Require Import CodeFlowState CodeFlowChecks CodeFlow CodeFlowMono FrameTypes PlainExec CodeFlowStep CodeFlowPlain CodeFlowInstruction CodeFlowEdges.
Import InstructionFlags.

#[local] Abbreviation changed v i := (flag (base v) kChanged i).
#[local] Abbreviation context_handlers := CodeFlowState.handlers_of.

(** The opcodes whose targets the static checks flag. *)
Lemma branch_extra c : has_flag (FlagsOf c) kBranch = true -> GetVerifyExtraFlags c = kVerifyBranchTarget.
Proof. destruct c; vm_compute; congruence. Qed.
Lemma switch_extra c : has_flag (FlagsOf c) kSwitch = true -> GetVerifyExtraFlags c = kVerifySwitchTargets.
Proof. destruct c; vm_compute; congruence. Qed.

(** ** Runs that report nothing and fit the cache *)
Definition good_run (v v' : vstate) : Prop := quiet v v' /\ fits (reg_types_ v').
Lemma good_bind {A B} (m : CM A) (k : A -> CM B) `{!Mono m} `{Hk : !forall a, Mono (k a)} v b v' :
  sbind m k v = Some (b, v') -> good_run v v' ->
  exists a v1, m v = Some (a, v1) /\ good_run v v1 /\ k a v1 = Some (b, v') /\ good_run v1 v'.
Proof.
  intros E [Hq Hf]. destruct (quiet_bind m k v b v' E Hq) as (a & v1 & E1 & Hq1 & E2 & Hq2). exists a, v1.
  split_and!; try done. split; [done|]. eapply fits_before; [|done]. by eapply adv_types, (Hk a).
Qed.
Ltac rsplit E Hq :=
  let a := fresh "a" in let s := fresh "v" in let E1 := fresh "E" in let Hq1 := fresh "Hq" in let Hq2 := fresh "Hq" in
  apply good_bind in E as (a & s & E1 & Hq1 & E & Hq2); [clear Hq; rename Hq2 into Hq|solve [mono]..|exact Hq].
Lemma good_after {A} (m : CM A) `{!Mono m} v a v' u : m v = Some (a, v') -> quiet u v -> good_run u v' -> good_run v v'.
Proof. intros E Hq [Hq' Hf]. split; [|done]. unfold quiet in *. congruence. Qed.

(** The handlers at an instruction are those of a try block around it. *)
Record handlers_ok (ctx : MethodContext) : Prop := {
  ho_try : forall pc ty a, (ty, a) ∈ context_handlers ctx pc ->
    exists t, t ∈ tries_ (code_item_ ctx) /\ start_addr_ t <= pc < u32 (start_addr_ t + insn_count_ t);
  ho_address : forall pc ty a, (ty, a) ∈ context_handlers ctx pc -> a ∈ handler_addresses (code_item_ ctx)
}.

Section Invariant.
Context `{VS : VerifierServices} {RS : RuntimeServices} (ctx : MethodContext) (Hok : hier_ok hier) (Hso : services_ok ctx).
Context (cls : Z -> option Class) (Hheap : heap_ok hier cls) (Hho : handlers_ok ctx).
#[local] Abbreviation ci := (code_item_ ctx).
#[local] Abbreviation insns := (insns_ (code_item_ ctx)).
#[local] Abbreviation cache_ok := (cache_ok hier).
#[local] Abbreviation frame_typed := (frame_typed hier cls).
#[local] Abbreviation within_types := (within_types cls).
Context (Hci : code_item_ok ci).
Context {PS : PlainServices insns (fun pc h => exists ty, (ty, h) ∈ context_handlers ctx pc)}.
(** What the static checks left. *)
Context (b0 : Verifier) (Hsv : statically_verified ci b0) (Hfr : flow_ready ci b0).
Context (Hplain : forall i, marked b0 i = true -> plain (opcode insns i) = true).
#[local] Abbreviation n := (Z.to_nat (registers_size_ (code_item_ ctx))).
#[local] Abbreviation target i := (flag b0 kBranchTarget i).

Lemma marked_range i : marked b0 i = true -> 0 <= i < insns_size_in_code_units_ ci.
Proof. apply (pc_range ci Hci b0 Hsv). Qed.
Lemma handler_facts pc ty h : (ty, h) ∈ context_handlers ctx pc -> marked b0 h = true /\ target h = true.
Proof.
  intros Hh. destruct (ho_try _ Hho _ _ _ Hh) as (t & Ht & _). assert (tries_ ci <> []) as Hne.
  { intros E. rewrite E in Ht. by apply elem_of_nil in Ht. }
  apply (ho_address _ Hho) in Hh. pose proof (sv_handlers _ _ Hsv Hne) as H1. pose proof (fr_handlers _ _ Hfr Hne) as H2.
  rewrite Forall_forall in H1, H2. split; [by apply H1|by apply H2].
Qed.

(** ** Steps of the interpreter *)
Lemma dexpc_typed c l f p : frame_typed c l (SetDexPC f p) <-> frame_typed c l f.
Proof. split; intros [[A1 A2 A3] B C]; by split. Qed.

Lemma iterate_cases st pc st' pc' :
  marked b0 pc = true -> is_payload ci pc = false -> exception st = 0 -> iterate insns st pc = Continue st' pc' ->
  exception st' = 0
  /\ ((successor ci pc pc' /\ exec insns pc (set_frame st (SetDexPC (frame st) pc)) = Continue st' pc')
      \/ (has_flag (FlagsOf (opcode insns pc)) kThrow = true /\ (exists ty, (ty, pc') ∈ context_handlers ctx pc)
          /\ frame st' = SetDexPC (frame st) pc)).
Proof.
  intros Hm Hp Hx. unfold iterate. destruct (exec insns pc _) as [st1 pc1|st1 r|st1| |] eqn:E; try done.
  - intros [= <- <-]. apply (plain_continue ci Hci) in E as [Hx' Hs]; auto.
  - apply (plain_pending ci pc) in E as [Ht Hf]; [|by apply Hplain|done].
    destruct (FindHandler _ pc) as [[h|] st2] eqn:Eh; [|done]. intros [= <- <-].
    destruct (ps_handler _ _ _ _ Eh) as ([ty Hh] & Hf2 & Hx2). destruct (handler_facts _ _ _ Hh) as [Hmh _].
    pose proof (marked_range _ Hm). pose proof (marked_range _ Hmh). pose proof (ci_size _ Hci).
    assert (RelativeAt pc (s32 (s32 h - s32 pc)) = h) as ->.
    { unfold RelativeAt. rewrite (wraps_small 32 ltac:(lia) h), (wraps_small 32 ltac:(lia) pc), wraps_small by (unfold_width; lia). lia. }
    split; [apply Hx2; intros Eo; pose proof (Hplain h Hmh) as Hpl; by rewrite Eo in Hpl|]. right. split; [done|].
    split; [by exists ty|]. by rewrite Hf2, (proj1 (ps_suspend _)), Hf.
Qed.

(** Where control may go from an instruction. *)
Definition edge (pc pc' : Z) : Prop := successor ci pc pc' \/ exists ty, (ty, pc') ∈ context_handlers ctx pc.

(** ** Lines that describe what follows *)
Definition lines : Type := Z -> option (list nat).
Definition set_at (G : lines) (pc : Z) (l : list nat) : lines := fun i => if i =? pc then Some l else G i.

Definition covered (c : RegTypeCache) (G : lines) (pc : Z) (l : list nat) : Prop :=
  is_payload ci pc = false
  /\ forall st st' pc', frame_typed c l (frame st) -> exception st = 0 -> iterate insns st pc = Continue st' pc' ->
     exception st' = 0 /\ exists l', G pc' = Some l' /\ frame_typed c l' (frame st').

(** Frames that satisfy [lin] satisfy the line of [pc]. *)
Definition lands (c0 : RegTypeCache) (lin : list nat) (c : RegTypeCache) (G : lines) (pc : Z) : Prop :=
  exists l, G pc = Some l /\ within_types c0 lin c l.
Definition grows_to (c : RegTypeCache) (G : lines) (c' : RegTypeCache) (G' : lines) : Prop :=
  forall pc l, G pc = Some l -> lands c l c' G' pc.

Lemma lands_grows c0 lin c G c' G' pc : lands c0 lin c G pc -> grows_to c G c' G' -> lands c0 lin c' G' pc.
Proof.
  intros (l & Hl & Hw) Hg. destruct (Hg _ _ Hl) as (l' & Hl' & Hw'). exists l'. split; [done|]. intros f Hf. by apply Hw', Hw.
Qed.
Lemma grows_trans c1 G1 c2 G2 c3 G3 : grows_to c1 G1 c2 G2 -> grows_to c2 G2 c3 G3 -> grows_to c1 G1 c3 G3.
Proof. intros H1 H2 pc l Hl. eapply lands_grows; [by apply H1|done]. Qed.

Lemma covered_mono c G c' G' pc l :
  marked b0 pc = true -> extends c c' -> Forall (valid c) l ->
  (forall pc' l', edge pc pc' -> G pc' = Some l' -> lands c l' c' G' pc') ->
  covered c G pc l -> covered c' G' pc l.
Proof.
  intros Hm He Hl Hg [Hp Hc]. split; [done|]. intros st st' pc' Hf Hx E.
  apply (ft_extends hier cls c) in Hf; [|done..]. destruct (Hc st st' pc' Hf Hx E) as (Hx' & l' & Hl' & Hf').
  split; [done|]. destruct (Hg pc' l') as (l2 & Hl2 & Hw); [|done|exists l2; split; [done|by apply Hw]].
  destruct (iterate_cases st pc st' pc' Hm Hp Hx E) as [_ [[Hs _]|(_ & Hh & _)]]; [by left|by right].
Qed.

(** ** The invariant *)
Record flow_inv (G : lines) (v : vstate) : Prop := {
  fi_table : table_ok n v;
  fi_throw : have_pending_runtime_throw_failure_ (base v) = false;
  fi_static : static_flags (insn_flags_ (base v)) = static_flags (insn_flags_ b0);
  fi_work : types_ok (reg_types_ v) n (line_ (work_line_ v));
  fi_shape : forall pc, 0 <= pc -> target pc = true -> is_Some (tline v pc);
  fi_lines : forall pc l, G pc = Some l ->
    marked b0 pc = true /\ types_ok (reg_types_ v) n l /\ (changed v pc = true \/ covered (reg_types_ v) G pc l);
  fi_tracked : forall pc t, 0 <= pc -> tline v pc = Some t -> G pc = if reached v pc then Some t else None;
  fi_changed : forall pc, 0 <= pc -> changed v pc = true -> is_Some (G pc)
}.

Lemma flag_static v b i : static_flags (insn_flags_ (base v)) = static_flags (insn_flags_ b0) -> 2 <= b < 7 -> flag (base v) b i = flag b0 b i.
Proof.
  intros E Hb. apply static_bit; [done|]. rewrite !rd_lookup. apply (f_equal (fun l => l !! Z.to_nat i)) in E.
  unfold static_flags in E. rewrite !list_lookup_fmap in E.
  destruct (insn_flags_ (base v) !! Z.to_nat i), (insn_flags_ b0 !! Z.to_nat i); cbn in *; congruence.
Qed.
Lemma marked_static v i : static_flags (insn_flags_ (base v)) = static_flags (insn_flags_ b0) -> marked (base v) i = marked b0 i.
Proof.
  intros E. unfold marked. change (IsOpcode (rd (insn_flags_ (base v)) i)) with (flag (base v) kOpcode i).
  rewrite (flag_static v) by done. apply (f_equal length) in E. unfold static_flags in E. rewrite !length_map in E. by rewrite E.
Qed.

(** Only the cache, the lines outside the table and the failures that are not raised changed. *)
Lemma inv_same G v v' :
  flow_inv G v -> base v' = base v -> reg_table_ v' = reg_table_ v -> cache_ok (reg_types_ v') ->
  extends (reg_types_ v) (reg_types_ v') -> types_ok (reg_types_ v') n (line_ (work_line_ v')) ->
  flow_inv G v' /\ grows_to (reg_types_ v) G (reg_types_ v') G.
Proof.
  intros I Eb Et Hc He Hw. destruct I as [[A1 A2 A3] I2 I3 I4 I5 I6 I7 I8].
  assert (forall i, tline v' i = tline v i) as Etl by (intros i; unfold tline; by rewrite Et).
  assert (forall i, reached v' i = reached v i) as Er by (intros i; unfold reached; by rewrite Eb).
  assert (grows_to (reg_types_ v) G (reg_types_ v') G) as Hg.
  { intros pc l Hl. exists l. split; [done|]. apply within_extends; [done|]. by apply I6 in Hl as (_ & [? _] & _). }
  split; [|done]. split; rewrite ?Eb; try done.
  - split; [done| |by rewrite Eb]. intros i t Hi. rewrite Etl in Hi. eapply types_ok_extends; [done|by eapply A2].
  - intros pc Hpc Ht. rewrite Etl. auto.
  - intros pc l Hl. destruct (I6 pc l Hl) as (B1 & B2 & B3). split_and!; [done|by eapply types_ok_extends|].
    destruct B3 as [|B3]; [by left|right]. eapply covered_mono; [done|exact He|apply B2| |exact B3]. intros pc' l' _. apply Hg.
  - intros pc t Hpc. rewrite Etl, Er. auto.
Qed.

(** An edge to an instruction with a line in the table. *)
Lemma inv_join G next lin upd lin' v v' t t' :
  flow_inv G v -> joined ctx cls n next lin upd lin' v v' t t' -> advances v v' -> marked b0 next = true ->
  let G' := set_at G next t' in
  flow_inv G' v' /\ grows_to (reg_types_ v) G (reg_types_ v') G' /\ lands (reg_types_ v) lin (reg_types_ v') G' next.
Proof.
  intros I J Ha Hm G'. pose proof (marked_range _ Hm) as Hn. destruct I as [I1 I2 I3 I4 I5 I6 I7 I8].
  assert (types_ok (reg_types_ v') n t') as Ht'.
  { apply (to_lines _ _ (jo_ok J) next). rewrite (jo_new J) by lia. by rewrite Z.eqb_refl. }
  pose proof (I7 next t ltac:(lia) (jo_old J)) as Hold.
  assert (G' next = Some t') as Hnext by (unfold G', set_at; by rewrite Z.eqb_refl).
  assert (forall pc, pc <> next -> G' pc = G pc) as Hother.
  { intros pc Hpc. unfold G', set_at. by rewrite (proj2 (Z.eqb_neq pc next)). }
  assert (grows_to (reg_types_ v) G (reg_types_ v') G') as Hg.
  { intros pc l Hl. destruct (decide (pc = next)) as [->|Hne].
    - exists t'. split; [done|]. rewrite Hl in Hold.
      destruct (jo_case J) as [(Er & _)|(Er & Hw & _)]; rewrite Er in Hold; [done|]. by injection Hold as ->.
    - exists l. rewrite Hother by done. split; [done|]. apply within_extends; [apply J|]. by apply I6 in Hl as (_ & [? _] & _). }
  split; [|split; [done|exists t'; split; [done|apply J]]].
  pose proof (joined_other J) as Hflags. pose proof (joined_next J ltac:(lia)) as [Hreached Hcase].
  split.
  - apply J.
  - by rewrite (jo_verdict J).
  - rewrite <- I3. apply Ha.
  - rewrite (jo_work J). eapply types_ok_extends; [apply J|done].
  - intros pc Hpc Ht. rewrite (jo_new J) by done. destruct (pc =? next); [by eexists|auto].
  - intros pc l Hl. destruct (decide (pc = next)) as [->|Hne].
    + rewrite Hnext in Hl. injection Hl as <-. split_and!; [done|done|].
      destruct Hcase as [|(Ech & Er & ->)]; [by left|]. rewrite Ech. rewrite Er in Hold.
      destruct (I6 next t Hold) as (_ & [Hv _] & [|Hcov]); [by left|right].
      eapply covered_mono; [done|apply J|done| |exact Hcov]. intros pc' l' _. apply Hg.
    + rewrite Hother in Hl by done. destruct (I6 pc l Hl) as (B1 & B2 & B3). pose proof (marked_range _ B1).
      split_and!; [done|eapply types_ok_extends; [apply J|done]|]. rewrite (proj1 (Hflags pc ltac:(lia) Hne)).
      destruct B3 as [|B3]; [by left|right]. eapply covered_mono; [done|apply J|apply B2| |exact B3]. intros pc' l' _. apply Hg.
  - intros pc u Hpc. rewrite (jo_new J) by done. destruct (Z.eqb_spec pc next) as [->|Hne].
    + intros [= <-]. by rewrite Hreached.
    + intros Hu. rewrite Hother by done. rewrite (proj2 (Hflags pc Hpc Hne)). auto.
  - intros pc Hpc. destruct (decide (pc = next)) as [->|Hne]; [intros _; by eexists|].
    rewrite Hother by done. rewrite (proj1 (Hflags pc Hpc Hne)). auto.
Qed.

(** Control falls through to an instruction that is no target from one instruction only. *)
Lemma edge_fallthrough pc next :
  marked b0 pc = true -> edge pc next -> target next = false -> exists k, SizeInCodeUnits insns pc = Some k /\ next = pc + k.
Proof.
  intros Hm [[(_ & Hs)|[(Hb & off & cond & self & Eo & ->)|(Hs & i & Hi & ->)]]|[ty Hh]] Ht; [done|exfalso..].
  - assert (GetVerifyExtraFlags (opcode insns pc) = kVerifyBranchTarget) as Ex by (by apply branch_extra).
    destruct (tf_branch _ _ _ (fr_targets _ _ Hfr _ Hm) Ex _ _ _ Eo). congruence.
  - assert (GetVerifyExtraFlags (opcode insns pc) = kVerifySwitchTargets) as Ex by (by apply switch_extra).
    destruct (tf_switch _ _ _ (fr_targets _ _ Hfr _ Hm) Ex i Hi). congruence.
  - destruct (handler_facts _ _ _ Hh). congruence.
Qed.
Lemma fallthrough_unique pc1 pc2 k1 k2 :
  marked b0 pc1 = true -> marked b0 pc2 = true -> SizeInCodeUnits insns pc1 = Some k1 -> SizeInCodeUnits insns pc2 = Some k2 ->
  pc1 + k1 = pc2 + k2 -> pc1 = pc2.
Proof.
  intros [B1 _]%(sv_marks _ _ Hsv) [B2 _]%(sv_marks _ _ Hsv) S1 S2 E. pose proof (size_positive ci Hci _ _ S1). pose proof (size_positive ci Hci _ _ S2).
  destruct (Z.lt_trichotomy pc1 pc2) as [Hlt|[->|Hlt]]; [|done|].
  - pose proof (boundary_gap ci Hci _ _ _ B1 B2 S1 Hlt). lia.
  - pose proof (boundary_gap ci Hci _ _ _ B2 B1 S2 Hlt). lia.
Qed.

(** The work line is the line of the next instruction, which has no line in the table. *)
Lemma inv_replace G v idx k u v' :
  flow_inv G v -> changed v idx = true -> marked b0 idx = true -> SizeInCodeUnits insns idx = Some k ->
  marked b0 (idx + k) = true -> tline v (idx + k) = None -> UpdateFlags (idx + k) SetChanged v = Some (u, v') ->
  flow_inv (set_at G (idx + k) (line_ (work_line_ v))) v'.
Proof.
  intros I Hc Hm Hk Hm' Hnone E. set (next := idx + k) in *. assert (advances v v') as Ha by (by eapply (mono (m := UpdateFlags next SetChanged))).
  pose proof (marked_range _ Hm) as Hr. pose proof (marked_range _ Hm') as Hr'. apply UpdateFlags_inv in E as [Hi ->].
  set (G' := set_at _ _ _). set (v' := set_base _ _) in *.
  assert (forall b j, 0 <= b < 8 -> 0 <= j -> flag (base v') b j = ((j =? next) && (b =? kChanged)) || flag (base v) b j) as Hfl.
  { intros b j Hb Hj. cbn. unfold SetChanged. by rewrite flag_update. }
  assert (target next = false) as Ht.
  { destruct (target next) eqn:Et; [|done]. destruct (fi_shape _ _ I next) as [t Htl]; [lia|done|]. congruence. }
  destruct I as [[A1 A2 A3] I2 I3 I4 I5 I6 I7 I8]. split; try done.
  - rewrite <- I3. apply Ha.
  - intros pc l. unfold G', set_at. destruct (Z.eqb_spec pc next) as [->|Hne].
    + intros [= <-]. split; [done|]. split; [done|]. left. rewrite Hfl by done || lia. by rewrite Z.eqb_refl.
    + intros Hl. destruct (I6 pc l Hl) as (B1 & B2 & B3). split; [done|]. split; [done|]. pose proof (marked_range _ B1).
      rewrite Hfl by done || lia. rewrite (proj2 (Z.eqb_neq pc next)) by done. cbn [andb orb].
      destruct (decide (pc = idx)) as [->|Hni]; [by left|]. destruct B3 as [|B3]; [by left|right].
      eapply covered_mono; [done|apply extends_refl|apply B2| |exact B3]. intros pc' l' He Hl'. exists l'. split; [|apply within_refl].
      rewrite (proj2 (Z.eqb_neq pc' next)); [done|]. intros ->. destruct (edge_fallthrough pc next B1 He Ht) as (k' & Hk' & En).
      apply Hni. by apply (fallthrough_unique pc idx k' k).
  - intros pc t Hpc Htl. change (tline v' pc) with (tline v pc) in Htl. unfold G', set_at. unfold reached. rewrite !Hfl by done.
    destruct (Z.eqb_spec pc next) as [->|Hne]; [congruence|]. cbn [andb orb]. by apply I7.
  - intros pc Hpc. rewrite Hfl by done. unfold G', set_at. destruct (Z.eqb_spec pc next); [intros _; by eexists|]. cbn [andb orb]. auto.
Qed.
End Invariant.
