(* ===== verification/CodeFlowRound.v ===== *)
(** * One round of the work list

    The successors of an instruction, its handlers, the instruction as a whole and the round around
    it keep the invariant of the work list. *)

From Stdlib Require Import Ascii.
From stdpp Require Import strings.
From S2P Require Import Prelude DexOpcodes DexInstruction ShadowFrame InterpreterBase Interpreter VerifierStatic VerifierProps VerifierTargets InterpreterSafety ClassHierarchy.
From S2P Require Import RegTypes RegTypeProofs RegisterLine RegisterLineProofs.
From S2P Require Import CodeFlowState CodeFlowChecks CodeFlow CodeFlowMono FrameTypes PlainExec CodeFlowStep CodeFlowPlain CodeFlowInstruction CodeFlowEdges CodeFlowInvariant.
Import InstructionFlags.

#[local] Abbreviation changed v i := (flag (base v) kChanged i).
#[local] Abbreviation context_handlers := CodeFlowState.handlers_of.

Section Round.
Context `{VS : VerifierServices} {RS : RuntimeServices} (ctx : MethodContext) (Hok : hier_ok hier) (Hso : services_ok ctx).
Context (cls : Z -> option Class) (Hheap : heap_ok hier cls) (Hho : handlers_ok ctx).
#[local] Abbreviation ci := (code_item_ ctx).
#[local] Abbreviation insns := (insns_ (code_item_ ctx)).
#[local] Abbreviation cache_ok := (cache_ok hier).
#[local] Abbreviation frame_typed := (frame_typed hier cls).
#[local] Abbreviation within_types := (within_types cls).
Context (Hci : code_item_ok ci).
Context {PS : PlainServices insns (fun pc h => exists ty, (ty, h) ∈ context_handlers ctx pc)}.
Context (b0 : Verifier) (Hsv : statically_verified ci b0) (Hfr : flow_ready ci b0).
Context (Hplain : forall i, marked b0 i = true -> plain (opcode insns i) = true).
#[local] Abbreviation n := (Z.to_nat (registers_size_ (code_item_ ctx))).
#[local] Abbreviation target i := (flag b0 kBranchTarget i).
#[local] Abbreviation flow_inv := (flow_inv ctx cls b0).
#[local] Abbreviation lands := (lands cls).
#[local] Abbreviation grows_to := (grows_to cls).

(** The instruction at [idx], with line [L], is being verified. *)
Record mid (idx : Z) (L : list nat) (G : lines) (v : vstate) : Prop := {
  mi_inv : flow_inv G v;
  mi_cur : G idx = Some L;
  mi_pending : changed v idx = true;
  mi_others : forall pc, 0 <= pc -> changed v pc = true -> pc <> idx -> target pc = true
}.
Record onward (idx : Z) (L : list nat) (G : lines) (v : vstate) (G' : lines) (v' : vstate) : Prop := {
  on_mid : mid idx L G' v';
  on_types : extends (reg_types_ v) (reg_types_ v');
  on_grows : grows_to (reg_types_ v) G (reg_types_ v') G';
  on_work : line_ (work_line_ v') = line_ (work_line_ v);
  on_saved : saved_line_ v' = saved_line_ v
}.
Lemma grows_refl c G : grows_to c G c G.
Proof. intros pc l Hl. exists l. split; [done|apply within_refl]. Qed.
Lemma onward_refl idx L G v : mid idx L G v -> onward idx L G v G v.
Proof. intros M. split; [done|apply extends_refl|apply grows_refl|done|done]. Qed.
Lemma onward_trans idx L G1 v1 G2 v2 G3 v3 : onward idx L G1 v1 G2 v2 -> onward idx L G2 v2 G3 v3 -> onward idx L G1 v1 G3 v3.
Proof.
  intros [A1 A2 A3 A4 A5] [B1 B2 B3 B4 B5]. split; [done|by eapply extends_trans|by eapply grows_trans|congruence|congruence].
Qed.
Lemma lands_onward idx L G v G' v' c0 lin pc :
  lands c0 lin (reg_types_ v) G pc -> onward idx L G v G' v' -> lands c0 lin (reg_types_ v') G' pc.
Proof. intros Hl O. eapply lands_grows; [exact Hl|apply O]. Qed.
Lemma lands_earlier c0 c1 lin c G pc : extends c0 c1 -> Forall (valid c0) lin -> lands c1 lin c G pc -> lands c0 lin c G pc.
Proof. intros He Hl (l & Hg & Hw). exists l. split; [done|]. intros f Hf. apply Hw. by apply (ft_extends hier cls c0). Qed.

Lemma mid_types idx L G v : mid idx L G v -> types_ok (reg_types_ v) n L.
Proof. intros [I C _ _]. by apply (fi_lines _ _ _ _ _ I) in C as (_ & ? & _). Qed.

(** The table, the flags and the lines of the map stay. *)
Lemma mid_same idx L G v v' :
  mid idx L G v -> base v' = base v -> reg_table_ v' = reg_table_ v -> cache_ok (reg_types_ v') ->
  extends (reg_types_ v) (reg_types_ v') -> types_ok (reg_types_ v') n (line_ (work_line_ v')) ->
  mid idx L G v' /\ grows_to (reg_types_ v) G (reg_types_ v') G.
Proof.
  intros [I C P O] Eb Et Hc He Hw.
  destruct (inv_same ctx cls Hho Hci b0 Hsv Hfr Hplain G v v' I Eb Et Hc He Hw) as [I' Hg].
  split; [|done]. split; try done; by rewrite Eb.
Qed.

(** ** An edge *)
Lemma update_mid idx L G v next l a v' :
  mid idx L G v -> marked b0 next = true -> target next = true -> types_ok (reg_types_ v) n (line_ l) ->
  (next = idx -> line_ l = L) -> UpdateRegisters ctx next l false v = Some (a, v') -> good_run v v' ->
  fst a = true /\ exists G', onward idx L G v G' v' /\ lands (reg_types_ v) (line_ l) (reg_types_ v') G' next.
Proof.
  intros [I C P O] Hm Ht Hl Hself E [Hq Hf].
  assert (advances v v') as Ha by (eapply (mono (m := UpdateRegisters ctx next l false)); exact E).
  destruct (UpdateRegisters_quiet ctx Hok cls Hheap n next l false v a v' (fi_table _ _ _ _ _ I) Hl Hf E Hq) as [Hfst (t & t' & J)].
  split; [done|].
  destruct (inv_join ctx cls Hho Hci b0 Hsv Hfr Hplain G next _ false _ v v' t t' I J Ha Hm) as (I' & Hg & Hlands).
  exists (set_at G next t'). split; [|done]. pose proof (marked_range ctx Hci b0 Hsv _ Hm) as Hn.
  split; [|apply J|done|by rewrite (jo_work J)|apply J]. split; [done| | |].
  - unfold set_at. destruct (Z.eqb_spec idx next) as [->|]; [|done]. f_equal.
    pose proof (fi_tracked _ _ _ _ _ I next t ltac:(lia) (jo_old J)) as Hold. rewrite C in Hold.
    destruct (jo_case J) as [(Er & _)|(Er & _ & Heq & _)]; rewrite Er in Hold; [done|]. injection Hold as ->. auto.
  - destruct (decide (idx = next)) as [->|Hne].
    + destruct (joined_next J) as [_ [|(-> & _ & _)]]; [lia|done|done].
    + apply (fi_lines _ _ _ _ _ I) in C as [Hmi _]. pose proof (marked_range ctx Hci b0 Hsv _ Hmi). by rewrite (proj1 (joined_other J idx ltac:(lia) Hne)).
  - intros pc Hpc. destruct (decide (pc = next)) as [->|Hne]; [done|]. rewrite (proj1 (joined_other J pc Hpc Hne)). by apply O.
Qed.

Lemma base_check_quiet a l s bad v x v' : on_base (check a l s bad) v = Some (x, v') -> quiet v v' -> x = true /\ v' = v.
Proof.
  unfold on_base. destruct (check a l s bad (base v)) as [[y b]|] eqn:E; [|done]. intros [= <- <-] Hq.
  apply check_base in E as [_ Hc]. destruct (Hc Hq) as (_ & -> & ->). split; [done|]. by destruct v.
Qed.
Lemma update_target_mid idx L G v next l a v' :
  mid idx L G v -> marked b0 next = true -> target next = true -> types_ok (reg_types_ v) n (line_ l) ->
  (next = idx -> line_ l = L) -> update_target ctx next l v = Some (a, v') -> good_run v v' ->
  a = true /\ exists G', onward idx L G v G' v' /\ lands (reg_types_ v) (line_ l) (reg_types_ v') G' next.
Proof.
  intros M Hm Ht Hl Hself E Hq. unfold update_target, CheckNotMoveExceptionOrMoveResult, CheckNotMoveException_, CheckNotMoveResult_,
    CheckNotMoveException, CheckNotMoveResult in E.
  rsplit E Hq. rsplit E0 Hq0. apply base_check_quiet in E1 as [-> ->]; [|apply Hq1]. cbn [negb] in E0.
  apply base_check_quiet in E0 as [-> ->]; [|apply Hq0]. cbn [negb] in E. rsplit E Hq. injection E as <- <-.
  by eapply update_mid.
Qed.

(** ** Branches and switches *)
Lemma u32_marked i : marked b0 i = true -> u32 i = i.
Proof.
  intros Hm. pose proof (marked_range ctx Hci b0 Hsv _ Hm). pose proof (ci_size _ Hci). apply wrapu_small. unfold_width. lia.
Qed.

Section Successors.
Context (idx : Z) (L : list nat) (Hidx : marked b0 idx = true).
#[local] Abbreviation op := (opcode insns idx).
#[local] Abbreviation plain_result := (mkResult false (FlagsOf op) None None).
(** The line after the instruction. *)
Context (c1 : RegTypeCache) (L' : list nat) (HL' : types_ok c1 n L').
Context (Hself : has_flag (FlagsOf op) kBranch || has_flag (FlagsOf op) kSwitch = true -> L' = L).

Lemma flow_branch_mid G v a v' :
  mid idx L G v -> line_ (work_line_ v) = L' -> extends c1 (reg_types_ v) ->
  flow_branch ctx idx plain_result v = Some (a, v') -> good_run v v' ->
  exists bt G', a = Some bt /\ onward idx L G v G' v'
  /\ (has_flag (FlagsOf op) kBranch = true -> forall off cond self, GetBranchOffset ci idx = Some (off, cond, self) ->
      bt = off /\ lands c1 L' (reg_types_ v') G' (idx + off)).
Proof.
  intros M Hw He E Hq. unfold flow_branch in E. cbn [opcode_flags branch_line] in E.
  destruct (has_flag (FlagsOf op) kBranch) eqn:Eb.
  2: { injection E as <- <-. exists 0, G. split_and!; [done|by apply onward_refl|done]. }
  pose proof (branch_extra _ Eb) as Ex. destruct (acc_branch _ _ _ (sv_accepted _ _ Hsv _ Hidx) Ex) as (off & cond & self & Eo & Hm & _).
  destruct (tf_branch _ _ _ (fr_targets _ _ Hfr _ Hidx) Ex _ _ _ Eo) as [_ Ht].
  rewrite Eo in E. rsplit E Hq. injection E0 as <- <-. cbn [default] in E. rsplit E Hq. rewrite u32_marked in E0 by done.
  destruct (update_target_mid idx L G v (idx + off) (work_line_ v) a0 v0) as [-> (G' & O & Hl)]; try done.
  { apply (fi_work _ _ _ _ _ (mi_inv _ _ _ _ M)). }
  { intros _. rewrite Hw. by apply Hself. }
  injection E as <- <-. exists off, G'. split_and!; [done|done|]. intros _ off' cond' self' Eo'. rewrite Eo in Eo'. injection Eo' as <- _ _. split; [done|].
  rewrite Hw in Hl. eapply lands_earlier; [exact He|apply HL'|done].
Qed.

Lemma flow_targets_mid targets k : forall t G v a v',
  (forall i, t <= i < t + Z.of_nat k -> marked b0 (idx + table_int32 ci (targets + 2 * i)) = true /\ target (idx + table_int32 ci (targets + 2 * i)) = true) ->
  L' = L -> mid idx L G v -> line_ (work_line_ v) = L' -> extends c1 (reg_types_ v) ->
  flow_targets ctx k idx targets t v = Some (a, v') -> good_run v v' ->
  a = true /\ exists G', onward idx L G v G' v'
  /\ forall i, t <= i < t + Z.of_nat k -> lands c1 L' (reg_types_ v') G' (idx + table_int32 ci (targets + 2 * i)).
Proof.
  induction k as [|k IH]; intros t G v a v' Hts EL M Hw He E Hq; cbn [flow_targets] in E.
  { injection E as <- <-. split; [done|]. exists G. split; [by apply onward_refl|lia]. }
  rsplit E Hq. injection E0 as <- <-. rsplit E Hq. destruct (Hts t ltac:(lia)) as [Hm Ht].
  change (s32 (Fetch32 insns (targets + t * 2) 0)) with (table_int32 ci (targets + t * 2)) in E0.
  rewrite (Z.mul_comm t 2), u32_marked in E0 by done.
  destruct (update_target_mid idx L G v _ (work_line_ v) a0 v0 M Hm Ht) as [-> (G1 & O1 & Hl)]; try done.
  { apply (fi_work _ _ _ _ _ (mi_inv _ _ _ _ M)). }
  { intros _. by rewrite Hw. }
  cbn [negb] in E. destruct (IH (t + 1) G1 v0 a v') as [-> (G2 & O2 & Hrest)]; try done.
  { intros i Hi. apply Hts. lia. }
  { apply O1. }
  { rewrite (on_work _ _ _ _ _ _ O1). done. }
  { eapply extends_trans; [exact He|apply O1]. }
  split; [done|]. exists G2. split; [by eapply onward_trans|]. intros i Hi. destruct (decide (i = t)) as [->|].
  - eapply lands_onward; [|exact O2]. rewrite Hw in Hl. eapply lands_earlier; [exact He|apply HL'|done].
  - apply Hrest. lia.
Qed.
Lemma flow_switch_mid G v a v' :
  mid idx L G v -> line_ (work_line_ v) = L' -> extends c1 (reg_types_ v) ->
  flow_switch ctx idx plain_result v = Some (a, v') -> good_run v v' ->
  a = true /\ exists G', onward idx L G v G' v'
  /\ (has_flag (FlagsOf op) kSwitch = true -> forall i, 0 <= i < sw_count ci idx ->
      lands c1 L' (reg_types_ v') G' (idx + table_int32 ci (sw_targets ci idx + 2 * i))).
Proof.
  intros M Hw He E Hq. unfold flow_switch in E. cbn [opcode_flags] in E. destruct (has_flag (FlagsOf op) kSwitch) eqn:Es.
  2: { injection E as <- <-. split; [done|]. exists G. split; [by apply onward_refl|done]. }
  pose proof (switch_extra _ Es) as Ex. pose proof (sw_target _ _ _ (acc_switch _ _ _ (sv_accepted _ _ Hsv _ Hidx) Ex)) as Hm.
  pose proof (tf_switch _ _ _ (fr_targets _ _ Hfr _ Hidx) Ex) as Ht.
  pose proof (ci_units _ Hci (sw_pos ci idx + 1)) as Hc. fold (sw_count ci idx) in Hc.
  eapply flow_targets_mid in E as [-> (G' & O & Hl)]; try done.
  - split; [done|]. exists G'. split; [done|]. intros _ i Hi. apply Hl. unfold sw_count, sw_pos in *. lia.
  - intros i Hi. assert (0 <= i < sw_count ci idx) as Hi' by (unfold sw_count, sw_pos in *; lia). split; [by apply Hm|by apply Ht].
  - apply Hself. by rewrite orb_true_r.
Qed.

(** ** Handlers *)
Lemma resolve_kept i v a v' : ResolveTypeCached i v = Some (a, v') ->
  base v' = base v /\ reg_table_ v' = reg_table_ v /\ reg_types_ v' = reg_types_ v /\ work_line_ v' = work_line_ v /\ saved_line_ v' = saved_line_ v.
Proof. unfold ResolveTypeCached, sbind, sget, smod. repeat case_match; by intros [= <- <-]. Qed.
Lemma onward_kept G v v' :
  mid idx L G v -> base v' = base v -> reg_table_ v' = reg_table_ v -> reg_types_ v' = reg_types_ v ->
  line_ (work_line_ v') = line_ (work_line_ v) -> saved_line_ v' = saved_line_ v -> onward idx L G v G v'.
Proof.
  intros M Eb Et Ec Ew Es. pose proof (fi_table _ _ _ _ _ (mi_inv _ _ _ _ M)) as Hto.
  destruct (mid_same idx L G v v' M Eb Et) as [M' Hg]; rewrite ?Ec, ?Ew; [apply Hto|apply extends_refl|apply M|].
  split; [done|rewrite Ec; apply extends_refl|done|done|done].
Qed.

Lemma flow_handlers_mid hs : forall G v all a v',
  (forall ty h, (ty, h) ∈ hs -> (ty, h) ∈ context_handlers ctx idx) -> line_ (saved_line_ v) = L ->
  mid idx L G v -> flow_handlers ctx hs all v = Some (a, v') -> good_run v v' ->
  fst a = true /\ exists G', onward idx L G v G' v' /\ forall ty h, (ty, h) ∈ hs -> lands (reg_types_ v) L (reg_types_ v') G' h.
Proof.
  induction hs as [|[ty h] hs IH]; intros G v all a v' Hhs Hs M E Hq; cbn [flow_handlers] in E.
  { injection E as <- <-. split; [done|]. exists G. split; [by apply onward_refl|]. by intros ty h ?%elem_of_nil. }
  rsplit E Hq. assert (onward idx L G v G v0) as O0.
  { destruct (ty =? 65535); [injection E0 as _ <-; by apply onward_refl|]. rsplit E0 Hq0. injection E0 as _ <-.
    apply resolve_kept in E1 as (R1 & R2 & R3 & R4 & R5). apply onward_kept; congruence. }
  rsplit E Hq. injection E1 as <- <-. rsplit E Hq. pose proof (on_mid _ _ _ _ _ _ O0) as M0.
  destruct (handler_facts ctx Hho b0 Hsv Hfr idx ty h) as [Hm Ht]; [apply Hhs; left|].
  pose proof (on_saved _ _ _ _ _ _ O0) as Es0. assert (types_ok (reg_types_ v0) n L) as HL by (by eapply mid_types).
  rewrite <- Es0 in Hs. destruct (update_mid idx L G v0 h (saved_line_ v0) a1 v1 M0 Hm Ht) as [Hf (G1 & O1 & Hl)]; try done; [by rewrite Hs|].
  rewrite Hf in E. cbn [negb] in E.
  assert (onward idx L G v G1 v1) as O01 by (by eapply onward_trans).
  destruct (IH G1 v1 (all || a0) a v') as [Ha (G2 & O2 & Hrest)]; try done.
  { intros ty' h' Hin. apply Hhs. by right. }
  { by rewrite (on_saved _ _ _ _ _ _ O1). }
  { apply O1. }
  split; [done|]. exists G2. split; [by eapply onward_trans|]. rewrite Hs in Hl.
  assert (types_ok (reg_types_ v) n L) as HLv by (by eapply mid_types).
  intros ty' h' [[= -> ->]|Hin]%elem_of_cons.
  - eapply lands_onward; [|exact O2]. eapply lands_earlier; [apply O0|apply HLv|done].
  - eapply lands_earlier; [apply O01|apply HLv|by eapply Hrest].
Qed.

Lemma flow_throw_mid G v a v' :
  mid idx L G v -> (has_flag (FlagsOf op) kThrow = true -> flag b0 kInTry idx = true -> line_ (saved_line_ v) = L) ->
  flow_throw ctx idx plain_result v = Some (a, v') -> good_run v v' ->
  a = true /\ exists G', onward idx L G v G' v'
  /\ (has_flag (FlagsOf op) kThrow = true -> forall ty h, (ty, h) ∈ context_handlers ctx idx -> lands (reg_types_ v) L (reg_types_ v') G' h).
Proof.
  intros M Hs E Hq. unfold flow_throw in E. cbn [opcode_flags] in E. rsplit E Hq. apply GetFlags_same in E0 as (-> & _ & ->).
  change (IsInTry (rd (insn_flags_ (base v)) idx)) with (flag (base v) kInTry idx) in E.
  rewrite (flag_static b0 v) in E by (done || apply (fi_static _ _ _ _ _ (mi_inv _ _ _ _ M))).
  destruct (has_flag (FlagsOf op) kThrow) eqn:Et; cbn [andb] in E.
  2: { injection E as <- <-. split; [done|]. exists G. split; [by apply onward_refl|done]. }
  destruct (flag b0 kInTry idx) eqn:Ei; cbn [andb] in E.
  2: { injection E as <- <-. split; [done|]. exists G. split; [by apply onward_refl|]. intros _ ty h Hh.
       destruct (ho_try _ Hho _ _ _ Hh) as (t & Hin & Hr). pose proof (fr_in_try _ _ Hfr) as Hf. rewrite Forall_forall in Hf.
       apply (sv_marks _ _ Hsv) in Hidx as [Hb _]. by rewrite (Hf t Hin idx Hb Hr) in Ei. }
  rsplit E Hq. destruct (flow_handlers_mid (context_handlers ctx idx) G v false a0 v0) as [Ha (G' & O & Hl)]; try done; [by apply Hs|].
  rewrite Ha in E. cbn [negb] in E. rsplit E Hq. injection E1 as <- <-.
  match type of E with (if ?b then _ else _) _ = _ => destruct b end.
  - rsplit E Hq. exfalso. eapply Fail_loud; [exact E1|]. match goal with Hx : good_run v0 v1 |- _ => apply Hx end.
  - injection E as <- <-. split; [done|]. exists G'. split; [done|]. intros _ ty h Hh. by eapply Hl.
Qed.

(** ** The next instruction *)

(** The state after the successors: the next instruction, when it is not a target, has the work
    line. *)
Record settled (G : lines) (v : vstate) (G' : lines) (v' : vstate) : Prop := {
  se_inv : flow_inv G' v';
  se_cur : G' idx = Some L;
  se_pending : changed v' idx = true;
  se_types : extends (reg_types_ v) (reg_types_ v');
  se_targets : forall pc l, target pc = true -> G pc = Some l -> lands (reg_types_ v) l (reg_types_ v') G' pc;
  se_next : has_flag (FlagsOf op) kContinue = true -> forall k, SizeInCodeUnits insns idx = Some k -> lands c1 L' (reg_types_ v') G' (idx + k);
  se_others : forall pc, 0 <= pc -> changed v' pc = true -> pc <> idx -> target pc = false ->
    has_flag (FlagsOf op) kContinue = true /\ SizeInCodeUnits insns idx = Some (pc - idx) /\ G' pc = Some (line_ (work_line_ v'))
}.

(** The work line after the instruction, as the next one sees it. *)
Definition next_types (k : Z) : list nat := if flag b0 kReturn (idx + k) then adjust ctx (idx + k) L' else L'.
Lemma next_types_fixed k : (if flag b0 kReturn (idx + k) then adjust ctx (idx + k) (next_types k) else next_types k) = next_types k.
Proof. unfold next_types. destruct (flag _ _ _); [apply adjust_idem|done]. Qed.

Lemma adjust_work G v k a v' :
  mid idx L G v -> line_ (work_line_ v) = L' -> 0 <= idx + k ->
  (if IsReturnFlag (rd (insn_flags_ (base v)) (idx + k)) then CodeFlowState.work ctx (AdjustReturnLine ctx (idx + k)) else sret tt) v
    = Some (a, v') -> good_run v v' ->
  mid idx L G v' /\ base v' = base v /\ reg_table_ v' = reg_table_ v /\ reg_types_ v' = reg_types_ v /\ line_ (work_line_ v') = next_types k.
Proof.
  intros M Hw Hk E Hq. pose proof (mi_inv _ _ _ _ M) as I.
  change (IsReturnFlag (rd (insn_flags_ (base v)) (idx + k))) with (flag (base v) kReturn (idx + k)) in E.
  rewrite (flag_static b0 v) in E by (done || apply I). unfold next_types.
  destruct (flag b0 kReturn (idx + k)); [|by injection E as <- <-].
  apply work_quiet in E as (s & Em & Ee & ->); [|apply _|apply Hq]. apply adjust_quiet in Em as [Et El]; [|done].
  cbn in Et, El. rewrite Et, set_types_same. rewrite Hw in El. cbn. split; [|done].
  eapply mid_same in M as [M' _]; [exact M'|done|done|apply I|apply extends_refl|]. cbn. rewrite El, <- Hw.
  apply adjust_valid; [apply I|apply (fi_work _ _ _ _ _ I)].
Qed.

Lemma within_next k c : extends c1 c -> cache_ok c -> within_types c1 L' c (next_types k).
Proof.
  intros He Hc f Hf. apply (ft_extends hier cls c1 c _ _ He (proj1 HL')) in Hf. unfold next_types.
  destruct (flag _ _ _); [by apply adjust_typed|done].
Qed.

(** The next instruction has a line in the table. *)
Lemma continue_tracked G v k a v' v2 :
  mid idx L G v -> line_ (work_line_ v) = next_types k -> extends c1 (reg_types_ v) -> has_flag (FlagsOf op) kContinue = true ->
  SizeInCodeUnits insns idx = Some k -> 0 < k -> marked b0 (idx + k) = true ->
  UpdateRegisters ctx (idx + k) (work_line_ v) true v = Some (a, v') -> good_run v v' -> v2 = set_work v' (snd a) ->
  fst a = true /\ exists G', settled G v G' v2.
Proof.
  intros M Hw He Hcont Hk Hpos Hm E [Hq Hf] ->. destruct M as [I C P O].
  assert (advances v v') as Ha by (eapply (mono (m := UpdateRegisters ctx (idx + k) (work_line_ v) true)); exact E).
  destruct (UpdateRegisters_quiet ctx Hok cls Hheap n _ _ true v a v' (fi_table _ _ _ _ _ I) (fi_work _ _ _ _ _ I) Hf E Hq) as [Hfst (t & t' & J)].
  split; [done|]. destruct (inv_join ctx cls Hho Hci b0 Hsv Hfr Hplain G _ _ true _ v v' t t' I J Ha Hm) as (I' & Hg & Hl).
  pose proof (marked_range ctx Hci b0 Hsv _ Hm). pose proof (marked_range ctx Hci b0 Hsv _ Hidx). rewrite Hw in J, Hl.
  assert (types_ok (reg_types_ v') n (line_ (snd a))) as Hta.
  { assert (types_ok (reg_types_ v') n t') as Ht' by (apply (to_lines _ _ (jo_ok J) (idx + k)); rewrite (jo_new J), Z.eqb_refl by lia; done).
    assert (types_ok (reg_types_ v') n (next_types k)) as Hn by (rewrite <- Hw; eapply types_ok_extends; [apply J|apply I]).
    destruct (jo_case J) as [(_ & _ & _ & ->)|(_ & _ & _ & [[_ ->]|(_ & _ & ->)])]; done. }
  destruct (inv_same ctx cls Hho Hci b0 Hsv Hfr Hplain _ v' (set_work v' (snd a)) I' eq_refl eq_refl (to_cache _ _ (jo_ok J)) (extends_refl _) Hta) as [I2 Hg2].
  exists (set_at G (idx + k) t'). split; cbn [base reg_types_ work_line_ set_work]; try done.
  - unfold set_at. by rewrite (proj2 (Z.eqb_neq idx (idx + k))) by lia.
  - by rewrite (proj1 (joined_other J idx ltac:(lia) ltac:(lia))).
  - apply J.
  - intros pc l _ Hpc. by apply Hg.
  - intros _ k' Hk'. rewrite Hk in Hk'. injection Hk' as <-. destruct Hl as (l & El & Hwl). exists l. split; [done|].
    intros f Hff. apply Hwl. apply (within_next k); [done|apply I|done].
  - intros pc Hpc Hch Hne Htgt. destruct (decide (pc = idx + k)) as [->|Hn].
    2: { rewrite (proj1 (joined_other J pc Hpc Hn)) in Hch. by rewrite (O pc Hpc Hch Hne) in Htgt. }
    split_and!; [done|by replace (idx + k - idx) with k by lia|]. unfold set_at. rewrite Z.eqb_refl. f_equal.
    destruct (jo_case J) as [(_ & _ & -> & ->)|(_ & _ & _ & [[_ ->]|(Ec & _ & _)])]; [|done|].
    + rewrite (flag_static b0 v) by (done || apply I). apply next_types_fixed.
    + rewrite Ec in Hch. by rewrite (O _ Hpc Hch Hne) in Htgt.
Qed.

(** It has none. *)
Lemma continue_untracked G v k u v' :
  mid idx L G v -> line_ (work_line_ v) = next_types k -> extends c1 (reg_types_ v) -> has_flag (FlagsOf op) kContinue = true ->
  SizeInCodeUnits insns idx = Some k -> 0 < k -> marked b0 (idx + k) = true ->
  tline v (idx + k) = None -> UpdateFlags (idx + k) SetChanged v = Some (u, v') -> exists G', settled G v G' v'.
Proof.
  intros M Hw He Hcont Hk Hpos Hm Hnone E. destruct M as [I C P O].
  pose proof (inv_replace ctx cls Hho Hci b0 Hsv Hfr Hplain G v idx k u v' I P Hidx Hk Hm Hnone E) as I'.
  pose proof (marked_range ctx Hci b0 Hsv _ Hm). pose proof (marked_range ctx Hci b0 Hsv _ Hidx).
  assert (target (idx + k) = false) as Ht.
  { destruct (target (idx + k)) eqn:Et; [|done]. destruct (fi_shape _ _ _ _ _ I (idx + k)) as [t Htl]; [lia|done|]. congruence. }
  apply UpdateFlags_inv in E as [Hi ->].
  assert (forall pc, 0 <= pc -> changed (set_base v (set_flags (base v) (wr (insn_flags_ (base v)) (idx + k) (SetChanged (rd (insn_flags_ (base v)) (idx + k)))))) pc
    = (pc =? idx + k) || changed v pc) as Hfl.
  { intros pc Hpc. cbn. unfold SetChanged. rewrite flag_update by done. by rewrite andb_true_r. }
  eexists. split; [exact I'| | | | | |].
  - unfold set_at. by rewrite (proj2 (Z.eqb_neq idx (idx + k))) by lia.
  - rewrite Hfl by lia. rewrite P. apply orb_true_r.
  - apply extends_refl.
  - intros pc l Htgt Hl. exists l. unfold set_at. destruct (Z.eqb_spec pc (idx + k)) as [->|]; [congruence|]. split; [done|apply within_refl].
  - intros _ k' Hk'. rewrite Hk in Hk'. injection Hk' as <-. exists (next_types k). unfold set_at. rewrite Z.eqb_refl, Hw.
    split; [done|]. apply within_next; [done|apply I].
  - intros pc Hpc. rewrite Hfl by done. unfold set_at. destruct (Z.eqb_spec pc (idx + k)) as [->|Hn]; cbn [orb].
    + intros _ _ _. split_and!; [done|by replace (idx + k - idx) with k by lia|done].
    + intros Hch Hne Htgt. by rewrite (O pc Hpc Hch Hne) in Htgt.
Qed.

Lemma flow_continue_settled G v a v' :
  mid idx L G v -> line_ (work_line_ v) = L' -> extends c1 (reg_types_ v) ->
  flow_continue ctx idx plain_result v = Some (a, v') -> good_run v v' -> a = true /\ exists G', settled G v G' v'.
Proof.
  intros M Hw He E Hq. unfold flow_continue in E. cbn [opcode_flags fallthrough_line] in E.
  destruct (has_flag (FlagsOf op) kContinue) eqn:Hcont.
  2: { injection E as <- <-. split; [done|]. exists G. destruct M as [I C P O]. split; try done; [apply extends_refl| |congruence|].
       - intros pc l _ Hl. exists l. split; [done|apply within_refl].
       - intros pc Hpc Hch Hne Ht. by rewrite (O pc Hpc Hch Hne) in Ht. }
  rsplit E Hq. unfold on_base, SizeOf in E0. destruct (SizeInCodeUnits insns idx) as [k|] eqn:Hk; [|done].
  injection E0 as <- <-. replace (set_base v (base v)) with v in * by (by destruct v).
  pose proof (marked_range ctx Hci b0 Hsv _ Hidx). pose proof (size_positive ci Hci _ _ Hk) as Hpos. pose proof (ci_size _ Hci).
  apply (sv_marks _ _ Hsv) in Hidx as Hb. destruct Hb as [Hb Hlt].
  pose proof (boundary_gap ci Hci _ _ _ Hb (sv_end _ _ Hsv) Hk Hlt). rewrite wrapu_small in E by (unfold_width; lia).
  match type of E with (if ?b then _ else _) _ = _ => destruct b eqn:Hend end.
  { rsplit E Hq. exfalso. eapply Fail_loud; [exact E0|]. match goal with Hx : good_run v v0 |- _ => apply Hx end. }
  assert (marked b0 (idx + k) = true) as Hm by (apply (sv_marks _ _ Hsv); split; [by econstructor|lia]).
  rsplit E Hq. unfold CheckNotMoveException_, CheckNotMoveException in E0. apply base_check_quiet in E0 as [-> ->]; [|apply Hq1].
  cbn [negb] in E. rsplit E Hq. injection E0 as <- <-. rsplit E Hq. apply GetFlags_same in E0 as (-> & _ & ->). rsplit E Hq.
  match goal with Hx : good_run v v0 |- _ => destruct (adjust_work G v k _ v0 M Hw ltac:(lia) E0 Hx) as (M' & _ & _ & Et & Hw') end.
  assert (extends c1 (reg_types_ v0)) as He' by (by rewrite Et).
  rsplit E Hq. apply GetLine_inv in E1 as [-> Etab]. destruct a1 as [target_line|].
  - rsplit E Hq. injection E1 as <- <-. rsplit E Hq. rsplit E Hq. injection E2 as <- <-. injection E as <- <-.
    match goal with Hx : good_run v0 v1 |- _ => destruct (continue_tracked G v0 k a1 v1 (set_work v1 (snd a1)) M' Hw' He' Hcont Hk Hpos Hm E1 Hx eq_refl) as [Hf (G' & S)] end.
    split; [done|]. exists G'. destruct S. split; try done; by rewrite <- Et.
  - rsplit E Hq. injection E as <- <-.
    destruct (continue_untracked G v0 k a1 v1 M' Hw' He' Hcont Hk Hpos Hm) as [G' S]; [unfold tline; by rewrite Etab|done|].
    split; [done|]. exists G'. destruct S. split; try done; by rewrite <- Et.
Qed.

(** ** The instruction *)
Lemma covered_intro c0 c G :
  is_payload ci idx = false -> extends c0 c -> Forall (valid c0) L -> transfers ctx cls idx c0 c1 L L' ->
  (has_flag (FlagsOf op) kContinue = true -> forall k, SizeInCodeUnits insns idx = Some k -> lands c1 L' c G (idx + k)) ->
  (has_flag (FlagsOf op) kBranch = true -> forall off cond self, GetBranchOffset ci idx = Some (off, cond, self) -> lands c1 L' c G (idx + off)) ->
  (has_flag (FlagsOf op) kSwitch = true -> forall i, 0 <= i < sw_count ci idx ->
     lands c1 L' c G (idx + table_int32 ci (sw_targets ci idx + 2 * i))) ->
  (has_flag (FlagsOf op) kThrow = true -> forall ty h, (ty, h) ∈ context_handlers ctx idx -> lands c0 L c G h) ->
  covered ctx cls c G idx L.
Proof.
  intros Hp He HL Htr Hc Hb Hs Ht. split; [done|]. intros st st' pc' Hf Hx E.
  apply (ft_extends hier cls c0) in Hf; [|done..].
  destruct (iterate_cases ctx Hho Hci b0 Hsv Hfr Hplain st idx st' pc' Hidx Hp Hx E) as [Hx' [[Hsucc Hex]|(Hthrow & [ty Hh] & Hfr')]].
  - assert (frame_typed c1 L' (frame st')) as Hf' by (eapply Htr; [|exact Hex]; cbn; by apply dexpc_typed).
    assert (lands c1 L' c G pc') as (l & El & Hw).
    { destruct Hsucc as [(F & k & Hk & ->)|[(F & off & cond & self & Eo & ->)|(F & i & Hi & ->)]]; eauto. }
    split; [done|]. exists l. split; [done|by apply Hw].
  - destruct (Ht Hthrow ty pc' Hh) as (l & El & Hw). split; [done|]. exists l. split; [done|]. apply Hw. rewrite Hfr'. by apply dexpc_typed.
Qed.
End Successors.

(** Branches and switches do not change the line. *)
Lemma jump_same idx v r v' :
  (forall i, marked (base v) i = true -> plain (opcode insns i) = true) -> plain (opcode insns idx) = true ->
  has_flag (FlagsOf (opcode insns idx)) kBranch || has_flag (FlagsOf (opcode insns idx)) kSwitch = true ->
  switch_instruction ctx idx v = Some (r, v') -> quiet v v' -> v' = v.
Proof.
  intros Hpl Hp Hj E Hq. destruct (is_test (opcode insns idx)) eqn:Et; [by apply switch_test in E as [_ ->]|].
  apply switch_plain in E as [_ E]; [|done..]. apply jump_step in E; [done| |done].
  revert Hj Hp Et. clear. by destruct (opcode insns idx).
Qed.

Lemma monitors_kept v u v' : note_monitors ctx v = Some (u, v') -> kept v v' /\ reg_types_ v' = reg_types_ v /\ work_line_ v' = work_line_ v.
Proof. unfold note_monitors, smod. intros [= <- <-]. by repeat case_match. Qed.
Lemma save_line_kept idx v u v' :
  static_flags (insn_flags_ (base v)) = static_flags (insn_flags_ b0) -> work_insn_idx_ v = idx ->
  save_line (opcode insns idx) v = Some (u, v') ->
  base v' = base v /\ reg_table_ v' = reg_table_ v /\ reg_types_ v' = reg_types_ v /\ work_line_ v' = work_line_ v
  /\ work_insn_idx_ v' = work_insn_idx_ v
  /\ (has_flag (FlagsOf (opcode insns idx)) kThrow = true -> flag b0 kInTry idx = true -> line_ (saved_line_ v') = line_ (work_line_ v)).
Proof.
  intros Hs Hi. unfold save_line, sbind, CurrentInsnFlags. destruct (GetFlags (work_insn_idx_ v) v) as [[f w]|] eqn:Ef; [|done].
  apply GetFlags_same in Ef as (-> & _ & ->). rewrite Hi.
  change (IsInTry (rd (insn_flags_ (base v)) idx)) with (flag (base v) kInTry idx). rewrite (flag_static b0 v) by done.
  destruct (has_flag _ kThrow), (flag b0 kInTry idx); intros [= <- <-]; done.
Qed.
Lemma return_quiet (b : bool) v (a : unit) v' :
  (if b then CodeFlowState.work ctx VerifyMonitorStackEmpty else sret tt) v = Some (a, v') -> quiet v v' -> v' = v.
Proof.
  destruct b; [|by intros [= <- <-]]. intros E Hq. apply work_quiet in E as (s & Em & Ee & ->); [|apply _|done].
  unfold VerifyMonitorStackEmpty, sbind, sget in Em. cbn [line] in Em. destruct (negb _); injection Em as _ <-; [done|]. by destruct v.
Qed.
Lemma next_guess_same idx flags bt guess v g v' :
  next_guess ctx idx flags bt guess v = Some (g, v') ->
  v' = v /\ (has_flag flags kContinue = true -> exists k, SizeInCodeUnits insns idx = Some k /\ g = u32 (idx + k)).
Proof.
  unfold next_guess, sbind, on_base, SizeOf. destruct (has_flag flags kContinue).
  - destruct (SizeInCodeUnits insns idx) as [k|] eqn:Ek; [|done]. intros [= <- <-]. split; [by destruct v|]. eauto.
  - destruct (has_flag flags kBranch); by intros [= <- <-].
Qed.

(** What is known when the instruction has been verified. *)
Record verified (idx : Z) (L : list nat) (guess : Z) (G0 : lines) (v0 : vstate) (G : lines) (v : vstate) : Prop := {
  ve_inv : flow_inv G v;
  ve_targets : forall pc l, target pc = true -> G0 pc = Some l -> lands (reg_types_ v0) l (reg_types_ v) G pc;
  ve_cur : G idx = Some L;
  ve_covered : covered ctx cls (reg_types_ v) G idx L;
  ve_others : forall pc, 0 <= pc -> changed v pc = true -> pc <> idx -> target pc = false ->
    pc = guess /\ G pc = Some (line_ (work_line_ v))
}.

(** The successors, from the state after the switch on the opcode. *)
Lemma successors_verified idx L G v0 v1 guess a v' :
  marked b0 idx = true -> mid idx L G v1 -> is_payload ci idx = false ->
  extends (reg_types_ v0) (reg_types_ v1) -> Forall (valid (reg_types_ v0)) L ->
  transfers ctx cls idx (reg_types_ v0) (reg_types_ v1) L (line_ (work_line_ v1)) ->
  (has_flag (FlagsOf (opcode insns idx)) kBranch || has_flag (FlagsOf (opcode insns idx)) kSwitch = true -> line_ (work_line_ v1) = L) ->
  (has_flag (FlagsOf (opcode insns idx)) kThrow = true -> flag b0 kInTry idx = true -> line_ (saved_line_ v1) = L) ->
  let r := mkResult false (FlagsOf (opcode insns idx)) None None in
  sbind (flow_branch ctx idx r) (fun branched =>
    match branched with
    | None => sret (false, guess)
    | Some branch_target =>
        sbind (flow_switch ctx idx r) (fun switched =>
        if negb switched then sret (false, guess)
        else sbind (flow_throw ctx idx r) (fun thrown =>
          if negb thrown then sret (false, guess)
          else sbind (flow_continue ctx idx r) (fun continued =>
            if negb continued then sret (false, guess)
            else sbind (if has_flag (opcode_flags r) DexOpcodes.kReturn then CodeFlowState.work ctx VerifyMonitorStackEmpty else sret tt) (fun _ =>
              sbind (next_guess ctx idx (opcode_flags r) branch_target guess) (fun guess =>
              sbind (sget base) (fun b =>
              sbind (if have_pending_runtime_throw_failure_ b
                     then sbind (smod (fun v => set_any_throw v true)) (fun _ => set_runtime_throw false)
                     else sret tt) (fun _ => sret (true, guess))))))))
    end) v1 = Some (a, v') -> good_run v1 v' ->
  fst a = true /\ exists G', verified idx L (snd a) G v1 G' v'.
Proof.
  intros Hidx M Hp He HL Htr Hself Hsaved r E Hq. pose proof (fi_work _ _ _ _ _ (mi_inv _ _ _ _ M)) as HL'.
  rsplit E Hq. match goal with Hx : good_run v1 v |- _ =>
    destruct (flow_branch_mid idx L Hidx (reg_types_ v1) _ HL' Hself G v1 _ v M eq_refl (extends_refl _) E0 Hx) as (bt & G1 & -> & O1 & Hb) end.
  rsplit E Hq. match goal with Hx : good_run v v2 |- _ =>
    destruct (flow_switch_mid idx L Hidx (reg_types_ v1) _ HL' Hself G1 v a0 v2 (on_mid _ _ _ _ _ _ O1) (on_work _ _ _ _ _ _ O1) (on_types _ _ _ _ _ _ O1) E1 Hx)
      as (-> & G2 & O2 & Hs) end.
  cbn [negb] in E. pose proof (onward_trans _ _ _ _ _ _ _ _ O1 O2) as O12.
  rsplit E Hq. match goal with Hx : good_run v2 v3 |- _ => destruct (flow_throw_mid idx L Hidx G2 v2 a0 v3 (on_mid _ _ _ _ _ _ O2)) as (-> & G3 & O3 & Ht); try done end.
  { by rewrite (on_saved _ _ _ _ _ _ O12). }
  cbn [negb] in E. pose proof (onward_trans _ _ _ _ _ _ _ _ O12 O3) as O123.
  rsplit E Hq. match goal with Hx : good_run v3 v4 |- _ =>
    destruct (flow_continue_settled idx L Hidx (reg_types_ v1) _ HL' G3 v3 a0 v4 (on_mid _ _ _ _ _ _ O3) (on_work _ _ _ _ _ _ O123) (on_types _ _ _ _ _ _ O123) E3 Hx)
      as (-> & G4 & S) end.
  cbn [negb] in E. rsplit E Hq. apply return_quiet in E4 as ->; [|match goal with Hx : good_run v4 v5 |- _ => apply Hx end].
  rsplit E Hq. apply next_guess_same in E4 as [-> Hg]. rsplit E Hq. injection E4 as <- <-.
  rewrite (fi_throw _ _ _ _ _ (se_inv _ _ _ _ _ _ _ _ S)) in E. rsplit E Hq. injection E4 as _ <-. injection E as <- <-.
  split; [done|]. exists G4. destruct S as [S1 S2 S3 S4 S5 S6 S7]. split; [done| |done| |].
  - intros pc l Htg El. destruct (on_grows _ _ _ _ _ _ O123 _ _ El) as (l1 & El1 & Hw1). destruct (S5 _ _ Htg El1) as (l2 & El2 & Hw2).
    exists l2. split; [done|]. intros f Hf. by apply Hw2, Hw1.
  - apply (covered_intro idx L Hidx (reg_types_ v1) (line_ (work_line_ v1)) (reg_types_ v0)); try done.
    + eapply extends_trans; [done|]. eapply extends_trans; [apply O123|done].
    + intros F off cond self Eo. destruct (Hb F off cond self Eo) as [_ Hl].
      destruct (lands_onward _ _ _ _ _ _ _ _ _ (lands_onward _ _ _ _ _ _ _ _ _ Hl O2) O3) as (l & El & Hw).
      destruct (tf_branch _ _ _ (fr_targets _ _ Hfr _ Hidx) (branch_extra _ F) _ _ _ Eo) as [_ Htg].
      destruct (S5 _ _ Htg El) as (l2 & El2 & Hw2). exists l2. split; [done|]. intros f Hf. by apply Hw2, Hw.
    + intros F i Hi. destruct (lands_onward _ _ _ _ _ _ _ _ _ (Hs F i Hi) O3) as (l & El & Hw).
      destruct (tf_switch _ _ _ (fr_targets _ _ Hfr _ Hidx) (switch_extra _ F) i Hi) as [_ Htg].
      destruct (S5 _ _ Htg El) as (l2 & El2 & Hw2). exists l2. split; [done|]. intros f Hf. by apply Hw2, Hw.
    + intros F ty h Hh. destruct (Ht F ty h Hh) as (l & El & Hw). destruct (handler_facts ctx Hho b0 Hsv Hfr _ _ _ Hh) as [_ Htg].
      destruct (S5 _ _ Htg El) as (l2 & El2 & Hw2). exists l2. split; [done|]. intros f Hf. apply Hw2, Hw.
      apply (ft_extends hier cls (reg_types_ v0)); [|done|done]. eapply extends_trans; [done|apply O12].
  - intros pc Hpc Hch Hne Htg. destruct (S7 pc Hpc Hch Hne Htg) as (Hcont & Hk & El). split; [|done].
    destruct (Hg Hcont) as (k & Hk' & ->). rewrite Hk in Hk'. injection Hk' as <-. replace (idx + (pc - idx)) with pc by lia.
    symmetry. apply u32_marked. by apply (fi_lines _ _ _ _ _ S1) in El as [? _].
Qed.
End Round.
