(* ===== verification/CodeFlowSound.v ===== *)
(** * Soundness of the code-flow pass

    When both passes accept a method of plain instructions without a failure, the lines the
    code-flow pass records describe every frame the interpreter reaches. *)

From Stdlib Require Import Ascii.
From stdpp Require Import strings.
From S2P Require Import Prelude DexOpcodes DexInstruction ShadowFrame InterpreterBase Interpreter VerifierStatic VerifierProps VerifierTargets InterpreterSafety ClassHierarchy.
From S2P Require Import RegTypes RegTypeProofs RegisterLine RegisterLineProofs.
From S2P Require Import CodeFlowState CodeFlowChecks CodeFlow CodeFlowMono FrameTypes PlainExec CodeFlowStep CodeFlowPlain CodeFlowInstruction CodeFlowEdges CodeFlowInvariant CodeFlowRound.
Import InstructionFlags.

#[local] Abbreviation changed v i := (flag (base v) kChanged i).
#[local] Abbreviation context_handlers := CodeFlowState.handlers_of.

(** ** Flags after a round *)
Lemma is_bit_clear_bit b c f : 0 <= b < 8 -> 0 <= c < 8 -> is_bit b (clear_bit c f) = is_bit b f && negb (b =? c).
Proof.
  intros Hb Hc. rewrite !is_bit_testbit by lia. unfold clear_bit.
  rewrite bits_u8, Z.land_spec, Z.lnot_spec, Z.shiftl_1_l, Z.pow2_bits_eqb by lia. by rewrite (Z.eqb_sym c b).
Qed.
Lemma finish_flags i v u1 v1 u2 v2 :
  UpdateFlags i SetVisited v = Some (u1, v1) -> UpdateFlags i ClearChanged v1 = Some (u2, v2) ->
  v2 = set_base v (base v2) /\ same_verdict (base v) (base v2)
  /\ (forall b j, 0 <= b < 2 -> 0 <= j -> flag (base v2) b j = if j =? i then b =? kVisited else flag (base v) b j).
Proof.
  intros [Hi ->]%UpdateFlags_inv [Hi1 ->]%UpdateFlags_inv. split; [by destruct v|]. split; [by destruct (base v)|].
  intros b j Hb Hj. unfold flag. cbn in *. rewrite rd_wr by (rewrite ?length_wr in *; lia). rewrite (Z.eqb_sym i j).
  destruct (Z.eqb_spec j i) as [->|Hne].
  - unfold ClearChanged. rewrite rd_wr_eq by lia. unfold SetVisited. rewrite is_bit_clear_bit, is_bit_set_bit by (unfold kChanged, kVisited; lia).
    assert (b = kVisited \/ b = kChanged) as [->| ->] by (unfold kVisited, kChanged; lia); [done|]. by rewrite andb_false_r.
  - by rewrite rd_wr_ne by lia.
Qed.

Section Sound.
Context `{VS : VerifierServices} {RS : RuntimeServices} (ctx : MethodContext) (Hok : hier_ok hier) (Hso : services_ok ctx).
Context (cls : Z -> option Class) (Hheap : heap_ok hier cls) (Hho : handlers_ok ctx).
#[local] Abbreviation ci := (code_item_ ctx).
#[local] Abbreviation insns := (insns_ (code_item_ ctx)).
#[local] Abbreviation cache_ok := (cache_ok hier).
#[local] Abbreviation frame_typed := (frame_typed hier cls).
Context (Hci : code_item_ok ci).
Context {PS : PlainServices insns (fun pc h => exists ty, (ty, h) ∈ context_handlers ctx pc)}.
Context (b0 : Verifier) (Hsv : statically_verified ci b0) (Hfr : flow_ready ci b0).
Context (Hplain : forall i, marked b0 i = true -> plain (opcode insns i) = true).
#[local] Abbreviation n := (Z.to_nat (registers_size_ (code_item_ ctx))).
#[local] Abbreviation insn_count := (insns_size_in_code_units_ (code_item_ ctx)).
#[local] Abbreviation target i := (flag b0 kBranchTarget i).
#[local] Abbreviation flow_inv := (flow_inv ctx cls b0).
#[local] Abbreviation mid := (mid ctx cls b0).

Lemma instruction_verified idx L G v guess a v' :
  marked b0 idx = true -> mid idx L G v -> work_insn_idx_ v = idx -> line_ (work_line_ v) = L ->
  CodeFlowVerifyInstruction ctx guess v = Some (a, v') -> good_run v v' ->
  fst a = true /\ exists G', verified ctx cls b0 idx L (snd a) G v G' v'.
Proof.
  intros Hidx M Hi Hw E Hq. unfold CodeFlowVerifyInstruction in E. rsplit E Hq. apply monitors_kept in E0 as ([K1 K2 K3 K4] & K5 & K6).
  rsplit E Hq. injection E0 as <- <-. rewrite K2, Hi in E. rsplit E Hq. pose proof (mi_inv _ _ _ _ _ _ _ M) as I.
  apply (save_line_kept ctx b0) in E0 as (S1 & S2 & S3 & S4 & S5 & S6); [|by rewrite K1; apply I|by rewrite K2].
  rewrite K6, Hw in S6. assert (base v1 = base v) as Eb by congruence. assert (reg_types_ v1 = reg_types_ v) as Et by congruence.
  assert (forall i, marked (base v1) i = true -> plain (opcode insns i) = true) as Hpl.
  { intros i Hm. apply Hplain. rewrite Eb, (marked_static b0 v) in Hm; [done|apply I]. }
  rsplit E Hq. match goal with Hx : good_run v1 v2 |- _ => destruct Hx as [Hqs Hfs] end.
  assert (types_ok (reg_types_ v1) n (line_ (work_line_ v1))) as Hl1 by (rewrite Et, S4, K6; apply I).
  destruct (plain_step ctx Hso cls (ci_units _ Hci) idx v1 a2 v2) as [-> [F1 F2 F3 F4 F5 F6]]; try done; [rewrite Et; apply I|apply Hl1|by apply Hplain|].
  pose proof (not_payload ctx idx v1 v2 _ E0 Hqs) as Hpay. rewrite S4, K6, Hw in F6.
  assert (has_flag (FlagsOf (opcode insns idx)) kBranch || has_flag (FlagsOf (opcode insns idx)) kSwitch = true -> line_ (work_line_ v2) = L) as Hself.
  { intros Hj. apply (jump_same ctx idx) in E0 as ->; [by rewrite S4, K6|done|by apply Hplain|done|done]. }
  rsplit E Hq. injection E1 as <- <-. rewrite (kp_base _ _ F1), Eb in E. rewrite (to_hard _ _ (fi_table _ _ _ _ _ I)), (fi_throw _ _ _ _ _ I) in E.
  cbn [just_set_result negb] in E. rsplit E Hq. injection E1 as <- <-.
  assert (types_ok (reg_types_ v2) n (line_ (work_line_ v2))) as Hl2 by (split; [done|by rewrite F5; apply Hl1]).
  set (w := set_work v2 _) in *. destruct (mid_same ctx cls Hho Hci b0 Hsv Hfr Hplain idx L G v w M) as [M2 Hg]; cbn.
  { by rewrite (kp_base _ _ F1). }
  { by rewrite (kp_table _ _ F1), S2. }
  { done. }
  { by rewrite <- Et. }
  { done. }
  destruct (successors_verified ctx Hok cls Hheap Hho Hci b0 Hsv Hfr Hplain idx L G v1 w guess a v') as [Ha (G' & V)]; try done.
  - rewrite Et. apply (proj1 (mid_types ctx cls b0 _ _ _ _ M)).
  - intros T1 T2. cbn. rewrite (kp_saved _ _ F1). auto.
  - split; [done|]. exists G'. destruct V as [V1 V2 V3 V4 V5]. split; try done. intros pc l Ht El.
    destruct (Hg _ _ El) as (l1 & El1 & Hw1). destruct (V2 _ _ Ht El1) as (l2 & El2 & Hw2). exists l2. split; [done|]. intros f Hf. by apply Hw2, Hw1.
Qed.

(** ** The work list *)
Record ready (guess : Z) (G : lines) (v : vstate) : Prop := {
  re_inv : flow_inv G v;
  re_others : forall pc, 0 <= pc -> changed v pc = true -> target pc = false -> pc = guess /\ G pc = Some (line_ (work_line_ v))
}.

Lemma find_changed_spec k : forall i v a v',
  find_changed ctx k i v = Some (a, v') -> insn_count - i <= Z.of_nat k ->
  v' = v /\ ((i <= a < insn_count /\ changed v a = true /\ forall j, i <= j < a -> changed v j = false)
             \/ (insn_count <= a /\ forall j, i <= j < insn_count -> changed v j = false)).
Proof.
  induction k as [|k IH]; intros i v a v' E Hk; cbn [find_changed] in E.
  { injection E as <- <-. split; [done|]. right. split; [lia|]. lia. }
  destruct (Z.ltb_spec i insn_count) as [Hlt|Hge]; [|injection E as <- <-; split; [done|]; right; split; lia].
  unfold sbind in E. destruct (GetFlags i v) as [[f w]|] eqn:Ef; [|done]. apply GetFlags_same in Ef as (-> & _ & ->).
  change (IsChanged (rd (insn_flags_ (base v)) i)) with (changed v i) in E. destruct (changed v i) eqn:Ec.
  { injection E as <- <-. split; [done|]. left. split; [lia|]. split; [done|lia]. }
  apply IH in E as [-> E]; [|lia]. split; [done|]. destruct E as [(Hr & Ha & Hb)|(Hr & Hb)]; [left|right].
  - split; [lia|]. split; [done|]. intros j Hj. destruct (decide (j = i)) as [->|]; [done|]. apply Hb. lia.
  - split; [lia|]. intros j Hj. destruct (decide (j = i)) as [->|]; [done|]. apply Hb. lia.
Qed.

(** The line of the instruction is loaded. *)
Lemma load_line_mid guess G v idx u v' :
  ready guess G v -> changed v idx = true -> 0 <= idx -> (forall j, 0 <= j -> changed v j = true -> target j = false -> j = idx) ->
  load_line idx v = Some (u, v') ->
  exists L, marked b0 idx = true /\ mid idx L G v' /\ work_insn_idx_ v' = idx /\ line_ (work_line_ v') = L
  /\ base v' = base v /\ reg_types_ v' = reg_types_ v.
Proof.
  intros [I O] Hc Hi Hfirst E. destruct (fi_changed _ _ _ _ _ I idx Hi Hc) as [L EL]. exists L.
  destruct (fi_lines _ _ _ _ _ I idx L EL) as (Hm & HL & _). split; [done|].
  assert (base v' = base v /\ reg_table_ v' = reg_table_ v /\ reg_types_ v' = reg_types_ v /\ work_insn_idx_ v' = idx /\ line_ (work_line_ v') = L)
    as (Eb & Et & Ec & Ei & Ew).
  { unfold load_line, sbind, smod in E. destruct (GetFlags idx _) as [[f w]|] eqn:Ef; [|done]. apply GetFlags_same in Ef as (-> & _ & ->). cbn in E.
    change (IsBranchTarget (rd (insn_flags_ (base v)) idx)) with (flag (base v) kBranchTarget idx) in E.
    rewrite (flag_static b0 v) in E by (done || apply I). destruct (target idx) eqn:Etg.
    - destruct (fi_shape _ _ _ _ _ I idx Hi Etg) as [t Htl]. pose proof (fi_tracked _ _ _ _ _ I idx t Hi Htl) as Htr.
      unfold reached in Htr. rewrite Hc, orb_true_r, EL in Htr. injection Htr as ->. unfold tline in Htl.
      unfold GetLine in E. cbn in E. destruct (reg_table_ v !! Z.to_nat idx) as [[l|]|]; try done. cbn in E. injection Htl as Hll.
      injection E as _ <-. done.
    - injection E as _ <-. cbn. destruct (O idx Hi Hc Etg) as [_ El]. split_and!; try done. congruence. }
  destruct (inv_same ctx cls Hho Hci b0 Hsv Hfr Hplain G v v' I Eb Et) as [I' _].
  { rewrite Ec. apply I. }
  { rewrite Ec. apply extends_refl. }
  { by rewrite Ec, Ew. }
  split_and!; try done. split; [done|done|by rewrite Eb|]. rewrite Eb. intros pc Hpc Hch Hne.
  destruct (target pc) eqn:Etg; [done|]. by destruct Hne; apply Hfirst.
Qed.

(** The instruction is marked as visited. *)
Lemma finish_ready idx L guess G0 v0 G v u1 v1 u2 v2 :
  verified ctx cls b0 idx L guess G0 v0 G v -> 0 <= idx ->
  UpdateFlags idx SetVisited v = Some (u1, v1) -> UpdateFlags idx ClearChanged v1 = Some (u2, v2) ->
  ready guess G v2 /\ reg_types_ v2 = reg_types_ v.
Proof.
  intros [I T C V O] Hi E1 E2. assert (advances v v2) as Ha.
  { etrans; [by eapply (mono (m := UpdateFlags idx SetVisited))|by eapply (mono (m := UpdateFlags idx ClearChanged))]. }
  destruct (finish_flags idx v u1 v1 u2 v2 E1 E2) as (Ev & Hs & Hf). clear E1 E2.
  assert (reg_types_ v2 = reg_types_ v /\ work_line_ v2 = work_line_ v /\ reg_table_ v2 = reg_table_ v) as (Et & Ew & Etab) by (by rewrite Ev).
  assert (forall i, tline v2 i = tline v i) as Etl by (intros i; unfold tline; by rewrite Etab).
  assert (forall pc, 0 <= pc -> pc <> idx -> changed v2 pc = changed v pc /\ reached v2 pc = reached v pc) as Hne.
  { intros pc Hpc Hn. unfold reached. rewrite !Hf by (unfold kVisited, kChanged; lia). by rewrite (proj2 (Z.eqb_neq pc idx)). }
  assert (changed v2 idx = false /\ reached v2 idx = true) as [Hci' Hri].
  { unfold reached. rewrite !Hf by (unfold kVisited, kChanged; lia). by rewrite Z.eqb_refl. }
  destruct I as [[A1 A2 A3] I2 I3 I4 I5 I6 I7 I8]. split; [|done]. split.
  - split; rewrite ?Et, ?Ew; try done.
    + split; [by rewrite Et| |by rewrite Hs]. intros i t. rewrite Etl, Et. apply A2.
    + by rewrite Hs.
    + rewrite <- I3. apply Ha.
    + intros pc Hpc Ht. rewrite Etl. auto.
    + intros pc l El. destruct (I6 pc l El) as (B1 & B2 & B3). split_and!; try done. pose proof (marked_range ctx Hci b0 Hsv _ B1).
      destruct (decide (pc = idx)) as [->|Hn]; [right; congruence|]. by rewrite (proj1 (Hne pc ltac:(lia) Hn)).
    + intros pc t Hpc. rewrite Etl. intros Ht. pose proof (I7 pc t Hpc Ht) as Hg. destruct (decide (pc = idx)) as [->|Hn].
      * rewrite Hri. rewrite C in Hg. destruct (reached v idx); congruence.
      * by rewrite (proj2 (Hne pc Hpc Hn)).
    + intros pc Hpc. destruct (decide (pc = idx)) as [->|Hn]; [by rewrite Hci'|]. rewrite (proj1 (Hne pc Hpc Hn)). auto.
  - intros pc Hpc. destruct (decide (pc = idx)) as [->|Hn]; [by rewrite Hci'|]. rewrite (proj1 (Hne pc Hpc Hn)), Ew. intros Hc Ht. by apply O.
Qed.

(** Targets keep describing the frames they described. *)
Definition targets_land (G : lines) (v : vstate) (G' : lines) (v' : vstate) : Prop :=
  forall pc l, target pc = true -> G pc = Some l -> lands cls (reg_types_ v) l (reg_types_ v') G' pc.

Lemma flow_round_sound guess G v r v' :
  ready guess G v -> flow_round ctx guess v = Some (r, v') -> good_run v v' ->
  match r with
  | inl guess' => exists G', ready guess' G' v' /\ targets_land G v G' v'
  | inr b => b = true /\ v' = v /\ forall pc, 0 <= pc < insn_count -> changed v pc = false
  end.
Proof.
  intros R E Hq. unfold flow_round in E. rsplit E Hq. apply find_changed_spec in E0 as [-> Hfound]; [|lia].
  destruct (Z.eqb_spec a insn_count) as [->|Hne].
  { destruct Hfound as [[? _]|[_ Hnone]]; [lia|]. destruct (Z.eqb_spec guess 0) as [->|Hg]; cbn [negb] in E; injection E as <- <-; [done|].
    exists G. split; [|intros pc l _ El; exists l; split; [done|apply within_refl]]. destruct R as [I O]. split; [done|]. intros pc Hpc Hc Ht.
    destruct (O pc Hpc Hc Ht) as [-> El]. apply (fi_lines _ _ _ _ _ I) in El as [Hm _]. apply (marked_range ctx Hci b0 Hsv) in Hm.
    by rewrite Hnone in Hc by lia. }
  rsplit E Hq. assert (0 <= a < insn_count) as Ha.
  { unfold load_line, sbind, smod in E0. destruct (GetFlags a _) as [[f w]|] eqn:Ef; [|done]. apply GetFlags_same in Ef as (_ & Hr & _). cbn in Hr.
    pose proof (f_equal length (fi_static _ _ _ _ _ (re_inv _ _ _ R))) as El. unfold static_flags in El. rewrite !length_map in El.
    rewrite El, (fr_length _ _ Hfr) in Hr. done. }
  destruct Hfound as [(Hr & Hc & Hfirst)|[? _]]; [|lia].
  destruct (load_line_mid guess G v a a0 v0 R Hc ltac:(lia)) as (L & Hm & M & Hi & Hw & Eb & Et); [|exact E0|].
  { intros j Hj Hcj Htj. destruct (re_others _ _ _ R j Hj Hcj Htj) as [-> _]. destruct (decide (guess = a)) as [|Hn]; [done|].
    by rewrite Hfirst in Hcj by lia. }
  rsplit E Hq. match goal with Hx : good_run v0 v1 |- _ => destruct (instruction_verified a L G v0 guess _ v1 Hm M Hi Hw E1 Hx) as [Hok' (G' & V)] end.
  rewrite Hok' in E. cbn [negb] in E. rsplit E Hq. rsplit E Hq. injection E as <- <-.
  destruct (finish_ready _ _ _ _ _ _ _ _ _ _ _ V ltac:(lia) E2 E3) as [R' Et']. exists G'. split; [done|].
  intros pc l Ht El. rewrite Et', <- Et. by apply (ve_targets _ _ _ _ _ _ _ _ _ _ V).
Qed.

Lemma flow_loop_sound fuel : forall guess G v b v',
  ready guess G v -> flow_loop ctx fuel guess v = Some (b, v') -> good_run v v' ->
  b = true /\ exists G', flow_inv G' v' /\ targets_land G v G' v' /\ forall pc, 0 <= pc < insn_count -> changed v' pc = false.
Proof.
  induction fuel as [|fuel IH]; intros guess G v b v' R E Hq; cbn [flow_loop] in E; rsplit E Hq;
    match goal with Hx : good_run v ?w, Er : flow_round ctx guess v = Some (?r, ?w) |- _ =>
      pose proof (flow_round_sound _ _ _ _ _ R Er Hx) as Hr; destruct r as [g|b1] end.
  1: done.
  2: { destruct Hr as (G1 & R1 & T1). destruct (IH _ _ _ _ _ R1 E Hq) as [-> (G2 & I2 & T2 & Hn)]. split; [done|]. exists G2. split_and!; try done.
       intros pc l Ht El. destruct (T1 pc l Ht El) as (l1 & El1 & Hw1). destruct (T2 pc l1 Ht El1) as (l2 & El2 & Hw2).
       exists l2. split; [done|]. intros f Hf. by apply Hw2, Hw1. }
  all: destruct Hr as (-> & -> & Hn); injection E as <- <-; split; [done|]; exists G; split_and!; [apply R| |done].
  all: intros pc l _ El; exists l; split; [done|apply within_refl].
Qed.
End Sound.
