(* ===== verification/CodeFlowEntry.v ===== *)
(** * The signature in the code-flow pass

    [SetTypesFromSignature] writes the types of the arguments into the line of the first
    instruction and keeps everything else: the flags, the other lines, the work line. *)

From Stdlib Require Import Ascii.
From stdpp Require Import strings.
From S2P Require Import Prelude DexOpcodes DexInstruction ShadowFrame InterpreterBase VerifierStatic VerifierProps VerifierTargets ClassHierarchy.
From S2P Require Import RegTypes RegTypeProofs RegTypeTheorems RegisterLine RegisterLineProofs.
From S2P Require Import CodeFlowState CodeFlowChecks CodeFlow CodeFlowMono FrameTypes CodeFlowStep CodeFlowPlain CodeFlowEdges CodeFlowInvariant.

Section Entry.
Context `{VS : VerifierServices} (ctx : MethodContext) (Hso : services_ok ctx) (n : nat).
#[local] Abbreviation cache_ok := (cache_ok hier).

(** The class of a type of the cache is loaded. *)
Lemma valid_loaded c i k : cache_ok c -> valid c i -> klass_ (GetFromId c i) = Some k -> loaded hier k.
Proof.
  intros Hc Hv Hk. pose proof (get_lookup c i Hv) as El. destruct (le_lt_dec primitive_count_ i) as [Hi|Hi].
  - pose proof (k_entries _ c Hc i _ El Hi) as He. by destruct (GetFromId c i); cbn in *; simplify_eq; try done; destruct He.
  - assert (FillPrimitiveAndSmallConstantTypes !! i = Some (GetFromId c i)) as Ef.
    { rewrite <- (k_prefix _ c Hc), lookup_take_lt by done. done. }
    assert (Forall (fun t => forall k, klass_ t = Some k -> loaded hier k) FillPrimitiveAndSmallConstantTypes) as Hf.
    { repeat constructor; by intros k' [= <-]. }
    by eapply (Forall_lookup_1 _ _ _ _ Hf Ef).
Qed.

(** The state while the signature is read. *)
Record opening (v : vstate) : Prop := {
  op_cache : cache_ok (reg_types_ v);
  op_first : exists t, tline v 0 = Some t /\ types_ok (reg_types_ v) n t;
  op_resolved : forall i k, resolved_types v !! i = Some k -> loaded hier k;
  op_declaring : forall i, declaring_class_ v = Some i -> valid (reg_types_ v) i
}.
Record opens (v v' : vstate) : Prop := {
  os_opening : opening v';
  os_base : base v' = base v;
  os_types : extends (reg_types_ v) (reg_types_ v');
  os_work : work_line_ v' = work_line_ v;
  os_lines : forall i, 0 < i -> tline v' i = tline v i
}.
Lemma opens_refl v : opening v -> opens v v.
Proof. split; [done|done|apply extends_refl|done|done]. Qed.
Lemma opens_trans u v w : opens u v -> opens v w -> opens u w.
Proof.
  intros [A1 A2 A3 A4 A5] [B1 B2 B3 B4 B5]. split; [done|congruence|by eapply extends_trans|congruence|].
  intros i Hi. by rewrite B5, A5.
Qed.

Lemma opens_types v c : opening v -> cache_ok c -> extends (reg_types_ v) c -> opens v (set_types v c).
Proof.
  intros [A1 (t & Et & Ht) A3 A4] Hc He. split; try done. split; try done.
  - exists t. split; [done|by eapply types_ok_extends].
  - intros i Hi. eapply valid_extends; [done|by apply A4].
Qed.
Lemma opens_on_types f (P : RegType -> Prop) v i v' :
  opening v -> returns hier (reg_types_ v) (f (reg_types_ v)) P -> on_types f v = Some (i, v') -> opens v v' /\ valid (reg_types_ v') i.
Proof.
  intros Ho. unfold on_types. destruct (f (reg_types_ v)) as [j c']. intros (H1 & H2 & H3 & _) [= <- <-]. cbn in *.
  split; [by apply opens_types|done].
Qed.
Lemma opens_class desc k precise v i v' :
  opening v -> loaded hier k -> on_types (fun c => FromClass hier c desc k precise) v = Some (i, v') -> opens v v' /\ valid (reg_types_ v') i.
Proof. intros Ho Hk. eapply opens_on_types; [done|]. apply FromClass_ok; [apply Ho|done]. Qed.
Lemma opens_descriptor desc v i v' : opening v -> FromDescriptor_ desc v = Some (i, v') -> opens v v' /\ valid (reg_types_ v') i.
Proof. intros Ho. eapply opens_on_types; [done|]. apply FromDescriptor_ok; [|apply Ho]. intros d k. apply (so_resolve _ Hso). Qed.

Lemma declaring_opens v i v' :
  opening v -> GetDeclaringClass ctx v = Some (i, v') -> quiet v v' -> opens v v' /\ valid (reg_types_ v') i.
Proof.
  intros Ho E Hq. unfold GetDeclaringClass in E. qsplit E Hq. injection E0 as <- <-.
  destruct (declaring_class_ v) as [j|] eqn:Ed; [injection E as <- <-; split; [by apply opens_refl|by apply Ho]|].
  qsplit E Hq. cbn in E. injection E as -> <-.
  assert (opens v v0 /\ valid (reg_types_ v0) i) as [[O1 O2 O3 O4 O5] Hv].
  { destruct (mirror_method_ ctx) as [m|] eqn:Em; [|by eapply opens_descriptor].
    unfold type_of_class, VerifierFromClass in E0. match goal with Hx : quiet v v0 |- _ => qsplit E0 Hx end.
    apply fail_if_quiet in E as [_ ->]; [|done]. eapply opens_class; [done| |exact E0]. by eapply (so_declaring _ Hso). }
  split; [|done]. split; try done. destruct O1 as [P1 P2 P3 P4]. split; try done. cbn. by intros ? [= <-].
Qed.

Lemma resolve_opens idx v i v' :
  opening v -> ResolveClassAndCheckAccess ctx idx v = Some (i, v') -> quiet v v' -> opens v v' /\ valid (reg_types_ v') i.
Proof.
  intros Ho E Hq. unfold ResolveClassAndCheckAccess in E. qsplit E Hq. injection E0 as <- <-. qsplit E Hq.
  assert (opens v v0 /\ valid (reg_types_ v0) a) as [O1 Hv].
  { destruct (resolved_types v !! idx) as [k|] eqn:Ek; [|by eapply opens_descriptor].
    destruct (_ && _); [match goal with Hx : quiet v v0 |- _ => qsplit E0 Hx end; by apply Fail_loud in E1|].
    eapply opens_class; [done|by eapply (op_resolved _ Ho)|exact E0]. }
  clear E0. qsplit E Hq. injection E0 as <- <-. destruct (IsConflict _); [qsplit E Hq; by apply Fail_loud in E0|].
  qsplit E Hq. assert (opens v0 v1 /\ reg_types_ v1 = reg_types_ v0) as [O2 Et].
  { destruct O1 as [P _ _ _ _]. destruct (resolved_types v !! idx); [injection E0 as _ <-; split; [by apply opens_refl|done]|].
    destruct (negb _); [|injection E0 as _ <-; split; [by apply opens_refl|done]].
    match goal with Hx : quiet v0 v1 |- _ => qsplit E0 Hx end. unfold or_abort in E1. destruct (klass_ (GetFromId (reg_types_ v0) a)) as [k|] eqn:Ek; [|done].
    injection E1 as <- <-. injection E0 as _ <-. split; [|done]. split; try done; [|apply extends_refl]. destruct P as [P1 P2 P3 P4]. split; try done.
    cbn. intros j k'. destruct (decide (j = idx)) as [->|Hne]; [rewrite lookup_insert_eq; intros [= <-]; by eapply valid_loaded|].
    rewrite lookup_insert_ne by done. apply P3. }
  clear E0. qsplit E Hq. injection E as <- <-. pose proof (opens_trans _ _ _ O1 O2) as O12. rewrite <- Et in Hv. rename E0 into E1.
  assert (opens v1 v2) as O3; [|split; [by eapply opens_trans|eapply valid_extends; [apply O3|done]]].
  destruct (_ && _); [|injection E1 as _ <-; by apply opens_refl, O12].
  match goal with Hx : quiet v1 v2 |- _ => qsplit E1 Hx; apply declaring_opens in E as [O3 _]; [|apply O12|done] end.
  match goal with Hx : quiet _ v2 |- _ => qsplit E1 Hx end. injection E as <- <-. destruct (IsUnresolvedTypes _); [by injection E1 as _ <-|].
  match goal with Hx : quiet _ v2 |- _ => qsplit E1 Hx end. injection E as <- <-.
  match goal with Hx : quiet _ v2 |- _ => qsplit E1 Hx end. unfold or_abort in E. destruct (CanAccess _ _ _) as [b|]; [|done]. injection E as <- <-.
  apply fail_if_quiet in E1 as [_ ->]; done.
Qed.

(** ** Registers of the first line *)
Lemma fail_bad {A} e (k : unit -> CM A) `{!forall u, Mono (k u)} v a v' :
  sbind (CodeFlowState.Fail ctx e) k v = Some (a, v') -> good_run v v' -> False.
Proof. intros E Hq. apply good_bind in E as (u & v1 & E1 & [Hq1 _] & _); [|apply _..|done]. by eapply Fail_loud. Qed.
Lemma first_opens {A} (m : LM A) `{!LMono m} v u v' :
  opening v ->
  (forall l a s, m (mkLS (reg_types_ v) l []) = Some (a, s) -> errors s = [] -> types_ok (reg_types_ v) n (line_ l) ->
     types s = reg_types_ v /\ types_ok (reg_types_ v) n (line_ (line s))) ->
  on_first ctx m v = Some (u, v') -> quiet v v' -> opens v v'.
Proof.
  intros Ho Hm E Hq. unfold on_first in E. qsplit E Hq. apply GetLine_inv in E0 as [-> Etab]. qsplit E Hq. unfold or_abort in E0.
  destruct a as [l|]; [|done]. injection E0 as <- <-. qsplit E Hq. injection E as _ <-. apply run_line_quiet in E0 as (s & Em & Ee & El & ->); [|done].
  destruct Ho as [A1 (t & Et & Ht) A3 A4]. assert (line_ l = t) as Elt by (unfold tline in Et; rewrite Etab in Et; by injection Et).
  rewrite <- Elt in Ht. destruct (Hm l _ s Em Ee Ht) as [Es Hs]. rewrite Es, set_types_same. rewrite El.
  assert (forall j, 0 <= j -> tline (set_table v (<[Z.to_nat 0 := Some (line s)]> (reg_table_ v))) j = if j =? 0 then Some (line_ (line s)) else tline v j) as Htl.
  { intros j Hj. apply tline_put; [done|done|by eexists]. }
  split; try done; [|apply extends_refl|].
  - split; try done. exists (line_ (line s)). by rewrite Htl.
  - intros i Hi. rewrite Htl by lia. by rewrite (proj2 (Z.eqb_neq i 0)) by lia.
Qed.

Lemma first_register v arg t u v' :
  opening v -> valid (reg_types_ v) t -> on_first ctx (SetRegisterType kClear arg t) v = Some (u, v') -> good_run v v' -> opens v v'.
Proof.
  intros Ho Hv E [Hq Hf]. assert (fits (reg_types_ v)) as Hfv.
  { eapply fits_before; [|exact Hf]. eapply adv_types, (mono (m := on_first ctx (SetRegisterType kClear arg t))); exact E. }
  eapply (first_opens (SetRegisterType kClear arg t)); [done| |exact E|done]. intros l a s Em Ee [Hl Hn]. apply set_quiet in Em as [_ ->]; [|done]. cbn.
  split; [done|]. rewrite (stored_id_valid _ _ Hfv Hv). split; [by apply Forall_insert|by rewrite length_insert].
Qed.
Lemma first_wide v arg t1 t2 u v' :
  opening v -> valid (reg_types_ v) t1 -> valid (reg_types_ v) t2 ->
  on_first ctx (SetRegisterTypeWide arg t1 t2) v = Some (u, v') -> good_run v v' -> opens v v'.
Proof.
  intros Ho Hv1 Hv2 E [Hq Hf]. assert (fits (reg_types_ v)) as Hfv.
  { eapply fits_before; [|exact Hf]. eapply adv_types, (mono (m := on_first ctx (SetRegisterTypeWide arg t1 t2))); exact E. }
  eapply (first_opens (SetRegisterTypeWide arg t1 t2)); [done| |exact E|done]. intros l a s Em Ee [Hl Hn]. apply set_wide_quiet in Em as [_ ->]; [|done]. cbn.
  split; [done|]. rewrite (stored_id_valid _ _ Hfv Hv1), (stored_id_valid _ _ Hfv Hv2). split; [by repeat apply Forall_insert|by rewrite !length_insert].
Qed.

Lemma set_this_opens arg v u v' :
  IsConstructor ctx = false -> opening v -> set_this ctx arg v = Some (u, v') -> good_run v v' -> opens v v'.
Proof.
  intros Hcons Ho E Hq. unfold set_this in E. rewrite Hcons in E. rsplit E Hq.
  match goal with Hx : good_run v v0 |- _ => destruct (declaring_opens _ _ _ Ho E0 (proj1 Hx)) as [O Hv] end.
  rsplit E Hq. injection E1 as <- <-. eapply opens_trans; [exact O|]. eapply first_register; [apply O|done|exact E|done].
Qed.

Lemma set_params_opens params : forall arg_start cur expected v a v',
  opening v -> set_params ctx params arg_start cur expected v = Some (a, v') -> good_run v v' -> opens v v'.
Proof.
  induction params as [|ty params IH]; intros arg_start cur expected v a v' Ho E Hq; cbn [set_params] in E.
  { injection E as <- <-. by apply opens_refl. }
  assert (forall w, good_run w v' -> sbind (CodeFlowState.Fail ctx VERIFY_ERROR_BAD_CLASS_HARD) (fun _ => sret None) w = Some (a, v') -> False) as Hbad.
  { intros w Hw Ew. exact (fail_bad _ _ _ _ _ Ew Hw). }
  assert (forall w t, opening w -> valid (reg_types_ w) t -> good_run w v' ->
    sbind (on_first ctx (SetRegisterType kClear (arg_start + cur) t)) (fun _ => set_params ctx params arg_start (cur + 1) expected) w = Some (a, v') -> opens w v') as Hone.
  { intros w t Hw Ht Hg Ew. rsplit Ew Hg. assert (opens w v0) as O1 by (eapply first_register; [exact Hw|exact Ht|exact E0|done]).
    eapply opens_trans; [exact O1|]. eapply IH; [apply O1|exact Ew|done]. }
  assert (forall i t, FillPrimitiveAndSmallConstantTypes !! i = Some t -> valid (reg_types_ v) i) as Hpre.
  { intros i t Ht. by eapply prefix_get; [apply Ho|]. }
  assert (forall t1 t2, valid (reg_types_ v) t1 -> valid (reg_types_ v) t2 ->
    (if expected <=? cur + 1 then sbind (CodeFlowState.Fail ctx VERIFY_ERROR_BAD_CLASS_HARD) (fun _ => sret None)
     else sbind (on_first ctx (SetRegisterTypeWide (arg_start + cur) t1 t2)) (fun _ => set_params ctx params arg_start (cur + 2) expected)) v = Some (a, v') -> opens v v') as Htwo.
  { intros t1 t2 H1 H2 Ew. destruct (expected <=? cur + 1); [by apply Hbad in Ew|]. rsplit Ew Hq.
    assert (opens v v0) as O1 by (eapply first_wide; [exact Ho|exact H1|exact H2|exact E0|done]). eapply opens_trans; [exact O1|]. eapply IH; [apply O1|exact Ew|done]. }
  destruct (expected <=? cur); [by apply Hbad in E|].
  assert (sbind (ResolveClassAndCheckAccess ctx ty) (fun reg_type => sbind (type_at reg_type) (fun t =>
    if negb (IsNonZeroReferenceTypes t) then sret None
    else sbind (on_first ctx (SetRegisterType kClear (arg_start + cur) reg_type)) (fun _ => set_params ctx params arg_start (cur + 1) expected))) v = Some (a, v') ->
    opens v v') as Href.
  { intros Er. rsplit Er Hq. match goal with Hx : good_run v v0 |- _ => destruct (resolve_opens _ _ _ _ Ho E0 (proj1 Hx)) as [O Hv] end.
    rsplit Er Hq. injection E1 as <- <-. destruct (negb _); [by injection Er as _ <-|]. eapply opens_trans; [exact O|].
    eapply Hone; [apply O|exact Hv|done|exact Er]. }
  clear IH. repeat (match type of E with (match ?x with _ => _ end) _ = _ => lazymatch x with _ <=? _ => fail | _ => destruct x end end; try (by apply Hbad in E)).
  all: lazymatch type of E with
    | sbind (ResolveClassAndCheckAccess _ _) _ _ = _ => by apply Href
    | sbind (on_first _ _) _ _ = _ => eapply (Hone v _ Ho); [|exact Hq|exact E]; by eapply Hpre
    | _ => eapply Htwo; [| |exact E]; by eapply Hpre
    end.
Qed.

Lemma signature_opens v b v' :
  IsInstanceConstructor ctx = false -> opening v -> SetTypesFromSignature ctx v = Some (b, v') -> good_run v v' -> opens v v'.
Proof.
  intros Hc Ho E Hq. unfold SetTypesFromSignature in E.
  destruct (negb (IsStatic ctx) && _); [by destruct (fail_bad _ _ _ _ _ E Hq)|].
  rsplit E Hq. assert (opens v v0) as O1.
  { destruct (IsStatic ctx) eqn:Es; cbn [negb] in E0; [injection E0 as _ <-; by apply opens_refl|].
    eapply set_this_opens; [|done|exact E0|done]. unfold IsInstanceConstructor in Hc. rewrite Es in Hc. by rewrite andb_true_r in Hc. }
  rsplit E Hq. assert (opens v0 v1) as O2 by (eapply set_params_opens; [apply O1|exact E1|done]).
  pose proof (opens_trans _ _ _ O1 O2) as O12. destruct a0 as [cur|]; [|by injection E as _ <-].
  match type of E with (if ?x then _ else _) _ = _ => destruct x end; [by destruct (fail_bad _ _ _ _ _ E Hq)|].
  rsplit E Hq. injection E as _ <-. apply fail_if_quiet in E2 as [_ ->]; [done|]. match goal with Hx : good_run v1 v2 |- _ => apply Hx end.
Qed.
End Entry.

(** ** The start of the work list *)

(** The state [VerifyCodeFlow] makes before it reads the signature. *)
Definition init_flow (ctx : MethodContext) (v : vstate) : vstate :=
  let registers_size := registers_size_ (code_item_ ctx) in
  set_saved (set_work (set_table v (InitTable (insn_flags_ (base v)) registers_size)) (NewRegisterLine registers_size))
    (NewRegisterLine registers_size).
Lemma VerifyCodeFlow_split `{VS : VerifierServices} ctx fuel v :
  VerifyCodeFlow ctx fuel v
  = sbind (SetTypesFromSignature ctx) (fun ok => if negb ok then sret false else sbind (set_runtime_throw false) (fun _ => CodeFlowVerifyMethod ctx fuel))
      (init_flow ctx v).
Proof. done. Qed.

Section Start.
Context `{VS : VerifierServices} {RS : RuntimeServices} (ctx : MethodContext) (Hso : services_ok ctx).
Context (cls : Z -> option Class) (Hci : code_item_ok (code_item_ ctx)).
Context (b0 : Verifier) (Hsv : statically_verified (code_item_ ctx) b0) (Hfr : flow_ready (code_item_ ctx) b0).
Context (Hhard : have_pending_hard_failure_ b0 = false) (Hcons : IsInstanceConstructor ctx = false).
#[local] Abbreviation cache_ok := (cache_ok hier).
#[local] Abbreviation n := (Z.to_nat (registers_size_ (code_item_ ctx))).

(** What the pass starts from: the flags of the static checks, a cache that is well formed, and a
    dex cache of loaded classes. *)
Record startable (v : vstate) : Prop := {
  st_base : base v = b0;
  st_cache : cache_ok (reg_types_ v);
  st_resolved : forall i k, resolved_types v !! i = Some k -> loaded hier k;
  st_declaring : forall i, declaring_class_ v = Some i -> valid (reg_types_ v) i
}.

Lemma target_in i : 0 <= i -> flag b0 InstructionFlags.kBranchTarget i = true -> exists f, insn_flags_ b0 !! Z.to_nat i = Some f /\ interesting f = true.
Proof.
  intros Hi Ht. unfold flag in Ht. rewrite rd_lookup in Ht. destruct (insn_flags_ b0 !! Z.to_nat i) as [f|]; [|done].
  exists f. split; [done|]. unfold interesting. cbn in Ht. change (InstructionFlags.IsBranchTarget f = true) in Ht. rewrite Ht. apply orb_true_r.
Qed.
Lemma new_line_ok c : cache_ok c -> types_ok c n (line_ (NewRegisterLine (registers_size_ (code_item_ ctx)))).
Proof.
  intros Hc. cbn. split; [|apply length_replicate]. apply Forall_replicate.
  by eapply (proj2 (prefix_get hier c Undefined UndefinedType Hc eq_refl)).
Qed.
Lemma init_lines v i t : base v = b0 -> tline (init_flow ctx v) i = Some t -> t = line_ (NewRegisterLine (registers_size_ (code_item_ ctx))).
Proof.
  intros Eb. unfold tline, init_flow, InitTable. cbn. rewrite list_lookup_fmap. destruct (_ !! _) as [f|]; [|done]. cbn.
  destruct (interesting f); [|done]. by intros [= <-].
Qed.
Lemma init_shape v i : base v = b0 -> 0 <= i -> flag b0 InstructionFlags.kBranchTarget i = true -> is_Some (tline (init_flow ctx v) i).
Proof.
  intros Eb Hi Ht. destruct (target_in i Hi Ht) as (f & Ef & Hf). unfold tline, init_flow, InitTable. cbn.
  rewrite list_lookup_fmap, Eb, Ef. cbn. rewrite Hf. by eexists.
Qed.
Lemma init_opening v : startable v -> opening n (init_flow ctx v).
Proof.
  intros [A1 A2 A3 A4]. split; try done. destruct (init_shape v 0 A1 ltac:(lia) (fr_entry _ _ Hfr)) as [t Ht].
  exists t. split; [done|]. apply init_lines in Ht as ->; [|done]. by apply new_line_ok.
Qed.

(** The work list starts with the first instruction. *)
Lemma start_ready v v1 u v2 t0 :
  startable v -> opens n (init_flow ctx v) v1 -> tline v1 0 = Some t0 ->
  sbind (set_runtime_throw false) (fun _ => UpdateFlags 0 InstructionFlags.SetChanged) v1 = Some (u, v2) ->
  flow_inv ctx cls b0 (set_at (fun _ => None) 0 t0) v2
  /\ (forall pc, 0 <= pc -> flag (base v2) InstructionFlags.kChanged pc = true -> pc = 0) /\ reg_types_ v2 = reg_types_ v1.
Proof.
  intros S O Et E. cbn in E. unfold sbind, set_runtime_throw, smod in E. apply UpdateFlags_inv in E as [Hi ->]. cbn in Hi.
  pose proof (os_base _ _ _ O) as Eb. cbn in Eb. rewrite (st_base _ S) in Eb. rewrite Eb in *.
  destruct O as [[P1 (t & P2 & P3) P4 P5] _ _ Ew El]. rewrite Et in P2. injection P2 as <-.
  set (w := set_base _ _). assert (forall i, tline w i = tline v1 i) as Etl by done.
  assert (forall b j, 0 <= b < 8 -> 0 <= j -> flag (base w) b j = ((j =? 0) && (b =? InstructionFlags.kChanged)) || flag b0 b j) as Hf.
  { intros b j Hb Hj. cbn. unfold InstructionFlags.SetChanged. by rewrite <- flag_update by done. }
  assert (forall i, 0 <= i -> flag (base w) InstructionFlags.kChanged i = (i =? 0)) as Hch.
  { intros i Hi'. rewrite Hf by done. rewrite (proj2 (fr_fresh _ _ Hfr i Hi')). destruct (i =? 0); done. }
  pose proof (ci_size _ Hci) as Hsz. assert (marked b0 0 = true) as Hm0 by (apply (sv_marks _ _ Hsv); split; [constructor|lia]).
  split; [|split; [intros pc Hpc; rewrite Hch by done; lia|done]].
  assert (forall i l, tline w i = Some l -> types_ok (reg_types_ v1) n l) as Hlines.
  { intros i l. rewrite Etl. destruct (Z.ltb_spec 0 i) as [Hp|Hp].
    - rewrite El by done. intros Hl. apply init_lines in Hl as ->; [|apply S]. by apply new_line_ok.
    - unfold tline. rewrite Z2Nat.nonpos by lia. change 0%nat with (Z.to_nat 0). fold (tline v1 0). rewrite Et. by intros [= <-]. }
  split; try done.
  - cbn. apply static_wr; [lia|]. apply static_set. by right.
  - cbn. rewrite Ew. by apply new_line_ok.
  - intros pc Hpc Ht. rewrite Etl. destruct (Z.eqb_spec pc 0) as [->|]; [by eexists|]. rewrite El by lia. apply init_shape; [apply S|done|done].
  - intros pc l. unfold set_at. destruct (Z.eqb_spec pc 0) as [->|]; [|done]. intros [= <-]. split_and!; [done|done|]. left. by rewrite Hch.
  - intros pc l Hpc Hl. unfold set_at, reached. rewrite Hch, Hf, (proj1 (fr_fresh _ _ Hfr pc Hpc)) by done.
    destruct (Z.eqb_spec pc 0) as [->|]; [|done]. cbn. rewrite Etl in Hl. congruence.
  - intros pc Hpc. rewrite Hch by done. unfold set_at. destruct (Z.eqb_spec pc 0); [by eexists|done].
Qed.
End Start.
