(* ===== verification/CodeFlowTheorems.v ===== *)
(** * Properties of the code-flow pass *)

From Stdlib Require Import Ascii.
From stdpp Require Import strings.
From S2P Require Import Prelude DexOpcodes DexInstruction ShadowFrame InterpreterBase Interpreter VerifierStatic VerifiedExecution.
From S2P Require Import ClassHierarchy RegTypes RegTypeProofs RegisterLine RegisterLineProofs CodeFlowState CodeFlowChecks CodeFlow.

(** ** A sample program *)
Module SampleFlow.
(** The classes of [sample_hierarchy] by descriptor, and the type indices of the dex file. *)
Definition resolve (d : string) : option Class :=
  if bool_decide (d = "Ljava/lang/Object;"%string) then Some (Named 0)
  else if bool_decide (d = "LA;"%string) then Some (Named 2)
  else if bool_decide (d = "LB;"%string) then Some (Named 3)
  else if bool_decide (d = "LC;"%string) then Some (Named 4)
  else None.
Definition type_descriptor (i : Z) : string :=
  if i =? 0 then "Ljava/lang/Object;" else if i =? 1 then "LB;" else "LA;".

(** Methods of class [A] with one parameter, of type [param], and the given return type. *)
#[local] Instance services (param : Z) (return_descriptor : string) : VerifierServices := {|
  hier := sample_hierarchy;
  ResolveClassIn _ := resolve;
  class_loader_ := 0;
  ResolveType i := resolve (type_descriptor i);
  IsValidDescriptor _ := true;
  IsErroneous _ := false;
  GetClassLoader _ := 0;
  java_lang_Throwable := Named 4;
  java_lang_String := Named 4;
  java_lang_Class := Named 4;
  FindDirectMethod _ _ := None;
  FindVirtualMethod _ _ := None;
  FindInterfaceMethod _ _ := None;
  ResolveFieldJLS _ := None;
  HasVTable _ := false;
  GetVTableLength _ := 0;
  GetVTableEntry _ _ := None;
  FindInstanceFieldWithOffset _ _ := None;
  instance_fields _ := [];
  descriptor_by_type_idx := type_descriptor;
  method_class_idx _ := 2;
  GetMethodName _ := "m";
  method_param_descriptors _ := [Some (type_descriptor param)];
  method_param_types _ := [param];
  method_return_descriptor _ := return_descriptor;
  field_class_idx _ := 0;
  GetFieldTypeDescriptor _ := "I";
  GetVersion := 35
|}.

Definition static_method (c : CodeItem) : MethodContext :=
  mkContext c 0 0 0 [] kAccStatic false None (fun _ => []) [] false true true true CodeFlowState.kDexNoIndex.
Definition dex : DexFile := mkDexFile 3 3 3 3 (fun _ => []).
Definition fresh : Verifier := mkVerifier [] [] false false false false false 0 0.
Definition start_of (b : Verifier) : vstate :=
  mkV b NewRegTypeCache CodeFlowState.kDexNoIndex (NewRegisterLine 0) (NewRegisterLine 0) [] ∅ ∅ None None false None.

(** Both passes on a method: the result and the state. *)
Definition verify (param : Z) (return_descriptor : string) (fuel : nat) (c : CodeItem) : option (bool * vstate) :=
  match VerifyStatic c dex false true true false fresh with
  | Some (true, b) => @VerifyCodeFlow (services param return_descriptor) (static_method c) fuel (start_of b)
  | _ => None
  end.
End SampleFlow.

(** ** The refinement after [instance-of] *)

(** [static B m(Object o)]: [move-object v0, v1; instance-of v1, v0, B; if-eqz v1, +3;
    return-object v1; const/4 v0, #0; return-object v0]. *)
Definition confused : CodeItem :=
  mkCodeItem 2 1 8 (units_of [0x1007; 0x0120; 0x0001; 0x0138; 0x0003; 0x0111; 0x0012; 0x0011]) 0 [] [].
(** A heap with one object, of class [B], at 8. *)
Definition one_object (v : Z) : option Class := if v =? 8 then Some (Named 3) else None.
(** The interpreter called with that object. *)
Definition called_with (n x : Z) : state :=
  mkState (SetVRegReference (CreateShadowFrameImpl n 0) (n - 1) x) 0 0 ∅.

Lemma one_object_ok : heap_ok sample_hierarchy one_object.
Proof.
  intros v k. unfold one_object. destruct (Z.eqb_spec v 8) as [->|]; [|done]. intros [= <-].
  split; [done|]. split; [by eexists|done].
Qed.

(** C37. The refinement of the type after [instance-of] confuses an integer with a reference.  The
    source of the move before [instance-of] gets the type of the test even when [instance-of]
    writes its result to that register.  Both passes accept such a method without a failure, with
    type [B] for register 1 before the [return-object] at 5; the interpreter gets there, called
    with an instance of [B], with the integer 1 in that register, which is no value of type [B]. *)
Theorem instance_of_confusion :
  match SampleFlow.verify 0 "LB;" 100 confused with
  | Some (b, v) =>
      b = true /\ failures_ (base v) = []
      /\ exists l i st,
           reg_table_ v !! 5%nat = Some (Some l) /\ line_ l !! 1%nat = Some i
           /\ GetFromId (reg_types_ v) i = ReferenceType (Named 3) "LB;"
           /\ steps (insns_ confused) (called_with 2 8, 0) (st, 5)
           /\ GetVReg (frame st) 1 = 1 /\ ~ gamma sample_hierarchy one_object (GetFromId (reg_types_ v) i) 1
  | None => False
  end.
Proof.
  destruct (SampleFlow.verify 0 "LB;" 100 confused) as [[b v]|] eqn:E; [|by vm_compute in E].
  vm_compute in E. injection E as <- <-. split; [done|]. split; [done|].
  do 3 eexists. split; [done|]. split; [done|]. split; [done|].
  split; [|split; [|intros [|(o & Ho & _)]; done]].
  - do 3 (eapply steps_next; [by vm_compute|]). apply steps_refl.
  - done.
Qed.
