(* ===== verification/TypedExecution.v ===== *)
(** * Execution of verified code in typed frames

    The theorem that ties the code-flow pass to the interpreter, with a small method on which its
    hypotheses hold. *)

From Stdlib Require Import Ascii.
From stdpp Require Import strings.
From S2P Require Import Prelude DexOpcodes DexInstruction ShadowFrame InterpreterBase Interpreter VerifierStatic VerifierProps VerifierTargets InterpreterSafety ClassHierarchy.
From S2P Require Import RegTypes RegTypeProofs RegisterLine RegisterLineProofs.
From S2P Require Import CodeFlowState CodeFlowChecks CodeFlow CodeFlowMono FrameTypes PlainExec CodeFlowStep CodeFlowPlain CodeFlowInstruction CodeFlowEdges CodeFlowInvariant CodeFlowRound CodeFlowSound CodeFlowEntry CodeFlowTheorems.

#[local] Abbreviation context_handlers := CodeFlowState.handlers_of.

Section Typed.
Context `{VS : VerifierServices} {RS : RuntimeServices} (ctx : MethodContext).
Context (cls : Z -> option Class).
#[local] Abbreviation ci := (code_item_ ctx).
#[local] Abbreviation insns := (insns_ (code_item_ ctx)).

(** The work list ends with lines that describe every step. *)
Lemma flow_fixpoint {PS : PlainServices insns (fun pc h => exists ty, (ty, h) ∈ context_handlers ctx pc)} b0 fuel v v1 v' l :
  hier_ok hier -> services_ok ctx -> heap_ok hier cls -> handlers_ok ctx -> code_item_ok ci ->
  statically_verified ci b0 -> flow_ready ci b0 -> (forall i, marked b0 i = true -> plain (opcode insns i) = true) ->
  have_pending_hard_failure_ b0 = false -> IsInstanceConstructor ctx = false -> startable b0 v ->
  SetTypesFromSignature ctx (init_flow ctx v) = Some (true, v1) -> tline v1 0 = Some l ->
  VerifyCodeFlow ctx fuel v = Some (true, v') -> good_run v v' ->
  exists G, flow_inv ctx cls b0 G v' /\ lands cls (reg_types_ v1) l (reg_types_ v') G 0
    /\ forall pc l, G pc = Some l -> covered ctx cls (reg_types_ v') G pc l.
Proof.
  intros Hok Hso Hheap Hho Hci Hsv Hfr Hplain Hhard Hcons Hst E1 Et E Hq. rewrite VerifyCodeFlow_split in E.
  assert (good_run (init_flow ctx v) v') as Hq' by exact Hq. clear Hq. rename Hq' into Hq. rsplit E Hq.
  rewrite E1 in E0. injection E0 as <- <-. cbn [negb] in E.
  match goal with Hx : good_run _ v1 |- _ => pose proof (signature_opens ctx Hso _ _ _ _ Hcons (init_opening ctx b0 Hfr v Hst) E1 Hx) as O end.
  unfold CodeFlowVerifyMethod in E.
  assert (exists u v2, sbind (set_runtime_throw false) (fun _ => UpdateFlags 0 InstructionFlags.SetChanged) v1 = Some (u, v2)
    /\ flow_loop ctx fuel 0 v2 = Some (true, v') /\ good_run v2 v') as (u & v2 & E2 & Eloop & Hq2).
  { rsplit E Hq. rsplit E Hq. exists a0, v2. unfold sbind at 1. by rewrite E0. }
  destruct (start_ready ctx cls Hci b0 Hsv Hfr Hhard v v1 u v2 l Hst O Et E2) as (I & Hch & Etypes).
  assert (ready ctx cls b0 0 (set_at (fun _ => None) 0 l) v2) as R.
  { split; [done|]. intros pc Hpc Hc Ht. rewrite (Hch pc Hpc Hc) in Ht. by rewrite (fr_entry _ _ Hfr) in Ht. }
  destruct (flow_loop_sound ctx Hok Hso cls Hheap Hho Hci b0 Hsv Hfr Hplain fuel 0 _ v2 true v' R Eloop Hq2) as [_ (G & I' & T & Hn)].
  exists G. split; [done|]. split.
  - rewrite <- Etypes. apply T; [apply Hfr|]. done.
  - intros pc k Hk. destruct (fi_lines _ _ _ _ _ I' pc k Hk) as (Hm & _ & [Hc|]); [|done].
    by rewrite Hn in Hc by (by apply (marked_range ctx Hci b0 Hsv)).
Qed.

(** Runs stay in the lines. *)
Lemma steps_covered c G s s' :
  (forall pc l, G pc = Some l -> covered ctx cls c G pc l) -> steps insns s s' ->
  forall l, G (snd s) = Some l -> frame_typed hier cls c l (frame (fst s)) -> exception (fst s) = 0 ->
  exists l', G (snd s') = Some l' /\ frame_typed hier cls c l' (frame (fst s')) /\ exception (fst s') = 0.
Proof.
  intros Hc. induction 1 as [s|st pc st1 pc1 s Hi Hs IH]; intros l El Hf Hx; [eauto|]. cbn in *.
  destruct (Hc pc l El) as [_ Hstep]. destruct (Hstep st st1 pc1 Hf Hx Hi) as (Hx1 & l1 & El1 & Hf1). eauto.
Qed.

(** C1. Type soundness of the verifier.  Let both passes accept a method of plain instructions (moves,
    constants, arithmetic, comparisons, conversions, branches, switches, returns) without a
    failure, and let the frame at the first instruction hold values of the types the signature
    gives its registers.  Then every state the interpreter reaches, through branches, switches and
    the handlers of arithmetic exceptions, is at the start of an instruction of the method that is
    not a table and not the end of the code; every register holds a value of the type the pass
    recorded for it there (an integer in the range of its type, a reference to an object of its
    class, with its copy in the reference part of the frame); and the next step continues or leaves
    the method. *)
Theorem typed_execution {PS : PlainServices insns (fun pc h => exists ty, (ty, h) ∈ context_handlers ctx pc)}
    df dump b b0 fuel v v1 v' st st' pc' :
  hier_ok hier -> heap_ok hier cls -> services_ok ctx -> handlers_ok ctx -> code_item_ok ci ->
  VerifyStatic ci df (is_aot ctx) (can_load_classes_ ctx) (allow_soft_failures_ ctx) dump b = Some (true, b0) ->
  have_pending_hard_failure_ b0 = false ->
  (forall i, marked b0 i = true -> plain (opcode insns i) = true) -> IsInstanceConstructor ctx = false ->
  startable b0 v -> VerifyCodeFlow ctx fuel v = Some (true, v') ->
  failures_ (base v') = failures_ b0 -> fits (reg_types_ v') ->
  SetTypesFromSignature ctx (init_flow ctx v) = Some (true, v1) ->
  (exists l, tline v1 0 = Some l /\ frame_typed hier cls (reg_types_ v1) l (frame st)) -> exception st = 0 ->
  steps insns (st, 0) (st', pc') ->
  marked b0 pc' = true /\ is_payload ci pc' = false
  /\ (forall l, tline v' pc' = Some l -> frame_typed hier cls (reg_types_ v') l (frame st'))
  /\ match iterate insns st' pc' with Continue _ _ | Exit _ _ => True | _ => False end.
Proof.
  intros Hok Hheap Hso Hho Hci Hstatic Hhard Hplain Hcons Hst E Hfail Hfits E1 (l & Et & Hf) Hx Hs.
  pose proof (VerifyStatic_sound ci Hci _ _ _ _ _ _ _ Hstatic) as Hsv. pose proof (VerifyStatic_ready ci Hci _ _ _ _ _ _ _ Hstatic) as Hfr.
  assert (good_run v v') as Hq by (split; [unfold quiet; by rewrite (st_base _ _ Hst)|done]).
  destruct (flow_fixpoint b0 fuel v v1 v' l Hok Hso Hheap Hho Hci Hsv Hfr Hplain Hhard Hcons Hst E1 Et E Hq) as (G & I & (l0 & El0 & Hw) & Hcov).
  destruct (steps_covered _ G _ _ Hcov Hs l0 El0 (Hw _ Hf) Hx) as (k & Ek & Hfk & Hxk). cbn in *.
  destruct (fi_lines _ _ _ _ _ I pc' k Ek) as (Hm & _ & _). pose proof (marked_range ctx Hci b0 Hsv _ Hm) as Hr.
  split; [done|]. split; [apply (Hcov pc' k Ek)|]. split.
  - intros t Ht. pose proof (fi_tracked _ _ _ _ _ I pc' t ltac:(lia) Ht) as Hg. rewrite Ek in Hg. destruct (reached v' pc'); [|done]. by injection Hg as ->.
  - unfold iterate. pose proof (plain_defined ci pc' (set_frame st' (SetDexPC (frame st') pc')) (Hplain _ Hm)) as Hd.
    destruct (exec insns pc' _); try done. by destruct (FindHandler _ pc') as [[]].
Qed.
End Typed.

(** ** A method with a loop and a handler *)
Module CaughtLoop.
(** [static Object m(Object o)]: [const/4 v0, #3; move-object v1, v2; add-int/lit8 v0, v0, #-1;
    div-int/2addr v0, v0; goto -3; return-object v1].  The division is in a try block whose handler
    is the return. *)
Definition method : CodeItem :=
  mkCodeItem 3 1 7 (units_of [0x3012; 0x2107; 0x00d8; 0xff00; 0x00b3; 0xfd28; 0x0111]) 0 [mkTry 4 1] [6].
Definition handlers (pc : Z) : list (Z * Z) := if pc =? 4 then [(0xFFFF, 6)] else [].
Definition context : MethodContext :=
  mkContext method 0 0 0 [] kAccStatic false None handlers [[(0xFFFF, 6)]] false true true true CodeFlowState.kDexNoIndex.
#[local] Instance classes : VerifierServices := SampleFlow.services 0 "Ljava/lang/Object;".

(** The runtime of the sample, with the handler. *)
#[local] Instance runtime : RuntimeServices := {|
  Throw _ st := set_exception st 1;
  AllowThreadSuspension st := st;
  ResolveString st _ := (1, st);
  ResolveVerifyAndClinit st _ := (1, st);
  InstanceOf _ _ _ := true;
  MonitorEnter st _ := st;
  MonitorExit st _ := st;
  AllocObject st _ _ := (1, st);
  AllocArrayFromCode st _ _ := (1, st);
  DoFilledNewArray _ st _ := (true, st);
  Assignable _ _ _ := true;
  DoFieldGet _ _ st _ := (true, st);
  DoIGetQuick _ st _ := (true, st);
  DoFieldPut _ _ st _ := (true, st);
  DoIPutQuick _ st _ := (true, st);
  DoInvoke _ _ st _ := (true, st);
  DoInvokeVirtualQuick _ st _ := (true, st);
  lambdas_enabled := false;
  DoLambda _ st _ := (true, st);
  FindHandler st pc := if pc =? 4 then (Some 6, set_exception st 0) else (None, st)
|}.
#[local] Instance runtime_plain : PlainServices (insns_ method) (fun pc h => exists ty, (ty, h) ∈ handlers pc).
Proof.
  split; [done|done|]. intros st pc h st'. cbn. unfold handlers. destruct (pc =? 4); [|done]. intros [= <- <-].
  split; [|done]. exists 0xFFFF. by left.
Qed.
Definition checked : Verifier :=
  match VerifyStatic method SampleFlow.dex false true true false SampleFlow.fresh with Some (_, b) => b | None => SampleFlow.fresh end.
Definition first : vstate := SampleFlow.start_of checked.
Definition after {A} (m : CM A) (v : vstate) : vstate := match m v with Some (_, v) => v | None => v end.
Definition final : vstate := after (VerifyCodeFlow context 100) first.
Definition signed : vstate := after (SetTypesFromSignature context) (init_flow context first).
Lemma loop_ok : code_item_ok method.
Proof. split; [apply units_of_ok|by vm_compute|by vm_compute]. Qed.
Lemma context_ok : services_ok context /\ handlers_ok context.
Proof.
  split; split; try done.
  - intros loader d k. cbn. unfold SampleFlow.resolve. repeat case_match; intros [= <-]; (split; [by eexists|done]).
  - intros pc ty a. cbn. unfold handlers. destruct (Z.eqb_spec pc 4) as [->|]; [|by intros ?%elem_of_nil]. intros _.
    exists (mkTry 4 1). split; [by left|]. by vm_compute.
  - intros pc ty a. cbn. unfold handlers. destruct (Z.eqb_spec pc 4) as [->|]; [|by intros ?%elem_of_nil].
    intros [[= -> ->]|?%elem_of_nil]%elem_of_cons; [by left|done].
Qed.
Lemma loop_plain i : marked checked i = true -> plain (opcode (insns_ method) i) = true.
Proof.
  intros Hm. assert (0 <= i < 7) as Hi.
  { unfold marked in Hm. apply andb_prop in Hm as [Hr _]. apply andb_prop in Hr as [H1 H2].
    change (Z.of_nat (length (insn_flags_ checked))) with 7 in H2. lia. }
  assert (i = 0 \/ i = 1 \/ i = 2 \/ i = 3 \/ i = 4 \/ i = 5 \/ i = 6) as Hc by lia.
  destruct_or! Hc; subst i; first [by vm_compute|by vm_compute in Hm].
Qed.
Lemma start_typed : exists l, tline signed 0 = Some l /\ frame_typed hier one_object (reg_types_ signed) l (frame (called_with 3 8)).
Proof.
  exists [0; 0; 18]%nat. split; [by vm_compute|]. split; [split; [done|done|by repeat constructor]|done|].
  intros i t Hi. destruct (decide (i = 0 \/ i = 1)) as [Hi'|Hi'].
  - intros Ht. assert (t = 0%nat) as -> by (destruct Hi' as [-> | ->]; by injection Ht).
    destruct Hi' as [-> | ->]; (split; [split; [done|by vm_compute]|by vm_compute]).
  - destruct (decide (i = 2)) as [->|]; [|intros Ht%lookup_lt_Some; cbn in Ht; lia]. intros [= <-].
    split; [split; [done|]|by vm_compute]. vm_compute. right. eexists. split; [done|]. by right.
Qed.
Lemma first_startable : startable checked first.
Proof. split; [done|apply new_cache_ok|by intros i k|by intros i]. Qed.
End CaughtLoop.

Lemma typed_execution_witness : exists st',
  @steps CaughtLoop.runtime (insns_ CaughtLoop.method) (called_with 3 8, 0) (st', 6)
  /\ tline CaughtLoop.final 6 = Some [Conflict; 18; Conflict]%nat
  /\ frame_typed sample_hierarchy one_object (reg_types_ CaughtLoop.final) [Conflict; 18; Conflict]%nat (frame st').
Proof.
  assert (exists st', @steps CaughtLoop.runtime (insns_ CaughtLoop.method) (called_with 3 8, 0) (st', 6)) as [st' Hs].
  { eexists. do 7 (eapply steps_next; [by vm_compute|]). apply steps_refl. }
  exists st'. split; [exact Hs|]. split; [by vm_compute|]. destruct CaughtLoop.context_ok as [Hso Hho].
  destruct (@typed_execution CaughtLoop.classes CaughtLoop.runtime CaughtLoop.context one_object CaughtLoop.runtime_plain SampleFlow.dex false SampleFlow.fresh
    CaughtLoop.checked 100 CaughtLoop.first CaughtLoop.signed CaughtLoop.final (called_with 3 8) st' 6) as (_ & _ & Hf & _).
  all: try first [exact sample_hierarchy_ok|exact one_object_ok|exact Hso|exact Hho|exact CaughtLoop.loop_ok|exact CaughtLoop.loop_plain
    |exact CaughtLoop.first_startable|exact CaughtLoop.start_typed|exact Hs|by vm_compute].
  apply Hf. by vm_compute.
Defined.
