(* ===== verification/LoopBounds.v ===== *)
(** * Bounds of counted loops in the optimizing compiler's extensions

    [HLoopInformation_X86::ComputeBoundInformation], [FillFloatingPointBound] and
    [GetNumIterations] of compiler/optimizing/extensions/infrastructure/loop_information.cc,
    with the helpers of ext_utility.cc they use and the classes [HLoopBoundInformation] and
    [HConstant_X86].

    What the code asks of the graph (the exit block, the branch, the operands of the
    comparison, the entry value of the phi) is a record of answers, [loop_exit]; the queries
    themselves walk the graph and are not modelled.  A [double] is its bit pattern. *)

From Stdlib Require Import SpecFloat.
From S2P Require Import Prelude Floats InterpreterBase.

(** ** Constants and conditions *)
Inductive HConstant :=
| IntConstant (v : Z) | LongConstant (v : Z) | FloatConstant (bits : Z) | DoubleConstant (bits : Z).

Inductive IfCondition :=
| kCondEQ | kCondNE | kCondLT | kCondLE | kCondGT | kCondGE | kCondB | kCondBE | kCondA | kCondAE.

#[global] Instance IfCondition_eq_dec : EqDecision IfCondition.
Proof. solve_decision. Defined.

(** [None] is the fatal error on the unsigned conditions. *)
Definition NegateCondition (cond : IfCondition) : option IfCondition :=
  match cond with
  | kCondNE => Some kCondEQ | kCondEQ => Some kCondNE
  | kCondLT => Some kCondGE | kCondGE => Some kCondLT
  | kCondGT => Some kCondLE | kCondLE => Some kCondGT
  | _ => None
  end.

Definition FlipConditionForOperandSwap (cond : IfCondition) : option IfCondition :=
  match cond with
  | kCondEQ | kCondNE => Some cond
  | kCondLT => Some kCondGT | kCondLE => Some kCondGE
  | kCondGT => Some kCondLT | kCondGE => Some kCondLE
  | _ => None
  end.

Definition GetFPConstantValue (c : HConstant) : option Z :=
  match c with
  | FloatConstant b => Some (fconvert binary32 binary64 b)
  | DoubleConstant b => Some b
  | _ => None
  end.

Definition GetIntConstantValue (c : HConstant) : option Z :=
  match c with IntConstant v | LongConstant v => Some v | _ => None end.

(** ** Induction variables *)
Record HInductionVariable := mkIV {
  loop_increment_ : HConstant;
  (** [FindBIVEntrySSA] of its phi: the first constant input. *)
  entry_value_ : option HConstant
}.

Definition iv_is_fp (iv : HInductionVariable) : bool :=
  match loop_increment_ iv with FloatConstant _ | DoubleConstant _ => true | _ => false end.
Definition GetIncrement (iv : HInductionVariable) : Z :=
  default 0 (GetIntConstantValue (loop_increment_ iv)).
Definition GetFPIncrement (iv : HInductionVariable) : Z :=
  default 0 (GetFPConstantValue (loop_increment_ iv)).
Definition IsIncrementPositive (iv : HInductionVariable) : bool :=
  if iv_is_fp iv then fgt binary64 (GetFPIncrement iv) 0 else 0 <? GetIncrement iv.
Definition IsIncrementNegative (iv : HInductionVariable) : bool :=
  if iv_is_fp iv then flt binary64 (GetFPIncrement iv) 0 else GetIncrement iv <? 0.

Definition IsBasic (iv : HInductionVariable) : bool := true.

(** ** [HLoopBoundInformation] *)
Record HLoopBoundInformation := mkBound {
  loop_biv_ : option HInductionVariable;
  constant_bound_ : option HConstant;
  is_simple_count_up_ : bool;
  is_simple_count_down_ : bool;
  comparison_condition_ : IfCondition;
  num_iterations_ : Z;
  biv_start_value_ : Z;
  biv_end_value_ : Z
}.

(** The initial [comparison_condition_] is 0, [kCondEQ]. *)
Definition bound_init : HLoopBoundInformation :=
  mkBound None None false false kCondEQ (-1) 0 0.
Definition SetLoopBIV (b : HLoopBoundInformation) (iv : HInductionVariable) :=
  mkBound (Some iv) (constant_bound_ b) (is_simple_count_up_ b) (is_simple_count_down_ b)
    (comparison_condition_ b) (num_iterations_ b) (biv_start_value_ b) (biv_end_value_ b).
Definition SetConstantBound (b : HLoopBoundInformation) (c : HConstant) :=
  mkBound (loop_biv_ b) (Some c) (is_simple_count_up_ b) (is_simple_count_down_ b)
    (comparison_condition_ b) (num_iterations_ b) (biv_start_value_ b) (biv_end_value_ b).
Definition SetSimpleCountUp (b : HLoopBoundInformation) :=
  mkBound (loop_biv_ b) (constant_bound_ b) true (is_simple_count_down_ b)
    (comparison_condition_ b) (num_iterations_ b) (biv_start_value_ b) (biv_end_value_ b).
Definition SetSimpleCountDown (b : HLoopBoundInformation) :=
  mkBound (loop_biv_ b) (constant_bound_ b) (is_simple_count_up_ b) true
    (comparison_condition_ b) (num_iterations_ b) (biv_start_value_ b) (biv_end_value_ b).
Definition SetComparisonCondition (b : HLoopBoundInformation) (c : IfCondition) :=
  mkBound (loop_biv_ b) (constant_bound_ b) (is_simple_count_up_ b) (is_simple_count_down_ b)
    c (num_iterations_ b) (biv_start_value_ b) (biv_end_value_ b).
Definition SetIterations (b : HLoopBoundInformation) (start end_ n : Z) :=
  mkBound (loop_biv_ b) (constant_bound_ b) (is_simple_count_up_ b) (is_simple_count_down_ b)
    (comparison_condition_ b) n start end_.

(** What the graph answers about the exit of the loop. *)
Record loop_exit := mkExit {
  (** The exit block is left by an [HIf] on a condition, and that condition. *)
  le_branch_is_if : bool;
  le_condition : option IfCondition;
  (** The operands of the comparison, conversions skipped. *)
  le_first_type : Primitive;
  le_first_iv : option HInductionVariable;
  le_second_iv : option HInductionVariable;
  le_first_constant : option HConstant;
  le_second_constant : option HConstant;
  (** The true successor of the [HIf] is the exit block. *)
  le_exit_on_true : bool
}.

(** ** Integral loops *)

(** The normalisation of the inclusive conditions: the condition and the end value, or the
    early return on a loop that never ends. *)
Definition normalize_bound (is_wide : bool) (cond : IfCondition) (end_value : Z)
  : option (IfCondition * Z) :=
  let min_value := if is_wide then INT64_MIN else INT32_MIN in
  let max_value := if is_wide then INT64_MAX else INT32_MAX in
  match cond with
  | kCondLE => if end_value =? max_value then None else Some (kCondLT, s64 (end_value + 1))
  | kCondGE => if end_value =? min_value then None else Some (kCondGT, s64 (end_value - 1))
  | _ => Some (cond, end_value)
  end.

(** Whether the loop is one the formula applies to. *)
Definition counted_loop (up down : bool) (is_wide : bool) (cond : IfCondition)
  (increment start_value end_value : Z) : bool :=
  let min_value := if is_wide then INT64_MIN else INT32_MIN in
  let max_value := if is_wide then INT64_MAX else INT32_MAX in
  if up then
    bool_decide (cond = kCondLT) && negb (end_value <=? start_value)
    && negb (s64 (s64 (max_value - increment) + 1) <? end_value)
  else if down then
    bool_decide (cond = kCondGT) && negb (start_value <=? end_value)
    && negb (end_value <? s64 (s64 (min_value - increment) - 1))
  else false.

(** The quotient rounded away from zero. *)
Definition iteration_count (increment start_value end_value : Z) : Z :=
  let d := s64 (end_value - start_value) in
  let n := s64 (Z.quot d increment) in
  if negb (Z.rem d increment =? 0) then s64 (n + 1) else n.

Definition integral_bound (b : HLoopBoundInformation) (iv : HInductionVariable)
  (entry bound : HConstant) (is_wide : bool) : bool * HLoopBoundInformation :=
  let increment := GetIncrement iv in
  match GetIntConstantValue entry, GetIntConstantValue bound with
  | Some start_value, Some end_value0 =>
      match normalize_bound is_wide (comparison_condition_ b) end_value0 with
      | None => (false, b)
      | Some (cond, end_value) =>
          let b := SetComparisonCondition b cond in
          if counted_loop (is_simple_count_up_ b) (is_simple_count_down_ b) is_wide cond
               increment start_value end_value
          then (true, SetIterations b start_value end_value
                        (iteration_count increment start_value end_value))
          else (false, b)
      end
  | _, _ => (false, b)
  end.

(** ** Floating-point loops *)

(** [DeconstructFP] with the implicit one: sign, power and mantissa. *)
Definition DeconstructFP (value : Z) (is_double : bool) : Z * Z * Z :=
  let as_int := if is_double then s64 value else s32 (fconvert binary64 binary32 value) in
  let exponent_length := if is_double then 11 else 8 in
  let mantissa_length := if is_double then 52 else 23 in
  let sign := Z.land (Z.shiftr as_int (if is_double then 63 else 31)) 1 in
  let mantissa := Z.land as_int (Z.shiftl 1 mantissa_length - 1) in
  let exponent := Z.land (Z.shiftr as_int mantissa_length) (Z.shiftl 1 exponent_length - 1) in
  let zero := feq binary64 value 0 in
  let power := if zero then 0 else exponent - (Z.shiftl 1 (exponent_length - 1) - 1) in
  (sign, power, if zero then mantissa else Z.lor mantissa (Z.shiftl 1 mantissa_length)).

(** The loop of [CountEndZerosInMantissa]; the fuel is its [limit]. *)
Fixpoint count_end_zeros (limit : nat) (mantissa : Z) : Z :=
  match limit with
  | O => 0
  | S limit =>
      if Z.land mantissa 1 =? 0 then 1 + count_end_zeros limit (Z.shiftr mantissa 1) else 0
  end.
Definition CountEndZerosInMantissa (mantissa : Z) (is_double : bool) : Z :=
  count_end_zeros (if is_double then 52 else 23) mantissa.

Definition FillFloatingPointBound (b : HLoopBoundInformation) (iv : HInductionVariable)
  (entry_value bound : HConstant) (is_double : bool) : bool * HLoopBoundInformation :=
  let increment := GetFPIncrement iv in
  match GetFPConstantValue entry_value, GetFPConstantValue bound with
  | Some start_value, Some end_value =>
      let '(sign_start, power_start, mantissa_start) := DeconstructFP start_value is_double in
      let '(sign_end, power_end, mantissa_end) := DeconstructFP end_value is_double in
      let '(sign_inc, power_inc, mantissa_inc) := DeconstructFP increment is_double in
      let ge x y := fgt binary64 x y || feq binary64 x y in
      let adjusted_pow := Z.max power_start power_inc in
      let zeros_start := CountEndZerosInMantissa mantissa_start is_double in
      let zeros_inc := CountEndZerosInMantissa mantissa_inc is_double in
      let allowed_increments := Z.min zeros_start zeros_inc in
      if negb (sign_start =? sign_end) || negb (sign_start =? sign_inc) || (power_end <? power_start)
      then (false, b)
      else if (sign_inc =? 0) && ge start_value end_value then (false, b)
      else if (sign_inc =? 1) && ge end_value start_value then (false, b)
      else if zeros_start <? adjusted_pow - power_start then (false, b)
      else if zeros_inc <? adjusted_pow - power_inc then (false, b)
      else if allowed_increments <? power_end - power_start then (false, b)
      else
        let max_power := Z.max adjusted_pow power_end in
        let mantissa_start := Z.shiftr mantissa_start (max_power - power_start) in
        let mantissa_end := Z.shiftr mantissa_end (max_power - power_end) in
        let mantissa_inc := Z.shiftr mantissa_inc (max_power - power_inc) in
        let n := Z.quot (mantissa_end - mantissa_start) mantissa_inc in
        let num_iterations :=
          if negb (Z.rem (mantissa_end - mantissa_start) mantissa_inc =? 0) then n + 1
          else match comparison_condition_ b with kCondLE | kCondGE => n + 1 | _ => n end in
        (true, SetIterations b start_value end_value num_iterations)
  | _, _ => (false, b)
  end.

(** ** [ComputeBoundInformation]

    The exit of the loop is [None] when it has not exactly one; the result [None] is the fatal
    error of the condition helpers. *)
Definition fp_and_wide (t : Primitive) : option (bool * bool) :=
  match t with
  | kPrimDouble => Some (true, true)
  | kPrimFloat => Some (true, false)
  | kPrimLong => Some (false, true)
  | kPrimInt => Some (false, false)
  | _ => None
  end.

(** The condition with the IV on the left that keeps the loop running. *)
Definition loop_condition (e : loop_exit) (c : IfCondition) (is_iv_second_use : bool)
  : option IfCondition :=
  match (if is_iv_second_use then FlipConditionForOperandSwap c else Some c) with
  | Some c => if le_exit_on_true e then NegateCondition c else Some c
  | None => None
  end.

Definition set_direction (b : HLoopBoundInformation) (iv : HInductionVariable)
  (c : IfCondition) : HLoopBoundInformation :=
  if IsIncrementPositive iv then SetComparisonCondition (SetSimpleCountUp b) c
  else if IsIncrementNegative iv then SetComparisonCondition (SetSimpleCountDown b) c
  else b.

Definition ComputeBoundInformation (loop : option loop_exit)
  : option (bool * HLoopBoundInformation) :=
  match loop with
  | None => Some (false, bound_init)
  | Some e =>
      if negb (le_branch_is_if e) then Some (false, bound_init)
      else match le_condition e, fp_and_wide (le_first_type e) with
      | Some c, Some (is_fp, is_wide) =>
          let is_iv_second_use := match le_first_iv e with Some _ => false | None => true end in
          match (if is_iv_second_use then le_second_iv e else le_first_iv e) with
          | None => Some (false, bound_init)
          | Some iv =>
              if negb (IsBasic iv) then Some (false, bound_init) else
              let b := SetLoopBIV bound_init iv in
              match (if is_iv_second_use then le_first_constant e else le_second_constant e) with
              | None => Some (false, b)
              | Some constant =>
                  let b := SetConstantBound b constant in
                  match loop_condition e c is_iv_second_use with
                  | None => None
                  | Some c =>
                      let b := set_direction b iv c in
                      match entry_value_ iv with
                      | None => Some (false, b)
                      | Some entry_value =>
                          if is_fp then Some (FillFloatingPointBound b iv entry_value constant is_wide)
                          else Some (integral_bound b iv entry_value constant is_wide)
                      end
                  end
              end
          end
      | _, _ => Some (false, bound_init)
      end
  end.

(** [GetNumIterations] of a block executed on every iteration: whether the block, and the
    increment, lie above the exit test.  A basic variable always has a linear instruction. *)
Definition GetNumIterations (b : HLoopBoundInformation) (has_exit biv_dominates_exit bb_dominates_exit : bool)
  : Z :=
  if num_iterations_ b =? -1 then -1
  else match loop_biv_ b with
  | None => -1
  | Some _ =>
      if negb has_exit then -1
      else if Bool.eqb biv_dominates_exit bb_dominates_exit then num_iterations_ b
      else if biv_dominates_exit then num_iterations_ b - 1
      else num_iterations_ b + 1
  end.

(** ** What the loop does

    The reference semantics of a counted loop with a [w]-bit induction variable. *)
Definition cond_holds (w : Z) (c : IfCondition) (x y : Z) : bool :=
  match c with
  | kCondEQ => x =? y | kCondNE => negb (x =? y)
  | kCondLT => x <? y | kCondLE => x <=? y | kCondGT => y <? x | kCondGE => y <=? x
  | kCondB => wrapu w x <? wrapu w y | kCondBE => wrapu w x <=? wrapu w y
  | kCondA => wrapu w y <? wrapu w x | kCondAE => wrapu w y <=? wrapu w x
  end.

(** The induction variable, the bound and the position of the variable in the comparison. *)
Definition exit_iv_second (e : loop_exit) : bool :=
  match le_first_iv e with Some _ => false | None => true end.
Definition exit_iv (e : loop_exit) : option HInductionVariable :=
  if exit_iv_second e then le_second_iv e else le_first_iv e.
Definition exit_bound (e : loop_exit) : option HConstant :=
  if exit_iv_second e then le_first_constant e else le_second_constant e.

(** Whether the test of the loop, on the value [t] of the variable, keeps it running. *)
Definition continues (w : Z) (e : loop_exit) (t : Z) : bool :=
  match le_condition e, exit_bound e with
  | Some c, Some k =>
      let y := default 0 (GetIntConstantValue k) in
      let holds := if exit_iv_second e then cond_holds w c y t else cond_holds w c t y in
      if le_exit_on_true e then negb holds else holds
  | _, _ => false
  end.

(** The number of increments the loop executes from the value [i] of the phi: the test comes
    before the increment (on the phi), or after it, on the incremented value or on the phi. *)
Fixpoint count_increments (fuel : nat) (w inc : Z) (test : Z -> bool)
  (after on_phi : bool) (i : Z) : option Z :=
  match fuel with
  | O => None
  | S fuel =>
      let l := wraps w (i + inc) in
      if after then
        if test (if on_phi then i else l)
        then Z.succ <$> count_increments fuel w inc test after on_phi l else Some 1
      else
        if test i then Z.succ <$> count_increments fuel w inc test after on_phi l else Some 0
  end.

Lemma cond_holds_negate w c c' x y :
  NegateCondition c = Some c' -> cond_holds w c' x y = negb (cond_holds w c x y).
Proof.
  destruct c; intros [= <-]; cbn; rewrite ?negb_involutive; try done;
    apply Bool.eq_iff_eq_true; rewrite ?negb_true_iff, ?Z.leb_le, ?Z.ltb_lt, ?Z.ltb_ge, ?Z.leb_gt; lia.
Qed.

Lemma cond_holds_flip w c c' x y :
  FlipConditionForOperandSwap c = Some c' -> cond_holds w c' x y = cond_holds w c y x.
Proof. destruct c; intros [= <-]; cbn; by rewrite 1?(Z.eqb_sym x y). Qed.

(** The condition the analysis uses is the one that keeps the loop running. *)
Lemma continues_condition w e c c' k t :
  le_condition e = Some c -> exit_bound e = Some k ->
  loop_condition e c (exit_iv_second e) = Some c' ->
  continues w e t = cond_holds w c' t (default 0 (GetIntConstantValue k)).
Proof.
  unfold continues, loop_condition. intros -> ->. destruct (exit_iv_second e).
  - destruct (FlipConditionForOperandSwap c) as [d|] eqn:Ef; [|done].
    rewrite <- (cond_holds_flip w _ _ _ _ Ef). destruct (le_exit_on_true e); [|by intros [= <-]].
    intros Hn. by rewrite (cond_holds_negate _ _ _ _ _ Hn).
  - destruct (le_exit_on_true e); [|by intros [= <-]].
    intros Hn. by rewrite (cond_holds_negate _ _ _ _ _ Hn).
Qed.

(** *** The count of a loop that does not overflow *)
Definition ceil_div (d inc : Z) : Z := (d + inc - 1) / inc.

Lemma ceil_div_step d inc : 0 < inc -> ceil_div d inc = 1 + ceil_div (d - inc) inc.
Proof.
  intros Hi. unfold ceil_div. replace (d + inc - 1) with (d - inc + inc - 1 + 1 * inc) by lia.
  rewrite Z.div_add by lia. lia.
Qed.
Lemma ceil_div_small d inc : 0 < inc -> 0 < d <= inc -> ceil_div d inc = 1.
Proof.
  intros Hi Hd. unfold ceil_div. symmetry. apply (Z.div_unique _ _ 1 (d - 1)); lia.
Qed.

(** A loop that counts by [g * step] ([g] is 1 or -1) towards [E], where no increment from a
    value before [E] overflows. *)
Section Count.
Context (w g step E : Z) (test : Z -> bool) (Hw : 0 < w) (Hg : g = 1 \/ g = -1) (Hs : 0 < step).
Context (Htest : forall t, in_s w t -> test t = (g * t <? g * E)).
Context (Hrange : forall t, in_s w t -> g * t < g * E -> in_s w (t + g * step)).

Let left (i : Z) : Z := ceil_div (g * E - g * i) step.

Lemma left_pos i : g * i < g * E -> 0 < left i.
Proof.
  intros Hi. unfold left. rewrite ceil_div_step by done.
  enough (0 <= ceil_div (g * E - g * i - step) step) by lia.
  apply Z.div_pos; lia.
Qed.
Lemma left_step i : left i = Z.succ (left (i + g * step)).
Proof.
  unfold left. rewrite ceil_div_step by done.
  replace (g * E - g * (i + g * step)) with (g * E - g * i - step)
    by (destruct Hg as [-> | ->]; lia). lia.
Qed.
Lemma left_last i : g * i < g * E -> g * E <= g * (i + g * step) -> left i = 1.
Proof.
  intros Hi Hl. apply ceil_div_small; [done|]. destruct Hg as [-> | ->]; lia.
Qed.

Lemma count_test_before fuel i :
  in_s w i -> g * i < g * E -> left i < Z.of_nat fuel ->
  count_increments fuel w (g * step) test false true i = Some (left i).
Proof.
  revert i. induction fuel as [|fuel IH]; intros i Hr Hlt Hf; [pose proof (left_pos i Hlt); lia|].
  cbn [count_increments]. rewrite Htest, (proj2 (Z.ltb_lt _ _)) by done.
  pose proof (Hrange i Hr Hlt) as Hn. rewrite wraps_small by done.
  destruct (decide (g * (i + g * step) < g * E)) as [Hc|Hc].
  - rewrite left_step in *. by rewrite IH by (done || lia).
  - rewrite left_last in * by lia. destruct fuel as [|fuel]; [lia|]. cbn [count_increments].
    by rewrite Htest, (proj2 (Z.ltb_ge _ _)) by (done || lia).
Qed.

Lemma count_test_after fuel i :
  in_s w i -> g * i < g * E -> left i < Z.of_nat fuel ->
  count_increments fuel w (g * step) test true false i = Some (left i).
Proof.
  revert i. induction fuel as [|fuel IH]; intros i Hr Hlt Hf; [pose proof (left_pos i Hlt); lia|].
  cbn [count_increments]. pose proof (Hrange i Hr Hlt) as Hn. rewrite wraps_small by done.
  rewrite Htest by done. destruct (Z.ltb_spec (g * (i + g * step)) (g * E)) as [Hc|Hc].
  - rewrite left_step in *. by rewrite IH by (done || lia).
  - by rewrite left_last by lia.
Qed.

(** Testing the phi after the increment makes one more increment. *)
Lemma count_phi_after fuel i :
  in_s w i -> g * i < g * E -> 1 + left i < Z.of_nat fuel ->
  count_increments fuel w (g * step) test true true i = Some (1 + left i).
Proof.
  revert i. induction fuel as [|fuel IH]; intros i Hr Hlt Hf; [pose proof (left_pos i Hlt); lia|].
  cbn [count_increments]. pose proof (Hrange i Hr Hlt) as Hn. rewrite wraps_small by done.
  rewrite Htest, (proj2 (Z.ltb_lt _ _)) by done.
  destruct (decide (g * (i + g * step) < g * E)) as [Hc|Hc].
  - rewrite left_step in *. rewrite IH by (done || lia). cbn. f_equal. lia.
  - rewrite left_last in * by lia. destruct fuel as [|fuel]; [lia|]. cbn [count_increments].
    by rewrite Htest, (proj2 (Z.ltb_ge _ _)) by (done || lia).
Qed.
End Count.

(** The quotient of the code is the ceiling of the distance over the step. *)
Lemma iteration_count_ceil g step start E :
  g = 1 \/ g = -1 -> 0 < step -> in_s 64 (E - start) -> g * start < g * E ->
  in_s 64 (ceil_div (g * E - g * start) step) ->
  iteration_count (g * step) start E = ceil_div (g * E - g * start) step.
Proof.
  intros Hg Hs Hd Hlt Hc. unfold iteration_count. rewrite (wraps_small 64) by (done || lia).
  set (d := g * E - g * start) in *. assert (0 < d) as Hpos by lia.
  assert (Z.quot (E - start) (g * step) = d / step /\ Z.rem (E - start) (g * step) = g * (d mod step))
    as [-> ->].
  { replace (E - start) with (g * d) by (unfold d; destruct Hg as [-> | ->]; lia).
    destruct Hg as [-> | ->].
    - rewrite !Z.mul_1_l, Z.quot_div_nonneg, Z.rem_mod_nonneg by lia. done.
    - replace (-1 * d) with (- d) by lia. replace (-1 * step) with (- step) by lia.
      rewrite Z.quot_opp_opp, Z.rem_opp_opp by lia.
      rewrite Z.quot_div_nonneg, Z.rem_mod_nonneg by lia. lia. }
  pose proof (Z.div_mod d step ltac:(lia)). pose proof (Z.mod_pos_bound d step Hs).
  assert (ceil_div d step = d / step + (if d mod step =? 0 then 0 else 1)) as Hceil.
  { unfold ceil_div. destruct (Z.eqb_spec (d mod step) 0).
    - symmetry. apply (Z.div_unique _ _ _ (step - 1)); lia.
    - symmetry. apply (Z.div_unique _ _ _ (d mod step - 1)); lia. }
  assert (0 <= d / step) by (apply Z.div_pos; lia).
  assert ((g * (d mod step) =? 0) = (d mod step =? 0)) as ->.
  { apply Bool.eq_iff_eq_true. rewrite !Z.eqb_eq. destruct Hg as [-> | ->]; lia. }
  unfold in_s in *. rewrite Hceil in *. destruct (d mod step =? 0); cbn [negb].
  - rewrite wraps_small by (unfold in_s; lia). lia.
  - rewrite (wraps_small 64 ltac:(lia) (d / step)), wraps_small by (unfold in_s; lia). done.
Qed.

(** *** The analysis on integral loops *)
Section Integral.
Context (e : loop_exit) (iv : HInductionVariable) (is_wide : bool) (start k : Z).
#[local] Abbreviation w := (if is_wide then 64 else 32).
#[local] Abbreviation inc := (GetIncrement iv).

(** A well-typed integral loop: the values of the graph the theorems are about. *)
Record integral_loop : Prop := {
  il_type : fp_and_wide (le_first_type e) = Some (false, is_wide);
  il_iv : exit_iv e = Some iv;
  il_int : iv_is_fp iv = false;
  il_start : entry_value_ iv ≫= GetIntConstantValue = Some start;
  il_bound : exit_bound e ≫= GetIntConstantValue = Some k;
  il_ranges : in_s w start /\ in_s w inc /\ in_s w k
}.
Context (Hloop : integral_loop).

Lemma compute_integral info :
  ComputeBoundInformation (Some e) = Some (true, info) ->
  exists c c' cond E,
    le_condition e = Some c /\ loop_condition e c (exit_iv_second e) = Some c'
    /\ normalize_bound is_wide c' k = Some (cond, E)
    /\ counted_loop (0 <? inc) (inc <? 0) is_wide cond inc start E = true
    /\ num_iterations_ info = iteration_count inc start E
    /\ biv_start_value_ info = start /\ biv_end_value_ info = E
    /\ loop_biv_ info = Some iv.
Proof.
  destruct Hloop as [Ht Hiv Hint Hst Hk _]. unfold ComputeBoundInformation.
  unfold exit_iv, exit_bound in *. fold (exit_iv_second e).
  destruct (negb (le_branch_is_if e)); [done|].
  destruct (le_condition e) as [c|]; [|done]. rewrite Ht, Hiv. cbn [IsBasic negb].
  destruct (if exit_iv_second e then le_first_constant e else le_second_constant e) as [kc|];
    [|done].
  destruct (loop_condition e c (exit_iv_second e)) as [c'|] eqn:Ec; [|done].
  destruct (entry_value_ iv) as [ec|]; [|done]. cbn in Hst, Hk.
  unfold integral_bound. rewrite Hst, Hk. unfold set_direction.
  unfold IsIncrementPositive, IsIncrementNegative. rewrite Hint.
  intros H. exists c, c'.
  destruct (0 <? inc) eqn:Hp; [|destruct (inc <? 0) eqn:Hn].
  1, 2: cbn [comparison_condition_ SetComparisonCondition SetSimpleCountUp SetSimpleCountDown
             is_simple_count_up_ is_simple_count_down_ SetConstantBound SetLoopBIV bound_init] in H;
    destruct (normalize_bound is_wide c' k) as [[cond E]|]; [|done];
    destruct (counted_loop _ _ _ _ _ _ _) eqn:Hc in H; [|done];
    injection H as <-; exists cond, E; split_and!; try done.
  unfold counted_loop in *. by destruct (inc <? 0).
Qed.

(** The direction, step and end of a loop the analysis accepted. *)
Lemma accepted_loop c' cond E :
  normalize_bound is_wide c' k = Some (cond, E) ->
  counted_loop (0 <? inc) (inc <? 0) is_wide cond inc start E = true ->
  exists g step, (g = 1 \/ g = -1) /\ 0 < step /\ inc = g * step
    /\ (forall t, in_s w t -> cond_holds w c' t k = (g * t <? g * E))
    /\ (forall t, in_s w t -> g * t < g * E -> in_s w (t + g * step))
    /\ g * start < g * E
    /\ - 2 ^ (w - 1) - 1 <= E <= 2 ^ (w - 1).
Proof.
  destruct Hloop as [_ _ _ _ _ (Hs & Hi & Hk)]. intros Hn Hc.
  assert (0 < w) by (by destruct is_wide).
  unfold counted_loop in Hc.
  destruct (Z.ltb_spec 0 inc) as [Hp|Hp]; [|destruct (Z.ltb_spec inc 0) as [Hq|Hq]; [|done]].
  - exists 1, inc. apply andb_prop in Hc as [Hc H3]. apply andb_prop in Hc as [H1 H2].
    apply bool_decide_eq_true_1 in H1 as ->.
    assert (c' = kCondLT /\ E = k \/ c' = kCondLE /\ E = k + 1) as Hcase.
    { revert Hn. unfold normalize_bound. destruct c'; try done.
      - intros [= <-]. auto.
      - destruct (Z.eqb_spec k (if is_wide then INT64_MAX else INT32_MAX)) as [|Hne]; [done|].
        intros [= <-]. right. split; [done|].
        unfold INT64_MAX, INT32_MAX, in_s in *.
        rewrite wraps_small; [done|lia|unfold in_s; destruct is_wide; lia].
      - by destruct (k =? _). }
    assert (E - 1 + inc < 2 ^ (w - 1)) as HE.
    { revert H3. unfold INT64_MAX, INT32_MAX, in_s in *.
      rewrite (wraps_small 64 ltac:(lia) (_ - inc)) by (unfold in_s; destruct is_wide; lia).
      rewrite wraps_small by (try lia; unfold in_s; destruct is_wide; lia).
      destruct is_wide; lia. }
    split_and!; try lia.
    + intros t Ht. destruct Hcase as [[-> ->]|[-> ->]]; cbn [cond_holds];
        apply Bool.eq_iff_eq_true; rewrite ?Z.leb_le, ?Z.ltb_lt; lia.
    + intros t Ht Hlt. unfold in_s in *. lia.
    + unfold in_s in *. destruct is_wide; lia.
  - exists (-1), (- inc). apply andb_prop in Hc as [Hc H3]. apply andb_prop in Hc as [H1 H2].
    apply bool_decide_eq_true_1 in H1 as ->.
    assert (c' = kCondGT /\ E = k \/ c' = kCondGE /\ E = k - 1) as Hcase.
    { revert Hn. unfold normalize_bound. destruct c'; try done.
      - by destruct (k =? _).
      - intros [= <-]. auto.
      - destruct (Z.eqb_spec k (if is_wide then INT64_MIN else INT32_MIN)) as [|Hne]; [done|].
        intros [= <-]. right. split; [done|].
        unfold INT64_MIN, INT32_MIN, in_s in *.
        rewrite wraps_small; [done|lia|unfold in_s; destruct is_wide; lia]. }
    assert (- 2 ^ (w - 1) <= E + 1 + inc) as HE.
    { revert H3. unfold INT64_MIN, INT32_MIN, in_s in *.
      rewrite (wraps_small 64 ltac:(lia) (_ - inc)) by (unfold in_s; destruct is_wide; lia).
      rewrite wraps_small by (try lia; unfold in_s; destruct is_wide; lia).
      destruct is_wide; lia. }
    split_and!; try lia.
    + intros t Ht. destruct Hcase as [[-> ->]|[-> ->]]; cbn [cond_holds];
        apply Bool.eq_iff_eq_true; rewrite ?Z.leb_le, ?Z.ltb_lt; lia.
    + intros t Ht Hlt. unfold in_s in *. lia.
    + unfold in_s in *. destruct is_wide; lia.
Qed.
End Integral.

(** The count of an accepted loop whose distance fits 64 bits. *)
Lemma accepted_count g step start E :
  g = 1 \/ g = -1 -> 0 < step -> g * start < g * E -> - 2 ^ 63 < E - start < 2 ^ 63 ->
  iteration_count (g * step) start E = ceil_div (g * E - g * start) step
  /\ 0 < ceil_div (g * E - g * start) step.
Proof.
  intros Hg Hstep Hlt Hd. set (n := ceil_div (g * E - g * start) step) in *.
  assert (0 < n <= g * E - g * start) as Hn0.
  { unfold n. rewrite ceil_div_step by done. unfold ceil_div.
    assert (0 <= (g * E - g * start - step + step - 1) / step) by (apply Z.div_pos; lia).
    assert ((g * E - g * start - step + step - 1) / step <= g * E - g * start - 1);
      [|lia]. apply Z.div_le_upper_bound; nia. }
  split; [|lia]. apply iteration_count_ceil; try done; fold n; unfold in_s; [lia|].
  destruct Hg as [-> | ->]; lia.
Qed.

(** The number of times a block of the loop that runs on every iteration is executed: a block
    above the test runs before it, one below only when the loop continues. *)
Fixpoint count_block (fuel : nat) (w inc : Z) (test : Z -> bool)
  (after on_phi above : bool) (i : Z) : option Z :=
  match fuel with
  | O => None
  | S fuel =>
      let l := wraps w (i + inc) in
      if test (if after && negb on_phi then l else i)
      then Z.succ <$> count_block fuel w inc test after on_phi above l
      else Some (if above then 1 else 0)
  end.

Lemma count_block_increments fuel w inc test after on_phi above i n :
  count_increments fuel w inc test after on_phi i = Some n ->
  count_block fuel w inc test after on_phi above i
  = Some (if Bool.eqb after above then n else if after then n - 1 else n + 1).
Proof.
  revert i n. induction fuel as [|fuel IH]; intros i n H; [done|].
  cbn [count_increments count_block] in *.
  destruct after, on_phi; cbn [andb negb] in *;
    (destruct (test _); [|by injection H as <-; destruct above]);
    destruct (count_increments _ _ _ _ _ _ _) as [m|] eqn:E; try done;
    cbn in H; injection H as <-; rewrite (IH _ _ E); cbn; f_equal; by destruct above; cbn; lia.
Qed.

(** The count of a block, shared by the theorems below. *)
Lemma accepted_block_count e iv is_wide start k info after above fuel :
  integral_loop e iv is_wide start k ->
  ComputeBoundInformation (Some e) = Some (true, info) ->
  (is_wide = true -> - 2 ^ 63 < biv_end_value_ info - start < 2 ^ 63) ->
  num_iterations_ info < Z.of_nat fuel ->
  count_block fuel (if is_wide then 64 else 32) (GetIncrement iv)
    (continues (if is_wide then 64 else 32) e) after (negb after) above start
  = Some (GetNumIterations info true after above).
Proof.
  intros Hl Hc Hwide Hf. pose proof Hl as [_ _ _ _ Hk (Hs & _)].
  destruct (compute_integral e iv is_wide start k Hl info Hc)
    as (c & c' & cond & E & Hcond & Hc' & Hn & Hcl & Hnum & Hst & HE & Hbiv).
  destruct (accepted_loop e iv is_wide start k Hl c' cond E Hn Hcl)
    as (g & step & Hg & Hstep & Hinc & Htest & Hrange & Hlt & HEr).
  destruct (exit_bound e) as [kc|] eqn:Eb; [|done]. cbn in Hk.
  assert (- 2 ^ 63 < E - start < 2 ^ 63) as Hd.
  { unfold in_s in *. destruct is_wide; [rewrite HE in Hwide; by apply Hwide|lia]. }
  pose proof (accepted_count g step start E Hg Hstep Hlt Hd) as [Hni Hpos].
  rewrite <- Hinc, <- Hnum in Hni. set (n := ceil_div (g * E - g * start) step) in *.
  set (w := if is_wide then 64 else 32) in *. assert (0 < w) by (unfold w; by destruct is_wide).
  assert (forall t, in_s w t -> continues w e t = (g * t <? g * E)) as Htest'.
  { intros t Ht. rewrite (continues_condition w e c c' kc t Hcond Eb Hc'), Hk. by apply Htest. }
  assert (count_increments fuel w (GetIncrement iv) (continues w e) after (negb after) start
          = Some n) as Hcount.
  { rewrite Hinc. rewrite Hni in Hf. destruct after; cbn [negb].
    - by apply count_test_after.
    - by apply count_test_before. }
  rewrite (count_block_increments _ _ _ _ _ _ above _ _ Hcount).
  unfold GetNumIterations. rewrite Hbiv, Hni. destruct (Z.eqb_spec n (-1)); [lia|]. done.
Qed.


(** [for (int i = 0; 10 > i; i += 3)], left by the false branch. *)
Definition sample_iv : HInductionVariable := mkIV (IntConstant 3) (Some (IntConstant 0)).
Definition sample_exit : loop_exit :=
  mkExit true (Some kCondGT) kPrimInt None (Some sample_iv) (Some (IntConstant 10)) None false.
Definition info_of (e : loop_exit) : HLoopBoundInformation :=
  match ComputeBoundInformation (Some e) with Some (_, b) => b | None => bound_init end.


(** [for (long i = -2^62; i < 2^62; i += 2^61 + 1)] and the same from the smallest value. *)
Definition long_iv (start inc : Z) : HInductionVariable :=
  mkIV (LongConstant inc) (Some (LongConstant start)).
Definition long_exit (start inc bound : Z) : loop_exit :=
  mkExit true (Some kCondLT) kPrimLong (Some (long_iv start inc)) None None
    (Some (LongConstant bound)) false.

(** Without that restriction the count is wrong: for
    [for (long i = INT64_MIN; i < 2^62; i += 2^61)] the 64-bit distance overflows, the analysis
    accepts the loop and reports -2 iterations, where the loop runs 6 times. *)
Theorem long_bound_overflow :
  let e := long_exit INT64_MIN (2 ^ 61) (2 ^ 62) in
  ComputeBoundInformation (Some e) = Some (true, info_of e)
  /\ num_iterations_ (info_of e) = -2
  /\ count_increments 10 64 (2 ^ 61) (continues 64 e) false true INT64_MIN = Some 6.
Proof. vm_compute. split; [reflexivity|]. split; reflexivity. Qed.

(** When the test reads the phi after the increment ([do ... while (i++ < n)]), the
    analysis accepts the loop with the same count although the loop makes one more increment:
    the reported number of iterations of every block above the test is one too small. *)
Theorem phi_test_after_increment e iv is_wide start k info fuel :
  integral_loop e iv is_wide start k ->
  ComputeBoundInformation (Some e) = Some (true, info) ->
  (is_wide = true -> - 2 ^ 63 < biv_end_value_ info - start < 2 ^ 63) ->
  1 + num_iterations_ info < Z.of_nat fuel ->
  count_block fuel (if is_wide then 64 else 32) (GetIncrement iv)
    (continues (if is_wide then 64 else 32) e) true true true start
  = Some (1 + GetNumIterations info true true true).
Proof.
  intros Hl Hc Hwide Hf. pose proof Hl as [_ _ _ _ Hk (Hs & _)].
  destruct (compute_integral e iv is_wide start k Hl info Hc)
    as (c & c' & cond & E & Hcond & Hc' & Hn & Hcl & Hnum & Hst & HE & Hbiv).
  destruct (accepted_loop e iv is_wide start k Hl c' cond E Hn Hcl)
    as (g & step & Hg & Hstep & Hinc & Htest & Hrange & Hlt & HEr).
  destruct (exit_bound e) as [kc|] eqn:Eb; [|done]. cbn in Hk.
  assert (- 2 ^ 63 < E - start < 2 ^ 63) as Hd.
  { unfold in_s in *. destruct is_wide; [rewrite HE in Hwide; by apply Hwide|lia]. }
  pose proof (accepted_count g step start E Hg Hstep Hlt Hd) as [Hni Hpos].
  rewrite <- Hinc, <- Hnum in Hni.
  set (w := if is_wide then 64 else 32) in *. assert (0 < w) by (unfold w; by destruct is_wide).
  assert (forall t, in_s w t -> continues w e t = (g * t <? g * E)) as Htest'.
  { intros t Ht. rewrite (continues_condition w e c c' kc t Hcond Eb Hc'), Hk. by apply Htest. }
  rewrite (count_block_increments _ _ _ _ _ _ true _ (1 + num_iterations_ info)).
  - unfold GetNumIterations. rewrite Hbiv. destruct (Z.eqb_spec (num_iterations_ info) (-1)); [lia|].
    done.
  - rewrite Hinc, Hni. apply count_phi_after; try done. lia.
Qed.

(** [int i = 0; do { ... } while (i++ < 10);] *)
Definition do_while_exit : loop_exit :=
  mkExit true (Some kCondLT) kPrimInt (Some (mkIV (IntConstant 1) (Some (IntConstant 0)))) None
    None (Some (IntConstant 10)) false.

Lemma phi_test_after_increment_witness :
  count_block 13 32 1 (continues 32 do_while_exit) true true true 0
  = Some (1 + GetNumIterations (info_of do_while_exit) true true true)
  /\ GetNumIterations (info_of do_while_exit) true true true = 10.
Proof.
  split; [|vm_compute; reflexivity].
  apply (phi_test_after_increment do_while_exit (mkIV (IntConstant 1) (Some (IntConstant 0)))
           false 0 10 (info_of do_while_exit) 13).
  - split; try reflexivity. by vm_compute.
  - vm_compute. reflexivity.
  - done.
  - by vm_compute.
Defined.

(** ** Floating-point loops: the count against the loop *)

(** The number of values the body of [for (x = start; x cond bound; x += inc)] sees. *)
Fixpoint count_fp (fuel : nat) (F : fformat) (cond : Z -> Z -> bool) (inc bound x : Z) : option Z :=
  match fuel with
  | O => None
  | S fuel =>
      if cond x bound then Z.succ <$> count_fp fuel F cond inc bound (fadd F x inc) else Some 0
  end.
Definition float_exit (c : IfCondition) (start inc bound : Z) : loop_exit :=
  mkExit true (Some c) kPrimFloat (Some (mkIV (FloatConstant inc) (Some (FloatConstant start))))
    None None (Some (FloatConstant bound)) false.
Definition fle (F : fformat) (x y : Z) : bool := flt F x y || feq F x y.

(** [for (float x = 1; x < 10; x += 1)] and [x <= 10]: here the count is the loop's. *)
Example float_count_lt :
  num_iterations_ (info_of (float_exit kCondLT 0x3f800000 0x3f800000 0x41200000)) = 9
  /\ count_fp 20 binary32 (flt binary32) 0x3f800000 0x41200000 0x3f800000 = Some 9.
Proof. vm_compute. split; reflexivity. Qed.
Example float_count_le :
  num_iterations_ (info_of (float_exit kCondLE 0x3f800000 0x3f800000 0x41200000)) = 10
  /\ count_fp 20 binary32 (fle binary32) 0x3f800000 0x41200000 0x3f800000 = Some 10.
Proof. vm_compute. split; reflexivity. Qed.

(** The floating-point analysis does not look at the direction of the comparison: for
    [for (float x = 1; x > 10; x += 1)] it reports 9 iterations, where the loop runs none. *)
Theorem float_bound_wrong_direction :
  let e := float_exit kCondGT 0x3f800000 0x3f800000 0x41200000 in
  ComputeBoundInformation (Some e) = Some (true, info_of e)
  /\ num_iterations_ (info_of e) = 9
  /\ count_fp 20 binary32 (fgt binary32) 0x3f800000 0x41200000 0x3f800000 = Some 0.
Proof. vm_compute. split; [reflexivity|]. split; reflexivity. Qed.

(** Its representability test is not sufficient: with start 2, end 6 and the increment
    [1 + 2^-22], whose low bit is lost when its mantissa is aligned to the end's power, it
    reports 5 iterations of [x <= 6], where the loop runs 4. *)
Theorem float_bound_lost_bits :
  let e := float_exit kCondLE 0x40000000 0x3f800002 0x40c00000 in
  ComputeBoundInformation (Some e) = Some (true, info_of e)
  /\ num_iterations_ (info_of e) = 5
  /\ count_fp 20 binary32 (fle binary32) 0x3f800002 0x40c00000 0x40000000 = Some 4.
Proof. vm_compute. split; [reflexivity|]. split; reflexivity. Qed.
