(* ===== verification/TrivialLoopEvaluator.v ===== *)
(** * The compile-time evaluator of trivial loops

    [TLEVisitor] and [TrivialLoopEvaluator::EvaluateLoop] of
    compiler/optimizing/extensions/passes/trivial_loop_evaluator.cc: the pass interprets the
    instructions of a small counted loop on constants and replaces the loop by the results.

    Instructions and blocks are named by integers.  The union [Value] is a 64-bit word; its
    integer members are read from the low bytes (little endian).  A visit that calls
    [SetError] leaves the other fields alone: the evaluation is abandoned then. *)

From Stdlib Require Import SpecFloat.
From S2P Require Import Prelude Floats InterpreterBase Interpreter InterpreterTheorems LoopBounds.

(** ** Instructions and blocks *)
Inductive ComparisonBias := kNoBias | kGtBias | kLtBias.

Inductive HOp :=
| HSuspendCheck
| HGoto (successor : Z)
| HIf (if_true if_false : Z)
| HPhi
| HTypeConversion
| HCompare (bias : ComparisonBias)
| HCondition (c : IfCondition) (bias : ComparisonBias)
| HNeg | HAdd | HSub | HMul | HDiv | HRem | HShl | HShr | HUShr | HAnd | HOr | HXor | HNot
| HBooleanNot
| HConst (c : HConstant)
| HOther.

Record HInstruction := mkInsn { i_op : HOp; i_type : Primitive; i_inputs : list Z }.
Record HBasicBlock := mkBlock { b_phis : list Z; b_instructions : list Z; b_predecessors : list Z }.

(** ** Values *)
Definition Value := Z.
Definition Value_int (i : Z) : Value := u32 i.
Definition Value_long (l : Z) : Value := u64 l.
Definition v_i (v : Value) : Z := s32 v.
Definition v_l (v : Value) : Z := s64 v.
Definition v_f (v : Value) : Z := u32 v.
Definition v_d (v : Value) : Z := u64 v.

(** The result of a visit: a value, [SetError], or an operation the language leaves undefined
    (on x86 the compiler traps). *)
Inductive tle_result := Val (v : Value) | Err | Trap.

(** [SWITCH_FOR_JAVA_TYPES] and [SWITCH_FOR_CAST_TYPES]. *)
Definition java_types {A} (t : Primitive) (err bool_case int_case long_case float_case double_case : A)
  : A :=
  match t with
  | kPrimBoolean => bool_case
  | kPrimByte | kPrimShort | kPrimInt => int_case
  | kPrimLong => long_case
  | kPrimFloat => float_case
  | kPrimDouble => double_case
  | _ => err
  end.
Definition cast_types {A} (t : Primitive)
  (err bool_case byte_case short_case int_case long_case float_case double_case : A) : A :=
  match t with
  | kPrimBoolean => bool_case
  | kPrimByte => byte_case
  | kPrimShort => short_case
  | kPrimInt => int_case
  | kPrimLong => long_case
  | kPrimFloat => float_case
  | kPrimDouble => double_case
  | _ => err
  end.

(** ** Conversions *)

(** [INTEGRAL_TO_FP_CONV]: the bounds are converted to the format of the value. *)
Definition INTEGRAL_TO_FP_CONV (F : fformat) (vmin vmax : Z) (cast : spec_float -> Z) (value : Z)
  : Z :=
  let v := decode F value in
  if is_nan v then 0
  else if SFltb (SFofZ F vmax) v || SFeqb (SFofZ F vmax) v then vmax
  else if SFltb v (SFofZ F vmin) || SFeqb v (SFofZ F vmin) then vmin
  else cast v.

(** [static_cast<bool>]: every value but zero is true. *)
Definition cast_bool (v : spec_float) : Z := Z.b2z (negb (SFeqb v (S754_zero false))).

Definition fp_conversion (F : fformat) (out_type : Primitive) (x : Z) : tle_result :=
  let conv vmin vmax := INTEGRAL_TO_FP_CONV F vmin vmax SFtrunc x in
  cast_types out_type Err
    (if ebits F =? 11 then Val (Value_int (INTEGRAL_TO_FP_CONV F 0 1 cast_bool x)) else Err)
    (Val (Value_int (conv (-128) 127)))
    (Val (Value_int (conv (-32768) 32767)))
    (Val (Value_int (conv INT32_MIN INT32_MAX)))
    (Val (Value_long (conv INT64_MIN INT64_MAX)))
    (if ebits F =? 11 then Val (fconvert binary64 binary32 x) else Err)
    (if ebits F =? 11 then Err else Val (fconvert binary32 binary64 x)).

Definition VisitTypeConversion (in_type out_type : Primitive) (x : Value) : tle_result :=
  java_types in_type Err
    Err
    (cast_types out_type Err Err
       (Val (Value_int (s8 (v_i x)))) (Val (Value_int (s16 (v_i x)))) (Val (Value_int (v_i x)))
       (Val (Value_long (v_i x))) (Val (fofZ binary32 (v_i x))) (Val (fofZ binary64 (v_i x))))
    (cast_types out_type Err Err
       (Val (Value_int (s8 (v_l x)))) (Val (Value_int (s16 (v_l x))))
       (Val (Value_int (s32 (v_l x))))
       Err (Val (fofZ binary32 (v_l x))) (Val (fofZ binary64 (v_l x))))
    (fp_conversion binary32 out_type (v_f x))
    (fp_conversion binary64 out_type (v_d x)).

(** ** Comparisons *)

(** [std::numeric_limits<T>::epsilon()]. *)
Definition epsilon (F : fformat) : Z := if ebits F =? 11 then 0x3cb0000000000000 else 0x34000000.

Definition FpEqual (F : fformat) (x y : Z) : bool :=
  if fgt F x y then flt F (fsub F x y) (epsilon F) else flt F (fsub F y x) (epsilon F).

Definition compare_int (x y : Z) : Z := if x =? y then 0 else if y <? x then 1 else -1.
Definition compare_fp (F : fformat) (bias : ComparisonBias) (x y : Z) : Z :=
  if is_nan (decode F x) || is_nan (decode F y)
  then match bias with kGtBias => 1 | _ => -1 end
  else if FpEqual F x y then 0 else if fgt F x y then 1 else -1.

(** [Compare] on the operands' type; [None] is [SetError]. *)
Definition Compare (t : Primitive) (bias : ComparisonBias) (x y : Value) : option Z :=
  java_types t None None
    (Some (compare_int (v_i x) (v_i y)))
    (Some (compare_int (v_l x) (v_l y)))
    (Some (compare_fp binary32 bias (v_f x) (v_f y)))
    (Some (compare_fp binary64 bias (v_d x) (v_d y))).

Definition VisitCompare (t : Primitive) (bias : ComparisonBias) (x y : Value) : tle_result :=
  match Compare t bias x y with Some r => Val (Value_int r) | None => Err end.

(** [VisitUnsignedComparision] with its comparator on [uint64_t]. *)
Definition VisitUnsignedComparision (t : Primitive) (comparator : Z -> Z -> bool) (x y : Value)
  : tle_result :=
  java_types t Err Err
    (Val (Value_int (Z.b2z (comparator (u32 (v_i x)) (u32 (v_i y))))))
    (Val (Value_int (Z.b2z (comparator (u64 (v_l x)) (u64 (v_l y))))))
    Err Err.

Definition VisitCondition (c : IfCondition) (t : Primitive) (bias : ComparisonBias) (x y : Value)
  : tle_result :=
  let signed (p : Z -> bool) :=
    match Compare t bias x y with Some r => Val (Value_int (Z.b2z (p r))) | None => Err end in
  match c with
  | kCondEQ => signed (fun r => r =? 0)
  | kCondNE => signed (fun r => negb (r =? 0))
  | kCondLT => signed (fun r => r <? 0)
  | kCondLE => signed (fun r => r <=? 0)
  | kCondGT => signed (fun r => 0 <? r)
  | kCondGE => signed (fun r => 0 <=? r)
  | kCondB => VisitUnsignedComparision t Z.ltb x y
  | kCondBE => VisitUnsignedComparision t Z.leb x y
  | kCondA => VisitUnsignedComparision t (fun a b => b <? a) x y
  | kCondAE => VisitUnsignedComparision t (fun a b => b <=? a) x y
  end.

(** ** Arithmetic

    Signed overflow of [+], [-], [*] and [<<] wraps (two's complement). *)
Definition VisitNeg (t : Primitive) (x : Value) : tle_result :=
  java_types t Err Err
    (Val (Value_int (- v_i x))) (Val (Value_long (- v_l x)))
    (Val (fneg binary32 (v_f x))) (Val (fneg binary64 (v_d x))).

Definition VisitAdd (t : Primitive) (x y : Value) : tle_result :=
  java_types t Err Err
    (Val (Value_int (v_i x + v_i y))) (Val (Value_long (v_l x + v_l y)))
    (Val (fadd binary32 (v_f x) (v_f y))) (Val (fadd binary64 (v_d x) (v_d y))).

Definition VisitSub (t : Primitive) (x y : Value) : tle_result :=
  java_types t Err Err
    (Val (Value_int (v_i x - v_i y))) (Val (Value_long (v_l x - v_l y)))
    (Val (fsub binary32 (v_f x) (v_f y))) (Val (fsub binary64 (v_d x) (v_d y))).

Definition VisitMul (t : Primitive) (x y : Value) : tle_result :=
  java_types t Err Err
    (Val (Value_int (v_i x * v_i y))) (Val (Value_long (v_l x * v_l y)))
    (Val (fmul binary32 (v_f x) (v_f y))) (Val (fmul binary64 (v_d x) (v_d y))).

(** The quotient of the smallest integer by -1 is not representable. *)
Definition VisitDiv (t : Primitive) (x y : Value) : tle_result :=
  java_types t Err Err
    (if v_i y =? 0 then Err
     else if (v_i x =? INT32_MIN) && (v_i y =? -1) then Trap
     else Val (Value_int (Z.quot (v_i x) (v_i y))))
    (if v_l y =? 0 then Err
     else if (v_l x =? INT64_MIN) && (v_l y =? -1) then Trap
     else Val (Value_long (Z.quot (v_l x) (v_l y))))
    (Val (fdiv binary32 (v_f x) (v_f y))) (Val (fdiv binary64 (v_d x) (v_d y))).

Definition is_inf (x : spec_float) : bool :=
  match x with S754_infinity _ => true | _ => false end.
Definition quiet_NaN (F : fformat) : Z := encode F S754_nan.

Definition FpRem (F : fformat) (x y : Z) : Z :=
  let dx := decode F x in
  let dy := decode F y in
  if is_nan dx || is_nan dy || is_inf dx || FpEqual F y 0 then quiet_NaN F
  else if is_inf dy then x
  else if FpEqual F x 0 then x
  else frem F x y.

Definition VisitRem (t : Primitive) (x y : Value) : tle_result :=
  java_types t Err Err
    (if v_i y =? 0 then Err
     else Val (Value_int (if v_i y =? -1 then 0 else Z.rem (v_i x) (v_i y))))
    (if v_l y =? 0 then Err
     else Val (Value_long (if v_l y =? -1 then 0 else Z.rem (v_l x) (v_l y))))
    (Val (FpRem binary32 (v_f x) (v_f y))) (Val (FpRem binary64 (v_d x) (v_d y))).

(** The mask depends on the type of the left operand. *)
Definition ComputeShiftCount (t : Primitive) (y : Value) : Z :=
  if bool_decide (t = kPrimLong) then Z.land (v_l y) 0x3f else Z.land (v_i y) 0x1f.

Definition VisitShl (t : Primitive) (x y : Value) : tle_result :=
  let shift_count := ComputeShiftCount t y in
  java_types t Err Err
    (Val (Value_int (Z.shiftl (v_i x) shift_count)))
    (Val (Value_long (Z.shiftl (v_l x) shift_count))) Err Err.

Definition VisitShr (t : Primitive) (x y : Value) : tle_result :=
  let shift_count := ComputeShiftCount t y in
  java_types t Err Err
    (Val (Value_int (Z.shiftr (v_i x) shift_count)))
    (Val (Value_long (Z.shiftr (v_l x) shift_count))) Err Err.

Definition VisitUShr (t : Primitive) (x y : Value) : tle_result :=
  let shift_count := ComputeShiftCount t y in
  java_types t Err Err
    (Val (Value_int (s32 (Z.shiftr (u32 (v_i x)) shift_count))))
    (Val (Value_long (s64 (Z.shiftr (u64 (v_l x)) shift_count)))) Err Err.

Definition GetValueAsLong (t : Primitive) (v : Value) : Z :=
  java_types t 0 (v_i v) (v_i v) (v_l v)
    (SFtrunc (decode binary32 (v_f v))) (SFtrunc (decode binary64 (v_d v))).

(** [VisitAnd], [VisitOr] and [VisitXor], on the result type and the operands' types. *)
Definition VisitBitwise (op : Z -> Z -> Z) (t tx ty : Primitive) (x y : Value) : tle_result :=
  let r := op (GetValueAsLong tx x) (GetValueAsLong ty y) in
  java_types t Err
    (Val (Value_int (Z.b2z (negb (r =? 0))))) (Val (Value_int (s32 r))) (Val (Value_long r)) Err Err.

Definition VisitNot (t : Primitive) (x : Value) : tle_result :=
  java_types t Err
    (Val (Value_int (Z.lnot (v_i x)))) (Val (Value_int (Z.lnot (v_i x))))
    (Val (Value_long (Z.lnot (v_l x)))) Err Err.

Definition VisitBooleanNot (t : Primitive) (x : Value) : tle_result :=
  let r := Val (Value_int (if v_i x =? 0 then 1 else 0)) in
  java_types t Err r r Err Err Err.

(** ** The visitor *)
Record TLEVisitor := mkTLE {
  pred_index_ : nat;
  is_error_ : bool;
  next_bb_ : option Z;
  values_ : gmap Z Value;
  phi_values_ : gmap Z Value
}.

(** The outcome of the evaluation; a trap kills the compiler. *)
Inductive eval_result :=
| Evaluated (s : TLEVisitor) (exit_block current_iter : Z)
| Failed
| Trapped
| NoFuel.

Section Visitor.
Context (insn : Z -> HInstruction).

(** [GetValue]: a constant, or the value computed for the instruction; [None] is the error. *)
Definition constant_value (t : Primitive) (c : HConstant) : option Value :=
  match c with
  | IntConstant v => java_types t None (Some (Value_int v)) (Some (Value_int v)) None None None
  | LongConstant v => java_types t None None None (Some (Value_long v)) None None
  | FloatConstant b => java_types t None None None None (Some (u32 b)) None
  | DoubleConstant b => java_types t None None None None None (Some (u64 b))
  end.
Definition GetValue (s : TLEVisitor) (i : Z) : option Value :=
  match i_op (insn i) with
  | HConst c => constant_value (i_type (insn i)) c
  | _ => values_ s !! i
  end.

Definition input (i : Z) (n : nat) : option Z := i_inputs (insn i) !! n.
Definition input_type (i : Z) (n : nat) : Primitive :=
  match input i n with Some j => i_type (insn j) | None => kPrimVoid end.

(** The value an instruction other than the control instructions and phis computes. *)
Definition unary (s : TLEVisitor) (i : Z) (f : Value -> tle_result) : tle_result :=
  match input i 0 ≫= GetValue s with Some x => f x | None => Err end.
Definition binary (s : TLEVisitor) (i : Z) (f : Value -> Value -> tle_result) : tle_result :=
  match input i 0 ≫= GetValue s, input i 1 ≫= GetValue s with
  | Some x, Some y => f x y
  | _, _ => Err
  end.

Definition evaluate (s : TLEVisitor) (i : Z) : tle_result :=
  let t := i_type (insn i) in
  let tx := input_type i 0 in
  let ty := input_type i 1 in
  match i_op (insn i) with
  | HTypeConversion => unary s i (VisitTypeConversion tx t)
  | HCompare bias => binary s i (VisitCompare tx bias)
  | HCondition c bias => binary s i (VisitCondition c tx bias)
  | HNeg => unary s i (VisitNeg tx)
  | HAdd => binary s i (VisitAdd tx)
  | HSub => binary s i (VisitSub tx)
  | HMul => binary s i (VisitMul tx)
  | HDiv => binary s i (VisitDiv tx)
  | HRem => binary s i (VisitRem tx)
  | HShl => binary s i (VisitShl tx)
  | HShr => binary s i (VisitShr tx)
  | HUShr => binary s i (VisitUShr tx)
  | HAnd => binary s i (VisitBitwise Z.land t tx ty)
  | HOr => binary s i (VisitBitwise Z.lor t tx ty)
  | HXor => binary s i (VisitBitwise Z.lxor t tx ty)
  | HNot => unary s i (VisitNot t)
  | HBooleanNot => unary s i (VisitBooleanNot t)
  | _ => Err
  end.

Definition SetError (s : TLEVisitor) : TLEVisitor :=
  mkTLE (pred_index_ s) true (next_bb_ s) (values_ s) (phi_values_ s).
Definition set_next (s : TLEVisitor) (b : Z) : TLEVisitor :=
  mkTLE (pred_index_ s) (is_error_ s) (Some b) (values_ s) (phi_values_ s).
Definition set_value (s : TLEVisitor) (i : Z) (v : Value) : TLEVisitor :=
  mkTLE (pred_index_ s) (is_error_ s) (next_bb_ s) (<[i := v]> (values_ s)) (phi_values_ s).
Definition setPredecessorIndex (s : TLEVisitor) (idx : nat) : TLEVisitor :=
  mkTLE idx (is_error_ s) (next_bb_ s) (values_ s) (phi_values_ s).

(** One instruction; [None] is a trap of the compiler.  [NOTHING_IF_ERROR] comes first. *)
Definition Accept (s : TLEVisitor) (i : Z) : option TLEVisitor :=
  match i_op (insn i) with
  | HSuspendCheck => Some s
  | o =>
      if is_error_ s then Some s
      else match o with
      | HGoto b => Some (set_next s b)
      | HIf t f =>
          match input i 0 ≫= GetValue s with
          | Some x => Some (set_next s (if v_i x =? 1 then t else f))
          | None => Some (set_next (SetError s) f)
          end
      | HPhi => Some (SetError s)
      | _ =>
          match evaluate s i with
          | Val v => Some (set_value s i v)
          | Err => Some (SetError s)
          | Trap => None
          end
      end
  end.

(** [VisitPhi]: the new value goes to [phi_values_]. *)
Definition VisitPhi (s : TLEVisitor) (i : Z) : TLEVisitor :=
  if is_error_ s then s
  else match input i (pred_index_ s) ≫= GetValue s with
  | Some v =>
      mkTLE (pred_index_ s) (is_error_ s) (next_bb_ s) (values_ s) (<[i := v]> (phi_values_ s))
  | None => SetError s
  end.

(** The update of all phis from [phi_values_]. *)
Definition update_phis (s : TLEVisitor) : TLEVisitor :=
  mkTLE (pred_index_ s) (is_error_ s) (next_bb_ s) (phi_values_ s ∪ values_ s) ∅.

Definition accept_all (s : TLEVisitor) (l : list Z) : option TLEVisitor :=
  foldl (fun o i => match o with Some s => Accept s i | None => None end) (Some s) l.

Definition VisitBasicBlock (s : TLEVisitor) (b : HBasicBlock) : option TLEVisitor :=
  accept_all (update_phis (foldl VisitPhi s (b_phis b))) (b_instructions b).

Context (block : Z -> HBasicBlock) (in_loop : Z -> bool).

(** [GetPredecessorIndexOf]. *)
Definition GetPredecessorIndexOf (b pred : Z) : nat :=
  default 0%nat (fst <$> list_find (fun p => p = pred) (b_predecessors (block b))).

(** [EvaluateLoop] from [current_block], with its count of the visits of the header.  The
    debug checks that compare the count with the bound analysis are not executed; the count
    is part of the result instead. *)
Context (header : Z).
Fixpoint EvaluateLoop (fuel : nat) (s : TLEVisitor) (current_block current_iter : Z)
  : eval_result :=
  if in_loop current_block then
    match fuel with
    | O => NoFuel
    | S fuel =>
        match VisitBasicBlock s (block current_block) with
        | None => Trapped
        | Some s =>
            if is_error_ s then Failed
            else match next_bb_ s with
            | None => Failed
            | Some bb =>
                EvaluateLoop fuel
                  (setPredecessorIndex s (GetPredecessorIndexOf bb current_block)) bb
                  (if current_block =? header then current_iter + 1 else current_iter)
            end
        end
    end
  else Evaluated s current_block current_iter.
End Visitor.

Definition tle_init : TLEVisitor := mkTLE 0 false None ∅ ∅.

(** [LoopGate] on the answers of the graph, with the option's value. *)
Definition kDefaultLoopEvalMaxIter : Z := 1000.
Definition LoopGate (num_blocks : Z) (is_inner has_one_exit_edge has_known_num_iterations : bool)
  (header_iterations eval_max_iter : Z) : bool :=
  if 2 <? num_blocks then false
  else if negb is_inner then false
  else if negb has_one_exit_edge then false
  else if negb has_known_num_iterations then false
  else negb (eval_max_iter <? header_iterations).
