(* ===== verification/TrivialLoopTheorems.v ===== *)
(** * Correctness of the trivial-loop evaluator

    The evaluator's arithmetic, comparisons and conversions against the reference semantics the
    interpreter is proved to implement; the parallel update of the phis; and the evaluation of
    a counted loop, whose count of header visits is the one the bound analysis predicts. *)

From Stdlib Require Import SpecFloat.
From S2P Require Import Prelude Floats InterpreterBase Interpreter InterpreterTheorems LoopBounds TrivialLoopEvaluator.

(** ** Integer arithmetic *)
Definition tle_op (op : arith_op) : option HOp :=
  match op with
  | Add => Some HAdd | Sub => Some HSub | Mul => Some HMul | Div => Some HDiv | Rem => Some HRem
  | And => Some HAnd | Or => Some HOr | Xor => Some HXor
  | Shl => Some HShl | Shr => Some HShr | Ushr => Some HUShr
  | Rsub => None
  end.
Definition is_shift (op : arith_op) : bool :=
  match op with Shl | Shr | Ushr => true | _ => false end.
Definition is_div (op : arith_op) : bool := match op with Div => true | _ => false end.

(** The integral types by width. *)
Definition integral_type (is_wide : bool) (t : Primitive) : bool :=
  match t with
  | kPrimByte | kPrimShort | kPrimInt => negb is_wide
  | kPrimLong => is_wide
  | _ => false
  end.
Definition value_at (is_wide : bool) (v : Value) : Z := if is_wide then v_l v else v_i v.

(** What the visit of an arithmetic instruction should be. *)
Definition tle_expected (is_wide : bool) (op : arith_op) (x y : Value) : tle_result :=
  let w := if is_wide then 64 else 32 in
  let a := value_at is_wide x in
  let b := value_at (is_wide && negb (is_shift op)) y in
  match java_arith w op a b with
  | None => Err
  | Some r => if is_div op && (a =? - 2 ^ (w - 1)) && (b =? -1) then Trap else Val (wrapu w r)
  end.

Lemma rem_minus_one w x : wraps w (Z.rem x (-1)) = wraps w 0.
Proof. f_equal. rewrite Z.rem_opp_r' with (b := 1). apply Z.rem_1_r. Qed.

Lemma wrapu_add_wraps w a b :
  0 < w -> wrapu w (wraps w (wrapu w a) + wraps w (wrapu w b)) = wrapu w (a + b).
Proof.
  intros Hw. rewrite !wraps_wrapu by done. rewrite <- (wrapu_wraps w (_ + _)).
  by rewrite wraps_add_l, wraps_add_r, wrapu_wraps.
Qed.

Lemma mod64_low y : s64 y mod 64 = s32 y mod 64.
Proof. unfold_width. dlia. Qed.

Definition tle_visit (op : arith_op) (t : Primitive) (x y : Value) : tle_result :=
  match op with
  | Add => VisitAdd t x y | Sub => VisitSub t x y | Mul => VisitMul t x y
  | Div => VisitDiv t x y | Rem => VisitRem t x y
  | And => VisitBitwise Z.land t t t x y | Or => VisitBitwise Z.lor t t t x y
  | Xor => VisitBitwise Z.lxor t t t x y
  | Shl => VisitShl t x y | Shr => VisitShr t x y | Ushr => VisitUShr t x y | Rsub => Err
  end.

(** Both sides are computed modulo the width; division and remainder split on the divisor. *)
Ltac visit_cases v Hsh Hw :=
  cbn [tle_visit java_arith is_div is_shift andb negb java_types VisitAdd VisitSub VisitMul
       VisitDiv VisitRem VisitBitwise VisitShl VisitShr VisitUShr GetValueAsLong];
  rewrite ?Hsh, ?Z.shiftl_mul_pow2, ?Z.shiftr_div_pow2 by lia; rewrite ?Hw; try done;
  unfold Value_int, Value_long; rewrite ?wrapu_wraps by lia; try done;
  destruct (v =? 0); try done;
  destruct (Z.eqb_spec v (-1)) as [->|];
  rewrite ?andb_false_r, ?andb_true_r, ?rem_minus_one; try done;
  rewrite ?wrapu_wraps by lia; done.

Lemma visit_narrow op o t x y :
  tle_op op = Some o -> integral_type false t = true ->
  tle_visit op t x y = tle_expected false op x y.
Proof.
  intros Ho Ht. unfold tle_expected, value_at. cbn [andb].
  assert (forall z, Value_int (s32 z) = Value_int z) as Hw by (intros; by apply wrapu_wraps).
  assert (ComputeShiftCount t y = v_i y mod 32) as Hsh.
  { unfold ComputeShiftCount. rewrite bool_decide_false, land_0x1f by (by destruct t). done. }
  assert (0 <= v_i y mod 32) by dlia.
  destruct t, op; try discriminate Ho; try discriminate Ht; visit_cases (v_i y) Hsh Hw.
Qed.

Lemma visit_wide op o t x y :
  tle_op op = Some o -> integral_type true t = true ->
  tle_visit op t x y = tle_expected true op x y.
Proof.
  intros Ho Ht. unfold tle_expected, value_at. cbn [andb].
  assert (forall z, Value_long (s64 z) = Value_long z) as Hw by (intros; by apply wrapu_wraps).
  assert (ComputeShiftCount t y = v_i y mod 64) as Hsh.
  { unfold ComputeShiftCount. rewrite bool_decide_true, land_0x3f by (by destruct t).
    apply mod64_low. }
  assert (0 <= v_i y mod 64) by dlia.
  destruct t, op; try discriminate Ho; try discriminate Ht; visit_cases (v_l y) Hsh Hw.
Qed.

Section Evaluate.
Context (insn : Z -> HInstruction) (s : TLEVisitor).

Lemma evaluate_binary i op o t a b x y :
  tle_op op = Some o -> insn i = mkInsn o t [a; b] -> i_type (insn a) = t ->
  (is_shift op = true \/ i_type (insn b) = t) ->
  GetValue insn s a = Some x -> GetValue insn s b = Some y ->
  evaluate insn s i = tle_visit op t x y.
Proof.
  intros Ho Hi Ha Hb Hx Hy. unfold evaluate, binary, input_type, input. rewrite Hi.
  cbn [i_op i_type i_inputs]. change ([a; b] !! 0%nat) with (Some a).
  change ([a; b] !! 1%nat) with (Some b). cbn. rewrite Ha, Hx, Hy.
  destruct op; cbn in Ho; inversion Ho; try done; destruct Hb as [Hb|Hb]; try discriminate Hb;
    by rewrite Hb.
Qed.

(** C26. The evaluator computes integer arithmetic as the language defines it, the reference
    the interpreter is proved against: [byte], [short] and [int] at 32 bits and [long] at 64,
    shift distances modulo the width, an error (the loop is left alone) on a zero divisor.
    The one exception is the quotient of the smallest value by -1, where the compiler itself
    divides and traps. *)
Theorem tle_arithmetic_java is_wide i op o t a b x y :
  tle_op op = Some o -> insn i = mkInsn o t [a; b] -> i_type (insn a) = t ->
  (is_shift op = true \/ i_type (insn b) = t) -> integral_type is_wide t = true ->
  GetValue insn s a = Some x -> GetValue insn s b = Some y ->
  evaluate insn s i = tle_expected is_wide op x y.
Proof.
  intros Ho Hi Ha Hb Ht Hx Hy. rewrite (evaluate_binary i op o t a b x y) by done.
  destruct is_wide; [by eapply visit_wide|by eapply visit_narrow].
Qed.
End Evaluate.

Definition sample_insn (i : Z) : HInstruction :=
  match i with
  | 0 => mkInsn (HConst (LongConstant 5)) kPrimLong []
  | 1 => mkInsn (HConst (IntConstant 65)) kPrimInt []
  | 2 => mkInsn HShl kPrimLong [0; 1]
  | _ => mkInsn HOther kPrimVoid []
  end.
Lemma tle_arithmetic_java_witness :
  evaluate sample_insn tle_init 2 = tle_expected true Shl 5 65 /\ tle_expected true Shl 5 65 = Val 10.
Proof.
  split; [|vm_compute; reflexivity].
  apply (tle_arithmetic_java sample_insn tle_init true 2 Shl HShl kPrimLong 0 1); try reflexivity.
  by left.
Defined.

(** The trap, at [INT_MIN / -1]. *)
Example tle_div_trap : VisitDiv kPrimInt 0x80000000 0xffffffff = Trap.
Proof. vm_compute. reflexivity. Qed.

(** ** Comparisons *)
Lemma compare_int_sign x y :
  compare_int x y = cmp_long x y
  /\ (compare_int x y =? 0) = (x =? y) /\ (compare_int x y <? 0) = (x <? y)
  /\ (0 <? compare_int x y) = (y <? x).
Proof. unfold compare_int, cmp_long. case_bool; split_and!; reflexivity || lia. Qed.

Lemma b2z_leb a b : (a <=? b) = negb (b <? a).
Proof. apply Z.leb_antisym. Qed.

Lemma condition_java is_wide t bias c x y :
  integral_type is_wide t = true ->
  let w := if is_wide then 64 else 32 in
  VisitCompare t bias x y = Val (Value_int (cmp_long (value_at is_wide x) (value_at is_wide y)))
  /\ VisitCondition c t bias x y
     = Val (Value_int (Z.b2z (cond_holds w c (value_at is_wide x) (value_at is_wide y)))).
Proof.
  intros Ht w. unfold VisitCompare, VisitCondition, VisitUnsignedComparision.
  assert (Compare t bias x y = Some (compare_int (value_at is_wide x) (value_at is_wide y))) as ->
    by (by destruct t, is_wide).
  destruct (compare_int_sign (value_at is_wide x) (value_at is_wide y)) as (<- & He & Hl & Hg).
  split; [done|]. destruct c; cbn [cond_holds].
  7-10: by destruct t, is_wide.
  all: rewrite ?b2z_leb, ?He, ?Hl, ?Hg; rewrite <- ?b2z_leb; done.
Qed.

(** On integral operands the evaluator's three-way comparison is the interpreter's
    [cmp-long] and each condition, signed or unsigned, is decided as the loop's semantics
    decides it. *)
Theorem tle_condition_java is_wide t bias c x y :
  integral_type is_wide t = true ->
  let w := if is_wide then 64 else 32 in
  VisitCompare t bias x y = Val (Value_int (cmp_long (value_at is_wide x) (value_at is_wide y)))
  /\ VisitCondition c t bias x y
     = Val (Value_int (Z.b2z (cond_holds w c (value_at is_wide x) (value_at is_wide y)))).
Proof. apply condition_java. Qed.
Lemma tle_condition_java_witness :
  VisitCondition kCondA kPrimInt kNoBias 0xffffffff 1
  = Val (Value_int (Z.b2z (cond_holds 32 kCondA (-1) 1)))
  /\ cond_holds 32 kCondA (-1) 1 = true.
Proof.
  split; [|reflexivity].
  apply (tle_condition_java false kPrimInt kNoBias kCondA 0xffffffff 1). reflexivity.
Defined.

(** ** Conversions of floating-point values *)
Lemma SFeqb_refl v : is_nan v = false -> SFeqb v v = true.
Proof.
  intros Hn. unfold SFeqb. destruct v as [[]|[]| |[] m e]; try done; cbn [SFcompare];
    by rewrite Z.compare_refl, Pos.compare_cont_refl.
Qed.

(** On numbers, "not less" is "greater or equal". *)
Lemma SFltb_total x y :
  is_nan x = false -> is_nan y = false -> SFltb y x || SFeqb y x = negb (SFltb x y).
Proof.
  intros Hx Hy. unfold SFltb, SFeqb. destruct x as [[]|[]| |[] m1 e1], y as [[]|[]| |[] m2 e2];
    try done; cbn [SFcompare];
    rewrite (Z.compare_antisym e1 e2); destruct (e1 ?= e2); cbn [CompOpp]; try done;
    pose proof (Pos.compare_cont_antisym m1 m2 Eq) as Hp; cbn [CompOpp] in Hp; rewrite <- Hp;
    by destruct (Pos.compare_cont _ _ _).
Qed.

(** The conversion macro is the runtime's conversion. *)
Lemma conv_art F w x :
  let kmin := SFofZ F (- 2 ^ (w - 1)) in
  let kmax := SFofZ F (2 ^ (w - 1) - 1) in
  1 < prec F -> canonical F kmin /\ is_finite kmin = true -> canonical F kmax /\ is_finite kmax = true ->
  canonical F (decode F x) -> SFltb kmin kmax = true ->
  INTEGRAL_TO_FP_CONV F (- 2 ^ (w - 1)) (2 ^ (w - 1) - 1) SFtrunc x = art_float_to_integral F w x.
Proof.
  intros kmin kmax Hp [Cmin Fmin] [Cmax Fmax] Cv. unfold INTEGRAL_TO_FP_CONV, art_float_to_integral.
  fold kmin kmax. clearbody kmin kmax. intros Hlt.
  destruct (is_nan (decode F x)) eqn:Hn.
  { destruct (decode F x); try done. by destruct kmin as [|[]| |[]]. }
  assert (is_nan kmin = false /\ is_nan kmax = false) as [] by (by destruct kmin, kmax).
  rewrite !SFltb_total, SFeqb_refl by done. cbn [negb].
  destruct (is_finite (decode F x)) eqn:Fv.
  - rewrite !(SFltb_scaled F) in * by done. case_bool; cbn [negb]; done || lia.
  - destruct (decode F x) as [|[]| |]; try done; by destruct kmin as [|[]| |[]], kmax as [|[]| |[]].
Qed.

Lemma conv_art_int F w x :
  (F = binary32 \/ F = binary64) -> (w = 32 \/ w = 64) ->
  INTEGRAL_TO_FP_CONV F (- 2 ^ (w - 1)) (2 ^ (w - 1) - 1) SFtrunc x = art_float_to_integral F w x.
Proof. intros [-> | ->] [-> | ->]; apply conv_art; clamp_side. Qed.

(** A conversion the evaluator performs from [float] or [double] to [int] or [long] gives
    the value the language, and hence the interpreter, gives. *)
Theorem tle_fp_conversion_java (is_double is_long : bool) (x : Value) :
  let F := if is_double then binary64 else binary32 in
  let w := if is_long then 64 else 32 in
  let bits := if is_double then v_d x else v_f x in
  VisitTypeConversion (if is_double then kPrimDouble else kPrimFloat)
    (if is_long then kPrimLong else kPrimInt) x
  = Val (wrapu w (java_float_to_int w (decode F bits))).
Proof.
  intros F w bits. rewrite <- art_float_to_integral_java, <- conv_art_int
    by (unfold F, w; destruct is_double, is_long; auto).
  by destruct is_double, is_long.
Qed.

(** The floating-point comparisons are not the language's: values closer than the
    machine epsilon compare equal (here 0 and 2^-24, where the interpreter's [cmpl-float] says
    less), infinity is not equal to itself, and a remainder by a number below the epsilon is a
    NaN (here [1 rem 2^-24], which is 0). *)
Theorem tle_float_epsilon :
  VisitCompare kPrimFloat kLtBias 0 0x33800000 = Val (Value_int 0)
  /\ cmpl binary32 0 0x33800000 = -1
  /\ VisitCondition kCondEQ kPrimFloat kLtBias 0x7f800000 0x7f800000 = Val (Value_int 0)
  /\ cmpl binary32 0x7f800000 0x7f800000 = 0
  /\ VisitRem kPrimFloat 0x3f800000 0x33800000 = Val (quiet_NaN binary32)
  /\ frem binary32 0x3f800000 0x33800000 = 0.
Proof. vm_compute. split_and!; reflexivity. Qed.

(** ** Phis *)
Section Phis.
Context (insn : Z -> HInstruction).

(** The value a phi receives on entry to its block. *)
Definition incoming (s : TLEVisitor) (i : Z) : option Value :=
  input insn i (pred_index_ s) ≫= GetValue insn s.

Lemma VisitPhi_incoming s i :
  is_error_ s = false ->
  VisitPhi insn s i
  = match incoming s i with
    | Some v => mkTLE (pred_index_ s) (is_error_ s) (next_bb_ s) (values_ s) (<[i := v]> (phi_values_ s))
    | None => SetError s
    end.
Proof. intros Hs. unfold VisitPhi. by rewrite Hs. Qed.

Lemma phis_after_error s phis : is_error_ s = true -> foldl (VisitPhi insn) s phis = s.
Proof.
  intros He. induction phis as [|p phis IH]; [done|]. cbn [foldl]. unfold VisitPhi at 2. by rewrite He.
Qed.

Lemma phis_fold phis : forall s,
  is_error_ s = false ->
  let s' := foldl (VisitPhi insn) s phis in
  values_ s' = values_ s
  /\ (is_error_ s' = true <-> Exists (fun p => incoming s p = None) phis)
  /\ (is_error_ s' = false ->
      pred_index_ s' = pred_index_ s /\ next_bb_ s' = next_bb_ s /\
      forall i, phi_values_ s' !! i
                = if decide (i ∈ phis) then incoming s i else phi_values_ s !! i).
Proof.
  induction phis as [|p phis IH]; intros s Hs; cbn [foldl].
  { split_and!; try done. split; [by rewrite Hs|]. intros H. by apply Exists_nil in H. }
  rewrite VisitPhi_incoming by done. destruct (incoming s p) as [v|] eqn:Hp.
  - set (s1 := mkTLE _ _ _ _ _). destruct (IH s1 Hs) as (Hv & He & Hl).
    assert (forall i, incoming s1 i = incoming s i) as Hinc by done.
    split_and!; [done| |].
    + rewrite He, Exists_cons. split; [auto|]. intros [H|H]; [by rewrite Hp in H|done].
    + intros Hf. destruct (Hl Hf) as (Hpi & Hnb & Hlook). split_and!; [done..|].
      intros i. rewrite Hlook, Hinc. cbn [phi_values_ s1].
      destruct (decide (i ∈ phis)), (decide (i ∈ p :: phis)); try done; [set_solver| |].
      * assert (i = p) as -> by set_solver. by rewrite lookup_insert_eq.
      * rewrite lookup_insert_ne; [done|set_solver].
  - rewrite phis_after_error by done. cbn. split_and!; try done.
    split; [intros _; by left|done].
Qed.

(** Entering a block assigns all its phis at once: when every phi has a value for the
    edge taken, each phi holds the value its input had before the block was entered (also
    when that input is another phi of the same block) and nothing else changes; when one has
    none, the evaluation stops with an error. *)
Theorem tle_phis_parallel s phis :
  is_error_ s = false -> phi_values_ s = ∅ ->
  let s' := update_phis (foldl (VisitPhi insn) s phis) in
  (is_error_ s' = true <-> Exists (fun p => incoming s p = None) phis)
  /\ (is_error_ s' = false ->
      phi_values_ s' = ∅
      /\ forall i, values_ s' !! i = if decide (i ∈ phis) then incoming s i else values_ s !! i).
Proof.
  intros Hs Hempty s'. destruct (phis_fold phis s Hs) as (Hv & He & Hl). subst s'. cbn.
  split; [done|]. intros Hf. split; [done|]. intros i. destruct (Hl Hf) as (_ & _ & Hlook).
  rewrite Hv. specialize (Hlook i). rewrite Hempty, lookup_empty in Hlook.
  destruct (decide (i ∈ phis)) as [Hi|Hi].
  - destruct (incoming s i) as [v|] eqn:Hinc.
    + by apply lookup_union_Some_l.
    + exfalso. enough (is_error_ (foldl (VisitPhi insn) s phis) = true) by congruence.
      apply He, Exists_exists. eauto.
  - by rewrite lookup_union_r.
Qed.
End Phis.

(** Two phis that swap their values. *)
Definition swap_insn (i : Z) : HInstruction :=
  match i with
  | 0 => mkInsn HPhi kPrimInt [2; 1]
  | 1 => mkInsn HPhi kPrimInt [3; 0]
  | 2 => mkInsn (HConst (IntConstant 7)) kPrimInt []
  | 3 => mkInsn (HConst (IntConstant 9)) kPrimInt []
  | _ => mkInsn HOther kPrimVoid []
  end.
Definition swap_state : TLEVisitor := mkTLE 1 false None {[0 := 7; 1 := 9]} ∅.

Lemma tle_phis_parallel_witness :
  values_ (update_phis (foldl (VisitPhi swap_insn) swap_state [0; 1])) !! 0 = Some 9
  /\ values_ (update_phis (foldl (VisitPhi swap_insn) swap_state [0; 1])) !! 1 = Some 7.
Proof.
  destruct (tle_phis_parallel swap_insn swap_state [0; 1] eq_refl eq_refl) as [_ H].
  destruct H as [_ H]; [vm_compute; reflexivity|].
  split; rewrite H; vm_compute; reflexivity.
Defined.

(** ** Counted loops *)
Lemma count_block_pos fuel w inc test after on_phi : forall i m,
  count_block fuel w inc test after on_phi true i = Some m -> 1 <= m.
Proof.
  induction fuel as [|fuel IH]; intros i m H; [done|]. cbn [count_block] in H.
  destruct (test _); [|by injection H as <-].
  destruct (count_block _ _ _ _ _ _ _ _) as [m'|] eqn:E in H; [|done].
  injection H as <-. apply IH in E. lia.
Qed.

(** 
    [for (i = start; i < k; i += inc)], with any condition, operand order and branch polarity:
    block 0 holds the phi, the test and the branch, block 1 the increment, block 2 is the
    exit.  [counted_exit] is what the bound analysis sees of it. *)
Section CountedLoop.
Context (is_wide : bool) (c : IfCondition) (iv_second exit_on_true : bool) (start inc k : Z).
#[local] Abbreviation w := (if is_wide then 64 else 32).

Definition counted_type : Primitive := if is_wide then kPrimLong else kPrimInt.
Definition counted_const (v : Z) : HConstant := if is_wide then LongConstant v else IntConstant v.
Definition counted_insn (i : Z) : HInstruction :=
  match i with
  | 0 => mkInsn HPhi counted_type [3; 1]
  | 1 => mkInsn HAdd counted_type [0; 4]
  | 2 => mkInsn (HCondition c kNoBias) kPrimBoolean (if iv_second then [5; 0] else [0; 5])
  | 3 => mkInsn (HConst (counted_const start)) counted_type []
  | 4 => mkInsn (HConst (counted_const inc)) counted_type []
  | 5 => mkInsn (HConst (counted_const k)) counted_type []
  | 6 => mkInsn (HIf (if exit_on_true then 2 else 1) (if exit_on_true then 1 else 2)) kPrimVoid [2]
  | 7 => mkInsn (HGoto 0) kPrimVoid []
  | _ => mkInsn HSuspendCheck kPrimVoid []
  end.
Definition counted_block (b : Z) : HBasicBlock :=
  match b with
  | 0 => mkBlock [0] [8; 2; 6] [9; 1]
  | 1 => mkBlock [] [1; 7] [0]
  | _ => mkBlock [] [] [0]
  end.
Definition counted_in_loop (b : Z) : bool := (b =? 0) || (b =? 1).
Definition counted_iv : HInductionVariable :=
  mkIV (counted_const inc) (Some (counted_const start)).
Definition counted_exit : loop_exit :=
  mkExit true (Some c) counted_type
    (if iv_second then None else Some counted_iv) (if iv_second then Some counted_iv else None)
    (if iv_second then Some (counted_const k) else None)
    (if iv_second then None else Some (counted_const k)) exit_on_true.

Context (Hstart : in_s w start) (Hinc : in_s w inc) (Hk : in_s w k).

Lemma counted_integral : integral_loop counted_exit counted_iv is_wide start k.
Proof.
  unfold counted_exit, counted_iv, counted_type, counted_const.
  split; cbn; destruct is_wide, iv_second; try done.
Qed.

Lemma w_pos : 0 < w.
Proof. by destruct is_wide. Qed.
Lemma value_at_wrapu z : in_s w z -> value_at is_wide (wrapu w z) = z.
Proof.
  intros Hz. unfold value_at, v_l, v_i.
  destruct is_wide; rewrite wraps_wrapu by lia; by apply wraps_small.
Qed.
Lemma counted_value s i v :
  i_op (counted_insn i) = HConst (counted_const v) -> i_type (counted_insn i) = counted_type ->
  GetValue counted_insn s i = Some (wrapu w v).
Proof. unfold GetValue. intros -> ->. unfold counted_const, counted_type. by destruct is_wide. Qed.

(** The condition, and the visits of the two blocks. *)
Definition counted_test (i : Z) : bool :=
  if iv_second then cond_holds w c k i else cond_holds w c i k.

Lemma continues_counted i :
  continues w counted_exit i = xorb exit_on_true (counted_test i).
Proof.
  unfold continues, counted_test, exit_bound, exit_iv_second, counted_exit, counted_const.
  cbn [le_condition le_first_iv le_first_constant le_second_constant le_exit_on_true].
  destruct is_wide, iv_second; cbn [GetIntConstantValue default];
    by destruct exit_on_true, (cond_holds _ _ _ _).
Qed.

Lemma accept_condition s i :
  in_s w i -> is_error_ s = false -> values_ s !! 0 = Some (wrapu w i) ->
  Accept counted_insn s 2 = Some (set_value s 2 (Z.b2z (counted_test i))).
Proof.
  intros Hi Hs Hv. unfold Accept. cbn [counted_insn i_op]. rewrite Hs.
  assert (evaluate counted_insn s 2 = Val (Value_int (Z.b2z (counted_test i)))) as ->.
  { unfold evaluate, binary, input_type, input, counted_test. cbn [counted_insn i_op i_inputs].
    assert (GetValue counted_insn s 5 = Some (wrapu w k)) as Hk' by (by apply counted_value).
    assert (GetValue counted_insn s 0 = Some (wrapu w i)) as Hi' by done.
    assert (integral_type is_wide counted_type = true) as Ht
      by (unfold counted_type; by destruct is_wide).
    destruct iv_second; cbn -[GetValue VisitCondition Value_int]; rewrite Hi', Hk';
      by rewrite (proj2 (condition_java is_wide _ kNoBias c _ _ Ht)), !value_at_wrapu. }
  by destruct (counted_test i).
Qed.

Lemma header_visit s i :
  in_s w i -> is_error_ s = false -> phi_values_ s = ∅ ->
  incoming counted_insn s 0 = Some (wrapu w i) ->
  VisitBasicBlock counted_insn s (counted_block 0)
  = Some (mkTLE (pred_index_ s) false (Some (if continues w counted_exit i then 1 else 2))
            (<[2 := Z.b2z (counted_test i)]> (<[0 := wrapu w i]> (values_ s))) ∅).
Proof.
  intros Hi Hs Hp Hv. unfold VisitBasicBlock. cbn [counted_block b_phis b_instructions foldl].
  rewrite VisitPhi_incoming, Hv, Hp by done. unfold update_phis, accept_all. cbn [foldl].
  cbn [phi_values_ values_ pred_index_ next_bb_ is_error_].
  rewrite insert_empty, <- insert_union_singleton_l.
  change (Accept counted_insn ?s 8) with (Some s). rewrite Hs.
  rewrite (accept_condition _ i) by (done || apply lookup_insert_eq).
  rewrite continues_counted. unfold Accept. cbn -[counted_test wrapu]. rewrite lookup_insert_eq.
  by destruct exit_on_true, (counted_test i).
Qed.

Lemma body_visit s i :
  is_error_ s = false -> phi_values_ s = ∅ -> values_ s !! 0 = Some (wrapu w i) ->
  VisitBasicBlock counted_insn s (counted_block 1)
  = Some (mkTLE (pred_index_ s) false (Some 0) (<[1 := wrapu w (i + inc)]> (values_ s)) ∅).
Proof.
  intros Hs Hp Hv. unfold VisitBasicBlock, update_phis, accept_all.
  cbn [counted_block b_phis b_instructions foldl]. rewrite Hs, Hp, (left_id_L ∅ (∪)).
  set (s1 := mkTLE _ _ _ _ _).
  assert (GetValue counted_insn s1 0 = Some (wrapu w i)) as Hi' by done.
  assert (GetValue counted_insn s1 4 = Some (wrapu w inc)) as Hc' by (by apply counted_value).
  assert (evaluate counted_insn s1 1 = Val (wrapu w (i + inc))) as He;
    [|unfold Accept; cbn [counted_insn i_op is_error_ s1]; by rewrite He].
  unfold evaluate, binary, input_type, input. cbn -[GetValue VisitAdd wrapu].
  rewrite Hi', Hc'. unfold VisitAdd, counted_type, Value_int, Value_long, v_i, v_l.
  destruct is_wide; cbn [java_types]; by rewrite wrapu_add_wraps.
Qed.

(** From the header with the value [i] on its way into the phi, the evaluator visits the
    header as often as the reference semantics runs it. *)
Lemma evaluate_from_header fuel : forall i j m s,
  in_s w i -> is_error_ s = false -> phi_values_ s = ∅ ->
  incoming counted_insn s 0 = Some (wrapu w i) ->
  count_block fuel w inc (continues w counted_exit) false true true i = Some m ->
  exists s', EvaluateLoop counted_insn counted_block counted_in_loop 0 (2 * fuel) s 0 j
             = Evaluated s' 2 (j + m)
    /\ is_error_ s' = false /\ values_ s' !! 0 = Some (wrapu w (i + (m - 1) * inc)).
Proof.
  pose proof w_pos. induction fuel as [|fuel IH]; intros i j m s Hi Hs Hp Hin Hc; [done|].
  replace (2 * S fuel)%nat with (S (S (2 * fuel))) by lia. cbn [EvaluateLoop counted_in_loop Z.eqb orb].
  rewrite (header_visit s i) by done. cbn [is_error_ next_bb_ count_block andb negb] in *.
  destruct (continues w counted_exit i).
  - destruct (count_block _ _ _ _ _ _ _ _) as [m'|] eqn:Hc' in Hc; [|done].
    injection Hc as <-. set (s1 := setPredecessorIndex _ _).
    cbn [EvaluateLoop counted_in_loop Z.eqb orb Pos.eqb].
    rewrite (body_visit s1 i) by (done || (cbn; by rewrite lookup_insert_ne, lookup_insert_eq)).
    cbn [is_error_ next_bb_]. set (s2 := setPredecessorIndex _ _).
    destruct (IH (wraps w (i + inc)) (j + 1) m' s2) as (s' & -> & Hs' & Hv'); try done.
    + by apply wraps_range.
    + change (values_ s2 !! 1 = Some (wrapu w (wraps w (i + inc)))). rewrite wrapu_wraps.
      apply lookup_insert_eq.
    + exists s'. split_and!; [f_equal; lia|done|]. rewrite Hv'. f_equal.
      rewrite <- (wrapu_wraps w (wraps w _ + _)), wraps_add_l, wrapu_wraps by done. f_equal. lia.
  - injection Hc as <-. eexists. split; [reflexivity|]. split; [done|]. cbn.
    rewrite lookup_insert_ne, lookup_insert_eq by done. f_equal. f_equal. lia.
Qed.
End CountedLoop.


