(* ===== verification/ParallelMove.v ===== *)
(** * Parallel moves of the register allocator

    The locations of compiler/optimizing/locations.h, [MoveOperands] and [HParallelMove::AddMove]
    of compiler/optimizing/nodes.h, and the resolver with swaps of
    compiler/optimizing/parallel_move_resolver.cc.

    The resolver's output is the sequence of moves and swaps it asks the code generator for
    ([EmitMove], [EmitSwap] of its subclasses).  A failed [DCHECK] of the resolver stops the
    model; the [DCHECK]s inside the accessors of [Location] and [MoveOperands] are not checked,
    so those are total here as in a release build. *)

From S2P Require Import Prelude DexOpcodes DexInstruction ShadowFrame InterpreterBase.

(** ** Locations *)

(** A location by its kind and payload.  The word [value_] that packs them is [location_word]
    below; [Equals] compares these words. *)
Inductive Location :=
| NoLocation
| ConstantLocation (constant : Z)
| StackSlot (stack_index : Z)
| DoubleStackSlot (stack_index : Z)
| RegisterLocation (reg : Z)
| FpuRegisterLocation (reg : Z)
| RegisterPairLocation (low high : Z)
| FpuRegisterPairLocation (low high : Z)
| UnallocatedLocation (policy : Z).

#[global] Instance Location_eq_dec : EqDecision Location.
Proof. solve_decision. Defined.

Inductive LocationKind :=
| kInvalid | kConstant | kStackSlot | kDoubleStackSlot | kRegister | kFpuRegister
| kRegisterPair | kFpuRegisterPair | kUnallocated.

#[global] Instance LocationKind_eq_dec : EqDecision LocationKind.
Proof. solve_decision. Defined.

Definition GetKind (l : Location) : LocationKind :=
  match l with
  | NoLocation => kInvalid
  | ConstantLocation _ => kConstant
  | StackSlot _ => kStackSlot
  | DoubleStackSlot _ => kDoubleStackSlot
  | RegisterLocation _ => kRegister
  | FpuRegisterLocation _ => kFpuRegister
  | RegisterPairLocation _ _ => kRegisterPair
  | FpuRegisterPairLocation _ _ => kFpuRegisterPair
  | UnallocatedLocation _ => kUnallocated
  end.

Definition is_kind (k : LocationKind) (l : Location) : bool := bool_decide (GetKind l = k).
Definition IsInvalid (l : Location) : bool := is_kind kInvalid l.
Definition IsConstant (l : Location) : bool := is_kind kConstant l.
Definition IsStackSlot (l : Location) : bool := is_kind kStackSlot l.
Definition IsDoubleStackSlot (l : Location) : bool := is_kind kDoubleStackSlot l.
Definition IsRegisterPair (l : Location) : bool := is_kind kRegisterPair l.
Definition IsFpuRegisterPair (l : Location) : bool := is_kind kFpuRegisterPair l.
Definition IsPair (l : Location) : bool := IsRegisterPair l || IsFpuRegisterPair l.

(** The numbers of the kinds, and the word of a location for [bits]-bit pointers: a constant is
    its (four-byte aligned) pointer tagged with [kConstant], any other location has the kind in
    the low four bits and the payload above. *)
Definition kind_number (k : LocationKind) : Z :=
  match k with
  | kInvalid => 0 | kConstant => 1 | kStackSlot => 2 | kDoubleStackSlot => 3 | kRegister => 4
  | kFpuRegister => 6 | kRegisterPair => 7 | kFpuRegisterPair => 8 | kUnallocated => 10
  end.
Definition kBitsForKind : Z := 4.
Definition kStackIndexBias (bits : Z) : Z := Z.shiftl 1 (bits - kBitsForKind - 1).

Definition location_payload (bits : Z) (l : Location) : Z :=
  match l with
  | NoLocation | ConstantLocation _ => 0
  | StackSlot i | DoubleStackSlot i => wrapu bits (kStackIndexBias bits + i)
  | RegisterLocation r | FpuRegisterLocation r => r
  | RegisterPairLocation low high | FpuRegisterPairLocation low high =>
      Z.lor (Z.shiftl low 16) high
  | UnallocatedLocation policy => policy
  end.
Definition location_word (bits : Z) (l : Location) : Z :=
  match l with
  | ConstantLocation c => Z.lor 1 c
  | _ => Z.lor (kind_number (GetKind l)) (Z.shiftl (location_payload bits l) kBitsForKind)
  end.

Definition Equals (a b : Location) : bool := bool_decide (a = b).

Definition ToLow (l : Location) : Location :=
  match l with
  | RegisterPairLocation low _ => RegisterLocation low
  | FpuRegisterPairLocation low _ => FpuRegisterLocation low
  | DoubleStackSlot i => StackSlot i
  | _ => NoLocation
  end.

Definition ToHigh (l : Location) : Location :=
  match l with
  | RegisterPairLocation _ high => RegisterLocation high
  | FpuRegisterPairLocation _ high => FpuRegisterLocation high
  | DoubleStackSlot i => StackSlot (i + 4)
  | _ => NoLocation
  end.

Definition Contains (l other : Location) : bool :=
  if Equals l other then true
  else if IsPair l || IsDoubleStackSlot l then Equals (ToLow l) other || Equals (ToHigh l) other
  else false.

Definition OverlapsWith (l other : Location) : bool := Contains l other || Contains other l.

(** ** Moves *)
Record MoveOperands := mkMove {
  source_ : Location;
  destination_ : Location;
  type_ : Primitive
}.

Definition Is64BitType (t : Primitive) : bool :=
  match t with kPrimLong | kPrimDouble => true | _ => false end.

Definition SetSource (l : Location) (m : MoveOperands) : MoveOperands :=
  mkMove l (destination_ m) (type_ m).
Definition SetDestination (l : Location) (m : MoveOperands) : MoveOperands :=
  mkMove (source_ m) l (type_ m).

Definition IsEliminated (m : MoveOperands) : bool := IsInvalid (source_ m).
Definition IsPending (m : MoveOperands) : bool :=
  IsInvalid (destination_ m) && negb (IsInvalid (source_ m)).
Definition Blocks (m : MoveOperands) (loc : Location) : bool :=
  negb (IsEliminated m) && OverlapsWith (source_ m) loc.
Definition IsRedundant (m : MoveOperands) : bool :=
  IsEliminated m || IsInvalid (destination_ m) || Equals (source_ m) (destination_ m).
Definition Eliminate (m : MoveOperands) : MoveOperands := mkMove NoLocation NoLocation (type_ m).
Definition Is64BitMove (m : MoveOperands) : bool := Is64BitType (type_ m).

(** [HParallelMove::AddMove] of a move that belongs to no instruction; [None] is a failed
    [DCHECK]. *)
Definition same_operands (source destination : Location) (t : Primitive) (m : MoveOperands) : bool :=
  Equals (source_ m) source && Equals (destination_ m) destination && bool_decide (type_ m = t).

Definition AddMove (moves : list MoveOperands) (source destination : Location) (t : Primitive) :
    option (list MoveOperands) :=
  if IsInvalid source || IsInvalid destination then None
  else if existsb (same_operands source destination t) moves then Some moves
  else if existsb (fun m => OverlapsWith destination (destination_ m)) moves then None
  else Some (moves ++ [mkMove source destination t]).

(** ** The resolver with swaps *)

(** What the resolver asks the code generator for. *)
Inductive Emitted := EmitMove (source destination : Location) | EmitSwap (source destination : Location).

(** [moves_], and the code emitted so far, in order. *)
Record Resolver := mkResolver { moves_ : list MoveOperands; code_ : list Emitted }.

Abbreviation R := (SM Resolver).

Section Access.
Local Open Scope sm_scope.

Definition dcheck (b : bool) : R unit := if b then sret tt else sfail.
Definition move_at (i : nat) : R MoveOperands :=
  fun st => match moves_ st !! i with Some m => Some (m, st) | None => None end.
Definition change_move (i : nat) (f : MoveOperands -> MoveOperands) : R unit :=
  smod (fun st => mkResolver (alter f i (moves_ st)) (code_ st)).
Definition emit (e : Emitted) : R unit :=
  smod (fun st => mkResolver (moves_ st) (code_ st ++ [e])).

Definition MarkPending (i : nat) : R Location :=
  do m <- move_at i;
  dcheck (negb (IsPending m)) ;;
  change_move i (SetDestination NoLocation) ;;
  sret (destination_ m).

Definition ClearPending (i : nat) (dest : Location) : R unit :=
  do m <- move_at i;
  dcheck (IsPending m) ;;
  change_move i (SetDestination dest).

(** [EmitMove(index)] and [EmitSwap(index)]: the operands of the move at that moment. *)
Definition emit_move (i : nat) : R unit :=
  do m <- move_at i; emit (EmitMove (source_ m) (destination_ m)).
Definition emit_swap (i : nat) : R unit :=
  do m <- move_at i; emit (EmitSwap (source_ m) (destination_ m)).
End Access.

(** [ParallelMoveResolver::BuildInitialMoveList]. *)
Definition BuildInitialMoveList (parallel_move : list MoveOperands) : list MoveOperands :=
  List.filter (fun m => negb (IsRedundant m)) parallel_move.

Definition LowOf (l : Location) : Location :=
  match l with
  | RegisterPairLocation low _ => RegisterLocation low
  | FpuRegisterPairLocation low _ => FpuRegisterLocation low
  | DoubleStackSlot i => StackSlot i
  | _ => NoLocation
  end.

Definition HighOf (l : Location) : Location :=
  match l with
  | RegisterPairLocation _ high => RegisterLocation high
  | FpuRegisterPairLocation _ high => FpuRegisterLocation high
  | DoubleStackSlot i => StackSlot (i + 4)
  | _ => NoLocation
  end.

Definition UpdateSourceOf (updated_location new_source : Location) (m : MoveOperands) :
    option MoveOperands :=
  let source := source_ m in
  if Equals (LowOf updated_location) source then Some (SetSource (LowOf new_source) m)
  else if Equals (HighOf updated_location) source then Some (SetSource (HighOf new_source) m)
  else if Equals updated_location source then Some (SetSource new_source m)
  else None.

(** The loop over [moves_] after a swap of [source] and [swap_destination]. *)
Definition update_after_swap (source swap_destination : Location) (m : MoveOperands) :
    option MoveOperands :=
  if Blocks m source then UpdateSourceOf source swap_destination m
  else if Blocks m swap_destination then UpdateSourceOf swap_destination source m
  else Some m.

Definition update_moves (source swap_destination : Location) : R unit :=
  fun st => match mapM (update_after_swap source swap_destination) (moves_ st) with
            | Some ms => Some (tt, mkResolver ms (code_ st))
            | None => None
            end.

(** The search for a move that blocks [destination]: the first one, with its index. *)
Fixpoint first_blocking (destination : Location) (i : nat) (ms : list MoveOperands) :
    option (nat * MoveOperands) :=
  match ms with
  | [] => None
  | m :: ms => if Blocks m destination then Some (i, m) else first_blocking destination (S i) ms
  end.

Section PerformMove.
Local Open Scope sm_scope.

(** What happens to the move once the moves that block it are done.  The result is the move that
    must be swapped first, by its index ([nullptr] is [None]). *)
Definition swap_move (index : nat) (required_swap : option nat) : R (option nat) :=
  do move <- move_at index;
  emit_swap index ;;
  change_move index Eliminate ;;
  update_moves (source_ move) (destination_ move) ;;
  sret required_swap.

Definition resolve_move (index : nat) (destination : Location) (required_swap : option nat) :
    R (option nat) :=
  ClearPending index destination ;;
  do move <- move_at index;
  if Equals (source_ move) destination then
    change_move index Eliminate ;;
    dcheck (bool_decide (required_swap = None)) ;;
    sret None
  else
    match required_swap with
    | Some q =>
        dcheck (q =? index)%nat ;;
        swap_move index required_swap
    | None =>
        do ms <- sget moves_;
        match first_blocking destination 0 ms with
        | Some (o, other_move) =>
            dcheck (IsPending other_move) ;;
            if negb (Is64BitMove move) && Is64BitMove other_move then sret (Some o)
            else swap_move index None
        | None =>
            emit_move index ;;
            change_move index Eliminate ;;
            sret None
        end
    end.

(** How the loop over the blocking moves ends: normally or by [break] with [required_swap], or by
    a [return] from the whole function. *)
Inductive scan_end := ScanDone (required_swap : option nat) | ScanReturn (required_swap : nat).

Fixpoint PerformMove (fuel : nat) (index : nat) : R (option nat) :=
  match fuel with
  | O => sfail
  | S fuel =>
      do move <- move_at index;
      dcheck (negb (IsPending move)) ;;
      if IsRedundant move then change_move index Eliminate ;; sret None
      else
        dcheck (negb (IsInvalid (source_ move))) ;;
        do destination <- MarkPending index;
        do e <- perform_blockers fuel index destination 0;
        match e with
        | ScanReturn q => sret (Some q)
        | ScanDone required_swap => resolve_move index destination required_swap
        end
  end
with perform_blockers (fuel : nat) (index : nat) (destination : Location) (i : nat) : R scan_end :=
  match fuel with
  | O => sfail
  | S fuel =>
      do ms <- sget moves_;
      match ms !! i with
      | None => sret (ScanDone None)
      | Some other_move =>
          if Blocks other_move destination && negb (IsPending other_move) then
            do required_swap <- PerformMove fuel i;
            match required_swap with
            | None => perform_blockers fuel index destination (S i)
            | Some q =>
                if (q =? index)%nat then sret (ScanDone (Some q))
                else if (q =? i)%nat then perform_blockers fuel index destination 0
                else ClearPending index destination ;; sret (ScanReturn q)
            end
          else perform_blockers fuel index destination (S i)
      end
  end.
End PerformMove.

Definition IsScratchLocation (ms : list MoveOperands) (loc : Location) : bool :=
  if existsb (fun m => Blocks m loc) ms then false
  else existsb (fun m => Equals (destination_ m) loc) ms.

(** [AllocateScratchRegister]: the register and whether it has to be spilled. *)
Fixpoint find_scratch (ms : list MoveOperands) (blocked : Z) (reg : Z) (count : nat) : Z :=
  match count with
  | O => -1
  | S count =>
      if negb (blocked =? reg) && IsScratchLocation ms (RegisterLocation reg) then reg
      else find_scratch ms blocked (reg + 1) count
  end.

Definition AllocateScratchRegister (ms : list MoveOperands) (blocked register_count if_scratch : Z) :
    Z * bool :=
  let scratch := find_scratch ms blocked 0 (Z.to_nat register_count) in
  if scratch =? -1 then (if_scratch, true) else (scratch, false).

Section EmitNativeCode.
Local Open Scope sm_scope.

(** A loop over the indices of [moves_], whose length does not change. *)
Fixpoint for_each_index (f : nat -> R unit) (indices : list nat) : R unit :=
  match indices with
  | [] => sret tt
  | i :: indices => f i ;; for_each_index f indices
  end.

Definition is_stack (l : Location) : bool := IsStackSlot l || IsDoubleStackSlot l.

Definition perform_stack_move (fuel i : nat) : R unit :=
  do move <- move_at i;
  if IsEliminated move || IsConstant (source_ move) then sret tt
  else if is_stack (source_ move) && is_stack (destination_ move) then
    PerformMove fuel i ;; sret tt
  else sret tt.

Definition perform_move (fuel i : nat) : R unit :=
  do move <- move_at i;
  if negb (IsEliminated move) && negb (IsConstant (source_ move)) then
    PerformMove fuel i ;; sret tt
  else sret tt.

Definition perform_constant_move (i : nat) : R unit :=
  do move <- move_at i;
  if negb (IsEliminated move) then
    dcheck (IsConstant (source_ move)) ;;
    emit_move i ;;
    change_move i Eliminate
  else sret tt.

(** A call chain of [PerformMove] marks one more move at each level and restarts a loop over the
    moves at most once per eliminated move; [swap_fuel n] bounds it for [n] moves. *)
Definition swap_fuel (n : nat) : nat := n * (n + 3).

Definition resolve_moves (n : nat) : R unit :=
  for_each_index (perform_stack_move (swap_fuel n)) (seq 0 n) ;;
  for_each_index (perform_move (swap_fuel n)) (seq 0 n) ;;
  for_each_index perform_constant_move (seq 0 n).
End EmitNativeCode.

(** [ParallelMoveResolverWithSwap::EmitNativeCode]: the code it emits. *)
Definition EmitNativeCode (parallel_move : list MoveOperands) : option (list Emitted) :=
  let ms := BuildInitialMoveList parallel_move in
  match resolve_moves (length ms) (mkResolver ms []) with
  | Some (_, st) => Some (code_ st)
  | None => None
  end.
