(* ===== verification/ParallelMoveMachine.v ===== *)
(** * What emitted moves and swaps do to a machine of 32-bit cells

    The meaning of the code a parallel-move resolver emits, on a machine whose registers and
    stack words hold 32 bits: a register pair or a double stack slot is two cells.  With it the
    facts about [Location]s the resolver's proof works with: locations as lists of cells,
    [OverlapsWith] as a shared cell, and the effect of [UpdateSourceOf] as a renaming of cells. *)

From S2P Require Import Prelude DexOpcodes DexInstruction ShadowFrame InterpreterBase ParallelMove.

(** ** Cells *)
Inductive Cell := CoreCell (reg : Z) | FpuCell (reg : Z) | StackCell (offset : Z).

#[global] Instance Cell_eq_dec : EqDecision Cell.
Proof. solve_decision. Defined.

Definition cells (l : Location) : list Cell :=
  match l with
  | StackSlot i => [StackCell i]
  | DoubleStackSlot i => [StackCell i; StackCell (i + 4)]
  | RegisterLocation r => [CoreCell r]
  | FpuRegisterLocation r => [FpuCell r]
  | RegisterPairLocation low high => [CoreCell low; CoreCell high]
  | FpuRegisterPairLocation low high => [FpuCell low; FpuCell high]
  | NoLocation | ConstantLocation _ | UnallocatedLocation _ => []
  end.

(** A location with storage; a pair has two different registers. *)
Definition place (l : Location) : bool :=
  match l with
  | StackSlot _ | DoubleStackSlot _ | RegisterLocation _ | FpuRegisterLocation _ => true
  | RegisterPairLocation low high | FpuRegisterPairLocation low high => negb (low =? high)
  | NoLocation | ConstantLocation _ | UnallocatedLocation _ => false
  end.

Definition wide (l : Location) : bool := IsPair l || IsDoubleStackSlot l.

Definition overlap (a b : Location) : Prop := Exists (fun c => c ∈ cells b) (cells a).

#[global] Instance overlap_dec a b : Decision (overlap a b).
Proof. unfold overlap. apply _. Defined.

(** ** Stores and code *)
Definition Store : Type := Cell -> Z.

(** The words of the constants, by their number. *)
Abbreviation Constants := (Z -> nat -> Z).

(** The [k]-th word of a location. *)
Definition word (K : Constants) (s : Store) (l : Location) (k : nat) : Z :=
  match l with
  | ConstantLocation c => K c k
  | _ => match cells l !! k with Some c => s c | None => 0 end
  end.

Fixpoint position (c : Cell) (cs : list Cell) : option nat :=
  match cs with
  | [] => None
  | c' :: cs => if decide (c = c') then Some 0%nat else S <$> position c cs
  end.

(** The renaming of cells that exchanges the words of [a] with those of [b]. *)
Definition exchange (a b : Location) (c : Cell) : Cell :=
  match position c (cells a) with
  | Some k => default c (cells b !! k)
  | None => match position c (cells b) with Some k => default c (cells a !! k) | None => c end
  end.

Definition exec (K : Constants) (e : Emitted) (s : Store) : Store :=
  match e with
  | EmitMove source destination =>
      fun c => match position c (cells destination) with
               | Some k => word K s source k
               | None => s c
               end
  | EmitSwap source destination => fun c => s (exchange source destination c)
  end.

Definition exec_code (K : Constants) (code : list Emitted) (s : Store) : Store :=
  foldl (fun s e => exec K e s) s code.

Arguments exec_code : simpl never.

Lemma exec_code_snoc K code e s : exec_code K (code ++ [e]) s = exec K e (exec_code K code s).
Proof. unfold exec_code. by rewrite foldl_app. Qed.

(** ** Locations as lists of cells *)
Lemma overlap_spec a b : overlap a b <-> exists c, c ∈ cells a /\ c ∈ cells b.
Proof. unfold overlap. by rewrite Exists_exists. Qed.

Lemma overlap_sym a b : overlap a b -> overlap b a.
Proof. rewrite !overlap_spec. naive_solver. Qed.

Lemma overlap_none_l b : ~ overlap NoLocation b.
Proof. rewrite overlap_spec. cbn. intros (c & Hc & _). by apply not_elem_of_nil in Hc. Qed.

Lemma overlap_none_r a : ~ overlap a NoLocation.
Proof. intros H%overlap_sym. by apply overlap_none_l in H. Qed.

Lemma overlap_refl a : place a -> overlap a a.
Proof.
  intros Ha. apply overlap_spec.
  destruct a; try done; cbn; eexists; split; apply elem_of_cons; by left.
Qed.

Ltac cell_cases :=
  rewrite ?overlap_spec in *; cbn in *; try set_unfold; naive_solver.

Lemma place_nodup a : place a -> NoDup (cells a).
Proof.
  destruct a; cbn; try done; intros H; rewrite ?NoDup_cons, ?list_elem_of_singleton;
    split_and?; try apply NoDup_nil_2; try apply not_elem_of_nil; intros E; simplify_eq; try lia;
    by rewrite Z.eqb_refl in H.
Qed.

(** The cells of a location with storage determine it. *)
Lemma cells_inj a b : place a -> cells a = cells b -> a = b.
Proof. destruct a, b; cbn; intros; naive_solver. Qed.

Lemma narrow_cells a : place a -> wide a = false -> exists c, cells a = [c].
Proof. destruct a; cbn; try done; eauto. Qed.

Lemma wide_cells a : wide a -> cells a = cells (LowOf a) ++ cells (HighOf a).
Proof. by destruct a. Qed.

Lemma wide_place_cells a : place a -> wide a -> exists c d, cells a = [c; d] /\ c <> d.
Proof.
  intros Ha Hw. pose proof (place_nodup a Ha) as Hn.
  destruct a; cbn in *; try done; do 2 eexists; (split; [done|]);
    apply NoDup_cons in Hn as [Hn _]; intros E; apply Hn; rewrite E; by apply list_elem_of_singleton.
Qed.

Lemma narrow_overlap a b : place a -> place b -> wide a = false -> wide b = false ->
  overlap a b -> a = b.
Proof.
  intros Ha Hb Wa Wb Ho. destruct (narrow_cells a Ha Wa) as [c Hc].
  destruct (narrow_cells b Hb Wb) as [d Hd]. apply cells_inj; [done|].
  apply overlap_spec in Ho. rewrite Hc, Hd in *. set_unfold. naive_solver.
Qed.

Lemma narrow_two x a b : place x -> wide x = false -> overlap x a -> overlap x b -> overlap a b.
Proof.
  intros Hx Wx Ha Hb. destruct (narrow_cells x Hx Wx) as [c Hc].
  apply overlap_spec in Ha, Hb. rewrite Hc in *. apply overlap_spec. exists c. set_solver.
Qed.

(** A location has at most two cells. *)
Lemma overlap_three x a b c : place x -> overlap x a -> overlap x b -> overlap x c ->
  overlap a b \/ overlap a c \/ overlap b c.
Proof.
  intros Hx Ha Hb Hc. rewrite !overlap_spec in *. destruct (wide x) eqn:W.
  - destruct (wide_place_cells x Hx) as (d & e & E & _); [by rewrite W|].
    rewrite E in *. set_solver.
  - destruct (narrow_cells x Hx W) as [d E]. rewrite E in *. set_solver.
Qed.

(** A narrow location that shares a cell with a wide one is one of its halves. *)
Lemma half_of a b : wide a -> place b -> wide b = false -> overlap a b -> b = LowOf a \/ b = HighOf a.
Proof. destruct a, b; intros; try done; cell_cases. Qed.

Lemma Contains_spec a b : place b ->
  Contains a b <-> a = b \/ (wide a /\ (b = LowOf a \/ b = HighOf a)).
Proof.
  intros Hb. unfold Contains, Equals. rewrite Is_true_true. case_bool_decide as E; [naive_solver|].
  change (IsPair a || IsDoubleStackSlot a) with (wide a).
  destruct (wide a) eqn:W; [|naive_solver].
  rewrite orb_true_iff, !bool_decide_eq_true. destruct a; naive_solver.
Qed.

Lemma half_overlap a b : place b -> b = LowOf a \/ b = HighOf a -> overlap a b.
Proof. rewrite overlap_spec. destruct a; intros Hb [-> | ->]; try done; cbn; set_solver. Qed.

(** [OverlapsWith] is a shared cell when two wide locations coincide or are disjoint. *)
Lemma OverlapsWith_overlap a b : place a -> place b ->
  (wide a -> wide b -> overlap a b -> a = b) -> OverlapsWith a b <-> overlap a b.
Proof.
  intros Ha Hb Hw. unfold OverlapsWith. rewrite orb_True, !Contains_spec by done. split.
  - intros [[->|[_ ?]]|[->|[_ ?]]]; auto using overlap_refl, half_overlap, overlap_sym.
  - intros H. pose proof (overlap_sym _ _ H) as H'. destruct (wide a) eqn:Wa, (wide b) eqn:Wb.
    + left. left. auto.
    + left. right. split; [done|]. by apply half_of; rewrite ?Wa.
    + right. right. split; [done|]. by apply half_of; rewrite ?Wb.
    + left. left. by apply narrow_overlap.
Qed.

(** A constant overlaps nothing. *)
Lemma OverlapsWith_constant c b : place b -> OverlapsWith (ConstantLocation c) b = false.
Proof.
  intros Hb. apply Is_true_false. unfold OverlapsWith. rewrite orb_True, Contains_spec by done.
  intros [[<-|[[] _]]|H]; [done|]. unfold Contains, Equals in H.
  destruct b; cbn in H; rewrite ?bool_decide_eq_false_2 in H by done; done.
Qed.

(** ** The exchange of two locations *)
Lemma position_None c cs : position c cs = None <-> c ∉ cs.
Proof.
  induction cs as [|c' cs IH]; cbn; [set_solver|]. destruct (decide (c = c')) as [->|Hne].
  - split; [done|]. set_solver.
  - rewrite fmap_None, IH. set_solver.
Qed.

Lemma position_Some c cs k : position c cs = Some k -> cs !! k = Some c.
Proof.
  revert k. induction cs as [|c' cs IH]; cbn; intros k H; [done|].
  destruct (decide (c = c')) as [->|Hne]; [by simplify_eq|].
  apply fmap_Some in H as (j & Hj & ->). cbn. auto.
Qed.

Lemma position_lookup cs k c : NoDup cs -> cs !! k = Some c -> position c cs = Some k.
Proof.
  intros Hn Hk. destruct (position c cs) as [j|] eqn:E.
  - apply position_Some in E. by rewrite (NoDup_lookup _ _ _ _ Hn E Hk).
  - apply position_None in E. by apply list_elem_of_lookup_2 in Hk.
Qed.

Lemma half_place a : place a -> wide a ->
  place (LowOf a) /\ place (HighOf a) /\ wide (LowOf a) = false /\ wide (HighOf a) = false.
Proof. by destruct a. Qed.

Lemma half_cells a : wide a -> exists c d, cells a = [c; d] /\ cells (LowOf a) = [c] /\ cells (HighOf a) = [d].
Proof. destruct a; intros; try done; do 2 eexists; done. Qed.

(** [UpdateSourceOf] renames the source along any map of the cells of [A] to those of [B]. *)
Lemma UpdateSourceOf_spec A B (f : Cell -> Cell) m :
  place A -> place B -> wide A = wide B -> map f (cells A) = cells B ->
  place (source_ m) -> overlap A (source_ m) -> (wide (source_ m) -> source_ m = A) ->
  exists x', UpdateSourceOf A B m = Some (SetSource x' m)
    /\ cells x' = map f (cells (source_ m)) /\ place x' /\ wide x' = wide (source_ m).
Proof.
  intros HA HB Hw Hf Hx Ho Hwx. unfold UpdateSourceOf, Equals.
  assert (forall l, place l -> l <> NoLocation) as Hno by (by intros [] ?).
  destruct (wide (source_ m)) eqn:Wx.
  - pose proof (Hwx I) as E. rewrite E in *. rewrite bool_decide_eq_false_2 by (by destruct A).
    rewrite bool_decide_eq_false_2 by (by destruct A). rewrite bool_decide_eq_true_2 by done.
    exists B. by rewrite Hf, <- Hw.
  - destruct (wide A) eqn:WA.
    + assert (wide A) as WA' by (by rewrite WA). assert (wide B) as WB' by (by rewrite <- Hw).
      destruct (half_cells A WA') as (a & b & Ea & EL & EH).
      destruct (half_cells B WB') as (a' & b' & Eb & EL' & EH').
      destruct (half_place B HB WB') as (PL & PH & WL & WH).
      rewrite Ea, Eb in Hf. injection Hf as F1 F2.
      case_bool_decide as E1; [|case_bool_decide as E2].
      * exists (LowOf B). rewrite EL', <- E1, EL. cbn. by rewrite F1.
      * exists (HighOf B). rewrite EH', <- E2, EH. cbn. by rewrite F2.
      * exfalso. destruct (half_of A (source_ m)) as [E|E]; auto.
    + rewrite bool_decide_eq_false_2 by (intros E; apply (Hno _ Hx); rewrite <- E; by destruct A).
      rewrite bool_decide_eq_false_2 by (intros E; apply (Hno _ Hx); rewrite <- E; by destruct A).
      assert (A = source_ m) as E by (by apply narrow_overlap).
      rewrite bool_decide_eq_true_2 by done. exists B. by rewrite <- E, Hf, <- Hw.
Qed.

Section Exchange.
Context (S D : Location) (HS : place S) (HD : place D).
Context (Hw : wide S = wide D) (Hdis : ~ overlap S D).

Lemma cells_disjoint c : c ∈ cells S -> c ∈ cells D -> False.
Proof. intros. apply Hdis, overlap_spec. eauto. Qed.

Lemma same_length : length (cells S) = length (cells D).
Proof.
  destruct (wide S) eqn:E; symmetry in Hw.
  - destruct (wide_place_cells S HS) as (? & ? & -> & _); [by rewrite E|].
    destruct (wide_place_cells D HD) as (? & ? & -> & _); [by rewrite Hw|]. done.
  - destruct (narrow_cells S HS E) as [? ->], (narrow_cells D HD Hw) as [? ->]. done.
Qed.

Lemma exchange_outside c : c ∉ cells S -> c ∉ cells D -> exchange S D c = c.
Proof. intros H1%position_None H2%position_None. unfold exchange. by rewrite H1, H2. Qed.

Lemma exchange_lookup_S k c d : cells S !! k = Some c -> cells D !! k = Some d -> exchange S D c = d.
Proof.
  intros Hc Hd. unfold exchange. rewrite (position_lookup _ k) by auto using place_nodup.
  by rewrite Hd.
Qed.

Lemma exchange_lookup_D k c d : cells S !! k = Some c -> cells D !! k = Some d -> exchange S D d = c.
Proof.
  intros Hc Hd. unfold exchange. rewrite (proj2 (position_None d (cells S))).
  - rewrite (position_lookup _ k) by auto using place_nodup. by rewrite Hc.
  - intros ?. eapply cells_disjoint; eauto using list_elem_of_lookup_2.
Qed.

(** The two sides of a cell of the exchanged locations. *)
Lemma paired_S c : c ∈ cells S -> exists k d, cells S !! k = Some c /\ cells D !! k = Some d.
Proof.
  intros [k Hk]%list_elem_of_lookup_1. exists k.
  destruct (lookup_lt_is_Some_2 (cells D) k) as [d Hd]; [|eauto].
  rewrite <- same_length. by eapply lookup_lt_Some.
Qed.

Lemma paired_D d : d ∈ cells D -> exists k c, cells S !! k = Some c /\ cells D !! k = Some d.
Proof.
  intros [k Hk]%list_elem_of_lookup_1. exists k.
  destruct (lookup_lt_is_Some_2 (cells S) k) as [c Hc]; [|eauto].
  rewrite same_length. by eapply lookup_lt_Some.
Qed.

Lemma exchange_involutive c : exchange S D (exchange S D c) = c.
Proof.
  destruct (decide (c ∈ cells S)) as [H|H].
  { destruct (paired_S c H) as (k & d & Hc & Hd).
    by rewrite (exchange_lookup_S k c d), (exchange_lookup_D k c d). }
  destruct (decide (c ∈ cells D)) as [H'|H'].
  { destruct (paired_D c H') as (k & d & Hc & Hd).
    by rewrite (exchange_lookup_D k d c), (exchange_lookup_S k d c). }
  rewrite (exchange_outside c H H'). by apply exchange_outside.
Qed.

Lemma exchange_inj c d : exchange S D c = exchange S D d -> c = d.
Proof. intros E. by rewrite <- (exchange_involutive c), E, exchange_involutive. Qed.

Lemma exchange_S : map (exchange S D) (cells S) = cells D.
Proof.
  apply list_eq. intros k. rewrite list_lookup_fmap.
  destruct (cells S !! k) as [c|] eqn:E; cbn.
  - destruct (lookup_lt_is_Some_2 (cells D) k) as [d Hd];
      [rewrite <- same_length; by eapply lookup_lt_Some|].
    by rewrite Hd, (exchange_lookup_S k c d).
  - symmetry. apply lookup_ge_None. rewrite <- same_length. by apply lookup_ge_None.
Qed.

Lemma exchange_D : map (exchange S D) (cells D) = cells S.
Proof.
  rewrite <- exchange_S, map_map. rewrite <- (map_id (cells S)) at 2.
  apply map_ext. intros c. apply exchange_involutive.
Qed.

Lemma exchange_disjoint x : ~ overlap x S -> ~ overlap x D -> map (exchange S D) (cells x) = cells x.
Proof.
  intros H1 H2. rewrite <- (map_id (cells x)) at 2. apply map_ext_in. intros c Hc%list_elem_of_In.
  apply exchange_outside; intros ?; [apply H1|apply H2]; apply overlap_spec; eauto.
Qed.

(** [x'] is [x] with the cells of [S] and [D] exchanged. *)
Definition renamed (x x' : Location) : Prop :=
  cells x' = map (exchange S D) (cells x) /\ place x' /\ wide x' = wide x.

Lemma renamed_overlap x y x' y' : renamed x x' -> renamed y y' -> overlap x' y' <-> overlap x y.
Proof.
  intros [Hx _] [Hy _]. rewrite !overlap_spec, Hx, Hy. split.
  - intros (c & (d & -> & Hd)%list_elem_of_fmap & (d' & E%exchange_inj & Hd')%list_elem_of_fmap).
    subst. eauto.
  - intros (c & H1 & H2). exists (exchange S D c). split; by apply list_elem_of_fmap_2.
Qed.

Lemma renamed_inj x y z : place x -> renamed x z -> renamed y z -> x = y.
Proof.
  intros Hp [Hx _] [Hy _]. apply cells_inj; [done|].
  rewrite Hx in Hy. revert Hy. generalize (cells y). generalize (cells x). clear -HS HD Hw Hdis.
  induction l as [|c l IH]; intros [|d k]; cbn; try done. intros [= E1%exchange_inj E2].
  f_equal; auto.
Qed.

Lemma renamed_disjoint x : place x -> ~ overlap x S -> ~ overlap x D -> renamed x x.
Proof. intros. split; [by rewrite exchange_disjoint|done]. Qed.

(** The loop after a swap renames the source of every live move. *)
Lemma update_after_swap_spec m :
  place (source_ m) ->
  (overlap (source_ m) S -> wide (source_ m) -> source_ m = S) ->
  (overlap (source_ m) D -> wide (source_ m) -> source_ m = D) ->
  exists x', update_after_swap S D m = Some (SetSource x' m) /\ renamed (source_ m) x'.
Proof.
  intros Hx H1 H2. unfold update_after_swap, Blocks.
  replace (IsEliminated m) with false by (destruct m as [[] ? ?]; done). cbn [negb andb].
  assert (forall A, place A -> (overlap (source_ m) A -> wide (source_ m) -> source_ m = A) ->
    OverlapsWith (source_ m) A <-> overlap (source_ m) A) as Hov.
  { intros A HA H. apply OverlapsWith_overlap; auto. }
  destruct (OverlapsWith (source_ m) S) eqn:E1; [|destruct (OverlapsWith (source_ m) D) eqn:E2].
  - apply Is_true_true, Hov in E1; auto.
    apply UpdateSourceOf_spec; auto using exchange_S, overlap_sym.
  - apply Is_true_true, Hov in E2; auto.
    apply UpdateSourceOf_spec; auto using exchange_D, overlap_sym.
  - apply Is_true_false in E1, E2. rewrite Hov in E1, E2 by auto.
    exists (source_ m). split; [by destruct m|by apply renamed_disjoint].
Qed.

Lemma update_after_swap_inert m :
  source_ m = NoLocation \/ IsConstant (source_ m) -> update_after_swap S D m = Some m.
Proof.
  unfold update_after_swap, Blocks. destruct m as [[] ? ?]; cbn; intros []; try done.
  all: by rewrite !OverlapsWith_constant.
Qed.

(** The store after a swap. *)
Lemma word_renamed K s x x' k : place x -> renamed x x' ->
  word K (exec K (EmitSwap S D) s) x' k = word K s x k.
Proof.
  intros Hx (Hc & Hx' & _).
  assert (forall s l, place l -> word K s l k = from_option s 0 (cells l !! k)) as Hword
    by (intros ? [] ?; try done; cbn; by destruct (_ !! k)).
  rewrite !Hword by done. rewrite Hc, list_lookup_fmap.
  destruct (cells x !! k) as [c|]; cbn; [|done]. by rewrite exchange_involutive.
Qed.

Lemma renamed_S : renamed S D.
Proof. split; [by rewrite exchange_S|by rewrite Hw]. Qed.

Lemma renamed_D : renamed D S.
Proof. split; [by rewrite exchange_D|by rewrite Hw]. Qed.

Lemma renamed_fun x y z : renamed x y -> renamed x z -> y = z.
Proof. intros (H1 & H2 & _) (H1' & _). apply cells_inj; [done|]. by rewrite H1, H1'. Qed.

(** A source that overlaps [S] or [D] lies inside it. *)
Lemma inside x l : place x -> place l -> (wide x -> x = l) -> overlap x l -> cells x ⊆ cells l.
Proof.
  intros Hx Hl Hwx Ho. destruct (wide x) eqn:W; [by rewrite (Hwx I)|].
  destruct (narrow_cells x Hx W) as [c E]. apply overlap_spec in Ho. rewrite E in *. set_solver.
Qed.

Lemma renamed_from_S x x' l : place x -> (wide x -> x = S) -> overlap x S -> renamed x x' ->
  overlap x' l -> overlap D l.
Proof.
  intros Hx Hwx Ho [Hc _]. rewrite !overlap_spec, Hc.
  intros (c & (d & -> & Hd)%list_elem_of_fmap & Hl). eexists; split; [|exact Hl].
  rewrite <- exchange_S. apply list_elem_of_fmap_2. by apply (inside x S).
Qed.

Lemma renamed_from_D x x' l : place x -> (wide x -> x = D) -> overlap x D -> renamed x x' ->
  overlap x' l -> overlap S l.
Proof.
  intros Hx Hwx Ho [Hc _]. rewrite !overlap_spec, Hc.
  intros (c & (d & -> & Hd)%list_elem_of_fmap & Hl). eexists; split; [|exact Hl].
  rewrite <- exchange_D. apply list_elem_of_fmap_2. by apply (inside x D).
Qed.
End Exchange.

(** The store after a move. *)
Section MoveEffect.
Context (K : Constants) (s : Store) (S D : Location).

Lemma word_moved k c : place D -> cells D !! k = Some c -> exec K (EmitMove S D) s c = word K s S k.
Proof. intros HD Hk. cbn. by rewrite (position_lookup _ k) by auto using place_nodup. Qed.

Lemma exec_move_outside c : c ∉ cells D -> exec K (EmitMove S D) s c = s c.
Proof. intros H%position_None. cbn. by rewrite H. Qed.

Lemma word_ext s' l k : (forall c, c ∈ cells l -> s' c = s c) -> word K s' l k = word K s l k.
Proof.
  intros H. unfold word. destruct l; try done;
    destruct (cells _ !! k) as [c|] eqn:E; try done; apply H; by eapply list_elem_of_lookup_2.
Qed.

Lemma word_move_other l k : ~ overlap l D -> word K (exec K (EmitMove S D) s) l k = word K s l k.
Proof.
  intros H. apply word_ext. intros c Hc. apply exec_move_outside. intros Hd.
  apply H, overlap_spec. eauto.
Qed.
End MoveEffect.

(** ** The words of locations *)

(** The ranges the constructors of [Location] check or assume. *)
Definition encodable (bits : Z) (l : Location) : Prop :=
  match l with
  | NoLocation => True
  | ConstantLocation c => c mod 4 = 0
  | StackSlot i | DoubleStackSlot i => - kStackIndexBias bits <= i < kStackIndexBias bits
  | RegisterLocation r | FpuRegisterLocation r => 0 <= r < 2 ^ (bits - kBitsForKind)
  | RegisterPairLocation low high | FpuRegisterPairLocation low high => 0 <= low /\ 0 <= high < 2 ^ 16
  | UnallocatedLocation policy => 0 <= policy
  end.

Lemma stack_payload bits i : 32 <= bits -> - kStackIndexBias bits <= i < kStackIndexBias bits ->
  wrapu bits (kStackIndexBias bits + i) = kStackIndexBias bits + i.
Proof.
  unfold kStackIndexBias, kBitsForKind. intros Hb. rewrite Z.shiftl_mul_pow2 by lia. intros Hi.
  apply wrapu_small. unfold in_u. assert (2 ^ bits = 32 * 2 ^ (bits - 5)) as ->.
  { replace bits with (5 + (bits - 5)) at 1 by lia. rewrite Z.pow_add_r by lia. lia. }
  replace (bits - 4 - 1) with (bits - 5) in * by lia. lia.
Qed.

Lemma location_word_value bits l : GetKind l <> kConstant ->
  location_word bits l = kind_number (GetKind l) + location_payload bits l * 16.
Proof.
  intros Hk. unfold location_word, kBitsForKind.
  destruct l; try done; apply (lor_shiftl_add _ _ 4); cbn; lia.
Qed.

Lemma constant_word bits c : c mod 4 = 0 -> location_word bits (ConstantLocation c) = 1 + c.
Proof.
  intros Hc. cbn [location_word]. rewrite (Z.div_mod c 4) at 1 by lia. rewrite Hc, Z.add_0_r.
  replace (4 * (c / 4)) with (Z.shiftl (c / 4) 2) by (rewrite Z.shiftl_mul_pow2 by lia; lia).
  rewrite lor_shiftl_add by lia. change (2 ^ 2) with 4. dlia.
Qed.

Lemma pair_payload low high : 0 <= high < 2 ^ 16 -> Z.lor (Z.shiftl low 16) high = high + low * 65536.
Proof. intros Hh. rewrite Z.lor_comm. by apply (lor_shiftl_add _ _ 16). Qed.

(** Two locations have the same word exactly when they are the same: [Equals] of the model is the
    comparison of words of the code. *)
Lemma Equals_words bits a b : 32 <= bits -> encodable bits a -> encodable bits b ->
  (location_word bits a =? location_word bits b) = Equals a b.
Proof.
  intros Hb Ha Hb'. unfold Equals. apply eq_true_iff_eq. rewrite Z.eqb_eq, bool_decide_eq_true.
  split; [|by intros ->]. intros E.
  assert (forall c l, GetKind l <> kConstant -> c mod 4 = 0 ->
    location_word bits (ConstantLocation c) <> location_word bits l) as Htag.
  { intros c l Hl Hc. rewrite constant_word, location_word_value by done.
    destruct l; cbn -[Z.mul Z.add]; try done; dlia. }
  destruct (decide (GetKind a = kConstant)) as [Ka|Ka], (decide (GetKind b = kConstant)) as [Kb|Kb].
  - destruct a, b; try done. cbn in Ha, Hb'. rewrite !constant_word in E by done. f_equal. lia.
  - destruct a; try done. by apply Htag in E.
  - destruct b; try done. symmetry in E. by apply Htag in E.
  - rewrite !location_word_value in E by done.
    destruct a, b; try done; cbn [encodable GetKind kind_number location_payload] in *;
      rewrite ?stack_payload, ?pair_payload in E by lia; try lia; f_equal; lia.
Qed.
