(* ===== verification/ParallelMoveGraph.v ===== *)
(** * The move graph of the parallel-move resolver

    The invariant of [ParallelMoveResolverWithSwap::PerformMove] on the current source of every
    move ([NoLocation] for a move that is done), the stack of pending moves and the contents of
    the machine, and its preservation by the three things the resolver does with a move: drop
    it, emit it, and swap its operands. *)

From S2P Require Import Prelude DexOpcodes DexInstruction ShadowFrame InterpreterBase ParallelMove ParallelMoveMachine.

(** ** Stacks of pending moves *)

(** [p] was called to unblock [p'], which is right below it on the stack. *)
Definition caller (stk : list nat) (p p' : nat) : Prop :=
  exists l1 l2, stk = l1 ++ p :: p' :: l2.

Lemma caller_cons m stk p p' :
  caller (m :: stk) p p' <-> (p = m /\ head stk = Some p') \/ caller stk p p'.
Proof.
  unfold caller. split.
  - intros ([|q l1] & l2 & E); cbn in E; simplify_eq; [by left|right; eauto].
  - intros [[-> H]|(l1 & l2 & ->)].
    + destruct stk as [|q stk]; cbn in H; simplify_eq. by exists [], stk.
    + by exists (m :: l1), l2.
Qed.

Lemma caller_in stk p p' : caller stk p p' -> p ∈ stk /\ p' ∈ stk.
Proof. intros (l1 & l2 & ->). set_solver. Qed.

Lemma caller_not_head stk p p' : NoDup stk -> caller stk p p' -> head stk <> Some p'.
Proof.
  intros Hn (l1 & l2 & ->) H. destruct l1 as [|q l1]; cbn in *; simplify_eq.
  - apply NoDup_cons in Hn. set_solver.
  - apply NoDup_cons in Hn. set_solver.
Qed.

Lemma head_in {A} (l : list A) x : head l = Some x -> x ∈ l.
Proof. destruct l; cbn; intros; simplify_eq. set_solver. Qed.

Section Graph.
Context (K : Constants) (s0 : Store) (ms0 : list MoveOperands).

Definition src (ms : list MoveOperands) (i : nat) : Location :=
  from_option source_ NoLocation (ms !! i).
Definition dest (i : nat) : Location := from_option destination_ NoLocation (ms0 !! i).
Definition constant (i : nat) : bool := IsConstant (src ms0 i).
Definition wide_only : Prop :=
  forall k, (k < length ms0)%nat -> constant k = false -> wide (dest k).

(** The moves the resolver with swaps handles: one width per move; destinations that do not
    overlap; sources that coincide or are disjoint; wide locations that coincide or are
    disjoint; and no wide source shared by two moves when some destination is narrow. *)
Record resolvable : Prop := mkResolvable {
  rs_dest : forall i, (i < length ms0)%nat -> place (dest i);
  rs_src : forall i, (i < length ms0)%nat -> constant i = false ->
    place (src ms0 i) /\ wide (src ms0 i) = wide (dest i);
  rs_type : forall i m, ms0 !! i = Some m -> constant i = false -> Is64BitMove m = wide (dest i);
  rs_apart : forall i j, i <> j -> ~ overlap (dest i) (dest j);
  rs_sources : forall i j, overlap (src ms0 i) (src ms0 j) -> src ms0 i = src ms0 j;
  rs_aligned : forall i j, wide (src ms0 i) -> wide (dest j) ->
    overlap (src ms0 i) (dest j) -> src ms0 i = dest j;
  rs_shared : forall i j, i <> j -> wide (src ms0 i) -> src ms0 i = src ms0 j -> wide_only
}.

(** ** The invariant *)
Record graph (f : nat -> Location) (stk : list nat) : Prop := mkGraph {
  gr_nodup : NoDup stk;
  gr_stack : forall p, p ∈ stk -> (p < length ms0)%nat /\ constant p = false /\ f p <> NoLocation;
  gr_constant : forall i, constant i -> f i = NoLocation \/ f i = src ms0 i;
  gr_place : forall i, constant i = false -> f i <> NoLocation ->
    (i < length ms0)%nat /\ place (f i) /\ wide (f i) = wide (dest i);
  gr_sources : forall i j, overlap (f i) (f j) -> f i = f j;
  gr_aligned : forall i j, wide (f i) -> wide (dest j) -> overlap (f i) (dest j) -> f i = dest j;
  gr_shared : forall i j, i <> j -> wide (f i) -> f i = f j -> wide_only;
  (* a source that overlaps a finished destination overlaps no unfinished one *)
  gr_final : forall i j k, overlap (f i) (dest j) -> f j = NoLocation ->
    overlap (f i) (dest k) -> f k = NoLocation;
  gr_chain : forall p p', caller stk p p' -> overlap (f p) (dest p');
  gr_known : forall i, wide (f i) -> (exists j, f i = src ms0 j) \/ (exists j, f i = dest j)
}.

(** [l] holds the value move [i] has to deliver. *)
Definition holds (s : Store) (l : Location) (i : nat) : Prop :=
  forall k, (k < length (cells (dest i)))%nat -> word K s l k = word K s0 (src ms0 i) k.

(** A cell no destination and no source that overlaps a destination has. *)
Definition untouched (c : Cell) : Prop :=
  (forall i, c ∉ cells (dest i))
  /\ (forall i j, c ∈ cells (src ms0 i) -> ~ overlap (src ms0 i) (dest j)).

Record values (f : nat -> Location) (s : Store) : Prop := mkValues {
  va_live : forall i, (i < length ms0)%nat -> f i <> NoLocation -> holds s (f i) i;
  va_done : forall i, (i < length ms0)%nat -> f i = NoLocation -> holds s (dest i) i;
  va_frame : forall c, untouched c -> s c = s0 c
}.

Lemma graph_ext f g stk : (forall i, f i = g i) -> graph f stk -> graph g stk.
Proof.
  intros E [H1 H2 H3 H4 H5 H6 H7 H8 H9 H10].
  constructor; intros; repeat rewrite <- E in *; eauto.
Qed.

Lemma values_ext f g s : (forall i, f i = g i) -> values f s -> values g s.
Proof. intros E [H1 H2 H3]. constructor; intros; repeat rewrite <- E in *; auto. Qed.

(** What performing a move may do to the others, with [stk] pending: a move stays done; only the
    oldest pending move has its source changed; no move comes to block a move of [A]. *)
Record progress (stk A : list nat) (f g : nat -> Location) : Prop := mkProgress {
  pr_done : forall i, f i = NoLocation -> g i = NoLocation;
  pr_callee : forall p p', caller stk p p' -> g p = f p;
  pr_calm : forall a x, a ∈ A -> x ∉ stk -> overlap (g x) (dest a) -> overlap (f x) (dest a)
}.

Lemma progress_refl stk A f : progress stk A f f.
Proof. by constructor. Qed.

Lemma progress_trans stk A f g h : progress stk A f g -> progress stk A g h -> progress stk A f h.
Proof.
  intros [H1 H2 H3] [H1' H2' H3']. constructor; [eauto| |eauto].
  intros p p' Hc. rewrite (H2' p p'), (H2 p p'); eauto.
Qed.

Lemma progress_sub stk A B f g : B ⊆ A -> progress stk A f g -> progress stk B f g.
Proof. intros HB [H1 H2 H3]. constructor; eauto. Qed.

(** Back from the call of [m] that ends without performing it. *)
Lemma progress_return m stk A f g :
  stk <> [] -> progress (m :: stk) A f g -> progress stk A f g /\ g m = f m.
Proof.
  intros Hne [H1 H2 H3]. assert (g m = f m) as Em.
  { destruct stk as [|c stk]; [done|]. apply (H2 m c). apply caller_cons. by left. }
  split; [|done]. constructor; [done| |].
  - intros p p' Hc. apply (H2 p p'). apply caller_cons. by right.
  - intros a x Ha Hx. destruct (decide (x = m)) as [->|]; [by rewrite Em|].
    apply H3; set_solver.
Qed.

Section WithResolvable.
Context (Hok : resolvable).

Lemma dest_in i j : overlap (dest i) (dest j) -> i = j.
Proof. intros H. destruct (decide (i = j)); [done|]. by apply (rs_apart Hok) in H. Qed.

Section Fixed.
Context (f : nat -> Location) (stk : list nat) (Hg : graph f stk).

Lemma overlap_live i l : overlap (f i) l ->
  constant i = false /\ f i <> NoLocation /\ (i < length ms0)%nat /\ place (f i)
  /\ wide (f i) = wide (dest i).
Proof.
  intros H. assert (f i <> NoLocation) as Hl by (intros E; rewrite E in H; by apply overlap_none_l in H).
  destruct (constant i) eqn:E.
  - exfalso. destruct (gr_constant f stk Hg i) as [E'|E']; [by rewrite E|done|].
    unfold constant in E. rewrite E' in H. apply overlap_spec in H as (c & Hc & _).
    destruct (src ms0 i); try done. cbn in Hc. set_solver.
  - destruct (gr_place f stk Hg i) as (? & ? & ?); auto.
Qed.

(** A move with operands that differ has operands that do not overlap. *)
Lemma operands_apart m : constant m = false -> f m <> dest m -> ~ overlap (f m) (dest m).
Proof.
  intros Hc Hne H. destruct (overlap_live m _ H) as (_ & Hl & Hlt & Hp & Hw). apply Hne.
  destruct (wide (f m)) eqn:W.
  - apply (gr_aligned f stk Hg); [by rewrite W|by rewrite <- Hw|done].
  - apply narrow_overlap; auto. by apply (rs_dest Hok).
Qed.

Lemma graph_push m :
  m ∉ stk -> (m < length ms0)%nat -> constant m = false -> f m <> NoLocation ->
  (forall c, head stk = Some c -> overlap (f m) (dest c)) -> graph f (m :: stk).
Proof.
  intros Hm Hlt Hc Hl Hh. destruct Hg. constructor; try done.
  - by constructor.
  - intros p [->|Hp]%elem_of_cons; auto.
  - intros p p' [[-> H]|H]%caller_cons; auto.
Qed.
End Fixed.

Lemma graph_pop f m stk : graph f (m :: stk) -> graph f stk.
Proof.
  intros [H1 H2 H3 H4 H5 H6 H7 H8 H9 H10]. constructor; try done.
  - by apply NoDup_cons in H1 as [_ ?].
  - intros p Hp. apply H2. set_solver.
  - intros p p' H. apply H9, caller_cons. by right.
Qed.

(** ** Dropping a move *)
Section Kill.
Context (f g : nat -> Location) (stk : list nat) (m : nat) (Hg : graph f stk).
Context (Hm : m ∉ stk) (Hkill : g m = NoLocation) (Hsame : forall i, i <> m -> g i = f i).

Lemma killed i : g i = NoLocation \/ (i <> m /\ g i = f i).
Proof. destruct (decide (i = m)) as [->|]; auto. Qed.

Lemma killed_overlap i l : overlap (g i) l -> i <> m /\ g i = f i /\ overlap (f i) l.
Proof.
  intros H. destruct (killed i) as [E|[? E]]; rewrite E in H; [by apply overlap_none_l in H|done].
Qed.

Lemma graph_kill :
  (forall i k, i <> m -> overlap (f i) (dest m) -> overlap (f i) (dest k) -> k <> m ->
    f k = NoLocation) -> graph g stk.
Proof.
  intros Hfin. assert (forall i, wide (g i) -> i <> m /\ g i = f i) as Hwide.
  { intros i H. destruct (killed i) as [E|E]; [by rewrite E in H|done]. }
  destruct Hg as [H1 H2 H3 H4 H5 H6 H7 H8 H9 H10]. constructor; auto.
  - intros p Hp. rewrite Hsame by (by intros ->). auto.
  - intros i Hi. destruct (killed i) as [E|[_ E]]; rewrite E; auto.
  - intros i Hi Hl. destruct (killed i) as [E|[_ E]]; [done|]. rewrite E in *. auto.
  - intros i j H. destruct (killed_overlap i _ H) as (? & -> & H').
    destruct (killed_overlap j (f i) ltac:(by apply overlap_sym)) as (? & Ej & _).
    rewrite Ej in *. auto.
  - intros i j Hw Hd H. destruct (killed_overlap i _ H) as (? & E & ?). rewrite E in *. auto.
  - intros i j Hne Hw E. destruct (Hwide i Hw) as [? Ei]. rewrite E in Hw.
    destruct (Hwide j Hw) as [? Ej]. rewrite Ei, Ej in *. rewrite <- E in Hw. eauto.
  - intros i j k Hj Hdead Hk. destruct (killed_overlap i _ Hj) as (Hi & Ei & Hj').
    destruct (killed_overlap i _ Hk) as (_ & _ & Hk').
    destruct (decide (k = m)) as [->|Hkm]; [done|]. rewrite Hsame by done.
    destruct (decide (j = m)) as [->|Hjm]; [eauto|]. rewrite Hsame in Hdead by done. eauto.
  - intros p p' Hc. rewrite Hsame; [auto|]. intros ->. apply Hm. by apply (caller_in stk m p').
  - intros i Hw. destruct (Hwide i Hw) as [_ E]. rewrite E in *. auto.
Qed.

Lemma progress_kill A : progress stk A f g.
Proof.
  constructor.
  - intros i E. destruct (killed i) as [?|[_ ->]]; auto.
  - intros p p' Hc. apply Hsame. intros ->. apply Hm. by apply (caller_in stk m p').
  - intros a x _ _ H. by apply killed_overlap in H as (_ & _ & ?).
Qed.

Lemma values_drop s : (m < length ms0)%nat -> f m <> NoLocation -> f m = dest m ->
  values f s -> values g s.
Proof.
  intros Hlt Hlm E [H1 H2 H3]. constructor; [| |done].
  - intros i Hi Hli. destruct (killed i) as [?|[_ Ei]]; [done|]. rewrite Ei in *. auto.
  - intros i Hi Hd. destruct (decide (i = m)) as [->|Him].
    + rewrite <- E. auto.
    + apply H2; [done|]. by rewrite <- Hsame.
Qed.

Lemma values_emit s : (m < length ms0)%nat -> f m <> NoLocation ->
  (forall i, ~ overlap (f i) (dest m)) ->
  values f s -> values g (exec K (EmitMove (f m) (dest m)) s).
Proof.
  intros Hlt Hlm Hfree [H1 H2 H3]. constructor.
  - intros i Hi Hli k Hk. destruct (killed i) as [?|[_ Ei]]; [done|]. rewrite Ei in *.
    rewrite word_move_other by done. by apply H1.
  - intros i Hi Hd k Hk. destruct (decide (i = m)) as [->|Him].
    + destruct (lookup_lt_is_Some_2 _ _ Hk) as [c Hc]. rewrite <- (H1 m Hlt Hlm k Hk).
      pose proof (rs_dest Hok m Hlt) as Hp. rewrite <- (word_moved K s (f m) (dest m) k c Hp Hc).
      unfold word at 1. destruct (dest m); try done; by rewrite Hc.
    + rewrite word_move_other by (intros ?%dest_in; done). apply H2; [done| |done].
      by rewrite <- Hsame.
  - intros c Hu. rewrite exec_move_outside by apply Hu. auto.
Qed.
End Kill.
(** ** Swapping the operands of a move *)
Section Swap.
Context (f g : nat -> Location) (stk : list nat) (m : nat) (Hg : graph f stk).
Context (Hm : m ∉ stk) (Hc : constant m = false) (Hl : f m <> NoLocation) (Hne : f m <> dest m).

(** The source overlaps an unfinished destination, that of the move below it on the stack if
    there is one, and a wide source that overlaps the destination is matched by it. *)
Context (Hopen : exists j, j <> m /\ f j <> NoLocation /\ overlap (f m) (dest j)).
Context (Hhead : forall c, head stk = Some c -> overlap (f m) (dest c)).
Context (Hwide : forall x, overlap (f x) (dest m) -> wide (f x) -> wide (dest m)).

Local Abbreviation S := (f m).
Local Abbreviation D := (dest m).

Lemma swap_S : place S.
Proof. by apply (gr_place f stk Hg m). Qed.
Lemma swap_D : place D.
Proof. apply (rs_dest Hok). by apply (gr_place f stk Hg m). Qed.
Lemma swap_width : wide S = wide D.
Proof. by apply (gr_place f stk Hg m). Qed.
Lemma swap_apart : ~ overlap S D.
Proof. by apply (operands_apart f stk Hg). Qed.
Local Hint Resolve swap_S swap_D swap_width swap_apart : core.

Lemma fits_S x : overlap (f x) S -> wide (f x) -> f x = S.
Proof. intros H _. by apply (gr_sources f stk Hg). Qed.
Lemma fits_D x : overlap (f x) D -> wide (f x) -> f x = D.
Proof. intros H W. apply (gr_aligned f stk Hg); eauto. Qed.

(** The source overlaps no finished destination. *)
Lemma swap_not_final j : f j = NoLocation -> ~ overlap S (dest j).
Proof.
  intros Hj Ho. destruct Hopen as (k & Hk & Hlk & Hok'). apply Hlk.
  by apply (gr_final f stk Hg m j k).
Qed.

(** A move with a caller below it keeps its source. *)
Lemma swap_callee p p' : caller stk p p' -> ~ overlap (f p) S /\ ~ overlap (f p) D.
Proof.
  intros Hcall. destruct (caller_in stk p p' Hcall) as [Hp Hp'].
  pose proof (gr_chain f stk Hg p p' Hcall) as Hch.
  destruct (gr_stack f stk Hg p Hp) as (Hlt & Hcp & Hlp).
  destruct (gr_place f stk Hg p Hcp Hlp) as (_ & Hpp & Hwp). split; intros Ho.
  - pose proof (gr_sources f stk Hg p m Ho) as E. rewrite E in *.
    destruct (head stk) as [c|] eqn:Eh; [|by destruct stk; [apply not_elem_of_nil in Hp|]].
    pose proof (Hhead c eq_refl) as Hhc. assert (c <> p') as Hcp'.
    { intros ->. by apply (caller_not_head stk p p' (gr_nodup f stk Hg)). }
    destruct (wide S) eqn:W.
    + assert (wide_only) as Hall.
      { apply (gr_shared f stk Hg p m); rewrite ?E, ?W; try done. by intros ->. }
      assert (forall q, q ∈ stk -> overlap S (dest q) -> S = dest q) as Hq.
      { intros q (? & ? & ?)%(gr_stack f stk Hg) ?.
        apply (gr_aligned f stk Hg); rewrite ?W; auto. }
      pose proof (Hq c (head_in _ _ Eh) Hhc) as E1. pose proof (Hq p' Hp' Hch) as E2.
      apply Hcp', dest_in. rewrite <- E1, <- E2. by apply overlap_refl.
    + apply Hcp', dest_in. by apply (narrow_two S).
  - assert (overlap D (dest p')) as H.
    { destruct (wide (f p)) eqn:W; [|by apply (narrow_two (f p))].
      pose proof (fits_D p Ho ltac:(by rewrite W)) as E. by rewrite <- E. }
    apply dest_in in H. by subst.
Qed.

Context (Hgm : g m = NoLocation).
Context (Hren : forall x, x <> m -> (f x = NoLocation /\ g x = NoLocation)
  \/ (constant x /\ g x = f x) \/ (constant x = false /\ f x <> NoLocation /\ renamed S D (f x) (g x))).

Lemma swap_live x l : overlap (g x) l ->
  x <> m /\ constant x = false /\ place (f x) /\ place (g x) /\ wide (g x) = wide (f x)
  /\ renamed S D (f x) (g x).
Proof.
  intros H. destruct (decide (x = m)) as [->|Hx].
  { rewrite Hgm in H. by apply overlap_none_l in H. }
  destruct (Hren x Hx) as [[_ E]|[[Hcx E]|(Hcx & Hlx & R)]].
  - rewrite E in H. by apply overlap_none_l in H.
  - rewrite E in H. destruct (overlap_live f stk Hg x l H) as (Hcx' & _). by rewrite Hcx' in Hcx.
  - destruct (gr_place f stk Hg x Hcx Hlx) as (_ & Hp & _). pose proof R as (_ & Hp' & Hw). done.
Qed.

(** Where the cells of a renamed source are. *)
Lemma swap_where x l : overlap (g x) l ->
  (overlap (f x) S /\ forall l, overlap (g x) l -> overlap D l)
  \/ (overlap (f x) D /\ forall l, overlap (g x) l -> overlap S l)
  \/ (~ overlap (f x) S /\ ~ overlap (f x) D /\ g x = f x).
Proof.
  intros H. destruct (swap_live x l H) as (_ & _ & Hp & _ & _ & R).
  destruct (decide (overlap (f x) S)) as [H1|H1].
  { left. split; [done|]. intros l'. eapply (renamed_from_S S D); eauto using fits_S. }
  destruct (decide (overlap (f x) D)) as [H2|H2].
  { right. left. split; [done|]. intros l'. eapply (renamed_from_D S D); eauto using fits_D. }
  right. right. split_and!; [done..|].
  eapply renamed_fun; [exact R|by apply renamed_disjoint].
Qed.

Lemma swap_place x : wide (g x) -> place (g x).
Proof.
  intros W. destruct (decide (x = m)) as [->|Hx]; [by rewrite Hgm in W|].
  destruct (Hren x Hx) as [[_ E]|[[Hcx E]|(Hcx & Hlx & R)]].
  - by rewrite E in W.
  - rewrite E in *. unfold constant in Hcx.
    destruct (gr_constant f stk Hg x Hcx) as [E'|E']; rewrite E' in *; [done|].
    by destruct (src ms0 x).
  - by apply R.
Qed.

Lemma swap_wide x : wide (g x) ->
  (f x = S /\ g x = D) \/ (f x = D /\ g x = S) \/ (wide (f x) /\ g x = f x).
Proof.
  intros W. pose proof (overlap_refl (g x) (swap_place x W)) as Ho.
  destruct (swap_live x _ Ho) as (_ & _ & _ & _ & Hw & R). rewrite Hw in W.
  destruct (swap_where x _ Ho) as [[H _]|[[H _]|(_ & _ & H)]]; [| |by eauto].
  - pose proof (fits_S x H W) as E. left. split; [done|]. rewrite E in R.
    eapply renamed_fun; [exact R|]. by apply renamed_S.
  - pose proof (fits_D x H W) as E. right. left. split; [done|]. rewrite E in R.
    eapply renamed_fun; [exact R|]. by apply renamed_D.
Qed.

Lemma swap_same x y : overlap (g x) (g y) -> g x = g y.
Proof.
  intros H. destruct (swap_live x _ H) as (_ & _ & Hx & _ & _ & Rx).
  destruct (swap_live y _ (overlap_sym _ _ H)) as (_ & _ & Hy & _ & _ & Ry).
  apply (renamed_overlap S D) with (x := f x) (y := f y) in H; auto.
  apply (gr_sources f stk Hg) in H. rewrite H in Rx. by eapply renamed_fun.
Qed.

Lemma swap_final i j k : overlap (g i) (dest j) -> g j = NoLocation ->
  overlap (g i) (dest k) -> g k = NoLocation.
Proof.
  intros Hj Hdead Hk. assert (f j = NoLocation \/ j = m) as Hdj.
  { destruct (decide (j = m)) as [|Hjm]; [by right|left].
    destruct (Hren j Hjm) as [[? _]|[[Hcj E]|(Hcj & Hlj & R)]]; [done|congruence|].
    destruct R as (_ & Hp & _). rewrite Hdead in Hp. done. }
  assert (k <> m -> f k = NoLocation -> g k = NoLocation) as Hkd.
  { intros Hkm E. destruct (Hren k Hkm) as [[_ ?]|[[_ ?]|(_ & ? & _)]]; congruence. }
  destruct (swap_where i _ Hj) as [[_ H]|[[_ H]|(H1 & H2 & E)]].
  - apply H, dest_in in Hk. by subst.
  - exfalso. destruct Hdj as [Hdj| ->]; [|by apply swap_apart, H].
    by apply (swap_not_final j), H.
  - rewrite E in *. destruct Hdj as [Hdj| ->]; [|done].
    destruct (decide (k = m)) as [->|Hkm]; [done|]. apply Hkd; [done|].
    by apply (gr_final f stk Hg i j k).
Qed.

Lemma swap_stays p p' : caller stk p p' -> g p = f p.
Proof.
  intros Hcall. destruct (swap_callee p p' Hcall) as [H1 H2].
  destruct (caller_in stk p p' Hcall) as [Hp _].
  destruct (Hren p) as [[E1 E2]|[[_ E]|(Hcp & Hlp & R)]]; [by intros ->|congruence|done|].
  eapply renamed_fun; [exact R|]. apply renamed_disjoint; auto. by apply (gr_place f stk Hg).
Qed.

Lemma graph_swap : graph g stk.
Proof.
  constructor.
  - apply Hg.
  - intros p Hp. destruct (gr_stack f stk Hg p Hp) as (Hlt & Hcp & Hlp). split_and!; [done..|].
    destruct (Hren p) as [[E _]|[[Hcp' _]|(_ & _ & R)]]; [by intros ->|done|by rewrite Hcp in Hcp'|].
    intros E. destruct R as (_ & Hpl & _). by rewrite E in Hpl.
  - intros i Hi. destruct (decide (i = m)) as [->|Him]; [by left|].
    destruct (Hren i Him) as [[_ E]|[[_ ->]|(Hci & _)]]; [by left|by apply (gr_constant f stk Hg)|].
    by rewrite Hci in Hi.
  - intros i Hi Hli. destruct (decide (i = m)) as [->|Him]; [done|].
    destruct (Hren i Him) as [[_ E]|[[Hci _]|(Hci & Hlfi & R)]]; [done|by rewrite Hi in Hci|].
    destruct (gr_place f stk Hg i Hi Hlfi) as (? & ? & Hw). destruct R as (_ & Hp & Hw').
    split_and!; [done..|congruence].
  - apply swap_same.
  - intros i j Wi Wj H. destruct (swap_wide i Wi) as [[_ E]|[[_ E]|[W E]]]; rewrite E in *.
    + apply dest_in in H. by subst.
    + by apply (gr_aligned f stk Hg).
    + by apply (gr_aligned f stk Hg).
  - intros i j Hij Wi E. pose proof (overlap_refl _ (swap_place i Wi)) as Hi.
    destruct (swap_live i _ Hi) as (_ & _ & Hpi & _ & Hw & Ri). rewrite Hw in Wi.
    rewrite E in Hi at 1. destruct (swap_live j _ Hi) as (_ & _ & Hpj & _ & _ & Rj).
    apply (gr_shared f stk Hg i j); auto. rewrite <- E in Rj. by apply (renamed_inj S D) with (z := g i).
  - apply swap_final.
  - intros p p' Hcall. rewrite (swap_stays p p' Hcall). by apply (gr_chain f stk Hg).
  - intros i Wi. destruct (swap_wide i Wi) as [[_ E]|[[_ E]|[W E]]]; rewrite E in *.
    + right. by exists m.
    + by apply (gr_known f stk Hg).
    + by apply (gr_known f stk Hg).
Qed.

Lemma values_swap s : values f s -> values g (exec K (EmitSwap S D) s).
Proof.
  intros [Hlive Hdone Hframe]. constructor.
  - intros i Hi Hli k Hk. destruct (decide (i = m)) as [->|Him]; [done|].
    destruct (Hren i Him) as [[_ E]|[[Hci E]|(Hci & Hlfi & R)]]; [done| |].
    + rewrite E. destruct (gr_constant f stk Hg i Hci) as [E'|E']; [congruence|].
      rewrite E'. unfold constant in Hci. by destruct (src ms0 i).
    + destruct (gr_place f stk Hg i Hci Hlfi) as (_ & Hpi & _).
      rewrite (word_renamed S D) with (x := f i) by auto. by apply Hlive.
  - intros i Hi Hdi k Hk. destruct (decide (i = m)) as [->|Him].
    { rewrite (word_renamed S D) with (x := S) by auto using renamed_S. by apply Hlive. }
    assert (f i = NoLocation) as Hfi.
    { destruct (Hren i Him) as [[? _]|[[_ E]|(_ & _ & R)]]; [done|congruence|].
      destruct R as (_ & Hp & _). by rewrite Hdi in Hp. }
    rewrite <- (Hdone i Hi Hfi k Hk). apply word_ext. intros c Hcc. cbn.
    f_equal. apply exchange_outside; intros H.
    + apply (swap_not_final i Hfi), overlap_spec. eauto.
    + apply Him, dest_in, overlap_spec. eauto.
  - intros c Hu. pose proof Hu as [Hu1 Hu2]. cbn. rewrite exchange_outside; auto.
    intros H. destruct Hopen as (j & _ & _ & Hj). destruct (wide S) eqn:W.
    + destruct (gr_known f stk Hg m) as [[i E]|[i E]]; [by rewrite W| |]; rewrite E in *.
      * by apply (Hu2 i j).
      * by apply (Hu1 i).
    + destruct (narrow_cells S) as [d E]; [done..|]. apply overlap_spec in Hj.
      rewrite E in *. apply (Hu1 j). set_solver.
Qed.

(** After a swap of a move whose blockers are all pending, nothing new is blocked. *)
Lemma progress_swap A : (forall a, a ∈ A -> a ∈ stk) ->
  (forall x, x ∉ stk -> x <> m -> ~ overlap (f x) D) -> progress stk A f g.
Proof.
  intros HA Hpend. constructor.
  - intros i E. destruct (decide (i = m)) as [->|Him]; [done|].
    destruct (Hren i Him) as [[_ ?]|[[_ ?]|(_ & ? & _)]]; congruence.
  - apply swap_stays.
  - intros a x Ha Hx H. destruct (swap_live x _ H) as (Hxm & _).
    destruct (swap_where x _ H) as [[_ H']|[[H' _]|(_ & _ & E)]].
    + apply H', dest_in in H as <-. by apply HA in Ha.
    + by apply Hpend in H'.
    + by rewrite E in H.
Qed.

(** After a swap forced by a narrow move [k], only the caller of the swapped move may be blocked
    again. *)
Lemma progress_forced_swap k : k ∉ stk -> overlap S (dest k) -> progress stk (tail stk) f g.
Proof.
  intros Hk Hok'. constructor.
  - intros i E. destruct (decide (i = m)) as [->|Him]; [done|].
    destruct (Hren i Him) as [[_ ?]|[[_ ?]|(_ & ? & _)]]; congruence.
  - apply swap_stays.
  - intros a x Ha Hx H. pose proof (gr_nodup f stk Hg) as Hnd.
    assert (exists c stk', stk = c :: stk') as (c & stk' & Estk).
    { clear -Ha. destruct stk; [by apply not_elem_of_nil in Ha|eauto]. }
    assert (overlap S (dest c)) as Hhc by (apply Hhead; by rewrite Estk).
    rewrite Estk in Ha, Hnd, Hx, Hk. cbn in Ha. apply NoDup_cons in Hnd as [Hc' _].
    destruct (swap_where x _ H) as [[_ H']|[[_ H']|(_ & _ & E)]].
    + exfalso. apply H', dest_in in H as <-. apply Hm. rewrite Estk. set_solver.
    + exfalso. destruct (overlap_three S (dest a) (dest c) (dest k)) as [E|[E|E]]; auto;
        apply dest_in in E; set_solver.
    + by rewrite E in H.
Qed.
End Swap.

End WithResolvable.
End Graph.
