(* ===== verification/ParallelMoveSwap.v ===== *)
(** * Correctness of the resolver with swaps

    [PerformMove] keeps the invariant of ParallelMoveGraph.v, passes every [DCHECK] and returns
    within its fuel, and what it says about the moves that are left. *)

From S2P Require Import Prelude DexOpcodes DexInstruction ShadowFrame InterpreterBase ParallelMove ParallelMoveMachine ParallelMoveGraph.

(** ** Counting indices *)
Fixpoint count (P : nat -> bool) (n : nat) : nat :=
  match n with O => 0 | S n => (if P n then 1 else 0) + count P n end%nat.

Lemma count_le (P Q : nat -> bool) n : (forall i, (i < n)%nat -> P i -> Q i) -> (count P n <= count Q n)%nat.
Proof.
  induction n as [|n IH]; cbn; intros H; [lia|].
  pose proof (IH (fun i Hi => H i (Nat.lt_lt_succ_r _ _ Hi))).
  pose proof (H n (Nat.lt_succ_diag_r n)). destruct (P n), (Q n); cbn in *; lia || tauto.
Qed.

Lemma count_lt (P Q : nat -> bool) n j : (forall i, (i < n)%nat -> P i -> Q i) -> (j < n)%nat -> ~ P j -> Q j ->
  (count P n < count Q n)%nat.
Proof.
  induction n as [|n IH]; cbn; intros H Hj HP HQ; [lia|].
  pose proof (H n (Nat.lt_succ_diag_r n)) as Hn.
  destruct (decide (j = n)) as [->|].
  - pose proof (count_le P Q n (fun i Hi => H i (Nat.lt_lt_succ_r _ _ Hi))).
    destruct (P n), (Q n); cbn in *; lia || tauto.
  - pose proof (IH (fun i Hi => H i (Nat.lt_lt_succ_r _ _ Hi)) ltac:(lia) HP HQ).
    destruct (P n), (Q n); cbn in *; lia || tauto.
Qed.

Lemma count_bound P n : (count P n <= n)%nat.
Proof. induction n; cbn; [lia|]. destruct (P _); lia. Qed.

(** ** Lists of moves *)
Lemma src_alter f i ms j :
  src (alter f i ms) j = if decide (i = j) then from_option (source_ ∘ f) NoLocation (ms !! i) else src ms j.
Proof.
  unfold src. destruct (decide (i = j)) as [->|Hne].
  - rewrite list_lookup_alter_eq. by destruct (ms !! j).
  - by rewrite list_lookup_alter_ne.
Qed.

Lemma first_blocking_Some d ms : forall i o m,
  first_blocking d i ms = Some (o, m) -> exists k, o = (i + k)%nat /\ ms !! k = Some m /\ Blocks m d.
Proof.
  induction ms as [|m' ms IH]; cbn; intros i o m H; [done|].
  destruct (Blocks m' d) eqn:E; simplify_eq.
  - exists 0%nat. rewrite E. split_and!; [lia|done..].
  - destruct (IH _ _ _ H) as (k & -> & ? & ?). exists (S k). split_and!; [lia|done..].
Qed.

Lemma first_blocking_None d ms : forall i,
  first_blocking d i ms = None -> forall k m, ms !! k = Some m -> ~ Blocks m d.
Proof.
  induction ms as [|m' ms IH]; cbn; intros i H k m Hk; [done|].
  destruct (Blocks m' d) eqn:E; [done|]. destruct k as [|k]; cbn in Hk; simplify_eq.
  - rewrite E. by intros [].
  - by apply (IH _ H k m).
Qed.

(** ** Running the resolver's primitives *)
Lemma runs_move_at i m st Q : moves_ st !! i = Some m -> Q m st -> runs (move_at i) st Q.
Proof. intros H HQ. unfold runs, move_at. by rewrite H. Qed.

Lemma runs_dcheck (b : bool) st (Q : unit -> Resolver -> Prop) : b -> Q tt st -> runs (dcheck b) st Q.
Proof. destruct b; [done|]. by intros []. Qed.

Lemma runs_change i h st (Q : unit -> Resolver -> Prop) :
  Q tt (mkResolver (alter h i (moves_ st)) (code_ st)) -> runs (change_move i h) st Q.
Proof. done. Qed.

Lemma runs_emit e st (Q : unit -> Resolver -> Prop) :
  Q tt (mkResolver (moves_ st) (code_ st ++ [e])) -> runs (emit e) st Q.
Proof. done. Qed.

Lemma runs_emit_move i m st (Q : unit -> Resolver -> Prop) : moves_ st !! i = Some m ->
  Q tt (mkResolver (moves_ st) (code_ st ++ [EmitMove (source_ m) (destination_ m)])) ->
  runs (emit_move i) st Q.
Proof. intros H HQ. eapply runs_bind, runs_move_at; [done|]. by apply runs_emit. Qed.

Lemma runs_emit_swap i m st (Q : unit -> Resolver -> Prop) : moves_ st !! i = Some m ->
  Q tt (mkResolver (moves_ st) (code_ st ++ [EmitSwap (source_ m) (destination_ m)])) ->
  runs (emit_swap i) st Q.
Proof. intros H HQ. eapply runs_bind, runs_move_at; [done|]. by apply runs_emit. Qed.

Lemma SetSource_id m : SetSource (source_ m) m = m.
Proof. by destruct m. Qed.

Section Resolve.
Context (K : Constants) (s0 : Store) (ms0 : list MoveOperands) (Hok : resolvable ms0).

Local Abbreviation n := (length ms0).
Local Abbreviation dest := (dest ms0).
Local Abbreviation constant := (constant ms0).
Local Abbreviation sources := (fun st => src (moves_ st)).
Local Abbreviation contents := (fun st => exec_code K (code_ st) s0).

Definition move_shape (stk : list nat) (i : nat) (m : MoveOperands) : Prop :=
  (forall m0, ms0 !! i = Some m0 -> type_ m = type_ m0)
  /\ destination_ m = if decide (i ∈ stk \/ source_ m = NoLocation) then NoLocation else dest i.

Record inv (st : Resolver) (stk : list nat) : Prop := mkInv {
  in_length : length (moves_ st) = n;
  in_shape : forall i m, moves_ st !! i = Some m -> move_shape stk i m;
  in_graph : graph ms0 (sources st) stk;
  in_values : values K s0 ms0 (sources st) (contents st)
}.

(** A move that is not done. *)
Definition open (st : Resolver) (i : nat) : Prop :=
  (i < n)%nat /\ constant i = false /\ sources st i <> NoLocation.

Lemma open_lookup st stk i : inv st stk -> open st i -> exists m,
  moves_ st !! i = Some m /\ source_ m = sources st i
  /\ destination_ m = (if decide (i ∈ stk) then NoLocation else dest i)
  /\ Is64BitMove m = wide (dest i) /\ IsEliminated m = false
  /\ IsPending m = bool_decide (i ∈ stk).
Proof.
  intros Hi (Hlt & Hc & Hl). destruct (lookup_lt_is_Some_2 (moves_ st) i) as [m Hm].
  { by rewrite (in_length _ _ Hi). }
  destruct (in_shape _ _ Hi i m Hm) as [Ht Hd].
  assert (source_ m = src (moves_ st) i) as Hs by (unfold src; by rewrite Hm).
  assert (destination_ m = if decide (i ∈ stk) then NoLocation else dest i) as Hd'.
  { rewrite Hd, Hs. repeat destruct (decide _); naive_solver. }
  assert (forall l, l <> NoLocation -> IsInvalid l = false) as Hinv by (by intros []).
  exists m. split_and!; [done..| | |].
  - destruct (lookup_lt_is_Some_2 ms0 i Hlt) as [m0 Hm0].
    rewrite <- (rs_type ms0 Hok i m0 Hm0 Hc). unfold Is64BitMove. by rewrite (Ht m0 Hm0).
  - unfold IsEliminated. rewrite Hs. auto.
  - unfold IsPending. rewrite Hs, (Hinv (src _ _)) by done. rewrite Hd'. cbn. rewrite andb_true_r.
    destruct (decide (i ∈ stk)); [by rewrite bool_decide_eq_true_2|].
    rewrite bool_decide_eq_false_2 by done. apply Hinv. intros E.
    pose proof (rs_dest ms0 Hok i Hlt) as Hp. by rewrite E in Hp.
Qed.

Lemma Blocks_spec st stk x m d : inv st stk -> moves_ st !! x = Some m -> (d < n)%nat ->
  Blocks m (dest d) <-> overlap (sources st x) (dest d).
Proof.
  intros Hi Hm Hd. assert (source_ m = src (moves_ st) x) as Hs by (unfold src; by rewrite Hm).
  pose proof (rs_dest ms0 Hok d Hd) as Hp. unfold Blocks, IsEliminated. rewrite Hs.
  pose proof (in_graph _ _ Hi) as Hg.
  destruct (decide (src (moves_ st) x = NoLocation)) as [E|Hl].
  { rewrite E. cbn. split; [done|]. apply overlap_none_l. }
  replace (IsInvalid (src (moves_ st) x)) with false by (by destruct (src (moves_ st) x)). cbn [negb andb].
  destruct (constant x) eqn:Hc.
  - destruct (gr_constant _ _ _ Hg x) as [E|E]; [by rewrite Hc|done|]. rewrite E.
    unfold ParallelMoveGraph.constant in Hc. destruct (src ms0 x); try done.
    rewrite OverlapsWith_constant by done. split; [done|]. by intros ?%Exists_nil.
  - destruct (gr_place _ _ _ Hg x Hc Hl) as (_ & Hpx & _).
    apply OverlapsWith_overlap; [done..|]. apply (gr_aligned _ _ _ Hg).
Qed.

(** ** One move changed *)
Local Abbreviation changed st h i := (mkResolver (alter h i (moves_ st)) (code_ st)).
Local Abbreviation emitted st e := (mkResolver (moves_ st) (code_ st ++ [e])).

Lemma shape_alter st stk stk' h i : inv st stk ->
  (forall m, moves_ st !! i = Some m -> move_shape stk i m -> move_shape stk' i (h m)) ->
  (forall j, j <> i -> j ∈ stk <-> j ∈ stk') ->
  forall j m, alter h i (moves_ st) !! j = Some m -> move_shape stk' j m.
Proof.
  intros Hi Hh Hstk j m Hj. destruct (decide (i = j)) as [->|Hne].
  - rewrite list_lookup_alter_eq in Hj. apply fmap_Some in Hj as (m' & Hm' & ->).
    apply Hh; [done|]. by apply (in_shape _ _ Hi).
  - rewrite list_lookup_alter_ne in Hj by done.
    destruct (in_shape _ _ Hi j m Hj) as [Ht Hd]. split; [done|]. rewrite Hd.
    destruct (decide (j ∈ stk \/ _)) as [H|H], (decide (j ∈ stk' \/ _)) as [H'|H']; try done;
      exfalso; rewrite Hstk in H by done; done.
Qed.

Lemma sources_destination st l i j : sources (changed st (SetDestination l) i) j = sources st j.
Proof.
  cbn. rewrite src_alter. destruct (decide (i = j)) as [->|]; [|done].
  unfold src. by destruct (moves_ st !! j).
Qed.

Lemma inv_mark st stk i : inv st stk -> open st i -> i ∉ stk ->
  (forall c, head stk = Some c -> overlap (sources st i) (dest c)) ->
  inv (changed st (SetDestination NoLocation) i) (i :: stk).
Proof.
  intros Hi (Hlt & Hc & Hl) Hn Hh. constructor; cbn.
  - rewrite length_alter. apply Hi.
  - apply (shape_alter st stk); [done| |set_solver].
    intros m _ [Ht _]. split; [done|]. cbn.
    by rewrite decide_True by (left; set_solver).
  - eapply graph_ext; [intros; symmetry; apply sources_destination|].
    apply graph_push; auto. apply Hi.
  - eapply values_ext; [intros; symmetry; apply sources_destination|]. apply Hi.
Qed.

Lemma inv_clear st stk i : inv st (i :: stk) ->
  inv (changed st (SetDestination (dest i)) i) stk /\ i ∉ stk /\ open st i.
Proof.
  intros Hi. pose proof (gr_nodup _ _ _ (in_graph _ _ Hi)) as Hn. apply NoDup_cons in Hn as [Hn _].
  destruct (gr_stack _ _ _ (in_graph _ _ Hi) i) as (Hlt & Hc & Hl); [set_solver|].
  split; [|done]. constructor; cbn.
  - rewrite length_alter. apply Hi.
  - apply (shape_alter st (i :: stk)); [done| |set_solver].
    intros m Hm [Ht _]. split; [done|]. cbn. rewrite decide_False; [done|].
    intros [?|E]; [done|]. apply Hl. unfold src. by rewrite Hm.
  - eapply graph_ext; [intros; symmetry; apply sources_destination|].
    apply (graph_pop ms0 Hok _ i), Hi.
  - eapply values_ext; [intros; symmetry; apply sources_destination|]. apply Hi.
Qed.

Lemma sources_eliminate st i :
  sources (changed st Eliminate i) i = NoLocation
  /\ forall j, j <> i -> sources (changed st Eliminate i) j = sources st j.
Proof.
  cbn. split.
  - rewrite src_alter, decide_True by done. by destruct (moves_ st !! i).
  - intros j Hj. by rewrite src_alter, decide_False.
Qed.

Lemma inv_eliminate st stk i code : inv st stk -> i ∉ stk ->
  graph ms0 (sources (changed st Eliminate i)) stk ->
  values K s0 ms0 (sources (changed st Eliminate i)) (exec_code K code s0) ->
  inv (mkResolver (alter Eliminate i (moves_ st)) code) stk.
Proof.
  intros Hi Hn Hg Hv. constructor; cbn; [|..|done|done].
  - rewrite length_alter. apply Hi.
  - apply (shape_alter st stk); [done| |done]. intros m _ [Ht _]. split; [done|]. cbn.
    by rewrite decide_True by auto.
Qed.

(** A move whose source has become its destination is dropped. *)
Lemma inv_drop st stk i : inv st stk -> open st i -> i ∉ stk -> sources st i = dest i ->
  inv (changed st Eliminate i) stk.
Proof.
  intros Hi (Hlt & Hc & Hl) Hn E. destruct (sources_eliminate st i) as [E1 E2].
  apply inv_eliminate; auto.
  - apply (graph_kill ms0 (sources st) _ stk i); auto; [apply Hi|].
    intros j k Hj H1 H2 Hk. exfalso. apply Hk. rewrite <- E in H1.
    apply (gr_sources _ _ _ (in_graph _ _ Hi)) in H1. cbn in *. rewrite H1, E in H2.
    symmetry. by apply (dest_in ms0).
  - apply (values_drop K s0 ms0 (sources st) _ i); auto. apply Hi.
Qed.

(** A move that nothing blocks is emitted. *)
Lemma inv_emit st stk i : inv st stk -> (i < n)%nat -> sources st i <> NoLocation -> i ∉ stk ->
  (forall j, ~ overlap (sources st j) (dest i)) ->
  inv (changed (emitted st (EmitMove (sources st i) (dest i))) Eliminate i) stk.
Proof.
  intros Hi Hlt Hl Hn Hfree. destruct (sources_eliminate st i) as [E1 E2].
  apply (inv_eliminate st stk i _ Hi Hn).
  - apply (graph_kill ms0 (sources st) _ stk i); auto; [apply Hi|].
    intros j k _ H. by apply (Hfree j) in H.
  - cbn [code_]. rewrite exec_code_snoc. apply (values_emit K s0 ms0 Hok (sources st) _ i); auto. apply Hi.
Qed.

(** The operands of a move are exchanged. *)
Definition swappable (st : Resolver) (stk : list nat) (i : nat) : Prop :=
  open st i /\ i ∉ stk /\ sources st i <> dest i
  /\ (exists j, j <> i /\ sources st j <> NoLocation /\ overlap (sources st i) (dest j))
  /\ (forall c, head stk = Some c -> overlap (sources st i) (dest c))
  /\ (forall x, overlap (sources st x) (dest i) -> wide (sources st x) -> wide (dest i)).

Definition swapped (st st' : Resolver) (i : nat) : Prop :=
  sources st' i = NoLocation
  /\ forall x, x <> i -> (sources st x = NoLocation /\ sources st' x = NoLocation)
     \/ (constant x /\ sources st' x = sources st x)
     \/ (constant x = false /\ sources st x <> NoLocation
         /\ renamed (sources st i) (dest i) (sources st x) (sources st' x)).

(** The loop over the moves after a swap, on one move that is left. *)
Lemma update_one st stk i j m : inv st stk -> swappable st stk i -> j <> i ->
  moves_ st !! j = Some m ->
  exists x', update_after_swap (sources st i) (dest i) m = Some (SetSource x' m)
    /\ ((sources st j = NoLocation /\ x' = NoLocation) \/ (constant j /\ x' = sources st j)
        \/ (constant j = false /\ sources st j <> NoLocation
            /\ renamed (sources st i) (dest i) (sources st j) x')).
Proof.
  intros Hi ((Hlt & Hc & Hl) & Hn & Hne & _ & _ & Hw) Hji Hm.
  assert (source_ m = src (moves_ st) j) as Hs by (unfold src; by rewrite Hm).
  pose proof (in_graph _ _ Hi) as Hg. destruct (gr_place _ _ _ Hg i Hc Hl) as (_ & HS & Hwi).
  pose proof (rs_dest ms0 Hok i Hlt) as HD.
  destruct (decide (src (moves_ st) j = NoLocation)) as [E|Hlj].
  { exists NoLocation. split; [|by left]. rewrite (update_after_swap_inert _ _ HS HD) by (left; congruence).
    rewrite <- E, <- Hs. by rewrite SetSource_id. }
  destruct (constant j) eqn:Hcj.
  - exists (src (moves_ st) j). split; [|by right; left].
    destruct (gr_constant _ _ _ Hg j) as [E|E]; [by rewrite Hcj|done|].
    rewrite (update_after_swap_inert _ _ HS HD); [by rewrite <- Hs, SetSource_id|].
    right. rewrite Hs, E. unfold ParallelMoveGraph.constant in Hcj. by rewrite Hcj.
  - destruct (gr_place _ _ _ Hg j Hcj Hlj) as (_ & Hpj & _).
    destruct (update_after_swap_spec (src (moves_ st) i) (dest i) HS HD Hwi) with (m := m) as (x' & E & R).
    + by apply (operands_apart ms0 Hok _ stk Hg).
    + by rewrite Hs.
    + rewrite Hs. intros H _. by apply (gr_sources _ _ _ Hg).
    + rewrite Hs. intros H W. apply (gr_aligned _ _ _ Hg); eauto.
    + exists x'. split; [done|]. right. right. by rewrite Hs in R.
Qed.

Lemma update_all st stk i : inv st stk -> swappable st stk i ->
  exists ms, mapM (update_after_swap (sources st i) (dest i)) (alter Eliminate i (moves_ st)) = Some ms
    /\ Forall2 (fun m m' => exists x', m' = SetSource x' m
         /\ update_after_swap (sources st i) (dest i) m = Some m'
         /\ (x' = NoLocation <-> source_ m = NoLocation))
         (alter Eliminate i (moves_ st)) ms.
Proof.
  intros Hi Hsw.
  assert (forall m, source_ m = NoLocation -> update_after_swap (sources st i) (dest i) m = Some m) as Hin.
  { intros m E. destruct Hsw as ((Hlt & Hc & Hl) & _). apply update_after_swap_inert; auto.
    - by apply (gr_place _ _ _ (in_graph _ _ Hi)).
    - by apply (rs_dest ms0 Hok). }
  destruct (mapM_is_Some_2 (update_after_swap (sources st i) (dest i)) (alter Eliminate i (moves_ st)))
    as [ms Hms].
  - apply Forall_lookup_2. intros j m Hj. destruct (decide (i = j)) as [->|Hne].
    + rewrite list_lookup_alter_eq in Hj. apply fmap_Some in Hj as (m' & _ & ->).
      exists (Eliminate m'). by apply Hin.
    + rewrite list_lookup_alter_ne in Hj by done.
      destruct (update_one st stk i j m Hi Hsw) as (x' & E & _); [done..|]. eauto.
  - exists ms. split; [done|]. apply mapM_Some_1 in Hms.
    apply Forall2_same_length_lookup_2; [by eapply Forall2_length|].
    intros j m m' Hm Hm'. pose proof (Forall2_lookup_lr _ _ _ _ _ _ Hms Hm Hm') as E.
    destruct (decide (i = j)) as [->|Hne].
    + rewrite list_lookup_alter_eq in Hm. apply fmap_Some in Hm as (m1 & _ & ->).
      rewrite Hin in E by done. simplify_eq. exists NoLocation. auto.
    + rewrite list_lookup_alter_ne in Hm by done.
      destruct (update_one st stk i j m Hi Hsw) as (x' & E' & H); [done..|].
      assert (source_ m = src (moves_ st) j) as Hs by (unfold src; by rewrite Hm).
      rewrite E in E'. simplify_eq. exists x'. split_and!; [done..|]. rewrite Hs.
      destruct H as [[-> ->]|[[_ ->]|(_ & Hl & _ & Hp & _)]]; [done..|].
      split; intros Hx; [by rewrite Hx in Hp|done].
Qed.

Lemma inv_swap st stk i : inv st stk -> swappable st stk i ->
  exists ms, mapM (update_after_swap (sources st i) (dest i)) (alter Eliminate i (moves_ st)) = Some ms
    /\ inv (mkResolver ms (code_ st ++ [EmitSwap (sources st i) (dest i)])) stk
    /\ swapped st (mkResolver ms (code_ st ++ [EmitSwap (sources st i) (dest i)])) i.
Proof.
  intros Hi Hsw. destruct (update_all st stk i Hi Hsw) as (ms & E & HF). exists ms. split; [done|].
  pose proof (Forall2_length _ _ _ HF) as Hlen. rewrite length_alter, (in_length _ _ Hi) in Hlen.
  pose proof Hsw as ((Hlt & Hc & Hl) & Hn & Hne & Hopen & Hhead & Hw).
  assert (swapped st (mkResolver ms (code_ st ++ [EmitSwap (sources st i) (dest i)])) i) as Hsd.
  { split; cbn.
    - destruct (lookup_lt_is_Some_2 ms i) as [m' Hm']; [lia|].
      destruct (Forall2_lookup_r _ _ _ _ _ HF Hm') as (m & Hm & x' & -> & _ & Hx).
      rewrite list_lookup_alter_eq in Hm. apply fmap_Some in Hm as (m1 & _ & ->).
      unfold src. rewrite Hm'. by apply Hx.
    - intros x Hx. destruct (decide (x < n)%nat) as [Hxn|Hxn].
      + destruct (lookup_lt_is_Some_2 ms x) as [m' Hm']; [lia|].
        destruct (Forall2_lookup_r _ _ _ _ _ HF Hm') as (m & Hm & x' & -> & Hup & _).
        rewrite list_lookup_alter_ne in Hm by done.
        destruct (update_one st stk i x m Hi Hsw Hx Hm) as (x'' & Hup' & H).
        rewrite Hup in Hup'. injection Hup' as ->.
        assert (src ms x = x'') as -> by (unfold src; by rewrite Hm'). exact H.
      + left. unfold src. rewrite !lookup_ge_None_2 by (rewrite ?(in_length _ _ Hi); lia). done. }
  split; [|done]. destruct Hsd as [H1 H2]. constructor; cbn; [done|..].
  - intros j m' Hm'. destruct (Forall2_lookup_r _ _ _ _ _ HF Hm') as (m & Hm & x' & -> & _ & Hx').
    assert (move_shape stk j m) as [Ht Hd].
    { apply (shape_alter st stk stk Eliminate i Hi) with (j := j); [|done..].
      intros m1 _ [Ht _]. split; [done|]. cbn. by rewrite decide_True by auto. }
    split; [done|]. cbn. rewrite Hd. repeat destruct (decide _); naive_solver.
  - apply (graph_swap ms0 Hok (sources st) _ stk i); auto. apply Hi.
  - rewrite exec_code_snoc. apply (values_swap K s0 ms0 Hok (sources st) _ stk i); auto; apply Hi.
Qed.

(** ** Performing a move *)

(** The moves that are neither done nor pending. *)
Definition todo (st : Resolver) (stk : list nat) : nat :=
  count (fun i => bool_decide (sources st i <> NoLocation /\ i ∉ stk)) n.

(** The pending move [q] is wide and blocks an open move that is not pending. *)
Definition forced (st : Resolver) (stk : list nat) (q : nat) : Prop :=
  q ∈ stk /\ wide (dest q)
  /\ exists k, k ∉ stk /\ sources st k <> NoLocation /\ overlap (sources st q) (dest k).

(** What [PerformMove(index)] guarantees to its caller. *)
Definition performed (st : Resolver) (stk : list nat) (index : nat) (r : option nat) (st' : Resolver) : Prop :=
  inv st' stk /\
  match r with
  | None => progress ms0 stk stk (sources st) (sources st') /\ sources st' index = NoLocation
  | Some q =>
      (q = index /\ progress ms0 stk (tail stk) (sources st) (sources st')
        /\ sources st' index = NoLocation)
      \/ (forced st' stk q /\ progress ms0 stk stk (sources st) (sources st')
         /\ sources st' index = sources st index)
  end.

(** What the loop over the moves that block [index] guarantees. *)
Definition scanned (st : Resolver) (stk : list nat) (index : nat) (e : scan_end) (st' : Resolver) : Prop :=
  progress ms0 (index :: stk) stk (sources st) (sources st') /\
  match e with
  | ScanDone None =>
      inv st' (index :: stk)
      /\ forall x, x ∉ index :: stk -> ~ overlap (sources st' x) (dest index)
  | ScanDone (Some q) => q = index /\ inv st' (index :: stk) /\ forced st' (index :: stk) index
  | ScanReturn q => inv st' stk /\ q ∈ stk /\ forced st' (index :: stk) q
  end.

Lemma forced_pop st stk m q : q ∈ stk -> forced st (m :: stk) q -> forced st stk q.
Proof. intros Hq (_ & Hw & k & Hk & H). split_and!; [done..|]. exists k. set_solver. Qed.

Lemma swap_move_spec st stk i r : inv st stk -> swappable st stk i ->
  runs (swap_move i r) st (fun r' st' => r' = r /\ inv st' stk /\ swapped st st' i).
Proof.
  intros Hi Hsw. pose proof Hsw as (Hop & Hn & _).
  destruct (open_lookup st stk i Hi Hop) as (m & Hm & Hs & Hd & _).
  rewrite decide_False in Hd by done. destruct (inv_swap st stk i Hi Hsw) as (ms & E & Hi' & Hsd).
  unfold swap_move. apply runs_bind, (runs_move_at i m); [done|].
  apply runs_bind, (runs_emit_swap i m); [done|]. apply runs_bind, runs_change.
  rewrite Hs, Hd. unfold update_moves, runs, sbind. cbn. rewrite E. done.
Qed.

(** The ways out of [resolve_move], once the move is no longer marked pending. *)
Section Resolved.
Context (st0 st : Resolver) (stk : list nat) (index : nat).
Context (Hprog : progress ms0 (index :: stk) stk (sources st0) (sources st)).
Context (Hi : inv st stk) (Hn : index ∉ stk) (Hop : open st index).
Context (Hhead : forall c, head stk = Some c -> overlap (sources st index) (dest c)).

(** The moves other than [index] and those done since. *)
Lemma progress_done st' A : (forall a, a ∈ A -> a ∈ stk) ->
  progress ms0 stk A (sources st) (sources st') -> sources st' index = NoLocation ->
  progress ms0 stk A (sources st0) (sources st').
Proof.
  intros HA [H1 H2 H3] Hd. destruct Hprog as [P1 P2 P3]. constructor; [eauto| |].
  - intros p p' Hc. rewrite (H2 p p' Hc). apply (P2 p p'), caller_cons. by right.
  - intros a x Ha Hx H. destruct (decide (x = index)) as [->|Hne].
    + rewrite Hd in H. by apply overlap_none_l in H.
    + apply P3; [auto|set_solver|]. by apply H3.
Qed.

Lemma resolved_drop : sources st index = dest index ->
  performed st0 stk index None (changed st Eliminate index).
Proof.
  intros E. destruct (sources_eliminate st index) as [E1 E2]. split; [by apply inv_drop|].
  split; [|done]. apply progress_done; [done| |done]. by apply (progress_kill ms0 _ _ stk index).
Qed.

Lemma resolved_emit : (forall x, ~ overlap (sources st x) (dest index)) ->
  performed st0 stk index None
    (changed (emitted st (EmitMove (sources st index) (dest index))) Eliminate index).
Proof.
  intros Hfree. destruct (sources_eliminate st index) as [E1 E2]. destruct Hop as (Hlt & _ & Hl).
  split; [by apply inv_emit|]. split; [|done].
  apply progress_done; [done| |done]. by apply (progress_kill ms0 _ _ stk index).
Qed.

(** A move whose blockers are all pending is swapped. *)
Lemma resolved_swap st' : swappable st stk index -> inv st' stk -> swapped st st' index ->
  (forall x, x ∉ stk -> x <> index -> ~ overlap (sources st x) (dest index)) ->
  performed st0 stk index None st'.
Proof.
  intros (_ & _ & Hne & Hj & Hh & Hw) Hi' [E H] Hpend. split; [done|]. split; [|done].
  apply progress_done; [done| |done]. destruct Hop as (Hlt & Hc & Hl).
  apply (progress_swap ms0 Hok (sources st) _ stk index); auto. apply Hi.
Qed.

(** A wide move is swapped because a narrow one needs it. *)
Lemma resolved_forced st' k : swappable st stk index -> inv st' stk -> swapped st st' index ->
  k ∉ stk -> overlap (sources st index) (dest k) -> performed st0 stk index (Some index) st'.
Proof.
  intros (_ & _ & Hne & Hj & Hh & Hw) Hi' [E H] Hk Ho. split; [done|]. left. split_and!; [done| |done].
  apply progress_done; [by destruct stk; set_solver| |done]. destruct Hop as (Hlt & Hc & Hl).
  apply (progress_forced_swap ms0 Hok (sources st) _ stk index) with (k := k); auto. apply Hi.
Qed.

End Resolved.

(** The call returns the wide move that has to be swapped first. *)
Lemma resolved_return st0 st stk index q :
  progress ms0 (index :: stk) stk (sources st0) (sources st) -> inv st stk ->
  forced st stk q -> performed st0 stk index (Some q) st.
Proof.
  intros Hprog Hi Hf. split; [done|]. right. split; [done|]. apply progress_return; [|done].
  destruct Hf as (Hq & _). by intros ->; apply not_elem_of_nil in Hq.
Qed.

Lemma nobody_blocks st stk i : inv st stk -> (i < n)%nat ->
  (forall k m, moves_ st !! k = Some m -> ~ Blocks m (dest i)) ->
  forall x, ~ overlap (sources st x) (dest i).
Proof.
  intros Hi Hlt H x Ho. destruct (moves_ st !! x) as [m|] eqn:Hm.
  - apply (H x m Hm). by apply (Blocks_spec st stk x).
  - unfold src in Ho. rewrite Hm in Ho. by apply overlap_none_l in Ho.
Qed.

(** Two sources that overlap a narrow destination are the same. *)
Lemma narrow_blockers st stk i x y : inv st stk -> (i < n)%nat -> wide (dest i) = false ->
  overlap (sources st x) (dest i) -> overlap (sources st y) (dest i) -> sources st x = sources st y.
Proof.
  intros Hi Hlt W Hx Hy. apply (gr_sources _ _ _ (in_graph _ _ Hi)).
  apply (narrow_two (dest i)); auto using overlap_sym. by apply (rs_dest ms0 Hok).
Qed.

(** The search for a pending move that blocks [index], and what is done about it. *)
Lemma resolve_blocked st0 st stk index o mo :
  progress ms0 (index :: stk) stk (sources st0) (sources st) ->
  inv st stk -> index ∉ stk -> open st index ->
  (forall c, head stk = Some c -> overlap (sources st index) (dest c)) ->
  (forall x, x ∉ index :: stk -> ~ overlap (sources st x) (dest index)) ->
  sources st index <> dest index ->
  moves_ st !! o = Some mo -> Blocks mo (dest index) ->
  IsPending mo /\ Is64BitMove mo = wide (dest o)
  /\ (wide (dest index) = false -> wide (dest o) -> performed st0 stk index (Some o) st)
  /\ (wide (dest index) || negb (wide (dest o)) -> runs (swap_move index None) st (performed st0 stk index)).
Proof.
  intros Hprog Hi Hn Hop Hhead Hscan Hne Hmo HB. pose proof Hop as (Hlt & Hc & Hl).
  pose proof (in_graph _ _ Hi) as Hg. apply (Blocks_spec st stk o) in HB; [|done..].
  assert (o ∈ stk) as Ho.
  { destruct (decide (o = index)) as [->|Hoi].
    - by apply (operands_apart ms0 Hok _ stk Hg) in HB.
    - destruct (decide (o ∈ stk)); [done|]. exfalso. apply (Hscan o); [set_solver|done]. }
  destruct (gr_stack _ _ _ Hg o Ho) as (Hlo & Hco & Hlvo).
  destruct (open_lookup st stk o Hi) as (mo' & Hmo' & _ & _ & H64 & _ & Hpe); [done|].
  rewrite Hmo in Hmo'. injection Hmo' as <-. rewrite Hpe, bool_decide_eq_true_2 by done.
  do 2 (split; [done|]). split.
  - intros W1 W2. apply resolved_return; [done..|]. split; [done|]. split; [done|]. by exists index.
  - intros HW. destruct (head stk) as [c|] eqn:Eh; [|by destruct stk; [apply not_elem_of_nil in Ho|]].
    destruct (gr_stack _ _ _ Hg c (head_in _ _ Eh)) as (_ & _ & Hlc).
    assert (swappable st stk index) as Hsw.
    { do 3 (split; [done|]). split; [|split].
      - exists c. split_and!; auto. intros ->. by apply Hn, head_in.
      - rewrite Eh. done.
      - intros x Hx Wx. destruct (wide (dest index)) eqn:W; [done|].
        rewrite (narrow_blockers st stk index x o) in Wx by done.
        destruct (gr_place _ _ _ Hg o Hco Hlvo) as (_ & _ & Ew). cbn in Wx. rewrite Ew in Wx.
        by destruct (wide (dest o)). }
    eapply runs_mono; [by apply swap_move_spec|]. intros r st' (-> & Hi' & Hsd).
    apply (resolved_swap st0 st stk index); auto; [by rewrite Eh|]. set_solver.
Qed.

Lemma ClearPending_spec st stk i (Q : unit -> Resolver -> Prop) : inv st (i :: stk) ->
  Q tt (changed st (SetDestination (dest i)) i) -> runs (ClearPending i (dest i)) st Q.
Proof.
  intros Hi HQ. destruct (inv_clear st stk i Hi) as (_ & _ & Hop).
  destruct (open_lookup st (i :: stk) i Hi Hop) as (m & Hm & _ & _ & _ & _ & Hp).
  rewrite bool_decide_eq_true_2 in Hp by set_solver.
  apply runs_bind, (runs_move_at i m); [done|]. apply runs_bind, runs_dcheck; [by rewrite Hp|].
  by apply runs_change.
Qed.

Lemma progress_ext stk A f g h : (forall i, g i = h i) -> progress ms0 stk A f g -> progress ms0 stk A f h.
Proof. intros E [H1 H2 H3]. constructor; intros; rewrite <- E in *; eauto. Qed.

Lemma resolve_move_spec st0 st stk index r : scanned st0 stk index (ScanDone r) st ->
  runs (resolve_move index (dest index) r) st (performed st0 stk index).
Proof.
  intros [Hprog Hend]. assert (inv st (index :: stk)) as Hi by (by destruct r; apply Hend).
  destruct (inv_clear st stk index Hi) as (Hi1 & Hn & Hop).
  pose proof (sources_destination st (dest index) index) as Esrc.
  apply runs_bind, (ClearPending_spec st stk index _ Hi).
  assert (forall c, head stk = Some c -> overlap (sources st index) (dest c)) as Hhead.
  { intros c Hc. apply (gr_chain _ _ _ (in_graph _ _ Hi)), caller_cons. by left. }
  revert Hi1 Esrc. generalize (changed st (SetDestination (dest index)) index) as st1.
  intros st1 Hi1 Esrc. cbn beta in Esrc.
  apply (progress_ext _ _ _ _ (sources st1)) in Hprog; [|done].
  assert (open st1 index) as Hop1 by (destruct Hop as (? & ? & ?); split_and!; by rewrite ?Esrc).
  assert (forall c, head stk = Some c -> overlap (sources st1 index) (dest c)) as Hhead1
    by (intros c; rewrite Esrc; apply Hhead).
  destruct (open_lookup st1 stk index Hi1 Hop1) as (m & Hm & Hs & Hd & H64 & _).
  rewrite decide_False in Hd by done. pose proof Hop1 as (Hlt & Hc & Hl).
  apply runs_bind, (runs_move_at index m); [done|]. unfold Equals. rewrite Hs.
  case_bool_decide as Heq.
  { destruct r as [q|].
    - exfalso. destruct Hend as (-> & _ & _ & _ & k & Hk & _ & Ho). rewrite <- Esrc, Heq in Ho.
      apply (dest_in ms0 Hok) in Ho. set_solver.
    - apply runs_bind, runs_change. apply runs_bind, runs_dcheck; [done|]. apply runs_ret.
      by apply resolved_drop. }
  destruct r as [q|].
  - destruct Hend as (-> & _ & _ & Hw & k & Hk & Hlk & Ho). rewrite <- Esrc in Hlk, Ho.
    apply not_elem_of_cons in Hk as [Hki Hks].
    apply runs_bind, runs_dcheck; [by rewrite Nat.eqb_refl|].
    assert (swappable st1 stk index) as Hsw by (do 3 (split; [done|]); split; [|done]; by exists k).
    eapply runs_mono; [by apply swap_move_spec|]. intros r st' (-> & Hi' & Hsd).
    by apply (resolved_forced st0 st1 stk index) with (k := k).
  - destruct Hend as [_ Hscan].
    assert (forall x, x ∉ index :: stk -> ~ overlap (sources st1 x) (dest index)) as Hscan1
      by (intros x; rewrite Esrc; auto).
    apply runs_bind, runs_get.
    destruct (first_blocking (dest index) 0 (moves_ st1)) as [[o mo]|] eqn:Efb.
    + apply first_blocking_Some in Efb as (o' & -> & Hmo & HB). cbn [Nat.add].
      destruct (resolve_blocked st0 st1 stk index o' mo) as (Hpe & H64o & Hret & Hswap); [done..|].
      apply runs_bind, runs_dcheck; [done|]. rewrite H64, H64o.
      destruct (wide (dest index)), (wide (dest o')); cbn [negb andb]; auto.
      apply runs_ret. auto.
    + pose proof (nobody_blocks st1 stk index Hi1 Hlt (first_blocking_None _ _ _ Efb)) as Hfree.
      apply runs_bind, (runs_emit_move index m); [done|]. apply runs_bind, runs_change.
      apply runs_ret. rewrite Hs, Hd. by apply resolved_emit.
Qed.

(** ** The recursion *)
Lemma todo_done st st' stk i : (forall x, sources st x = NoLocation -> sources st' x = NoLocation) ->
  open st i -> i ∉ stk -> sources st' i = NoLocation -> (todo st' stk < todo st stk)%nat.
Proof.
  intros Hd (Hlt & _ & Hl) Hn E. apply (count_lt _ _ n i); [|done|..]; rewrite ?bool_decide_spec.
  - intros x _. rewrite !bool_decide_spec. naive_solver.
  - naive_solver.
  - done.
Qed.

Lemma todo_mark st st' stk i : (forall x, sources st' x = sources st x) ->
  open st i -> i ∉ stk -> (todo st' (i :: stk) < todo st stk)%nat.
Proof.
  intros Hd (Hlt & _ & Hl) Hn. apply (count_lt _ _ n i); [|done|..]; rewrite ?bool_decide_spec.
  - intros x _. rewrite !bool_decide_spec, Hd, not_elem_of_cons. naive_solver.
  - set_solver.
  - done.
Qed.

Lemma scanned_ext st st1 stk index e st' :
  (forall x, sources st1 x = sources st x) -> scanned st1 stk index e st' -> scanned st stk index e st'.
Proof.
  intros E [[H1 H2 H3] Hend]. split; [|done].
  constructor; intros; cbn in *; rewrite <- ?E in *; eauto.
Qed.

Definition perform_ok (fuel : nat) : Prop := forall index st stk,
  inv st stk -> open st index -> index ∉ stk ->
  (forall c, head stk = Some c -> overlap (sources st index) (dest c)) ->
  (todo st stk * (n + 3) <= fuel)%nat ->
  runs (PerformMove fuel index) st (performed st stk index).

Definition scan_ok (fuel : nat) : Prop := forall index st stk i,
  inv st (index :: stk) ->
  (forall x, (x < i)%nat -> x ∉ index :: stk -> ~ overlap (sources st x) (dest index)) ->
  (todo st (index :: stk) * (n + 3) + (n - i) + 1 <= fuel)%nat ->
  runs (perform_blockers fuel index (dest index) i) st (scanned st stk index).

Lemma perform_step fuel : scan_ok fuel -> perform_ok (S fuel).
Proof.
  intros IH index st stk Hi Hop Hn Hhead Hfuel. cbn [PerformMove].
  destruct (open_lookup st stk index Hi Hop) as (m & Hm & Hs & Hd & _ & He & Hp).
  rewrite bool_decide_eq_false_2 in Hp by done. rewrite decide_False in Hd by done.
  pose proof Hop as (Hlt & Hc & Hl).
  apply runs_bind, (runs_move_at index m); [done|].
  apply runs_bind, runs_dcheck; [by rewrite Hp|].
  assert (IsInvalid (dest index) = false) as Hdi.
  { pose proof (rs_dest ms0 Hok index Hlt). by destruct (dest index). }
  unfold IsRedundant. rewrite He, Hd, Hdi. unfold Equals. rewrite Hs. cbn [orb].
  case_bool_decide as Heq.
  { apply runs_bind, runs_change, runs_ret. apply (resolved_drop st); auto using progress_refl. }
  apply runs_bind, runs_dcheck; [unfold IsEliminated in He; rewrite <- Hs; by rewrite He|].
  apply runs_bind, runs_bind, (runs_move_at index m); [done|].
  apply runs_bind, runs_dcheck; [by rewrite Hp|]. apply runs_bind, runs_change, runs_ret.
  rewrite Hd. pose proof (sources_destination st NoLocation index) as Esrc.
  pose proof (inv_mark st stk index Hi Hop Hn Hhead) as Hi1.
  pose proof (todo_mark st _ stk index Esrc Hop Hn) as Ht.
  apply runs_bind. eapply runs_mono; [apply (IH index _ stk 0%nat Hi1); [lia|nia]|].
  intros e st' Hsc%(scanned_ext st); [|done]. destruct e as [r|q].
  - by apply resolve_move_spec.
  - destruct Hsc as (Hprog & Hi' & Hq & Hf). apply runs_ret.
    apply (resolved_return st st' stk index q Hprog Hi'). by apply (forced_pop st' stk index).
Qed.

(** A move that blocks [index] and is not pending. *)
Lemma blocker_open st stk index i m : inv st (index :: stk) -> moves_ st !! i = Some m ->
  Blocks m (dest index) -> IsPending m = false ->
  open st i /\ i ∉ index :: stk /\ overlap (sources st i) (dest index).
Proof.
  intros Hi Hm HB Hp. destruct (inv_clear st stk index Hi) as (_ & _ & Hlt & _).
  apply (Blocks_spec st (index :: stk) i) in HB; [|done..].
  destruct (overlap_live ms0 Hok _ _ (in_graph _ _ Hi) i _ HB) as (Hc & Hl & Hlti & _).
  destruct (open_lookup st (index :: stk) i Hi) as (m' & Hm' & _ & _ & _ & _ & Hp'); [done|].
  rewrite Hm in Hm'. injection Hm' as <-. rewrite Hp in Hp'. symmetry in Hp'.
  apply bool_decide_eq_false in Hp'. done.
Qed.

(** A move the loop passes over. *)
Lemma passed_over st stk index i m : inv st (index :: stk) -> moves_ st !! i = Some m ->
  ~ (Blocks m (dest index) && negb (IsPending m)) -> i ∉ index :: stk ->
  ~ overlap (sources st i) (dest index).
Proof.
  intros Hi Hm HB Hn Ho. destruct (inv_clear st stk index Hi) as (_ & _ & Hlt & _).
  apply HB. apply andb_True. split; [by apply (Blocks_spec st (index :: stk) i)|].
  destruct (overlap_live ms0 Hok _ _ (in_graph _ _ Hi) i _ Ho) as (Hc & Hl & Hlti & _).
  destruct (open_lookup st (index :: stk) i Hi) as (m' & Hm' & _ & _ & _ & _ & Hp'); [done|].
  rewrite Hm in Hm'. injection Hm' as <-. by rewrite Hp', bool_decide_eq_false_2.
Qed.

Lemma scanned_trans st st1 stk index e st' :
  progress ms0 (index :: stk) stk (sources st) (sources st1) ->
  scanned st1 stk index e st' -> scanned st stk index e st'.
Proof. intros H1 [H2 Hend]. split; [by eapply progress_trans|done]. Qed.

Lemma scan_step fuel : perform_ok fuel -> scan_ok fuel -> scan_ok (S fuel).
Proof.
  intros IHp IHs index st stk i Hi Hbelow Hfuel. cbn [perform_blockers]. apply runs_bind, runs_get.
  destruct (moves_ st !! i) as [m|] eqn:Hm.
  2:{ apply runs_ret. split; [apply progress_refl|]. split; [done|]. intros x Hx Ho.
      destruct (decide (x < i)%nat) as [Hlt|Hge]; [by apply (Hbelow x)|].
      apply lookup_ge_None in Hm. unfold src in Ho. rewrite lookup_ge_None_2 in Ho by lia.
      by apply overlap_none_l in Ho. }
  assert (i < n)%nat as Hin by (rewrite <- (in_length _ _ Hi); by eapply lookup_lt_Some).
  destruct (Blocks m (dest index) && negb (IsPending m)) eqn:HB.
  2:{ apply IHs; [done| |lia]. intros x Hx Hxn. destruct (decide (x = i)) as [->|Hne].
      - apply (passed_over st stk index i m); auto. rewrite HB. by intros [].
      - apply Hbelow; [lia|done]. }
  apply andb_true_iff in HB as [HB Hp%negb_true_iff].
  destruct (blocker_open st stk index i m) as (Hop & Hn & Ho); [done..|by rewrite HB|done|].
  apply runs_bind. eapply runs_mono.
  { apply (IHp i st (index :: stk)); auto; [|lia]. intros c [= <-]. done. }
  intros r st' [Hi' Hr]. destruct r as [q|].
  - destruct Hr as [(-> & Hpr & Hdone)|(Hf & Hpr & _)].
    + pose proof (todo_done st st' (index :: stk) i (pr_done _ _ _ _ _ Hpr) Hop Hn Hdone).
      apply not_elem_of_cons in Hn as [Hne _].
      rewrite (proj2 (Nat.eqb_neq _ _) Hne), Nat.eqb_refl.
      eapply runs_mono; [apply IHs; [done|lia|nia]|].
      intros e st2. by apply scanned_trans.
    + pose proof Hf as (Hq & _). apply (progress_sub _ _ _ stk) in Hpr; [|set_solver].
      destruct (Nat.eqb_spec q index) as [->|Hqi].
      { by apply runs_ret. }
      destruct (Nat.eqb_spec q i) as [->|_]; [done|].
      apply runs_bind, (ClearPending_spec st' stk index _ Hi'). apply runs_ret.
      pose proof (sources_destination st' (dest index) index) as Esrc.
      destruct (inv_clear st' stk index Hi') as (Hi'' & _ & _).
      split; [by eapply progress_ext; [intros; symmetry; apply Esrc|]|].
      split; [done|]. split; [set_solver|]. destruct Hf as (_ & Hw & k & Hk & Hl & Hov).
      split; [done|]. split; [done|]. exists k. by rewrite !Esrc.
  - destruct Hr as [Hpr Hdone].
    pose proof (todo_done st st' (index :: stk) i (pr_done _ _ _ _ _ Hpr) Hop Hn Hdone).
    eapply runs_mono; [apply IHs; [done| |nia]|].
    + intros x Hx Hxn Hov. destruct (decide (x = i)) as [->|Hne].
      * cbn in Hov. rewrite Hdone in Hov. by apply overlap_none_l in Hov.
      * apply (Hbelow x); [lia|done|]. apply (pr_calm _ _ _ _ _ Hpr); [set_solver|done..].
    + intros e st2. apply scanned_trans. by apply (progress_sub _ _ (index :: stk)); [set_solver|].
Qed.

Lemma perform_scan_ok fuel : perform_ok fuel /\ scan_ok fuel.
Proof.
  induction fuel as [|fuel [IHp IHs]].
  - split; [|intros ? ? ? ?; lia]. intros index st stk Hi (Hlt & Hc & Hl) Hn _ Hfuel. exfalso.
    pose proof (count_lt (fun _ => false) (fun i => bool_decide (sources st i <> NoLocation /\ i ∉ stk)) n index) as H.
    rewrite bool_decide_spec in H. specialize (H ltac:(done) Hlt ltac:(by intros []) ltac:(done)).
    unfold todo in Hfuel. nia.
  - split; [by apply perform_step|by apply scan_step].
Qed.

(** ** The loops of [EmitNativeCode] *)

(** A step of a loop: the invariant holds between moves, and moves stay done. *)
Definition loop_step (st st' : Resolver) : Prop :=
  inv st' [] /\ forall x, sources st x = NoLocation -> sources st' x = NoLocation.

Lemma PerformMove_top st i : inv st [] -> open st i ->
  runs (PerformMove (swap_fuel n) i) st
    (fun _ st' => loop_step st st' /\ sources st' i = NoLocation).
Proof.
  intros Hi Hop. destruct (perform_scan_ok (swap_fuel n)) as [Hp _].
  eapply runs_mono; [apply (Hp i st []); try done|].
  - set_solver.
  - unfold swap_fuel, todo. apply Nat.mul_le_mono_r, count_bound.
  - intros [q|] st' [Hi' H].
    + destruct H as [(-> & Hpr & Hd)|((Hq & _) & _)]; [|by apply not_elem_of_nil in Hq].
      split; [|done]. split; [done|apply Hpr].
    + destruct H as [Hpr Hd]. split; [|done]. split; [done|apply Hpr].
Qed.

(** The operands of a move between calls, as the loops test them. *)
Lemma loop_lookup st i : inv st [] -> (i < n)%nat -> exists m,
  moves_ st !! i = Some m /\ source_ m = sources st i
  /\ IsEliminated m = bool_decide (sources st i = NoLocation)
  /\ (sources st i <> NoLocation -> destination_ m = dest i /\ IsConstant (source_ m) = constant i).
Proof.
  intros Hi Hlt. destruct (lookup_lt_is_Some_2 (moves_ st) i) as [m Hm].
  { by rewrite (in_length _ _ Hi). }
  assert (source_ m = src (moves_ st) i) as Hs by (unfold src; by rewrite Hm).
  exists m. split; [done|]. split; [done|]. split.
  { unfold IsEliminated. rewrite Hs. by destruct (src (moves_ st) i). }
  intros Hl. destruct (in_shape _ _ Hi i m Hm) as [_ Hd]. rewrite decide_False in Hd.
  2:{ intros [?%not_elem_of_nil|E]; [done|]. apply Hl. cbn. congruence. }
  split; [done|]. rewrite Hs. pose proof (in_graph _ _ Hi) as Hg. destruct (constant i) eqn:Hc.
  - destruct (gr_constant _ _ _ Hg i) as [E|E]; [by rewrite Hc|done|]. by rewrite E.
  - destruct (gr_place _ _ _ Hg i Hc Hl) as (_ & Hp & _). by destruct (src (moves_ st) i).
Qed.

Lemma perform_stack_move_ok st i : inv st [] -> (i < n)%nat ->
  runs (perform_stack_move (swap_fuel n) i) st (fun _ st' => loop_step st st').
Proof.
  intros Hi Hlt. destruct (loop_lookup st i Hi Hlt) as (m & Hm & Hs & He & Hl).
  apply runs_bind, (runs_move_at i m); [done|]. rewrite He.
  destruct (decide (src (moves_ st) i = NoLocation)) as [E|Hne].
  { rewrite bool_decide_eq_true_2 by done. by apply runs_ret. }
  rewrite bool_decide_eq_false_2 by done. destruct (Hl Hne) as [_ Hc]. rewrite Hc. cbn [orb].
  destruct (constant i) eqn:Ec; [by apply runs_ret|].
  destruct (is_stack (source_ m) && is_stack (destination_ m)); [|by apply runs_ret].
  apply runs_bind. eapply runs_mono; [by apply PerformMove_top|]. intros r st' [? _]. by apply runs_ret.
Qed.

Lemma perform_move_ok st i : inv st [] -> (i < n)%nat ->
  runs (perform_move (swap_fuel n) i) st
    (fun _ st' => loop_step st st' /\ (constant i = false -> sources st' i = NoLocation)).
Proof.
  intros Hi Hlt. destruct (loop_lookup st i Hi Hlt) as (m & Hm & Hs & He & Hl).
  apply runs_bind, (runs_move_at i m); [done|]. rewrite He.
  destruct (decide (src (moves_ st) i = NoLocation)) as [E|Hne].
  { rewrite bool_decide_eq_true_2 by done. by apply runs_ret. }
  rewrite bool_decide_eq_false_2 by done. destruct (Hl Hne) as [_ Hc]. rewrite Hc. cbn [negb andb].
  destruct (constant i) eqn:Ec; cbn [negb]; [by apply runs_ret|].
  apply runs_bind. eapply runs_mono; [by apply PerformMove_top|]. intros r st' [? ?]. by apply runs_ret.
Qed.

Lemma perform_constant_move_ok st i : inv st [] -> (i < n)%nat ->
  (forall x, constant x = false -> sources st x = NoLocation) ->
  runs (perform_constant_move i) st (fun _ st' => loop_step st st' /\ sources st' i = NoLocation).
Proof.
  intros Hi Hlt Hall. destruct (loop_lookup st i Hi Hlt) as (m & Hm & Hs & He & Hl).
  apply runs_bind, (runs_move_at i m); [done|]. rewrite He.
  destruct (decide (src (moves_ st) i = NoLocation)) as [E|Hne].
  { rewrite bool_decide_eq_true_2 by done. by apply runs_ret. }
  rewrite bool_decide_eq_false_2 by done. destruct (Hl Hne) as [Hd Hc]. cbn [negb].
  destruct (constant i) eqn:Ec; [|by apply Hall in Ec].
  apply runs_bind, runs_dcheck; [by rewrite Hc|].
  apply runs_bind, (runs_emit_move i m); [done|]. apply runs_change.
  destruct (sources_eliminate st i) as [E1 E2]. rewrite Hs, Hd. split; [split|done].
  - apply inv_emit; auto using not_elem_of_nil. intros x Ho.
    destruct (overlap_live ms0 Hok _ _ (in_graph _ _ Hi) x _ Ho) as (Hcx & Hlx & _).
    by apply Hlx, Hall.
  - intros x Hx. destruct (decide (x = i)) as [->|Hxi]; [done|]. cbn in E2. cbn. by rewrite E2.
Qed.

(** A loop over indices, each step of which establishes [P] of its index for good. *)
Lemma for_each_index_ok (g : nat -> R unit) (I : Resolver -> Prop) (P : nat -> Resolver -> Prop) :
  (forall st i, inv st [] -> I st -> (i < n)%nat ->
    runs (g i) st (fun _ st' => loop_step st st' /\ P i st')) ->
  (forall st st', loop_step st st' -> I st -> I st') ->
  (forall st st' i, loop_step st st' -> P i st -> P i st') ->
  forall indices st, Forall (fun i => i < n)%nat indices -> inv st [] -> I st ->
  runs (for_each_index g indices) st
    (fun _ st' => loop_step st st' /\ I st' /\ Forall (fun i => P i st') indices).
Proof.
  intros Hg HI HP indices. induction indices as [|i indices IH]; intros st HF Hi HIs.
  - by apply runs_ret.
  - apply Forall_cons in HF as [Hlt HF]. apply runs_bind.
    eapply runs_mono; [by apply Hg|]. intros _ st1 [Hst HP1]. pose proof Hst as [Hi1 Hd1].
    eapply runs_mono; [apply (IH st1); eauto|]. intros _ st2 (Hst2 & HI2 & HF2).
    pose proof Hst2 as [Hi2 Hd2]. split; [|split; [done|]].
    + split; [done|]. auto.
    + constructor; [|done]. by apply (HP st1).
Qed.

Lemma resolve_moves_ok st : inv st [] ->
  runs (resolve_moves n) st (fun _ st' => inv st' [] /\ forall i, (i < n)%nat -> sources st' i = NoLocation).
Proof.
  intros Hi. assert (Forall (fun i => i < n)%nat (seq 0 n)) as Hseq.
  { apply Forall_forall. intros i Hin%elem_of_seq. lia. }
  apply runs_bind. eapply runs_mono.
  { apply (for_each_index_ok _ (fun _ => True) (fun _ _ => True)); auto.
    intros st1 i H1 _ H2. eapply runs_mono; [by apply perform_stack_move_ok|]. done. }
  intros _ st1 ([Hi1 _] & _). apply runs_bind. eapply runs_mono.
  { apply (for_each_index_ok _ (fun _ => True) (fun i st => constant i = false -> sources st i = NoLocation)); auto.
    - intros st2 i H1 _ H2. by apply perform_move_ok.
    - intros st2 st3 i [_ H] ? ?. auto. }
  intros _ st2 ([Hi2 _] & _ & Hnc).
  assert (forall x, constant x = false -> sources st2 x = NoLocation) as Hall.
  { intros x Hx. destruct (decide (x < n)%nat) as [Hlt|Hge].
    - rewrite Forall_forall in Hnc. apply Hnc; [|done]. apply elem_of_seq. lia.
    - unfold src. rewrite lookup_ge_None_2; [done|]. rewrite (in_length _ _ Hi2). lia. }
  eapply runs_mono.
  { apply (for_each_index_ok _ (fun st => forall x, constant x = false -> sources st x = NoLocation)
      (fun i st => sources st i = NoLocation)); auto.
    - intros st3 i H1 H2 H3. by apply perform_constant_move_ok.
    - intros st3 st4 [_ H] H' x Hx. auto.
    - intros st3 st4 i [_ H] ?. auto. }
  intros _ st3 ([Hi3 _] & _ & Hdone). split; [done|]. intros i Hlt.
  rewrite Forall_forall in Hdone. apply Hdone, elem_of_seq. lia.
Qed.
End Resolve.
