(* ===== verification/ParallelMoveTheorems.v ===== *)
(** * Theorems about the resolver with swaps

    [EmitNativeCode] returns, passes its checks, and the code it emits is the parallel
    assignment; where its precondition fails, a run whose code loses a value.  The unit tests of
    compiler/optimizing/parallel_move_test.cc, as evaluations of the model. *)

From S2P Require Import Prelude DexOpcodes DexInstruction ShadowFrame InterpreterBase ParallelMove ParallelMoveMachine ParallelMoveGraph ParallelMoveSwap.

(** ** Redundant moves *)

(** The positions of the moves [BuildInitialMoveList] keeps. *)
Lemma filter_positions {A} (P : A -> bool) (l : list A) : exists h : nat -> nat,
  (forall i j, h i = h j -> i = j) /\ forall i, List.filter P l !! i = l !! h i.
Proof.
  induction l as [|x l (h & Hinj & Hh)].
  - by exists (fun i => i).
  - cbn. destruct (P x).
    + exists (fun i => match i with O => O | S i => S (h i) end). split.
      * intros [|i] [|j] E; try done. injection E as E. f_equal. auto.
      * intros [|i]; [done|]. apply Hh.
    + exists (fun i => S (h i)). split; [|done]. intros i j [= E]. auto.
Qed.

Section Kept.
Context (pm : list MoveOperands) (Hok : resolvable pm).
Local Abbreviation ms0 := (BuildInitialMoveList pm).
Context (h : nat -> nat) (Hinj : forall i j, h i = h j -> i = j).
Context (Hh : forall i, ms0 !! i = pm !! h i).

Lemma kept_dest i : dest ms0 i = dest pm (h i).
Proof. unfold dest. by rewrite Hh. Qed.
Lemma kept_src i : src ms0 i = src pm (h i).
Proof. unfold src. by rewrite Hh. Qed.
Lemma kept_constant i : constant ms0 i = constant pm (h i).
Proof. unfold constant. by rewrite kept_src. Qed.
Lemma kept_lt i : (i < length ms0)%nat -> (h i < length pm)%nat.
Proof. intros [m Hm]%lookup_lt_is_Some_2. rewrite Hh in Hm. by eapply lookup_lt_Some. Qed.

Lemma kept_resolvable : resolvable ms0.
Proof.
  destruct Hok as [H1 H2 H3 H4 H5 H6 H7].
  constructor; intros *; rewrite ?kept_dest, ?kept_src, ?kept_constant; auto using kept_lt.
  - rewrite Hh. auto.
  - intros Hij Hw E k Hk. rewrite kept_constant, kept_dest. intros Hc.
    apply (H7 (h i) (h j)); auto using kept_lt.
Qed.

(** A move that is left out has the same source and destination. *)
Lemma kept_or_trivial i m :
  (forall i, (i < length pm)%nat -> place (dest pm i)) ->
  (forall i, (i < length pm)%nat -> constant pm i = false -> place (src pm i)) ->
  (forall i j, i <> j -> ~ overlap (dest pm i) (dest pm j)) -> pm !! i = Some m ->
  (exists j, h j = i /\ (j < length ms0)%nat) \/ (source_ m = destination_ m /\ forall j, h j = i -> (length ms0 <= j)%nat).
Proof.
  intros Hdest Hsrc Hapart Hm. destruct (IsRedundant m) eqn:Er.
  - right. split.
    + assert (i < length pm)%nat as Hlt by (by eapply lookup_lt_Some).
      pose proof (Hdest i Hlt) as Hd. pose proof (Hsrc i Hlt) as Hs.
      unfold dest, src, constant, src in *. rewrite Hm in *. cbn in *.
      unfold IsRedundant, IsEliminated, Equals in Er.
      destruct (bool_decide_reflect (source_ m = destination_ m)) as [|_]; [done|exfalso].
      destruct (source_ m); try (by destruct (destination_ m)); by specialize (Hs eq_refl).
    + intros j Hj. destruct (decide (j < length ms0)%nat) as [Hlt|]; [|lia]. exfalso.
      destruct (lookup_lt_is_Some_2 _ _ Hlt) as [m' Hm'].
      pose proof (list_elem_of_lookup_2 _ _ _ Hm') as Hin%list_elem_of_In.
      apply filter_In in Hin as [_ Hr]. rewrite Hh, Hj, Hm in Hm'. injection Hm' as <-.
      by rewrite Er in Hr.
  - left. assert (m ∈ ms0) as [j Hj]%list_elem_of_lookup_1.
    { apply list_elem_of_In, filter_In. split; [by apply list_elem_of_In, list_elem_of_lookup_2 with i|by rewrite Er]. }
    assert (j < length ms0)%nat as Hlt by (by eapply lookup_lt_Some).
    exists j. split; [|done]. rewrite Hh in Hj.
    destruct (decide (h j = i)) as [|Hne]; [done|]. exfalso.
    apply (Hapart (h j) i Hne). unfold dest. rewrite Hj, Hm. cbn. apply overlap_refl.
    pose proof (Hdest i ltac:(by eapply lookup_lt_Some)) as Hd. unfold dest in Hd. by rewrite Hm in Hd.
Qed.

(** The cells of such a move are out of the way of the others. *)
Lemma trivial_untouched i m c : pm !! i = Some m -> source_ m = destination_ m ->
  (forall j, h j = i -> (length ms0 <= j)%nat) -> c ∈ cells (destination_ m) -> untouched ms0 c.
Proof.
  intros Hm Heq Hout Hc.
  assert (dest pm i = destination_ m) as Ed by (unfold dest; by rewrite Hm).
  assert (src pm i = destination_ m) as Es by (unfold src; by rewrite Hm).
  assert (forall j, overlap (dest ms0 j) (dest pm i) -> False) as Hdest.
  { intros j Ho. pose proof Ho as Hj. rewrite kept_dest in Hj. apply (dest_in pm Hok), Hout in Hj.
    unfold dest in Ho. rewrite lookup_ge_None_2 in Ho by done. by apply overlap_none_l in Ho. }
  split.
  - intros j Hj. apply (Hdest j), overlap_spec. exists c. by rewrite Ed.
  - intros j k Hj Ho. rewrite kept_src in *.
    assert (src pm (h j) = src pm i) as E by (apply (rs_sources _ Hok), overlap_spec; exists c; by rewrite Es).
    apply (Hdest k). rewrite Ed, <- Es, <- E. by apply overlap_sym.
Qed.
End Kept.

(** ** The initial state *)
Lemma source_valid ms0 i : resolvable ms0 -> (i < length ms0)%nat -> src ms0 i <> NoLocation.
Proof.
  intros Hok Hlt E. destruct (constant ms0 i) eqn:Hc.
  - unfold constant in Hc. by rewrite E in Hc.
  - destruct (rs_src _ Hok i Hlt Hc) as [Hp _]. by rewrite E in Hp.
Qed.

Lemma src_lt ms0 i : src ms0 i <> NoLocation -> (i < length ms0)%nat.
Proof.
  intros H. destruct (decide (i < length ms0)%nat); [done|]. exfalso. apply H. unfold src.
  by rewrite lookup_ge_None_2 by lia.
Qed.

Lemma resolver_initial K s0 ms0 : resolvable ms0 -> inv K s0 ms0 (mkResolver ms0 []) [].
Proof.
  intros Hok. constructor; cbn; [done|..].
  - intros i m Hm. split; [naive_solver|]. rewrite decide_False.
    + unfold dest. by rewrite Hm.
    + intros [?%not_elem_of_nil|E]; [done|]. apply (source_valid ms0 i Hok).
      * by eapply lookup_lt_Some.
      * unfold src. by rewrite Hm.
  - constructor.
    + constructor.
    + intros p Hp. by apply not_elem_of_nil in Hp.
    + intros i _. by right.
    + intros i Hc Hl. apply src_lt in Hl. destruct (rs_src _ Hok i Hl Hc). auto.
    + apply (rs_sources _ Hok).
    + apply (rs_aligned _ Hok).
    + apply (rs_shared _ Hok).
    + intros i j k Ho E. exfalso. destruct (decide (j < length ms0)%nat) as [Hlt|Hge].
      * by apply (source_valid ms0 j).
      * unfold dest in Ho. rewrite (lookup_ge_None_2 ms0 j) in Ho by lia. by apply overlap_none_r in Ho.
    + intros p p' (l1 & l2 & E). by destruct l1.
    + intros i _. left. by exists i.
  - constructor; [done| |done]. intros i Hlt E. by apply (source_valid ms0 i) in E.
Qed.

(** ** The resolver *)

(** The store after the code has each move's source words in its destination, and the cells that
    no destination, and no source that overlaps a destination, has are as they were. *)
Definition parallel_assignment (K : Constants) (pm : list MoveOperands) (s s' : Store) : Prop :=
  (forall i m k, pm !! i = Some m -> (k < length (cells (destination_ m)))%nat ->
    word K s' (destination_ m) k = word K s (source_ m) k)
  /\ (forall c, untouched pm c -> s' c = s c).

Lemma run_moves K s pm : resolvable pm -> exists code,
  EmitNativeCode pm = Some code
  /\ (forall i, (i < length (BuildInitialMoveList pm))%nat ->
       holds K s (BuildInitialMoveList pm) (exec_code K code s) (dest (BuildInitialMoveList pm) i) i)
  /\ (forall c, untouched (BuildInitialMoveList pm) c -> exec_code K code s c = s c).
Proof.
  intros Hok. destruct (filter_positions (fun m => negb (IsRedundant m)) pm) as (h & Hinj & Hh).
  pose proof (kept_resolvable pm Hok h Hinj Hh) as Hok0. unfold EmitNativeCode.
  destruct (runs_inv _ _ _ (resolve_moves_ok K s _ Hok0 _ (resolver_initial K s _ Hok0)))
    as (u & st & -> & Hi & Hdone).
  exists (code_ st). split; [done|]. destruct (in_values _ _ _ _ _ Hi) as [_ Hv Hf].
  split; [|done]. auto.
Qed.

(** C3.  For moves with one width each, disjoint destinations, sources that coincide or are
    disjoint, aligned pairs and no shared wide source beside a narrow destination, the resolver
    with swaps passes all its checks, returns, and the emitted moves and swaps carry out all
    the moves at once. *)
Theorem swap_resolver_correct K s pm : resolvable pm ->
  exists code, EmitNativeCode pm = Some code /\ parallel_assignment K pm s (exec_code K code s).
Proof.
  intros Hok. destruct (run_moves K s pm Hok) as (code & E & Hv & Hf). exists code. split; [done|].
  destruct (filter_positions (fun m => negb (IsRedundant m)) pm) as (h & Hinj & Hh).
  split.
  - intros i m k Hm Hk. destruct (kept_or_trivial pm h Hh i m (rs_dest _ Hok) (fun i Hi Hc => proj1 (rs_src _ Hok i Hi Hc)) (rs_apart _ Hok) Hm) as [(j & <- & Hlt)|[Heq Hout]].
    + specialize (Hv j Hlt k). rewrite kept_dest with (h := h), kept_src with (h := h) in Hv by done.
      unfold dest, src in Hv. rewrite Hm in Hv. auto.
    + rewrite Heq. apply word_ext. intros c Hc. apply Hf. by apply (trivial_untouched pm Hok h Hh i m).
  - intros c [Hc1 Hc2]. apply Hf. split; intros *.
    + rewrite kept_dest with (h := h) by done. apply Hc1.
    + rewrite kept_dest with (h := h), kept_src with (h := h) by done. apply Hc2.
Qed.

(** ** Checking the precondition *)
Section Check.
Context (pm : list MoveOperands).
Local Abbreviation n := (length pm).

Definition wide_onlyb : bool :=
  forallb (fun k => constant pm k || wide (dest pm k)) (seq 0 n).

Definition move_fits (i : nat) : bool :=
  place (dest pm i)
  && (constant pm i
      || (place (src pm i) && eqb (wide (src pm i)) (wide (dest pm i))
          && eqb (Is64BitType (from_option type_ kPrimVoid (pm !! i))) (wide (dest pm i)))).

Definition moves_fit (i j : nat) : bool :=
  ((i =? j)%nat || negb (bool_decide (overlap (dest pm i) (dest pm j))))
  && (negb (bool_decide (overlap (src pm i) (src pm j))) || Equals (src pm i) (src pm j))
  && (negb (wide (src pm i)) || negb (wide (dest pm j))
      || negb (bool_decide (overlap (src pm i) (dest pm j))) || Equals (src pm i) (dest pm j))
  && ((i =? j)%nat || negb (wide (src pm i)) || negb (Equals (src pm i) (src pm j)) || wide_onlyb).

Definition resolvableb : bool :=
  forallb move_fits (seq 0 n) && forallb (fun i => forallb (moves_fit i) (seq 0 n)) (seq 0 n).

Lemma out_of_range i : (n <= i)%nat -> src pm i = NoLocation /\ dest pm i = NoLocation.
Proof. intros H. unfold src, dest. by rewrite lookup_ge_None_2. Qed.

Lemma resolvableb_sound : resolvableb = true -> resolvable pm.
Proof.
  unfold resolvableb. rewrite andb_true_iff, !forallb_forall. intros [H1 H2].
  assert (forall i, (i < n)%nat -> move_fits i = true) as F1.
  { intros i Hi. apply H1, in_seq. lia. }
  assert (forall i j, (i < n)%nat -> (j < n)%nat -> moves_fit i j = true) as F2.
  { intros i j Hi Hj. specialize (H2 i ltac:(apply in_seq; lia)). rewrite forallb_forall in H2.
    apply H2, in_seq. lia. }
  assert (forall i l, overlap (src pm i) l -> (i < n)%nat) as Hsrc.
  { intros i l Ho. destruct (decide (i < n)%nat); [done|].
    rewrite (proj1 (out_of_range i ltac:(lia))) in Ho. by apply overlap_none_l in Ho. }
  assert (forall i l, overlap l (dest pm i) -> (i < n)%nat) as Hdest.
  { intros i l Ho. destruct (decide (i < n)%nat); [done|].
    rewrite (proj2 (out_of_range i ltac:(lia))) in Ho. by apply overlap_none_r in Ho. }
  assert (forall i, wide (src pm i) -> (i < n)%nat) as Hwide.
  { intros i W. destruct (decide (i < n)%nat); [done|].
    by rewrite (proj1 (out_of_range i ltac:(lia))) in W. }
  unfold move_fits, moves_fit, Equals in *. constructor.
  - intros i Hi. specialize (F1 i Hi). destruct (place (dest pm i)); [done|discriminate].
  - intros i Hi Hc. specialize (F1 i Hi). rewrite Hc in F1. cbn [orb] in F1.
    rewrite !andb_true_iff, !eqb_true_iff in F1. destruct F1 as (_ & (H & H') & _). by rewrite H.
  - intros i m Hm Hc. pose proof (lookup_lt_Some _ _ _ Hm) as Hi. specialize (F1 i Hi).
    rewrite Hc, Hm in F1. cbn [orb from_option] in F1. rewrite !andb_true_iff, !eqb_true_iff in F1.
    apply F1.
  - intros i j Hij Ho. pose proof (F2 i j (Hdest _ _ (overlap_sym _ _ Ho)) (Hdest _ _ Ho)) as F.
    rewrite !andb_true_iff in F. destruct F as [[[F _] _] _].
    rewrite (proj2 (Nat.eqb_neq _ _) Hij), bool_decide_eq_true_2 in F by done. done.
  - intros i j Ho. pose proof (F2 i j (Hsrc _ _ Ho) (Hsrc _ _ (overlap_sym _ _ Ho))) as F.
    rewrite !andb_true_iff in F. destruct F as [[[_ F] _] _].
    rewrite bool_decide_eq_true_2 in F by done. by apply bool_decide_eq_true in F.
  - intros i j Wi Wj Ho. pose proof (F2 i j (Hsrc _ _ Ho) (Hdest _ _ Ho)) as F.
    rewrite !andb_true_iff in F. destruct F as [[[_ _] F] _].
    apply Is_true_true in Wi, Wj. rewrite Wi, Wj, (bool_decide_eq_true_2 (overlap _ _)) in F by done.
    by apply bool_decide_eq_true in F.
  - intros i j Hij Wi E k Hk Hc. assert (j < n)%nat as Hj by (apply Hwide; by rewrite <- E).
    pose proof (F2 i j (Hwide i Wi) Hj) as F. rewrite !andb_true_iff in F. destruct F as [_ F].
    apply Is_true_true in Wi.
    rewrite Wi, (proj2 (Nat.eqb_neq _ _) Hij), bool_decide_eq_true_2 in F by done. cbn in F.
    unfold wide_onlyb in F. rewrite forallb_forall in F. specialize (F k ltac:(apply in_seq; lia)).
    rewrite Hc in F. by apply Is_true_true.
Qed.
End Check.

(** ** Runs *)
Section Runs.
Local Abbreviation r := RegisterLocation.
Local Abbreviation rr := RegisterPairLocation.
Local Abbreviation int a b := (mkMove a b kPrimInt).
Local Abbreviation long a b := (mkMove a b kPrimLong).

(** A cycle through registers used alone and in pairs, with a constant: one of the unit tests
    and a constant move. *)
Definition pair_cycle : list MoveOperands :=
  [int (r 10) (r 5); long (rr 4 5) (DoubleStackSlot 32); long (DoubleStackSlot 32) (rr 10 11);
   int (ConstantLocation 0) (r 6)].

Lemma swap_resolver_correct_witness : resolvable pair_cycle
  /\ exists code, EmitNativeCode pair_cycle = Some code
     /\ parallel_assignment (fun _ _ => 7) pair_cycle (fun _ => 0) (exec_code (fun _ _ => 7) code (fun _ => 0)).
Proof.
  assert (resolvable pair_cycle) as Hok by (apply resolvableb_sound; vm_compute; reflexivity).
  split; [exact Hok|]. exact (swap_resolver_correct (fun _ _ => 7) (fun _ => 0) pair_cycle Hok).
Defined.

(** The moves of the unit tests and the code the tests expect. *)
Example unit_tests :
  EmitNativeCode [int (r 0) (r 1); int (r 1) (r 2); int (r 2) (r 3); int (r 1) (r 4)]
    = Some [EmitMove (r 2) (r 3); EmitMove (r 1) (r 2); EmitMove (r 1) (r 4); EmitMove (r 0) (r 1)]
  /\ EmitNativeCode [int (r 0) (r 1); int (r 1) (r 2); int (r 1) (r 0)]
    = Some [EmitMove (r 1) (r 2); EmitSwap (r 1) (r 0)]
  /\ EmitNativeCode [int (r 0) (r 1); int (r 1) (r 2); int (r 2) (r 3); int (r 3) (r 4); int (r 4) (r 0)]
    = Some [EmitSwap (r 4) (r 0); EmitSwap (r 3) (r 4); EmitSwap (r 2) (r 3); EmitSwap (r 1) (r 2)]
  /\ EmitNativeCode [int (ConstantLocation 0) (r 0); int (r 1) (r 2)]
    = Some [EmitMove (r 1) (r 2); EmitMove (ConstantLocation 0) (r 0)]
  /\ EmitNativeCode [int (r 2) (r 7); int (r 7) (r 1); long (rr 0 1) (rr 2 3)]
    = Some [EmitSwap (rr 0 1) (rr 2 3); EmitMove (r 7) (r 1); EmitMove (r 0) (r 7)]
  /\ EmitNativeCode [long (rr 0 1) (rr 2 3); int (r 2) (r 0); int (r 3) (r 1)]
    = Some [EmitSwap (rr 0 1) (rr 2 3)]
  /\ EmitNativeCode [int (r 10) (r 5); long (rr 4 5) (DoubleStackSlot 32); long (DoubleStackSlot 32) (rr 10 11)]
    = Some [EmitSwap (DoubleStackSlot 32) (rr 10 11); EmitSwap (rr 4 5) (DoubleStackSlot 32); EmitMove (r 4) (r 5)]
  /\ EmitNativeCode [long (r 0) (r 1); int (r 1) (StackSlot 48); int (StackSlot 48) (r 0)]
    = Some [EmitSwap (r 0) (r 1); EmitSwap (StackSlot 48) (r 0)]
  /\ EmitNativeCode [int (r 0) (r 3); long (rr 2 3) (rr 0 1); int (r 7) (r 2)]
    = Some [EmitSwap (rr 2 3) (rr 0 1); EmitMove (r 2) (r 3); EmitMove (r 7) (r 2)].
Proof. repeat split; vm_compute; reflexivity. Qed.

(** Two moves from the same pair in a cycle that also has narrow destinations. *)
Definition shared_pair : list MoveOperands :=
  [int (r 5) (r 6); int (r 6) (r 0); long (rr 0 1) (rr 2 3); int (r 2) (r 1); long (rr 0 1) (rr 4 5)].

(** C38.  The restriction on shared wide sources is needed: for these five moves, which meet every
    other condition, the resolver passes its checks, but the code first completes
    [(0,1) -> (4,5)] by a swap and then swaps (4,5) away, so that register 4 ends up with the
    value of register 5. *)
Theorem shared_pair_clobbered K : exists code,
  EmitNativeCode shared_pair = Some code
  /\ forall s, exec_code K code s (CoreCell 4) = s (CoreCell 5)
     /\ exec_code K code s (CoreCell 5) = s (CoreCell 3).
Proof. eexists. split; [vm_compute; reflexivity|]. by intros s. Qed.
End Runs.

(** A double in one floating-point register and a float in the high half of the double's
    destination: the second move is lost. *)
Example half_source_forgotten :
  EmitNativeCode [mkMove (FpuRegisterLocation 0) (DoubleStackSlot 32) kPrimDouble;
                  mkMove (StackSlot 36) (FpuRegisterLocation 0) kPrimFloat]
  = Some [EmitSwap (FpuRegisterLocation 0) (DoubleStackSlot 32)].
Proof. vm_compute. reflexivity. Qed.
