(* ===== verification/ParallelMoveScratch.v ===== *)
(** * The parallel-move resolver with scratch locations

    [ParallelMoveResolverNoSwap] of compiler/optimizing/parallel_move_resolver.cc.  The virtual
    functions a code generator implements are the class [ScratchBackend]; its instance
    [TestBackend] is the resolver of compiler/optimizing/parallel_move_test.cc. *)

From S2P Require Import Prelude DexOpcodes DexInstruction ShadowFrame InterpreterBase ParallelMove.

(** ** State *)

(** [moves_], [pending_moves_], [scratches_], the code emitted so far, and the fields of the
    subclass. *)
Record NoSwap (B : Type) := mkNoSwap {
  ns_moves : list MoveOperands;
  pending_moves_ : list MoveOperands;
  scratches_ : list Location;
  ns_code : list Emitted;
  backend_ : B
}.
Arguments mkNoSwap {B}. Arguments ns_moves {B}. Arguments pending_moves_ {B}.
Arguments scratches_ {B}. Arguments ns_code {B}. Arguments backend_ {B}.

Definition set_moves {B} (ms : list MoveOperands) (st : NoSwap B) : NoSwap B :=
  mkNoSwap ms (pending_moves_ st) (scratches_ st) (ns_code st) (backend_ st).
Definition set_pending {B} (ps : list MoveOperands) (st : NoSwap B) : NoSwap B :=
  mkNoSwap (ns_moves st) ps (scratches_ st) (ns_code st) (backend_ st).
Definition set_scratches {B} (ls : list Location) (st : NoSwap B) : NoSwap B :=
  mkNoSwap (ns_moves st) (pending_moves_ st) ls (ns_code st) (backend_ st).
Definition set_backend {B} (b : B) (st : NoSwap B) : NoSwap B :=
  mkNoSwap (ns_moves st) (pending_moves_ st) (scratches_ st) (ns_code st) b.

(** What a code generator provides: [EmitMove] is the output of the model. *)
Class ScratchBackend (B : Type) := {
  PrepareForEmitNativeCode : B -> B;
  AllocateScratchLocationFor : LocationKind -> SM (NoSwap B) Location;
  FreeScratchLocation : Location -> SM (NoSwap B) unit
}.

Section NoSwap.
Context {B : Type}.
Local Open Scope sm_scope.

Definition ns_check (b : bool) : SM (NoSwap B) unit := if b then sret tt else sfail.
Definition ns_move_at (i : nat) : SM (NoSwap B) MoveOperands :=
  fun st => match ns_moves st !! i with Some m => Some (m, st) | None => None end.
Definition ns_change (i : nat) (f : MoveOperands -> MoveOperands) : SM (NoSwap B) unit :=
  smod (fun st => set_moves (alter f i (ns_moves st)) st).
Definition ns_emit (i : nat) : SM (NoSwap B) unit :=
  do m <- ns_move_at i;
  smod (fun st => mkNoSwap (ns_moves st) (pending_moves_ st) (scratches_ st)
                    (ns_code st ++ [EmitMove (source_ m) (destination_ m)]) (backend_ st)).

(** [MarkPending] and [ClearPending] on the move at [i]. *)
Definition ns_mark (i : nat) : SM (NoSwap B) Location :=
  do m <- ns_move_at i;
  ns_check (negb (IsPending m)) ;;
  ns_change i (SetDestination NoLocation) ;;
  sret (destination_ m).
Definition ns_clear (i : nat) (dest : Location) : SM (NoSwap B) unit :=
  do m <- ns_move_at i;
  ns_check (IsPending m) ;;
  ns_change i (SetDestination dest).

Definition IsBlockedByMoves (st : NoSwap B) (loc : Location) : bool :=
  if existsb (fun m => Blocks m loc) (pending_moves_ st) then true
  else existsb (fun m => Blocks m loc) (ns_moves st).

(** [GetScratchLocation], the tool a code generator has for [AllocateScratchLocationFor]. *)
Definition GetScratchLocation (kind : LocationKind) (st : NoSwap B) : Location :=
  let usable loc := is_kind kind loc && negb (IsBlockedByMoves st loc) in
  match List.find usable (scratches_ st) with
  | Some loc => loc
  | None =>
      match List.find usable (map destination_ (ns_moves st)) with
      | Some loc => loc
      | None => NoLocation
      end
  end.

Definition AddScratchLocation (loc : Location) : SM (NoSwap B) unit :=
  do st <- sget (fun st => st);
  ns_check (negb (existsb (Equals loc) (scratches_ st))) ;;
  smod (fun st => set_scratches (scratches_ st ++ [loc]) st).

Fixpoint erase_location (loc : Location) (ls : list Location) : list Location :=
  match ls with
  | [] => []
  | l :: ls => if Equals loc l then ls else l :: erase_location loc ls
  end.

Definition RemoveScratchLocation (loc : Location) : SM (NoSwap B) unit :=
  do st <- sget (fun st => st);
  ns_check (negb (IsBlockedByMoves st loc)) ;;
  smod (fun st => set_scratches (erase_location loc (scratches_ st)) st).

Definition UpdateMoveSource (from to : Location) : SM (NoSwap B) unit :=
  smod (fun st => set_moves
    (map (fun m => if Equals (source_ m) from then SetSource to m else m) (ns_moves st)) st).

Definition AddPendingMove (source destination : Location) (t : Primitive) : SM (NoSwap B) unit :=
  smod (fun st => set_pending (pending_moves_ st ++ [mkMove source destination t]) st).

(** A pending move by its position in the list. *)
Definition DeletePendingMove (k : nat) : SM (NoSwap B) unit :=
  smod (fun st => set_pending (delete k (pending_moves_ st)) st).

Fixpoint find_unblocked (st : NoSwap B) (loc : Location) (k : nat) (ps : list MoveOperands) :
    option (nat * MoveOperands) :=
  match ps with
  | [] => None
  | m :: ps =>
      if OverlapsWith (destination_ m) loc && negb (IsBlockedByMoves st (destination_ m))
      then Some (k, m) else find_unblocked st loc (S k) ps
  end.
Definition GetUnblockedPendingMove (st : NoSwap B) (loc : Location) : option (nat * MoveOperands) :=
  find_unblocked st loc 0 (pending_moves_ st).

Context {HB : ScratchBackend B}.

(** The loop that frees scratch locations: [size()] is read again on each turn. *)
Fixpoint free_scratches (fuel i : nat) (pending_source : Location) : SM (NoSwap B) unit :=
  match fuel with
  | O => sfail
  | S fuel =>
      do st <- sget (fun st => st);
      match scratches_ st !! i with
      | None => sret tt
      | Some scratch =>
          (if OverlapsWith scratch pending_source && negb (IsBlockedByMoves st scratch)
           then FreeScratchLocation pending_source else sret tt) ;;
          free_scratches fuel (S i) pending_source
      end
  end.

(** The loop over the pending moves that [source] was blocking, emitted through the move at
    [index]. *)
Fixpoint perform_pending (fuel index : nat) (source : Location) : SM (NoSwap B) unit :=
  match fuel with
  | O => sfail
  | S fuel =>
      do st <- sget (fun st => st);
      match GetUnblockedPendingMove st source with
      | None => sret tt
      | Some (k, pending_move) =>
          DeletePendingMove k ;;
          ns_change index (fun m => SetDestination (destination_ pending_move)
                                      (SetSource (source_ pending_move) m)) ;;
          ns_emit index ;;
          ns_change index Eliminate ;;
          UpdateMoveSource (source_ pending_move) (destination_ pending_move) ;;
          do st <- sget (fun st => st);
          free_scratches (S (length (scratches_ st))) 0 (source_ pending_move) ;;
          perform_pending fuel index source
      end
  end.

(** From the end of the loop over the blocking moves. *)
Definition resolve_with_scratch (index : nat) (destination : Location) : SM (NoSwap B) unit :=
  ns_clear index destination ;;
  do move <- ns_move_at index;
  ns_check (negb (IsRedundant move)) ;;
  let source := source_ move in
  do st <- sget (fun st => st);
  (if IsBlockedByMoves st destination then
     ns_check (negb (is_kind kConstant source)) ;;
     do scratch <- AllocateScratchLocationFor (GetKind source);
     ns_change index (SetDestination scratch) ;;
     ns_emit index ;;
     ns_change index Eliminate ;;
     UpdateMoveSource source scratch ;;
     AddPendingMove scratch destination (if Is64BitMove move then kPrimLong else kPrimInt)
   else
     ns_emit index ;;
     ns_change index Eliminate ;;
     UpdateMoveSource source destination) ;;
  do st <- sget (fun st => st);
  perform_pending (S (length (pending_moves_ st))) index source.

(** The loop over the moves that block [destination], with [PerformMove] as argument. *)
Fixpoint for_blockers (perform : nat -> SM (NoSwap B) unit) (destination : Location) (indices : list nat) :
    SM (NoSwap B) unit :=
  match indices with
  | [] => sret tt
  | i :: indices =>
      do other_move <- ns_move_at i;
      (if Blocks other_move destination && negb (IsPending other_move) then perform i else sret tt) ;;
      for_blockers perform destination indices
  end.

(** [PerformMove]; its depth is at most the number of moves. *)
Fixpoint NoSwapPerformMove (fuel index : nat) : SM (NoSwap B) unit :=
  match fuel with
  | O => sfail
  | S fuel =>
      do move <- ns_move_at index;
      ns_check (negb (IsPending move)) ;;
      ns_check (negb (IsEliminated move)) ;;
      if IsRedundant move then ns_change index Eliminate
      else
        ns_check (negb (IsInvalid (source_ move))) ;;
        do destination <- ns_mark index;
        do st <- sget (fun st => st);
        for_blockers (NoSwapPerformMove fuel) destination (seq 0 (length (ns_moves st))) ;;
        resolve_with_scratch index destination
  end.

(** The three loops of [EmitNativeCode]. *)
Fixpoint ns_for_each (f : nat -> SM (NoSwap B) unit) (indices : list nat) : SM (NoSwap B) unit :=
  match indices with
  | [] => sret tt
  | i :: indices => f i ;; ns_for_each f indices
  end.

Definition ns_perform_move (fuel i : nat) : SM (NoSwap B) unit :=
  do move <- ns_move_at i;
  if negb (IsEliminated move) && negb (IsConstant (source_ move)) then NoSwapPerformMove fuel i
  else sret tt.

Definition ns_register_constant (i : nat) : SM (NoSwap B) unit :=
  do move <- ns_move_at i;
  if negb (IsEliminated move) && negb (IsStackSlot (destination_ move))
     && negb (IsDoubleStackSlot (destination_ move)) then
    ns_emit i ;;
    ns_change i Eliminate ;;
    UpdateMoveSource (source_ move) (destination_ move)
  else sret tt.

Definition ns_rest (i : nat) : SM (NoSwap B) unit :=
  do move <- ns_move_at i;
  if negb (IsEliminated move) then ns_emit i ;; ns_change i Eliminate else sret tt.

Definition ns_loops (n : nat) : SM (NoSwap B) unit :=
  ns_for_each (ns_perform_move n) (seq 0 n) ;;
  ns_for_each ns_register_constant (seq 0 n) ;;
  ns_for_each ns_rest (seq 0 n).

Definition ns_resolve (n : nat) : SM (NoSwap B) unit :=
  ns_loops n ;;
  do st <- sget (fun st => st);
  ns_check (length (pending_moves_ st) =? 0)%nat.

(** [ParallelMoveResolverNoSwap::EmitNativeCode]: the code it emits. *)
Definition NoSwapEmitNativeCode (b : B) (parallel_move : list MoveOperands) : option (list Emitted) :=
  let ms := BuildInitialMoveList parallel_move in
  match ns_resolve (length ms) (mkNoSwap ms [] [] [] (PrepareForEmitNativeCode b)) with
  | Some (_, st) => Some (ns_code st)
  | None => None
  end.
End NoSwap.

(** ** The resolver of the unit tests *)
Definition kScratchRegisterStartIndexForTest : Z := 100.

Section TestBackend.
Local Open Scope sm_scope.

(** [scratch_index_] is the state of the subclass. *)
Definition TestAllocateScratchLocationFor (kind : LocationKind) : SM (NoSwap Z) Location :=
  let kind := match kind with
              | kStackSlot | kFpuRegister | kRegister => kRegister
              | _ => kRegisterPair
              end in
  do st <- sget (fun st => st);
  let scratch := GetScratchLocation kind st in
  if Equals scratch NoLocation then
    let scratch_index := backend_ st in
    AddScratchLocation (RegisterLocation scratch_index) ;;
    AddScratchLocation (RegisterLocation (scratch_index + 1)) ;;
    AddScratchLocation (RegisterPairLocation scratch_index (scratch_index + 1)) ;;
    smod (set_backend (scratch_index + 2)) ;;
    sret (if bool_decide (kind = kRegister) then RegisterLocation scratch_index
          else RegisterPairLocation scratch_index (scratch_index + 1))
  else sret scratch.

#[global] Instance TestBackend : ScratchBackend Z := {
  PrepareForEmitNativeCode := fun _ => kScratchRegisterStartIndexForTest;
  AllocateScratchLocationFor := TestAllocateScratchLocationFor;
  FreeScratchLocation := fun _ => sret tt
}.
End TestBackend.
