(* ===== verification/ParallelMoveScratchProofs.v ===== *)
(** * Correctness of the resolver with scratch locations

    The invariant of [ParallelMoveResolverNoSwap::PerformMove] and its preservation, for moves
    whose operands coincide or are disjoint, over any machine whose locations are read and
    written as wholes and any code generator that keeps the laws of scratch locations. *)

From S2P Require Import Prelude DexOpcodes DexInstruction ShadowFrame InterpreterBase ParallelMove ParallelMoveMachine ParallelMoveGraph ParallelMoveSwap ParallelMoveScratch.

(** ** Machines and code generators *)

(** Reading and writing whole locations: a location returns what was last written to it if the
    value fits, and a write leaves alone what it does not overlap. *)
Class Machine := {
  Val : Type;
  Mem : Type;
  get : Mem -> Location -> Val;
  put : Mem -> Location -> Val -> Mem;
  fits : Location -> Val -> Prop;
  get_fits : forall s l, place l -> fits l (get s l);
  get_put : forall s l v, place l -> fits l v -> get (put s l v) l = v;
  get_put_other : forall s l l' v, place l -> ~ overlap l l' -> get (put s l v) l' = get s l'
}.

Definition exec_one {M : Machine} (e : Emitted) (s : Mem) : Mem :=
  match e with
  | EmitMove a b => put s b (get s a)
  | EmitSwap a b => put (put s b (get s a)) a (get s b)
  end.
Definition exec_all {M : Machine} (code : list Emitted) (s : Mem) : Mem :=
  foldl (fun s e => exec_one e s) s code.
Arguments exec_all : simpl never.

Lemma exec_all_snoc {M : Machine} code e s : exec_all (code ++ [e]) s = exec_one e (exec_all code s).
Proof. unfold exec_all. by rewrite foldl_app. Qed.

(** What the resolver may rely on when it asks for a scratch location, which it does when no move
    reads a temporary, and when it gives one back: a scratch location is a temporary register,
    listed in [scratches_] while it is in use, or the destination of a move that is not done;
    nothing reads it; and a value of the given kind fits it. *)
Class BackendLaws {B : Type} {HB : ScratchBackend B} {M : Machine} := {
  temp : Location -> Prop;
  scratch_kind : LocationKind -> bool;
  ready : list Location -> B -> Prop;
  temp_place : forall l, temp l -> place l;
  temp_kind : forall l, temp l -> scratch_kind (GetKind l);
  temp_atoms : forall l l', temp l -> temp l' -> overlap l l' -> l = l';
  prepare_ready : forall b, ready [] (PrepareForEmitNativeCode b);
  allocate_ok : forall kind (st : NoSwap B),
    scratch_kind kind -> ready (scratches_ st) (backend_ st) ->
    (forall m, m ∈ ns_moves st ++ pending_moves_ st -> source_ m = NoLocation \/ IsConstant (source_ m) \/ place (source_ m)) ->
    (forall m t, m ∈ ns_moves st ++ pending_moves_ st -> temp t -> ~ overlap (source_ m) t) ->
    runs (AllocateScratchLocationFor kind) st (fun l st' =>
      ns_moves st' = ns_moves st /\ pending_moves_ st' = pending_moves_ st /\ ns_code st' = ns_code st
      /\ ready (scratches_ st') (backend_ st')
      /\ place l /\ IsBlockedByMoves st l = false
      /\ ((temp l /\ l ∈ scratches_ st') \/ exists m, m ∈ ns_moves st /\ destination_ m = l)
      /\ (forall l', l' ∈ scratches_ st -> l' ∈ scratches_ st')
      /\ (forall a v, GetKind a = kind -> fits a v -> fits l v));
  free_ok : forall l scratch (st : NoSwap B),
    ready (scratches_ st) (backend_ st) -> scratch ∈ scratches_ st -> OverlapsWith scratch l ->
    place l -> scratch_kind (GetKind l) ->
    IsBlockedByMoves st scratch = false ->
    runs (FreeScratchLocation l) st (fun _ st' =>
      ns_moves st' = ns_moves st /\ pending_moves_ st' = pending_moves_ st /\ ns_code st' = ns_code st
      /\ ready (scratches_ st') (backend_ st')
      /\ (length (scratches_ st') <= length (scratches_ st))%nat
      /\ (forall l', l' ∈ scratches_ st -> l' = l \/ l' ∈ scratches_ st'))
}.

Lemma OverlapsWith_sym a b : OverlapsWith a b = OverlapsWith b a.
Proof. unfold OverlapsWith. apply orb_comm. Qed.

Section Scratch.
Context {B : Type} {HB : ScratchBackend B} {M : Machine} {HL : BackendLaws}.
Context (s0 : Mem) (ms0 : list MoveOperands).

Local Abbreviation n := (length ms0).
Local Abbreviation dest := (dest ms0).
Local Abbreviation constant := (constant ms0).
Local Abbreviation goal := (fun i => get s0 (src ms0 i)).

(** The locations a run may use. *)
Definition used (l : Location) : Prop :=
  place l /\ ((exists i, l = src ms0 i) \/ (exists i, l = dest i) \/ temp l).

(** The moves this resolver handles here: operands that coincide or are disjoint, temporaries
    apart from them, and values that fit. *)
Record separable : Prop := mkSeparable {
  sp_dest : forall i, (i < n)%nat -> place (dest i);
  sp_src : forall i, (i < n)%nat -> constant i = false -> place (src ms0 i);
  sp_apart : forall i j, i <> j -> ~ overlap (dest i) (dest j);
  sp_atoms : forall a b, used a -> used b -> overlap a b -> a = b;
  sp_temp : forall t i, temp t -> t <> src ms0 i /\ t <> dest i;
  sp_kind : forall l, used l -> scratch_kind (GetKind l);
  sp_fits : forall i, (i < n)%nat -> fits (dest i) (goal i)
}.

(** ** The invariant *)

(** The pending move: its scratch location, the number of the move it completes, and its type. *)
Abbreviation pending := (option (Location * nat * Primitive)).
Definition pending_for (pend : pending) (k : nat) : Prop := exists l t, pend = Some (l, k, t).
Definition pending_from (pend : pending) (l : Location) : Prop := exists k t, pend = Some (l, k, t).

Record holding (f : nat -> Location) (pend : pending) (s : Mem) : Prop := mkHolding {
  ho_live : forall i, (i < n)%nat -> f i <> NoLocation -> get s (f i) = goal i;
  ho_pending : forall l k t, pend = Some (l, k, t) -> get s l = goal k;
  ho_done : forall i, (i < n)%nat -> f i = NoLocation -> ~ pending_for pend i -> get s (dest i) = goal i;
  ho_frame : forall l, (forall i, ~ overlap (dest i) l) -> (forall t, temp t -> ~ overlap t l) ->
    get s l = get s0 l
}.

Record tidy (f : nat -> Location) (stk : list nat) (pend : pending) : Prop := mkTidy {
  ti_nodup : NoDup stk;
  ti_stack : forall p, p ∈ stk -> (p < n)%nat /\ constant p = false /\ f p <> NoLocation;
  ti_constant : forall i, constant i -> f i = NoLocation \/ f i = src ms0 i;
  ti_used : forall i, constant i = false -> f i <> NoLocation -> (i < n)%nat /\ used (f i);
  ti_pending : forall l k t, pend = Some (l, k, t) ->
    (k < n)%nat /\ f k = NoLocation /\ used l /\ l <> dest k
}.

Definition pending_list (pend : pending) : list MoveOperands :=
  match pend with None => [] | Some (l, k, t) => [mkMove l (dest k) t] end.

(** A pending move and one that is done have no destination. *)
Definition shaped (stk : list nat) (ms : list MoveOperands) : Prop := forall i m, ms !! i = Some m ->
  destination_ m = if decide (i ∈ stk \/ source_ m = NoLocation) then NoLocation else dest i.

Record ninv (st : NoSwap B) (stk : list nat) (pend : pending) : Prop := mkNinv {
  ni_length : length (ns_moves st) = n;
  ni_shape : shaped stk (ns_moves st);
  ni_tidy : tidy (src (ns_moves st)) stk pend;
  ni_list : pending_moves_ st = pending_list pend;
  ni_ready : ready (scratches_ st) (backend_ st);
  ni_live : forall t x, temp t -> src (ns_moves st) x = t -> pending_from pend t;
  ni_temps : forall t, temp t -> pending_from pend t -> t ∈ scratches_ st;
  ni_holding : holding (src (ns_moves st)) pend (exec_all (ns_code st) s0)
}.

Section WithSeparable.
Context (Hsp : separable).

Lemma used_dest i : (i < n)%nat -> used (dest i).
Proof. intros Hi. split; [by apply (sp_dest Hsp)|]. eauto. Qed.

Lemma dest_inj i j : (i < n)%nat -> dest i = dest j -> i = j.
Proof.
  intros Hi E. destruct (decide (i = j)); [done|]. exfalso. apply (sp_apart Hsp i j); [done|].
  rewrite <- E. by apply overlap_refl, (sp_dest Hsp).
Qed.

Lemma used_overlaps a b : used a -> used b -> OverlapsWith a b = bool_decide (a = b).
Proof.
  intros Ha Hb. apply eq_true_iff_eq. rewrite bool_decide_eq_true, <- Is_true_true.
  rewrite OverlapsWith_overlap by (try apply Ha; try apply Hb; intros; by apply (sp_atoms Hsp)).
  split; [by apply (sp_atoms Hsp)|]. intros ->. apply overlap_refl, Hb.
Qed.

Lemma used_valid l : used l -> l <> NoLocation /\ IsInvalid l = false /\ IsConstant l = false.
Proof. intros [Hp _]. by destruct l. Qed.

(** What a write preserves. *)
Lemma holding_write f f' pend pend' s d v :
  holding f pend s -> used d -> fits d v -> ((exists i, d = dest i) \/ temp d) ->
  (forall i, (i < n)%nat -> f' i <> NoLocation ->
    (f' i = d /\ v = goal i) \/ (f' i = f i /\ ~ overlap d (f i))) ->
  (forall l k t, pend' = Some (l, k, t) ->
    (l = d /\ v = goal k) \/ (exists t', pend = Some (l, k, t') /\ ~ overlap d l)) ->
  (forall i, (i < n)%nat -> f' i = NoLocation -> ~ pending_for pend' i ->
    (dest i = d /\ v = goal i) \/ (f i = NoLocation /\ ~ pending_for pend i /\ ~ overlap d (dest i))) ->
  holding f' pend' (put s d v).
Proof.
  intros [H1 H2 H3 H4] [Hd _] Hf Hw Hlive Hpend Hdone. constructor.
  - intros i Hi Hl. destruct (Hlive i Hi Hl) as [[-> ->]|[E Ho]]; [by rewrite get_put|].
    rewrite get_put_other, E by (rewrite ?E; done). apply H1; [done|congruence].
  - intros l k t E. destruct (Hpend l k t E) as [[-> ->]|(t' & E' & Ho)]; [by rewrite get_put|].
    rewrite get_put_other by done. by apply (H2 l k t').
  - intros i Hi E Hp. destruct (Hdone i Hi E Hp) as [[-> ->]|(E' & Hp' & Ho)]; [by rewrite get_put|].
    rewrite get_put_other by done. by apply H3.
  - intros l Hl Ht. rewrite get_put_other; [by apply H4|done|].
    destruct Hw as [[i ->]|Htd]; auto.
Qed.

(** ** Lookups *)
Definition nopen (st : NoSwap B) (i : nat) : Prop :=
  (i < n)%nat /\ constant i = false /\ src (ns_moves st) i <> NoLocation.

Lemma nopen_lookup st stk pend i : ninv st stk pend -> nopen st i -> exists m,
  ns_moves st !! i = Some m /\ source_ m = src (ns_moves st) i
  /\ destination_ m = (if decide (i ∈ stk) then NoLocation else dest i)
  /\ IsEliminated m = false /\ IsPending m = bool_decide (i ∈ stk) /\ used (source_ m).
Proof.
  intros Hi (Hlt & Hc & Hl). destruct (lookup_lt_is_Some_2 (ns_moves st) i) as [m Hm].
  { by rewrite (ni_length _ _ _ Hi). }
  assert (source_ m = src (ns_moves st) i) as Hs by (unfold src; by rewrite Hm).
  destruct (ti_used _ _ _ (ni_tidy _ _ _ Hi) i Hc Hl) as [_ Hu].
  destruct (used_valid _ Hu) as (_ & Hv & _).
  pose proof (ni_shape _ _ _ Hi i m Hm) as Hd. exists m. rewrite Hs in *.
  assert (destination_ m = if decide (i ∈ stk) then NoLocation else dest i) as Hd'.
  { rewrite Hd. repeat destruct (decide _); naive_solver. }
  unfold IsEliminated, IsPending. rewrite Hs, Hv, Hd'. split_and!; try done.
  destruct (decide (i ∈ stk)); [by rewrite bool_decide_eq_true_2|].
  rewrite bool_decide_eq_false_2, andb_true_r by done.
  destruct (used_valid _ (used_dest i Hlt)) as (_ & E & _). by rewrite E.
Qed.

Lemma live_cases st stk pend x : ninv st stk pend ->
  src (ns_moves st) x = NoLocation \/ IsConstant (src (ns_moves st) x) \/ used (src (ns_moves st) x).
Proof.
  intros Hi. destruct (decide (src (ns_moves st) x = NoLocation)) as [|Hl]; [by left|]. right.
  pose proof (ni_tidy _ _ _ Hi) as Ht. destruct (constant x) eqn:Hc.
  - left. destruct (ti_constant _ _ _ Ht x) as [?|E]; [by rewrite Hc|done|].
    rewrite E. unfold ParallelMoveGraph.constant in Hc. by rewrite Hc.
  - right. by apply (ti_used _ _ _ Ht x).
Qed.

Lemma Blocks_used m d : used d -> source_ m = NoLocation \/ IsConstant (source_ m) \/ used (source_ m) ->
  Blocks m d = bool_decide (source_ m = d).
Proof.
  intros Hd Hs. unfold Blocks, IsEliminated. destruct Hs as [E|[Hc|Hu]].
  - rewrite E. cbn. symmetry. apply bool_decide_eq_false_2. intros <-. by destruct (used_valid _ Hd).
  - destruct (source_ m) as [|c| | | | | | | ] eqn:E; try done. cbn [IsInvalid].
    rewrite OverlapsWith_constant by apply Hd. rewrite andb_false_r. symmetry.
    apply bool_decide_eq_false_2. intros <-. by destruct (used_valid _ Hd) as (_ & _ & ?).
  - destruct (used_valid _ Hu) as (_ & -> & _). cbn. by apply used_overlaps.
Qed.

Lemma Blocks_at st stk pend x m d : ninv st stk pend -> ns_moves st !! x = Some m -> used d ->
  Blocks m d = bool_decide (src (ns_moves st) x = d).
Proof.
  intros Hi Hm Hd. assert (source_ m = src (ns_moves st) x) as Hs by (unfold src; by rewrite Hm).
  rewrite Blocks_used, Hs; [done..|]. rewrite Hs. by apply (live_cases st stk pend).
Qed.

Lemma blocked_spec st stk pend d : ninv st stk pend -> used d ->
  IsBlockedByMoves st d = true <-> (exists x, src (ns_moves st) x = d) \/ pending_from pend d.
Proof.
  intros Hi Hd. unfold IsBlockedByMoves. rewrite (ni_list _ _ _ Hi).
  assert (existsb (fun m => Blocks m d) (pending_list pend) = true <-> pending_from pend d) as Hp.
  { unfold pending_from. destruct pend as [[[l k] t]|]; cbn; [|by split; [|intros (? & ? & ?)]].
    destruct (ti_pending _ _ _ (ni_tidy _ _ _ Hi) l k t eq_refl) as (_ & _ & Hl & _).
    rewrite Blocks_used by (cbn; auto). cbn. rewrite orb_false_r, bool_decide_eq_true. naive_solver. }
  destruct (existsb _ (pending_list pend)); [naive_solver|].
  rewrite existsb_exists. split.
  - intros (m & [x Hx]%list_elem_of_In%list_elem_of_lookup_1 & HB'). left. exists x.
    rewrite (Blocks_at st stk pend x) in HB' by done. by apply bool_decide_eq_true in HB'.
  - intros [[x Hx]|Hp']; [|by apply Hp in Hp'].
    destruct (ns_moves st !! x) as [m|] eqn:Hm.
    + exists m. split; [by apply list_elem_of_In, list_elem_of_lookup_2 with x|].
      rewrite (Blocks_at st stk pend x) by done. by apply bool_decide_eq_true.
    + unfold src in Hx. rewrite Hm in Hx. subst. by destruct (used_valid _ Hd).
Qed.

(** ** Updates *)
Definition retarget (from to : Location) (m : MoveOperands) : MoveOperands :=
  if Equals (source_ m) from then SetSource to m else m.

Lemma src_retarget from to ms x : from <> NoLocation ->
  src (map (retarget from to) ms) x = if decide (src ms x = from) then to else src ms x.
Proof.
  intros Hf. unfold src. rewrite list_lookup_fmap. destruct (ms !! x) as [m|]; cbn.
  - unfold retarget, Equals. case_bool_decide; by repeat destruct (decide _).
  - by rewrite decide_False by congruence.
Qed.

Lemma shaped_retarget stk from to ms : from <> NoLocation -> to <> NoLocation ->
  shaped stk ms -> shaped stk (map (retarget from to) ms).
Proof.
  intros Hf Ht H i m Hm. rewrite list_lookup_fmap in Hm. apply fmap_Some in Hm as (m' & Hm' & ->).
  pose proof (H i m' Hm') as Hd. unfold retarget, Equals. case_bool_decide as E; [|done].
  cbn. rewrite Hd. repeat destruct (decide _); naive_solver.
Qed.

Lemma shaped_eliminate stk i ms : shaped stk ms -> shaped stk (alter Eliminate i ms).
Proof.
  intros H j m Hm. destruct (decide (i = j)) as [->|Hne].
  - rewrite list_lookup_alter_eq in Hm. apply fmap_Some in Hm as (m' & _ & ->). cbn.
    by rewrite decide_True by auto.
  - rewrite list_lookup_alter_ne in Hm by done. by apply H.
Qed.

Lemma alter_eliminate h (i : nat) (ms : list MoveOperands) : (forall m, type_ (h m) = type_ m) ->
  alter Eliminate i (alter h i ms) = alter Eliminate i ms.
Proof.
  intros Hh. apply list_eq. intros j. destruct (decide (i = j)) as [->|Hne].
  - rewrite !list_lookup_alter_eq. destruct (ms !! j); cbn; [|done].
    unfold Eliminate. by rewrite Hh.
  - by rewrite !list_lookup_alter_ne.
Qed.

Lemma src_eliminate i ms x : src (alter Eliminate i ms) x = if decide (i = x) then NoLocation else src ms x.
Proof.
  rewrite src_alter. destruct (decide (i = x)) as [->|]; [|done]. by destruct (ms !! x).
Qed.

(** ** Steps of the resolver *)

(** The sources after the move at [i] is done and those that read [from] read [to] instead. *)
Definition redirected (i : nat) (from to : Location) (f f' : nat -> Location) : Prop := forall x,
  f' x = if decide (i = x) then NoLocation else if decide (f x = from) then to else f x.

Lemma redirect_sources i from to ms : from <> NoLocation ->
  redirected i from to (src ms) (src (map (retarget from to) (alter Eliminate i ms))).
Proof.
  intros Hf x. rewrite src_retarget, src_eliminate by done.
  destruct (decide (i = x)); [|done]. by rewrite decide_False by congruence.
Qed.

Lemma tidy_redirected i from to f f' stk pend pend' :
  tidy f stk pend -> i ∉ stk -> used from -> used to -> redirected i from to f f' ->
  (forall l k t, pend' = Some (l, k, t) ->
    (k < n)%nat /\ (k = i \/ f k = NoLocation) /\ used l /\ l <> dest k) ->
  tidy f' stk pend'.
Proof.
  intros [H1 H2 H3 H4 _] Hi Hf Ht Hr Hp.
  destruct (used_valid _ Hf) as (Hfn & _ & Hfc), (used_valid _ Ht) as (Htn & _ & _).
  constructor; [done|..].
  - intros p Hps. destruct (H2 p Hps) as (? & ? & Hl). split_and!; [done..|]. rewrite Hr.
    rewrite decide_False by (by intros ->). by destruct (decide _).
  - intros x Hx. rewrite Hr. destruct (decide (i = x)); [by left|].
    rewrite decide_False; [by auto|]. intros E.
    unfold ParallelMoveGraph.constant in Hx. destruct (H3 x Hx) as [E'|E']; [congruence|].
    rewrite <- E, E' in Hfc. by rewrite Hfc in Hx.
  - intros x Hx Hl. rewrite Hr in *. destruct (decide (i = x)); [done|].
    destruct (decide (f x = from)) as [E|]; [|auto]. split; [|done].
    apply (H4 x Hx). congruence.
  - intros l k t E. destruct (Hp l k t E) as (? & Hk & ? & ?). split_and!; [done| |done..].
    rewrite Hr. destruct (decide (i = k)); [done|]. destruct Hk as [->|Hk]; [done|].
    by rewrite Hk, decide_False by congruence.
Qed.

Lemma apart_used a b : used a -> used b -> a <> b -> ~ overlap a b.
Proof. intros Ha Hb Hne Ho. by apply Hne, (sp_atoms Hsp). Qed.

Lemma apart_live st stk pend d x : ninv st stk pend -> used d -> src (ns_moves st) x <> d ->
  ~ overlap d (src (ns_moves st) x).
Proof.
  intros Hi Hd Hne. destruct (live_cases st stk pend x Hi) as [E|[Hc|Hu]].
  - rewrite E. apply overlap_none_r.
  - rewrite overlap_spec. destruct (src (ns_moves st) x); try done. cbn. set_solver.
  - by apply apart_used.
Qed.

(** Only what a pending move reads is in a temporary. *)
Lemma temps_redirected i from to (st st' : NoSwap B) stk pend pend' : ninv st stk pend ->
  redirected i from to (src (ns_moves st)) (src (ns_moves st')) ->
  (temp to -> pending_from pend' to) -> (forall t, pending_from pend t -> t = from \/ pending_from pend' t) ->
  forall t x, temp t -> src (ns_moves st') x = t -> pending_from pend' t.
Proof.
  intros Hi Hr Hto Hp t x Ht Hx. rewrite Hr in Hx. pose proof (temp_place t Ht) as Htp.
  destruct (decide (i = x)); [by subst|]. destruct (decide (src (ns_moves st) x = from)); [subst; auto|].
  destruct (Hp t) as [->|?]; [by apply (ni_live _ _ _ Hi t x)|done|done].
Qed.

(** An unblocked move is emitted. *)
Lemma ninv_emit (st st' : NoSwap B) stk pend i : ninv st stk pend -> nopen st i -> i ∉ stk ->
  src (ns_moves st) i <> dest i -> IsBlockedByMoves st (dest i) = false ->
  ns_moves st' = map (retarget (src (ns_moves st) i) (dest i)) (alter Eliminate i (ns_moves st)) ->
  pending_moves_ st' = pending_moves_ st -> scratches_ st' = scratches_ st -> backend_ st' = backend_ st ->
  ns_code st' = ns_code st ++ [EmitMove (src (ns_moves st) i) (dest i)] ->
  ninv st' stk pend /\ redirected i (src (ns_moves st) i) (dest i) (src (ns_moves st)) (src (ns_moves st')).
Proof.
  intros Hi (Hlt & Hc & Hl) Hn Hne Hb Em Ep Es Eb Ec.
  destruct (ti_used _ _ _ (ni_tidy _ _ _ Hi) i Hc Hl) as [_ Hu]. pose proof (used_dest i Hlt) as Hd.
  pose proof (redirect_sources i (src (ns_moves st) i) (dest i) (ns_moves st) Hl) as Hr. rewrite <- Em in Hr.
  assert (~ ((exists x, src (ns_moves st) x = dest i) \/ pending_from pend (dest i))) as Hfree.
  { rewrite <- (blocked_spec st stk pend) by done. by rewrite Hb. }
  split; [|done]. destruct (used_valid _ Hd) as (Hdv & _). constructor.
  - rewrite Em, length_map, length_alter. apply Hi.
  - rewrite Em. apply shaped_retarget; [done..|]. apply shaped_eliminate. exact (ni_shape _ _ _ Hi).
  - apply (tidy_redirected i _ _ _ _ stk pend pend (ni_tidy _ _ _ Hi) Hn Hu Hd Hr).
    intros l k t E. destruct (ti_pending _ _ _ (ni_tidy _ _ _ Hi) l k t E) as (? & ? & ? & ?). auto.
  - rewrite Ep. apply Hi.
  - rewrite Es, Eb. apply Hi.
  - apply (temps_redirected i _ _ st st' stk pend pend Hi Hr); auto.
    intros Ht. by destruct (sp_temp Hsp _ i Ht).
  - rewrite Es. apply Hi.
  - rewrite Ec, exec_all_snoc. cbn. pose proof (ni_holding _ _ _ Hi) as Hh.
    apply (holding_write (src (ns_moves st)) _ pend); auto; [|by left; eauto|..].
    + rewrite (ho_live _ _ _ Hh) by done. by apply (sp_fits Hsp).
    + intros x Hx. rewrite Hr. destruct (decide (i = x)); [done|].
      destruct (decide (_ = _)) as [E|E]; intros Hlx.
      * left. split; [done|]. rewrite <- E. apply (ho_live _ _ _ Hh); [done|congruence].
      * right. split; [done|]. apply (apart_live st stk pend); auto. intros E'. apply Hfree. eauto.
    + intros l k t E. right. exists t. split; [done|].
      destruct (ti_pending _ _ _ (ni_tidy _ _ _ Hi) l k t E) as (_ & _ & Hul & _).
      apply apart_used; [done..|]. intros <-. apply Hfree. right. by exists k, t.
    + intros x Hx. rewrite Hr. destruct (decide (i = x)) as [<-|Hix].
      * intros _ _. left. split; [done|]. by apply (ho_live _ _ _ Hh).
      * destruct (decide (_ = _)) as [E|E]; [done|]. intros Hlx Hpx. right. split_and!; [done..|].
        by apply (sp_apart Hsp).
Qed.

(** A blocked move goes through a scratch location. *)
Lemma ninv_scratch (st st' : NoSwap B) stk i l ty : ninv st stk None -> nopen st i -> i ∉ stk ->
  src (ns_moves st) i <> dest i -> IsBlockedByMoves st (dest i) = true ->
  place l -> IsBlockedByMoves st l = false ->
  ((temp l /\ l ∈ scratches_ st') \/ exists m, m ∈ ns_moves st /\ destination_ m = l) ->
  (forall v, fits (src (ns_moves st) i) v -> fits l v) ->
  ns_moves st' = map (retarget (src (ns_moves st) i) l) (alter Eliminate i (ns_moves st)) ->
  pending_moves_ st' = [mkMove l (dest i) ty] ->
  (forall l', l' ∈ scratches_ st -> l' ∈ scratches_ st') -> ready (scratches_ st') (backend_ st') ->
  ns_code st' = ns_code st ++ [EmitMove (src (ns_moves st) i) l] ->
  ninv st' stk (Some (l, i, ty))
  /\ redirected i (src (ns_moves st) i) l (src (ns_moves st)) (src (ns_moves st'))
  /\ l <> dest i /\ (forall a, a ∈ stk -> l <> dest a).
Proof.
  intros Hi (Hlt & Hc & Hl) Hn Hne Hbd Hpl Hb Hscr Hfit Em Ep Hsub Hrd Ec.
  destruct (ti_used _ _ _ (ni_tidy _ _ _ Hi) i Hc Hl) as [_ Hu]. pose proof (used_dest i Hlt) as Hd.
  (* a scratch location is a temporary or the destination of an open move off the stack *)
  assert (used l /\ ((exists j, l = dest j) \/ temp l)
    /\ forall j, l = dest j -> src (ns_moves st) j <> NoLocation /\ j ∉ stk) as (Hul & Hkind & Hdl).
  { destruct Hscr as [[Ht _]|(m & [x Hx]%list_elem_of_lookup_1 & Hm)].
    - split_and!; [split; [done|]; auto|by right|]. intros j E. by destruct (sp_temp Hsp l j Ht).
    - pose proof (ni_shape _ _ _ Hi x m Hx) as Hd'. rewrite Hm in Hd'.
      destruct (decide _) as [_|Hno]; [by rewrite Hd' in Hpl|].
      split_and!; [split; [done|]; right; left; eauto|left; eauto|].
      intros j E. assert (x < n)%nat by (rewrite <- (ni_length _ _ _ Hi); by eapply lookup_lt_Some).
      assert (x = j) as <- by (apply dest_inj; congruence).
      split; [|tauto]. unfold src. rewrite Hx. cbn. tauto. }
  assert (l <> dest i) as Hli by (intros ->; by rewrite Hbd in Hb).
  pose proof (redirect_sources i (src (ns_moves st) i) l (ns_moves st) Hl) as Hr. rewrite <- Em in Hr.
  assert (~ ((exists x, src (ns_moves st) x = l) \/ pending_from None l)) as Hfree.
  { rewrite <- (blocked_spec st stk None) by done. by rewrite Hb. }
  split_and!; [|done|done|by intros a Ha E; apply (Hdl a)].
  destruct (used_valid _ Hul) as (Hlv & _). constructor.
  - rewrite Em, length_map, length_alter. apply Hi.
  - rewrite Em. apply shaped_retarget; [done..|]. apply shaped_eliminate. exact (ni_shape _ _ _ Hi).
  - apply (tidy_redirected i _ _ _ _ stk None _ (ni_tidy _ _ _ Hi) Hn Hu Hul Hr).
    intros l' k t [= <- <- <-]. auto.
  - by rewrite Ep.
  - done.
  - apply (temps_redirected i _ _ st st' stk None _ Hi Hr); [by exists i, ty|by intros t (? & ? & ?)].
  - intros t Ht (k & ty' & [= <- <- <-]). destruct Hscr as [[_ ?]|(m & Hm & <-)]; [done|]. exfalso.
    destruct Hkind as [[j E]|_]; [by destruct (sp_temp Hsp _ j Ht)|].
    apply list_elem_of_lookup_1 in Hm as [x Hx]. pose proof (ni_shape _ _ _ Hi x m Hx) as Hd'.
    destruct (decide _) as [_|_]; [by rewrite Hd' in Hpl|].
    by destruct (sp_temp Hsp _ x Ht).
  - rewrite Ec, exec_all_snoc. cbn. pose proof (ni_holding _ _ _ Hi) as Hh.
    apply (holding_write (src (ns_moves st)) _ None); auto.
    + apply Hfit, get_fits, Hu.
    + intros x Hx. rewrite Hr. destruct (decide (i = x)); [done|].
      destruct (decide (_ = _)) as [E|E]; intros Hlx.
      * left. split; [done|]. rewrite <- E. apply (ho_live _ _ _ Hh); [done|congruence].
      * right. split; [done|]. apply (apart_live st stk None); auto. intros E'. apply Hfree. eauto.
    + intros l' k t [= <- <- <-]. left. split; [done|]. by apply (ho_live _ _ _ Hh).
    + intros x Hx. rewrite Hr. destruct (decide (i = x)) as [<-|Hix].
      * intros _ []. by exists l, ty.
      * destruct (decide (_ = _)) as [E|E]; [done|]. intros Hlx Hpx. right.
        split_and!; [done|by intros (? & ? & ?)|].
        apply apart_used; [done|by apply used_dest|]. intros E'. by destruct (Hdl x E').
Qed.

(** The pending move is emitted. *)
Lemma ninv_pending (st st' : NoSwap B) stk i l k ty : ninv st stk (Some (l, k, ty)) -> i ∉ stk ->
  src (ns_moves st) i = NoLocation -> IsBlockedByMoves st (dest k) = false ->
  ns_moves st' = map (retarget l (dest k)) (alter Eliminate i (ns_moves st)) ->
  pending_moves_ st' = [] -> scratches_ st' = scratches_ st -> backend_ st' = backend_ st ->
  ns_code st' = ns_code st ++ [EmitMove l (dest k)] ->
  ninv st' stk None /\ redirected i l (dest k) (src (ns_moves st)) (src (ns_moves st')).
Proof.
  intros Hi Hn Hdi Hb Em Ep Es Eb Ec.
  destruct (ti_pending _ _ _ (ni_tidy _ _ _ Hi) l k ty eq_refl) as (Hlt & Hdk & Hul & Hlk).
  pose proof (used_dest k Hlt) as Hd. destruct (used_valid _ Hd) as (Hdv & _), (used_valid _ Hul) as (Hlv & _).
  pose proof (redirect_sources i l (dest k) (ns_moves st) Hlv) as Hr. rewrite <- Em in Hr.
  assert (~ ((exists x, src (ns_moves st) x = dest k) \/ pending_from (Some (l, k, ty)) (dest k))) as Hfree.
  { rewrite <- (blocked_spec st stk (Some (l, k, ty))) by done. by rewrite Hb. }
  split; [|done]. constructor.
  - rewrite Em, length_map, length_alter. apply Hi.
  - rewrite Em. apply shaped_retarget; [done..|]. apply shaped_eliminate. exact (ni_shape _ _ _ Hi).
  - apply (tidy_redirected i _ _ _ _ stk _ None (ni_tidy _ _ _ Hi) Hn Hul Hd Hr). done.
  - done.
  - rewrite Es, Eb. apply Hi.
  - apply (temps_redirected i _ _ st st' stk _ None Hi Hr).
    + intros Ht. by destruct (sp_temp Hsp _ k Ht).
    + intros t (? & ? & [= -> _ _]). by left.
  - by intros t _ (? & ? & ?).
  - rewrite Ec, exec_all_snoc. cbn. pose proof (ni_holding _ _ _ Hi) as Hh.
    apply (holding_write (src (ns_moves st)) _ (Some (l, k, ty))); auto; [|by left; eauto|..].
    + rewrite (ho_pending _ _ _ Hh l k ty) by done. by apply (sp_fits Hsp).
    + intros x Hx. rewrite Hr. destruct (decide (i = x)); [done|].
      destruct (decide (_ = _)) as [E|E]; intros Hlx.
      * left. split; [done|]. rewrite <- E. apply (ho_live _ _ _ Hh); [done|congruence].
      * right. split; [done|]. apply (apart_live st stk (Some (l, k, ty))); auto. intros E'. apply Hfree. eauto.
    + done.
    + intros x Hx Hdx _. destruct (decide (x = k)) as [->|Hxk].
      * left. split; [done|]. by apply (ho_pending _ _ _ Hh l k ty).
      * right. split_and!.
        -- rewrite Hr in Hdx. destruct (decide (i = x)) as [<-|]; [done|]. by destruct (decide _).
        -- by intros (? & ? & [= _ ? _]).
        -- by apply (sp_apart Hsp).
Qed.

(** ** Performing pending moves *)
Lemma runs_ns_move_at i m (st : NoSwap B) Q : ns_moves st !! i = Some m -> Q m st -> runs (ns_move_at i) st Q.
Proof. intros H HQ. unfold runs, ns_move_at. by rewrite H. Qed.

Lemma runs_ns_check (b : bool) (st : NoSwap B) (Q : unit -> NoSwap B -> Prop) : b -> Q tt st -> runs (ns_check b) st Q.
Proof. destruct b; [done|]. by intros []. Qed.

Lemma runs_ns_emit i m (st : NoSwap B) (Q : unit -> NoSwap B -> Prop) : ns_moves st !! i = Some m ->
  Q tt (mkNoSwap (ns_moves st) (pending_moves_ st) (scratches_ st)
         (ns_code st ++ [EmitMove (source_ m) (destination_ m)]) (backend_ st)) ->
  runs (ns_emit i) st Q.
Proof. intros H HQ. eapply runs_bind, runs_ns_move_at; [done|]. by apply runs_mod. Qed.

Lemma free_one st stk pend l scratch : ninv st stk pend -> used l ->
  scratch ∈ scratches_ st -> OverlapsWith scratch l -> IsBlockedByMoves st scratch = false ->
  runs (FreeScratchLocation l) st (fun _ st' => ninv st' stk pend /\ ns_moves st' = ns_moves st
    /\ (length (scratches_ st') <= length (scratches_ st))%nat).
Proof.
  intros Hi Hl Hs Ho Hb. eapply runs_mono; [by apply (free_ok l scratch); [apply Hi|done|done|apply Hl|apply (sp_kind Hsp)|]|].
  intros _ st' (Em & Ep & Ec & Hr & Hlen & Hsub). split_and!; [|done..].
  assert (forall m, m ∈ ns_moves st \/ m ∈ pending_moves_ st -> source_ m <> l) as Hfree.
  { intros m Hm E. assert (Blocks m scratch) as HBl.
    { unfold Blocks, IsEliminated. rewrite E, OverlapsWith_sym.
      destruct (used_valid _ Hl) as (_ & -> & _). done. }
    unfold IsBlockedByMoves in Hb. destruct (existsb _ (pending_moves_ st)) eqn:E1; [done|].
    destruct Hm as [Hm|Hm].
    - apply Is_true_true in HBl. rewrite (proj2 (existsb_exists _ _)) in Hb; [done|].
      exists m. split; [by apply list_elem_of_In|done].
    - apply Is_true_true in HBl. rewrite (proj2 (existsb_exists _ _)) in E1; [done|].
      exists m. split; [by apply list_elem_of_In|done]. }
  constructor; rewrite ?Em, ?Ep, ?Ec; try apply Hi; [done|].
  intros t Ht Hpt. destruct (Hsub t) as [->|?]; [by apply (ni_temps _ _ _ Hi)| |done]. exfalso.
  destruct Hpt as (k & ty & ->).
  apply (Hfree (mkMove l (dest k) ty)); [|done]. right. rewrite (ni_list _ _ _ Hi). cbn. set_solver.
Qed.

Lemma free_all fuel : forall st stk pend i l, ninv st stk pend -> used l ->
  (length (scratches_ st) - i < fuel)%nat ->
  runs (free_scratches fuel i l) st (fun _ st' => ninv st' stk pend /\ ns_moves st' = ns_moves st).
Proof.
  induction fuel as [|fuel IH]; intros st stk pend i l Hi Hl Hf.
  - lia.
  - cbn. apply runs_bind, runs_get. destruct (scratches_ st !! i) as [scratch|] eqn:Es.
    + pose proof (lookup_lt_Some _ _ _ Es). apply runs_bind. destruct (OverlapsWith scratch l && negb (IsBlockedByMoves st scratch)) eqn:E.
      * apply andb_true_iff in E as [E1 E2%negb_true_iff].
        eapply runs_mono; [apply (free_one st stk pend l scratch Hi Hl);
          [by eapply list_elem_of_lookup_2|by rewrite E1|done]|].
        intros _ st' (Hi' & Em & Hlen). eapply runs_mono; [apply (IH st' stk pend); [done..|lia]|].
        intros _ st2 [Hi2 Em2]. split; [done|congruence].
      * apply runs_ret, (IH st stk pend); [done..|lia].
    + by apply runs_ret.
Qed.

(** What performing a move does to the sources of the others, with [stk] pending: a move stays
    done, equal sources stay equal, and none becomes the destination of a move of [stk]. *)
Definition nprogress (stk : list nat) (f g : nat -> Location) : Prop :=
  (forall x, f x = NoLocation -> g x = NoLocation)
  /\ exists phi : Location -> Location, (forall x, g x <> NoLocation -> g x = phi (f x))
     /\ forall a l, a ∈ stk -> phi l = dest a -> l = dest a.

Lemma nprogress_refl stk f g : (forall x, g x = f x) -> nprogress stk f g.
Proof. intros E. split; [by intros x; rewrite E|]. by exists (fun l => l). Qed.

Lemma nprogress_trans stk f g h : nprogress stk f g -> nprogress stk g h -> nprogress stk f h.
Proof.
  intros [H1 (phi & P1 & P2)] [H1' (phi' & P1' & P2')]. split; [auto|].
  exists (fun l => phi' (phi l)). split.
  - intros x Hx. rewrite P1' by done. f_equal. apply P1. intros E. by apply Hx, H1'.
  - intros a l Ha E. apply (P2 a l Ha). by apply (P2' a).
Qed.

Lemma nprogress_sub stk stk' f g : (forall a, a ∈ stk' -> a ∈ stk) -> nprogress stk f g -> nprogress stk' f g.
Proof. intros Hs [H1 (phi & P1 & P2)]. split; [done|]. exists phi. eauto. Qed.

Lemma nprogress_redirected i from to stk f f' : from <> NoLocation ->
  redirected i from to f f' -> (forall a, a ∈ stk -> to <> dest a) -> nprogress stk f f'.
Proof.
  intros Hf Hr Ha. split.
  - intros x E. rewrite Hr. destruct (decide (i = x)); [done|]. by rewrite decide_False by congruence.
  - exists (fun l => if decide (l = from) then to else l). split.
    + intros x. rewrite Hr. by destruct (decide (i = x)).
    + intros a l Hin. destruct (decide (l = from)); [|done]. intros E. by destruct (Ha a Hin).
Qed.

Lemma perform_pending_S fuel index source : perform_pending (S fuel) index source =
  (do st <- sget (fun st => st);
   match GetUnblockedPendingMove st source with
   | None => sret tt
   | Some (k, pending_move) =>
       DeletePendingMove k ;;
       ns_change index (fun m => SetDestination (destination_ pending_move)
                                   (SetSource (source_ pending_move) m)) ;;
       ns_emit index ;;
       ns_change index Eliminate ;;
       UpdateMoveSource (source_ pending_move) (destination_ pending_move) ;;
       do st <- sget (fun st => st);
       free_scratches (S (length (scratches_ st))) 0 (source_ pending_move) ;;
       perform_pending fuel index source
   end)%sm.
Proof. reflexivity. Qed.

Lemma perform_pending_none fuel (st : NoSwap B) stk pend i from : ninv st stk pend -> used from ->
  (forall l k t, pend = Some (l, k, t) -> dest k <> from) ->
  runs (perform_pending (S fuel) i from) st (fun _ st' => st' = st).
Proof.
  intros Hi Hf Hp. cbn. apply runs_bind, runs_get. unfold GetUnblockedPendingMove.
  rewrite (ni_list _ _ _ Hi). destruct pend as [[[l k] t]|]; cbn; [|by apply runs_ret].
  destruct (ti_pending _ _ _ (ni_tidy _ _ _ Hi) l k t eq_refl) as (Hk & _).
  rewrite used_overlaps by auto using used_dest. rewrite bool_decide_eq_false_2 by (by eapply Hp).
  by apply runs_ret.
Qed.

(** The move at [i] read [from], which nothing else reads: the pending move that writes it, if
    there is one, is emitted. *)
Lemma perform_pending_ok (st : NoSwap B) stk pend i from : ninv st stk pend -> used from ->
  i ∉ stk -> (i < n)%nat -> src (ns_moves st) i = NoLocation ->
  (forall x, src (ns_moves st) x <> from) ->
  runs (perform_pending (S (length (pending_moves_ st))) i from) st (fun _ st' =>
    exists pend', ninv st' stk pend' /\ src (ns_moves st') i = NoLocation
    /\ nprogress stk (src (ns_moves st)) (src (ns_moves st'))
    /\ (pend' = None \/ (st' = st /\ pend' = pend /\ forall l k t, pend = Some (l, k, t) -> dest k <> from))).
Proof.
  intros Hi Hf Hn Hlt Hdi Hfree.
  assert ((exists l k t, pend = Some (l, k, t) /\ dest k = from)
    \/ forall l k t, pend = Some (l, k, t) -> dest k <> from) as [Hex|Hne].
  { destruct pend as [[[l k] t]|]; [|by right]. destruct (decide (dest k = from)); [left; eauto|].
    right. by intros ? ? ? [= <- <- <-]. }
  2:{ eapply runs_mono; [by apply (perform_pending_none _ st stk pend)|].
      intros _ st' ->. exists pend. split_and!; auto using nprogress_refl. }
  destruct Hex as (l & k & t & -> & <-).
  destruct (ti_pending _ _ _ (ni_tidy _ _ _ Hi) l k t eq_refl) as (Hk & Hdk & Hul & Hlk).
  assert (IsBlockedByMoves st (dest k) = false) as Hb.
  { apply not_true_is_false. rewrite (blocked_spec st stk (Some (l, k, t))) by done.
    intros [[x Hx]|(k' & t' & [= E _ _])]; [by apply (Hfree x)|done]. }
  rewrite (ni_list _ _ _ Hi). cbn [pending_list length].
  rewrite perform_pending_S.
  apply runs_bind, runs_get. unfold GetUnblockedPendingMove. rewrite (ni_list _ _ _ Hi). cbn -[free_scratches perform_pending].
  rewrite used_overlaps, bool_decide_eq_true_2, Hb by done. cbn [andb negb].
  apply runs_bind, runs_mod. apply runs_bind, runs_mod.
  destruct (lookup_lt_is_Some_2 (ns_moves st) i) as [m Hm]; [by rewrite (ni_length _ _ _ Hi)|].
  apply runs_bind. eapply runs_ns_emit; [cbn; by rewrite list_lookup_alter_eq, Hm|]. cbn -[free_scratches perform_pending].
  apply runs_bind, runs_mod. apply runs_bind, runs_mod. apply runs_bind, runs_get. cbn -[free_scratches perform_pending].
  rewrite alter_eliminate by done.
  match goal with |- runs _ ?s _ => destruct (ninv_pending st s stk i l k t) as [Hi' Hr]; auto end.
  { cbn. by rewrite (ni_list _ _ _ Hi). }
  apply runs_bind. eapply runs_mono; [by apply (free_all _ _ stk None); [..|cbn; lia]|].
  intros _ st' [Hi2 Em]. cbn in Em. eapply runs_mono; [by apply (perform_pending_none _ st' stk None)|].
  intros _ st2 ->. exists None. split; [done|]. rewrite Em. split; [by rewrite Hr, decide_True|].
  split; [|by left]. destruct (used_valid _ Hul) as (Hlv & _).
  apply (nprogress_redirected i l (dest k)); [done..|]. intros a Ha E.
  apply dest_inj in E as ->; [|done]. by destruct (ti_stack _ _ _ (ni_tidy _ _ _ Hi) a Ha) as (_ & _ & ?).
Qed.

(** ** Marking moves *)
Lemma src_destination l i (ms : list MoveOperands) j : src (alter (SetDestination l) i ms) j = src ms j.
Proof.
  rewrite src_alter. destruct (decide (i = j)) as [->|]; [|done]. unfold src. by destruct (ms !! j).
Qed.

Lemma tidy_ext f g stk pend : (forall i, f i = g i) -> tidy f stk pend -> tidy g stk pend.
Proof. intros E [H1 H2 H3 H4 H5]. constructor; intros; repeat rewrite <- E in *; eauto. Qed.
Lemma holding_ext f g pend s : (forall i, f i = g i) -> holding f pend s -> holding g pend s.
Proof. intros E [H1 H2 H3 H4]. constructor; intros; repeat rewrite <- E in *; eauto. Qed.

(** A change of destinations and of the stack. *)
Lemma ninv_restack st stk stk' pend l i : ninv st stk pend -> NoDup stk' ->
  (forall p, p ∈ stk' -> (p < n)%nat /\ constant p = false /\ src (ns_moves st) p <> NoLocation) ->
  shaped stk' (alter (SetDestination l) i (ns_moves st)) ->
  ninv (set_moves (alter (SetDestination l) i (ns_moves st)) st) stk' pend.
Proof.
  intros Hi Hnd Hst Hsh. pose proof (fun j => eq_sym (src_destination l i (ns_moves st) j)) as E.
  constructor; cbn; auto; try apply Hi.
  - rewrite length_alter. apply Hi.
  - eapply tidy_ext; [exact E|]. destruct (ni_tidy _ _ _ Hi). by constructor.
  - intros t x Ht Hx. apply (ni_live _ _ _ Hi t x Ht). by rewrite <- Hx, src_destination.
  - eapply holding_ext; [exact E|]. apply Hi.
Qed.

Lemma ninv_mark st stk pend i : ninv st stk pend -> nopen st i -> i ∉ stk ->
  ninv (set_moves (alter (SetDestination NoLocation) i (ns_moves st)) st) (i :: stk) pend.
Proof.
  intros Hi Hop Hn. pose proof (ni_tidy _ _ _ Hi) as Ht. apply (ninv_restack st stk); auto.
  - constructor; [done|]. apply Ht.
  - intros p [->|Hp]%elem_of_cons; [done|]. by apply (ti_stack _ _ _ Ht).
  - intros j m Hm. destruct (decide (i = j)) as [->|Hne].
    + rewrite list_lookup_alter_eq in Hm. apply fmap_Some in Hm as (m' & _ & ->). cbn.
      rewrite decide_True; [done|]. left. set_solver.
    + rewrite list_lookup_alter_ne in Hm by done. rewrite (ni_shape _ _ _ Hi j m Hm).
      repeat destruct (decide _); set_solver.
Qed.

Lemma ninv_unmark st stk pend i : ninv st (i :: stk) pend ->
  ninv (set_moves (alter (SetDestination (dest i)) i (ns_moves st)) st) stk pend /\ i ∉ stk /\ nopen st i.
Proof.
  intros Hi. pose proof (ni_tidy _ _ _ Hi) as Ht. pose proof (ti_nodup _ _ _ Ht) as Hnd.
  apply NoDup_cons in Hnd as [Hn Hnd]. assert (nopen st i) as Hop by (apply (ti_stack _ _ _ Ht); set_solver).
  split; [|done]. apply (ninv_restack st (i :: stk)); auto.
  - intros p Hp. apply (ti_stack _ _ _ Ht). set_solver.
  - intros j m Hm. destruct (decide (i = j)) as [->|Hne].
    + rewrite list_lookup_alter_eq in Hm. apply fmap_Some in Hm as (m' & Hm' & ->). cbn.
      rewrite decide_False; [done|]. intros [?|E]; [done|]. apply Hop. unfold src. by rewrite Hm'.
    + rewrite list_lookup_alter_ne in Hm by done. rewrite (ni_shape _ _ _ Hi j m Hm).
      repeat destruct (decide _); set_solver.
Qed.

(** A move whose source is its destination is dropped. *)
Lemma ninv_drop (st : NoSwap B) stk pend i : ninv st stk pend -> nopen st i -> i ∉ stk ->
  src (ns_moves st) i = dest i -> ninv (set_moves (alter Eliminate i (ns_moves st)) st) stk pend.
Proof.
  intros Hi (Hlt & Hc & Hl) Hn E. pose proof (ni_tidy _ _ _ Hi) as Ht. pose proof (ni_holding _ _ _ Hi) as Hh.
  constructor; cbn; try apply Hi.
  - rewrite length_alter. apply Hi.
  - apply shaped_eliminate. exact (ni_shape _ _ _ Hi).
  - constructor.
    + apply Ht.
    + intros p Hp. rewrite src_eliminate, decide_False by (by intros ->). by apply (ti_stack _ _ _ Ht).
    + intros x Hx. rewrite src_eliminate. destruct (decide _); [by left|]. by apply (ti_constant _ _ _ Ht).
    + intros x Hx. rewrite src_eliminate. destruct (decide _); [done|]. by apply (ti_used _ _ _ Ht).
    + intros l k t Ep. destruct (ti_pending _ _ _ Ht l k t Ep) as (? & Hk & ?). split_and!; try tauto.
      rewrite src_eliminate. by destruct (decide _).
  - intros t x Hte Hx. rewrite src_eliminate in Hx. destruct (decide _); [|by apply (ni_live _ _ _ Hi t x)].
    subst t. by apply temp_place in Hte.
  - constructor.
    + intros x Hx. rewrite src_eliminate. destruct (decide _); [done|]. by apply (ho_live _ _ _ Hh).
    + apply (ho_pending _ _ _ Hh).
    + intros x Hx. rewrite src_eliminate. destruct (decide (i = x)) as [<-|].
      * intros _ _. rewrite <- E. by apply (ho_live _ _ _ Hh).
      * by apply (ho_done _ _ _ Hh).
    + apply (ho_frame _ _ _ Hh).
Qed.

(** ** Performing a move *)

(** A pending move writes what a move of the stack still reads, from a location no move of the
    stack writes, and nothing reads the destination of the top of the stack any more. *)
Definition waiting (stk : list nat) (f : nat -> Location) (pend : pending) : Prop :=
  forall l k t, pend = Some (l, k, t) ->
  (exists p, p ∈ stk /\ f p = dest k) /\ (forall a, a ∈ stk -> l <> dest a)
  /\ (forall c x, head stk = Some c -> f x <> dest c).

Definition nperformed (st : NoSwap B) (stk : list nat) (m : nat) (st' : NoSwap B) : Prop :=
  exists pend, ninv st' stk pend /\ nprogress stk (src (ns_moves st)) (src (ns_moves st'))
  /\ src (ns_moves st') m = NoLocation /\ waiting stk (src (ns_moves st')) pend.

(** Before the loop over the blocking moves passes [i]. *)
Definition nscanned (st : NoSwap B) (stk : list nat) (m : nat) (i : nat) (st' : NoSwap B) : Prop :=
  exists pend, ninv st' (m :: stk) pend /\ nprogress (m :: stk) (src (ns_moves st)) (src (ns_moves st'))
  /\ waiting (m :: stk) (src (ns_moves st')) pend
  /\ forall x, (x < i)%nat -> x ∉ m :: stk -> src (ns_moves st') x <> dest m.

(** Once the source of [m] is redirected, nothing reads what the caller of [m] writes. *)
Lemma caller_unblocked m c stk f0 f f' to : c ∈ stk -> (c < n)%nat ->
  nprogress (m :: stk) f0 f -> f m <> NoLocation -> f0 m = dest c -> to <> dest c ->
  redirected m (f m) to f f' -> forall x, f' x <> dest c.
Proof.
  intros Hc Hlt [_ (phi & P1 & P2)] Hl E0 Hto Hr x Hx.
  destruct (used_valid _ (used_dest c Hlt)) as (Hv & _). rewrite Hr in Hx.
  destruct (decide (m = x)); [congruence|]. destruct (decide (f x = f m)) as [|Hne]; [done|].
  apply Hne. rewrite (P1 m Hl), E0, (P1 x) by congruence. f_equal.
  apply (P2 c); [set_solver|]. rewrite <- P1; [done|congruence].
Qed.

Section Resolve.
Context (st0 st : NoSwap B) (stk : list nat) (m : nat) (pend : pending).
Context (Hprog : nprogress (m :: stk) (src (ns_moves st0)) (src (ns_moves st))).
Context (Hi : ninv st stk pend) (Hn : m ∉ stk) (Hop : nopen st m).
Context (Hhead : forall c, head stk = Some c -> src (ns_moves st0) m = dest c).
Context (Hne : src (ns_moves st) m <> dest m).
Context (Hwait : waiting (m :: stk) (src (ns_moves st)) pend).

Lemma stack_bound a : a ∈ stk -> (a < n)%nat /\ a <> m.
Proof. intros Ha. split; [by apply (ti_stack _ _ _ (ni_tidy _ _ _ Hi))|]. by intros ->. Qed.

Lemma finish_move (st1 : NoSwap B) pend1 to : ninv st1 stk pend1 ->
  redirected m (src (ns_moves st) m) to (src (ns_moves st)) (src (ns_moves st1)) ->
  to <> src (ns_moves st) m -> (forall a, a ∈ stk -> to <> dest a) ->
  (forall l k t, pend1 = Some (l, k, t) -> dest k <> src (ns_moves st) m ->
    (exists p, p ∈ stk /\ src (ns_moves st1) p = dest k) /\ (forall a, a ∈ stk -> l <> dest a)) ->
  runs (perform_pending (S (length (pending_moves_ st1))) m (src (ns_moves st) m)) st1
    (fun _ => nperformed st0 stk m).
Proof.
  intros Hi1 Hr Hto Hta Hp1. destruct Hop as (Hlt & Hc & Hl).
  destruct (ti_used _ _ _ (ni_tidy _ _ _ Hi) m Hc Hl) as [_ Hu].
  assert (src (ns_moves st1) m = NoLocation) as Hd1 by (by rewrite Hr, decide_True).
  eapply runs_mono.
  { apply (perform_pending_ok st1 stk pend1); auto. intros x. rewrite Hr.
    destruct (decide (m = x)); [congruence|]. by destruct (decide _). }
  intros _ st2 (pend2 & Hi2 & Hd2 & Hpr2 & Hcase). exists pend2. split; [done|]. split.
  { eapply nprogress_trans; [|done]. eapply nprogress_trans; [by eapply nprogress_sub; [|done]; set_solver|].
    by apply (nprogress_redirected m (src (ns_moves st) m) to). }
  split; [done|]. destruct Hcase as [->|(-> & -> & Hk)]; [done|]. intros l k t E.
  destruct (Hp1 l k t E (Hk l k t E)) as [Hp Ha]. split; [done|]. split; [done|].
  intros c x Hc0. pose proof (head_in _ _ Hc0) as Hin. destruct (stack_bound c Hin) as [Hltc _].
  eapply (caller_unblocked m c stk); eauto.
Qed.

Lemma resolve_unblocked : IsBlockedByMoves st (dest m) = false ->
  runs (ns_emit m ;; ns_change m Eliminate ;; UpdateMoveSource (src (ns_moves st) m) (dest m))%sm st
    (fun _ st1 => runs (perform_pending (S (length (pending_moves_ st1))) m (src (ns_moves st) m)) st1
       (fun _ => nperformed st0 stk m)).
Proof.
  intros Hb. destruct (nopen_lookup st stk pend m Hi Hop) as (mv & Hm & Hs & Hd & _).
  rewrite decide_False in Hd by done. apply runs_bind, (runs_ns_emit m mv); [done|].
  apply runs_bind, runs_mod, runs_mod. rewrite Hs, Hd.
  match goal with |- runs _ ?s _ => destruct (ninv_emit st s stk pend m) as [Hi1 Hr]; auto end.
  eapply finish_move; [exact Hi1|exact Hr|done|..].
  - intros a Ha E. destruct (stack_bound a Ha) as [? Hne']. apply Hne'. symmetry. apply dest_inj; [|done].
    apply Hop.
  - intros l k t E Hk. destruct (Hwait l k t E) as ((p & Hp & Ep) & Ha & _). split; [|set_solver].
    apply elem_of_cons in Hp as [->|Hp]; [congruence|]. exists p. split; [done|]. rewrite Hr.
    destruct (stack_bound p Hp) as [_ Hpm]. rewrite decide_False, decide_False by congruence. done.
Qed.

(** The sources are as the code generator may assume them. *)
Lemma sources_placed mv : mv ∈ ns_moves st ++ pending_moves_ st ->
  source_ mv = NoLocation \/ IsConstant (source_ mv) \/ used (source_ mv).
Proof.
  intros [Hm|Hm]%elem_of_app.
  - apply list_elem_of_lookup_1 in Hm as [x Hx]. pose proof (live_cases st stk pend x Hi) as H.
    unfold src in H. by rewrite Hx in H.
  - rewrite (ni_list _ _ _ Hi) in Hm. destruct pend as [[[l k] t]|] eqn:E; [|by apply not_elem_of_nil in Hm].
    apply list_elem_of_singleton in Hm as ->. right. right. by apply (ti_pending _ _ _ (ni_tidy _ _ _ Hi) l k t).
Qed.

Lemma sources_temps mv t : pend = None -> mv ∈ ns_moves st ++ pending_moves_ st -> temp t ->
  ~ overlap (source_ mv) t.
Proof.
  intros Epend Hm Ht Ho. assert (used t) as Hut by (split; [by apply temp_place|auto]).
  assert (source_ mv = t) as E.
  { destruct (sources_placed mv Hm) as [E|[Hc|Hu]].
    - rewrite E in Ho. by apply overlap_none_l in Ho.
    - apply overlap_spec in Ho as (c & Hcc & _). destruct (source_ mv); try done. cbn in Hcc. set_solver.
    - by apply (sp_atoms Hsp). }
  rewrite (ni_list _ _ _ Hi), Epend in Hm. cbn in Hm. rewrite app_nil_r in Hm.
  apply list_elem_of_lookup_1 in Hm as [x Hx].
  destruct (ni_live _ _ _ Hi t x Ht) as (k & ty & E'); [unfold src; by rewrite Hx|congruence].
Qed.

Lemma resolve_through_scratch ty : pend = None ->
  (forall x, x ∉ m :: stk -> src (ns_moves st) x <> dest m) -> IsBlockedByMoves st (dest m) = true ->
  runs (do scratch <- AllocateScratchLocationFor (GetKind (src (ns_moves st) m));
        ns_change m (SetDestination scratch) ;; ns_emit m ;; ns_change m Eliminate ;;
        UpdateMoveSource (src (ns_moves st) m) scratch ;; AddPendingMove scratch (dest m) ty)%sm st
    (fun _ st1 => runs (perform_pending (S (length (pending_moves_ st1))) m (src (ns_moves st) m)) st1
       (fun _ => nperformed st0 stk m)).
Proof.
  intros Epend Hscan Hb. destruct (nopen_lookup st stk pend m Hi Hop) as (mv & Hm & Hs & Hd & _ & _ & Hu).
  rewrite Hs in Hu. pose proof Hop as (Hlt & Hc & Hl). pose proof (used_dest m Hlt) as Hud.
  apply runs_bind. eapply runs_mono.
  { apply allocate_ok; [by apply (sp_kind Hsp)|apply Hi| |intros mv' t; by apply sources_temps].
    intros mv' Hmv'. destruct (sources_placed mv' Hmv') as [?|[?|[? _]]]; auto. }
  intros l st' (Em & Ep & Ec & Hrd & Hpl & Hbl & Hscr & Hsub & Hfit).
  apply runs_bind. apply runs_mod. apply runs_bind.
  eapply runs_ns_emit; [cbn; by rewrite Em, list_lookup_alter_eq, Hm|].
  apply runs_bind, runs_mod. apply runs_bind, runs_mod. apply runs_mod.
  cbn [ns_moves set_moves set_pending pending_moves_ scratches_ ns_code backend_ source_ destination_ SetDestination].
  rewrite Em, Ec, Hs, alter_eliminate by done.
  assert (exists p, p ∈ stk /\ src (ns_moves st) p = dest m) as (p & Hp & Ep').
  { apply (blocked_spec st stk pend) in Hb as [[x Hx]|(k & t & E)]; [|by rewrite Epend in E|done..].
    exists x. split; [|done]. destruct (decide (x = m)) as [->|]; [done|].
    destruct (decide (x ∈ stk)); [done|]. exfalso. apply (Hscan x); [set_solver|done]. }
  pose proof Hi as Hi0. rewrite Epend in Hi0.
  match goal with |- runs (perform_pending (S (length ?ps)) _ _) ?s _ =>
    change ps with (pending_moves_ s);
    destruct (ninv_scratch st s stk m l ty) as (Hi1 & Hr & Hlm & Hla); auto end.
  { intros v. by apply Hfit. }
  { cbn. by rewrite Ep, (ni_list _ _ _ Hi0). }
  eapply finish_move; [exact Hi1|exact Hr| |done|].
  - intros ->. apply (not_true_iff_false (IsBlockedByMoves st (src (ns_moves st) m))) in Hbl.
    apply Hbl, (blocked_spec st stk None); eauto.
  - intros l' k t [= <- <- <-] Hk. split; [|done]. exists p. split; [done|]. rewrite Hr.
    destruct (stack_bound p Hp) as [_ Hpm]. rewrite decide_False, decide_False by congruence. done.
Qed.
End Resolve.

Lemma waiting_ext stk f g pend : (forall x, g x = f x) -> waiting stk f pend -> waiting stk g pend.
Proof.
  intros E H l k t Ep. destruct (H l k t Ep) as ((p & Hp & Ek) & Ha & Hc). split_and!; [|done|].
  - exists p. by rewrite E.
  - intros c x. rewrite E. eauto.
Qed.

(** A destination of the stack that nothing reads when a move is pending. *)
Lemma blocked_settled st m stk pend stk' : ninv st stk' pend -> (m < n)%nat ->
  waiting (m :: stk) (src (ns_moves st)) pend -> IsBlockedByMoves st (dest m) = true -> pend = None.
Proof.
  intros Hi Hlt Hw Hb. destruct pend as [[[l k] t]|]; [|done]. exfalso.
  destruct (Hw l k t eq_refl) as (_ & Ha & Hc). pose proof (used_dest m Hlt) as Hud.
  apply (blocked_spec st stk' _ _ Hi Hud) in Hb as [[x Hx]|(k' & t' & [= E _ _])].
  - by apply (Hc m x).
  - apply (Ha m); [set_solver|done].
Qed.

Lemma resolve_with_scratch_ok st0 st stk m : nscanned st0 stk m n st ->
  (forall c, head stk = Some c -> src (ns_moves st0) m = dest c) -> src (ns_moves st0) m <> dest m ->
  runs (resolve_with_scratch m (dest m)) st (fun _ => nperformed st0 stk m).
Proof.
  intros (pend & Hi & Hpr & Hw & Hscan) Hhead Hne0.
  destruct (ninv_unmark st stk pend m Hi) as (Hi1 & Hn & Hop).
  pose proof (src_destination (dest m) m (ns_moves st)) as Esrc.
  destruct (nopen_lookup st (m :: stk) pend m Hi Hop) as (mv & Hm & Hs & _ & _ & Hp & Hu).
  set (st1 := set_moves (alter (SetDestination (dest m)) m (ns_moves st)) st) in *.
  assert (nopen st1 m) as Hop1 by (destruct Hop as (? & ? & ?); split_and!; [done..|]; cbn; by rewrite Esrc).
  assert (src (ns_moves st1) m <> dest m) as Hne.
  { cbn. rewrite Esrc. destruct Hpr as [_ (phi & P1 & P2)]. intros E.
    apply Hne0, (P2 m); [set_solver|]. rewrite <- P1; [done|apply Hop]. }
  assert (nprogress (m :: stk) (src (ns_moves st0)) (src (ns_moves st1))) as Hpr1.
  { eapply nprogress_trans; [exact Hpr|]. by apply nprogress_refl. }
  pose proof (waiting_ext _ _ (src (ns_moves st1)) _ Esrc Hw) as Hw1.
  apply runs_bind, runs_bind, (runs_ns_move_at m mv); [done|].
  apply runs_bind, runs_ns_check; [by rewrite Hp, bool_decide_eq_true_2 by set_solver|].
  apply runs_mod. fold st1. destruct (nopen_lookup st1 stk pend m Hi1 Hop1) as (mv1 & Hm1 & Hs1 & Hd1 & He1 & _ & Hu1).
  rewrite decide_False in Hd1 by done. pose proof Hop as (Hlt & _).
  destruct (used_valid _ (used_dest m Hlt)) as (_ & Hdv & _), (used_valid _ Hu1) as (_ & _ & Hsc).
  apply runs_bind, (runs_ns_move_at m mv1); [done|]. apply runs_bind, runs_ns_check.
  { unfold IsRedundant. rewrite He1, Hd1, Hdv, Hs1. unfold Equals. by rewrite bool_decide_eq_false_2. }
  apply runs_bind, runs_get. rewrite Hs1 in *. apply runs_bind.
  destruct (IsBlockedByMoves st1 (dest m)) eqn:Hb.
  - pose proof (blocked_settled st1 m stk pend stk Hi1 Hlt Hw1 Hb) as ->.
    apply runs_bind, runs_ns_check; [by destruct (src (ns_moves st1) m)|].
    eapply runs_mono; [eapply (resolve_through_scratch st0 st1 stk m None); eauto|].
    + intros x Hx. cbn. rewrite Esrc. destruct (decide (x < n)%nat); [by apply Hscan|].
      unfold src. rewrite lookup_ge_None_2 by (rewrite (ni_length _ _ _ Hi); lia). cbn.
      intros E. by rewrite <- E in Hdv.
    + intros u st2 H2. by apply runs_bind, runs_get.
  - eapply runs_mono; [eapply (resolve_unblocked st0 st1 stk m pend); eauto|].
    intros u st2 H2. by apply runs_bind, runs_get.
Qed.

(** ** The recursion *)
Definition nperform_ok (fuel : nat) : Prop := forall st stk m, ninv st stk None -> nopen st m -> m ∉ stk ->
  (forall c, head stk = Some c -> src (ns_moves st) m = dest c) -> (n - length stk <= fuel)%nat ->
  runs (NoSwapPerformMove fuel m) st (fun _ => nperformed st stk m).

Lemma scan_skip st0 stk m i st : nscanned st0 stk m i st ->
  (i ∉ m :: stk -> src (ns_moves st) i <> dest m) -> nscanned st0 stk m (S i) st.
Proof.
  intros (pend & Hi & Hpr & Hw & Hs) Hx. exists pend. split_and!; [done..|].
  intros x Hlt Hn. destruct (decide (x = i)) as [->|]; [auto|]. apply Hs; [lia|done].
Qed.

Lemma scan_call st0 stk m i st st' : (m < n)%nat -> nscanned st0 stk m i st ->
  nperformed st (m :: stk) i st' -> nscanned st0 stk m (S i) st'.
Proof.
  intros Hlt (pend & Hi & Hpr & Hw & Hs) (pend' & Hi' & Hpr' & Hd & Hw').
  exists pend'. split_and!; [done|by eapply nprogress_trans|done|].
  intros x Hx Hn E. destruct (used_valid _ (used_dest m Hlt)) as (Hv & _).
  destruct (decide (x = i)) as [->|]; [congruence|]. destruct Hpr' as [_ (phi & P1 & P2)].
  apply (Hs x); [lia|done|]. apply (P2 m); [set_solver|]. rewrite <- P1; congruence.
Qed.

(** What the loop tests of a move. *)
Lemma blocker_test st stk pend m i mv : ninv st stk pend -> (m < n)%nat -> ns_moves st !! i = Some mv ->
  Blocks mv (dest m) && negb (IsPending mv) = bool_decide (src (ns_moves st) i = dest m /\ i ∉ stk)
  /\ (src (ns_moves st) i = dest m -> nopen st i).
Proof.
  intros Hi Hlt Hm. pose proof (used_dest m Hlt) as Hud. destruct (used_valid _ Hud) as (Hv & _ & Hcd).
  assert (src (ns_moves st) i = dest m -> nopen st i) as Hop.
  { intros E. split_and!; [rewrite <- (ni_length _ _ _ Hi); by eapply lookup_lt_Some| |congruence].
    destruct (constant i) eqn:Hc; [|done]. exfalso.
    destruct (ti_constant _ _ _ (ni_tidy _ _ _ Hi) i) as [?|E']; [by rewrite Hc|congruence|].
    unfold ParallelMoveGraph.constant in Hc. rewrite <- E', E in Hc. by rewrite Hcd in Hc. }
  split; [|done]. rewrite (Blocks_at st stk pend i) by done.
  destruct (bool_decide_reflect (src (ns_moves st) i = dest m)) as [E|E].
  - destruct (nopen_lookup st stk pend i Hi (Hop E)) as (mv' & Hm' & _ & _ & _ & Hp & _).
    assert (mv' = mv) as -> by congruence. rewrite Hp. apply eq_true_iff_eq.
    rewrite andb_true_l, negb_true_iff, bool_decide_eq_false, bool_decide_eq_true. tauto.
  - symmetry. apply bool_decide_eq_false_2. tauto.
Qed.

Lemma for_blockers_ok fuel st0 stk m : nperform_ok fuel -> (m < n)%nat -> (n - S (length stk) <= fuel)%nat ->
  forall k i st, (i + k = n)%nat -> nscanned st0 stk m i st ->
  runs (for_blockers (NoSwapPerformMove fuel) (dest m) (seq i k)) st (fun _ => nscanned st0 stk m n).
Proof.
  intros Hok Hlt Hfuel k. induction k as [|k IH]; intros i st Hik Hsc.
  - apply runs_ret. by replace n with i by lia.
  - pose proof Hsc as (pend & Hi & _ & Hw & _).
    destruct (lookup_lt_is_Some_2 (ns_moves st) i) as [mv Hm]; [rewrite (ni_length _ _ _ Hi); lia|].
    destruct (blocker_test st (m :: stk) pend m i mv Hi Hlt Hm) as [Ht Hop].
    cbn [seq for_blockers]. apply runs_bind, (runs_ns_move_at i mv); [done|]. rewrite Ht. apply runs_bind.
    destruct (bool_decide_reflect (src (ns_moves st) i = dest m /\ i ∉ m :: stk)) as [[E Hn]|Hno].
    + assert (pend = None) as ->.
      { destruct pend as [[[l p] t]|]; [|done]. exfalso. destruct (Hw l p t eq_refl) as (_ & _ & Hc).
        by apply (Hc m i). }
      eapply runs_mono; [apply (Hok st (m :: stk) i); auto|].
      * by intros c [= <-].
      * intros u st' Hp. apply IH; [lia|]. by apply (scan_call st0 stk m i st).
    + apply runs_ret, IH; [lia|]. apply scan_skip; [done|]. tauto.
Qed.

Lemma NoSwapPerformMove_S fuel index : NoSwapPerformMove (S fuel) index =
  (do move <- ns_move_at index;
   ns_check (negb (IsPending move)) ;;
   ns_check (negb (IsEliminated move)) ;;
   if IsRedundant move then ns_change index Eliminate
   else
     ns_check (negb (IsInvalid (source_ move))) ;;
     do destination <- ns_mark index;
     do st <- sget (fun st => st);
     for_blockers (NoSwapPerformMove fuel) destination (seq 0 (length (ns_moves st))) ;;
     resolve_with_scratch index destination)%sm.
Proof. reflexivity. Qed.

Lemma nperform_redundant st stk m : ninv st stk None -> nopen st m -> m ∉ stk ->
  src (ns_moves st) m = dest m ->
  nperformed st stk m (set_moves (alter Eliminate m (ns_moves st)) st).
Proof.
  intros Hi Hop Hn E. exists None. split_and!; [by apply ninv_drop| |cbn; by rewrite src_eliminate, decide_True|done].
  split.
  - intros x Hx. cbn. rewrite src_eliminate. by destruct (decide _).
  - exists (fun l => l). split; [|done]. intros x. cbn. rewrite src_eliminate. by destruct (decide _).
Qed.

Lemma nperform_step fuel : nperform_ok fuel -> nperform_ok (S fuel).
Proof.
  intros Hok st stk m Hi Hop Hn Hhead Hfuel. pose proof Hop as (Hlt & _).
  destruct (nopen_lookup st stk None m Hi Hop) as (mv & Hm & Hs & Hd & He & Hp & Hu).
  destruct (used_valid _ Hu) as (_ & Hv & _), (used_valid _ (used_dest m Hlt)) as (_ & Hdv & _).
  rewrite decide_False in Hd by done. rewrite bool_decide_eq_false_2 in Hp by done.
  rewrite NoSwapPerformMove_S. apply runs_bind, (runs_ns_move_at m mv); [done|].
  apply runs_bind, runs_ns_check; [by rewrite Hp|]. apply runs_bind, runs_ns_check; [by rewrite He|].
  unfold IsRedundant, Equals. rewrite He, Hd, Hdv, Hs, <- Hs, Hv. cbn [orb].
  destruct (bool_decide_reflect (source_ mv = dest m)) as [E|E]; rewrite Hs in E.
  { apply runs_mod. by apply nperform_redundant. }
  apply runs_bind, runs_ns_check; [done|]. apply runs_bind, runs_bind, (runs_ns_move_at m mv); [done|].
  apply runs_bind, runs_ns_check; [by rewrite Hp|]. apply runs_bind, runs_mod, runs_ret. rewrite Hd.
  apply runs_bind, runs_get. cbn [ns_moves set_moves]. rewrite length_alter, (ni_length _ _ _ Hi).
  apply runs_bind. eapply runs_mono.
  { apply (for_blockers_ok fuel st stk m Hok Hlt); [lia|done|].
    exists None. split_and!; [by apply ninv_mark| |done|intros; lia].
    apply nprogress_refl. intros x. apply src_destination. }
  intros u st' Hsc. by apply resolve_with_scratch_ok.
Qed.

Lemma nperform_all fuel : nperform_ok fuel.
Proof.
  induction fuel as [|fuel IH]; [|by apply nperform_step].
  intros st stk m Hi (Hlt & _) Hn _ Hfuel. exfalso. pose proof (ni_tidy _ _ _ Hi) as Ht.
  assert (length (m :: stk) <= length (seq 0 n))%nat as Hle.
  { apply submseteq_length, NoDup_submseteq; [by constructor; [|apply Ht]|].
    intros x [->|Hx]%elem_of_cons; apply elem_of_seq; [lia|].
    destruct (ti_stack _ _ _ Ht x Hx). lia. }
  rewrite length_seq in Hle. cbn in Hle. lia.
Qed.
End WithSeparable.
End Scratch.
