(* ===== verification/ParallelMoveScratchTheorems.v ===== *)
(** * Theorems about the resolver with scratch locations

    The loops of [ParallelMoveResolverNoSwap::EmitNativeCode] and the theorem about the code it
    emits; the resolver of the unit tests as an instance of the interface, on the machine of
    cells; and a run, outside the theorem's condition, whose code loses a move. *)

From S2P Require Import Prelude DexOpcodes DexInstruction ShadowFrame InterpreterBase ParallelMove ParallelMoveMachine ParallelMoveGraph ParallelMoveSwap ParallelMoveTheorems ParallelMoveScratch ParallelMoveScratchProofs.

(** ** The loops *)
Section Loops.
Context {B : Type} {HB : ScratchBackend B} {M : Machine} {HL : BackendLaws}.
Context (s0 : Mem) (ms0 : list MoveOperands) (Hsp : separable s0 ms0).
Local Abbreviation n := (length ms0).
Local Abbreviation dest := (dest ms0).
Local Abbreviation constant := (constant ms0).
Local Abbreviation live st := (src (ns_moves st)).

(** A loop over indices that keeps [I], each step of which establishes [P] of its index for
    good. *)
Lemma ns_for_each_ok (g : nat -> SM (NoSwap B) unit) (I : NoSwap B -> Prop) (P : nat -> NoSwap B -> Prop) :
  (forall st i, I st -> (i < n)%nat ->
    runs (g i) st (fun _ st' => I st' /\ P i st' /\ forall j, P j st -> P j st')) ->
  forall indices st, Forall (fun i => i < n)%nat indices -> I st ->
  runs (ns_for_each g indices) st
    (fun _ st' => I st' /\ (forall j, P j st -> P j st') /\ Forall (fun i => P i st') indices).
Proof.
  intros Hg indices. induction indices as [|i indices IH]; intros st HF HI.
  - by apply runs_ret.
  - apply Forall_cons in HF as [Hlt HF]. apply runs_bind.
    eapply runs_mono; [by apply Hg|]. intros _ st1 (HI1 & HP1 & Hk1).
    eapply runs_mono; [by apply (IH st1)|]. intros _ st2 (HI2 & Hk2 & HF2). split_and!; auto.
Qed.

(** *** Moves whose source is not a constant *)
Lemma ns_lookup (st : NoSwap B) i : length (ns_moves st) = n -> shaped ms0 [] (ns_moves st) -> (i < n)%nat -> exists m,
  ns_moves st !! i = Some m /\ source_ m = live st i
  /\ IsEliminated m = bool_decide (live st i = NoLocation)
  /\ (live st i <> NoLocation -> destination_ m = dest i).
Proof.
  intros Hlen Hsh Hlt. destruct (lookup_lt_is_Some_2 (ns_moves st) i) as [m Hm]; [by rewrite Hlen|].
  assert (source_ m = live st i) as Hs by (unfold src; by rewrite Hm).
  exists m. split_and!; [done|done| |].
  - unfold IsEliminated. rewrite Hs. by destruct (live st i).
  - intros Hl. rewrite (Hsh i m Hm), decide_False; [done|].
    intros [?%not_elem_of_nil|E]; [done|]. congruence.
Qed.

Lemma ns_perform_move_ok (st : NoSwap B) i : ninv s0 ms0 st [] None -> (i < n)%nat ->
  runs (ns_perform_move n i) st (fun _ st' => ninv s0 ms0 st' [] None
    /\ (constant i = false -> live st' i = NoLocation)
    /\ forall j, (constant j = false -> live st j = NoLocation) -> constant j = false -> live st' j = NoLocation).
Proof.
  intros Hi Hlt. destruct (ns_lookup st i (ni_length _ _ _ _ _ Hi) (ni_shape _ _ _ _ _ Hi) Hlt)
    as (m & Hm & Hs & He & _).
  apply runs_bind, (runs_ns_move_at i m); [done|]. rewrite He, Hs.
  destruct (decide (live st i = NoLocation)) as [E|Hne].
  { rewrite bool_decide_eq_true_2 by done. by apply runs_ret. }
  rewrite bool_decide_eq_false_2 by done. cbn [negb andb].
  assert (IsConstant (live st i) = constant i) as ->.
  { pose proof (ni_tidy _ _ _ _ _ Hi) as Ht. destruct (constant i) eqn:Hc.
    - destruct (ti_constant _ _ _ _ Ht i) as [?|E]; [by rewrite Hc|done|]. by rewrite E.
    - destruct (ti_used _ _ _ _ Ht i Hc Hne) as [_ Hu]. by destruct (used_valid ms0 _ Hu) as (_ & _ & ->). }
  destruct (constant i) eqn:Hc; cbn [negb]; [by apply runs_ret|].
  eapply runs_mono.
  { apply (nperform_all s0 ms0 Hsp n st [] i Hi); [done|set_solver|done|cbn; lia]. }
  intros u st' (pend & Hi' & [Hk _] & Hd & Hw).
  assert (pend = None) as ->.
  { destruct pend as [[[l k] t]|]; [|done]. destruct (Hw l k t eq_refl) as ((p & Hp & _) & _).
    by apply not_elem_of_nil in Hp. }
  split_and!; auto.
Qed.

(** *** Constants *)

(** A constant is still to be read, or is in the destination of a move that is done. *)
Record late (st : NoSwap B) : Prop := mkLate {
  la_length : length (ns_moves st) = n;
  la_shape : shaped ms0 [] (ns_moves st);
  la_live : forall x, live st x = NoLocation \/ IsConstant (live st x)
    \/ exists j, (j < n)%nat /\ live st j = NoLocation /\ live st x = dest j;
  la_pending : pending_moves_ st = [];
  la_holding : holding s0 ms0 (live st) None (exec_all (ns_code st) s0)
}.

Lemma ninv_late (st : NoSwap B) : ninv s0 ms0 st [] None -> (forall x, constant x = false -> live st x = NoLocation) -> late st.
Proof.
  intros Hi Hall. constructor; try apply Hi. intros x. destruct (constant x) eqn:Hc; [|auto].
  destruct (ti_constant _ _ _ _ (ni_tidy _ _ _ _ _ Hi) x) as [E|E]; [by rewrite Hc|by left|].
  right. left. rewrite E. by rewrite <- Is_true_true in Hc.
Qed.

(** The move at [i] is emitted and [f'] are the sources after it. *)
Lemma late_emit (st st' : NoSwap B) i : late st -> (i < n)%nat -> live st i <> NoLocation ->
  length (ns_moves st') = n -> shaped ms0 [] (ns_moves st') ->
  live st' i = NoLocation ->
  (forall x, x <> i -> live st' x = live st x \/ (live st x = live st i /\ live st' x = dest i)) ->
  pending_moves_ st' = pending_moves_ st ->
  ns_code st' = ns_code st ++ [EmitMove (live st i) (dest i)] ->
  late st' /\ (forall x, live st x = NoLocation -> live st' x = NoLocation).
Proof.
  intros [Hlen Hsh Hlive Hp Hh] Hlt Hne Hlen' Hsh' Hdi Hx Ep Ec.
  assert (forall x, live st x = NoLocation -> live st' x = NoLocation) as Hkeep.
  { intros x E. destruct (decide (x = i)) as [->|Hxi]; [done|].
    destruct (Hx x Hxi) as [->|[E' _]]; congruence. }
  split; [|done]. constructor; [done|done| |by rewrite Ep|].
  - intros x. destruct (decide (x = i)) as [->|Hxi]; [by left|].
    destruct (Hx x Hxi) as [->|[_ ->]]; [|right; right; by exists i].
    destruct (Hlive x) as [?|[?|(j & ? & ? & ?)]]; [by left|right; by left|].
    right. right. exists j. auto.
  - rewrite Ec, exec_all_snoc. cbn. pose proof (used_dest s0 ms0 Hsp i Hlt) as Hd.
    assert (get (exec_all (ns_code st) s0) (live st i) = get s0 (src ms0 i)) as Hv by (by apply (ho_live _ _ _ _ _ Hh)).
    apply (holding_write s0 ms0 (live st) _ None); auto; [|by left; eauto|..].
    + rewrite Hv. by apply (sp_fits _ _ Hsp).
    + intros x Hlx Hl. destruct (decide (x = i)) as [->|Hxi]; [done|].
      destruct (Hx x Hxi) as [E|[E ->]].
      * right. split; [done|]. rewrite E in Hl. destruct (Hlive x) as [?|[Hc|(j & _ & Hj & ->)]]; [done| |].
        -- rewrite overlap_spec. destruct (live st x); try done. cbn. set_solver.
        -- apply (sp_apart _ _ Hsp). by intros ->.
      * left. split; [done|]. rewrite <- E. apply (ho_live _ _ _ _ _ Hh); [done|congruence].
    + done.
    + intros x Hlx E _. destruct (decide (x = i)) as [->|Hxi]; [by left|]. right. split_and!.
      * destruct (Hx x Hxi) as [<-|[_ E']]; [done|]. rewrite E' in E.
        by destruct (used_valid ms0 _ Hd).
      * by intros (? & ? & ?).
      * by apply (sp_apart _ _ Hsp).
Qed.

Definition settled (i : nat) (st : NoSwap B) : Prop := live st i = NoLocation.

Lemma ns_register_constant_ok (st : NoSwap B) i : late st -> (i < n)%nat ->
  runs (ns_register_constant i) st (fun _ => late).
Proof.
  intros Hl Hlt. destruct (ns_lookup st i (la_length _ Hl) (la_shape _ Hl) Hlt) as (m & Hm & Hs & He & Hd).
  apply runs_bind, (runs_ns_move_at i m); [done|]. rewrite He.
  destruct (bool_decide_reflect (live st i = NoLocation)) as [E|Hne]; [by apply runs_ret|].
  destruct (negb false && _ && _); [|by apply runs_ret].
  apply runs_bind, (runs_ns_emit i m); [done|]. apply runs_bind, runs_mod, runs_mod.
  pose proof (redirect_sources i (live st i) (dest i) (ns_moves st) Hne) as Hr.
  rewrite Hs, (Hd Hne). apply (late_emit st _ i); auto; cbn.
  - rewrite length_map, length_alter. apply Hl.
  - apply shaped_retarget; [done|by apply (used_valid ms0), (used_dest s0 ms0 Hsp)|].
    apply shaped_eliminate, Hl.
  - etransitivity; [apply Hr|]. by rewrite decide_True.
  - intros x Hx. pose proof (Hr x) as E. rewrite decide_False in E by done. unfold retarget in E.
    rewrite E. destruct (decide _); auto.
Qed.

Lemma ns_rest_ok (st : NoSwap B) i : late st -> (i < n)%nat ->
  runs (ns_rest i) st (fun _ st' => late st' /\ settled i st' /\ forall j, settled j st -> settled j st').
Proof.
  intros Hl Hlt. destruct (ns_lookup st i (la_length _ Hl) (la_shape _ Hl) Hlt) as (m & Hm & Hs & He & Hd).
  apply runs_bind, (runs_ns_move_at i m); [done|]. rewrite He.
  destruct (bool_decide_reflect (live st i = NoLocation)) as [E|Hne]; [by apply runs_ret|].
  apply runs_bind, (runs_ns_emit i m); [done|]. apply runs_mod. rewrite Hs, (Hd Hne).
  assert (live (set_moves (alter Eliminate i (ns_moves st)) st) i = NoLocation) as Hdi
    by (cbn; by rewrite src_eliminate, decide_True).
  match goal with |- late ?s /\ _ => destruct (late_emit st s i) as [Hl' Hk]; auto; cbn end.
  - rewrite length_alter. apply Hl.
  - apply shaped_eliminate, Hl.
  - intros x Hx. left. by rewrite src_eliminate, decide_False.
Qed.

(** *** All the moves *)
Lemma ns_resolve_ok (st : NoSwap B) : ninv s0 ms0 st [] None ->
  runs (ns_resolve n) st (fun _ st' => holding s0 ms0 (fun _ => NoLocation) None (exec_all (ns_code st') s0)).
Proof.
  intros Hi. assert (Forall (fun i => i < n)%nat (seq 0 n)) as Hseq.
  { apply Forall_forall. intros i Hin%elem_of_seq. lia. }
  apply runs_bind, runs_bind. eapply runs_mono.
  { apply (ns_for_each_ok _ (fun st => ninv s0 ms0 st [] None)
      (fun i st => constant i = false -> live st i = NoLocation)); auto using ns_perform_move_ok. }
  intros _ st1 (Hi1 & _ & Hd1). apply runs_bind. eapply runs_mono.
  { apply (ns_for_each_ok _ late (fun _ _ => True)); auto.
    - intros st' i H1 H2. eapply runs_mono; [by apply ns_register_constant_ok|]. auto.
    - apply ninv_late; [done|]. intros x Hx. destruct (decide (x < n)%nat) as [Hlt|Hge].
      + rewrite Forall_forall in Hd1. apply Hd1; [|done]. apply elem_of_seq. lia.
      + unfold src. rewrite lookup_ge_None_2; [done|]. rewrite (ni_length _ _ _ _ _ Hi1). lia. }
  intros _ st2 (Hl2 & _). eapply runs_mono.
  { apply (ns_for_each_ok _ late settled); auto using ns_rest_ok. }
  intros _ st3 (Hl3 & _ & Hd3). apply runs_bind, runs_get, runs_ns_check.
  { by rewrite (la_pending _ Hl3). }
  destruct (la_holding _ Hl3) as [_ _ H3 H4]. constructor; [done|done| |done].
  intros i Hlt _ Hp. apply H3; [done| |done]. rewrite Forall_forall in Hd3. apply Hd3, elem_of_seq. lia.
Qed.

Lemma scratch_initial b : ninv s0 ms0 (mkNoSwap ms0 [] [] [] (PrepareForEmitNativeCode b)) [] None.
Proof.
  assert (forall i, (i < n)%nat -> src ms0 i <> NoLocation) as Hv.
  { intros i Hlt E. destruct (constant i) eqn:Hc.
    - unfold ParallelMoveGraph.constant in Hc. by rewrite E in Hc.
    - pose proof (sp_src _ _ Hsp i Hlt Hc) as Hp. by rewrite E in Hp. }
  constructor; cbn; [done| | |done|apply prepare_ready| |by intros t _ (? & ? & ?)|].
  - intros i m Hm. rewrite decide_False; [unfold ParallelMoveGraph.dest; by rewrite Hm|].
    intros [?%not_elem_of_nil|E]; [done|]. apply (Hv i); [by eapply lookup_lt_Some|].
    unfold src. by rewrite Hm.
  - constructor; [constructor|by intros p ?%not_elem_of_nil|by right| |done].
    intros i Hc Hl. apply src_lt in Hl. split; [done|]. split; [by apply (sp_src _ _ Hsp)|]. eauto.
  - intros t x Ht Hx. destruct (sp_temp _ _ Hsp t x Ht). congruence.
  - constructor; [done|done| |done]. intros i Hlt E. by apply Hv in E.
Qed.
End Loops.

(** ** The resolver *)
Section Correct.
Context {B : Type} {HB : ScratchBackend B} {M : Machine} {HL : BackendLaws}.

(** Every destination has the initial value of its source; what no destination and no temporary
    overlaps is as it was. *)
Definition scratch_assignment (pm : list MoveOperands) (s s' : Mem) : Prop :=
  (forall i m, pm !! i = Some m -> get s' (destination_ m) = get s (source_ m))
  /\ forall l, (forall i, ~ overlap (dest pm i) l) -> (forall t, temp t -> ~ overlap t l) -> get s' l = get s l.

Lemma kept_separable s pm h : separable s pm -> (forall i j, h i = h j -> i = j) ->
  (forall i, BuildInitialMoveList pm !! i = pm !! h i) -> separable s (BuildInitialMoveList pm).
Proof.
  intros [H1 H2 H3 H4 H5 H6 H7] Hinj Hh.
  assert (forall l, used (BuildInitialMoveList pm) l -> used pm l) as Hu.
  { intros l [Hp H]. split; [done|]. destruct H as [[i ->]|[[i ->]|Ht]]; [left|right; left|by auto];
      exists (h i); [by apply kept_src|by apply kept_dest]. }
  constructor; intros *;
    rewrite ?(kept_dest pm h Hh), ?(kept_src pm h Hh), ?(kept_constant pm h Hh); auto using kept_lt.
Qed.

Lemma scratch_resolver b s pm : separable s pm ->
  exists code, NoSwapEmitNativeCode b pm = Some code /\ scratch_assignment pm s (exec_all code s).
Proof.
  intros Hsp. destruct (filter_positions (fun m => negb (IsRedundant m)) pm) as (h & Hinj & Hh).
  pose proof (kept_separable s pm h Hsp Hinj Hh) as Hsp0. unfold NoSwapEmitNativeCode.
  destruct (runs_inv _ _ _ (ns_resolve_ok s _ Hsp0 _ (scratch_initial s _ Hsp0 b))) as (u & st & -> & Hho).
  exists (ns_code st). split; [done|]. destruct Hho as [_ _ Hdone Hframe]. split.
  - intros i m Hm.
    destruct (kept_or_trivial pm h Hh i m (sp_dest _ _ Hsp) (sp_src _ _ Hsp) (sp_apart _ _ Hsp) Hm)
      as [(j & <- & Hlt)|[Heq Hout]].
    + specialize (Hdone j Hlt eq_refl ltac:(by intros (? & ? & ?))).
      rewrite (kept_dest pm h Hh), (kept_src pm h Hh) in Hdone. unfold dest, src in Hdone. by rewrite Hm in Hdone.
    + assert (dest pm i = destination_ m) as Ed by (unfold dest; by rewrite Hm).
      rewrite Heq. apply Hframe; rewrite <- Ed.
      * intros j Ho. destruct (decide (h j = i)) as [E|Hne].
        -- apply Hout in E. unfold dest in Ho. rewrite lookup_ge_None_2 in Ho by done. by apply overlap_none_l in Ho.
        -- rewrite (kept_dest pm h Hh) in Ho. by apply (sp_apart _ _ Hsp (h j) i).
      * intros t Ht Ho. assert (i < length pm)%nat as Hlt by (by eapply lookup_lt_Some).
        destruct (sp_temp _ _ Hsp t i Ht) as [_ []].
        apply (sp_atoms _ _ Hsp); [split; [by apply temp_place|auto]|by apply (used_dest s pm Hsp)|done].
  - intros l Hl Ht. apply Hframe; [|done]. intros i. rewrite (kept_dest pm h Hh). apply Hl.
Qed.

(** C4.  Over any code generator that keeps the laws of scratch locations, for moves whose
    operands coincide or are disjoint, the resolver without swaps passes all its checks (no
    pending move is left at the end), returns, and the moves it emits carry out all the moves at
    once, overwriting nothing but destinations and temporaries. *)
Theorem scratch_resolver_correct b s pm : separable s pm ->
  exists code, NoSwapEmitNativeCode b pm = Some code /\ scratch_assignment pm s (exec_all code s).
Proof. exact (scratch_resolver b s pm). Qed.
End Correct.

(** ** Checking the precondition *)
Section Check.
Context {B : Type} {HB : ScratchBackend B} {M : Machine} {HL : BackendLaws}.
Context (free : Location -> bool) (s : Mem) (pm : list MoveOperands).

(** Operands of one cell, of which [free] are not temporaries. *)
Definition operand (l : Location) : bool := place l && negb (wide l) && free l.
Definition separableb : bool :=
  forallb (fun m => operand (destination_ m) && (IsConstant (source_ m) || operand (source_ m))) pm
  && bool_decide (NoDup (map destination_ pm)).

Context (Htemp : forall t, temp t -> free t = false /\ wide t = false).
Context (Hkind : forall l, place l -> wide l = false -> scratch_kind (GetKind l)).

Lemma operand_facts l : operand l -> place l /\ wide l = false /\ free l.
Proof. unfold operand. rewrite !andb_True, negb_True. destruct (wide l); naive_solver. Qed.

Lemma separableb_sound : separableb = true ->
  (forall i m, pm !! i = Some m -> fits (destination_ m) (get s (source_ m))) -> separable s pm.
Proof.
  unfold separableb. rewrite andb_true_iff, forallb_forall, bool_decide_eq_true. intros [H1 Hnd] Hfits.
  assert (forall i m, pm !! i = Some m -> operand (destination_ m)
    /\ (IsConstant (source_ m) \/ operand (source_ m))) as F.
  { intros i m Hm. specialize (H1 m ltac:(by eapply list_elem_of_In, list_elem_of_lookup_2)).
    by rewrite <- Is_true_true, andb_True, orb_True in H1. }
  assert (forall i, src pm i = NoLocation \/ IsConstant (src pm i) \/ operand (src pm i)) as Fs.
  { intros i. unfold src. destruct (pm !! i) as [m|] eqn:Hm; [right|by left]. apply (F i m Hm). }
  assert (forall i, dest pm i = NoLocation \/ operand (dest pm i)) as Fd.
  { intros i. unfold dest. destruct (pm !! i) as [m|] eqn:Hm; [right|by left]. apply (F i m Hm). }
  assert (forall l, used pm l -> place l /\ wide l = false) as Fu.
  { intros l [Hp H]. split; [done|]. destruct H as [[i ->]|[[i ->]|Ht]]; [| |by apply Htemp].
    - destruct (Fs i) as [E|[E|E]]; [by rewrite E in Hp|by destruct (src pm i)|]. by apply operand_facts.
    - destruct (Fd i) as [E|E]; [by rewrite E in Hp|]. by apply operand_facts. }
  constructor.
  - intros i [m Hm]%lookup_lt_is_Some_2. unfold dest. rewrite Hm. by apply operand_facts, (F i m).
  - intros i [m Hm]%lookup_lt_is_Some_2 Hc. unfold constant, src in *. rewrite Hm in *.
    destruct (F i m Hm) as [_ [Hc'|?]]; [cbn in Hc; by rewrite Hc in Hc'|]. by apply operand_facts.
  - intros i j Hij Ho. destruct (Fd i) as [E|Ei]; [rewrite E in Ho; by apply overlap_none_l in Ho|].
    destruct (Fd j) as [E|Ej]; [rewrite E in Ho; by apply overlap_none_r in Ho|].
    destruct (operand_facts _ Ei) as (Pi & Wi & _), (operand_facts _ Ej) as (Pj & Wj & _).
    apply (narrow_overlap _ _ Pi Pj Wi Wj) in Ho. unfold dest in *.
    destruct (pm !! i) as [m|] eqn:Hm; [|done]. destruct (pm !! j) as [m'|] eqn:Hm'; [|by destruct (destination_ m)].
    apply Hij, (NoDup_lookup _ i j (destination_ m) Hnd); rewrite list_lookup_fmap, ?Hm, ?Hm'; cbn in *; congruence.
  - intros a b Ha%Fu Hb%Fu. apply narrow_overlap; tauto.
  - intros t i Ht. destruct (Htemp t Ht) as [Hf _]. pose proof (temp_place t Ht) as Hp. split; intros ->.
    + destruct (Fs i) as [E|[E|E]]; [by rewrite E in Hp|by destruct (src pm i)|].
      destruct (operand_facts _ E) as (_ & _ & H). by rewrite Hf in H.
    + destruct (Fd i) as [E|E]; [by rewrite E in Hp|].
      destruct (operand_facts _ E) as (_ & _ & H). by rewrite Hf in H.
  - intros l Hl. destruct (Fu l Hl). by apply Hkind.
  - intros i [m Hm]%lookup_lt_is_Some_2. unfold dest, src. cbn. rewrite Hm. by apply (Hfits i).
Qed.
End Check.

(** A location of one cell that no source overlaps is not blocked. *)
Lemma unread {B} (st : NoSwap B) l : place l -> wide l = false ->
  (forall m, m ∈ ns_moves st ++ pending_moves_ st -> source_ m = NoLocation \/ IsConstant (source_ m) \/ place (source_ m)) ->
  (forall m, m ∈ ns_moves st ++ pending_moves_ st -> ~ overlap (source_ m) l) ->
  IsBlockedByMoves st l = false.
Proof.
  intros Hp Hw Hpl Hte.
  assert (forall m, m ∈ ns_moves st ++ pending_moves_ st -> Blocks m l = false) as Hno.
  { intros m Hm. destruct (Blocks m l) eqn:E; [exfalso|done].
    unfold Blocks in E. apply andb_true_iff in E as [_ E]. apply (Hte m Hm).
    destruct (Hpl m Hm) as [Es|[Hc|Hs]].
    - rewrite Es in E. by destruct l.
    - destruct (source_ m); try done. by rewrite OverlapsWith_constant in E.
    - apply OverlapsWith_overlap; [done..| |by rewrite E]. by rewrite Hw. }
  unfold IsBlockedByMoves.
  assert (forall ms, (forall m, m ∈ ms -> m ∈ ns_moves st ++ pending_moves_ st) ->
    existsb (fun m => Blocks m l) ms = false) as Hex.
  { intros ms Hms. apply not_true_is_false. rewrite existsb_exists.
    intros (m & Hin%list_elem_of_In & HB). by rewrite Hno in HB by auto. }
  rewrite !Hex; [done|set_solver..].
Qed.

(** [GetScratchLocation] returns a scratch location or a destination that nothing reads. *)
Lemma GetScratchLocation_spec {B} kind (st : NoSwap B) l : GetScratchLocation kind st = l -> l <> NoLocation ->
  GetKind l = kind /\ IsBlockedByMoves st l = false
  /\ (l ∈ scratches_ st \/ exists m, m ∈ ns_moves st /\ destination_ m = l).
Proof.
  unfold GetScratchLocation. intros <- Hne.
  destruct (List.find _ (scratches_ st)) as [l|] eqn:E1; [|destruct (List.find _ (map _ _)) as [l|] eqn:E2; [|done]].
  - apply find_some in E1 as [Hin%list_elem_of_In [Hk%bool_decide_eq_true Hb%negb_true_iff]%andb_true_iff]. auto.
  - apply find_some in E2 as [Hin%in_map_iff [Hk%bool_decide_eq_true Hb%negb_true_iff]%andb_true_iff].
    destruct Hin as (m & <- & Hm%list_elem_of_In). split_and!; eauto.
Qed.

Lemma runs_add_scratch {B} l (st : NoSwap B) (Q : unit -> NoSwap B -> Prop) : l ∉ scratches_ st ->
  Q tt (set_scratches (scratches_ st ++ [l]) st) -> runs (AddScratchLocation l) st Q.
Proof.
  intros Hn HQ. apply runs_bind, runs_get, runs_bind, runs_ns_check.
  - rewrite negb_True. intros H. apply Is_true_true, existsb_exists in H as (l' & Hin%list_elem_of_In & E).
    apply bool_decide_eq_true in E as ->. done.
  - by apply runs_mod.
Qed.

(** ** The machine of cells *)

(** The words of the cells of a location; a constant is its words. *)
Definition get_words (K : Z -> list Z) (s : Store) (l : Location) : list Z :=
  match l with ConstantLocation c => K c | _ => map s (cells l) end.
Definition put_words (s : Store) (l : Location) (v : list Z) : Store := fun c =>
  match position c (cells l) with Some k => nth k v 0 | None => s c end.

Lemma get_put_words K s l v : place l -> length v = length (cells l) -> get_words K (put_words s l v) l = v.
Proof.
  intros Hp Hlen. pose proof (place_nodup l Hp) as Hnd.
  replace (get_words K (put_words s l v) l) with (map (put_words s l v) (cells l)) by (by destruct l).
  apply list_eq. intros k. rewrite list_lookup_fmap. destruct (cells l !! k) as [c|] eqn:Hc; cbn.
  - unfold put_words. rewrite (position_lookup _ k) by done.
    destruct (lookup_lt_is_Some_2 v k) as [x Hx]; [rewrite Hlen; by eapply lookup_lt_Some|].
    by rewrite nth_lookup, Hx.
  - symmetry. apply lookup_ge_None. rewrite Hlen. by apply lookup_ge_None.
Qed.

Lemma get_put_words_other K s l l' v : ~ overlap l l' -> get_words K (put_words s l v) l' = get_words K s l'.
Proof.
  intros Ho. destruct (decide (IsConstant l')) as [|Hc]; [by destruct l'|].
  assert (forall s, get_words K s l' = map s (cells l')) as E by (intros; by destruct l').
  rewrite !E. apply map_ext_in. intros c Hin%list_elem_of_In. unfold put_words.
  destruct (position c (cells l)) as [k|] eqn:Hk; [|done]. exfalso. apply Ho, overlap_spec.
  exists c. split; [|done]. apply position_Some in Hk. by eapply list_elem_of_lookup_2.
Qed.

#[global] Instance cell_machine (K : Z -> list Z) : Machine.
Proof.
  refine {| Val := list Z; Mem := Store; get := get_words K; put := put_words;
            fits := fun l v => length v = length (cells l) |}.
  - intros s l Hp. destruct l; try done; cbn; by rewrite ?length_map.
  - apply get_put_words.
  - intros. by apply get_put_words_other.
Defined.

(** ** The resolver of the unit tests *)
Definition test_temp (l : Location) : Prop :=
  exists r, kScratchRegisterStartIndexForTest <= r /\ l = RegisterLocation r.
Definition narrow_kind (k : LocationKind) : bool :=
  match k with kRegister | kFpuRegister | kStackSlot => true | _ => false end.

(** The scratch locations are registers below [scratch_index_] and their pairs. *)
Definition test_ready (scratches : list Location) (scratch_index : Z) : Prop :=
  kScratchRegisterStartIndexForTest <= scratch_index
  /\ forall l, l ∈ scratches -> exists r, kScratchRegisterStartIndexForTest <= r < scratch_index
     /\ (l = RegisterLocation r \/ (l = RegisterPairLocation r (r + 1) /\ r + 1 < scratch_index)).

Lemma test_ready_grow scratches i : test_ready scratches i ->
  (forall r, i <= r -> RegisterLocation r ∉ scratches /\ forall q, RegisterPairLocation r q ∉ scratches)
  /\ test_ready (((scratches ++ [RegisterLocation i]) ++ [RegisterLocation (i + 1)]) ++ [RegisterPairLocation i (i + 1)]) (i + 2).
Proof.
  intros [Hge Hr]. split.
  - intros r Hle. split; [intros H|intros q H]; destruct (Hr _ H) as (k & Hk & [E|[E _]]); simplify_eq; lia.
  - split; [lia|]. intros l. rewrite !elem_of_app, !list_elem_of_singleton. intros [[[H| ->]| ->]| ->].
    + destruct (Hr _ H) as (k & Hk & E). exists k. split; [lia|]. destruct E as [->|[-> ?]]; [auto|].
      right. split; [done|lia].
    + exists i. split; [lia|auto].
    + exists (i + 1). split; [lia|auto].
    + exists i. split; [lia|]. right. split; [done|lia].
Qed.

Lemma test_allocate_ok (K : Z -> list Z) kind (st : NoSwap Z) :
  narrow_kind kind -> test_ready (scratches_ st) (backend_ st) ->
  (forall r, backend_ st <= r -> IsBlockedByMoves st (RegisterLocation r) = false) ->
  runs (TestAllocateScratchLocationFor kind) st (fun l st' =>
    ns_moves st' = ns_moves st /\ pending_moves_ st' = pending_moves_ st /\ ns_code st' = ns_code st
    /\ test_ready (scratches_ st') (backend_ st')
    /\ place l /\ IsBlockedByMoves st l = false
    /\ ((test_temp l /\ l ∈ scratches_ st') \/ exists m, m ∈ ns_moves st /\ destination_ m = l)
    /\ (forall l', l' ∈ scratches_ st -> l' ∈ scratches_ st')
    /\ (exists r, l = RegisterLocation r)).
Proof.
  intros Hk Hr Hfresh. unfold TestAllocateScratchLocationFor.
  replace (match kind with kStackSlot | kFpuRegister | kRegister => kRegister | _ => kRegisterPair end)
    with kRegister by (by destruct kind).
  apply runs_bind, runs_get. destruct (Equals (GetScratchLocation kRegister st) NoLocation) eqn:E.
  - destruct (test_ready_grow _ _ Hr) as [Hnew Hr'].
    destruct (Hnew (backend_ st)) as [N1 N3]; [lia|]. destruct (Hnew (backend_ st + 1)) as [N2 _]; [lia|].
    apply runs_bind, runs_add_scratch; [done|]. apply runs_bind, runs_add_scratch.
    { cbn. rewrite elem_of_app, list_elem_of_singleton. intros [?|[= H]]; [done|lia]. }
    apply runs_bind, runs_add_scratch.
    { cbn. rewrite !elem_of_app, !list_elem_of_singleton. intros [[H|?]|?]; [by apply (N3 _ H)|done..]. }
    apply runs_bind, runs_mod, runs_ret. rewrite bool_decide_eq_true_2 by done. cbn.
    destruct Hr as [Hge _]. split_and!; auto; [apply Hfresh; lia| |set_solver|eauto].
    left. split; [by exists (backend_ st)|set_solver].
  - apply bool_decide_eq_false in E.
    destruct (GetScratchLocation_spec kRegister st _ eq_refl E) as (Hkd & Hb & Hin).
    apply runs_ret. destruct (GetScratchLocation kRegister st) as [| | | |r| | | |] eqn:El; try done.
    split_and!; eauto. destruct Hin as [Hin|]; [left|by right]. split; [|done].
    destruct Hr as [_ Hr]. destruct (Hr _ Hin) as (k & Hk' & [[= ->]|[? _]]); [|done]. exists k. split; [lia|done].
Qed.

(** The laws hold of it on the machine of cells, for operands of one cell. *)
#[global] Instance test_laws (K : Z -> list Z) : @BackendLaws Z TestBackend (cell_machine K).
Proof.
  refine {| temp := test_temp; scratch_kind := narrow_kind; ready := test_ready |}.
  - by intros l (r & _ & ->).
  - by intros l (r & _ & ->).
  - intros l l' (r & _ & ->) (r' & _ & ->) Ho. by apply narrow_overlap.
  - intros b. split; [done|]. by intros l ?%not_elem_of_nil.
  - intros kind st Hk Hr Hpl Hte. eapply runs_mono.
    { apply (test_allocate_ok K); [done..|]. intros r Hle. apply unread; [done..|].
      intros m Hm. apply Hte; [done|]. destruct Hr as [Hge _]. by exists r; split; [lia|]. }
    intros l st' (? & ? & ? & ? & ? & ? & ? & ? & (r & ->)). split_and!; auto.
    intros a v <- Hv. cbn in *. rewrite Hv. by destruct a.
  - intros l scratch st Hr _ _ _ _ _. apply runs_ret. split_and!; auto.
Defined.

(** ** Runs *)
Section Runs.
Local Abbreviation r := RegisterLocation.
Local Abbreviation rr := RegisterPairLocation.
Local Abbreviation int a b := (mkMove a b kPrimInt).
Local Abbreviation long a b := (mkMove a b kPrimLong).

(** A cycle of three registers, one of which two other moves read, and a constant used twice. *)
Definition register_cycle : list MoveOperands :=
  [int (r 0) (r 1); int (r 1) (r 2); int (r 2) (r 0); int (r 1) (StackSlot 8);
   int (ConstantLocation 0) (r 5); int (ConstantLocation 0) (r 6)].

Definition below_temps (l : Location) : bool :=
  match l with RegisterLocation q => q <? kScratchRegisterStartIndexForTest | _ => true end.

Lemma scratch_resolver_correct_witness (K := fun _ : Z => [7]) (s := fun _ : Cell => 0) :
  separable (M := cell_machine K) s register_cycle
  /\ exists code, NoSwapEmitNativeCode 0 register_cycle = Some code
     /\ scratch_assignment (M := cell_machine K) register_cycle s (exec_all (M := cell_machine K) code s).
Proof.
  assert (separable (M := cell_machine K) s register_cycle) as Hok.
  { apply (separableb_sound below_temps); [by intros t (k & Hk & ->); split; [apply Z.ltb_ge|]| |reflexivity|].
    - intros l. by destruct l.
    - by intros [|[|[|[|[|[|[|i]]]]]]] m [= <-]. }
  split; [exact Hok|]. exact (scratch_resolver_correct (M := cell_machine K) 0 s register_cycle Hok).
Defined.

(** The moves of the unit tests and the code the tests expect of this resolver. *)
Example scratch_unit_tests :
  NoSwapEmitNativeCode 0 [int (r 0) (r 1); int (r 1) (r 2); int (r 2) (r 3); int (r 1) (r 4)]
    = Some [EmitMove (r 2) (r 3); EmitMove (r 1) (r 2); EmitMove (r 0) (r 1); EmitMove (r 2) (r 4)]
  /\ NoSwapEmitNativeCode 0 [int (r 0) (r 1); int (r 1) (r 2); int (r 1) (r 0)]
    = Some [EmitMove (r 1) (r 2); EmitMove (r 0) (r 1); EmitMove (r 2) (r 0)]
  /\ NoSwapEmitNativeCode 0 [int (r 0) (r 1); int (r 1) (r 2); int (r 2) (r 3); int (r 3) (r 4); int (r 4) (r 0)]
    = Some [EmitMove (r 4) (r 100); EmitMove (r 3) (r 4); EmitMove (r 2) (r 3); EmitMove (r 1) (r 2);
            EmitMove (r 0) (r 1); EmitMove (r 100) (r 0)]
  /\ NoSwapEmitNativeCode 0 [int (ConstantLocation 0) (r 0); int (r 1) (r 2)]
    = Some [EmitMove (r 1) (r 2); EmitMove (ConstantLocation 0) (r 0)]
  /\ NoSwapEmitNativeCode 0 [int (r 2) (r 7); int (r 7) (r 1); long (rr 0 1) (rr 2 3)]
    = Some [EmitMove (rr 0 1) (rr 100 101); EmitMove (r 7) (r 1); EmitMove (r 2) (r 7); EmitMove (rr 100 101) (rr 2 3)]
  /\ NoSwapEmitNativeCode 0 [int (r 2) (r 0); int (r 3) (r 1); long (rr 0 1) (rr 2 3)]
    = Some [EmitMove (r 3) (r 100); EmitMove (rr 0 1) (rr 102 103); EmitMove (r 100) (r 1);
            EmitMove (r 2) (r 0); EmitMove (rr 102 103) (rr 2 3)]
  /\ NoSwapEmitNativeCode 0 [int (r 10) (r 5); long (rr 4 5) (DoubleStackSlot 32); long (DoubleStackSlot 32) (rr 10 11)]
    = Some [EmitMove (DoubleStackSlot 32) (rr 100 101); EmitMove (rr 4 5) (DoubleStackSlot 32);
            EmitMove (r 10) (r 5); EmitMove (rr 100 101) (rr 10 11)]
  /\ NoSwapEmitNativeCode 0 [long (r 0) (r 1); int (r 1) (StackSlot 48); int (StackSlot 48) (r 0)]
    = Some [EmitMove (StackSlot 48) (r 100); EmitMove (r 1) (StackSlot 48); EmitMove (r 0) (r 1); EmitMove (r 100) (r 0)].
Proof. repeat split; vm_compute; reflexivity. Qed.

(** A pair written over two registers, one of which goes into the pair's old place. *)
Definition dropped_move : list MoveOperands :=
  [long (rr 2 3) (rr 6 7); int (r 6) (r 3); int (r 7) (r 4)].

(** C39.  Pairs beside single registers are outside the condition for a reason: the sources of
    these three moves are disjoint, and so are the destinations, but the second move takes
    register 4, the third one's destination, as its scratch location; when the pair's move has freed
    register 3 the loop looks for pending moves to (2,3) only, and the pending move to register 4
    that the one to 3 was blocking is never emitted: the check at the end fails, and the code has
    the value of register 6, not 7, in register 4. *)
Theorem pending_move_dropped :
  NoSwapEmitNativeCode 0 dropped_move = None
  /\ (forall i j, i <> j -> ~ overlap (src dropped_move i) (src dropped_move j)
       /\ ~ overlap (dest dropped_move i) (dest dropped_move j))
  /\ exists st, ns_loops 3 (mkNoSwap dropped_move [] [] [] kScratchRegisterStartIndexForTest) = Some (tt, st)
     /\ pending_moves_ st = [int (r 100) (r 4)]
     /\ forall K s, exec_all (M := cell_machine K) (ns_code st) s (CoreCell 4) = s (CoreCell 6).
Proof.
  split; [vm_compute; reflexivity|]. split.
  - intros i j Hij. unfold src, dest.
    destruct i as [|[|[|i]]], j as [|[|[|j]]]; try done; cbn;
      rewrite ?overlap_spec; cbn; split; intros H; try (by apply overlap_none_l in H);
      try (by apply overlap_none_r in H); destruct H as (c & H1 & H2); set_solver.
  - eexists. split; [vm_compute; reflexivity|]. split; [done|]. done.
Qed.
End Runs.
