(* ===== verification/ParallelMoveArm64.v ===== *)
(** * The parallel-move resolver of arm64

    [ParallelMoveResolverARM64] of compiler/optimizing/code_generator_arm64.cc and the register
    conversions of common_arm64.h.  VIXL's [UseScratchRegisterScope] is a parameter with the laws
    of its pool of registers; with them the arm64 subclass keeps the laws of scratch locations, so
    that the resolver never runs out of VIXL's temporaries and its code is the parallel
    assignment. *)

From S2P Require Import Prelude DexOpcodes DexInstruction ShadowFrame InterpreterBase ParallelMove ParallelMoveMachine ParallelMoveGraph ParallelMoveSwap ParallelMoveTheorems ParallelMoveScratch ParallelMoveScratchProofs ParallelMoveScratchTheorems.

(** ** Registers *)
Definition SP : Z := 31.
Definition XZR : Z := 32.

(** VIXL: the codes of the stack pointer and the zero register, and a scope that hands out core
    (X) and floating-point (D) registers by their code; [None] is a failed assertion. *)
Class Vixl (T : Type) := {
  kSPRegInternalCode : Z;
  kZeroRegCode : Z;
  Open : T -> T;
  AcquireX : T -> option (Z * T);
  AcquireD : T -> option (Z * T);
  ReleaseX : Z -> T -> T;
  ReleaseD : Z -> T -> T
}.

Section Registers.
Context {T : Type} {HV : Vixl T}.
Definition VIXLRegCodeFromART (code : Z) : Z :=
  if code =? SP then kSPRegInternalCode else if code =? XZR then kZeroRegCode else code.
Definition ARTRegCodeFromVIXL (code : Z) : Z :=
  if code =? kSPRegInternalCode then SP else if code =? kZeroRegCode then XZR else code.

(** [XRegisterFrom] and [DRegisterFrom]: the code of the VIXL register. *)
Definition XRegisterFrom (location : Location) : option Z :=
  match location with RegisterLocation r => Some (VIXLRegCodeFromART r) | _ => None end.
Definition DRegisterFrom (location : Location) : option Z :=
  match location with FpuRegisterLocation r => Some r | _ => None end.

(** The two overloads of [LocationFrom]. *)
Definition LocationFromX (code : Z) : Location := RegisterLocation (ARTRegCodeFromVIXL code).
Definition LocationFromD (code : Z) : Location := FpuRegisterLocation code.
End Registers.

(** ** The subclass *)
Section Arm64.
Context {T : Type} {HV : Vixl T}.
Local Open Scope sm_scope.

(** [vixl_temps_.AcquireX()] and its like on the state of the resolver. *)
Definition acquire (f : T -> option (Z * T)) : SM (NoSwap T) Z := fun st =>
  match f (backend_ st) with Some (code, t) => Some (code, set_backend t st) | None => None end.
Definition release (f : Z -> T -> T) (code : option Z) : SM (NoSwap T) unit := fun st =>
  match code with Some c => Some (tt, set_backend (f c (backend_ st)) st) | None => None end.

Definition Arm64AllocateScratchLocationFor (kind : LocationKind) : SM (NoSwap T) Location :=
  ns_check (bool_decide (kind = kRegister) || bool_decide (kind = kFpuRegister)
            || bool_decide (kind = kStackSlot) || bool_decide (kind = kDoubleStackSlot)) ;;
  let kind := if bool_decide (kind = kFpuRegister) then kFpuRegister else kRegister in
  do st <- sget (fun st => st);
  let scratch := GetScratchLocation kind st in
  if negb (Equals scratch NoLocation) then sret scratch
  else
    do scratch <- (if bool_decide (kind = kRegister)
                   then do code <- acquire AcquireX; sret (LocationFromX code)
                   else do code <- acquire AcquireD; sret (LocationFromD code));
    AddScratchLocation scratch ;;
    sret scratch.

Definition Arm64FreeScratchLocation (loc : Location) : SM (NoSwap T) unit :=
  (if is_kind kRegister loc then release ReleaseX (XRegisterFrom loc)
   else ns_check (is_kind kFpuRegister loc) ;; release ReleaseD (DRegisterFrom loc)) ;;
  RemoveScratchLocation loc.

#[global] Instance Arm64Backend : ScratchBackend T := {
  PrepareForEmitNativeCode := Open;
  AllocateScratchLocationFor := Arm64AllocateScratchLocationFor;
  FreeScratchLocation := Arm64FreeScratchLocation
}.
End Arm64.

(** ** VIXL's pool *)

(** The pool of an open scope holds all of VIXL's temporaries, at least one of each class; a
    register is taken from the pool until it is released. *)
Class VixlLaws (T : Type) {HV : Vixl T} := {
  temp_x : Z -> bool;
  temp_d : Z -> bool;
  pool_x : T -> Z -> Prop;
  pool_d : T -> Z -> Prop;
  temp_x_code : forall r, temp_x r -> 0 <= r < SP /\ r <> kSPRegInternalCode /\ r <> kZeroRegCode;
  some_x : exists r, temp_x r;
  some_d : exists r, temp_d r;
  open_x : forall t r, pool_x (Open t) r <-> temp_x r;
  open_d : forall t r, pool_d (Open t) r <-> temp_d r;
  acquire_x : forall t r, pool_x t r -> exists q t', AcquireX t = Some (q, t') /\ pool_x t q
    /\ (forall p, pool_x t' p <-> pool_x t p /\ p <> q) /\ (forall p, pool_d t' p <-> pool_d t p);
  acquire_d : forall t r, pool_d t r -> exists q t', AcquireD t = Some (q, t') /\ pool_d t q
    /\ (forall p, pool_d t' p <-> pool_d t p /\ p <> q) /\ (forall p, pool_x t' p <-> pool_x t p);
  release_x : forall t r p, temp_x r -> pool_x (ReleaseX r t) p <-> p = r \/ pool_x t p;
  release_x_d : forall t r p, temp_x r -> pool_d (ReleaseX r t) p <-> pool_d t p;
  release_d : forall t r p, temp_d r -> pool_d (ReleaseD r t) p <-> p = r \/ pool_d t p;
  release_d_x : forall t r p, temp_d r -> pool_x (ReleaseD r t) p <-> pool_x t p
}.

(** ** The machine: 64-bit registers and stack words of 32 bits *)
Definition arm64_get (K : Z -> Z) (s : Store) (l : Location) : Z :=
  match l, cells l with
  | ConstantLocation c, _ => K c
  | StackSlot _, [c] => wrapu 32 (s c)
  | _, [c] => wrapu 64 (s c)
  | _, [c; d] => wrapu 32 (s c) + 2 ^ 32 * wrapu 32 (s d)
  | _, _ => 0
  end.
Definition arm64_put (s : Store) (l : Location) (v : Z) : Store := fun c =>
  match position c (cells l), cells l with
  | None, _ => s c
  | Some O, [_; _] => wrapu 32 v
  | Some O, _ => v
  | Some (S _), _ => v / 2 ^ 32
  end.
Definition arm64_fits (l : Location) (v : Z) : Prop :=
  match l with StackSlot _ => in_u 32 v | _ => in_u 64 v end.

Lemma wide_value v : in_u 64 v -> wrapu 32 (wrapu 32 v) + 2 ^ 32 * wrapu 32 (v / 2 ^ 32) = v.
Proof.
  intros [H0 H1]. assert (0 <= v / 2 ^ 32 < 2 ^ 32).
  { split; [by apply Z.div_pos|]. apply Z.div_lt_upper_bound; [done|]. exact H1. }
  rewrite (wrapu_small 32 (v / 2 ^ 32)) by done. rewrite (wrapu_small 32 (wrapu 32 v)) by (apply wrapu_range; lia).
  unfold wrapu. rewrite (Z.div_mod v (2 ^ 32)) at 3 by done. lia.
Qed.

Lemma in_u_weaken v : in_u 32 v -> in_u 64 v.
Proof. unfold in_u. intros [? H]. split; [done|]. eapply Z.lt_le_trans; [exact H|]. by vm_compute. Qed.

#[global] Instance arm64_machine (K : Z -> Z) : Machine.
Proof.
  refine {| Val := Z; Mem := Store; get := arm64_get K; put := arm64_put; fits := arm64_fits |}.
  - intros s l Hp.
    assert (forall a b, in_u 64 (wrapu 32 a + 2 ^ 32 * wrapu 32 b)) as Hw.
    { intros a b. pose proof (wrapu_range 32 ltac:(lia) a) as Ha. pose proof (wrapu_range 32 ltac:(lia) b) as Hb.
      unfold in_u in *. lia. }
    destruct l; try done; cbn; try apply Hw; apply wrapu_range; lia.
  - intros s l v Hp Hv. pose proof (place_nodup l Hp) as Hnd.
    assert (forall c d, c <> d -> cells l = [c; d] -> arm64_put s l v c = wrapu 32 v /\ arm64_put s l v d = v / 2 ^ 32) as Hw.
    { intros c d Hcd E. unfold arm64_put. rewrite E. cbn.
      rewrite (decide_True (P := c = c)), (decide_True (P := d = d)) by done.
      by rewrite decide_False by congruence. }
    assert (forall c, cells l = [c] -> arm64_put s l v c = v) as Hn.
    { intros c E. unfold arm64_put. rewrite E. cbn. by rewrite decide_True. }
    destruct l; try done; cbn in Hnd |- *; rewrite ?(Hn _ eq_refl); try by apply wrapu_small.
    all: apply NoDup_cons in Hnd as [Hnd _]; rewrite list_elem_of_singleton in Hnd;
      destruct (Hw _ _ Hnd eq_refl) as [-> ->]; by apply wide_value.
  - intros s l l' v Hp Ho. assert (forall c, c ∈ cells l' -> arm64_put s l v c = s c) as E.
    { intros c Hc. unfold arm64_put. destruct (position c (cells l)) as [k|] eqn:Hk; [|done]. exfalso.
      apply Ho, overlap_spec. exists c. split; [|done]. apply position_Some in Hk. by eapply list_elem_of_lookup_2. }
    destruct l'; try done; cbn in E |- *; rewrite !E by set_solver; done.
Defined.

(** ** The laws of scratch locations *)
Section Laws.
Context {T : Type} {HV : Vixl T} {HVL : VixlLaws T}.

Definition arm64_temp (l : Location) : Prop :=
  match l with RegisterLocation r => temp_x r | FpuRegisterLocation r => temp_d r | _ => False end.
Definition arm64_kind (k : LocationKind) : bool :=
  match k with kRegister | kFpuRegister | kStackSlot | kDoubleStackSlot => true | _ => false end.
Definition pool (t : T) (l : Location) : Prop :=
  match l with RegisterLocation r => pool_x t r | FpuRegisterLocation r => pool_d t r | _ => False end.

(** A temporary is in the pool or a scratch location, not both. *)
Record arm64_ready (scratches : list Location) (t : T) : Prop := mkArm64Ready {
  ar_nodup : NoDup scratches;
  ar_temp : forall l, l ∈ scratches \/ pool t l -> arm64_temp l;
  ar_either : forall l, arm64_temp l -> l ∈ scratches \/ pool t l;
  ar_apart : forall l, l ∈ scratches -> ~ pool t l
}.

Lemma temp_place_arm64 l : arm64_temp l -> place l /\ wide l = false /\ arm64_kind (GetKind l).
Proof. by destruct l. Qed.

Lemma temp_codes r : temp_x r -> LocationFromX r = RegisterLocation r /\ XRegisterFrom (RegisterLocation r) = Some r.
Proof.
  intros H. destruct (temp_x_code r H) as (Hr & H1 & H2). unfold SP in Hr.
  unfold LocationFromX, ARTRegCodeFromVIXL, XRegisterFrom, VIXLRegCodeFromART, SP, XZR.
  rewrite (proj2 (Z.eqb_neq r _) H1), (proj2 (Z.eqb_neq r _) H2).
  by rewrite (proj2 (Z.eqb_neq r 31)), (proj2 (Z.eqb_neq r 32)) by lia.
Qed.

Lemma runs_acquire f (st : NoSwap T) (Q : Z -> NoSwap T -> Prop) q t : f (backend_ st) = Some (q, t) ->
  Q q (set_backend t st) -> runs (acquire f) st Q.
Proof. intros E HQ. unfold runs, acquire. by rewrite E. Qed.

(** A register of the class that is not among the scratch locations is taken from the pool. *)
Lemma acquire_ok (core : bool) (st : NoSwap T) : arm64_ready (scratches_ st) (backend_ st) ->
  (forall l, l ∈ scratches_ st -> GetKind l <> if core then kRegister else kFpuRegister) ->
  runs (if core then do code <- acquire AcquireX; sret (LocationFromX code)
        else do code <- acquire AcquireD; sret (LocationFromD code))%sm st
    (fun l st' => arm64_temp l /\ pool (backend_ st) l /\ exists t', st' = set_backend t' st
       /\ forall l', pool t' l' <-> pool (backend_ st) l' /\ l' <> l).
Proof.
  intros Hr Hno. destruct core.
  - destruct some_x as [r0 H0]. destruct (ar_either _ _ Hr (RegisterLocation r0) H0) as [Hin|Hp].
    { by destruct (Hno _ Hin). }
    destruct (acquire_x _ _ Hp) as (q & t' & E & Hq & Hx & Hd).
    apply runs_bind. eapply runs_acquire; [done|]. apply runs_ret.
    assert (arm64_temp (RegisterLocation q)) as Ht by (apply (ar_temp _ _ Hr); by right).
    destruct (temp_codes q Ht) as [-> _]. split_and!; [done..|]. exists t'. split; [done|].
    intros l'. destruct l'; cbn; rewrite ?Hx, ?Hd; intuition congruence.
  - destruct some_d as [r0 H0]. destruct (ar_either _ _ Hr (FpuRegisterLocation r0) H0) as [Hin|Hp].
    { by destruct (Hno _ Hin). }
    destruct (acquire_d _ _ Hp) as (q & t' & E & Hq & Hd & Hx).
    apply runs_bind. eapply runs_acquire; [done|]. apply runs_ret.
    unfold LocationFromD. split_and!; [apply (ar_temp _ _ Hr (FpuRegisterLocation q)); by right|done|]. exists t'. split; [done|].
    intros l'. destruct l'; cbn; rewrite ?Hx, ?Hd; intuition congruence.
Qed.

Lemma ready_acquire scratches t t' l : arm64_ready scratches t -> pool t l ->
  (forall l', pool t' l' <-> pool t l' /\ l' <> l) -> arm64_ready (scratches ++ [l]) t'.
Proof.
  intros [H1 H2 H3 H4] Hp Hp'. constructor.
  - apply NoDup_app. split_and!; [done| |apply NoDup_singleton].
    intros x Hx ->%list_elem_of_singleton. by apply (H4 l).
  - intros x. rewrite elem_of_app, list_elem_of_singleton, Hp'. intros [[?| ->]|[? _]]; auto.
  - intros x Hx. rewrite elem_of_app, list_elem_of_singleton, Hp'.
    destruct (decide (x = l)); [auto|]. destruct (H3 x Hx); auto.
  - intros x. rewrite elem_of_app, list_elem_of_singleton, Hp'. intros [?| ->]; [|tauto].
    intros [? _]. by apply (H4 x).
Qed.

Lemma erase_location_spec l ls x : NoDup ls -> x ∈ erase_location l ls <-> x ∈ ls /\ x <> l.
Proof.
  induction 1 as [|y ls Hy Hnd IH]; cbn; [set_solver|]. unfold Equals.
  destruct (bool_decide_reflect (l = y)) as [->|Hne]; rewrite !elem_of_cons, ?IH; naive_solver.
Qed.
Lemma erase_location_nodup l ls : NoDup ls ->
  NoDup (erase_location l ls) /\ (length (erase_location l ls) <= length ls)%nat.
Proof.
  induction 1 as [|y ls Hy Hnd [IH1 IH2]]; cbn; [by split; [constructor|]|].
  destruct (Equals l y); [split; [done|lia]|]. split; [|cbn; lia]. constructor; [|done].
  rewrite erase_location_spec by done. tauto.
Qed.

Lemma ready_release scratches t t' l : arm64_ready scratches t -> l ∈ scratches ->
  (forall l', pool t' l' <-> l' = l \/ pool t l') -> arm64_ready (erase_location l scratches) t'.
Proof.
  intros [H1 H2 H3 H4] Hl Hp. constructor.
  - by apply erase_location_nodup.
  - intros x. rewrite erase_location_spec, Hp by done. intros [[? _]|[->|?]]; auto.
  - intros x Hx. rewrite erase_location_spec, Hp by done. destruct (decide (x = l)); [auto|].
    destruct (H3 x Hx); auto.
  - intros x. rewrite erase_location_spec, Hp by done. intros [Hin Hne] [?|?]; [done|]. by apply (H4 x).
Qed.

Lemma release_ok l (st : NoSwap T) : arm64_ready (scratches_ st) (backend_ st) -> l ∈ scratches_ st ->
  IsBlockedByMoves st l = false ->
  runs (Arm64FreeScratchLocation l) st (fun _ st' => exists t',
    st' = set_scratches (erase_location l (scratches_ st)) (set_backend t' st)
    /\ arm64_ready (erase_location l (scratches_ st)) t').
Proof.
  intros Hr Hl Hb. pose proof (ar_temp _ _ Hr l (or_introl Hl)) as Ht.
  assert (exists t', (forall l', pool t' l' <-> l' = l \/ pool (backend_ st) l')
    /\ (if is_kind kRegister l then release ReleaseX (XRegisterFrom l)
        else ns_check (is_kind kFpuRegister l) ;; release ReleaseD (DRegisterFrom l))%sm st
       = Some (tt, set_backend t' st)) as (t' & Hp & E).
  { destruct l as [| | | |r|r| | |]; try done.
    - exists (ReleaseX r (backend_ st)). destruct (temp_codes r Ht) as [_ E]. unfold release. rewrite E. split; [|done].
      intros l'. destruct l'; cbn; rewrite ?release_x, ?release_x_d by done; intuition congruence.
    - exists (ReleaseD r (backend_ st)). split; [|done].
      intros l'. destruct l'; cbn; rewrite ?release_d, ?release_d_x by done; intuition congruence. }
  apply runs_bind. eapply runs_intro; [exact E|]. apply runs_bind, runs_get, runs_bind, runs_ns_check.
  { rewrite negb_True. change (IsBlockedByMoves (set_backend t' st) l) with (IsBlockedByMoves st l). rewrite Hb. by intros []. }
  apply runs_mod. exists t'. split; [done|]. by apply (ready_release _ (backend_ st)).
Qed.

Lemma arm64_allocate_ok kind (st : NoSwap T) : arm64_kind kind -> arm64_ready (scratches_ st) (backend_ st) ->
  (forall l, arm64_temp l -> IsBlockedByMoves st l = false) ->
  runs (Arm64AllocateScratchLocationFor kind) st (fun l st' =>
    ns_moves st' = ns_moves st /\ pending_moves_ st' = pending_moves_ st /\ ns_code st' = ns_code st
    /\ arm64_ready (scratches_ st') (backend_ st')
    /\ (GetKind l = kRegister \/ GetKind l = kFpuRegister) /\ IsBlockedByMoves st l = false
    /\ ((arm64_temp l /\ l ∈ scratches_ st') \/ exists m, m ∈ ns_moves st /\ destination_ m = l)
    /\ (forall l', l' ∈ scratches_ st -> l' ∈ scratches_ st')).
Proof.
  intros Hk Hr Hfree. apply runs_bind, runs_ns_check; [by destruct kind|].
  set (core := negb (bool_decide (kind = kFpuRegister))).
  replace (if bool_decide (kind = kFpuRegister) then kFpuRegister else kRegister)
    with (if core then kRegister else kFpuRegister) by (unfold core; by destruct (bool_decide _)).
  clearbody core. apply runs_bind, runs_get. cbv beta zeta.
  destruct (Equals (GetScratchLocation (if core then kRegister else kFpuRegister) st) NoLocation) eqn:E; cbn [negb].
  - apply bool_decide_eq_true in E.
    assert (forall l, l ∈ scratches_ st -> GetKind l <> if core then kRegister else kFpuRegister) as Hno.
    { intros l Hl Ek. pose proof (Hfree l (ar_temp _ _ Hr l (or_introl Hl))) as Hb.
      unfold GetScratchLocation in E. destruct (List.find _ (scratches_ st)) as [l'|] eqn:Ef.
      - apply find_some in Ef as [_ [Hk'%bool_decide_eq_true _]%andb_true_iff]. subst l'. by destruct core.
      - eapply find_none in Ef; [|by apply list_elem_of_In]. cbn beta in Ef. rewrite Hb in Ef.
        unfold is_kind in Ef. by rewrite bool_decide_eq_true_2 in Ef. }
    apply runs_bind. eapply runs_mono.
    { replace (bool_decide ((if core then kRegister else kFpuRegister) = kRegister)) with core by (by destruct core).
      apply (acquire_ok core st Hr Hno). }
    intros l st' (Ht & Hp & t' & -> & Hp').
    assert (l ∉ scratches_ st) as Hn by (intros Hin; by apply (ar_apart _ _ Hr l)).
    apply runs_bind, runs_add_scratch; [done|]. apply runs_ret. cbn. split_and!; auto.
    + by apply (ready_acquire _ (backend_ st)).
    + destruct l; try done; auto.
    + left. set_solver.
    + set_solver.
  - apply bool_decide_eq_false in E.
    destruct (GetScratchLocation_spec _ st _ eq_refl E) as (Hkd & Hb & Hin). apply runs_ret.
    split_and!; auto; [rewrite Hkd; by destruct core; auto|].
    destruct Hin as [Hin|]; [left|by right]. split; [|done]. apply (ar_temp _ _ Hr). by left.
Qed.

(** A register overlaps only itself among the kinds of arm64. *)
Lemma overlaps_temp l l' : arm64_temp l -> arm64_kind (GetKind l') -> OverlapsWith l l' -> l' = l.
Proof.
  unfold OverlapsWith, Contains, Equals. intros Ht Hk H.
  destruct (decide (l = l')) as [->|Hne]; [done|]. exfalso.
  rewrite (bool_decide_eq_false_2 (l = l')), (bool_decide_eq_false_2 (l' = l)) in H by congruence.
  destruct l; try done; destruct l'; done.
Qed.

#[global] Instance arm64_laws (K : Z -> Z) : @BackendLaws T Arm64Backend (arm64_machine K).
Proof.
  refine {| temp := arm64_temp; scratch_kind := arm64_kind; ready := arm64_ready |}.
  - intros l H. by apply temp_place_arm64.
  - intros l H. by apply temp_place_arm64.
  - intros l l' H H' Ho. apply narrow_overlap; by try apply temp_place_arm64.
  - intros b. constructor; [constructor| | |by intros l ?%not_elem_of_nil].
    + intros l [?%not_elem_of_nil|H]; [done|]. destruct l; try done; cbn in *; by rewrite ?open_x, ?open_d in H.
    + intros l H. right. destruct l; try done; cbn in *; by rewrite ?open_x, ?open_d.
  - intros kind st Hk Hr Hpl Hte. eapply runs_mono.
    { apply arm64_allocate_ok; [done..|]. intros l Hl.
      destruct (temp_place_arm64 l Hl) as (? & ? & _). apply unread; auto. }
    intros l st' (? & ? & ? & ? & Hlk & ? & Hin & ?). split_and!; auto; [by destruct l, Hlk|].
    intros a v <- Hv. destruct l, Hlk; try done; cbn in *; destruct a; auto using in_u_weaken.
  - intros l scratch st Hr Hs Ho _ Hk Hb.
    assert (l = scratch) as -> by (apply overlaps_temp; [apply (ar_temp _ _ Hr); by left|done..]).
    eapply runs_mono; [by apply release_ok|]. intros _ st' (t' & -> & Hr'). split_and!; auto.
    + by apply erase_location_nodup, (ar_nodup _ _ Hr).
    + intros l' Hl'. cbn. rewrite erase_location_spec by apply (ar_nodup _ _ Hr).
      destruct (decide (l' = scratch)); auto.
Defined.
End Laws.

(** ** The resolver of arm64 *)


(** VIXL's pool: ip0, ip1 and d31. *)
Record Pool := mkPool { ip0 : bool; ip1 : bool; d31 : bool }.

#[global] Instance pool_vixl : Vixl Pool := {
  kSPRegInternalCode := 63;
  kZeroRegCode := 31;
  Open := fun _ => mkPool true true true;
  AcquireX := fun t => if ip0 t then Some (16, mkPool false (ip1 t) (d31 t))
                       else if ip1 t then Some (17, mkPool false false (d31 t)) else None;
  AcquireD := fun t => if d31 t then Some (31, mkPool (ip0 t) (ip1 t) false) else None;
  ReleaseX := fun r t => mkPool (ip0 t || (r =? 16)) (ip1 t || (r =? 17)) (d31 t);
  ReleaseD := fun r t => mkPool (ip0 t) (ip1 t) (d31 t || (r =? 31))
}.

#[global] Instance pool_laws : VixlLaws Pool.
Proof.
  refine {| temp_x := fun r => (r =? 16) || (r =? 17); temp_d := fun r => r =? 31;
            pool_x := fun t r => (r = 16 /\ ip0 t) \/ (r = 17 /\ ip1 t);
            pool_d := fun t r => r = 31 /\ d31 t |};
    try (intros [[] [] []] r p; cbn; rewrite ?orb_True, ?Is_true_true, ?orb_true_iff, ?Z.eqb_eq; cbn; intuition lia).
  - intros r. rewrite orb_True, !Is_true_true, !Z.eqb_eq. unfold SP. cbn. lia.
  - by exists 16.
  - by exists 31.
  - intros t r. rewrite orb_True, !Is_true_true, !Z.eqb_eq. cbn. tauto.
  - intros t r. rewrite !Is_true_true, Z.eqb_eq. cbn. tauto.
  - intros [[] [] c] r H; cbn in *; [| | |by destruct H as [[_ []]|[_ []]]]; do 2 eexists;
      (split; [reflexivity|]); cbn; intuition lia.
  - intros [a b []] r H; cbn in *; [|by destruct H as [_ []]]. do 2 eexists.
    split; [reflexivity|]. cbn. intuition lia.
Defined.

(** A cycle of core registers, one of floating-point registers and a spill. *)
Definition arm64_cycles : list MoveOperands :=
  [mkMove (RegisterLocation 0) (RegisterLocation 1) kPrimLong;
   mkMove (RegisterLocation 1) (RegisterLocation 0) kPrimInt;
   mkMove (FpuRegisterLocation 0) (FpuRegisterLocation 1) kPrimDouble;
   mkMove (FpuRegisterLocation 1) (FpuRegisterLocation 0) kPrimFloat;
   mkMove (RegisterLocation 1) (StackSlot 8) kPrimInt].

Definition not_temp (l : Location) : bool :=
  match l with
  | RegisterLocation r => negb (temp_x r)
  | FpuRegisterLocation r => negb (temp_d r)
  | _ => true
  end.


(** Each cycle takes a temporary of its class and returns it. *)
Example arm64_cycles_code : NoSwapEmitNativeCode (HB := Arm64Backend) (mkPool false false false) arm64_cycles
  = Some [EmitMove (RegisterLocation 1) (RegisterLocation 16);
          EmitMove (RegisterLocation 0) (RegisterLocation 1);
          EmitMove (RegisterLocation 16) (RegisterLocation 0);
          EmitMove (FpuRegisterLocation 1) (FpuRegisterLocation 31);
          EmitMove (FpuRegisterLocation 0) (FpuRegisterLocation 1);
          EmitMove (FpuRegisterLocation 31) (FpuRegisterLocation 0);
          EmitMove (RegisterLocation 0) (StackSlot 8)].
Proof. vm_compute. reflexivity. Qed.
