(* ===== verification/IndirectReferenceTable.v ===== *)
(** * Indirect reference tables

    [IndirectReferenceTable] of runtime/indirect_reference_table.h, -inl.h and .cc: entries with
    serial numbers, segments delimited by cookies, and the operations that add, look up, update
    and remove references, with the visit of the collector.  A reference is the word of an
    [IndirectRef], an object its address, 0 for null. *)

From S2P Require Import Prelude.

(** ** References *)
Inductive IndirectRefKind := kHandleScopeOrInvalid | kLocal | kGlobal | kWeakGlobal.

#[global] Instance IndirectRefKind_eq_dec : EqDecision IndirectRefKind.
Proof. solve_decision. Defined.

Definition kind_bits (k : IndirectRefKind) : Z :=
  match k with kHandleScopeOrInvalid => 0 | kLocal => 1 | kGlobal => 2 | kWeakGlobal => 3 end.

Definition GetIndirectRefKind (iref : Z) : IndirectRefKind :=
  match Z.land iref 3 with
  | 0 => kHandleScopeOrInvalid
  | 1 => kLocal
  | 2 => kGlobal
  | _ => kWeakGlobal
  end.

Definition ExtractIndex (iref : Z) : Z := Z.land (Z.shiftr iref 2) 0xffff.

(** ** Segments *)
Definition IRT_FIRST_SEGMENT : Z := 0.

(** The two bit fields of [IRTSegmentState], and its word. *)
Record IRTSegmentState := mkSegment { topIndex : Z; numHoles : Z }.
Definition segment_of (all : Z) : IRTSegmentState := mkSegment (u16 all) (u16 (Z.shiftr all 16)).
Definition segment_all (s : IRTSegmentState) : Z := Z.lor (topIndex s) (Z.shiftl (numHoles s) 16).

(** What is outside the table: the build, whether CheckJNI is on, and the handle scopes of the
    thread. *)
Class JniRuntime := {
  kIsDebugBuild : bool;
  IsCheckJniEnabled : bool;
  HandleScopeContains : Z -> bool
}.

Section Table.
Context {HR : JniRuntime}.

(** ** Entries *)
Definition kIRTPrevCount : Z := if kIsDebugBuild then 7 else 3.

Record IrtEntry := mkEntry { serial_ : Z; references_ : list Z }.

(** [GetReference()]: the value at its address; [None] is a failed check. *)
Definition GetReference (e : IrtEntry) : option Z :=
  if serial_ e <? kIRTPrevCount then references_ e !! Z.to_nat (serial_ e) else None.
Definition SetReference (obj : Z) (e : IrtEntry) : option IrtEntry :=
  if serial_ e <? kIRTPrevCount
  then Some (mkEntry (serial_ e) (<[Z.to_nat (serial_ e) := obj]> (references_ e))) else None.
Definition EntryAdd (obj : Z) (e : IrtEntry) : IrtEntry :=
  let serial := u32 (serial_ e + 1) in
  let serial := if serial =? kIRTPrevCount then 0 else serial in
  mkEntry serial (<[Z.to_nat serial := obj]> (references_ e)).

(** ** The table *)
Record IndirectReferenceTable := mkTable {
  segment_state_ : IRTSegmentState;
  table_ : list IrtEntry;
  kind_ : IndirectRefKind;
  max_entries_ : Z
}.
Abbreviation IRT := (SM IndirectReferenceTable).
Local Open Scope sm_scope.

(** The constructor, for memory that could be mapped: anonymous pages are zero. *)
Definition zero_entry : IrtEntry := mkEntry 0 (replicate (Z.to_nat kIRTPrevCount) 0).
Definition NewTable (initialCount maxCount : Z) (desiredKind : IndirectRefKind) : option IndirectReferenceTable :=
  if (0 <? initialCount) && (initialCount <=? maxCount) && negb (bool_decide (desiredKind = kHandleScopeOrInvalid))
  then Some (mkTable (segment_of IRT_FIRST_SEGMENT) (replicate (Z.to_nat maxCount) zero_entry) desiredKind maxCount)
  else None.

Definition irt_check (b : bool) : IRT unit := if b then sret tt else sfail.
Definition set_segment (s : IRTSegmentState) : IRT unit :=
  smod (fun t => mkTable s (table_ t) (kind_ t) (max_entries_ t)).
Definition set_top (i : Z) : IRT unit :=
  do t <- sget (fun t => t); set_segment (mkSegment (u16 i) (numHoles (segment_state_ t))).
Definition set_holes (n : Z) : IRT unit :=
  do t <- sget (fun t => t); set_segment (mkSegment (topIndex (segment_state_ t)) (u16 n)).

(** [table_[i]]; [None] is an access out of range. *)
Definition table_entry (t : IndirectReferenceTable) (i : Z) : option IrtEntry :=
  if 0 <=? i then table_ t !! Z.to_nat i else None.
Definition lift_option {A} (o : option A) : IRT A := match o with Some a => sret a | None => sfail end.
Definition entry_at (i : Z) : IRT IrtEntry := fun t => lift_option (table_entry t i) t.
Definition reference_at (i : Z) : IRT Z :=
  do e <- entry_at i; lift_option (GetReference e).
Definition set_entry (i : Z) (e : IrtEntry) : IRT unit :=
  smod (fun t => mkTable (segment_state_ t) (<[Z.to_nat i := e]> (table_ t)) (kind_ t) (max_entries_ t)).
Definition set_reference (i obj : Z) : IRT unit :=
  do e <- entry_at i; do e <- lift_option (SetReference obj e); set_entry i e.
Definition IsNull (obj : Z) : bool := obj =? 0.

Definition Capacity (t : IndirectReferenceTable) : Z := topIndex (segment_state_ t).
Definition GetSegmentState (t : IndirectReferenceTable) : Z := segment_all (segment_state_ t).
Definition SetSegmentState (new_state : Z) : IRT unit := set_segment (segment_of new_state).

Definition AbortIfNoCheckJNI : IRT unit := irt_check IsCheckJniEnabled.

Definition ToIndirectRef (tableIndex : Z) : IRT Z :=
  irt_check (tableIndex <? 65536) ;;
  do e <- entry_at tableIndex;
  do t <- sget (fun t => t);
  sret (Z.lor (Z.lor (u32 (Z.shiftl (serial_ e) 20)) (Z.shiftl tableIndex 2)) (kind_bits (kind_ t))).

Definition CheckEntry (iref idx : Z) : IRT bool :=
  do checkRef <- ToIndirectRef idx;
  if negb (checkRef =? iref) then AbortIfNoCheckJNI ;; sret false else sret true.

(** The scan for a hole, down from entry [p]. *)
Fixpoint scan_hole (bottom : Z) (p : nat) : IRT Z :=
  do r <- reference_at (Z.of_nat p);
  if IsNull r then sret (Z.of_nat p)
  else
    irt_check (bottom <=? Z.of_nat p) ;;
    match p with O => sfail | S p => scan_hole bottom p end.

Definition Add (cookie obj : Z) : IRT Z :=
  let prevState := segment_of cookie in
  do t <- sget (fun t => t);
  let top := topIndex (segment_state_ t) in
  irt_check (negb (IsNull obj)) ;;
  irt_check (numHoles prevState <=? numHoles (segment_state_ t)) ;;
  if top =? max_entries_ t then sfail
  else
    let holes := numHoles (segment_state_ t) - numHoles prevState in
    do index <- (if 0 <? holes then
                   irt_check (1 <? top) ;;
                   do last <- reference_at (top - 1);
                   irt_check (negb (IsNull last)) ;;
                   do index <- scan_hole (topIndex prevState) (Z.to_nat (top - 2));
                   set_holes (numHoles (segment_state_ t) - 1) ;;
                   sret index
                 else
                   set_top (top + 1) ;; sret top);
    do e <- entry_at index;
    set_entry index (EntryAdd obj e) ;;
    do result <- ToIndirectRef index;
    irt_check (negb (result =? 0)) ;;
    sret result.

(** The loop that takes the holes below the top: the new top and the holes left. *)
Fixpoint eat_holes (fuel : nat) (bottom top holes : Z) : IRT (Z * Z) :=
  match fuel with
  | O => sfail
  | S fuel =>
      let top := top - 1 in
      if (bottom <? top) && negb (holes =? 0) then
        do r <- reference_at (top - 1);
        if negb (IsNull r) then sret (top, holes) else eat_holes fuel bottom top (holes - 1)
      else sret (top, holes)
  end.

Definition remove_top (prevState : IRTSegmentState) (iref idx top : Z) : IRT bool :=
  do ok <- CheckEntry iref idx;
  if negb ok then sret false
  else
    set_reference idx 0 ;;
    do t <- sget (fun t => t);
    let holes := numHoles (segment_state_ t) - numHoles prevState in
    (if negb (holes =? 0) then
       do res <- eat_holes (Z.to_nat (top - topIndex prevState) + 1) (topIndex prevState) top holes;
       let '(top, holes) := res in
       set_holes (holes + numHoles prevState) ;; set_top top
     else set_top (top - 1)) ;;
    sret true.

Definition remove_inner (iref idx : Z) : IRT bool :=
  do r <- reference_at idx;
  if IsNull r then sret false
  else
    do ok <- CheckEntry iref idx;
    if negb ok then sret false
    else
      set_reference idx 0 ;;
      do t <- sget (fun t => t);
      set_holes (numHoles (segment_state_ t) + 1) ;;
      sret true.

Definition Remove (cookie iref : Z) : IRT bool :=
  let prevState := segment_of cookie in
  do t <- sget (fun t => t);
  let top := topIndex (segment_state_ t) in
  let bottom := topIndex prevState in
  irt_check (numHoles prevState <=? numHoles (segment_state_ t)) ;;
  if bool_decide (GetIndirectRefKind iref = kHandleScopeOrInvalid) && HandleScopeContains iref then sret true
  else
    let idx := ExtractIndex iref in
    if idx <? bottom then sret false
    else if top <=? idx then sret false
    else if idx =? top - 1 then remove_top prevState iref idx top
    else remove_inner iref idx.

Definition GetChecked (iref : Z) : IRT bool :=
  if iref =? 0 then sret false
  else if bool_decide (GetIndirectRefKind iref = kHandleScopeOrInvalid) then AbortIfNoCheckJNI ;; sret false
  else
    do t <- sget (fun t => t);
    let idx := ExtractIndex iref in
    if topIndex (segment_state_ t) <=? idx then AbortIfNoCheckJNI ;; sret false
    else
      do r <- reference_at idx;
      if IsNull r then AbortIfNoCheckJNI ;; sret false
      else
        do ok <- CheckEntry iref idx;
        if negb ok then sret false else sret true.

Definition Get (iref : Z) : IRT Z :=
  do ok <- GetChecked iref;
  if negb ok then sret 0 else reference_at (ExtractIndex iref).

Definition Update (iref obj : Z) : IRT unit :=
  do ok <- GetChecked iref;
  if negb ok then sret tt else set_reference (ExtractIndex iref) obj.

(** [VisitRoots], for a visitor that replaces the object at an address by [visit] of it. *)
Fixpoint visit_roots (visit : Z -> Z) (indices : list nat) : IRT unit :=
  match indices with
  | [] => sret tt
  | i :: indices =>
      do r <- reference_at (Z.of_nat i);
      (if IsNull r then sret tt
       else set_reference (Z.of_nat i) (visit r) ;; irt_check (negb (IsNull (visit r)))) ;;
      visit_roots visit indices
  end.
Definition VisitRoots (visit : Z -> Z) : IRT unit :=
  do t <- sget (fun t => t); visit_roots visit (seq 0 (Z.to_nat (Capacity t))).

(** [AssertEmpty]: returns if no entry holds a reference. *)
Fixpoint assert_empty (indices : list nat) : IRT unit :=
  match indices with
  | [] => sret tt
  | i :: indices => do r <- reference_at (Z.of_nat i); irt_check (IsNull r) ;; assert_empty indices
  end.
Definition AssertEmpty : IRT unit :=
  do t <- sget (fun t => t); assert_empty (seq 0 (Z.to_nat (Capacity t))).

(** [Trim]: the pages past the top of the table are given back, and read as zero afterwards.  The
    table starts at a page and an entry has [kIRTPrevCount + 1] words of four bytes. *)
Definition kPageSize : Z := 4096.
Definition first_trimmed (top : Z) : Z :=
  let entry_bytes := (kIRTPrevCount + 1) * 4 in
  (top * entry_bytes + kPageSize - 1) / kPageSize * kPageSize / entry_bytes.
Definition Trim : IRT unit :=
  smod (fun t =>
    let keep := Z.to_nat (first_trimmed (Capacity t)) in
    mkTable (segment_state_ t)
      (take keep (table_ t) ++ replicate (length (table_ t) - keep) zero_entry) (kind_ t) (max_entries_ t)).
End Table.
