(* ===== verification/LocalReferences.v ===== *)
(** * JNI local references

    The local references of a thread: the parts of [JNIEnvExt] (runtime/jni_env_ext.h, -inl.h and
    .cc) that manage the frames of its indirect reference table, the decoding of references
    ([Thread::DecodeJObject] of runtime/thread.cc), the JNI functions for local frames
    (runtime/jni_internal.cc) and the entry and exit of native methods
    (runtime/entrypoints/quick/quick_jni_entrypoints.cc). *)

From S2P Require Import Prelude IndirectReferenceTable.

Definition kLocalsInitial : Z := 64.
Definition kLocalsMax : Z := 512.

(** How references that are not local are read. *)
Class JniDecoder := {
  ReadHandleScope : Z -> Z;
  DecodeGlobal : Z -> Z;
  DecodeWeakGlobal : Z -> Z;
  IsClearedJniWeakGlobal : Z -> bool
}.

(** The last cookie pushed is the head of the list. *)
Record JNIEnvExt := mkEnv {
  local_ref_cookie : Z;
  stacked_local_ref_cookies : list Z;
  locals : IndirectReferenceTable
}.

Section Env.
Context {HR : JniRuntime}.
Abbreviation ENV := (SM JNIEnvExt).
Local Open Scope sm_scope.

Definition NewEnv : option JNIEnvExt :=
  mkEnv IRT_FIRST_SEGMENT [] <$> NewTable kLocalsInitial kLocalsMax kLocal.

(** An operation of the table. *)
Definition on_locals {A} (m : SM IndirectReferenceTable A) : ENV A := fun env =>
  match m (locals env) with
  | Some (a, t) => Some (a, mkEnv (local_ref_cookie env) (stacked_local_ref_cookies env) t)
  | None => None
  end.
Definition set_cookie (c : Z) : ENV unit :=
  smod (fun env => mkEnv c (stacked_local_ref_cookies env) (locals env)).
Definition set_stack (cs : list Z) : ENV unit :=
  smod (fun env => mkEnv (local_ref_cookie env) cs (locals env)).

Definition NewLocalRef (obj : Z) : ENV Z :=
  if obj =? 0 then sret 0
  else do env <- sget (fun env => env); on_locals (Add (local_ref_cookie env) obj).

Definition DeleteLocalRef (obj : Z) : ENV unit :=
  if negb (obj =? 0) then
    do env <- sget (fun env => env);
    do removed <- on_locals (Remove (local_ref_cookie env) obj);
    sret tt
  else sret tt.

Definition PushFrame : ENV unit :=
  do env <- sget (fun env => env);
  set_stack (local_ref_cookie env :: stacked_local_ref_cookies env) ;;
  set_cookie (GetSegmentState (locals env)).

Definition PopFrame : ENV unit :=
  do env <- sget (fun env => env);
  on_locals (SetSegmentState (local_ref_cookie env)) ;;
  match stacked_local_ref_cookies env with
  | c :: cs => set_cookie c ;; set_stack cs
  | [] => sfail
  end.

(** [JniMethodStart], but for the change of the thread's state; its result is kept by the caller
    and given back at the end. *)
Definition JniMethodStart : ENV Z :=
  do env <- sget (fun env => env);
  set_cookie (GetSegmentState (locals env)) ;;
  sret (local_ref_cookie env).

Definition PopLocalReferences (saved_local_ref_cookie : Z) : ENV unit :=
  do env <- sget (fun env => env);
  on_locals (SetSegmentState (local_ref_cookie env)) ;;
  set_cookie saved_local_ref_cookie.

Definition JniMethodEnd (saved_local_ref_cookie : Z) : ENV unit :=
  PopLocalReferences saved_local_ref_cookie.

Context {HD : JniDecoder}.

(** [JniAbortF] does not return. *)
Definition DecodeJObject (obj : Z) : ENV Z :=
  if obj =? 0 then sret 0
  else
    match GetIndirectRefKind obj with
    | kLocal => do result <- on_locals (Get obj); if result =? 0 then sfail else sret result
    | kHandleScopeOrInvalid =>
        if HandleScopeContains obj then
          if ReadHandleScope obj =? 0 then sfail else sret (ReadHandleScope obj)
        else sfail
    | kGlobal => if DecodeGlobal obj =? 0 then sfail else sret (DecodeGlobal obj)
    | kWeakGlobal =>
        if IsClearedJniWeakGlobal (DecodeWeakGlobal obj) then sret 0
        else if DecodeWeakGlobal obj =? 0 then sfail else sret (DecodeWeakGlobal obj)
    end.

Definition AddLocalReference (obj : Z) : ENV Z :=
  if obj =? 0 then sret 0
  else do env <- sget (fun env => env); on_locals (Add (local_ref_cookie env) obj).

(** [true] is [JNI_OK]. *)
Definition EnsureLocalCapacityInternal (desired_capacity : Z) : ENV bool :=
  if (desired_capacity <? 0) || (kLocalsMax <? desired_capacity) then sret false
  else
    do env <- sget (fun env => env);
    sret (desired_capacity <=? s32 (kLocalsMax - Capacity (locals env))).

Definition PushLocalFrame (capacity : Z) : ENV bool :=
  do ok <- EnsureLocalCapacityInternal capacity;
  if negb ok then sret false else PushFrame ;; sret true.

Definition PopLocalFrame (java_survivor : Z) : ENV Z :=
  do survivor <- DecodeJObject java_survivor;
  PopFrame ;;
  AddLocalReference survivor.

(** [JNI::NewLocalRef], which copies a reference. *)
Definition JniNewLocalRef (obj : Z) : ENV Z :=
  do decoded_obj <- DecodeJObject obj;
  if decoded_obj =? 0 then sret 0 else AddLocalReference decoded_obj.

Definition JniMethodEndWithReference (IsExceptionPending : bool) (result saved_local_ref_cookie : Z) : ENV Z :=
  do o <- (if IsExceptionPending then sret 0 else DecodeJObject result);
  PopLocalReferences saved_local_ref_cookie ;;
  sret o.
End Env.
