(* ===== verification/IndirectReferenceProofs.v ===== *)
(** * The invariant of indirect reference tables

    The count of holes and the top of each segment are right between operations; each operation
    of the table against the references it is about. *)

From S2P Require Import Prelude IndirectReferenceTable.

(** ** Counting holes *)
Fixpoint count_range (P : nat -> bool) (a k : nat) : nat :=
  match k with O => 0 | S k => count_range P a k + (if P (a + k)%nat then 1 else 0) end.

Lemma count_range_le P a k : (count_range P a k <= k)%nat.
Proof. induction k; cbn; [lia|]. destruct (P _); lia. Qed.

Lemma count_range_ext P Q a k : (forall i, (a <= i < a + k)%nat -> P i = Q i) -> count_range P a k = count_range Q a k.
Proof.
  induction k as [|k IH]; intros H; cbn; [done|]. rewrite IH by (intros; apply H; lia).
  by rewrite H by lia.
Qed.

Lemma count_range_pos P a k : (0 < count_range P a k)%nat <-> exists i, (a <= i < a + k)%nat /\ P i = true.
Proof.
  induction k as [|k IH]; cbn; [split; [lia|intros (i & ? & _); lia]|]. split.
  - destruct (P (a + k)%nat) eqn:E; [intros _; exists (a + k)%nat; split; [lia|done]|].
    intros H. destruct IH as [IH _]. destruct (IH ltac:(lia)) as (i & ? & ?). exists i. split; [lia|done].
  - intros (i & Hi & Pi). destruct (decide (i = a + k)%nat) as [->|Hne]; [rewrite Pi; lia|].
    destruct IH as [_ IH]. assert (0 < count_range P a k)%nat; [|lia]. apply IH. exists i. split; [lia|done].
Qed.

(** Changing one element of the range. *)
Lemma count_range_change P Q a k j : (a <= j < a + k)%nat -> (forall i, i <> j -> P i = Q i) ->
  (count_range P a k + (if Q j then 1 else 0) = count_range Q a k + (if P j then 1 else 0))%nat.
Proof.
  intros Hj E. induction k as [|k IH]; [lia|]. cbn. destruct (decide (j = a + k)%nat) as [->|Hne].
  - rewrite (count_range_ext P Q) by (intros; apply E; lia). lia.
  - rewrite (E (a + k)%nat) by done. specialize (IH ltac:(lia)). lia.
Qed.

Section Table.
Context {HR : JniRuntime}.

(** ** Entries and references *)
Record entry_ok (e : IrtEntry) : Prop := mkEntryOk {
  eo_serial : 0 <= serial_ e < kIRTPrevCount;
  eo_references : length (references_ e) = Z.to_nat kIRTPrevCount
}.

Definition ref_of (e : IrtEntry) : Z := default 0 (references_ e !! Z.to_nat (serial_ e)).
Definition ref_at (t : IndirectReferenceTable) (i : nat) : Z := from_option ref_of 0 (table_ t !! i).

(** The reference to entry [i] as it is now. *)
Definition handle_of (k : IndirectRefKind) (serial : Z) (i : nat) : Z :=
  Z.lor (Z.lor (u32 (Z.shiftl serial 20)) (Z.shiftl (Z.of_nat i) 2)) (kind_bits k).
Definition handle (t : IndirectReferenceTable) (i : nat) : Z :=
  handle_of (kind_ t) (from_option serial_ 0 (table_ t !! i)) i.

Lemma prev_count : 3 <= kIRTPrevCount <= 7.
Proof. unfold kIRTPrevCount. destruct kIsDebugBuild; lia. Qed.

Lemma handle_value k s i : 0 <= s < 8 -> Z.of_nat i < 65536 ->
  handle_of k s i = s * 2 ^ 20 + Z.of_nat i * 4 + kind_bits k.
Proof.
  intros Hs Hi. assert (0 <= kind_bits k < 2 ^ 2) as Hk by (destruct k; cbn; lia). unfold handle_of.
  rewrite wrapu_small by (rewrite Z.shiftl_mul_pow2 by lia; unfold in_u; lia).
  assert (Z.shiftl (Z.of_nat i) 2 = Z.of_nat i * 4) as E by (by rewrite Z.shiftl_mul_pow2).
  rewrite (Z.lor_comm (Z.shiftl s 20)), (lor_shiftl_add _ s 20) by (rewrite ?E; lia).
  replace (Z.shiftl (Z.of_nat i) 2 + s * 2 ^ 20) with (Z.shiftl (Z.of_nat i + s * 2 ^ 18) 2)
    by (rewrite !Z.shiftl_mul_pow2 by lia; lia).
  rewrite Z.lor_comm, lor_shiftl_add by lia. lia.
Qed.

Lemma handle_index k s i : 0 <= s < 8 -> Z.of_nat i < 65536 -> ExtractIndex (handle_of k s i) = Z.of_nat i.
Proof.
  intros Hs Hi. rewrite handle_value by done. unfold ExtractIndex. change 0xffff with (Z.ones 16).
  rewrite Z.land_ones, Z.shiftr_div_pow2 by lia. assert (0 <= kind_bits k < 4) by (destruct k; cbn; lia).
  change (2 ^ 2) with 4. change (2 ^ 16) with 65536. change (2 ^ 20) with 1048576. dlia.
Qed.

Lemma handle_kind k s i : 0 <= s < 8 -> Z.of_nat i < 65536 -> GetIndirectRefKind (handle_of k s i) = k.
Proof.
  intros Hs Hi. rewrite handle_value by done. unfold GetIndirectRefKind. change 3 with (Z.ones 2).
  rewrite Z.land_ones by lia.
  replace ((s * 2 ^ 20 + Z.of_nat i * 4 + kind_bits k) mod 2 ^ 2) with (kind_bits k); [by destruct k|].
  assert (0 <= kind_bits k < 4) by (destruct k; cbn; lia). change (2 ^ 2) with 4. change (2 ^ 20) with 1048576. dlia.
Qed.

(** ** Well-formed tables *)
Record table_ok (t : IndirectReferenceTable) : Prop := mkTableOk {
  to_entries : Forall entry_ok (table_ t);
  to_length : Z.of_nat (length (table_ t)) = max_entries_ t;
  to_max : max_entries_ t < 65536;
  to_kind : kind_ t <> kHandleScopeOrInvalid
}.

Lemma table_lookup t i : table_ok t -> 0 <= i < max_entries_ t -> exists e,
  table_entry t i = Some e /\ table_ t !! Z.to_nat i = Some e /\ entry_ok e
  /\ GetReference e = Some (ref_at t (Z.to_nat i)) /\ handle t (Z.to_nat i) = handle_of (kind_ t) (serial_ e) (Z.to_nat i).
Proof.
  intros Ht Hi. destruct (lookup_lt_is_Some_2 (table_ t) (Z.to_nat i)) as [e He].
  { pose proof (to_length t Ht). lia. }
  exists e. assert (entry_ok e) as Hok by (by eapply Forall_lookup_1; [apply Ht|]).
  unfold table_entry, GetReference, ref_at, handle, ref_of. rewrite (proj2 (Z.leb_le 0 i)), He by lia.
  destruct Hok as [Hs Hr]. rewrite (proj2 (Z.ltb_lt _ _)) by lia. cbn.
  destruct (lookup_lt_is_Some_2 (references_ e) (Z.to_nat (serial_ e))) as [r Hrr]; [lia|].
  rewrite Hrr. split_and!; try done; by constructor.
Qed.

Lemma serial_small e : entry_ok e -> 0 <= serial_ e < 8.
Proof. intros [? _]. pose proof prev_count. lia. Qed.

(** *** Rules for the steps of the operations *)
Lemma runs_check (b : bool) t (Q : unit -> IndirectReferenceTable -> Prop) : b -> Q tt t -> runs (irt_check b) t Q.
Proof. destruct b; [done|]. by intros []. Qed.

Lemma runs_entry_at i e t (Q : IrtEntry -> IndirectReferenceTable -> Prop) :
  table_entry t i = Some e -> Q e t -> runs (entry_at i) t Q.
Proof. intros E H. unfold runs, entry_at, lift_option. by rewrite E. Qed.

Lemma runs_reference_at i t (Q : Z -> IndirectReferenceTable -> Prop) : table_ok t -> 0 <= i < max_entries_ t ->
  Q (ref_at t (Z.to_nat i)) t -> runs (reference_at i) t Q.
Proof.
  intros Ht Hi HQ. destruct (table_lookup t i Ht Hi) as (e & E & _ & _ & Hr & _).
  apply runs_bind, (runs_entry_at i e); [done|]. unfold runs, lift_option. by rewrite Hr.
Qed.

Lemma runs_to_ref i t (Q : Z -> IndirectReferenceTable -> Prop) : table_ok t -> 0 <= i < max_entries_ t ->
  Q (handle t (Z.to_nat i)) t -> runs (ToIndirectRef i) t Q.
Proof.
  intros Ht Hi HQ. destruct (table_lookup t i Ht Hi) as (e & E & _ & _ & _ & Hh).
  pose proof (to_max t Ht). apply runs_bind, runs_check; [by rewrite (proj2 (Z.ltb_lt _ _)) by lia|].
  apply runs_bind, (runs_entry_at i e); [done|]. apply runs_bind, runs_get, runs_ret.
  rewrite Hh in HQ. unfold handle_of in HQ. by rewrite Z2Nat.id in HQ by lia.
Qed.

Lemma handle_facts t i : table_ok t -> 0 <= i < max_entries_ t ->
  ExtractIndex (handle t (Z.to_nat i)) = i /\ GetIndirectRefKind (handle t (Z.to_nat i)) = kind_ t
  /\ handle t (Z.to_nat i) <> 0.
Proof.
  intros Ht Hi. destruct (table_lookup t i Ht Hi) as (e & _ & _ & He & _ & ->).
  pose proof (serial_small e He). pose proof (to_max t Ht). rewrite handle_index, handle_kind by lia.
  split_and!; [lia|done|]. rewrite handle_value by lia. pose proof (to_kind t Ht).
  assert (0 < kind_bits (kind_ t)) by (by destruct (kind_ t)). lia.
Qed.

(** A table whose entry [i] is replaced. *)
Definition with_entry (t : IndirectReferenceTable) (i : Z) (e : IrtEntry) (s : IRTSegmentState) : IndirectReferenceTable :=
  mkTable s (<[Z.to_nat i := e]> (table_ t)) (kind_ t) (max_entries_ t).

Lemma with_entry_ok t i e s : table_ok t -> entry_ok e -> table_ok (with_entry t i e s).
Proof.
  intros [H1 H2 H3 H4] He. constructor; cbn; [by apply Forall_insert|by rewrite length_insert|done|done].
Qed.

Lemma with_entry_at t i e s : table_ok t -> 0 <= i < max_entries_ t ->
  ref_at (with_entry t i e s) (Z.to_nat i) = ref_of e
  /\ handle (with_entry t i e s) (Z.to_nat i) = handle_of (kind_ t) (serial_ e) (Z.to_nat i).
Proof.
  intros Ht Hi. pose proof (to_length t Ht). unfold ref_at, handle. cbn.
  by rewrite list_lookup_insert_eq by lia.
Qed.

Lemma with_entry_other t i e s j : j <> Z.to_nat i ->
  ref_at (with_entry t i e s) j = ref_at t j /\ handle (with_entry t i e s) j = handle t j.
Proof. intros Hj. unfold ref_at, handle. cbn. by rewrite list_lookup_insert_ne by done. Qed.

Lemma entry_add_ok obj e : entry_ok e -> entry_ok (EntryAdd obj e) /\ ref_of (EntryAdd obj e) = obj.
Proof.
  intros [Hs Hr]. pose proof prev_count. unfold EntryAdd.
  rewrite wrapu_small by (unfold in_u; lia).
  assert (0 <= (if serial_ e + 1 =? kIRTPrevCount then 0 else serial_ e + 1) < kIRTPrevCount) as Hn.
  { destruct (Z.eqb_spec (serial_ e + 1) kIRTPrevCount); lia. }
  split; [constructor; cbn; [done|by rewrite length_insert]|].
  unfold ref_of. cbn. rewrite list_lookup_insert_eq by lia. done.
Qed.

Lemma set_reference_ok obj e : entry_ok e -> exists e', SetReference obj e = Some e' /\ entry_ok e'
  /\ serial_ e' = serial_ e /\ ref_of e' = obj.
Proof.
  intros [Hs Hr]. unfold SetReference. rewrite (proj2 (Z.ltb_lt _ _)) by lia. eexists. split; [done|].
  split; [constructor; cbn; [done|by rewrite length_insert]|]. split; [done|].
  unfold ref_of. cbn. rewrite list_lookup_insert_eq by lia. done.
Qed.

Lemma runs_set_reference i obj t (Q : unit -> IndirectReferenceTable -> Prop) : table_ok t -> 0 <= i < max_entries_ t ->
  (forall e, entry_ok e -> ref_of e = obj -> handle_of (kind_ t) (serial_ e) (Z.to_nat i) = handle t (Z.to_nat i) ->
    Q tt (with_entry t i e (segment_state_ t))) ->
  runs (set_reference i obj) t Q.
Proof.
  intros Ht Hi HQ. destruct (table_lookup t i Ht Hi) as (e & E & _ & He & _ & Hh).
  destruct (set_reference_ok obj e He) as (e' & E' & He' & Hs & Hr).
  apply runs_bind, (runs_entry_at i e); [done|]. apply runs_bind. unfold lift_option. rewrite E'.
  apply runs_ret, runs_mod. apply HQ; [done..|]. by rewrite Hs, Hh.
Qed.

(** ** Segments *)
Definition null_at (t : IndirectReferenceTable) (i : nat) : bool := ref_at t i =? 0.
Definition holes (t : IndirectReferenceTable) (a b : Z) : Z :=
  Z.of_nat (count_range (null_at t) (Z.to_nat a) (Z.to_nat (b - a))).

(** The segment from the top of [prev] to that of [cur]: its last entry is not a hole, and the
    difference of the counts is the number of its holes. *)
Record seg_ok (t : IndirectReferenceTable) (prev cur : IRTSegmentState) : Prop := mkSegOk {
  so_order : 0 <= topIndex prev <= topIndex cur;
  so_max : topIndex cur <= max_entries_ t;
  so_base : 0 <= numHoles prev <= topIndex prev;
  so_holes : numHoles cur = numHoles prev + holes t (topIndex prev) (topIndex cur);
  so_top : topIndex prev < topIndex cur -> ref_at t (Z.to_nat (topIndex cur - 1)) <> 0
}.

Lemma holes_bound t a b : a <= b -> 0 <= holes t a b <= b - a.
Proof. intros H. unfold holes. pose proof (count_range_le (null_at t) (Z.to_nat a) (Z.to_nat (b - a))). lia. Qed.

Lemma holes_pos t a b : 0 <= a -> 0 < holes t a b <-> exists i, a <= i < b /\ ref_at t (Z.to_nat i) = 0.
Proof.
  intros Ha. unfold holes. rewrite <- Nat2Z.inj_0, <- Nat2Z.inj_lt, count_range_pos. split.
  - intros (i & Hi & E). exists (Z.of_nat i). rewrite Nat2Z.id. split; [lia|]. by apply Z.eqb_eq.
  - intros (i & Hi & E). exists (Z.to_nat i). split; [lia|]. unfold null_at. by rewrite E.
Qed.

Lemma holes_ext t t' a b : 0 <= a -> (forall i, a <= i < b -> ref_at t (Z.to_nat i) = ref_at t' (Z.to_nat i)) ->
  holes t a b = holes t' a b.
Proof.
  intros Ha H. unfold holes. f_equal. apply count_range_ext. intros i Hi. unfold null_at.
  specialize (H (Z.of_nat i)). rewrite Nat2Z.id in H. by rewrite H by lia.
Qed.

Lemma holes_snoc t a b : 0 <= a <= b -> holes t a (b + 1) = holes t a b + (if ref_at t (Z.to_nat b) =? 0 then 1 else 0).
Proof.
  intros H. unfold holes. replace (Z.to_nat (b + 1 - a)) with (S (Z.to_nat (b - a))) by lia. cbn.
  replace (Z.to_nat a + Z.to_nat (b - a))%nat with (Z.to_nat b) by lia. unfold null_at. destruct (_ =? _); lia.
Qed.

(** One entry of the range changes. *)
Lemma holes_change t t' a b j : 0 <= a <= j -> j < b ->
  (forall i, i <> Z.to_nat j -> ref_at t' i = ref_at t i) ->
  holes t' a b + (if ref_at t (Z.to_nat j) =? 0 then 1 else 0)
  = holes t a b + (if ref_at t' (Z.to_nat j) =? 0 then 1 else 0).
Proof.
  intros Hj Hb E. unfold holes.
  pose proof (count_range_change (null_at t') (null_at t) (Z.to_nat a) (Z.to_nat (b - a)) (Z.to_nat j) ltac:(lia)) as H.
  specialize (H ltac:(intros i Hi; unfold null_at; by rewrite E)). unfold null_at in *.
  destruct (ref_at t (Z.to_nat j) =? 0), (ref_at t' (Z.to_nat j) =? 0); lia.
Qed.

Lemma seg_bounds t prev cur : table_ok t -> seg_ok t prev cur ->
  0 <= topIndex cur < 65536 /\ 0 <= numHoles cur <= topIndex cur /\ numHoles prev <= numHoles cur.
Proof.
  intros Ht [H1 H2 H3 H4 _]. pose proof (to_max t Ht). pose proof (holes_bound t (topIndex prev) (topIndex cur)). lia.
Qed.

Lemma u16_small z : 0 <= z < 65536 -> u16 z = z.
Proof. intros H. apply wrapu_small. exact H. Qed.

(** ** Adding a reference *)
Lemma scan_hole_ok t bottom p : table_ok t -> Z.of_nat p < max_entries_ t -> 0 <= bottom ->
  (exists i, bottom <= i <= Z.of_nat p /\ ref_at t (Z.to_nat i) = 0) ->
  runs (scan_hole bottom p) t (fun r t' => t' = t /\ bottom <= r <= Z.of_nat p /\ ref_at t (Z.to_nat r) = 0).
Proof.
  intros Ht. induction p as [|p IH]; intros Hp Hb (i & Hi & E);
    (apply runs_bind, runs_reference_at; [done|lia|]); rewrite Nat2Z.id; unfold IsNull.
  - assert (i = 0) as -> by lia. change (Z.to_nat 0) with 0%nat in E. rewrite E. by apply runs_ret.
  - destruct (Z.eqb_spec (ref_at t (S p)) 0) as [E'|Hne].
    { apply runs_ret. split_and!; [done|lia|lia|]. by rewrite Nat2Z.id. }
    assert (i <> Z.of_nat (S p)) by (intros ->; by rewrite Nat2Z.id in E).
    apply runs_bind, runs_check; [by rewrite (proj2 (Z.leb_le _ _)) by lia|].
    eapply runs_mono; [apply IH; [lia|lia|exists i; split; [lia|done]]|]. intros r t' (? & ? & ?). split_and!; [done|lia|lia|done].
Qed.

(** [r] is a new reference to [obj], in the segment above [prev]. *)
Definition added (t : IndirectReferenceTable) (prev : IRTSegmentState) (obj r : Z) (t' : IndirectReferenceTable) : Prop :=
  exists i e s', 0 <= i < max_entries_ t /\ topIndex prev <= i < topIndex s' /\ t' = with_entry t i e s'
  /\ entry_ok e /\ ref_of e = obj /\ r = handle t' (Z.to_nat i) /\ seg_ok t' prev s'
  /\ ((i = topIndex (segment_state_ t) /\ topIndex s' = i + 1)
      \/ (ref_at t (Z.to_nat i) = 0 /\ topIndex s' = topIndex (segment_state_ t))).

Lemma add_entry t0 t i obj prev s' : table_ok t -> 0 <= i < max_entries_ t -> obj <> 0 ->
  segment_state_ t = s' -> table_ t = table_ t0 -> kind_ t = kind_ t0 -> max_entries_ t = max_entries_ t0 ->
  topIndex prev <= i < topIndex s' ->
  (forall e, entry_ok e -> ref_of e = obj -> seg_ok (with_entry t0 i e s') prev s') ->
  ((i = topIndex (segment_state_ t0) /\ topIndex s' = i + 1)
   \/ (ref_at t0 (Z.to_nat i) = 0 /\ topIndex s' = topIndex (segment_state_ t0))) ->
  runs (do e <- entry_at i; set_entry i (EntryAdd obj e) ;;
        do result <- ToIndirectRef i; irt_check (negb (result =? 0)) ;; sret result)%sm t
    (fun r t' => added t0 prev obj r t').
Proof.
  intros Ht Hi Hobj Es Et Ek Em Hin Hseg Hcase. destruct (table_lookup t i Ht Hi) as (e & E & _ & He & _).
  destruct (entry_add_ok obj e He) as [He' Hr].
  apply runs_bind, (runs_entry_at i e); [done|]. apply runs_bind, runs_mod.
  assert (mkTable (segment_state_ t) (<[Z.to_nat i := EntryAdd obj e]> (table_ t)) (kind_ t) (max_entries_ t)
    = with_entry t0 i (EntryAdd obj e) s') as -> by (unfold with_entry; congruence).
  assert (table_ok (with_entry t0 i (EntryAdd obj e) s')) as Ht'.
  { pose proof (with_entry_ok t i (EntryAdd obj e) s' Ht He') as H. unfold with_entry in *. congruence. }
  apply runs_bind, runs_to_ref; [done|cbn; lia|].
  destruct (handle_facts (with_entry t0 i (EntryAdd obj e) s') i Ht' ltac:(cbn; lia)) as (_ & _ & Hnz).
  apply runs_bind, runs_check; [by rewrite (proj2 (Z.eqb_neq _ _))|]. apply runs_ret.
  exists i, (EntryAdd obj e), s'. split_and!; auto; lia.
Qed.

Lemma seg_fill t prev i e : table_ok t -> seg_ok t prev (segment_state_ t) ->
  topIndex prev <= i < topIndex (segment_state_ t) - 1 -> ref_at t (Z.to_nat i) = 0 -> entry_ok e -> ref_of e <> 0 ->
  let s' := mkSegment (topIndex (segment_state_ t)) (numHoles (segment_state_ t) - 1) in
  seg_ok (with_entry t i e s') prev s'.
Proof.
  intros Ht [H1 H2 H3 H4 H5] Hi E He Hr s'. destruct (with_entry_at t i e s' Ht ltac:(lia)) as [Ei _].
  constructor; cbn; auto.
  - pose proof (holes_change t (with_entry t i e s') (topIndex prev) (topIndex (segment_state_ t)) i ltac:(lia) ltac:(lia)) as H.
    specialize (H ltac:(intros j Hj; by apply with_entry_other)).
    rewrite E, Ei, (proj2 (Z.eqb_neq (ref_of e) 0)) in H by done. cbn in H. lia.
  - intros Hlt. destruct (with_entry_other t i e s' (Z.to_nat (topIndex (segment_state_ t) - 1)) ltac:(lia)) as [-> _]. auto.
Qed.

Lemma seg_push t prev e : table_ok t -> seg_ok t prev (segment_state_ t) ->
  topIndex (segment_state_ t) < max_entries_ t -> entry_ok e -> ref_of e <> 0 ->
  let s' := mkSegment (topIndex (segment_state_ t) + 1) (numHoles (segment_state_ t)) in
  seg_ok (with_entry t (topIndex (segment_state_ t)) e s') prev s'.
Proof.
  intros Ht [H1 H2 H3 H4 H5] Hlt He Hr s'.
  destruct (with_entry_at t (topIndex (segment_state_ t)) e s' Ht ltac:(lia)) as [Ei _].
  constructor; cbn; auto; [lia|lia| |].
  - rewrite holes_snoc, Ei, (proj2 (Z.eqb_neq (ref_of e) 0)) by (done || lia).
    rewrite (holes_ext _ t); [lia|lia|]. intros j Hj. apply with_entry_other. lia.
  - intros _. replace (topIndex (segment_state_ t) + 1 - 1) with (topIndex (segment_state_ t)) by lia. by rewrite Ei.
Qed.

Lemma Add_ok t cookie obj : table_ok t -> seg_ok t (segment_of cookie) (segment_state_ t) -> obj <> 0 ->
  topIndex (segment_state_ t) < max_entries_ t ->
  runs (Add cookie obj) t (fun r t' => added t (segment_of cookie) obj r t').
Proof.
  intros Ht Hs Hobj Hlt. destruct (seg_bounds t _ _ Ht Hs) as (Hb1 & Hb2 & Hb3).
  pose proof Hs as [H1 H2 H3 H4 H5]. unfold Add. cbv zeta. set (prev := segment_of cookie) in *. clearbody prev.
  apply runs_bind, runs_get. apply runs_bind, runs_check; [unfold IsNull; by rewrite (proj2 (Z.eqb_neq _ _))|].
  apply runs_bind, runs_check; [by rewrite (proj2 (Z.leb_le _ _) Hb3)|].
  rewrite (proj2 (Z.eqb_neq _ _)) by lia. apply runs_bind.
  destruct (Z.ltb_spec 0 (numHoles (segment_state_ t) - numHoles prev)) as [Hpos|Hno].
  - destruct (proj1 (holes_pos t (topIndex prev) (topIndex (segment_state_ t)) ltac:(lia)) ltac:(lia)) as (i0 & Hi0 & E0).
    specialize (H5 ltac:(lia)).
    assert (i0 <> topIndex (segment_state_ t) - 1) by (by intros ->).
    apply runs_bind, runs_check; [by rewrite (proj2 (Z.ltb_lt _ _)) by lia|].
    apply runs_bind, runs_reference_at; [done|lia|].
    apply runs_bind, runs_check; [unfold IsNull; by rewrite (proj2 (Z.eqb_neq _ _))|].
    apply runs_bind. eapply runs_mono.
    { apply scan_hole_ok; [done|lia|lia|]. exists i0. split; [lia|done]. }
    intros i t' (-> & Hi & E). apply runs_bind, runs_bind, runs_get, runs_mod, runs_ret. cbv beta.
    rewrite u16_small by lia. eapply runs_mono.
    { eapply (add_entry t _ i obj prev); cbn; try reflexivity; [|lia|done|cbn; lia| |by right].
      - destruct Ht as [T1 T2 T3 T4]. by constructor.
      - intros e He Hr. apply seg_fill; [done|done|lia|done|done|by rewrite Hr]. }
    done.
  - apply runs_bind, runs_bind, runs_get, runs_mod, runs_ret. cbv beta. rewrite u16_small by (pose proof (to_max t Ht); lia).
    eapply runs_mono.
    { eapply (add_entry t _ (topIndex (segment_state_ t)) obj prev); cbn; try reflexivity; [|lia|done|cbn; lia| |by left].
      - destruct Ht as [T1 T2 T3 T4]. by constructor.
      - intros e He Hr. apply seg_push; [done|done|lia|done|by rewrite Hr]. }
    done.
Qed.

(** ** Removing a reference *)
Lemma eat_holes_ok fuel : forall t bottom top n, table_ok t -> 0 <= bottom < top -> top <= max_entries_ t ->
  n = holes t bottom (top - 1) -> (Z.to_nat (top - bottom) <= fuel)%nat ->
  runs (eat_holes fuel bottom top n) t (fun res t' => t' = t /\ bottom <= res.1 < top
    /\ res.2 = holes t bottom res.1 /\ (bottom < res.1 -> ref_at t (Z.to_nat (res.1 - 1)) <> 0)
    /\ forall i, res.1 <= i < top - 1 -> ref_at t (Z.to_nat i) = 0).
Proof.
  induction fuel as [|fuel IH]; intros t bottom top n Ht Hb Hm Hn Hf; [lia|]. cbn [eat_holes].
  destruct (Z.ltb_spec bottom (top - 1)) as [Hlt|Hge]; cbn [andb].
  - destruct (Z.eqb_spec n 0) as [E|Hne]; cbn [negb].
    + apply runs_ret. cbn. split_and!; auto; [lia|lia| |lia]. intros _ E'.
      assert (0 < holes t bottom (top - 1)); [|lia]. apply holes_pos; [lia|]. exists (top - 2).
      replace (top - 1 - 1) with (top - 2) in E' by lia. split; [lia|done].
    + apply runs_bind, runs_reference_at; [done|lia|]. unfold IsNull.
      pose proof (holes_snoc t bottom (top - 2) ltac:(lia)) as Hsn. replace (top - 2 + 1) with (top - 1) in Hsn by lia.
      replace (top - 1 - 1) with (top - 2) by lia.
      destruct (Z.eqb_spec (ref_at t (Z.to_nat (top - 2))) 0) as [E|E]; cbn [negb].
      * eapply runs_mono; [apply (IH t bottom (top - 1) (n - 1)); [done|lia|lia| |lia]|].
        { replace (top - 1 - 1) with (top - 2) by lia. lia. }
        intros res t' (-> & Hr & Hh & Ht' & Hz). split_and!; auto; [lia|lia|].
        intros i Hi. destruct (decide (i = top - 2)) as [->|]; [done|]. apply Hz. lia.
      * apply runs_ret. cbn. split_and!; auto; [lia|lia| |lia]. intros _.
        by replace (top - 1 - 1) with (top - 2) by lia.
  - apply runs_ret. cbn. split_and!; auto; lia.
Qed.

(** The object a reference stands for, if it is to an entry between [a] and [b]. *)
Definition live (t : IndirectReferenceTable) (a b r : Z) : option Z :=
  let i := ExtractIndex r in
  if (a <=? i) && (i <? b) && negb (ref_at t (Z.to_nat i) =? 0) && (handle t (Z.to_nat i) =? r)
  then Some (ref_at t (Z.to_nat i)) else None.

Lemma live_Some t a b r o : live t a b r = Some o <->
  a <= ExtractIndex r < b /\ o <> 0 /\ ref_at t (Z.to_nat (ExtractIndex r)) = o
  /\ handle t (Z.to_nat (ExtractIndex r)) = r.
Proof.
  unfold live. destruct (Z.leb_spec a (ExtractIndex r)), (Z.ltb_spec (ExtractIndex r) b); cbn [andb];
    try (split; [done|]; intros ((? & ?) & _); lia).
  destruct (Z.eqb_spec (ref_at t (Z.to_nat (ExtractIndex r))) 0); cbn [negb andb];
    [split; [done|]; intros (_ & ? & ? & _); congruence|].
  destruct (Z.eqb_spec (handle t (Z.to_nat (ExtractIndex r))) r); split; try done.
  - intros [= <-]. split_and!; auto.
  - by intros (_ & _ & -> & _).
  - by intros (_ & _ & _ & ?).
Qed.

Lemma live_None t a b r : live t a b r = None <->
  ~ (a <= ExtractIndex r < b /\ ref_at t (Z.to_nat (ExtractIndex r)) <> 0 /\ handle t (Z.to_nat (ExtractIndex r)) = r).
Proof.
  destruct (live t a b r) as [o|] eqn:E.
  - apply live_Some in E as (? & ? & ? & ?). split; [done|]. intros []. split_and!; congruence || tauto.
  - split; [|done]. intros _ (? & ? & ?).
    assert (live t a b r = Some (ref_at t (Z.to_nat (ExtractIndex r)))) by (by apply live_Some). congruence.
Qed.

Lemma runs_check_entry iref idx t (Q : bool -> IndirectReferenceTable -> Prop) : table_ok t -> 0 <= idx < max_entries_ t ->
  (handle t (Z.to_nat idx) = iref -> Q true t) ->
  (handle t (Z.to_nat idx) <> iref -> IsCheckJniEnabled /\ Q false t) ->
  runs (CheckEntry iref idx) t Q.
Proof.
  intros Ht Hi H1 H2. apply runs_bind, runs_to_ref; [done..|].
  destruct (Z.eqb_spec (handle t (Z.to_nat idx)) iref) as [E|E]; cbn [negb]; [apply runs_ret; auto|].
  destruct (H2 E). apply runs_bind, runs_check; [done|]. by apply runs_ret.
Qed.

(** The entry of [r] is cleared and the segment ends below the holes at its top. *)
Definition removed (t : IndirectReferenceTable) (prev : IRTSegmentState) (r : Z) (t' : IndirectReferenceTable) : Prop :=
  exists e s', let i := ExtractIndex r in t' = with_entry t i e s' /\ entry_ok e /\ ref_of e = 0
  /\ handle_of (kind_ t) (serial_ e) (Z.to_nat i) = handle t (Z.to_nat i) /\ seg_ok t' prev s'
  /\ topIndex s' <= topIndex (segment_state_ t)
  /\ forall j, topIndex s' <= j < topIndex (segment_state_ t) -> ref_at t' (Z.to_nat j) = 0.

Lemma remove_top_ok t prev r : table_ok t -> seg_ok t prev (segment_state_ t) ->
  ExtractIndex r = topIndex (segment_state_ t) - 1 -> topIndex prev <= ExtractIndex r ->
  handle t (Z.to_nat (ExtractIndex r)) = r ->
  runs (remove_top prev r (ExtractIndex r) (topIndex (segment_state_ t))) t (fun ok t' => ok = true /\ removed t prev r t').
Proof.
  intros Ht Hs Ei Hlow Hh. destruct (seg_bounds t _ _ Ht Hs) as (Hb1 & Hb2 & Hb3).
  pose proof Hs as [H1 H2 H3 H4 H5]. set (cur := segment_state_ t) in *. specialize (H5 ltac:(lia)).
  apply runs_bind, runs_check_entry; [done|lia|intros _|done]. cbn [negb].
  apply runs_bind, runs_set_reference; [done|lia|]. intros e He Hr Hhe. apply runs_bind, runs_get.
  pose proof (holes_snoc t (topIndex prev) (topIndex cur - 1) ltac:(lia)) as Hsn.
  rewrite (proj2 (Z.eqb_neq _ _) H5) in Hsn. replace (topIndex cur - 1 + 1) with (topIndex cur) in Hsn by lia.
  set (t1 := with_entry t (ExtractIndex r) e (segment_state_ t)).
  assert (forall s, holes (with_entry t (ExtractIndex r) e s) (topIndex prev) (topIndex cur - 1)
    = holes t (topIndex prev) (topIndex cur - 1)) as Hsame.
  { intros s. apply holes_ext; [lia|]. intros j Hj. apply with_entry_other. lia. }
  assert (forall s, ref_at (with_entry t (ExtractIndex r) e s) (Z.to_nat (ExtractIndex r)) = 0) as Hz.
  { intros s. destruct (with_entry_at t (ExtractIndex r) e s Ht ltac:(lia)) as [-> _]. done. }
  assert (forall top' n', topIndex prev <= top' < topIndex cur -> n' = holes t1 (topIndex prev) top' ->
    (topIndex prev < top' -> ref_at t1 (Z.to_nat (top' - 1)) <> 0) ->
    (forall i, top' <= i < topIndex cur - 1 -> ref_at t1 (Z.to_nat i) = 0) ->
    removed t prev r (with_entry t (ExtractIndex r) e (mkSegment top' (n' + numHoles prev)))) as Hdone.
  { intros top' n' Ht' Hn' Htop Hzero. exists e, (mkSegment top' (n' + numHoles prev)). split_and!; auto.
    - constructor; cbn; auto; [lia|lia|]. rewrite Hn', Z.add_comm. by f_equal.
    - cbn. fold cur. lia.
    - cbn. fold cur. intros j Hj. destruct (decide (j = topIndex cur - 1)) as [->|]; [rewrite <- Ei; apply Hz|].
      apply Hzero. lia. }
  apply runs_bind. cbv zeta. change (segment_state_ t1) with cur.
  destruct (Z.eqb_spec (numHoles cur - numHoles prev) 0) as [E0|Hne]; cbn [negb].
  - apply runs_bind, runs_get, runs_mod, runs_ret. cbv beta. rewrite u16_small by lia. split; [done|].
    replace (numHoles (segment_state_ t1)) with (0 + numHoles prev) by (unfold t1; cbn; fold cur; lia).
    apply Hdone; [lia| | |intros; lia].
    + unfold t1. rewrite Hsame. lia.
    + intros Hlt E. assert (0 < holes t (topIndex prev) (topIndex cur - 1)); [|lia].
      rewrite <- (Hsame cur). apply holes_pos; [lia|]. exists (topIndex cur - 2).
      split; [lia|]. by replace (topIndex cur - 2) with (topIndex cur - 1 - 1) by lia.
  - apply runs_bind. eapply runs_mono.
    { apply (eat_holes_ok _ t1 (topIndex prev) (topIndex cur)); [by apply with_entry_ok|lia|cbn; lia| |lia].
      unfold t1. rewrite Hsame. lia. }
    intros [top' n'] t2 (-> & Hr' & Hn' & Htop & Hzero). cbn [fst snd] in *.
    pose proof (holes_bound t1 (topIndex prev) top' ltac:(lia)) as Hbd.
    apply runs_bind, runs_bind, runs_get, runs_mod, runs_bind, runs_get, runs_mod, runs_ret. cbv beta.
    cbn [numHoles segment_state_ topIndex]. rewrite !u16_small by lia. split; [done|]. by apply Hdone.
Qed.

Lemma remove_inner_ok t prev r : table_ok t -> seg_ok t prev (segment_state_ t) ->
  topIndex prev <= ExtractIndex r < topIndex (segment_state_ t) - 1 ->
  ref_at t (Z.to_nat (ExtractIndex r)) <> 0 -> handle t (Z.to_nat (ExtractIndex r)) = r ->
  runs (remove_inner r (ExtractIndex r)) t (fun ok t' => ok = true /\ removed t prev r t').
Proof.
  intros Ht Hs Hi Hne Hh. destruct (seg_bounds t _ _ Ht Hs) as (Hb1 & Hb2 & Hb3).
  pose proof Hs as [H1 H2 H3 H4 H5].
  apply runs_bind, runs_reference_at; [done|lia|]. unfold IsNull. rewrite (proj2 (Z.eqb_neq _ _) Hne).
  apply runs_bind, runs_check_entry; [done|lia|intros _|done]. cbn [negb].
  apply runs_bind, runs_set_reference; [done|lia|]. intros e He Hr Hhe. apply runs_bind, runs_get.
  apply runs_bind, runs_bind, runs_get, runs_mod, runs_ret. cbv beta. cbn [segment_state_ with_entry numHoles topIndex].
  set (s' := mkSegment (topIndex (segment_state_ t)) (numHoles (segment_state_ t) + 1)).
  pose proof (holes_change t (with_entry t (ExtractIndex r) e s') (topIndex prev) (topIndex (segment_state_ t)) (ExtractIndex r)
    ltac:(lia) ltac:(lia) ltac:(intros j Hj; by apply with_entry_other)) as Hch.
  destruct (with_entry_at t (ExtractIndex r) e s' Ht ltac:(lia)) as [Ei _].
  rewrite Ei, Hr, (proj2 (Z.eqb_neq _ _) Hne) in Hch. cbn in Hch.
  pose proof (holes_bound (with_entry t (ExtractIndex r) e s') (topIndex prev) (topIndex (segment_state_ t)) ltac:(lia)).
  rewrite u16_small by (pose proof (to_max t Ht); lia). split; [done|].
  exists e, s'. split_and!; auto; [|cbn; lia|cbn; lia]. change (seg_ok (with_entry t (ExtractIndex r) e s') prev s').
  constructor; cbn [topIndex numHoles max_entries_ s' with_entry]; auto; [lia|]. intros Hlt.
  destruct (with_entry_other t (ExtractIndex r) e s' (Z.to_nat (topIndex (segment_state_ t) - 1)) ltac:(lia)) as [-> _]. auto.
Qed.

Lemma live_reference t a b r o : table_ok t -> 0 <= a -> b <= max_entries_ t -> live t a b r = Some o ->
  GetIndirectRefKind r = kind_ t /\ GetIndirectRefKind r <> kHandleScopeOrInvalid /\ r <> 0.
Proof.
  intros Ht Ha Hb Hl. apply live_Some in Hl as (Hi & _ & _ & Hh).
  destruct (handle_facts t (ExtractIndex r) Ht ltac:(lia)) as (_ & Hk & Hz). rewrite Hh in Hk, Hz.
  split_and!; [done|rewrite Hk; apply Ht|done].
Qed.

Lemma Remove_live t cookie r o : table_ok t -> seg_ok t (segment_of cookie) (segment_state_ t) ->
  live t (topIndex (segment_of cookie)) (topIndex (segment_state_ t)) r = Some o ->
  runs (Remove cookie r) t (fun ok t' => ok = true /\ removed t (segment_of cookie) r t').
Proof.
  intros Ht Hs Hl. destruct (seg_bounds t _ _ Ht Hs) as (_ & _ & Hb3). pose proof Hs as [H1 H2 _ _ _].
  destruct (live_reference t (topIndex (segment_of cookie)) (topIndex (segment_state_ t)) r o Ht ltac:(lia) ltac:(lia) Hl) as (_ & Hk & _).
  apply live_Some in Hl as (Hi & Ho & Er & Hh). unfold Remove. cbv zeta.
  apply runs_bind, runs_get. apply runs_bind, runs_check; [by rewrite (proj2 (Z.leb_le _ _) Hb3)|].
  rewrite bool_decide_eq_false_2 by done. cbn [andb].
  rewrite (proj2 (Z.ltb_ge _ _)), (proj2 (Z.leb_gt _ _)) by lia.
  destruct (Z.eqb_spec (ExtractIndex r) (topIndex (segment_state_ t) - 1)) as [E|E].
  - by apply remove_top_ok; [done..|lia|].
  - apply remove_inner_ok; [done..|lia|congruence|done].
Qed.

(** Without CheckJNI a stale reference aborts. *)
Lemma Remove_dead t cookie r : table_ok t -> seg_ok t (segment_of cookie) (segment_state_ t) ->
  live t (topIndex (segment_of cookie)) (topIndex (segment_state_ t)) r = None -> IsCheckJniEnabled ->
  runs (Remove cookie r) t (fun _ t' => t' = t).
Proof.
  intros Ht Hs Hl Hc. destruct (seg_bounds t _ _ Ht Hs) as (_ & _ & Hb3). pose proof Hs as [H1 H2 _ _ H5].
  rewrite live_None in Hl. unfold Remove. cbv zeta.
  apply runs_bind, runs_get. apply runs_bind, runs_check; [by rewrite (proj2 (Z.leb_le _ _) Hb3)|].
  destruct (bool_decide _ && _); [by apply runs_ret|].
  destruct (Z.ltb_spec (ExtractIndex r) (topIndex (segment_of cookie))); [by apply runs_ret|].
  destruct (Z.leb_spec (topIndex (segment_state_ t)) (ExtractIndex r)); [by apply runs_ret|].
  destruct (Z.eqb_spec (ExtractIndex r) (topIndex (segment_state_ t) - 1)) as [E|E].
  - apply runs_bind, runs_check_entry; [done|lia| |].
    + intros Hh. exfalso. apply Hl. split_and!; [lia|lia| |done]. rewrite E. apply H5. lia.
    + intros _. split; [done|]. by apply runs_ret.
  - apply runs_bind, runs_reference_at; [done|lia|]. unfold IsNull.
    destruct (Z.eqb_spec (ref_at t (Z.to_nat (ExtractIndex r))) 0) as [Ez|Ez]; [by apply runs_ret|].
    apply runs_bind, runs_check_entry; [done|lia| |].
    + intros Hh. exfalso. apply Hl. split_and!; [lia|lia|done|done].
    + intros _. split; [done|]. by apply runs_ret.
Qed.

(** ** Looking a reference up *)
Lemma GetChecked_live t r o : table_ok t -> topIndex (segment_state_ t) <= max_entries_ t ->
  live t 0 (topIndex (segment_state_ t)) r = Some o -> runs (GetChecked r) t (fun ok t' => ok = true /\ t' = t).
Proof.
  intros Ht Hm Hl. destruct (live_reference t 0 (topIndex (segment_state_ t)) r o Ht ltac:(lia) ltac:(lia) Hl) as (_ & Hk & Hz).
  apply live_Some in Hl as (Hi & Ho & Er & Hh). unfold GetChecked.
  rewrite (proj2 (Z.eqb_neq _ _) Hz), bool_decide_eq_false_2 by done. apply runs_bind, runs_get. cbv zeta.
  rewrite (proj2 (Z.leb_gt _ _)) by lia. apply runs_bind, runs_reference_at; [done|lia|].
  unfold IsNull. rewrite Er, (proj2 (Z.eqb_neq _ _) Ho).
  apply runs_bind, runs_check_entry; [done|lia|intros _; by apply runs_ret|done].
Qed.

Lemma GetChecked_dead t r : table_ok t -> 0 <= topIndex (segment_state_ t) <= max_entries_ t ->
  live t 0 (topIndex (segment_state_ t)) r = None -> IsCheckJniEnabled ->
  runs (GetChecked r) t (fun ok t' => ok = false /\ t' = t).
Proof.
  intros Ht Hm Hl Hc. rewrite live_None in Hl. unfold GetChecked.
  assert (0 <= ExtractIndex r) as H0 by (unfold ExtractIndex; change 0xffff with (Z.ones 16); rewrite Z.land_ones by lia; apply Z.mod_pos_bound; lia).
  assert (runs (AbortIfNoCheckJNI ;; sret false)%sm t (fun ok t' => ok = false /\ t' = t)) as Hab.
  { apply runs_bind, runs_check; [done|]. by apply runs_ret. }
  destruct (r =? 0); [by apply runs_ret|]. destruct (bool_decide _); [done|].
  apply runs_bind, runs_get. cbv zeta. destruct (Z.leb_spec (topIndex (segment_state_ t)) (ExtractIndex r)); [done|].
  apply runs_bind, runs_reference_at; [done|lia|]. unfold IsNull.
  destruct (Z.eqb_spec (ref_at t (Z.to_nat (ExtractIndex r))) 0) as [Ez|Ez]; [done|].
  apply runs_bind, runs_check_entry; [done|lia| |].
  - intros Hh. exfalso. apply Hl. split_and!; [lia|lia|done|done].
  - intros _. split; [done|]. by apply runs_ret.
Qed.

Lemma Get_live t r o : table_ok t -> topIndex (segment_state_ t) <= max_entries_ t ->
  live t 0 (topIndex (segment_state_ t)) r = Some o -> runs (Get r) t (fun x t' => x = o /\ t' = t).
Proof.
  intros Ht Hm Hl. apply runs_bind. eapply runs_mono; [by apply (GetChecked_live t r o)|].
  intros ok t' [-> ->]. apply live_Some in Hl as (Hi & Ho & Er & Hh). cbn [negb].
  by apply runs_reference_at; [done|lia|].
Qed.

Lemma Get_dead t r : table_ok t -> 0 <= topIndex (segment_state_ t) <= max_entries_ t ->
  live t 0 (topIndex (segment_state_ t)) r = None -> IsCheckJniEnabled -> runs (Get r) t (fun x t' => x = 0 /\ t' = t).
Proof.
  intros Ht Hm Hl Hc. apply runs_bind. eapply runs_mono; [by apply GetChecked_dead|].
  intros ok t' [-> ->]. by apply runs_ret.
Qed.

(** ** The collector *)

(** What a visit leaves at an entry. *)
Definition moved (visit : Z -> Z) (x : Z) : Z := if x =? 0 then 0 else visit x.

Lemma visit_roots_ok visit k : (forall x, x <> 0 -> visit x <> 0) -> forall a t, table_ok t ->
  Z.of_nat (a + k) <= max_entries_ t ->
  runs (visit_roots visit (seq a k)) t (fun _ t' => table_ok t' /\ segment_state_ t' = segment_state_ t
    /\ kind_ t' = kind_ t /\ max_entries_ t' = max_entries_ t
    /\ forall i, handle t' i = handle t i
       /\ ref_at t' i = if decide (a <= i < a + k)%nat then moved visit (ref_at t i) else ref_at t i).
Proof.
  intros Hv. induction k as [|k IH]; intros a t Ht Hm; cbn [seq visit_roots].
  { apply runs_ret. split_and!; try done. intros i. by rewrite decide_False by lia. }
  apply runs_bind, runs_reference_at; [done|lia|]. rewrite Nat2Z.id. apply runs_bind. unfold IsNull.
  destruct (Z.eqb_spec (ref_at t a) 0) as [E|Hne].
  - apply runs_ret. eapply runs_mono; [apply IH; [done|lia]|]. intros _ t' (H1 & H2 & H3 & H4 & H5).
    split_and!; try done. intros i. destruct (H5 i) as [Hh Hr]. split; [done|]. rewrite Hr.
    destruct (decide (i = a)) as [->|]; [|repeat destruct (decide _); lia || done].
    rewrite decide_False, decide_True, E by lia. done.
  - apply runs_bind, runs_set_reference; [done|lia|]. intros e He Hre Hhe. rewrite Nat2Z.id in Hhe.
    pose proof (Hv _ Hne) as Hvn. apply runs_check; [by rewrite (proj2 (Z.eqb_neq _ _) Hvn)|].
    destruct (with_entry_at t (Z.of_nat a) e (segment_state_ t) Ht ltac:(lia)) as [Ea Eh]. rewrite Nat2Z.id in Ea, Eh.
    eapply runs_mono; [apply IH; [by apply with_entry_ok|cbn; lia]|]. intros _ t' (H1 & H2 & H3 & H4 & H5).
    split_and!; try done. intros i. destruct (H5 i) as [Hh Hr]. rewrite Hh, Hr. destruct (decide (i = a)) as [->|Hia].
    + rewrite decide_False, decide_True, Ea, Eh by lia. split; [by rewrite Hhe|].
      unfold moved. by rewrite (proj2 (Z.eqb_neq _ _) Hne), Hre.
    + destruct (with_entry_other t (Z.of_nat a) e (segment_state_ t) i ltac:(lia)) as [-> ->]. split; [done|].
      repeat destruct (decide _); lia || done.
Qed.

Lemma moved_zero visit x : (forall x, x <> 0 -> visit x <> 0) -> moved visit x = 0 <-> x = 0.
Proof.
  intros Hv. unfold moved. destruct (Z.eqb_spec x 0); [done|]. split; [|done]. intros E. by apply Hv in E.
Qed.

(** ** Trimming *)
Lemma first_trimmed_ge top : 0 <= top -> top <= first_trimmed top.
Proof.
  intros H. unfold first_trimmed, kPageSize, kIRTPrevCount. destruct kIsDebugBuild; cbv zeta.
  - change ((7 + 1) * 4) with 32. dlia.
  - change ((3 + 1) * 4) with 16. dlia.
Qed.

Lemma zero_entry_ok : entry_ok zero_entry.
Proof. pose proof prev_count. constructor; cbn; [lia|by rewrite length_replicate]. Qed.

Lemma Trim_ok t : table_ok t -> 0 <= Capacity t ->
  runs Trim t (fun _ t' => table_ok t' /\ segment_state_ t' = segment_state_ t
    /\ kind_ t' = kind_ t /\ max_entries_ t' = max_entries_ t
    /\ forall i, 0 <= i < Capacity t -> ref_at t' (Z.to_nat i) = ref_at t (Z.to_nat i)
       /\ handle t' (Z.to_nat i) = handle t (Z.to_nat i)).
Proof.
  intros Ht Hc. pose proof (first_trimmed_ge (Capacity t) Hc) as Hge. apply runs_mod. cbv zeta.
  set (keep := Z.to_nat (first_trimmed (Capacity t))) in *.
  split_and!; try done.
  - destruct Ht as [H1 H2 H3 H4]. constructor; cbn; try done.
    + apply Forall_app. split; [by apply Forall_take|]. apply Forall_replicate, zero_entry_ok.
    + rewrite length_app, length_take, length_replicate. lia.
  - intros i Hi. unfold ref_at, handle. cbn.
    destruct (decide (Z.to_nat i < length (table_ t))%nat) as [Hlt|Hge'].
    + rewrite lookup_app_l by (rewrite length_take; lia). by rewrite lookup_take_lt by lia.
    + rewrite lookup_ge_None_2 by (rewrite length_app, length_take, length_replicate; lia).
      by rewrite lookup_ge_None_2 by lia.
Qed.
End Table.
