(* ===== verification/LocalReferenceTheorems.v ===== *)
(** * Theorems about JNI local references

    The local references of a thread refine a stack of frames, each a finite map from references
    to objects: for every client, native calls and local frames included.  The runs at the limits
    of the design: a stale reference after its entry has been used again, and a table that is
    full of holes. *)

From S2P Require Import Prelude IndirectReferenceTable LocalReferences IndirectReferenceProofs.

(** ** The specification *)
Inductive frame_kind := NativeFrame | LocalFrame.

(** The frame of the thread itself is the last one and has no kind. *)
Record Frames := mkFrames { kinds : list frame_kind; frames : list (gmap Z Z) }.

Inductive call :=
| CallNew (obj : Z)
| CallCopy (ref : Z)
| CallDelete (ref : Z)
| CallDecode (ref : Z)
| CallPush (capacity : Z)
| CallPop (survivor : Z)
| CallEnter
| CallLeave
| CallReturn (result : Z)
| CallCollect (move : Z -> Z)
| CallTrim.

Definition holds (F : Frames) (ref obj : Z) : Prop := exists f, f ∈ frames F /\ f !! ref = Some obj.
(** A reference and the object it decodes to: null, or one that is held. *)
Definition decodes (F : Frames) (ref obj : Z) : Prop := (ref = 0 /\ obj = 0) \/ holds F ref obj.
Definition fresh (F : Frames) (ref : Z) : Prop :=
  ref <> 0 /\ GetIndirectRefKind ref = kLocal /\ forall f, f ∈ frames F -> f !! ref = None.

(** A new reference to an object, or null for null. *)
Inductive new_ref : Frames -> Z -> Z -> Frames -> Prop :=
| new_null F : new_ref F 0 0 F
| new_object k f fs obj ref : obj <> 0 -> fresh (mkFrames k (f :: fs)) ref ->
    new_ref (mkFrames k (f :: fs)) obj ref (mkFrames k (<[ref := obj]> f :: fs)).

(** The same references to objects that have moved. *)
Definition moved_frame (move : Z -> Z) (f : gmap Z Z) : gmap Z Z := move <$> f.

Inductive spec_step : Frames -> call -> Z -> Frames -> Prop :=
| step_new F obj ref F' : new_ref F obj ref F' -> spec_step F (CallNew obj) ref F'
| step_copy F ref obj ref' F' : decodes F ref obj -> new_ref F obj ref' F' -> spec_step F (CallCopy ref) ref' F'
| step_delete k f fs ref : spec_step (mkFrames k (f :: fs)) (CallDelete ref) 0 (mkFrames k (delete ref f :: fs))
| step_decode F ref obj : decodes F ref obj -> spec_step F (CallDecode ref) obj F
| step_push k fs capacity : spec_step (mkFrames k fs) (CallPush capacity) 1 (mkFrames (LocalFrame :: k) (∅ :: fs))
| step_push_refused F capacity : spec_step F (CallPush capacity) 0 F
| step_pop k f fs survivor obj ref F' : decodes (mkFrames (LocalFrame :: k) (f :: fs)) survivor obj ->
    new_ref (mkFrames k fs) obj ref F' ->
    spec_step (mkFrames (LocalFrame :: k) (f :: fs)) (CallPop survivor) ref F'
| step_enter k fs : spec_step (mkFrames k fs) CallEnter 0 (mkFrames (NativeFrame :: k) (∅ :: fs))
| step_leave k f fs : spec_step (mkFrames (NativeFrame :: k) (f :: fs)) CallLeave 0 (mkFrames k fs)
| step_return k f fs result obj : decodes (mkFrames (NativeFrame :: k) (f :: fs)) result obj ->
    spec_step (mkFrames (NativeFrame :: k) (f :: fs)) (CallReturn result) obj (mkFrames k fs)
| step_collect k fs move : spec_step (mkFrames k fs) (CallCollect move) 0 (mkFrames k (map (moved_frame move) fs))
| step_trim F : spec_step F CallTrim 0 F.

(** What a client has to respect: the references it passes are null or held, and frames are
    closed in the order they were opened.  The collector, which may run between calls, moves
    objects to addresses that are not null. *)
Definition allowed (checks : bool) (F : Frames) (c : call) : Prop :=
  match c with
  | CallNew _ | CallPush _ | CallEnter | CallTrim => True
  | CallCollect move => forall x, x <> 0 -> move x <> 0
  | CallDelete ref => checks \/ exists f, head (frames F) = Some f /\ is_Some (f !! ref)
  | CallCopy ref | CallDecode ref => exists obj, decodes F ref obj
  | CallPop ref => head (kinds F) = Some LocalFrame /\ exists obj, decodes F ref obj
  | CallLeave => head (kinds F) = Some NativeFrame
  | CallReturn ref => head (kinds F) = Some NativeFrame /\ exists obj, decodes F ref obj
  end.

(** ** The implementation *)
Section Refinement.
Context {HR : JniRuntime} {HD : JniDecoder}.

(** The environment of the thread and the cookies its native calls have saved. *)
Definition JniState : Type := JNIEnvExt * list Z.
Definition on_env {A} (m : SM JNIEnvExt A) : SM JniState A := fun st =>
  match m st.1 with Some (a, env) => Some (a, (env, st.2)) | None => None end.
Local Open Scope sm_scope.

Definition unsaved (leave : Z -> SM JNIEnvExt Z) : SM JniState Z := fun st =>
  match st.2 with
  | saved :: rest => on_env (leave saved) (st.1, rest)
  | [] => None
  end.

Definition exec_call (c : call) : SM JniState Z :=
  match c with
  | CallNew obj => on_env (NewLocalRef obj)
  | CallCopy ref => on_env (JniNewLocalRef ref)
  | CallDelete ref => do u <- on_env (DeleteLocalRef ref); sret 0
  | CallDecode ref => on_env (DecodeJObject ref)
  | CallPush capacity => do ok <- on_env (PushLocalFrame capacity); sret (if ok : bool then 1 else 0)
  | CallPop survivor => on_env (PopLocalFrame survivor)
  | CallEnter => do saved <- on_env JniMethodStart; smod (fun st => (st.1, saved :: st.2)) ;; sret 0
  | CallLeave => unsaved (fun saved => JniMethodEnd saved ;; sret 0)
  | CallReturn result => unsaved (JniMethodEndWithReference false result)
  | CallCollect move => do u <- on_env (on_locals (VisitRoots move)); sret 0
  | CallTrim => do u <- on_env (on_locals Trim); sret 0
  end.

(** ** The relation *)
Fixpoint frames_ok (t : IndirectReferenceTable) (s : IRTSegmentState) (cs : list Z) (fs : list (gmap Z Z)) : Prop :=
  match cs, fs with
  | [], [] => s = mkSegment 0 0
  | c :: cs, f :: fs =>
      seg_ok t (segment_of c) s
      /\ (forall r, f !! r = live t (topIndex (segment_of c)) (topIndex s) r)
      /\ frames_ok t (segment_of c) cs fs
  | _, _ => False
  end.

(** The cookies below the current one, from the two places they are kept in. *)
Fixpoint merged (ks : list frame_kind) (stacked saved : list Z) : option (list Z) :=
  match ks with
  | [] => match stacked, saved with [], [] => Some [] | _, _ => None end
  | LocalFrame :: ks => match stacked with c :: stacked => cons c <$> merged ks stacked saved | [] => None end
  | NativeFrame :: ks => match saved with c :: saved => cons c <$> merged ks stacked saved | [] => None end
  end.

Record env_ok (env : JNIEnvExt) (cs : list Z) (fs : list (gmap Z Z)) : Prop := mkEnvOk {
  ev_table : table_ok (locals env);
  ev_kind : kind_ (locals env) = kLocal;
  ev_max : max_entries_ (locals env) = kLocalsMax;
  ev_frames : frames_ok (locals env) (segment_state_ (locals env)) (local_ref_cookie env :: cs) fs
}.

Definition represents (st : JniState) (F : Frames) : Prop := exists cs,
  merged (kinds F) (stacked_local_ref_cookies st.1) st.2 = Some cs /\ env_ok st.1 cs (frames F).

(** *** What the relation depends on *)
Lemma seg_ok_agree t t' prev s : (forall i, 0 <= i < topIndex s -> ref_at t' (Z.to_nat i) = ref_at t (Z.to_nat i)) ->
  max_entries_ t' = max_entries_ t -> seg_ok t prev s -> seg_ok t' prev s.
Proof.
  intros E Em [H1 H2 H3 H4 H5]. constructor; auto.
  - by rewrite Em.
  - rewrite H4. f_equal. apply holes_ext; [lia|]. intros i Hi. symmetry. apply E. lia.
  - intros H. rewrite E by lia. auto.
Qed.

Lemma live_agree t t' a b r : 0 <= a -> (forall i, a <= i < b -> ref_at t' (Z.to_nat i) = ref_at t (Z.to_nat i)
  /\ handle t' (Z.to_nat i) = handle t (Z.to_nat i)) -> live t' a b r = live t a b r.
Proof.
  intros Ha E. unfold live.
  destruct (Z.leb_spec a (ExtractIndex r)), (Z.ltb_spec (ExtractIndex r) b); try done. cbn [andb].
  by destruct (E (ExtractIndex r) ltac:(lia)) as [-> ->].
Qed.

Lemma frames_agree t t' cs : forall s fs, (forall i, 0 <= i < topIndex s -> ref_at t' (Z.to_nat i) = ref_at t (Z.to_nat i)
  /\ handle t' (Z.to_nat i) = handle t (Z.to_nat i)) -> max_entries_ t' = max_entries_ t ->
  frames_ok t s cs fs -> frames_ok t' s cs fs.
Proof.
  induction cs as [|c cs IH]; intros s [|f fs] E Em; try done. intros (Hs & Hf & Hr). pose proof (so_order _ _ _ Hs).
  cbn. split_and!.
  - apply (seg_ok_agree t); [|done|done]. intros i Hi. by apply E.
  - intros r. rewrite Hf. symmetry. apply live_agree; [lia|]. intros i Hi. apply E. lia.
  - apply IH; [|done|done]. intros i Hi. apply E. lia.
Qed.

(** A reference is held by a frame exactly when the table has it. *)
Lemma frames_live t cs : forall s fs r o, frames_ok t s cs fs ->
  (exists f, f ∈ fs /\ f !! r = Some o) <-> live t 0 (topIndex s) r = Some o.
Proof.
  induction cs as [|c cs IH]; intros s [|f fs] r o; try done.
  - intros ->. split; [by intros (f & ?%not_elem_of_nil & _)|]. intros Hl. apply live_Some in Hl as (? & _). cbn in *. lia.
  - intros (Hs & Hf & Hr). pose proof (so_order _ _ _ Hs). specialize (IH _ fs r o Hr).
    rewrite !live_Some in *. split.
    + intros (f' & [->|Hin]%elem_of_cons & E).
      * rewrite Hf, live_Some in E. split; [lia|tauto].
      * destruct IH as [IH _]. destruct IH as (? & ?); [by exists f'|]. split; [lia|tauto].
    + intros (Hi & Hrest). destruct (decide (topIndex (segment_of c) <= ExtractIndex r)).
      * exists f. split; [set_solver|]. rewrite Hf, live_Some. split; [lia|done].
      * destruct IH as [_ IH]. destruct IH as (f' & ? & ?); [split; [lia|done]|]. exists f'. set_solver.
Qed.

Lemma frames_top t s cs fs : table_ok t -> frames_ok t s cs fs -> cs <> [] ->
  0 <= topIndex s <= max_entries_ t /\ topIndex s < 65536 /\ 0 <= numHoles s < 65536.
Proof.
  intros Ht H Hne. destruct cs as [|c cs], fs as [|f fs]; try done. destruct H as (Hs & _).
  destruct (seg_bounds t _ _ Ht Hs). pose proof (so_max _ _ _ Hs). pose proof (so_order _ _ _ Hs). lia.
Qed.

(** *** The operations of the table on frames *)
Lemma added_frames t c cs f fs obj r t' : table_ok t -> obj <> 0 ->
  frames_ok t (segment_state_ t) (c :: cs) (f :: fs) -> added t (segment_of c) obj r t' ->
  table_ok t' /\ kind_ t' = kind_ t /\ max_entries_ t' = max_entries_ t
  /\ topIndex (segment_state_ t') <= topIndex (segment_state_ t) + 1
  /\ frames_ok t' (segment_state_ t') (c :: cs) (<[r := obj]> f :: fs)
  /\ r <> 0 /\ GetIndirectRefKind r = kind_ t /\ forall g, g ∈ f :: fs -> g !! r = None.
Proof.
  intros Ht Hobj Hok (i & e & s' & Hi & Hin & -> & He & Hr & Er & Hs' & Hcase).
  pose proof Hok as (Hs & Hf & Hrest). pose proof (so_order _ _ _ Hs).
  pose proof (with_entry_ok t i e s' Ht He) as Ht'.
  destruct (with_entry_at t i e s' Ht Hi) as [Eri Ehi].
  destruct (handle_facts (with_entry t i e s') i Ht' Hi) as (Hx & Hk & Hz). rewrite <- Er in Hx, Hk, Hz.
  assert (forall j, j <> i -> 0 <= j -> ref_at (with_entry t i e s') (Z.to_nat j) = ref_at t (Z.to_nat j)
    /\ handle (with_entry t i e s') (Z.to_nat j) = handle t (Z.to_nat j)) as Hother.
  { intros j Hj Hj0. apply with_entry_other. lia. }
  split_and!; auto; cbn [segment_state_ with_entry].
  - destruct Hcase; lia.
  - split_and!; [done| |].
    + intros r0. destruct (decide (r0 = r)) as [->|Hne].
      { rewrite lookup_insert_eq. symmetry. rewrite live_Some, Hx. split_and!; [lia|lia|done|congruence|done]. }
      rewrite lookup_insert_ne, Hf by done. destruct (decide (ExtractIndex r0 = i)) as [E|Hni].
      * assert (live (with_entry t i e s') (topIndex (segment_of c)) (topIndex s') r0 = None) as ->.
        { rewrite live_None, E. intros (_ & _ & H'). congruence. }
        apply live_None. rewrite E. intros (Hlt & Hnz & _). destruct Hcase as [[? _]|[? _]]; [lia|done].
      * unfold live. destruct (Z.leb_spec (topIndex (segment_of c)) (ExtractIndex r0)); [|done]. cbn [andb].
        destruct (Hother (ExtractIndex r0) Hni ltac:(lia)) as [-> ->].
        assert ((ExtractIndex r0 <? topIndex s') = (ExtractIndex r0 <? topIndex (segment_state_ t))) as ->; [|done].
        destruct Hcase as [[? ?]|[? ?]];
          destruct (Z.ltb_spec (ExtractIndex r0) (topIndex s')), (Z.ltb_spec (ExtractIndex r0) (topIndex (segment_state_ t))); lia.
    + apply (frames_agree t); [|done|done]. intros j Hj. apply Hother; lia.
  - intros g Hg. destruct (g !! r) as [o|] eqn:E; [|done]. exfalso.
    pose proof (proj1 (frames_live t (c :: cs) _ _ r o Hok) ltac:(by exists g)) as Hl.
    apply live_Some in Hl as (Hrange & Ho & Hro & _). rewrite Hx in *. destruct Hcase as [[? _]|[? _]]; [lia|congruence].
Qed.

Lemma removed_frames t c cs f fs r t' : table_ok t ->
  frames_ok t (segment_state_ t) (c :: cs) (f :: fs) -> is_Some (f !! r) -> removed t (segment_of c) r t' ->
  table_ok t' /\ kind_ t' = kind_ t /\ max_entries_ t' = max_entries_ t
  /\ topIndex (segment_state_ t') <= topIndex (segment_state_ t)
  /\ frames_ok t' (segment_state_ t') (c :: cs) (delete r f :: fs).
Proof.
  intros Ht Hok [o Ho] (e & s' & -> & He & Hr & Hh & Hs' & Htop & Hzero).
  pose proof Hok as (Hs & Hf & Hrest). pose proof (so_order _ _ _ Hs). pose proof (so_max _ _ _ Hs).
  rewrite Hf, live_Some in Ho. destruct Ho as (Hi & Hoz & Hro & Hhr).
  pose proof (with_entry_ok t (ExtractIndex r) e s' Ht He) as Ht'.
  destruct (with_entry_at t (ExtractIndex r) e s' Ht ltac:(lia)) as [Eri Ehi].
  assert (forall j, j <> ExtractIndex r -> 0 <= j -> ref_at (with_entry t (ExtractIndex r) e s') (Z.to_nat j) = ref_at t (Z.to_nat j)
    /\ handle (with_entry t (ExtractIndex r) e s') (Z.to_nat j) = handle t (Z.to_nat j)) as Hother.
  { intros j Hj Hj0. apply with_entry_other. lia. }
  pose proof (so_order _ _ _ Hs') as Hlow. cbn [topIndex] in Hlow.
  split_and!; auto; cbn [segment_state_ with_entry]. split_and!; [done| |].
  - intros r0. destruct (decide (ExtractIndex r0 = ExtractIndex r)) as [E|Hni].
    + assert (live (with_entry t (ExtractIndex r) e s') (topIndex (segment_of c)) (topIndex s') r0 = None) as ->.
      { rewrite live_None, E, Eri. tauto. }
      destruct (decide (r0 = r)) as [->|Hne]; [by rewrite lookup_delete_eq|].
      rewrite lookup_delete_ne, Hf, live_None, E by done. intros (_ & _ & ?). congruence.
    + assert (r0 <> r) by congruence. rewrite lookup_delete_ne, Hf by done.
      unfold live. destruct (Z.leb_spec (topIndex (segment_of c)) (ExtractIndex r0)); [|done]. cbn [andb].
      destruct (Hother (ExtractIndex r0) Hni ltac:(lia)) as [Er0 Eh0]. rewrite Er0, Eh0.
      destruct (Z.ltb_spec (ExtractIndex r0) (topIndex s')), (Z.ltb_spec (ExtractIndex r0) (topIndex (segment_state_ t)));
        try done; [lia|]. rewrite <- Er0, (Hzero (ExtractIndex r0)) by lia. done.
  - apply (frames_agree t); [|done|done]. intros j Hj. apply Hother; lia.
Qed.

Lemma segment_word s : 0 <= topIndex s < 65536 -> 0 <= numHoles s < 65536 -> segment_of (segment_all s) = s.
Proof.
  intros H1 H2. destruct s as [a b]. unfold segment_of, segment_all. cbn [topIndex numHoles] in *.
  rewrite (lor_shiftl_add a b 16) by lia. rewrite Z.shiftr_div_pow2 by lia. unfold wrapu.
  change (2 ^ 16) with 65536. f_equal; dlia.
Qed.

(** An empty frame on top. *)
Lemma frames_push t cs fs : table_ok t -> cs <> [] -> frames_ok t (segment_state_ t) cs fs ->
  frames_ok t (segment_state_ t) (GetSegmentState t :: cs) (∅ :: fs).
Proof.
  intros Ht Hne Hok. destruct (frames_top t _ cs fs Ht Hok Hne) as (H1 & H2 & H3).
  assert (holes t (topIndex (segment_state_ t)) (topIndex (segment_state_ t)) = 0) as E0.
  { unfold holes. by rewrite Z.sub_diag. }
  unfold GetSegmentState. cbn [frames_ok]. rewrite segment_word by lia. split_and!; [|intros r|done].
  - constructor; try lia.
    destruct cs as [|c cs], fs as [|f fs]; try done. destruct Hok as (Hs & _).
    destruct (seg_bounds t _ _ Ht Hs). lia.
  - rewrite lookup_empty. symmetry. apply live_None. lia.
Qed.

(** The top frame dropped. *)
Lemma frames_pop t c c' cs f fs s : table_ok t -> frames_ok t s (c :: c' :: cs) (f :: fs) ->
  let t' := mkTable (segment_of c) (table_ t) (kind_ t) (max_entries_ t) in
  table_ok t' /\ topIndex (segment_of c) <= topIndex s /\ frames_ok t' (segment_of c) (c' :: cs) fs.
Proof.
  intros Ht (Hs & _ & Hrest) t'. pose proof (so_order _ _ _ Hs). split_and!; [|lia|].
  - destruct Ht as [T1 T2 T3 T4]. by constructor.
  - by apply (frames_agree t).
Qed.

(** *** The operations of the environment *)
Lemma runs_on_locals {A} (m : SM IndirectReferenceTable A) env (Q : A -> JNIEnvExt -> Prop) :
  runs m (locals env) (fun a t => Q a (mkEnv (local_ref_cookie env) (stacked_local_ref_cookies env) t)) ->
  runs (on_locals m) env Q.
Proof. unfold runs, on_locals. by destruct (m (locals env)) as [[a t]|]. Qed.

Lemma runs_on_env {A} (m : SM JNIEnvExt A) (st : JniState) (Q : A -> JniState -> Prop) :
  runs m st.1 (fun a env => Q a (env, st.2)) -> runs (on_env m) st Q.
Proof. unfold runs, on_env. by destruct (m st.1) as [[a env]|]. Qed.

Abbreviation room env := (Capacity (locals env)).

Lemma AddLocalReference_ok env cs k fs obj : env_ok env cs fs -> room env < kLocalsMax ->
  runs (AddLocalReference obj) env (fun r env' => stacked_local_ref_cookies env' = stacked_local_ref_cookies env
    /\ room env' <= room env + 1
    /\ exists F', new_ref (mkFrames k fs) obj r F' /\ kinds F' = k /\ env_ok env' cs (frames F')).
Proof.
  intros [Ht Hk Hm Hf] Hroom. unfold AddLocalReference. destruct (Z.eqb_spec obj 0) as [->|Hobj].
  - apply runs_ret. split_and!; [done|lia|]. exists (mkFrames k fs). split; [constructor|done].
  - apply runs_bind, runs_get, runs_on_locals. destruct fs as [|f fs]; [done|]. pose proof Hf as (Hs & _).
    eapply runs_mono; [apply Add_ok; [done|done|done|rewrite Hm; exact Hroom]|].
    intros r t' Ha. destruct (added_frames _ _ _ _ _ _ _ _ Ht Hobj Hf Ha) as (Ht' & Hk' & Hm' & Hc & Hf' & Hz & Hkr & Hfr).
    split_and!; [done|done|]. exists (mkFrames k (<[r := obj]> f :: fs)). split_and!; [|done|].
    + constructor; [done|]. split_and!; [done|congruence|done].
    + constructor; cbn; [done|congruence|congruence|done].
Qed.

Lemma decode_held env cs k fs r o : env_ok env cs fs -> decodes (mkFrames k fs) r o ->
  runs (DecodeJObject r) env (fun x env' => x = o /\ env' = env).
Proof.
  intros [Ht Hk Hm Hf] [[-> ->]|Hh]; [by apply runs_ret|].
  apply (frames_live _ _ _ _ r o Hf) in Hh as Hl.
  destruct (frames_top _ _ _ _ Ht Hf ltac:(done)) as (Hcap & _).
  destruct (live_reference _ _ _ r o Ht ltac:(done) (proj2 Hcap) Hl) as (Hkr & _ & Hz).
  unfold DecodeJObject. rewrite (proj2 (Z.eqb_neq _ _) Hz), Hkr, Hk. apply runs_bind, runs_on_locals.
  eapply runs_mono; [apply (Get_live _ r o); [done|lia|done]|]. intros x t' [-> ->].
  apply live_Some in Hl as (_ & Ho & _). rewrite (proj2 (Z.eqb_neq _ _) Ho). apply runs_ret.
  split; [done|]. by destruct env.
Qed.

(** Dropping the top frame, whose cookie is the current one; the next cookie is still to be set. *)
Lemma drop_frame env c' cs f fs (Q : unit -> JNIEnvExt -> Prop) : env_ok env (c' :: cs) (f :: fs) ->
  (forall t, room (mkEnv 0 [] t) <= room env ->
    (forall stacked, env_ok (mkEnv c' stacked t) cs fs) ->
    Q tt (mkEnv (local_ref_cookie env) (stacked_local_ref_cookies env) t)) ->
  runs (on_locals (SetSegmentState (local_ref_cookie env))) env Q.
Proof.
  intros [Ht Hk Hm Hf] HQ. apply runs_on_locals, runs_mod.
  destruct (frames_pop _ _ _ _ _ _ _ Ht Hf) as (Ht' & Hle & Hf'). apply HQ; [exact Hle|].
  intros stacked. constructor; done.
Qed.

(** *** Each call *)
Definition simulates (st : JniState) (F : Frames) (c : call) : Prop :=
  runs (exec_call c) st (fun r st' => room st'.1 <= room st.1 + 1
    /\ exists F', spec_step F c r F' /\ represents st' F').

Lemma sim_new st F obj : represents st F -> room st.1 < kLocalsMax -> simulates st F (CallNew obj).
Proof.
  intros (cs & Hm & He) Hr. destruct F as [k fs]. apply runs_on_env.
  eapply runs_mono; [by apply (AddLocalReference_ok st.1 cs k fs)|].
  intros r env' (Es & Hc & F' & Hn & <- & He'). split; [done|]. exists F'. split; [by constructor|].
  exists cs. cbn in *. by rewrite Es.
Qed.

Lemma sim_copy st F ref obj : represents st F -> room st.1 < kLocalsMax -> decodes F ref obj ->
  simulates st F (CallCopy ref).
Proof.
  intros (cs & Hm & He) Hr Hd. destruct F as [k fs]. apply runs_on_env, runs_bind.
  eapply runs_mono; [by apply (decode_held st.1 cs k fs ref obj)|]. intros x env [-> ->].
  assert (runs (AddLocalReference obj) st.1 (fun r env' => room env' <= room st.1 + 1
    /\ exists F', spec_step (mkFrames k fs) (CallCopy ref) r F' /\ represents (env', st.2) F')) as Hadd.
  { eapply runs_mono; [by apply (AddLocalReference_ok st.1 cs k fs)|].
    intros r env' (Es & Hc & F' & Hn & <- & He'). split; [done|]. exists F'. split; [by econstructor|].
    exists cs. cbn in *. by rewrite Es. }
  destruct (Z.eqb_spec obj 0) as [->|Hobj]; exact Hadd.
Qed.

Lemma sim_delete st F ref : represents st F -> allowed IsCheckJniEnabled F (CallDelete ref) ->
  simulates st F (CallDelete ref).
Proof.
  intros (cs & Hm & [Ht Hk Hmx Hf]) Ha. destruct F as [k [|f fs]]; [done|]. apply runs_bind, runs_on_env.
  pose proof Hf as (Hs & Hlook & _). pose proof (so_order _ _ _ Hs). pose proof (so_max _ _ _ Hs).
  unfold DeleteLocalRef. destruct (f !! ref) as [o|] eqn:E.
  - rewrite Hlook in E.
    destruct (live_reference _ _ _ ref o Ht (proj1 (so_order _ _ _ Hs)) (so_max _ _ _ Hs) E) as (_ & _ & Hz).
    rewrite (proj2 (Z.eqb_neq _ _) Hz). cbn [negb].
    apply runs_bind, runs_get, runs_bind, runs_on_locals.
    eapply runs_mono; [by apply (Remove_live _ _ ref o)|]. intros ok t' [_ Hrm].
    rewrite <- Hlook in E.
    destruct (removed_frames _ _ _ _ _ _ _ Ht Hf ltac:(by exists o) Hrm) as (Ht' & Hk' & Hm' & Hc & Hf').
    apply runs_ret, runs_ret. split; [cbn; unfold Capacity; lia|].
    exists (mkFrames k (delete ref f :: fs)). split; [constructor|]. exists cs. split; [done|].
    constructor; cbn; [done|congruence|congruence|done].
  - assert (IsCheckJniEnabled) as Hck.
    { destruct Ha as [?|(f' & [= <-] & [? ?])]; [done|congruence]. }
    assert (represents (st.1, st.2) (mkFrames k (delete ref f :: fs))) as Hrep.
    { exists cs. rewrite delete_id by done. split; [done|]. by constructor. }
    assert (room st.1 <= room st.1 + 1 /\ exists F', spec_step (mkFrames k (f :: fs)) (CallDelete ref) 0 F'
      /\ represents (st.1, st.2) F') as Hdone.
    { split; [lia|]. eexists. split; [constructor|done]. }
    destruct (Z.eqb_spec ref 0) as [->|Hz]; cbn [negb]; [by apply runs_ret, runs_ret|].
    apply runs_bind, runs_get, runs_bind, runs_on_locals. rewrite Hlook in E.
    eapply runs_mono; [by apply Remove_dead|]. intros ok t' ->. apply runs_ret, runs_ret.
    by destruct st as [[c s t] sv].
Qed.

Lemma sim_decode st F ref obj : represents st F -> decodes F ref obj -> simulates st F (CallDecode ref).
Proof.
  intros (cs & Hm & He) Hd. destruct F as [k fs]. apply runs_on_env.
  eapply runs_mono; [by apply (decode_held st.1 cs k fs ref obj)|]. intros x env [-> ->].
  split; [cbn; lia|]. exists (mkFrames k fs). split; [by constructor|]. by exists cs.
Qed.

Lemma push_ok env cs fs c0 stacked : env_ok env cs fs -> c0 = local_ref_cookie env ->
  env_ok (mkEnv (GetSegmentState (locals env)) stacked (locals env)) (c0 :: cs) (∅ :: fs).
Proof. intros [Ht Hk Hm Hf] ->. constructor; cbn [locals local_ref_cookie]; auto. by apply frames_push. Qed.

Lemma sim_push st F capacity : represents st F -> simulates st F (CallPush capacity).
Proof.
  intros (cs & Hm & He). destruct F as [k fs]. apply runs_bind, runs_on_env, runs_bind.
  assert (forall Q : bool -> JNIEnvExt -> Prop, (forall b, Q b st.1) -> runs (EnsureLocalCapacityInternal capacity) st.1 Q) as Hens.
  { intros Q HQ. unfold EnsureLocalCapacityInternal. destruct (_ || _); [by apply runs_ret|].
    by apply runs_bind, runs_get, runs_ret. }
  apply Hens. intros []; cbn [negb].
  - apply runs_bind, runs_bind, runs_get, runs_bind, runs_mod, runs_mod. cbv beta. apply runs_ret, runs_ret.
    split; [cbn; lia|]. exists (mkFrames (LocalFrame :: k) (∅ :: fs)). split; [constructor|].
    exists (local_ref_cookie st.1 :: cs). cbn in *. rewrite Hm. split; [done|]. by apply push_ok.
  - apply runs_ret, runs_ret. split; [cbn; lia|]. exists (mkFrames k fs). split; [by apply step_push_refused|].
    exists cs. by destruct st.
Qed.

Lemma sim_enter st F : represents st F -> simulates st F CallEnter.
Proof.
  intros (cs & Hm & He). destruct F as [k fs]. apply runs_bind, runs_on_env, runs_bind, runs_get, runs_bind, runs_mod.
  cbv beta. apply runs_ret, runs_bind, runs_mod, runs_ret. split; [cbn; lia|].
  exists (mkFrames (NativeFrame :: k) (∅ :: fs)). split; [constructor|].
  exists (local_ref_cookie st.1 :: cs). cbn in *. rewrite Hm. split; [done|]. by apply push_ok.
Qed.

Lemma sim_pop st k f fs survivor obj : represents st (mkFrames (LocalFrame :: k) (f :: fs)) ->
  room st.1 < kLocalsMax -> decodes (mkFrames (LocalFrame :: k) (f :: fs)) survivor obj ->
  simulates st (mkFrames (LocalFrame :: k) (f :: fs)) (CallPop survivor).
Proof.
  intros (cs & Hm & He) Hr Hd. cbn in Hm. destruct (stacked_local_ref_cookies st.1) as [|c' stacked] eqn:Es; [done|].
  destruct (merged k stacked st.2) as [cs'|] eqn:Em; [|done]. injection Hm as <-.
  apply runs_on_env, runs_bind. eapply runs_mono; [apply (decode_held st.1 (c' :: cs') (LocalFrame :: k) (f :: fs) survivor obj He Hd)|].
  intros x env [-> ->]. apply runs_bind, runs_bind, runs_get. rewrite Es. apply runs_bind.
  eapply (drop_frame st.1 c' cs' f fs); [done|]. intros t Hc He'. apply runs_bind, runs_mod, runs_mod. cbv beta.
  eapply runs_mono; [apply (AddLocalReference_ok _ cs' k fs obj); [apply He'|cbn in *; lia]|].
  intros r env' (Es' & Hc' & F' & Hn & <- & He2). split; [cbn in *; lia|]. exists F'. split; [by econstructor|].
  exists cs'. cbn in *. by rewrite Es'.
Qed.

(** Leaving a native method, after the result has been decoded. *)
Lemma leave_ok st k f fs (Q : unit -> JNIEnvExt -> Prop) saved rest :
  represents st (mkFrames (NativeFrame :: k) (f :: fs)) -> st.2 = saved :: rest ->
  (forall env', room env' <= room st.1 -> represents (env', rest) (mkFrames k fs) -> Q tt env') ->
  runs (PopLocalReferences saved) st.1 Q.
Proof.
  intros (cs & Hm & He) Es HQ. cbn in Hm. rewrite Es in Hm.
  destruct (merged k (stacked_local_ref_cookies st.1) rest) as [cs'|] eqn:Em; [|done]. injection Hm as <-.
  apply runs_bind, runs_get, runs_bind. eapply (drop_frame st.1 saved cs' f fs); [done|].
  intros t Hc He'. apply runs_mod. cbv beta. apply HQ; [exact Hc|]. exists cs'. split; [exact Em|apply He'].
Qed.

Lemma saved_cookie st k f fs : represents st (mkFrames (NativeFrame :: k) (f :: fs)) -> exists saved rest, st.2 = saved :: rest.
Proof. intros (cs & Hm & _). cbn in Hm. destruct st.2; [done|]. eauto. Qed.

Lemma sim_leave st k f fs : represents st (mkFrames (NativeFrame :: k) (f :: fs)) ->
  simulates st (mkFrames (NativeFrame :: k) (f :: fs)) CallLeave.
Proof.
  intros Hrep. destruct (saved_cookie _ _ _ _ Hrep) as (saved & rest & Es).
  unfold simulates, exec_call, unsaved, runs. rewrite Es.
  apply (runs_on_env (JniMethodEnd saved ;; sret 0) (st.1, rest)
    (fun r st' => room st'.1 <= room st.1 + 1 /\ exists F', spec_step _ CallLeave r F' /\ represents st' F')).
  apply runs_bind, (leave_ok st k f fs _ saved rest Hrep Es). intros env' Hc He'. apply runs_ret.
  split; [cbn; lia|]. exists (mkFrames k fs). split; [constructor|done].
Qed.

Lemma sim_return st k f fs result obj : represents st (mkFrames (NativeFrame :: k) (f :: fs)) ->
  decodes (mkFrames (NativeFrame :: k) (f :: fs)) result obj ->
  simulates st (mkFrames (NativeFrame :: k) (f :: fs)) (CallReturn result).
Proof.
  intros Hrep Hd. destruct (saved_cookie _ _ _ _ Hrep) as (saved & rest & Es).
  unfold simulates, exec_call, unsaved, runs. rewrite Es.
  apply (runs_on_env (JniMethodEndWithReference false result saved) (st.1, rest)
    (fun r st' => room st'.1 <= room st.1 + 1 /\ exists F', spec_step _ (CallReturn result) r F' /\ represents st' F')).
  pose proof Hrep as (cs & _ & He). apply runs_bind. eapply runs_mono; [apply (decode_held st.1 cs (NativeFrame :: k) (f :: fs) result obj He Hd)|].
  intros x env [-> ->]. apply runs_bind, (leave_ok st k f fs _ saved rest Hrep Es). intros env' Hc He'. apply runs_ret.
  split; [cbn; lia|]. exists (mkFrames k fs). split; [by constructor|done].
Qed.

Lemma live_moved t t' a b r visit : 0 <= a -> (forall x, x <> 0 -> visit x <> 0) ->
  (forall i, a <= i < b -> ref_at t' (Z.to_nat i) = moved visit (ref_at t (Z.to_nat i))
    /\ handle t' (Z.to_nat i) = handle t (Z.to_nat i)) -> live t' a b r = visit <$> live t a b r.
Proof.
  intros Ha Hv E. unfold live.
  destruct (Z.leb_spec a (ExtractIndex r)), (Z.ltb_spec (ExtractIndex r) b); try done. cbn [andb].
  destruct (E (ExtractIndex r) ltac:(lia)) as [-> ->]. unfold moved.
  destruct (Z.eqb_spec (ref_at t (Z.to_nat (ExtractIndex r))) 0) as [->|Hne]; [done|].
  rewrite (proj2 (Z.eqb_neq _ _) (Hv _ Hne)). cbn [negb andb]. by destruct (_ =? r).
Qed.

Lemma frames_moved t t' visit cs : (forall x, x <> 0 -> visit x <> 0) -> max_entries_ t' = max_entries_ t ->
  forall s fs, (forall i, 0 <= i < topIndex s -> ref_at t' (Z.to_nat i) = moved visit (ref_at t (Z.to_nat i))
    /\ handle t' (Z.to_nat i) = handle t (Z.to_nat i)) ->
  frames_ok t s cs fs -> frames_ok t' s cs (map (moved_frame visit) fs).
Proof.
  intros Hv Em. induction cs as [|c cs IH]; intros s [|f fs] E; try done. intros ([H1 H2 H3 H4 H5] & Hf & Hr).
  cbn. split_and!.
  - constructor; auto; [by rewrite Em| |].
    + rewrite H4. f_equal. unfold holes. f_equal. apply count_range_ext. intros i Hi. unfold null_at.
      destruct (E (Z.of_nat i) ltac:(lia)) as [Er _]. rewrite Nat2Z.id in Er. rewrite Er.
      apply eq_true_iff_eq. rewrite !Z.eqb_eq. symmetry. by apply moved_zero.
    + intros H. destruct (E (topIndex s - 1) ltac:(lia)) as [-> _]. rewrite moved_zero by done. auto.
  - intros r. unfold moved_frame. rewrite lookup_fmap, Hf. symmetry. apply live_moved; [lia|done|]. intros i Hi. apply E. lia.
  - apply IH; [|done]. intros i Hi. apply E. lia.
Qed.

Lemma sim_collect st F move : represents st F -> (forall x, x <> 0 -> move x <> 0) -> simulates st F (CallCollect move).
Proof.
  intros (cs & Hm & [Ht Hk Hmx Hf]) Hv. destruct F as [k fs].
  destruct (frames_top _ _ _ _ Ht Hf ltac:(done)) as (Hcap & _).
  apply runs_bind, runs_on_env, runs_on_locals, runs_bind, runs_get.
  eapply runs_mono; [apply visit_roots_ok; [done|done|unfold Capacity; lia]|].
  intros _ t' (Ht' & Es & Ek & Em & Href). apply runs_ret. split; [cbn; unfold Capacity; rewrite Es; lia|].
  exists (mkFrames k (map (moved_frame move) fs)). split; [constructor|]. exists cs. split; [done|].
  constructor; cbn [locals local_ref_cookie fst snd frames]; [done|congruence|congruence|]. rewrite Es.
  apply (frames_moved (locals st.1)); [done..| |done]. intros i Hi. destruct (Href (Z.to_nat i)) as [-> ->].
  unfold Capacity. by rewrite decide_True by lia.
Qed.

Lemma sim_trim st F : represents st F -> simulates st F CallTrim.
Proof.
  intros (cs & Hm & [Ht Hk Hmx Hf]). destruct F as [k fs].
  destruct (frames_top _ _ _ _ Ht Hf ltac:(done)) as (Hcap & _).
  apply runs_bind, runs_on_env, runs_on_locals. eapply runs_mono; [apply Trim_ok; [done|apply Hcap]|].
  intros _ t' (Ht' & Es & Ek & Em & Href). apply runs_ret. split; [cbn; unfold Capacity; rewrite Es; lia|].
  exists (mkFrames k fs). split; [constructor|]. exists cs. split; [done|].
  constructor; cbn [locals local_ref_cookie fst snd frames]; [done|congruence|congruence|]. rewrite Es.
  by apply (frames_agree (locals st.1)).
Qed.

Lemma simulation st F c : represents st F -> allowed IsCheckJniEnabled F c -> room st.1 < kLocalsMax -> simulates st F c.
Proof.
  intros Hrep Ha Hr. pose proof Hrep as (cs & _ & [_ _ _ Hf]). destruct F as [k [|f fs]]; [done|].
  destruct c; cbn in Ha.
  - by apply sim_new.
  - destruct Ha as [obj Hd]. by apply (sim_copy _ _ _ obj).
  - by apply sim_delete.
  - destruct Ha as [obj Hd]. by apply (sim_decode _ _ _ obj).
  - by apply sim_push.
  - destruct k as [|[] k], Ha as [E [obj Hd]]; try done. by apply (sim_pop _ _ _ _ _ obj).
  - by apply sim_enter.
  - destruct k as [|[] k]; try done. by apply sim_leave.
  - destruct k as [|[] k], Ha as [E [obj Hd]]; try done. by apply (sim_return _ _ _ _ _ obj).
  - by apply sim_collect.
  - by apply sim_trim.
Qed.

(** ** Clients *)

(** The next call of a client, given the results of its calls so far, the last one first. *)
Abbreviation client := (list Z -> call).

Fixpoint exec_client (next : client) (n : nat) (history : list Z) : SM JniState (list Z) :=
  match n with
  | O => sret history
  | S n => do r <- exec_call (next history); exec_client next n (r :: history)
  end.

(** The client respects the rules whatever the references it is given. *)
Fixpoint well_behaved (next : client) (n : nat) (history : list Z) (F : Frames) : Prop :=
  match n with
  | O => True
  | S n => allowed IsCheckJniEnabled F (next history)
      /\ forall r F', spec_step F (next history) r F' -> well_behaved next n (r :: history) F'
  end.

Inductive spec_run (next : client) : nat -> list Z -> Frames -> list Z -> Frames -> Prop :=
| run_done h F : spec_run next 0 h F h F
| run_step n h F r F1 h' F' : spec_step F (next h) r F1 -> spec_run next n (r :: h) F1 h' F' ->
    spec_run next (S n) h F h' F'.

Lemma client_runs next n : forall h F st, represents st F -> well_behaved next n h F ->
  room st.1 + Z.of_nat n <= kLocalsMax ->
  runs (exec_client next n h) st (fun h' st' => exists F', spec_run next n h F h' F' /\ represents st' F').
Proof.
  induction n as [|n IH]; intros h F st Hrep Hw Hr.
  - apply runs_ret. exists F. split; [constructor|done].
  - destruct Hw as [Ha Hnext]. apply runs_bind. eapply runs_mono; [by apply simulation; [..|lia]|].
    intros r st' (Hc & F1 & Hstep & Hrep1). eapply runs_mono; [apply (IH _ F1); [done|by apply Hnext|lia]|].
    intros h' st2 (F' & Hrun & Hrep'). exists F'. split; [by econstructor|done].
Qed.

Lemma new_env : exists env, NewEnv = Some env /\ represents (env, []) (mkFrames [] [∅]) /\ room env = 0.
Proof.
  pose proof prev_count. eexists. split; [reflexivity|]. split; [|done]. exists []. split; [done|].
  constructor; cbn [locals local_ref_cookie fst snd]; [|done|done|].
  - constructor; [|done|done|done]. cbn [table_]. apply Forall_replicate. constructor; cbn; [lia|by rewrite length_replicate].
  - cbn [frames frames_ok]. split_and!; [|intros r|done].
    + by constructor.
    + rewrite lookup_empty. symmetry. apply live_None. cbn. lia.
Qed.

End Refinement.

(** A client that makes a reference, enters a native method, makes another there, copies the
    first, deletes the second and returns the first. *)
Definition sample_client (history : list Z) : call :=
  match history with
  | [] => CallNew 1000
  | [r] => CallEnter
  | [_; r] => CallNew 2000
  | [r2; _; r] => CallCopy r
  | [_; r2; _; _] => CallDelete r2
  | [_; _; _; _; r] => CallReturn r
  | _ => CallEnter
  end.

#[local] Instance sample_runtime : JniRuntime :=
  { kIsDebugBuild := false; IsCheckJniEnabled := true; HandleScopeContains := fun _ => false }.
#[local] Instance sample_decoder : JniDecoder :=
  { ReadHandleScope := fun _ => 0; DecodeGlobal := fun _ => 0; DecodeWeakGlobal := fun _ => 0;
    IsClearedJniWeakGlobal := fun _ => false }.

Ltac step_inversion H := inversion H; clear H; subst;
  repeat match goal with H' : new_ref _ _ _ _ |- _ => inversion H'; clear H'; subst end; try done.


(** ** The limits of the table *)
Section Limits.
Context {HR : JniRuntime}.

(** An entry used again for each of [objs]. *)
Definition reused (objs : list Z) (e : IrtEntry) : IrtEntry := foldl (fun e obj => EntryAdd obj e) e objs.

Lemma reused_serial objs : forall e, entry_ok e -> entry_ok (reused objs e)
  /\ serial_ (reused objs e) = (serial_ e + Z.of_nat (length objs)) mod kIRTPrevCount.
Proof.
  induction objs as [|obj objs IH]; intros e He; cbn; pose proof prev_count; destruct (eo_serial _ He).
  - split; [done|]. rewrite Z.add_0_r, Z.mod_small; lia.
  - destruct (entry_add_ok obj e He) as [He' _]. destruct (IH _ He') as [IH1 IH2]. split; [done|]. unfold reused in IH2.
    rewrite IH2. unfold EntryAdd. cbn [serial_]. rewrite wrapu_small by (unfold in_u; lia).
    destruct (Z.eqb_spec (serial_ e + 1) kIRTPrevCount) as [E|E].
    + replace (serial_ e + Z.of_nat (S (length objs))) with (Z.of_nat (length objs) + 1 * kIRTPrevCount) by lia.
      rewrite Z.mod_add by lia. f_equal.
    + f_equal. lia.
Qed.


(** The table can be full although the current segment has a hole: after two references have
    been added to a table for two and the first removed, one hole is counted, and adding any
    object aborts. *)
Theorem full_table_with_hole : exists t0 t1, NewTable 1 2 kLocal = Some t0
  /\ (do r1 <- Add IRT_FIRST_SEGMENT 1000; do r2 <- Add IRT_FIRST_SEGMENT 2000; Remove IRT_FIRST_SEGMENT r1)%sm t0 = Some (true, t1)
  /\ numHoles (segment_state_ t1) = 1 /\ holes t1 0 (topIndex (segment_state_ t1)) = 1
  /\ forall obj, Add IRT_FIRST_SEGMENT obj t1 = None.
Proof.
  destruct HR as [[] c h]; do 2 eexists; (split; [reflexivity|]); (split; [vm_compute; reflexivity|]);
    (split; [reflexivity|]); (split; [reflexivity|]); intros obj; unfold Add, IsNull, sbind, irt_check; cbn;
    by destruct (obj =? 0).
Qed.
End Limits.


(** Three uses of the entry later, a deleted reference decodes to another object. *)
Example stale_reference_accepted : exists env h st, NewEnv = Some env
  /\ exec_client (fun h => match h with
       | [] => CallNew 1000
       | [r] => CallDelete r
       | [_; _] => CallNew 2000
       | [r; _; _] => CallDelete r
       | [_; _; _; _] => CallNew 3000
       | [r; _; _; _; _] => CallDelete r
       | [_; _; _; _; _; _] => CallNew 4000
       | _ => CallDecode (List.last h 0)
       end) 8 [] (env, []) = Some (4000 :: h, st).
Proof. do 3 eexists. split; [reflexivity|]. vm_compute. reflexivity. Qed.
